(* ===== verification/_CoqProject ===== *)
-Q . S2P
Prelude.v
Bytes.v
SimbricksBase.v
SimbricksQueue.v
SimbricksConn.v
SimbricksHandshake.v
IceStatus.v
IceBitops.v
IceBitopsSpec.v
IceTables.v
IceMatch.v
IceTcam.v
IcePackage.v
IceParserRt.v
IceRtBits.v
IceRtSafety.v
IceParser.v
IceParserSpec.v
IceCtlq.v
IceCtlqSpec.v
IceCtlqMem.v
IceAq.v
IceNvm.v
IceNvmSpec.v
IceCaps.v
E810Base.v
IceCtx.v
IceCtxSpec.v
E810Rss.v
E810Xsum.v
E810Tx.v
E810TxSpec.v
E810Tso.v
E810Queue.v
E810QueueSpec.v
E810Lan.v
E810Regs.v
E810RegsSpec.v
E810Rx.v
E810RxSpec.v
E810Adminq.v
E810AdminqSpec.v
IceWire.v
E810Driver.v
E810Ptp.v
VmuxDma.v
VdpdkThreads.v
Vdpdk.v
VdpdkSpec.v
VmuxDriver.v
VmuxDriverSpec.v
VmuxIrq.v
E810Irq.v
E810Cqp.v
E810CqpSpec.v
E810RegSwitch.v
E810Mem.v
VmuxE810.v
VmuxE810Spec.v
VmuxPolicy.v
