(* ===== verification/Prelude.v ===== *)
(** * vMux: verification of the device code

    vMux multiplexes network cards for virtual machines: a guest drives an
    emulated E810 whose model runs inside vMux.  Four parts are modelled here.

    - libsimbricks (src/src/libsimbricks/simbricks): the shared-memory message
      queues with which a device model talks to its peers, the handshake that
      sets them up over a Unix socket, and the network, PCIe and NIC interfaces
      on top of them.
    - the base code of the E810 (src/src/sims/nic/e810_bm/base): the packet
      parser with the package that configures it, bitmaps and TCAM keys, the control queues between
      driver and firmware, and the commands with which the driver reads the flash,
      learns the capabilities of the device and allocates resources.
    - the E810 device model (src/src/sims/nic/e810_bm):
      descriptor queues, transmission with segmentation and checksums, reception
      with receive side scaling and the switch, the PTP clock, and the admin queue
      that answers the commands of the driver, the control queue of RDMA, interrupts.
    - vMux itself (src/src): guest memory, interrupt throttling, the policy on switch
      rules, the network drivers, the polling of the E810 device, and the vDPDK device,
      the paravirtual alternative to the E810, with the threads that poll it.

    ** Files

    Every file opens with a description of the code it models.

    - [Prelude]: machine integers, arrays and byte strings, record update, the
      tactics and hint databases that the other files share.  [Bytes]: little and
      big endian numbers, loads and stores in a byte buffer.
    - [SimbricksBase]: base/if.h and proto.h, the inline operations on one queue
      (peek, poll, done, alloc, send, sync).  [SimbricksQueue]: the system of
      one producer and one consumer as a step relation, its invariant, and a
      refinement of an abstract channel.
    - [SimbricksConn]: base/if.c, network/if.c, pcie/if.c, nicif/nicif.c: pools,
      listening, connecting, intros, establishing, closing.  The system calls
      are the class [Os].  [SimbricksHandshake]: theorems about them.
    - [IceStatus]: the status codes.  [IceBitops]: bitmaps (ice_bitops.h).
      [IceBitopsSpec]: bitmaps as sets.
    - [IceTables]: the decoders of the parser tables (ice_imem.c, ice_metainit.c,
      ice_pg_cam.c, ice_bst_tcam.c, ice_ptype_mk.c, ice_mk_grp.c,
      ice_proto_grp.c, ice_flg_rd.c, ice_xlt_kb.c).  [IceMatch]: the searches in
      these tables.  [IceTcam]: the keys of the profile TCAM (ice_flex_pipe.c).
    - [IcePackage]: the enumeration of the package (ice_ddp.c) and the
      construction of the tables from it.
    - [IceParserRt]: the parser machine (ice_parser_rt.c).  [IceRtBits]: the bit
      fields it selects.  [IceRtSafety]: bounds and termination.
    - [IceParser]: the parser instance (ice_parser.c).  [IceParserSpec]: theorems
      about it.
    - [IceCtlq]: the control queues (ice_controlq.c, send functions of
      ice_common.c) over a heap of blocks and an environment (class [Env]).
      [IceCtlqSpec]: sending and receiving.  [IceCtlqMem]: allocation.
    - [IceAq]: admin commands over a device that answers them (class [AqDev]), the
      acquisition and release of resources (ice_common.c).  [IceNvm]: access to the
      flash (ice_nvm.c).  [IceNvmSpec]: theorems about it over firmware that serves
      reads of an image (class [FlashFw]).  [IceCaps]: capabilities and resources
      (ice_common.c).
    - [E810Base]: outcomes of the device model.  [E810Queue]: the descriptor
      queues (e810_queues.cc).  [E810QueueSpec]: the queue and its environment as a
      step relation, its invariant.
    - [IceCtx]: the packing of queue contexts in the driver (ice_common.c) over
      registers (class [RegSpace]).  [IceCtxSpec]: the bits of a packed context.
      [E810Lan]: the registers and functions of the device that receive and decode
      it, enabling and disabling of queues, the manager of the queues (e810_lan.cc,
      e810_bm.cc, e810_adminq.cc), and the theorems on both sides together.
    - [E810Regs]: the register arrays that [reg_mem_write32] and [reg_mem_read32] of
      e810_bm.cc index by the address the guest writes.  [E810RegsSpec]: which
      accesses leave them.  [E810RegSwitch]: the other registers, in the switch statements of
      the two functions, with the commands to the clock.  [E810Mem]: the two functions as a
      whole, with the calls into the other components that follow a write, and which
      accesses are undefined.
    - [E810Xsum]: checksums (xsums.cc).  [E810Tx]: the transmit queue
      (e810_lan.cc) over a network driver (class [TxDriver]).  [E810TxSpec]: plain
      packets.  [E810Tso]: segmentation and whole queues.
    - [E810Rss]: receive side scaling (rss.cc, e810_lan.cc).  [E810Rx]: reception
      (e810_lan.cc) and the switch (e810_switch.cc).  [E810RxSpec]: theorems about
      them.  [E810Ptp]: the clock (e810_ptp.cc).
    - [E810Adminq]: the admin queue of the device model (e810_adminq.cc).
      [E810AdminqSpec]: theorems about it.  [IceWire]: the control queue of the driver
      connected to a device that answers commands (class [Answers]) by the ring in
      memory.  [E810Driver]: the driver's functions on the device model.
    - [VmuxDma]: guest memory (vfio-server.hpp, nicbm.h).  [VdpdkThreads]: the polling
      threads of the vDPDK devices and their locks as a step relation.  [Vdpdk]: registers,
      transmission and reception of one device over DPDK (class [Dpdk]).  [VdpdkSpec]:
      theorems about it.  All three model devices/vdpdk.cpp.
    - [VmuxDriver]: the network drivers (drivers/driver.hpp, dpdk.hpp, flow_blocks.hpp,
      tap.hpp) over DPDK (class [Nic]).  [VmuxDriverSpec]: theorems about the DPDK driver.
      [VmuxE810]: the E810 device above the driver (devices/e810.hpp, policies/ptp.hpp,
      nicbm.h).  [VmuxE810Spec]: theorems about it.
    - [VmuxIrq]: interrupt throttling (interrupts/simbricks.hpp).  [E810Irq]: the way of an
      interrupt from a queue to its throttler (e810_lan.cc, e810_bm.cc, nicbm.h).
    - [E810Cqp]: the control queue and the completion event queues of RDMA (e810_cqp.cc,
      e810_ceq.cc).  [E810CqpSpec]: theorems about them.  [VmuxPolicy]: the switch policy
      (policies/policies.hpp, devices/e810.hpp).

    The parts meet where the code calls from one to the other: the descriptor
    queue hands descriptors in order to [process], whose subclass for
    transmission appends them to [ready_segments] (E810Tx) and for reception to
    [dcache] (E810Rx); its transfers are [IssueDma] (VmuxDma); an E810 sends with
    [eth_send] and asks for interrupts with [queue_interrupt] (E810Irq), which ends in
    [try_interrupt] (VmuxIrq).  The driver's
    [wr32] is the register write of the device (E810Lan), and a queue that is
    enabled with a context of the driver starts a run of E810QueueSpec.  A register
    write (E810Mem) calls the queues, the admin queue and the control queue of RDMA; the
    transfers and descriptors that it starts are results of the call, which the step
    relation of E810QueueSpec completes in any order.  The
    functions of [IceNvm] and [IceCaps] use a device through [AqDev]; [ctlq_dev]
    (IceAq) is its instance for the control queue, [wire_env] (IceWire) the
    environment of that queue, and [e810_answer] (E810Driver) the device model at
    the other end.  [dpdk_tx] (VmuxE810) is the instance of [TxDriver] for the DPDK driver,
    so that a packet of a guest is followed from its descriptors to the mbufs of the card.

    ** Conventions

    A C integer of w bits is a [Z] in [0, 2^w), and every conversion and every
    operation that can leave the range is wrapped where C wraps it.  Structs are
    records, enums inductive types, functions keep their names.  An array access
    goes through [rd] and [wr], which fail outside the array, so that "returns a
    result" includes "stays inside its arrays".  Failure of the C code (a status
    code, a negative result) is a value of the model; undefined behaviour ([None] or
    [Undef]) and [abort()] are distinct from it.  Where C modifies an object in place
    the model returns the new object.  Code outside this repository is an
    interface: the operating system ([Os]), the device and the allocator ([Env]),
    the network driver below the model ([TxDriver]), DPDK ([Dpdk], [Nic]); what a theorem needs to know of them is a class
    of its own ([RingDev], [EventDev], [DmaDev], [Grants], [FlashFw], [Pool],
    [NicLaws]) or a hypothesis,
    with a concrete instance.

    Loops without a structural bound take a number of iterations.  That it
    suffices is part of the theorems: the enumeration of a package ends within
    bounds computed from the size of the segment, the parser within the packet
    length + 1 iterations, the cleaning of a send queue within the number of its
    entries, the transmit loop within the number of packets it sends, the search for
    the size of the flash within 24 reads, a transmission of the vDPDK device within the
    number of descriptors of the ring + 1, copying a buffer into mbufs within its length,
    the release of a burst within 32 iterations.  Loops that
    wait for a peer are proved to end once the peer acts.

    ** Theorems

    - Queues (C1-C4): FIFO delivery under every interleaving, refinement of a
      channel, progress, arrival times; the synchronisation interval next to them.
    - Connections (C5-C6): both sides agree on the queues, establishment is safe
      for all answers of the operating system.  That closing sends a termination message
      and two defects of the code are proved next to them.
    - E810 data path (C7-C10, C15-C16): what a queue of descriptors sends; order,
      safety and bounds of descriptor queues; what a received packet writes; the
      Toeplitz hash; checksums.  The same files prove that a guest can stop the
      transmit loop and overflow its buffer, which rule of the switch applies, the
      slots of the write-back and the clock.
    - Guest memory and interrupts (C11, C17): which writes succeed, what they change, that
      they stay inside the regions of the guest unless they pass the end of the address
      space, and are read back; an interrupt comes once and in time.  The
      table of regions has its invariant in [VmuxDma].
    - Queue contexts (C12-C13): what the driver configures is what the device
      decodes (of the largest packet only 16 bits), and begins a run of the queue.  The bits of a packed context, and that
      the driver's functions that read a context back lose every field, are proved
      next to them.
    - Registers (C14): the exact accesses that are undefined, those of the functions that a
      write calls included, and that all others keep the device well-formed.  The base
      addresses of the admin queues and the time stamps of transmissions are proved in
      [E810RegSwitch].
    - Admin queue (C18-C20): the well-formedness of its state and the bounds of its
      buffers, the completion of every command, the commands that end in [abort()], follow a
      null pointer or divide by zero; the bytes of the stack that
      reach the guest and the elements of the scheduling tree in the same file.
    - Driver and device (C21, C25): a command through the ring is a call of the
      device; on the device model the driver learns the capabilities, and initialises its
      flash ([E810Driver]).
    - Flash (C22): reads of any length equal reads of the image.  That the search for the
      size of the flash ends with it, what a tool can reach, and the bounds of parsing
      capabilities are proved in [IceNvmSpec] and [IceCaps].
    - RDMA control queue and interrupts (C23-C24): what a doorbell of the control queue
      does; which throttler the interrupt of a queue goes to, and which vectors leave the
      arrays.  That the control queue stops after 1023 entries and survives a reset is
      proved next to C23.
    - Network driver (C26-C28): polling delivers every received packet once; a packet to
      segment reaches the card whole, or the model sends its segments; other packets are sent or dropped
      if they fit into an mbuf, and overwrite memory if not.  The addresses of the
      machines and the rotation of PTP packets are proved next to them.
    - vDPDK (C29-C34): a device reads and writes guest memory only, unless a region lies at
      the top of the address space; transmission ends,
      what it sends and which mbufs it gives back; what a guest receives; the mapping of
      guest memory does not change under a poller; a change of it deadlocks when threads are
      shared.  That it can be completed when they are not is proved next to C33.
    - Package (C35): building a table refines placing the entries that the segment
      denotes.  The decoders and searches of the tables have their theorems in
      [IceTables] and [IceMatch].
    - Parser (C36): termination and bounds of a run, and its result; field selection in network order
      ([IceRtBits]), profiles, double VLAN mode, tunnel ports and creation next to it.
    - Bitmaps and keys (C37-C38): loops over a bitmap visit the members of the set it holds,
      and the operations on bitmaps are those on sets ([IceBitopsSpec]); a generated key
      matches what its value and masks say.
    - Control queues (C39-C40): sending, the memory of a send queue over its life;
      receiving in the same files.

    ** Not modelled

    The other NIC models, the throttlers that no device uses, the set-up of vfio-user and DPDK (calls of
    libraries), timestamps of DPDK, output for debugging, and the rest of the base code (package download, switch, scheduler, flow
    and PTP functions of the driver that the device model does not call).  Memory ordering
    between the two peers of a queue is the sequential interleaving of their accesses to
    an entry; of the threads of vMux only the polling threads of the vDPDK devices are
    interleaved: a call of [tx_poll] or [rx_callback_fn] is the lookup of its addresses and
    then their use. *)
From Stdlib Require Export ZArith Lia Bool.
From stdpp Require Export base numbers list option.

Declare Scope cint_scope.
Delimit Scope cint_scope with cint.
Open Scope Z_scope.

(** ** Machine integers

    A C integer of [w] bits is a [Z] in [0, 2^w); the conversion to a narrower
    unsigned type keeps the low bits. *)

Definition wrap (w x : Z) : Z := x mod 2 ^ w.
Abbreviation u8 := (wrap 8).
Abbreviation u16 := (wrap 16).
Abbreviation u32 := (wrap 32).
Abbreviation u64 := (wrap 64).

Infix ".&" := Z.land (at level 40, left associativity) : cint_scope.
Infix ".|" := Z.lor (at level 50, left associativity) : cint_scope.
Infix ".>>" := Z.shiftr (at level 37, left associativity) : cint_scope.
Infix ".<<" := Z.shiftl (at level 37, left associativity) : cint_scope.
Open Scope cint_scope.

(** C's test of an integer used as a condition, [x != 0]. *)
Definition nz (x : Z) : bool := negb (x =? 0).

Definition in_width (w x : Z) : Prop := 0 <= x < 2 ^ w.

(** The unsigned complement [~x] of a [w]-bit value. *)
Definition cnot (w x : Z) : Z := wrap w (Z.lnot x).

Lemma wrap_width w x : 0 <= w → in_width w (wrap w x).
Proof. intros. apply Z.mod_pos_bound. lia. Qed.

Lemma wrap_small w x : in_width w x → wrap w x = x.
Proof. intros. by apply Z.mod_small. Qed.

Lemma wrap_wrap w x : wrap w (wrap w x) = wrap w x.
Proof. apply Zmod_mod. Qed.

Lemma in_width_weaken v w x : v <= w → in_width v x → in_width w x.
Proof.
  unfold in_width. intros Hle [? ?]. split; [done|].
  apply Z.lt_le_trans with (2 ^ v); [done|]. apply Z.pow_le_mono_r; lia.
Qed.

Lemma testbit_wrap w x i : 0 <= w → 0 <= i →
  Z.testbit (wrap w x) i = (i <? w) && Z.testbit x i.
Proof.
  intros. unfold wrap. destruct (Z.ltb_spec i w).
  - by rewrite Z.mod_pow2_bits_low by lia.
  - by rewrite Z.mod_pow2_bits_high by lia.
Qed.

Lemma testbit_above w x i : in_width w x → 0 <= w <= i → Z.testbit x i = false.
Proof.
  intros Hx ?. rewrite <- (wrap_small w x) by done.
  rewrite testbit_wrap by lia. by rewrite (proj2 (Z.ltb_ge i w)) by lia.
Qed.

Lemma in_width_bits w x : 0 <= w → 0 <= x →
  (∀ i, w <= i → Z.testbit x i = false) → in_width w x.
Proof.
  intros Hw Hx Hb. replace x with (wrap w x).
  { by apply wrap_width. }
  apply Z.bits_inj'. intros i Hi. rewrite testbit_wrap by lia.
  destruct (Z.ltb_spec i w); [done|]. by rewrite Hb.
Qed.

Lemma in_width_lor w x y : 0 <= w → in_width w x → in_width w y → in_width w (x .| y).
Proof.
  intros Hw Hx Hy. apply in_width_bits; [done| |].
  - apply Z.lor_nonneg. unfold in_width in *. lia.
  - intros i Hi. rewrite Z.lor_spec.
    by rewrite (testbit_above w x), (testbit_above w y) by (done || lia).
Qed.

Lemma in_width_land_l w x y : 0 <= w → in_width w x → in_width w (x .& y).
Proof.
  intros Hw Hx. apply in_width_bits; [done| |].
  - apply Z.land_nonneg. left. apply Hx.
  - intros i Hi. rewrite Z.land_spec. by rewrite (testbit_above w x) by (done || lia).
Qed.

(** ** Bit fields

    [slice x lo n] is the [n]-bit field of [x] whose lowest bit is bit [lo].
    The table decoders read such fields through loads that straddle several
    bytes, shifts and masks; the lemmas below turn each of those reads into a
    [slice] of the whole entry. *)

Definition slice (x lo n : Z) : Z := wrap n (x .>> lo).

Lemma slice_bit x lo n i : 0 <= lo → 0 <= n → 0 <= i →
  Z.testbit (slice x lo n) i = (i <? n) && Z.testbit x (lo + i).
Proof.
  intros. unfold slice. rewrite testbit_wrap by lia.
  rewrite Z.shiftr_spec by lia. by rewrite Z.add_comm.
Qed.

Lemma slice_width x lo n : 0 <= n → in_width n (slice x lo n).
Proof. intros. by apply wrap_width. Qed.

Lemma slice_slice x a m b n : 0 <= a → 0 <= b → 0 <= n → b + n <= m →
  slice (slice x a m) b n = slice x (a + b) n.
Proof.
  intros. apply Z.bits_inj'. intros i Hi.
  rewrite !slice_bit by lia.
  destruct (Z.ltb_spec i n); simpl; [|done].
  by rewrite (proj2 (Z.ltb_lt (b + i) m)), Z.add_assoc by lia.
Qed.

Lemma shiftr_slice x a m k : 0 <= a → 0 <= k <= m →
  slice x a m .>> k = slice x (a + k) (m - k).
Proof.
  intros. apply Z.bits_inj'. intros i Hi.
  rewrite Z.shiftr_spec, !slice_bit by lia.
  replace (i + k <? m) with (i <? m - k) by lia. do 2 f_equal. lia.
Qed.

Lemma land_ones_slice x n mask : 0 <= n → mask = Z.ones n → x .& mask = slice x 0 n.
Proof. intros ? ->. unfold slice, wrap. by rewrite Z.land_ones, Z.shiftr_0_r by lia. Qed.

(** A field read out of a loaded word: [(d >> k) & mask]. *)
Lemma field_slice x a m k n mask :
  0 <= a → 0 <= k → 0 <= n → k + n <= m → mask = Z.ones n →
  (slice x a m .>> k) .& mask = slice x (a + k) n.
Proof.
  intros. rewrite (land_ones_slice _ n) by lia.
  rewrite shiftr_slice, slice_slice by lia. f_equal; lia.
Qed.

Lemma field0_slice x a m n mask :
  0 <= a → 0 <= n <= m → mask = Z.ones n → slice x a m .& mask = slice x a n.
Proof.
  intros. rewrite (land_ones_slice _ n) by lia. rewrite slice_slice by lia.
  f_equal; lia.
Qed.

Lemma wrap_slice w x lo n : 0 <= n <= w → wrap w (slice x lo n) = slice x lo n.
Proof.
  intros. apply wrap_small. apply in_width_weaken with n; [lia|].
  apply slice_width. lia.
Qed.

Lemma nz_slice1 x p : 0 <= p → nz (slice x p 1) = Z.testbit x p.
Proof.
  intros. unfold nz, slice, wrap. rewrite Z.shiftr_div_pow2 by lia.
  change (2 ^ 1) with 2. rewrite <- Z.testbit_spec' by lia.
  by destruct (Z.testbit x p).
Qed.

(** ** Little-endian memory

    A buffer is a list of bytes.  The host is x86-64, so reading
    a [u64] through a pointer to [buf[i]] gives the little-endian value of
    eight bytes. *)

Definition byte_ok (b : Z) : Prop := in_width 8 b.
Abbreviation bytes_ok := (Forall byte_ok).

Fixpoint le (bs : list Z) : Z :=
  match bs with
  | [] => 0
  | b :: bs' => b + 2 ^ 8 * le bs'
  end.

(** The bytes of an [n]-byte value, lowest first. *)
Fixpoint le_bytes (n : nat) (x : Z) : list Z :=
  match n with
  | O => []
  | S n' => u8 x :: le_bytes n' (x .>> 8)
  end.

(** [n] bytes at offset [off]; [None] when the access leaves the buffer. *)
Definition bytes_at (n : nat) (buf : list Z) (off : Z) : option (list Z) :=
  if (0 <=? off) && (off + Z.of_nat n <=? Z.of_nat (length buf))
  then Some (take n (drop (Z.to_nat off) buf)) else None.

Definition load (n : nat) (buf : list Z) (off : Z) : option Z :=
  le <$> bytes_at n buf off.

(** Check of a concrete byte list. *)
Lemma bytes_ok_check bs : forallb (fun b => (0 <=? b) && (b <? 256)) bs = true → bytes_ok bs.
Proof.
  intros Hb. apply List.Forall_forall. intros b Hin.
  apply (proj1 (List.forallb_forall _ _) Hb) in Hin.
  apply andb_true_iff in Hin as [H0 H1]. apply Z.leb_le in H0. apply Z.ltb_lt in H1.
  split; [done|]. by change (2 ^ 8) with 256.
Qed.

Lemma le_nonneg_bound bs : bytes_ok bs → in_width (8 * Z.of_nat (length bs)) (le bs).
Proof.
  unfold in_width, byte_ok. induction 1 as [|b bs Hb Hbs IH]; simpl; [lia|].
  unfold in_width in Hb. rewrite Nat2Z.inj_succ.
  replace (8 * Z.succ (Z.of_nat (length bs)))
    with (8 + 8 * Z.of_nat (length bs)) by lia.
  rewrite Z.pow_add_r by lia. nia.
Qed.

Lemma le_app xs ys : le (xs ++ ys) = le xs + 2 ^ (8 * Z.of_nat (length xs)) * le ys.
Proof.
  induction xs as [|x xs IH]; simpl; [lia|].
  rewrite IH, Nat2Z.inj_succ.
  replace (8 * Z.succ (Z.of_nat (length xs)))
    with (8 + 8 * Z.of_nat (length xs)) by lia.
  rewrite Z.pow_add_r by lia. lia.
Qed.

Lemma le_take_drop n k bs : bytes_ok bs → (k + n <= length bs)%nat →
  le (take n (drop k bs)) = slice (le bs) (8 * Z.of_nat k) (8 * Z.of_nat n).
Proof.
  intros Hok Hlen. unfold slice, wrap.
  rewrite <- (take_drop k bs) at 2. rewrite <- (take_drop n (drop k bs)) at 2.
  rewrite !le_app. rewrite !length_take, length_drop.
  replace (k `min` length bs)%nat with k by lia.
  replace (n `min` (length bs - k))%nat with n by lia.
  pose proof (le_nonneg_bound (take k bs) ltac:(by apply Forall_take)) as [Hl Hh].
  pose proof (le_nonneg_bound (take n (drop k bs))
    ltac:(by apply Forall_take, Forall_drop)) as [Hl' Hh'].
  rewrite length_take in Hh, Hh'. rewrite length_drop in Hh'.
  replace (k `min` length bs)%nat with k in Hh by lia.
  replace (n `min` (length bs - k))%nat with n in Hh' by lia.
  rewrite Z.shiftr_div_pow2 by lia.
  rewrite Z.mul_comm, Z.div_add, Z.div_small by lia.
  rewrite Z.add_0_l, Z.mul_comm, Z.mod_add, Z.mod_small by lia. done.
Qed.

Lemma load_slice n buf off v : bytes_ok buf → load n buf off = Some v →
  v = slice (le buf) (8 * off) (8 * Z.of_nat n).
Proof.
  unfold load, bytes_at. intros Hok.
  destruct (Z.leb_spec 0 off), (Z.leb_spec (off + Z.of_nat n) (Z.of_nat (length buf)));
    simpl; intros [= <-].
  rewrite le_take_drop by (done || lia). by rewrite Z2Nat.id by lia.
Qed.

Lemma load_in_range n buf off :
  0 <= off → off + Z.of_nat n <= Z.of_nat (length buf) → bytes_ok buf →
  load n buf off = Some (slice (le buf) (8 * off) (8 * Z.of_nat n)).
Proof.
  intros. destruct (load n buf off) eqn:E.
  - by apply load_slice in E as ->.
  - unfold load, bytes_at in E. destruct (Z.leb_spec 0 off); [|lia].
    destruct (Z.leb_spec (off + Z.of_nat n) (Z.of_nat (length buf))); [done|lia].
Qed.

Lemma length_le_bytes n x : length (le_bytes n x) = n.
Proof. revert x. induction n; intros; simpl; auto. Qed.

Lemma le_bytes_ok n x : bytes_ok (le_bytes n x).
Proof.
  revert x. induction n; intros; simpl; constructor; auto.
  by apply wrap_width.
Qed.

Lemma le_le_bytes n x : le (le_bytes n x) = wrap (8 * Z.of_nat n) x.
Proof.
  revert x. induction n as [|n IH]; intros x; simpl.
  { unfold wrap. change (8 * Z.of_nat 0) with 0. by rewrite Z.mod_1_r. }
  rewrite IH. unfold wrap. rewrite Z.shiftr_div_pow2 by lia.
  rewrite Nat2Z.inj_succ.
  replace (8 * Z.succ (Z.of_nat n)) with (8 + 8 * Z.of_nat n) by lia.
  rewrite Z.pow_add_r by lia. by rewrite Z.rem_mul_r by lia.
Qed.

(** ** Arrays

    [rd a i] is [a[i]] and [wr a i x] is [a[i] = x]; both are [None] when the
    index is outside the array, which in C is undefined behaviour.  A function
    that can perform such an access returns an [option], and that it returns
    [Some] is a theorem to prove. *)

Definition rd {A} (a : list A) (i : Z) : option A :=
  if 0 <=? i then a !! Z.to_nat i else None.

Definition wr {A} (a : list A) (i : Z) (x : A) : option (list A) :=
  if (0 <=? i) && (i <? Z.of_nat (length a)) then Some (<[Z.to_nat i := x]> a)
  else None.

Section arrays.
  Context {A : Type}.
  Implicit Types (a : list A).

Lemma rd_in_range a i : 0 <= i < Z.of_nat (length a) → is_Some (rd a i).
  Proof.
    intros. unfold rd. destruct (Z.leb_spec 0 i); [|lia].
    apply lookup_lt_is_Some. lia.
  Qed.

Lemma rd_out a i : Z.of_nat (length a) <= i → rd a i = None.
  Proof. intros. unfold rd. destruct (0 <=? i); [|done]. apply lookup_ge_None_2. lia. Qed.

Lemma rd_Some a i x : rd a i = Some x → 0 <= i < Z.of_nat (length a).
  Proof.
    unfold rd. destruct (Z.leb_spec 0 i); [|done]. intros H'%lookup_lt_Some. lia.
  Qed.

Lemma rd_Forall (P : A → Prop) a i x : Forall P a → rd a i = Some x → P x.
  Proof.
    unfold rd. intros HF. case_match; [|done]. intros. by eapply Forall_lookup_1.
  Qed.

Lemma wr_in_range a i x : 0 <= i < Z.of_nat (length a) →
    wr a i x = Some (<[Z.to_nat i := x]> a).
  Proof.
    intros. unfold wr. destruct (Z.leb_spec 0 i); [|lia].
    destruct (Z.ltb_spec i (Z.of_nat (length a))); [done|lia].
  Qed.

Lemma wr_out a i x : Z.of_nat (length a) <= i → wr a i x = None.
  Proof. intros. unfold wr. rewrite (proj2 (Z.ltb_ge _ _)) by lia. by rewrite andb_false_r. Qed.

Lemma wr_Some a i x a' : wr a i x = Some a' →
    0 <= i < Z.of_nat (length a) ∧ a' = <[Z.to_nat i := x]> a.
  Proof.
    unfold wr. destruct (Z.leb_spec 0 i), (Z.ltb_spec i (Z.of_nat (length a)));
      simpl; intros [= <-]; split; (lia || done).
  Qed.

Lemma wr_length a i x a' : wr a i x = Some a' → length a' = length a.
  Proof. intros [_ ->]%wr_Some. apply length_insert. Qed.

Lemma wr_Forall (P : A → Prop) a i x a' :
    Forall P a → P x → wr a i x = Some a' → Forall P a'.
  Proof. intros ? ? [_ ->]%wr_Some. by apply Forall_insert. Qed.

Lemma rd_wr_eq a i x a' : wr a i x = Some a' → rd a' i = Some x.
  Proof.
    intros [? ->]%wr_Some. unfold rd. destruct (Z.leb_spec 0 i); [|lia].
    apply list_lookup_insert_eq. lia.
  Qed.

Lemma rd_wr_ne a i j x a' : wr a i x = Some a' → i ≠ j → rd a' j = rd a j.
  Proof.
    intros [? ->]%wr_Some ?. unfold rd. destruct (Z.leb_spec 0 j); [|done].
    apply list_lookup_insert_ne. lia.
  Qed.
End arrays.

(** ** Loops

    [for_range lo hi body s] is [for (i = lo; i < hi; i++) s = body(i, s)].
    The body is partial, so a loop stops with [None] at its first undefined
    access.  [for_break] is the same loop whose body may leave it. *)

Inductive ctl (S : Type) : Type :=
| Next (s : S)
| Break (s : S).
Arguments Next {S} _.
Arguments Break {S} _.

Definition ctl_state {S} (c : ctl S) : S :=
  match c with Next s | Break s => s end.

Section loops.
  Context {S : Type}.

Fixpoint for_loop (n : nat) (i : Z) (body : Z → S → option S) (s : S) : option S :=
    match n with
    | O => Some s
    | Datatypes.S n' => s' ← body i s; for_loop n' (i + 1) body s'
    end.

Definition for_range (lo hi : Z) (body : Z → S → option S) (s : S) : option S :=
    for_loop (Z.to_nat (hi - lo)) lo body s.

Fixpoint for_loop_break (n : nat) (i : Z) (body : Z → S → option (ctl S)) (s : S)
      : option S :=
    match n with
    | O => Some s
    | Datatypes.S n' =>
        c ← body i s;
        match c with
        | Next s' => for_loop_break n' (i + 1) body s'
        | Break s' => Some s'
        end
    end.

Definition for_break (lo hi : Z) (body : Z → S → option (ctl S)) (s : S) : option S :=
    for_loop_break (Z.to_nat (hi - lo)) lo body s.

  (** Loop rule for total correctness: an invariant that every iteration
      re-establishes holds at the end, and the loop has no undefined access. *)
Lemma for_range_total (P : Z → S → Prop) lo hi body s :
    lo <= hi → P lo s →
    (∀ i s, lo <= i < hi → P i s → ∃ s', body i s = Some s' ∧ P (i + 1) s') →
    ∃ s', for_range lo hi body s = Some s' ∧ P hi s'.
  Proof.
    unfold for_range. intros Hle HP Hbody.
    remember (Z.to_nat (hi - lo)) as n eqn:Hn. revert lo s Hle HP Hbody Hn.
    induction n as [|n IH]; intros lo s Hle HP Hbody Hn; simpl.
    { exists s. split; [done|]. by replace hi with lo by lia. }
    destruct (Hbody lo s ltac:(lia) HP) as (s' & -> & HP'). simpl.
    apply (IH (lo + 1)); [lia|done| |lia]. intros; apply Hbody; [lia|done].
  Qed.

  (** Partial-correctness rule, for loops whose success is already known. *)
Lemma for_range_inv (P : Z → S → Prop) lo hi body s s' :
    lo <= hi → P lo s →
    (∀ i s s', lo <= i < hi → P i s → body i s = Some s' → P (i + 1) s') →
    for_range lo hi body s = Some s' → P hi s'.
  Proof.
    unfold for_range. intros Hle HP Hbody.
    remember (Z.to_nat (hi - lo)) as n eqn:Hn. revert lo s Hle HP Hbody Hn.
    induction n as [|n IH]; intros lo s Hle HP Hbody Hn; simpl.
    { intros [= <-]. by replace hi with lo by lia. }
    destruct (body lo s) as [s1|] eqn:E; simpl; [|done].
    apply (IH (lo + 1)); [lia| |intros; eapply Hbody; [lia|done..]|lia].
    eapply Hbody; [lia|done..].
  Qed.

Lemma for_break_total (P : Z → S → Prop) (Q : S → Prop) lo hi body s :
    lo <= hi → P lo s → (∀ s, P hi s → Q s) →
    (∀ i s, lo <= i < hi → P i s →
      ∃ c, body i s = Some c ∧
        match c with Next s' => P (i + 1) s' | Break s' => Q s' end) →
    ∃ s', for_break lo hi body s = Some s' ∧ Q s'.
  Proof.
    unfold for_break. intros Hle HP HQ Hbody.
    remember (Z.to_nat (hi - lo)) as n eqn:Hn. revert lo s Hle HP Hbody Hn.
    induction n as [|n IH]; intros lo s Hle HP Hbody Hn; simpl.
    { exists s. split; [done|]. apply HQ. by replace hi with lo by lia. }
    destruct (Hbody lo s ltac:(lia) HP) as (c & -> & HP'). simpl.
    destruct c as [s'|s']; [|eauto].
    apply (IH (lo + 1)); [lia|done| |lia]. intros; apply Hbody; [lia|done].
  Qed.

Lemma for_break_inv (P : Z → S → Prop) (Q : S → Prop) lo hi body s s' :
    lo <= hi → P lo s → (∀ s, P hi s → Q s) →
    (∀ i s c, lo <= i < hi → P i s → body i s = Some c →
        match c with Next s' => P (i + 1) s' | Break s' => Q s' end) →
    for_break lo hi body s = Some s' → Q s'.
  Proof.
    unfold for_break. intros Hle HP HQ Hbody.
    remember (Z.to_nat (hi - lo)) as n eqn:Hn. revert lo s Hle HP Hbody Hn.
    induction n as [|n IH]; intros lo s Hle HP Hbody Hn; simpl.
    { intros [= <-]. apply HQ. by replace hi with lo by lia. }
    destruct (body lo s) as [c|] eqn:E; simpl; [|done].
    pose proof (Hbody lo s c ltac:(lia) HP E) as Hc.
    destruct c as [s1|s1]; [|by intros [= <-]].
    apply (IH (lo + 1)); [lia|done|intros; eapply Hbody; [lia|done..]|lia].
  Qed.
End loops.

(** ** Automation *)

Create HintDb cint.
#[export] Hint Resolve wrap_width in_width_lor in_width_land_l slice_width : cint.
#[export] Hint Extern 1 (_ <= _) => lia : cint.
#[export] Hint Extern 1 (_ < _) => lia : cint.

(** *** Loops without a counter

    [iterate p body s] runs [body] at most [p] times; [inl] asks for another
    iteration, [inr] leaves the loop.  The bound is a binary number, so that it
    can be large without slowing down evaluation. *)
Section iterate.
Context {S R : Type} (body : S → option (S + R)).

Fixpoint iterate_nat (n : nat) (s : S) : option (S + R) :=
  match n with
  | O => Some (inl s)
  | Datatypes.S n' =>
      r ← body s;
      match r with inl s' => iterate_nat n' s' | inr q => Some (inr q) end
  end.

Definition and_then (f g : S → option (S + R)) (s : S) : option (S + R) :=
  r ← f s;
  match r with inl s' => g s' | inr q => Some (inr q) end.

Fixpoint iterate (p : positive) (s : S) : option (S + R) :=
  match p with
  | xH => body s
  | xO p' => and_then (fun s => iterate p' s) (fun s => iterate p' s) s
  | xI p' => and_then body (and_then (fun s => iterate p' s) (fun s => iterate p' s)) s
  end.

Lemma iterate_nat_add n m s :
  iterate_nat (n + m) s = and_then (iterate_nat n) (iterate_nat m) s.
Proof.
  unfold and_then. revert s. induction n as [|n IH]; intros s; simpl; [done|].
  destruct (body s) as [[s'|q]|]; simpl; [apply IH|done..].
Qed.

Lemma iterate_unfold p s : iterate p s = iterate_nat (Pos.to_nat p) s.
Proof.
  revert s. induction p as [p IH|p IH|]; intros s; cbn [iterate].
  - rewrite Pos2Nat.inj_xI. change (Datatypes.S (2 * Pos.to_nat p))%nat
      with (1 + (Pos.to_nat p + (Pos.to_nat p + 0)))%nat. rewrite Nat.add_0_r.
    rewrite iterate_nat_add. unfold and_then at 1 3. simpl.
    destruct (body s) as [[s'|q]|]; simpl; [|done..].
    rewrite iterate_nat_add. unfold and_then. rewrite IH.
    destruct (iterate_nat _ s') as [[s2|q]|]; simpl; auto.
  - rewrite Pos2Nat.inj_xO. change (2 * Pos.to_nat p)%nat
      with (Pos.to_nat p + (Pos.to_nat p + 0))%nat. rewrite Nat.add_0_r.
    rewrite iterate_nat_add. unfold and_then. rewrite IH.
    destruct (iterate_nat _ s) as [[s2|q]|]; simpl; auto.
  - simpl. by destruct (body s) as [[]|].
Qed.

(** A loop whose state decreases in [m] leaves within the bound [p], when every
    iteration that starts with the invariant re-establishes it or leaves with
    [Q]. *)
Lemma iterate_total (P : S → Prop) (Q : R → Prop) (m : S → Z) p s :
  P s → 0 <= m s < Zpos p →
  (∀ s, P s → ∃ r, body s = Some r ∧
     match r with inl s' => P s' ∧ 0 <= m s' < m s | inr q => Q q end) →
  ∃ q, iterate p s = Some (inr q) ∧ Q q.
Proof.
  intros HP Hm Hbody. rewrite iterate_unfold.
  assert (m s < Z.of_nat (Pos.to_nat p)) as Hlt by lia.
  destruct Hm as [H0 _]. generalize dependent s.
  induction (Pos.to_nat p) as [|n IH]; intros s HP H0 Hlt; [lia|]. simpl.
  destruct (Hbody s HP) as (r & -> & Hr). simpl. destruct r as [s'|q]; [|by eauto].
  destruct Hr as [HP' Hm']. apply IH; [done|lia..].
Qed.

(** An invariant of the body holds whenever the loop stops or is stopped. *)
Lemma iterate_inv (P : S → Prop) (Q : R → Prop) p s r :
  P s →
  (∀ s r, P s → body s = Some r → match r with inl s' => P s' | inr q => Q q end) →
  iterate p s = Some r → match r with inl s' => P s' | inr q => Q q end.
Proof.
  intros HP Hbody. rewrite iterate_unfold. revert s HP.
  induction (Pos.to_nat p) as [|n IH]; intros s HP; simpl; [by intros [= <-]|].
  destruct (body s) as [r'|] eqn:E; simpl; [|done].
  pose proof (Hbody s r' HP E) as Hr. destruct r'; [by apply IH|by intros [= <-]].
Qed.
End iterate.

(** Destruct the boolean test in the goal or in a hypothesis and turn it into
    the arithmetic fact it decides. *)
Ltac bool_to_prop :=
  repeat match goal with
  | H : _ && _ = true |- _ => apply andb_true_iff in H as [? ?]
  | H : _ || _ = false |- _ => apply orb_false_iff in H as [? ?]
  | H : negb _ = true |- _ => apply negb_true_iff in H
  | H : negb _ = false |- _ => apply negb_false_iff in H
  | H : (_ =? _) = true |- _ => apply Z.eqb_eq in H
  | H : (_ =? _) = false |- _ => apply Z.eqb_neq in H
  | H : (_ <? _) = true |- _ => apply Z.ltb_lt in H
  | H : (_ <? _) = false |- _ => apply Z.ltb_ge in H
  | H : (_ <=? _) = true |- _ => apply Z.leb_le in H
  | H : (_ <=? _) = false |- _ => apply Z.leb_gt in H
  end.

(** Split an equation [e = Some v] along the binds and tests of [e]. *)
Ltac inv_some :=
  repeat match goal with
  | H : Some _ = Some _ |- _ => injection H as H; subst
  | H : None = Some _ |- _ => discriminate H
  | H : (_ ≫= _) = Some _ |- _ => apply bind_Some in H as (? & ? & H)
  | H : (_ <$> _) = Some _ |- _ => apply fmap_Some in H as (? & ? & H)
  | H : (if ?b then _ else _) = Some _ |- _ => destruct b eqn:?
  end.

(** Rewrite every load, shift and mask of a decoder into a [slice]; the width of
    a field is the number of ones of its mask. *)
Ltac mask_slice :=
  match goal with
  | |- context [slice ?x ?a ?m .& ?mask] =>
      let n := eval vm_compute in (Z.log2 (mask + 1)) in
      rewrite (field0_slice x a m n mask) by (lia || reflexivity)
  end.

Ltac to_slice :=
  repeat first
    [ rewrite load_in_range by (assumption || lia)
    | rewrite shiftr_slice by lia
    | mask_slice
    | rewrite wrap_slice by lia
    | rewrite nz_slice1 by lia ].

(** ** Record update

    [r <| f := v |>] is the C assignment [r->f = v] on a struct modelled as a
    record.  A record type declares its constructor applied to its projections
    with an instance of [Settable]; the update of any one field is found by
    abstracting that field in the term. *)

Class Settable (R : Type) := eta_record : R → R.
Class Setter {R T : Type} (proj : R → T) := set_field : (T → T) → R → R.
Arguments set_field {R T} proj {_} _ _ /.

Ltac solve_setter :=
  match goal with
  | |- @Setter ?R ?T ?proj =>
      let inst := constr:(_ : Settable R) in
      let e := eval red in inst in
      match eval pattern proj in e with
      | ?upd _ => exact (fun (g : T → T) => upd (fun r => g (proj r)))
      end
  end.
#[export] Hint Extern 0 (Setter _) => solve_setter : typeclass_instances.

Declare Scope record_scope.
Open Scope record_scope.
Notation "r <| proj := v |>" := (set_field proj (fun _ => v) r)
  (at level 1, left associativity, v at level 200) : record_scope.
Notation "r <| proj ::= g |>" := (set_field proj g r)
  (at level 1, left associativity, g at level 200) : record_scope.

(** ** Removal from a list without order *)

Fixpoint remove1 (x : Z) (l : list Z) : list Z := match l with [] => [] | y :: l' => if x =? y then l' else y :: remove1 x l' end.
Definition remove_all (xs l : list Z) : list Z := foldl (fun l x => remove1 x l) l xs.

Lemma remove1_perm x l : x ∈ l → l ≡ₚ x :: remove1 x l.
Proof.
  induction l as [|y l IH]; [by intros ?%not_elem_of_nil|]. cbn. destruct (Z.eqb_spec x y) as [<-|Hne]; [done|].
  intros [->|Hx]%elem_of_cons; [done|]. rewrite (IH Hx) at 1. apply Permutation_swap.
Qed.

Lemma remove_all_perm xs l rest : l ≡ₚ xs ++ rest → remove_all xs l ≡ₚ rest.
Proof.
  revert l. induction xs as [|x xs IH]; intros l Hl; [done|]. cbn. apply IH.
  apply (Permutation_cons_inv (a := x)). rewrite <- remove1_perm; [done|]. rewrite Hl. by left.
Qed.
