(* ===== verification/Bytes.v ===== *)
(** * Bytes in network order

    Byte strings read as big-endian numbers, and stores into a buffer. *)
From S2P Require Import Prelude.

(** The bytes as one big-endian number. *)
Definition be (bs : list Z) : Z := le (reverse bs).

(** Bits of [hi * 2^w + lo]. *)
Lemma testbit_low_high w lo hi q : 0 <= w → in_width w lo → 0 <= q →
  Z.testbit (lo + 2 ^ w * hi) q = if q <? w then Z.testbit lo q else Z.testbit hi (q - w).
Proof.
  intros Hw Hlo Hq. destruct (Z.ltb_spec q w).
  - rewrite <- (Z.mod_pow2_bits_low _ w) by lia. rewrite Z.mul_comm, Z.mod_add by lia.
    f_equal. by apply Z.mod_small.
  - replace q with (q - w + w) at 1 by lia. rewrite <- Z.div_pow2_bits by lia.
    rewrite Z.mul_comm, Z.div_add by (apply Z.pow_nonzero; lia).
    by rewrite Z.div_small, Z.add_0_l.
Qed.

Lemma le_reverse_snoc b bs : be (b :: bs) = be bs + 2 ^ (8 * Z.of_nat (length bs)) * b.
Proof.
  unfold be. rewrite reverse_cons, le_app, length_reverse. simpl le. lia.
Qed.

Lemma be_app xs ys : be (xs ++ ys) = be ys + 2 ^ (8 * Z.of_nat (length ys)) * be xs.
Proof. unfold be. by rewrite reverse_app, le_app, length_reverse. Qed.

Lemma be_width bs : bytes_ok bs → in_width (8 * Z.of_nat (length bs)) (be bs).
Proof.
  intros Hok. unfold be. rewrite <- (length_reverse bs). apply le_nonneg_bound.
  by apply Forall_reverse.
Qed.

(** Bit [q] of the string, counted from the first byte's highest bit. *)
Lemma be_bit bs q b : bytes_ok bs → 0 <= q → rd bs (q / 8) = Some b →
  Z.testbit (be bs) (8 * Z.of_nat (length bs) - 1 - q) = Z.testbit b (7 - q mod 8).
Proof.
  intros Hok. revert q. induction Hok as [|c bs Hc Hok IH]; intros q Hq Hrd.
  { apply rd_Some in Hrd. simpl in Hrd. lia. }
  pose proof (rd_Some _ _ _ Hrd) as Hr. simpl length in *. rewrite Nat2Z.inj_succ in *.
  pose proof (Z.div_mod q 8 ltac:(lia)). pose proof (Z.mod_pos_bound q 8 ltac:(lia)).
  rewrite le_reverse_snoc, testbit_low_high by (lia || by apply be_width).
  destruct (Z.ltb_spec (8 * Z.succ (Z.of_nat (length bs)) - 1 - q) (8 * Z.of_nat (length bs))).
  - assert (q / 8 = (q - 8) / 8 + 1) as Eq
      by (replace q with (q - 8 + 1 * 8) at 1 by lia; by rewrite Z.div_add by lia).
    replace (q mod 8) with ((q - 8) mod 8)
      by (replace q with (q - 8 + 1 * 8) at 2 by lia; by rewrite Z.mod_add by lia).
    rewrite <- IH; [f_equal; lia|lia|].
    unfold rd in *. rewrite Eq in Hrd.
    destruct (Z.leb_spec 0 ((q - 8) / 8)); [|lia].
    destruct (Z.leb_spec 0 ((q - 8) / 8 + 1)); [|lia].
    replace (Z.to_nat ((q - 8) / 8 + 1)) with (S (Z.to_nat ((q - 8) / 8))) in Hrd by lia. done.
  - assert (q / 8 = 0) as Eq by lia. rewrite Eq in Hrd. injection Hrd as ->. f_equal. lia.
Qed.

(** Overwriting the bytes from offset [off] on. *)
Definition put (buf : list Z) (off : nat) (bs : list Z) : list Z :=
  take off buf ++ bs ++ drop (off + length bs) buf.

Definition put_bytes (buf : list Z) (off : Z) (bs : list Z) : option (list Z) :=
  if (0 <=? off) && (off + Z.of_nat (length bs) <=? Z.of_nat (length buf))
  then Some (put buf (Z.to_nat off) bs) else None.

(** The [n] bytes of [v], lowest first, stored at [off]. *)
Definition store (n : nat) (buf : list Z) (off v : Z) : option (list Z) :=
  put_bytes buf off (le_bytes n v).

(** [htons] and [ntohs] on a little-endian host. *)
Definition bswap16 (x : Z) : Z := (u8 x .<< 8) .| u8 (x .>> 8).
Definition bswap32 (x : Z) : Z :=
  (u8 x .<< 24) .| (u8 (x .>> 8) .<< 16) .| (u8 (x .>> 16) .<< 8) .| u8 (x .>> 24).

Lemma lor_shift_add k a b : 0 <= k → in_width k b → (a .<< k) .| b = b + 2 ^ k * a.
Proof.
  intros Hk Hb. apply Z.bits_inj_iff'. intros i Hi.
  rewrite Z.lor_spec, Z.shiftl_spec by lia. rewrite testbit_low_high by (lia || done).
  destruct (Z.ltb_spec i k).
  - by rewrite Z.testbit_neg_r by lia.
  - rewrite (testbit_above k b i) by (lia || done). by rewrite orb_false_r.
Qed.

Lemma wrap_low_high w lo hi : in_width w lo → wrap w (lo + 2 ^ w * hi) = lo.
Proof.
  intros Hlo. unfold wrap. rewrite Z.mul_comm, Z_mod_plus_full. by apply Z.mod_small.
Qed.

Lemma shiftr_low_high w lo hi : 0 <= w → in_width w lo → (lo + 2 ^ w * hi) .>> w = hi.
Proof.
  intros Hw Hlo. rewrite Z.shiftr_div_pow2 by done. rewrite Z.mul_comm, Z.div_add by lia.
  by rewrite Z.div_small.
Qed.

Lemma ntohs_be bs : bytes_ok bs → length bs = 2%nat → bswap16 (le bs) = be bs.
Proof.
  intros Hok Hl. destruct bs as [|a [|b [|]]]; try done. apply Forall_cons_1 in Hok as [Ha Hok].
  apply Forall_cons_1 in Hok as [Hb _]. unfold byte_ok in *. unfold bswap16. simpl le.
  replace (2 ^ 8 * 0) with 0 by lia. rewrite Z.add_0_r.
  rewrite wrap_low_high, shiftr_low_high by (lia || done).
  rewrite (wrap_small 8 b) by done. rewrite lor_shift_add by (lia || done).
  unfold be. simpl. lia.
Qed.

Lemma ntohl_be bs : bytes_ok bs → length bs = 4%nat → bswap32 (le bs) = be bs.
Proof.
  intros Hok Hl. destruct bs as [|a [|b [|c [|d [|]]]]]; try done.
  repeat (apply Forall_cons_1 in Hok as [? Hok]). unfold byte_ok in *. unfold bswap32. simpl le.
  replace (2 ^ 8 * 0) with 0 by lia. rewrite Z.add_0_r.
  change 24 with (8 + 8 + 8) at 2. change 16 with (8 + 8) at 2.
  rewrite <- !Z.shiftr_shiftr by lia. rewrite !shiftr_low_high by (lia || done).
  rewrite !wrap_low_high by done. rewrite (wrap_small 8 d) by done.
  change 24 with (8 + 16). change 16 with (8 + 8). rewrite <- !Z.shiftl_shiftl by lia.
  rewrite <- !Z.shiftl_lor. rewrite !lor_shift_add by (lia || done).
  unfold be. simpl. lia.
Qed.

(** A mask of one bit tests that bit. *)
Lemma nz_bit x p : 0 <= p → nz (x .& 2 ^ p) = Z.testbit x p.
Proof.
  intros Hp. unfold nz. destruct (Z.testbit x p) eqn:Eb.
  - apply negb_true_iff, Z.eqb_neq. intros E0.
    assert (Z.testbit (x .& 2 ^ p) p = false) as Ef by (rewrite E0; apply Z.bits_0).
    by rewrite Z.land_spec, Z.pow2_bits_true, Eb in Ef by done.
  - apply negb_false_iff, Z.eqb_eq, Z.bits_inj_iff'. intros j Hj.
    rewrite Z.land_spec, Z.pow2_bits_eqb, Z.bits_0 by lia.
    destruct (Z.eqb_spec p j) as [<-|]; [by rewrite Eb|by rewrite andb_false_r].
Qed.

(** Loads inside the buffer. *)
Lemma load_take n buf off : 0 <= off → off + Z.of_nat n <= Z.of_nat (length buf) →
  load n buf off = Some (le (take n (drop (Z.to_nat off) buf))).
Proof.
  intros H0 H1. unfold load, bytes_at. rewrite (proj2 (Z.leb_le 0 off)) by done.
  by rewrite (proj2 (Z.leb_le _ _)) by done.
Qed.

Lemma bytes_ok_sub n k bs : bytes_ok bs → bytes_ok (take n (drop k bs)).
Proof. intros. by apply Forall_take, Forall_drop. Qed.

Lemma length_sub n k (bs : list Z) : (k + n <= length bs)%nat → length (take n (drop k bs)) = n.
Proof. intros. rewrite length_take, length_drop. lia. Qed.

(** Consecutive fields. *)
Lemma sub_app n m k (bs : list Z) :
  take (n + m) (drop k bs) = take n (drop k bs) ++ take m (drop (k + n) bs).
Proof. by rewrite take_add || rewrite <- (take_take_drop _ n m), drop_drop. Qed.

(** ** Overwriting *)

Lemma length_put buf o bs : (o + length bs <= length buf)%nat → length (put buf o bs) = length buf.
Proof. intros. unfold put. rewrite !length_app, length_take, length_drop. lia. Qed.

Lemma lookup_put buf o bs i : (o + length bs <= length buf)%nat →
  put buf o bs !! i =
  if bool_decide (o <= i < o + length bs)%nat then bs !! (i - o)%nat else buf !! i.
Proof.
  intros Hl. unfold put. case_bool_decide.
  - rewrite lookup_app_r, lookup_app_l by (rewrite length_take; lia). f_equal. rewrite length_take. lia.
  - destruct (decide (i < o)%nat).
    + rewrite lookup_app_l by (rewrite length_take; lia). by rewrite lookup_take_lt by lia.
    + rewrite lookup_app_r, lookup_app_r, lookup_drop by (rewrite length_take; lia). f_equal.
      rewrite length_take. lia.
Qed.

Lemma put_ok buf o bs : bytes_ok buf → bytes_ok bs → bytes_ok (put buf o bs).
Proof. intros. unfold put. rewrite !Forall_app. split_and!; [by apply Forall_take|done|by apply Forall_drop]. Qed.

Lemma put_bytes_in buf off bs : 0 <= off → off + Z.of_nat (length bs) <= Z.of_nat (length buf) →
  put_bytes buf off bs = Some (put buf (Z.to_nat off) bs).
Proof.
  intros H0 H1. unfold put_bytes. rewrite (proj2 (Z.leb_le 0 off)) by done.
  by rewrite (proj2 (Z.leb_le _ _)) by done.
Qed.

Lemma store_in n buf off v : 0 <= off → off + Z.of_nat n <= Z.of_nat (length buf) →
  store n buf off v = Some (put buf (Z.to_nat off) (le_bytes n v)).
Proof. intros. apply put_bytes_in; [done|]. by rewrite length_le_bytes. Qed.

(** A field of an overwritten buffer: around the change, or apart from it. *)
Lemma sub_put_in n k buf o bs : (k <= o)%nat → (o + length bs <= k + n)%nat →
  (k + n <= length buf)%nat →
  take n (drop k (put buf o bs)) = put (take n (drop k buf)) (o - k) bs.
Proof.
  intros Hk Ho Hn. apply list_eq. intros i.
  rewrite (lookup_put (take n (drop k buf))) by (rewrite length_sub; lia).
  destruct (decide (i < n)%nat).
  - rewrite !lookup_take_lt, !lookup_drop, lookup_put by lia.
    case_bool_decide; case_bool_decide; try lia; f_equal; lia.
  - rewrite lookup_take_ge by lia. rewrite bool_decide_false by lia. by rewrite lookup_take_ge by lia.
Qed.

Lemma sub_put_out n k buf o bs : (o + length bs <= length buf)%nat →
  (k + n <= o ∨ o + length bs <= k)%nat →
  take n (drop k (put buf o bs)) = take n (drop k buf).
Proof.
  intros Hl Ho. apply list_eq. intros i. destruct (decide (i < n)%nat).
  - rewrite !lookup_take_lt, !lookup_drop, lookup_put by lia. by rewrite bool_decide_false by lia.
  - by rewrite !lookup_take_ge by lia.
Qed.

Lemma sub_put_eq n buf o bs : length bs = n → (o + n <= length buf)%nat →
  take n (drop o (put buf o bs)) = bs.
Proof.
  intros <- Hl. unfold put. rewrite drop_app_ge, length_take by (rewrite length_take; lia).
  replace (o - o `min` length buf)%nat with 0%nat by lia. by rewrite drop_0, take_app_length.
Qed.

(** Storing in network order. *)
Lemma htons_bytes x : le_bytes 2 (bswap16 x) = [u8 (x .>> 8); u8 x].
Proof.
  assert (bswap16 x = u8 (x .>> 8) + 2 ^ 8 * u8 x) as ->
    by (apply lor_shift_add; [done|by apply wrap_width]).
  unfold le_bytes. rewrite wrap_low_high, shiftr_low_high by (done || by apply wrap_width).
  by rewrite wrap_wrap.
Qed.

Lemma le_bytes_le n bs : bytes_ok bs → length bs = n → le_bytes n (le bs) = bs.
Proof.
  revert bs. induction n as [|n IH]; intros [|b bs] Hok Hl; try done.
  apply Forall_cons_1 in Hok as [Hb Hok]. cbn [le_bytes le].
  rewrite wrap_low_high, shiftr_low_high by (done || lia). f_equal. apply IH; [done|].
  by injection Hl.
Qed.

Lemma put_put buf o xs ys : length xs = length ys → (o + length xs <= length buf)%nat →
  put (put buf o xs) o ys = put buf o ys.
Proof.
  intros Hxy Hl. apply list_eq. intros i. rewrite !lookup_put by (rewrite ?length_put; lia).
  case_bool_decide; [done|]. by rewrite bool_decide_false by lia.
Qed.

Lemma sub_sub n k m o (bs : list Z) : (o + m <= n)%nat →
  take m (drop o (take n (drop k bs))) = take m (drop (k + o) bs).
Proof.
  intros Ho. apply list_eq. intros i. destruct (decide (i < m)%nat).
  - rewrite !lookup_take_lt, !lookup_drop, lookup_take_lt, lookup_drop by lia. f_equal. lia.
  - by rewrite !lookup_take_ge by lia.
Qed.

Lemma lookup_put_ne buf o bs i : (o + length bs <= length buf)%nat →
  (i < o ∨ o + length bs <= i)%nat → put buf o bs !! i = buf !! i.
Proof. intros. by rewrite lookup_put, bool_decide_false by lia. Qed.
