(* ===== verification/SimbricksBase.v ===== *)
(** * SimBricks base interface: data and shared-memory queues

    The data of [src/src/libsimbricks/simbricks/base/if.h] and [proto.h], and
    the inline queue operations of [if.h].  A peer's outgoing queue is the other
    peer's incoming queue; a queue is an array of fixed-size entries in shared
    memory whose header carries an ownership bit.  An entry is a [slot]: its
    header fields and the bytes the upper layer puts in it.  The pointer
    [queue + pos * elen] the code computes is the entry index [pos]; that both
    peers use the same entry size and count is proved in [SimbricksHandshake.v].

    The two-peer system built from these operations and its correctness are in
    [SimbricksQueue.v]. *)
From stdpp Require Import strings.
From S2P Require Import Prelude.

(** ** Data *)

(** [enum SimbricksBaseIfSyncMode] *)
Inductive SimbricksBaseIfSyncMode :=
| kSimbricksBaseIfSyncDisabled
| kSimbricksBaseIfSyncOptional
| kSimbricksBaseIfSyncRequired.

#[export] Instance sync_mode_eq_dec : EqDecision SimbricksBaseIfSyncMode.
Proof. solve_decision. Defined.

(** [enum ConnState] *)
Inductive ConnState :=
| kConnClosed
| kConnListening
| kConnConnecting
| kConnAwaitHandshakeRxTx
| kConnAwaitHandshakeRx
| kConnAwaitHandshakeTx
| kConnOpen.

#[export] Instance conn_state_eq_dec : EqDecision ConnState.
Proof. solve_decision. Defined.

(** Interface parameters. *)
Record SimbricksBaseIfParams := mkParams {
  link_latency : Z;
  sync_interval : Z;
  sock_path : option string;
  sync_mode : SimbricksBaseIfSyncMode;
  blocking_conn : bool;
  in_num_entries : Z;
  in_entries_size : Z;
  out_num_entries : Z;
  out_entries_size : Z;
  upper_layer_proto : Z
}.

#[export] Instance SimbricksBaseIfParams_settable : Settable SimbricksBaseIfParams := fun r =>
  mkParams (link_latency r) (sync_interval r) (sock_path r) (sync_mode r)
    (blocking_conn r) (in_num_entries r) (in_entries_size r) (out_num_entries r)
    (out_entries_size r) (upper_layer_proto r).

(** A shared-memory pool: descriptor, mapped address, size, first free byte. *)
Record SimbricksBaseIfSHMPool := mkPool {
  pool_path : option string;
  pool_fd : Z;
  pool_base : Z;
  pool_size : Z;
  pool_pos : Z
}.

#[export] Instance SimbricksBaseIfSHMPool_settable : Settable SimbricksBaseIfSHMPool := fun r =>
  mkPool (pool_path r) (pool_fd r) (pool_base r) (pool_size r) (pool_pos r).

(** The interface handle.  Queue addresses are addresses in the process's mapping
    of the pool; [shm] is the pool the queues live in. *)
Record SimbricksBaseIf := mkBaseIf {
  in_queue : Z;
  in_pos : Z;
  in_elen : Z;
  in_enum : Z;
  in_timestamp : Z;
  out_queue : Z;
  out_pos : Z;
  out_elen : Z;
  out_enum : Z;
  out_timestamp : Z;
  in_terminated : bool;
  conn_state : ConnState;
  sync : bool;
  params : SimbricksBaseIfParams;
  shm : option SimbricksBaseIfSHMPool;
  listen_fd : Z;
  conn_fd : Z;
  listener : bool
}.

#[export] Instance SimbricksBaseIf_settable : Settable SimbricksBaseIf := fun r =>
  mkBaseIf (in_queue r) (in_pos r) (in_elen r) (in_enum r) (in_timestamp r)
    (out_queue r) (out_pos r) (out_elen r) (out_enum r) (out_timestamp r)
    (in_terminated r) (conn_state r) (sync r) (params r) (shm r) (listen_fd r)
    (conn_fd r) (listener r).

(** A queue entry: upper-layer bytes, header timestamp and ownership/type byte. *)
Record SimbricksProtoBaseMsg := mkMsg {
  pad : list Z;
  timestamp : Z;
  own_type : Z
}.

#[export] Instance SimbricksProtoBaseMsg_settable : Settable SimbricksProtoBaseMsg := fun r =>
  mkMsg (pad r) (timestamp r) (own_type r).

(** ** Protocol constants *)

Definition SIMBRICKS_PROTO_MSG_OWN_MASK : Z := 0x80.
Definition SIMBRICKS_PROTO_MSG_OWN_PRO : Z := 0x00.
Definition SIMBRICKS_PROTO_MSG_OWN_CON : Z := 0x80.
Definition SIMBRICKS_PROTO_MSG_TYPE_SYNC : Z := 0x00.
Definition SIMBRICKS_PROTO_MSG_TYPE_TERMINATE : Z := 0x01.
Definition UINT64_MAX : Z := 2 ^ 64 - 1.

(** ** Incoming queue *)

(** Message type of a received message, without the ownership bit. *)
Definition SimbricksBaseIfInType (msg : SimbricksProtoBaseMsg) : Z :=
  u8 (own_type msg .& Z.lnot SIMBRICKS_PROTO_MSG_OWN_MASK).

(** Poll without advancing.  The result pairs the handle with the entry index
    of the message, or [None] for a [NULL] return. *)
Definition SimbricksBaseIfInPeek (base_if : SimbricksBaseIf)
    (in_q : list SimbricksProtoBaseMsg) (now : Z) : option (SimbricksBaseIf * option Z) :=
  msg ← rd in_q (in_pos base_if);
  if negb ((own_type msg .& SIMBRICKS_PROTO_MSG_OWN_MASK) =? SIMBRICKS_PROTO_MSG_OWN_CON)
  then Some (base_if, None)
  else
    let base_if' := base_if <| in_timestamp := timestamp msg |> in
    if sync base_if' && (now <? in_timestamp base_if')
    then Some (base_if', None)
    else Some (base_if', Some (in_pos base_if')).

(** Poll and advance; a termination message also ends synchronisation. *)
Definition SimbricksBaseIfInPoll (base_if : SimbricksBaseIf)
    (in_q : list SimbricksProtoBaseMsg) (now : Z) : option (SimbricksBaseIf * option Z) :=
  '(base_if1, m) ← SimbricksBaseIfInPeek base_if in_q now;
  match m with
  | None => Some (base_if1, None)
  | Some i =>
      msg ← rd in_q i;
      if in_enum base_if1 =? 0 then None
      else
        let base_if2 :=
          base_if1 <| in_pos := u64 (in_pos base_if1 + 1) mod in_enum base_if1 |> in
        let base_if3 :=
          if SimbricksBaseIfInType msg =? SIMBRICKS_PROTO_MSG_TYPE_TERMINATE
          then base_if2 <| in_terminated := true |> <| sync := false |>
                 <| in_timestamp := UINT64_MAX |> <| out_timestamp := UINT64_MAX |>
          else base_if2 in
        Some (base_if3, Some i)
  end.

(** Give the entry back to the sender. *)
Definition SimbricksBaseIfInDone (in_q : list SimbricksProtoBaseMsg) (i : Z)
    : option (list SimbricksProtoBaseMsg) :=
  msg ← rd in_q i;
  wr in_q i (msg <| own_type :=
    u8 ((own_type msg .& Z.lnot SIMBRICKS_PROTO_MSG_OWN_MASK)
        .| SIMBRICKS_PROTO_MSG_OWN_PRO) |>).

Definition SimbricksBaseIfInTimestamp (base_if : SimbricksBaseIf) : Z :=
  in_timestamp base_if.

Definition SimbricksBaseIfInTerminated (base_if : SimbricksBaseIf) : bool :=
  in_terminated base_if.

(** ** Outgoing queue *)

(** Allocate the next entry, stamping it with its arrival time. *)
Definition SimbricksBaseIfOutAlloc (base_if : SimbricksBaseIf)
    (out_q : list SimbricksProtoBaseMsg) (now : Z)
    : option (SimbricksBaseIf * list SimbricksProtoBaseMsg * option Z) :=
  msg ← rd out_q (out_pos base_if);
  if negb ((own_type msg .& SIMBRICKS_PROTO_MSG_OWN_MASK) =? SIMBRICKS_PROTO_MSG_OWN_PRO)
  then Some (base_if, out_q, None)
  else
    out_q' ← wr out_q (out_pos base_if)
      (msg <| timestamp := u64 (now + link_latency (params base_if)) |>);
    let base_if1 := base_if <| out_timestamp := now |> in
    if out_enum base_if1 =? 0 then None
    else
      Some (base_if1 <| out_pos := u64 (out_pos base_if1 + 1) mod out_enum base_if1 |>,
            out_q', Some (out_pos base_if)).

(** Set type and ownership of a filled entry, which hands it to the consumer. *)
Definition SimbricksBaseIfOutSend (out_q : list SimbricksProtoBaseMsg) (i msg_type : Z)
    : option (list SimbricksProtoBaseMsg) :=
  msg ← rd out_q i;
  wr out_q i (msg <| own_type := u8 (msg_type .| SIMBRICKS_PROTO_MSG_OWN_CON) |>).

(** The early return of [SimbricksBaseIfOutSync]: nothing to send yet. *)
Definition sync_not_due (base_if : SimbricksBaseIf) (now : Z) : bool :=
  negb (sync base_if)
  || ((0 <? out_timestamp base_if)
      && (u64 (now - out_timestamp base_if) <? sync_interval (params base_if))).

(** Send a synchronisation message when the last message is old enough. *)
Definition SimbricksBaseIfOutSync (base_if : SimbricksBaseIf)
    (out_q : list SimbricksProtoBaseMsg) (now : Z)
    : option (SimbricksBaseIf * list SimbricksProtoBaseMsg * Z) :=
  if sync_not_due base_if now then Some (base_if, out_q, 0)
  else
    '(base_if', out_q', m) ← SimbricksBaseIfOutAlloc base_if out_q now;
    match m with
    | None => Some (base_if', out_q', -1)
    | Some i =>
        out_q'' ← SimbricksBaseIfOutSend out_q' i SIMBRICKS_PROTO_MSG_TYPE_SYNC;
        Some (base_if', out_q'', 0)
    end.

Definition SimbricksBaseIfOutNextSync (base_if : SimbricksBaseIf) : Z :=
  if out_timestamp base_if =? UINT64_MAX then UINT64_MAX
  else u64 (out_timestamp base_if + sync_interval (params base_if)).

Definition SimbricksBaseIfOutMsgLen (base_if : SimbricksBaseIf) : Z := out_elen base_if.

Definition SimbricksBaseIfSyncEnabled (base_if : SimbricksBaseIf) : bool := sync base_if.
