(* ===== verification/SimbricksQueue.v ===== *)
(** * SimBricks queues: one producer, one consumer

    The system made of the queue operations of [SimbricksBase.v] (the inline
    functions of [src/src/libsimbricks/simbricks/base/if.h]): every interleaving
    of one producer and one consumer on one queue delivers the messages in
    order, exactly once and unmodified; neither side is refused an entry it is
    entitled to; a synchronised consumer never sees a message before its
    arrival time. *)
From S2P Require Import Prelude SimbricksBase.

(** One producer and one consumer share a queue of [n] entries.  [op] lists
    what either side can do next; any list of them is an interleaving.  The
    producer allocates, fills and sends one entry at a time, the consumer polls
    and releases one at a time, as the interface requires of its users; an
    operation a side may not issue in its current situation leaves the system
    unchanged.  The logs record what was handed to [OutSend] and what a
    successful [InPoll] let the consumer read. *)

Module Spsc.

Record msg := mkLog { m_type : Z; m_stamp : Z; m_data : list Z }.

Record sys := mkSys {
  q : list SimbricksProtoBaseMsg;
  prod : SimbricksBaseIf;
  cons : SimbricksBaseIf;
  p_held : option (Z * Z * list Z);
  c_held : option Z;
  sent : list msg;
  rcvd : list msg
}.

#[export] Instance sys_settable : Settable sys := fun r =>
  mkSys (q r) (prod r) (cons r) (p_held r) (c_held r) (sent r) (rcvd r).

Inductive op :=
| Alloc (now : Z)
| Fill (data : list Z)
| Send (msg_type : Z)
| Sync (now : Z)
| Poll (now : Z)
| Done.

(** Message types carry no ownership bit. *)
Definition valid_type (ty : Z) : bool := (0 <=? ty) && (ty <? 0x80).

Definition step (s : sys) (o : op) : option sys :=
  match o, p_held s, c_held s with
  | Alloc now, None, _ =>
      '(p, q', m) ← SimbricksBaseIfOutAlloc (prod s) (q s) now;
      match m with
      | None => Some (s <| prod := p |> <| q := q' |>)
      | Some i =>
          e ← rd q' i;
          Some (s <| prod := p |> <| q := q' |>
                  <| p_held := Some (i, u64 (now + link_latency (params (prod s))), pad e) |>)
      end
  | Fill data, Some (i, stamp, _), _ =>
      e ← rd (q s) i;
      q' ← wr (q s) i (e <| pad := data |>);
      Some (s <| q := q' |> <| p_held := Some (i, stamp, data) |>)
  | Send ty, Some (i, stamp, data), _ =>
      if valid_type ty then
        q' ← SimbricksBaseIfOutSend (q s) i ty;
        Some (s <| q := q' |> <| p_held := None |>
                <| sent := sent s ++ [mkLog ty stamp data] |>)
      else Some s
  | Sync now, None, _ =>
      e ← rd (q s) (out_pos (prod s));
      '(p, q', r) ← SimbricksBaseIfOutSync (prod s) (q s) now;
      Some (s <| prod := p |> <| q := q' |>
              <| sent := sent s ++
                 (if negb (sync_not_due (prod s) now) && (r =? 0)
                  then [mkLog SIMBRICKS_PROTO_MSG_TYPE_SYNC
                          (u64 (now + link_latency (params (prod s)))) (pad e)]
                  else []) |>)
  | Poll now, _, None =>
      '(c, m) ← SimbricksBaseIfInPoll (cons s) (q s) now;
      match m with
      | None => Some (s <| cons := c |>)
      | Some i =>
          e ← rd (q s) i;
          Some (s <| cons := c |> <| c_held := Some i |>
                  <| rcvd := rcvd s ++
                     [mkLog (SimbricksBaseIfInType e) (timestamp e) (pad e)] |>)
      end
  | Done, _, Some i =>
      q' ← SimbricksBaseIfInDone (q s) i;
      Some (s <| q := q' |> <| c_held := None |>)
  | _, _, _ => Some s
  end.

Fixpoint run (s : sys) (ops : list op) : option sys :=
  match ops with
  | [] => Some s
  | o :: ops' => s' ← step s o; run s' ops'
  end.

(** A freshly established connection: the pool was zeroed by
    [SimbricksBaseIfSHMPoolCreate], and both sides start at entry 0. *)
Definition fresh (n : nat) (s : sys) : Prop :=
  (0 < n)%nat ∧ Z.of_nat n < 2 ^ 64 ∧
  length (q s) = n ∧ Forall (λ e, own_type e = 0) (q s) ∧
  out_enum (prod s) = Z.of_nat n ∧ out_pos (prod s) = 0 ∧
  in_enum (cons s) = Z.of_nat n ∧ in_pos (cons s) = 0 ∧
  p_held s = None ∧ c_held s = None ∧ sent s = [] ∧ rcvd s = [].

Definition owner (e : SimbricksProtoBaseMsg) : Z :=
  own_type e .& SIMBRICKS_PROTO_MSG_OWN_MASK.

(** An entry in transit holds exactly the message that was sent. *)
Definition carries (m : msg) (e : SimbricksProtoBaseMsg) : Prop :=
  own_type e = u8 (m_type m .| SIMBRICKS_PROTO_MSG_OWN_CON) ∧
  timestamp e = m_stamp m ∧ pad e = m_data m.

Definition held {A} (o : option A) : Z :=
  match o with Some _ => 1 | None => 0 end.

(** Position of each side, counted from the start of the connection. *)
Definition n_sent (s : sys) : Z := Z.of_nat (length (sent s)).
Definition n_polled (s : sys) : Z := Z.of_nat (length (rcvd s)).
Definition n_alloc (s : sys) : Z := n_sent s + held (p_held s).
Definition n_done (s : sys) : Z := n_polled s - held (c_held s).

(** The protocol invariant: entries [n_done .. n_sent) are the consumer's and
    hold the unreleased messages, all others are the producer's. *)
Record inv (n : Z) (s : sys) : Prop := {
  inv_len : Z.of_nat (length (q s)) = n;
  inv_n : 0 < n < 2 ^ 64;
  inv_out_enum : out_enum (prod s) = n;
  inv_in_enum : in_enum (cons s) = n;
  inv_out_pos : out_pos (prod s) = n_alloc s mod n;
  inv_in_pos : in_pos (cons s) = n_polled s mod n;
  inv_done : 0 <= n_done s;
  inv_polled : n_polled s <= n_sent s;
  inv_room : n_alloc s <= n_done s + n;
  inv_con : ∀ k, n_done s <= k < n_sent s →
    ∃ m e, rd (sent s) k = Some m ∧ rd (q s) (k mod n) = Some e ∧ carries m e;
  inv_pro : ∀ k, n_sent s <= k < n_done s + n →
    ∃ e, rd (q s) (k mod n) = Some e ∧ owner e = SIMBRICKS_PROTO_MSG_OWN_PRO;
  inv_p_held : ∀ i stamp data, p_held s = Some (i, stamp, data) →
    i = n_sent s mod n ∧
    ∃ e, rd (q s) i = Some e ∧ timestamp e = stamp ∧ pad e = data;
  inv_c_held : ∀ i, c_held s = Some i → i = n_done s mod n;
  inv_types : Forall (λ m, 0 <= m_type m < 0x80) (sent s);
  inv_fifo : rcvd s = take (length (rcvd s)) (sent s)
}.

(** *** Ownership bits *)

Lemma testbit_128 i : Z.testbit 0x80 i = (i =? 7).
Proof.
  change 0x80 with (2 ^ 7). destruct (Z.eqb_spec i 7) as [->|?]; [done|].
  destruct (Z.ltb_spec i 0); [by rewrite Z.testbit_neg_r by lia|].
  rewrite Z.pow2_bits_eqb by lia. by apply Z.eqb_neq.
Qed.

(** Bits of the ownership expressions, one bit at a time. *)
Ltac own_bits :=
  unfold SimbricksBaseIfInType, owner, SIMBRICKS_PROTO_MSG_OWN_MASK,
    SIMBRICKS_PROTO_MSG_OWN_PRO, SIMBRICKS_PROTO_MSG_OWN_CON;
  apply Z.bits_inj'; intros i ?;
  rewrite ?Z.land_spec, ?testbit_wrap, ?Z.lor_spec, ?Z.land_spec, ?testbit_wrap,
    ?Z.lor_spec, ?Z.lnot_spec, ?testbit_128, ?Z.bits_0 by lia;
  destruct (Z.eqb_spec i 7), (Z.ltb_spec i 8); simpl;
  rewrite ?andb_true_r, ?andb_false_r, ?orb_false_r, ?orb_true_r; try done; try lia.

Lemma owner_sent ty : u8 (ty .| SIMBRICKS_PROTO_MSG_OWN_CON)
  .& SIMBRICKS_PROTO_MSG_OWN_MASK = SIMBRICKS_PROTO_MSG_OWN_CON.
Proof. own_bits. Qed.

Lemma owner_released o :
  u8 ((o .& Z.lnot SIMBRICKS_PROTO_MSG_OWN_MASK) .| SIMBRICKS_PROTO_MSG_OWN_PRO)
  .& SIMBRICKS_PROTO_MSG_OWN_MASK = SIMBRICKS_PROTO_MSG_OWN_PRO.
Proof. own_bits. Qed.

Lemma intype_sent m e : 0 <= m_type m < 0x80 → carries m e →
  SimbricksBaseIfInType e = m_type m.
Proof.
  intros Hty [Ho _]. unfold SimbricksBaseIfInType. rewrite Ho. own_bits.
  - subst. by rewrite (testbit_above 7) by (unfold in_width; lia).
  - by rewrite (testbit_above 7) by (unfold in_width; lia).
Qed.

Lemma carries_owner m e : carries m e → owner e = SIMBRICKS_PROTO_MSG_OWN_CON.
Proof. intros [Ho _]. unfold owner. rewrite Ho. apply owner_sent. Qed.

(** *** Ring positions *)

Lemma mod_window_inj n d i j : 0 < n → d <= i < d + n → d <= j < d + n →
  i mod n = j mod n → i = j.
Proof.
  intros Hn Hi Hj Heq.
  assert ((i - j) mod n = 0) as H0.
  { rewrite Zminus_mod, Heq, Z.sub_diag. by rewrite Z.mod_0_l by lia. }
  apply Z.mod_divide in H0 as [c Hc]; [|lia].
  assert (c = 0) as -> by (destruct (Z.lt_trichotomy c 0) as [?|[?|?]]; nia). lia.
Qed.

Lemma mod_window_ne n d i j : 0 < n → d <= i < d + n → d <= j < d + n →
  i ≠ j → i mod n ≠ j mod n.
Proof. intros ? ? ? Hne Heq. apply Hne. eapply mod_window_inj; eauto. Qed.

Lemma ring_next n k : 0 < n < 2 ^ 64 → u64 (k mod n + 1) mod n = (k + 1) mod n.
Proof.
  intros. pose proof (Z.mod_pos_bound k n ltac:(lia)).
  rewrite wrap_small by (unfold in_width; lia).
  by rewrite Zplus_mod_idemp_l.
Qed.

Section window.
  Context {A : Type} (n d : Z) (a a' : list A).

Lemma window_write_ne j k e : 0 < n → d <= j < d + n → d <= k < d + n →
    wr a (j mod n) e = Some a' → k ≠ j → rd a' (k mod n) = rd a (k mod n).
  Proof. intros. eapply rd_wr_ne; [done|]. eapply mod_window_ne; eauto. Qed.

Lemma window_wr j e : 0 < n → Z.of_nat (length a) = n →
    ∃ a', wr a (j mod n) e = Some a'.
  Proof.
    intros. eexists. apply wr_in_range. pose proof (Z.mod_pos_bound j n). lia.
  Qed.
End window.

Lemma sys_eta s h : p_held s = h →
  mkSys (q s) (prod s) (cons s) h (c_held s) (sent s) (rcvd s) = s.
Proof. intros <-. by destruct s. Qed.

Lemma held_range {A} (o : option A) : 0 <= held o <= 1.
Proof. destruct o; simpl; lia. Qed.

(** Unfold the four counters. *)
Ltac counts := unfold n_alloc, n_done, n_sent, n_polled in *.

(** *** Each operation preserves the invariant *)

Section preservation.
  Context (n : Z) (s : sys) (Hinv : inv n s).

Lemma rd_sent_snoc m k : rd (sent s ++ [m]) k =
    if k =? n_sent s then Some m else rd (sent s) k.
  Proof.
    unfold rd, n_sent. destruct (Z.leb_spec 0 k), (Z.eqb_spec k (Z.of_nat (length (sent s))));
      try lia; try done.
    - subst. rewrite Nat2Z.id. by apply list_lookup_middle.
    - destruct (decide (k < Z.of_nat (length (sent s)))).
      + apply lookup_app_l. lia.
      + rewrite !lookup_ge_None_2; [done|lia|]. rewrite length_app. simpl. lia.
  Qed.

Lemma alloc_refused now : n_alloc s = n_done s + n → p_held s = None →
    SimbricksBaseIfOutAlloc (prod s) (q s) now = Some (prod s, q s, None).
  Proof.
    destruct Hinv. intros Hfull Hh. unfold n_alloc in *. rewrite Hh in *. simpl in *.
    destruct (inv_con0 (n_done s) ltac:(lia)) as (m & e & _ & He & Hc).
    unfold SimbricksBaseIfOutAlloc. rewrite inv_out_pos0, Hfull.
    rewrite <- Zplus_mod_idemp_r, Z_mod_same_full, Z.add_0_r, He. simpl.
    apply carries_owner in Hc. unfold owner in Hc. by rewrite Hc.
  Qed.

Lemma alloc_granted now : n_alloc s < n_done s + n → p_held s = None →
    ∃ e q', rd (q s) (n_sent s mod n) = Some e ∧
      owner e = SIMBRICKS_PROTO_MSG_OWN_PRO ∧
      wr (q s) (n_sent s mod n)
        (e <| timestamp := u64 (now + link_latency (params (prod s))) |>) = Some q' ∧
      SimbricksBaseIfOutAlloc (prod s) (q s) now =
        Some ((prod s) <| out_timestamp := now |> <| out_pos := (n_sent s + 1) mod n |>,
              q', Some (n_sent s mod n)).
  Proof.
    destruct Hinv. intros Hroom Hh. unfold n_alloc in *. rewrite Hh in *. simpl in *.
    rewrite Z.add_0_r in *.
    destruct (inv_pro0 (n_sent s) ltac:(lia)) as (e & He & Ho).
    edestruct (window_wr n (q s) (n_sent s)) as [q' Hq']; [lia|done|].
    exists e, q'. split_and!; [done..|].
    unfold SimbricksBaseIfOutAlloc. rewrite inv_out_pos0, He. simpl.
    unfold owner in Ho. rewrite Ho. simpl.
    rewrite Hq'. simpl. rewrite inv_out_enum0.
    destruct (Z.eqb_spec n 0); [lia|].
    by rewrite inv_out_pos0, ring_next by lia.
  Qed.

Lemma alloc_step now : ∃ s', step s (Alloc now) = Some s' ∧ inv n s'.
  Proof.
    destruct (p_held s) as [h|] eqn:Hh.
    { exists s. simpl. by rewrite Hh. }
    simpl. rewrite Hh. destruct (decide (n_alloc s = n_done s + n)) as [Hfull|Hroom].
    { rewrite alloc_refused by done. simpl.
      rewrite sys_eta by done. eauto. }
    destruct (alloc_granted now) as (e & q' & He & Ho & Hq' & ->);
      [destruct Hinv; lia|done|].
    simpl. rewrite (rd_wr_eq _ _ _ _ Hq'). simpl. eexists. split; [done|].
    pose proof (held_range (c_held s)).
    destruct Hinv. counts. rewrite Hh in *. simpl in *.
    split; simpl; counts; simpl; try done; try lia.
    - by rewrite (wr_length _ _ _ _ Hq').
    - intros k Hk. destruct (inv_con0 k Hk) as (m & e' & ? & ? & ?). exists m, e'.
      split_and!; [done| |done].
      rewrite (window_write_ne n (n_done s) (q s) q' (n_sent s) k _) by
        (done || counts; lia). done.
    - intros k Hk. destruct (decide (k = Z.of_nat (length (sent s)))) as [->|Hne].
      + rewrite (rd_wr_eq _ _ _ _ Hq'). by eexists.
      + rewrite (window_write_ne n (n_done s) (q s) q' (n_sent s) k _) by
          (done || counts; lia). auto.
    - intros ??? [= <- <- <-]. split; [done|].
      rewrite (rd_wr_eq _ _ _ _ Hq'). by eexists.
  Qed.

Lemma fill_step data : ∃ s', step s (Fill data) = Some s' ∧ inv n s'.
  Proof.
    destruct (p_held s) as [[[i stamp] old]|] eqn:Hh; simpl; rewrite Hh; [|by eauto].
    pose proof (held_range (c_held s)).
    destruct Hinv. destruct (inv_p_held0 _ _ _ Hh) as (-> & e & He & Hs & Hd).
    rewrite He. simpl.
    edestruct (window_wr n (q s) (n_sent s)) as [q' Hq']; [lia|done|].
    rewrite Hq'. simpl. eexists. split; [done|]. counts. rewrite Hh in *. simpl in *.
    split; simpl; counts; simpl; try done; try lia.
    - by rewrite (wr_length _ _ _ _ Hq').
    - intros k Hk. destruct (inv_con0 k Hk) as (m & e' & ? & ? & ?). exists m, e'.
      split_and!; [done| |done].
      rewrite (window_write_ne n (n_done s) (q s) q' (n_sent s) k _) by
        (done || counts; lia). done.
    - intros k Hk. destruct (inv_pro0 k Hk) as (e' & He' & Ho').
      destruct (decide (k = Z.of_nat (length (sent s)))) as [->|Hne].
      + rewrite (rd_wr_eq _ _ _ _ Hq'). simplify_eq. by eexists.
      + rewrite (window_write_ne n (n_done s) (q s) q' (n_sent s) k _) by
          (done || counts; lia). eauto.
    - intros ??? [= <- <- <-]. split; [done|].
      rewrite (rd_wr_eq _ _ _ _ Hq'). by eexists.
  Qed.

Lemma send_step ty : ∃ s', step s (Send ty) = Some s' ∧ inv n s'.
  Proof.
    destruct (p_held s) as [[[i stamp] data]|] eqn:Hh; simpl; rewrite Hh; [|by eauto].
    destruct (valid_type ty) eqn:Hty; [|by eauto].
    unfold valid_type in Hty. bool_to_prop.
    pose proof (held_range (c_held s)).
    destruct Hinv. destruct (inv_p_held0 _ _ _ Hh) as (-> & e & He & Hs & Hd).
    unfold SimbricksBaseIfOutSend. rewrite He. simpl.
    edestruct (window_wr n (q s) (n_sent s)) as [q' Hq']; [lia|done|].
    rewrite Hq'. simpl. eexists. split; [done|]. counts. rewrite Hh in *. simpl in *.
    split; simpl; counts; simpl; rewrite ?length_app; simpl; try done; try lia.
    - by rewrite (wr_length _ _ _ _ Hq').
    - rewrite inv_out_pos0. f_equal. lia.
    - intros k Hk. rewrite rd_sent_snoc.
      destruct (Z.eqb_spec k (n_sent s)) as [->|Hne].
      + eexists _, _. split_and!; [done|by apply (rd_wr_eq _ _ _ _ Hq')|].
        by split_and!.
      + destruct (inv_con0 k) as (m & e' & ? & ? & ?); [counts; lia|].
        exists m, e'. split_and!; [done| |done].
        rewrite (window_write_ne n (n_done s) (q s) q' (n_sent s) k _) by
          (done || counts; lia). done.
    - intros k Hk. destruct (inv_pro0 k) as (e' & He' & Ho'); [lia|].
      rewrite (window_write_ne n (n_done s) (q s) q' (n_sent s) k _) by
        (done || counts; lia). eauto.
    - apply Forall_app. split; [done|]. constructor; [simpl; lia|done].
    - rewrite take_app_le by lia. done.
  Qed.

  (** With nothing in flight the poll finds a producer-owned entry. *)
Lemma poll_empty now : n_polled s = n_sent s → c_held s = None →
    SimbricksBaseIfInPoll (cons s) (q s) now = Some (cons s, None).
  Proof.
    destruct Hinv. intros Heq Hh. counts. rewrite Hh in *. simpl in *.
    destruct (inv_pro0 (Z.of_nat (length (sent s)))) as (e & He & Ho);
      [pose proof (held_range (p_held s)); lia|].
    unfold SimbricksBaseIfInPoll, SimbricksBaseIfInPeek.
    rewrite inv_in_pos0, Heq, He. simpl. unfold owner in Ho. by rewrite Ho.
  Qed.

  (** Otherwise it finds the oldest message not polled yet; only a timestamp in
      the future can make a synchronised consumer wait for it. *)
Lemma poll_next now : n_polled s < n_sent s → c_held s = None →
    ∃ m e c, rd (sent s) (n_polled s) = Some m ∧
      rd (q s) (n_polled s mod n) = Some e ∧ carries m e ∧
      in_enum c = n ∧
      (if sync (cons s) && (now <? m_stamp m)
       then in_pos c = n_polled s mod n ∧
            SimbricksBaseIfInPoll (cons s) (q s) now = Some (c, None)
       else in_pos c = (n_polled s + 1) mod n ∧
            SimbricksBaseIfInPoll (cons s) (q s) now = Some (c, Some (n_polled s mod n))).
  Proof.
    destruct Hinv. intros Hlt Hh. counts. rewrite Hh in *. simpl in *.
    destruct (inv_con0 (Z.of_nat (length (rcvd s)))) as (m & e & Hm & He & Hc); [lia|].
    pose proof (carries_owner _ _ Hc) as Ho. unfold owner in Ho.
    destruct (Hc) as (_ & Hts & _).
    unfold SimbricksBaseIfInPoll, SimbricksBaseIfInPeek.
    rewrite inv_in_pos0, He. simpl. rewrite Ho, Hts. simpl.
    destruct (sync (cons s) && (now <? m_stamp m)) eqn:Hw; simpl.
    { exists m, e, ((cons s) <| in_timestamp := m_stamp m |>).
      split_and!; try done; simpl. by rewrite Hw. }
    rewrite inv_in_pos0, He. simpl. rewrite inv_in_enum0.
    destruct (Z.eqb_spec n 0); [lia|]. rewrite ring_next by lia.
    destruct (SimbricksBaseIfInType e =? SIMBRICKS_PROTO_MSG_TYPE_TERMINATE);
      eexists m, e, _; (split; [done|]; split; [done|]; split; [done|]);
      rewrite Hw; (split; [|split; [|reflexivity]]); done.
  Qed.

Lemma poll_step now : ∃ s', step s (Poll now) = Some s' ∧ inv n s'.
  Proof.
    destruct (c_held s) as [i|] eqn:Hh; simpl; rewrite Hh; [by eauto|].
    destruct (decide (n_polled s = n_sent s)) as [Heq|Hne].
    { rewrite poll_empty by done. simpl. exists s. split; [|done]. f_equal.
      destruct s; simpl in *. by subst. }
    destruct (poll_next now) as (m & e & c & Hm & He & Hc & Hn & Hr);
      [destruct Hinv; lia|done|].
    destruct (sync (cons s) && (now <? m_stamp m)); destruct Hr as [Hpos ->]; simpl.
    { eexists. split; [done|]. destruct Hinv. counts.
      rewrite Hh in *. split; simpl; counts; simpl in *; try done; lia. }
    rewrite He. simpl. eexists. split; [done|].
    pose proof (rd_Some _ _ _ Hm) as Hrng.
    destruct Hinv. counts. rewrite Hh in *. simpl in *.
    assert (0 <= m_type m < 128) as Hty by exact (rd_Forall _ _ _ _ inv_types0 Hm).
    rewrite (intype_sent m e) by done. destruct (Hc) as (_ & -> & ->).
    assert (mkLog (m_type m) (m_stamp m) (m_data m) = m) as -> by (by destruct m).
    split; simpl; counts; simpl; rewrite ?length_app; simpl; try done; try lia.
    - intros k Hk. apply inv_con0. lia.
    - intros k Hk. apply inv_pro0. lia.
    - intros i [= <-]. f_equal. lia.
    - rewrite Nat.add_1_r, (take_S_r _ _ m); [by rewrite <- inv_fifo0|].
      unfold rd in Hm. rewrite Nat2Z.id in Hm. by case_match.
  Qed.

Lemma done_step : ∃ s', step s Done = Some s' ∧ inv n s'.
  Proof.
    destruct (c_held s) as [i|] eqn:Hh; simpl; rewrite Hh; [|by eauto].
    pose proof (held_range (p_held s)).
    destruct Hinv. pose proof (inv_c_held0 _ Hh) as ->.
    unfold SimbricksBaseIfInDone. counts. rewrite Hh in *. simpl in *.
    edestruct (inv_con0 (Z.of_nat (length (rcvd s)) - 1)) as (m & e & Hm & He & Hc); [lia|].
    rewrite He. simpl.
    edestruct (window_wr n (q s) (Z.of_nat (length (rcvd s)) - 1)) as [q' Hq']; [lia|done|].
    rewrite Hq'. simpl. eexists. split; [done|].
    split; simpl; counts; simpl; try done; try lia.
    - by rewrite (wr_length _ _ _ _ Hq').
    - intros k Hk. destruct (inv_con0 k) as (m' & e' & ? & ? & ?); [lia|]. exists m', e'.
      split_and!; [done| |done].
      rewrite (window_write_ne n (Z.of_nat (length (rcvd s)) - 1) (q s) q'
        (Z.of_nat (length (rcvd s)) - 1) k _) by (done || lia). done.
    - intros k Hk.
      destruct (decide (k = Z.of_nat (length (rcvd s)) - 1 + n)) as [->|Hne].
      + rewrite <- Zplus_mod_idemp_r, Z_mod_same_full, Z.add_0_r.
        rewrite (rd_wr_eq _ _ _ _ Hq'). eexists. split; [done|].
        unfold owner. simpl. apply owner_released.
      + rewrite (window_write_ne n (Z.of_nat (length (rcvd s)) - 1) (q s) q'
          (Z.of_nat (length (rcvd s)) - 1) k _) by (done || lia). apply inv_pro0. lia.
    - intros i stamp data Hp. destruct (inv_p_held0 _ _ _ Hp) as (-> & e' & ? & ? & ?).
      split; [done|]. exists e'. split_and!; [|done..].
      rewrite Hp in *. simpl in *.
      erewrite (window_write_ne n (Z.of_nat (length (rcvd s)) - 1));
        [done| | | |exact Hq'|]; lia.
  Qed.

  (** A synchronisation call is an early return or an allocation followed by a
      send of a [SYNC] message. *)
Lemma sync_as_alloc_send now :
    (step s (Sync now) = Some s) ∨
    (p_held s = None ∧ step s (Sync now) =
      s' ← step s (Alloc now); step s' (Send SIMBRICKS_PROTO_MSG_TYPE_SYNC)).
  Proof.
    destruct (p_held s) as [h|] eqn:Hh; [left; simpl; by rewrite Hh|].
    destruct Hinv. simpl. rewrite Hh. unfold SimbricksBaseIfOutSync.
    destruct (rd_in_range (q s) (out_pos (prod s))) as [e He].
    { rewrite inv_out_pos0, inv_len0. apply Z.mod_pos_bound. lia. }
    rewrite He. simpl. destruct (sync_not_due (prod s) now) eqn:Hdue; simpl.
    { left. rewrite app_nil_r. by rewrite sys_eta. }
    destruct (decide (n_alloc s = n_done s + n)) as [Hfull|Hroom].
    { left. rewrite alloc_refused by done. simpl. rewrite app_nil_r. by rewrite sys_eta. }
    right. split; [done|].
    destruct (alloc_granted now) as (e' & q' & He' & _ & Hq' & ->); [lia|done|].
    simpl. rewrite (rd_wr_eq _ _ _ _ Hq'). simpl.
    unfold SimbricksBaseIfOutSend. rewrite (rd_wr_eq _ _ _ _ Hq'). simpl.
    unfold n_alloc in inv_out_pos0. rewrite Hh in inv_out_pos0. simpl in inv_out_pos0.
    rewrite inv_out_pos0, Z.add_0_r in He. rewrite He in He'. injection He' as <-.
    destruct (wr q' _ _) as [q''|]; simpl; done.
  Qed.
End preservation.

Lemma step_inv n s o : inv n s → ∃ s', step s o = Some s' ∧ inv n s'.
Proof.
  intros Hinv. destruct o as [now|data|ty|now|now|].
  - by apply alloc_step.
  - by apply fill_step.
  - by apply send_step.
  - destruct (sync_as_alloc_send n s Hinv now) as [->|[_ ->]]; [by eauto|].
    destruct (alloc_step n s Hinv now) as (s1 & -> & Hinv1).
    by apply (send_step n s1 Hinv1).
  - by apply poll_step.
  - by apply done_step.
Qed.

Lemma run_inv n s ops : inv n s → ∃ s', run s ops = Some s' ∧ inv n s'.
Proof.
  revert s. induction ops as [|o ops IH]; intros s Hinv; simpl; [by eauto|].
  destruct (step_inv n s o Hinv) as (s' & -> & Hinv'). simpl. by apply IH.
Qed.

Lemma fresh_inv n s : fresh n s → inv (Z.of_nat n) s.
Proof.
  intros (Hn & Hn64 & Hlen & Hown & Hoe & Hop & Hie & Hip & Hph & Hch & Hs & Hr).
  split; counts; rewrite ?Hph, ?Hch, ?Hs, ?Hr, ?Hop, ?Hip; simpl;
    rewrite ?Z.mod_0_l by lia; try lia; try done.
  intros k Hk. destruct (rd_in_range (q s) (k mod Z.of_nat n)) as [e He].
  { pose proof (Z.mod_pos_bound k (Z.of_nat n)). lia. }
  exists e. split; [done|]. unfold owner.
  assert (own_type e = 0) as -> by exact (rd_Forall _ _ _ _ Hown He). done.
Qed.

(** *** Abstract specification: a bounded first-in first-out channel

    The abstract state is the list of messages sent and not yet polled. *)

Definition in_flight (s : sys) : list msg := drop (length (rcvd s)) (sent s).

Inductive chan_step : list msg → list msg → list msg → list msg → Prop :=
| chan_stutter ch out : chan_step ch out ch out
| chan_put ch out m : chan_step ch out (ch ++ [m]) out
| chan_get ch out m : chan_step (m :: ch) out ch (out ++ [m]).

Lemma step_logs n s o s' : inv n s → inv n s' → step s o = Some s' →
  (sent s' = sent s ∧ rcvd s' = rcvd s) ∨
  (∃ m, sent s' = sent s ++ [m] ∧ rcvd s' = rcvd s) ∨
  (∃ m, sent s' = sent s ∧ rcvd s' = rcvd s ++ [m]).
Proof.
  intros _ _. unfold step. destruct o, (p_held s) as [[[??]?]|], (c_held s);
    repeat case_match; intros Hs; inv_some; repeat case_match; inv_some; simpl;
    rewrite ?app_nil_r; eauto.
Qed.

Lemma step_chan n s o s' : inv n s → inv n s' → step s o = Some s' →
  chan_step (in_flight s) (rcvd s) (in_flight s') (rcvd s').
Proof.
  intros Hi Hi' Hs. unfold in_flight.
  pose proof (inv_polled _ _ Hi) as Hle. pose proof (inv_polled _ _ Hi') as Hle'.
  pose proof (inv_fifo _ _ Hi) as Hf. pose proof (inv_fifo _ _ Hi') as Hf'. counts.
  destruct (step_logs n s o s' Hi Hi' Hs) as [[Hsn Hrc]|[[m [Hsn Hrc]]|[m [Hsn Hrc]]]];
    rewrite Hsn, Hrc in *.
  - constructor.
  - rewrite drop_app_le by lia. constructor.
  - rewrite length_app in *. simpl in *.
    assert (sent s !! length (rcvd s) = Some m) as Hm.
    { rewrite <- (lookup_take_lt _ (length (rcvd s) + 1)) by lia.
      rewrite <- Hf'. by apply list_lookup_middle. }
    rewrite (drop_S _ _ _ Hm), Nat.add_1_r. constructor.
Qed.

End Spsc.

Import Spsc.

(** ** Properties *)

(** C1. Every interleaving of producer and consumer operations on a fresh queue
    runs without an access outside the queue, and the messages the consumer has
    received are, in order and unmodified, the first messages sent; at most [n]
    sent messages are unreleased. *)
Theorem spsc_fifo n s ops : fresh n s →
  ∃ s', run s ops = Some s' ∧ rcvd s' `prefix_of` sent s' ∧
    n_sent s' - n_done s' <= Z.of_nat n.
Proof.
  intros Hf%fresh_inv. destruct (run_inv _ _ ops Hf) as (s' & Hrun & Hinv).
  exists s'. split_and!; [done| |].
  - rewrite (inv_fifo _ _ Hinv). apply prefix_take.
  - pose proof (inv_room _ _ Hinv). pose proof (held_range (p_held s')).
    unfold n_alloc in *. lia.
Qed.

(** C2. Refinement: after any history every operation of either peer is one step
    of the abstract channel: it leaves the messages in flight alone, appends one
    at the end, or removes the one at the front and delivers it. *)
Theorem spsc_refines_channel n s ops o s1 : fresh n s → run s ops = Some s1 →
  ∃ s2, step s1 o = Some s2 ∧
    chan_step (in_flight s1) (rcvd s1) (in_flight s2) (rcvd s2).
Proof.
  intros Hf%fresh_inv Hrun. destruct (run_inv _ _ ops Hf) as (s' & Hrun' & Hinv).
  simplify_eq. destruct (step_inv _ _ o Hinv) as (s2 & Hs & Hinv2).
  exists s2. split; [done|]. by eapply step_chan.
Qed.

(** C3. Progress: after any history an idle consumer that polls at time [now]
    receives the oldest message in flight, unless it is synchronised and the
    message's arrival time is still in the future; and an idle producer is
    granted an entry whenever fewer than [n] messages are unreleased. *)
Theorem spsc_progress n s ops s1 now : fresh n s → run s ops = Some s1 →
  (∀ m ms, c_held s1 = None → in_flight s1 = m :: ms →
     sync (cons s1) = false ∨ m_stamp m <= now →
     ∃ s2, step s1 (Poll now) = Some s2 ∧ rcvd s2 = rcvd s1 ++ [m]) ∧
  (p_held s1 = None → n_sent s1 - n_done s1 < Z.of_nat n →
     ∃ s2, step s1 (Alloc now) = Some s2 ∧ is_Some (p_held s2)).
Proof.
  intros Hf%fresh_inv Hrun. destruct (run_inv _ _ ops Hf) as (s' & Hrun' & Hinv).
  rewrite Hrun in Hrun'. injection Hrun' as <-. split.
  - intros m ms Hh Hfl Hready.
    assert (sent s1 !! length (rcvd s1) = Some m) as Hm.
    { rewrite <- (Nat.add_0_r (length (rcvd s1))), <- lookup_drop.
      unfold in_flight in Hfl. by rewrite Hfl. }
    pose proof (lookup_lt_Some _ _ _ Hm) as Hlt.
    destruct (poll_next _ _ Hinv now) as (m' & e & c & Hm' & He & Hc & _ & Hr);
      [counts; lia|done|].
    assert (m' = m) as ->.
    { unfold rd, n_polled in Hm'. rewrite Nat2Z.id, Hm in Hm'. destruct (0 <=? _); congruence. }
    assert (sync (cons s1) && (now <? m_stamp m) = false) as Hgo.
    { destruct Hready as [->|Hle]; [done|]. apply andb_false_iff. right. lia. }
    rewrite Hgo in Hr. destruct Hr as [_ Hr].
    simpl. rewrite Hh, Hr. simpl. rewrite He. simpl. eexists. split; [done|]. simpl.
    rewrite (intype_sent m e); [|exact (rd_Forall _ _ _ _ (inv_types _ _ Hinv) Hm')|done].
    destruct Hc as (_ & -> & ->). by destruct m.
  - intros Hh Hroom. simpl. rewrite Hh.
    destruct (alloc_granted _ _ Hinv now) as (e & q' & _ & _ & Hq' & ->);
      [unfold n_alloc; rewrite Hh; simpl; lia|done|].
    simpl. rewrite (rd_wr_eq _ _ _ _ Hq'). simpl. eexists. split; [done|]. by eexists.
Qed.

(** C4. Causality: a synchronised consumer never gets a message before the
    arrival time in its header. *)
Theorem in_poll_not_early base_if in_q now base_if' i :
  sync base_if = true → SimbricksBaseIfInPoll base_if in_q now = Some (base_if', Some i) →
  ∃ m, rd in_q i = Some m ∧ timestamp m <= now.
Proof.
  unfold SimbricksBaseIfInPoll, SimbricksBaseIfInPeek. intros Hsync Hp.
  destruct (rd in_q (in_pos base_if)) as [m|] eqn:Hm; [|done]. simpl in Hp.
  destruct (negb _); [done|]. rewrite Hsync in Hp.
  destruct (Z.ltb_spec now (timestamp m)); simpl in Hp; [done|].
  rewrite Hm in Hp. simpl in Hp. destruct (in_enum base_if =? 0); [done|].
  simplify_eq. by exists m.
Qed.

(** Synchronisation bound: when [SimbricksBaseIfOutSync] reports success on a
    synchronised interface whose last message is not in the future, the last
    message the peer can see is less than a synchronisation interval old. *)
Theorem out_sync_bound base_if out_q now base_if' out_q' :
  sync base_if = true → 0 < sync_interval (params base_if) →
  0 <= out_timestamp base_if <= now → now < 2 ^ 64 →
  SimbricksBaseIfOutSync base_if out_q now = Some (base_if', out_q', 0) →
  0 <= now - out_timestamp base_if' < sync_interval (params base_if).
Proof.
  unfold SimbricksBaseIfOutSync, sync_not_due. intros -> Hint Hts Hnow. simpl.
  rewrite wrap_small by (unfold in_width; lia).
  destruct (Z.ltb_spec 0 (out_timestamp base_if)) as [H0|H0]; simpl.
  1: destruct (Z.ltb_spec (now - out_timestamp base_if) (sync_interval (params base_if)));
    simpl; [by intros [= <- <-]; lia|].
  all: unfold SimbricksBaseIfOutAlloc; intros Hs; inv_some;
    repeat (case_match; inv_some); simplify_eq; inv_some; simplify_eq; simpl; lia.
Qed.

(** ** A concrete connection, on which the properties above apply *)

Definition demo_params : SimbricksBaseIfParams :=
  mkParams 500 1000 None kSimbricksBaseIfSyncOptional false 2 64 2 64 0.
Definition demo_if : SimbricksBaseIf :=
  mkBaseIf 0 0 64 2 0 0 0 64 2 0 false kConnOpen true demo_params None (-1) 3 true.
Definition demo_sys : sys :=
  mkSys [mkMsg [] 0 0; mkMsg [] 0 0] demo_if demo_if None None [] [].
Definition demo_ops : list op :=
  [Alloc 5; Fill [1; 2]; Poll 7; Send 0x40; Poll 100; Poll 505; Alloc 6; Send 0x41; Done;
   Sync 2000].

Lemma demo_fresh : fresh 2 demo_sys.
Proof. unfold fresh. simpl. split_and!; try lia; repeat constructor. Qed.

Lemma spsc_fifo_witness : fresh 2 demo_sys ∧
  ∃ s', run demo_sys demo_ops = Some s' ∧ rcvd s' `prefix_of` sent s' ∧
    n_sent s' - n_done s' <= Z.of_nat 2.
Proof. split; [exact demo_fresh|]. exact (spsc_fifo 2 demo_sys demo_ops demo_fresh). Defined.

Definition demo_end : sys :=
  match run demo_sys demo_ops with Some s => s | None => demo_sys end.

Example demo_end_logs :
  rcvd demo_end = [mkLog 0x40 505 [1; 2]] ∧
  sent demo_end = [mkLog 0x40 505 [1; 2]; mkLog 0x41 506 []; mkLog 0 2500 [1; 2]].
Proof. by vm_compute. Qed.

Lemma spsc_refines_channel_witness :
  ∃ s2, step demo_end (Poll 506) = Some s2 ∧
    chan_step (in_flight demo_end) (rcvd demo_end) (in_flight s2) (rcvd s2).
Proof.
  apply (spsc_refines_channel 2 demo_sys demo_ops (Poll 506) demo_end demo_fresh).
  vm_compute. reflexivity.
Defined.

Lemma spsc_progress_witness :
  ∃ s2, step demo_end (Poll 506) = Some s2 ∧
    rcvd s2 = [mkLog 0x40 505 [1; 2]; mkLog 0x41 506 []].
Proof.
  destruct (spsc_progress 2 demo_sys demo_ops demo_end 506 demo_fresh) as [Hpoll _];
    [by vm_compute|].
  destruct (Hpoll (mkLog 0x41 506 []) [mkLog 0 2500 [1; 2]]) as (s2 & Hs & Hr);
    [by vm_compute|by vm_compute|right; simpl; lia|].
  exists s2. split; [exact Hs|]. rewrite Hr. by vm_compute.
Defined.

Lemma in_poll_not_early_witness :
  ∃ m, rd [mkMsg [] 505 0xc0] 0 = Some m ∧ timestamp m <= 505.
Proof.
  apply (in_poll_not_early (demo_if <| in_enum := 1 |>) [mkMsg [] 505 0xc0] 505
    (demo_if <| in_enum := 1 |> <| in_timestamp := 505 |> <| in_pos := 0 |>) 0);
    by vm_compute.
Defined.

Lemma out_sync_bound_witness :
  0 <= 3000 - out_timestamp (demo_if <| out_timestamp := 3000 |> <| out_pos := 1 |>)
    < sync_interval (params (demo_if <| out_timestamp := 100 |>)).
Proof.
  apply (out_sync_bound (demo_if <| out_timestamp := 100 |>)
    [mkMsg [] 0 0; mkMsg [] 0 0] 3000 (demo_if <| out_timestamp := 3000 |> <| out_pos := 1 |>)
    [mkMsg [] 3500 0x80; mkMsg [] 0 0]); (by vm_compute) || (simpl; lia).
Defined.
