(* ===== verification/SimbricksConn.v ===== *)
(** * SimBricks base interface: pools, connections and handshake

    [src/src/libsimbricks/simbricks/base/if.c], with the users of it in
    [network/if.c], [pcie/if.c] and [nicif/nicif.c].  The operating system is a
    parameter: a class [Os] of system calls over a type of worlds, about which
    nothing is assumed, so the theorems hold for every sequence of system-call
    results.  A C function is a computation of type [prog]: it threads the world
    and ends in a value, in [abort()], or in undefined behaviour; the loop that
    waits for peers additionally takes a number of rounds.

    [base_if->shm] points to a pool that other interfaces may share; only its
    [base] and [fd], which never change while it is mapped, are read through
    that pointer, so the handle keeps a copy of the pool. *)
From stdpp Require Import strings.
From S2P Require Import Prelude SimbricksBase.

(** ** Computations *)

Inductive outcome (A : Type) :=
| Ret (a : A)
| Abort
| Undef
| Timeout.
Arguments Ret {A} _.
Arguments Abort {A}.
Arguments Undef {A}.
Arguments Timeout {A}.

Definition prog (W A : Type) : Type := W → outcome (A * W).

Definition pret {W A} (a : A) : prog W A := fun w => Ret (a, w).

Definition pbind {W A B} (m : prog W A) (k : A → prog W B) : prog W B := fun w =>
  match m w with
  | Ret (a, w') => k a w'
  | Abort => Abort
  | Undef => Undef
  | Timeout => Timeout
  end.

Definition pabort {W A} : prog W A := fun _ => Abort.
Definition pundef {W A} : prog W A := fun _ => Undef.
Definition ptimeout {W A} : prog W A := fun _ => Timeout.

(** A possibly undefined access. *)
Definition plift {W A} (o : option A) : prog W A :=
  match o with Some a => pret a | None => pundef end.

Declare Scope prog_scope.
Delimit Scope prog_scope with prog.
Notation "'let!' x ':=' m 'in' k" := (pbind m (fun x => k))
  (at level 10, x pattern, k at level 200) : prog_scope.
Open Scope prog_scope.

(** ** The operating system

    Each call returns its C result; calls whose [errno] the code looks at return
    it too, [poll] returns the [revents], [fstat] the size, and [recvmsg] either
    [errno] or the bytes it stored and the descriptor in the control message, if
    there is one of the expected length. *)
Class Os (W : Type) := {
  k_open : option string → W → Z * W;
  k_create : option string → W → Z * W;
  k_ftruncate : Z → Z → W → Z * W;
  k_mmap : Z → Z → W → Z * W;
  k_munmap : Z → Z → W → Z * W;
  k_memset0 : Z → Z → W → unit * W;
  k_fstat : Z → W → (Z * Z) * W;
  k_close : Z → W → Z * W;
  k_unlink : option string → W → Z * W;
  k_socket : W → Z * W;
  k_getfl : Z → W → Z * W;
  k_setfl : Z → Z → W → Z * W;
  k_bind : Z → option string → W → Z * W;
  k_listen : Z → Z → W → Z * W;
  k_accept4 : Z → Z → W → (Z * Z) * W;
  k_connect : Z → option string → W → (Z * Z) * W;
  k_poll : list (Z * Z) → Z → W → (Z * list Z) * W;
  k_getsockopt : Z → W → (Z * Z) * W;
  k_sendmsg : Z → list Z → option Z → W → Z * W;
  k_recvmsg : Z → Z → bool → W → (Z + list Z * option Z) * W;
  k_calloc : W → bool * W
}.

(** A system call as a computation: it always returns. *)
Definition sys {W A} (f : W → A * W) : prog W A := fun w => Ret (f w).

Section syscalls.
  Context {W : Type} `{Os W}.
Definition os_open (a : option string) : prog W Z :=
    sys (k_open a).
Definition os_create (a : option string) : prog W Z :=
    sys (k_create a).
Definition os_ftruncate (a : Z) (b : Z) : prog W Z :=
    sys (k_ftruncate a b).
Definition os_mmap (a : Z) (b : Z) : prog W Z :=
    sys (k_mmap a b).
Definition os_munmap (a : Z) (b : Z) : prog W Z :=
    sys (k_munmap a b).
Definition os_memset0 (a : Z) (b : Z) : prog W unit :=
    sys (k_memset0 a b).
Definition os_fstat (a : Z) : prog W (Z * Z) :=
    sys (k_fstat a).
Definition os_close (a : Z) : prog W Z :=
    sys (k_close a).
Definition os_unlink (a : option string) : prog W Z :=
    sys (k_unlink a).
Definition os_socket : prog W Z :=
    sys (k_socket).
Definition os_getfl (a : Z) : prog W Z :=
    sys (k_getfl a).
Definition os_setfl (a : Z) (b : Z) : prog W Z :=
    sys (k_setfl a b).
Definition os_bind (a : Z) (b : option string) : prog W Z :=
    sys (k_bind a b).
Definition os_listen (a : Z) (b : Z) : prog W Z :=
    sys (k_listen a b).
Definition os_accept4 (a : Z) (b : Z) : prog W (Z * Z) :=
    sys (k_accept4 a b).
Definition os_connect (a : Z) (b : option string) : prog W (Z * Z) :=
    sys (k_connect a b).
Definition os_poll (a : list (Z * Z)) (b : Z) : prog W (Z * list Z) :=
    sys (k_poll a b).
Definition os_getsockopt (a : Z) : prog W (Z * Z) :=
    sys (k_getsockopt a).
Definition os_sendmsg (a : Z) (b : list Z) (c : option Z) : prog W Z :=
    sys (k_sendmsg a b c).
Definition os_recvmsg (a : Z) (b : Z) (c : bool) : prog W (Z + list Z * option Z) :=
    sys (k_recvmsg a b c).
Definition os_calloc : prog W bool :=
    sys (k_calloc).
End syscalls.

Definition EAGAIN : Z := 11.
Definition EWOULDBLOCK : Z := 11.
Definition POLLIN : Z := 1.
Definition POLLOUT : Z := 4.
Definition O_NONBLOCK : Z := 0x800.
Definition SOCK_NONBLOCK : Z := 0x800.

Definition SIMBRICKS_PROTO_VERSION : Z := 1.
Definition SIMBRICKS_PROTO_ID_BASE : Z := 0.
Definition SIMBRICKS_PROTO_ID_NET : Z := 1.
Definition SIMBRICKS_PROTO_ID_PCIE : Z := 2.
Definition SIMBRICKS_PROTO_FLAGS_LI_SYNC : Z := 1.
Definition SIMBRICKS_PROTO_FLAGS_LI_SYNC_FORCE : Z := 2.
Definition SIMBRICKS_PROTO_FLAGS_CO_SYNC : Z := 1.
Definition SIMBRICKS_PROTO_FLAGS_CO_SYNC_FORCE : Z := 2.

(** ** Parameters *)

Definition SimbricksBaseIfDefaultParams (p : SimbricksBaseIfParams) : SimbricksBaseIfParams :=
  let p := p <| link_latency := 500 * 1000 |> in
  let p := p <| sync_interval := link_latency p |> in
  let p := p <| sock_path := None |> in
  let p := p <| sync_mode := kSimbricksBaseIfSyncOptional |> in
  let p := p <| in_num_entries := 8192 |> <| out_num_entries := 8192 |> in
  let p := p <| in_entries_size := 2048 |> <| out_entries_size := 2048 |> in
  let p := p <| blocking_conn := false |> in
  p <| upper_layer_proto := SIMBRICKS_PROTO_ID_BASE |>.

Definition SimbricksBaseIfSHMSize (p : SimbricksBaseIfParams) : Z :=
  u64 (in_num_entries p * in_entries_size p + out_num_entries p * out_entries_size p).

Definition SimbricksNetIfDefaultParams (p : SimbricksBaseIfParams) : SimbricksBaseIfParams :=
  let p := SimbricksBaseIfDefaultParams p in
  let p := p <| in_entries_size := 1536 + 64 |> <| out_entries_size := 1536 + 64 |> in
  p <| upper_layer_proto := SIMBRICKS_PROTO_ID_NET |>.

Definition SimbricksPcieIfDefaultParams (p : SimbricksBaseIfParams) : SimbricksBaseIfParams :=
  let p := SimbricksBaseIfDefaultParams p in
  let p := p <| upper_layer_proto := SIMBRICKS_PROTO_ID_PCIE |> in
  p <| in_entries_size := 9024 + 64 |> <| out_entries_size := 9024 + 64 |>.

Definition zero_params : SimbricksBaseIfParams :=
  mkParams 0 0 None kSimbricksBaseIfSyncDisabled false 0 0 0 0 0.

(** [memset] of the handle, then the parameters. *)
Definition SimbricksBaseIfInit (p : SimbricksBaseIfParams) : SimbricksBaseIf * Z :=
  let base_if :=
    mkBaseIf 0 0 0 0 0 0 0 0 0 0 false kConnClosed false zero_params None 0 0 false in
  (base_if <| params := p |>, 0).

(** ** Handshake messages *)

Record SimbricksProtoListenerIntro := mkListenerIntro {
  li_version : Z;
  li_flags : Z;
  l2c_offset : Z;
  l2c_elen : Z;
  l2c_nentries : Z;
  c2l_offset : Z;
  c2l_elen : Z;
  c2l_nentries : Z;
  li_upper_layer_proto : Z;
  li_upper_layer_intro_off : Z
}.

Record SimbricksProtoConnecterIntro := mkConnecterIntro {
  ci_version : Z;
  ci_flags : Z;
  ci_upper_layer_proto : Z;
  ci_upper_layer_intro_off : Z
}.

Definition sizeof_listener_intro : Z := 80.
Definition sizeof_connecter_intro : Z := 32.

(** The packed structs as bytes, and the reads of their fields in a buffer. *)
Definition enc64s (xs : list Z) : list Z := concat (le_bytes 8 <$> xs).

Definition enc_listener_intro (i : SimbricksProtoListenerIntro) : list Z :=
  enc64s [li_version i; li_flags i; l2c_offset i; l2c_elen i; l2c_nentries i;
          c2l_offset i; c2l_elen i; c2l_nentries i; li_upper_layer_proto i;
          li_upper_layer_intro_off i].

Definition enc_connecter_intro (i : SimbricksProtoConnecterIntro) : list Z :=
  enc64s [ci_version i; ci_flags i; ci_upper_layer_proto i; ci_upper_layer_intro_off i].

Definition dec_listener_intro (buf : list Z) : option SimbricksProtoListenerIntro :=
  v ← load 8 buf 0; f ← load 8 buf 8;
  lo ← load 8 buf 16; le0 ← load 8 buf 24; ln ← load 8 buf 32;
  co ← load 8 buf 40; ce ← load 8 buf 48; cn ← load 8 buf 56;
  up ← load 8 buf 64; uo ← load 8 buf 72;
  Some (mkListenerIntro v f lo le0 ln co ce cn up uo).

Definition dec_connecter_intro (buf : list Z) : option SimbricksProtoConnecterIntro :=
  v ← load 8 buf 0; f ← load 8 buf 8; up ← load 8 buf 16; uo ← load 8 buf 24;
  Some (mkConnecterIntro v f up uo).

(** The synchronisation flags either side announces. *)
Definition intro_flags (mode : SimbricksBaseIfSyncMode) (flag force : Z) : Z :=
  match mode with
  | kSimbricksBaseIfSyncDisabled => 0
  | kSimbricksBaseIfSyncOptional => flag .| 0
  | kSimbricksBaseIfSyncRequired => flag .| force
  end.

(** The intro the listener builds from its queues and the pool. *)
Definition listener_intro (base_if : SimbricksBaseIf) (pool : SimbricksBaseIfSHMPool)
    : SimbricksProtoListenerIntro :=
  mkListenerIntro SIMBRICKS_PROTO_VERSION
    (intro_flags (sync_mode (params base_if)) SIMBRICKS_PROTO_FLAGS_LI_SYNC
       SIMBRICKS_PROTO_FLAGS_LI_SYNC_FORCE)
    (u64 (out_queue base_if - pool_base pool)) (out_elen base_if) (out_enum base_if)
    (u64 (in_queue base_if - pool_base pool)) (in_elen base_if) (in_enum base_if)
    (upper_layer_proto (params base_if)) sizeof_listener_intro.

Definition connecter_intro (base_if : SimbricksBaseIf) : SimbricksProtoConnecterIntro :=
  mkConnecterIntro SIMBRICKS_PROTO_VERSION
    (intro_flags (sync_mode (params base_if)) SIMBRICKS_PROTO_FLAGS_CO_SYNC
       SIMBRICKS_PROTO_FLAGS_CO_SYNC_FORCE)
    (upper_layer_proto (params base_if)) sizeof_connecter_intro.

(** What the receiver takes out of either intro: version, upper-layer protocol
    and offset, and the peer's two synchronisation flags. *)
Definition peer_intro (is_listener : bool) (buf : list Z)
    : option (Z * Z * Z * bool * bool) :=
  if is_listener then
    c ← dec_connecter_intro buf;
    Some (ci_version c, ci_upper_layer_proto c, ci_upper_layer_intro_off c,
          nz (ci_flags c .& SIMBRICKS_PROTO_FLAGS_CO_SYNC),
          nz (ci_flags c .& SIMBRICKS_PROTO_FLAGS_CO_SYNC_FORCE))
  else
    l ← dec_listener_intro buf;
    Some (li_version l, li_upper_layer_proto l, li_upper_layer_intro_off l,
          nz (li_flags l .& SIMBRICKS_PROTO_FLAGS_LI_SYNC),
          nz (li_flags l .& SIMBRICKS_PROTO_FLAGS_LI_SYNC_FORCE)).

(** The outcome of the synchronisation negotiation: refused, or the new [sync]. *)
Definition negotiate_sync (mode : SimbricksBaseIfSyncMode) (sync0 sync_force : bool)
    : option bool :=
  if sync_force && bool_decide (mode = kSimbricksBaseIfSyncDisabled) then None
  else if negb sync0 && negb sync_force && bool_decide (mode = kSimbricksBaseIfSyncRequired)
  then None
  else if bool_decide (mode = kSimbricksBaseIfSyncDisabled) then Some false
  else Some (sync0 || sync_force).

(** [struct SimBricksBaseIfEstablishData]; [rx_intro] is what was received. *)
Record SimBricksBaseIfEstablishData := mkEst {
  est_if : SimbricksBaseIf;
  tx_intro : list Z;
  rx_intro : list Z;
  rx_intro_len : Z
}.

#[export] Instance est_settable : Settable SimBricksBaseIfEstablishData := fun r =>
  mkEst (est_if r) (tx_intro r) (rx_intro r) (rx_intro_len r).

(** [struct SimbricksNicIf] *)
Record SimbricksNicIf := mkNicIf {
  nic_pool : SimbricksBaseIfSHMPool;
  nic_net : SimbricksBaseIf;
  nic_pcie : SimbricksBaseIf
}.

#[export] Instance nicif_settable : Settable SimbricksNicIf := fun r =>
  mkNicIf (nic_pool r) (nic_net r) (nic_pcie r).

Definition sizeof_net_intro : nat := 4.
Definition sizeof_pcie_host_intro : Z := 4.

Section with_os.
  Context {W : Type} `{Os W}.

(** ** Shared-memory pools *)

Definition SimbricksBaseIfSHMPoolCreate (pool : SimbricksBaseIfSHMPool)
    (path : option string) (pool_size0 : Z) : prog W (Z * SimbricksBaseIfSHMPool) :=
  let pool := pool <| pool_path := path |> <| pool_size := pool_size0 |>
                   <| pool_pos := 0 |> in
  let! fd0 := os_create path in
  let pool := pool <| pool_fd := fd0 |> in
  if fd0 =? -1 then pret (-1, pool)
  else
    let! r := os_ftruncate (pool_fd pool) pool_size0 in
    if nz r then
      let! _ := os_close (pool_fd pool) in
      pret (-1, pool)
    else
      let! b := os_mmap pool_size0 (pool_fd pool) in
      let pool := pool <| pool_base := b |> in
      if b =? -1 then pret (-1, pool)
      else
        let! _ := os_memset0 (pool_base pool) pool_size0 in
        pret (0, pool).

Definition SimbricksBaseIfSHMPoolMapFd (pool : SimbricksBaseIfSHMPool) (fd0 : Z)
    : prog W (Z * SimbricksBaseIfSHMPool) :=
  let! (r, st_size) := os_fstat fd0 in
  if nz r then
    let! _ := os_close fd0 in
    pret (-1, pool)
  else
    let! b := os_mmap st_size fd0 in
    let pool := pool <| pool_base := b |> in
    if b =? -1 then pret (-1, pool)
    else
      pret (0, pool <| pool_fd := fd0 |> <| pool_path := None |> <| pool_pos := 0 |>
                    <| pool_size := st_size |>).

(** [if ((fd = open(...) == -1))]: the comparison is what is assigned. *)
Definition SimbricksBaseIfSHMPoolMap (pool : SimbricksBaseIfSHMPool) (path : option string)
    : prog W (Z * SimbricksBaseIfSHMPool) :=
  let! r := os_open path in
  let fd0 := if r =? -1 then 1 else 0 in
  if nz fd0 then pret (-1, pool)
  else
    let! (r, pool) := SimbricksBaseIfSHMPoolMapFd pool fd0 in
    if nz r then
      let! _ := os_close fd0 in
      pret (-1, pool)
    else pret (0, pool).

Definition SimbricksBaseIfSHMPoolUnmap (pool : SimbricksBaseIfSHMPool)
    : prog W (Z * SimbricksBaseIfSHMPool) :=
  let! r := os_munmap (pool_base pool) (pool_size pool) in
  if nz r then pret (-1, pool)
  else
    let! _ := os_close (pool_fd pool) in
    pret (0, pool <| pool_fd := -1 |> <| pool_base := 0 |> <| pool_size := 0 |>).

Definition SimbricksBaseIfSHMPoolUnlink (pool : SimbricksBaseIfSHMPool) : prog W Z :=
  os_unlink (pool_path pool).

(** ** Connecting *)

Definition AcceptOnBaseIf (base_if : SimbricksBaseIf) : prog W (Z * SimbricksBaseIf) :=
  let flags := if negb (blocking_conn (params base_if)) then SOCK_NONBLOCK else 0 in
  let! (r, errno) := os_accept4 (listen_fd base_if) flags in
  let base_if := base_if <| conn_fd := r |> in
  if 0 <=? conn_fd base_if then
    let! _ := os_close (listen_fd base_if) in
    pret (0, base_if <| listen_fd := -1 |> <| conn_state := kConnAwaitHandshakeRxTx |>)
  else if (errno =? EAGAIN) || (errno =? EWOULDBLOCK) then pret (1, base_if)
  else
    let! _ := os_close (listen_fd base_if) in
    pret (-1, base_if <| listen_fd := -1 |> <| conn_state := kConnClosed |>).

(** The [out_error] label of [SimbricksBaseIfListen] and [SimbricksBaseIfConnect]. *)
Definition out_error (base_if : SimbricksBaseIf) : prog W (Z * SimbricksBaseIf) :=
  let! _ := os_close (listen_fd base_if) in
  pret (-1, base_if <| listen_fd := -1 |>).

(** Make a descriptor non-blocking unless the parameters ask for blocking. *)
Definition set_nonblock (base_if : SimbricksBaseIf) (fd0 : Z) : prog W bool :=
  if negb (blocking_conn (params base_if)) then
    let! flags := os_getfl fd0 in
    if flags =? -1 then pret false
    else
      let! r := os_setfl fd0 (flags .| O_NONBLOCK) in
      pret (negb (r <? 0))
  else pret true.

Definition SimbricksBaseIfListen (base_if : SimbricksBaseIf) (pool : SimbricksBaseIfSHMPool)
    : prog W (Z * SimbricksBaseIf * SimbricksBaseIfSHMPool) :=
  let p := params base_if in
  let base_if := base_if <| shm := Some pool |> in
  let in_len := u64 (in_num_entries p * in_entries_size p) in
  let out_len := u64 (out_num_entries p * out_entries_size p) in
  if pool_size pool <? u64 (pool_pos pool + in_len + out_len) then pret (-1, base_if, pool)
  else
    let! lfd := os_socket in
    let base_if := base_if <| listen_fd := lfd |> in
    if lfd =? -1 then pret (-1, base_if, pool)
    else
      let! ok := set_nonblock base_if (listen_fd base_if) in
      if negb ok then
        let! (r, base_if) := out_error base_if in pret (r, base_if, pool)
      else
        let! r := os_bind (listen_fd base_if) (sock_path p) in
        if nz r then
          let! (r, base_if) := out_error base_if in pret (r, base_if, pool)
        else
          let! r := os_listen (listen_fd base_if) 5 in
          if nz r then
            let! (r, base_if) := out_error base_if in pret (r, base_if, pool)
          else
            let base_if := base_if
              <| in_queue := pool_base pool + pool_pos pool |> <| in_pos := 0 |>
              <| in_elen := in_entries_size p |> <| in_enum := in_num_entries p |>
              <| in_timestamp := 0 |> in
            let pool := pool <| pool_pos := u64 (pool_pos pool + in_len) |> in
            let base_if := base_if
              <| out_queue := pool_base pool + pool_pos pool |> <| out_pos := 0 |>
              <| out_elen := out_entries_size p |> <| out_enum := out_num_entries p |>
              <| out_timestamp := 0 |> in
            let pool := pool <| pool_pos := u64 (pool_pos pool + out_len) |> in
            let base_if := base_if <| conn_state := kConnListening |>
                                   <| listener := true |> in
            let! (r, base_if) := AcceptOnBaseIf base_if in
            pret (if r <? 0 then -1 else 0, base_if, pool).

Definition SimbricksBaseIfConnect (base_if : SimbricksBaseIf) : prog W (Z * SimbricksBaseIf) :=
  let p := params base_if in
  let base_if := base_if <| listener := false |> in
  let! cfd := os_socket in
  let base_if := base_if <| conn_fd := cfd |> in
  if cfd =? -1 then pret (-1, base_if)
  else
    let! ok := set_nonblock base_if (conn_fd base_if) in
    if negb ok then out_error base_if
    else
      let! (ret, errno) := os_connect (conn_fd base_if) (sock_path p) in
      if ret =? 0 then pret (0, base_if <| conn_state := kConnAwaitHandshakeRxTx |>)
      else if (errno =? EAGAIN) || (errno =? EWOULDBLOCK) then
        pret (0, base_if <| conn_state := kConnConnecting |>)
      else pret (-1, base_if <| conn_state := kConnClosed |>).

(** The failure exits of [SimbricksBaseIfConnected]. *)
Definition conn_failed (base_if : SimbricksBaseIf) : prog W (Z * SimbricksBaseIf) :=
  let! _ := os_close (conn_fd base_if) in
  pret (-1, base_if <| conn_fd := -1 |> <| conn_state := kConnClosed |>).

Definition SimbricksBaseIfConnected (base_if : SimbricksBaseIf) : prog W (Z * SimbricksBaseIf) :=
  match conn_state base_if with
  | kConnClosed => pret (-1, base_if)
  | kConnListening => AcceptOnBaseIf base_if
  | kConnConnecting =>
      let! (ret, revents) := os_poll [(conn_fd base_if, POLLOUT)] 0 in
      let rev := default 0 (head revents) in
      if (ret <? 0) || ((ret =? 1) && negb (rev =? POLLOUT)) then conn_failed base_if
      else if ret =? 0 then pret (1, base_if)
      else
        let! (r, status) := os_getsockopt (conn_fd base_if) in
        if nz r then conn_failed base_if
        else if status =? 0 then
          pret (0, base_if <| conn_state := kConnAwaitHandshakeRxTx |>)
        else conn_failed base_if
  | kConnAwaitHandshakeRxTx | kConnAwaitHandshakeRx | kConnAwaitHandshakeTx
  | kConnOpen => pret (0, base_if)
  end.

Definition SimbricksBaseIfConnFd (base_if : SimbricksBaseIf) : Z :=
  match conn_state base_if with
  | kConnListening => listen_fd base_if
  | kConnConnecting => conn_fd base_if
  | _ => -1
  end.

Definition SimbricksBaseIfIntroFd (base_if : SimbricksBaseIf) : Z :=
  match conn_state base_if with
  | kConnAwaitHandshakeRxTx | kConnAwaitHandshakeRx | kConnAwaitHandshakeTx =>
      conn_fd base_if
  | _ => -1
  end.

(** ** Handshake *)

Definition SimbricksBaseIfIntroSend (base_if : SimbricksBaseIf) (payload : list Z)
    : prog W (Z * SimbricksBaseIf) :=
  if negb (bool_decide (conn_state base_if = kConnAwaitHandshakeRxTx))
     && negb (bool_decide (conn_state base_if = kConnAwaitHandshakeTx))
  then pret (-1, base_if)
  else
    let! (hdr, ctl) :=
      (if listener base_if then
         let! pool := plift (shm base_if) in
         pret (enc_listener_intro (listener_intro base_if pool), Some (pool_fd pool))
       else pret (enc_connecter_intro (connecter_intro base_if), None)) in
    let! ret := os_sendmsg (conn_fd base_if) (hdr ++ payload) ctl in
    if ret <? 0 then pret (-1, base_if)
    else if negb (ret =? Z.of_nat (length hdr) + Z.of_nat (length payload))
    then pret (-1, base_if)
    else
      match conn_state base_if with
      | kConnAwaitHandshakeTx => pret (0, base_if <| conn_state := kConnOpen |>)
      | kConnAwaitHandshakeRxTx =>
          pret (0, base_if <| conn_state := kConnAwaitHandshakeRx |>)
      | _ => pabort
      end.

(** The shared-memory setup a connecter does with the listener's intro. *)
Definition intro_recv_shm (base_if : SimbricksBaseIf) (buf : list Z) (ctl : option Z)
    : prog W (Z * SimbricksBaseIf) :=
  let! l := plift (dec_listener_intro buf) in
  match ctl with
  | None => pret (-1, base_if)
  | Some shmfd =>
      let! ok := os_calloc in
      if negb ok then pret (-1, base_if <| shm := None |>)
      else
        let! (r, pool) := SimbricksBaseIfSHMPoolMapFd (mkPool None 0 0 0 0) shmfd in
        if nz r then
          let! _ := os_close shmfd in
          pret (-1, base_if <| shm := None |>)
        else
          pret (0, base_if <| shm := Some pool |>
            <| out_queue := pool_base pool + c2l_offset l |>
            <| out_elen := c2l_elen l |> <| out_enum := c2l_nentries l |>
            <| in_queue := pool_base pool + l2c_offset l |>
            <| in_elen := l2c_elen l |> <| in_enum := l2c_nentries l |>)
  end.

(** [stack] is the initial content of the local [intro_buf].  The result is the
    return value, the handle, [*payload_len] and the bytes copied to [payload],
    if any. *)
Definition SimbricksBaseIfIntroRecv (base_if : SimbricksBaseIf) (payload_len : Z)
    (stack : list Z) : prog W (Z * SimbricksBaseIf * Z * option (list Z)) :=
  if negb (bool_decide (conn_state base_if = kConnAwaitHandshakeRxTx))
     && negb (bool_decide (conn_state base_if = kConnAwaitHandshakeRx))
  then pret (-1, base_if, payload_len, None)
  else
    let! r := os_recvmsg (conn_fd base_if) 2048 (negb (listener base_if)) in
    match r with
    | inl errno =>
        if (errno =? EAGAIN) || (errno =? EWOULDBLOCK)
        then pret (1, base_if, payload_len, None)
        else pret (-1, base_if, payload_len, None)
    | inr (msg, ctl) =>
        let ret := Z.of_nat (length msg) in
        let intro_buf := msg ++ drop (length msg) stack in
        let! (version, upper_proto, upper_off, sync0, sync_force) :=
          plift (peer_intro (listener base_if) intro_buf) in
        if negb (version =? SIMBRICKS_PROTO_VERSION)
        then pret (-1, base_if, payload_len, None)
        else if negb (upper_proto =? upper_layer_proto (params base_if))
        then pret (-1, base_if, payload_len, None)
        else
          match negotiate_sync (sync_mode (params base_if)) sync0 sync_force with
          | None => pret (-1, base_if, payload_len, None)
          | Some sy =>
              let base_if := base_if <| sync := sy |> in
              let upper_layer_len := u64 (ret - upper_off) in
              if payload_len <? upper_layer_len
              then pret (-1, base_if, payload_len, None)
              else
                let! payload := plift (bytes_at (Z.to_nat upper_layer_len) intro_buf upper_off) in
                let! (r, base_if) :=
                  (if negb (listener base_if) then intro_recv_shm base_if intro_buf ctl
                   else pret (0, base_if)) in
                if nz r then pret (-1, base_if, upper_layer_len, Some payload)
                else
                  match conn_state base_if with
                  | kConnAwaitHandshakeRx =>
                      pret (0, base_if <| conn_state := kConnOpen |>, upper_layer_len,
                            Some payload)
                  | kConnAwaitHandshakeRxTx =>
                      pret (0, base_if <| conn_state := kConnAwaitHandshakeTx |>,
                            upper_layer_len, Some payload)
                  | _ => pabort
                  end
          end
    end.

(** ** Establishing several interfaces *)

(** One iteration of the inner loop of [SimBricksBaseIfEstablish]; the first
    component of the result is [false] for its [return -1]. *)
Definition establish_one (stack : list Z) (n : nat) (e : SimBricksBaseIfEstablishData)
    (pfds : list (Z * Z)) (established : nat)
    : prog W (bool * SimBricksBaseIfEstablishData * list (Z * Z) * nat) :=
  if bool_decide (conn_state (est_if e) = kConnClosed)
  then pret (false, e, pfds, established)
  else
    let! (ret, bif) := SimbricksBaseIfConnected (est_if e) in
    let e := e <| est_if := bif |> in
    if ret <? 0 then pret (false, e, pfds, established)
    else
      let pfds :=
        if 0 <? ret then
          pfds ++ [(SimbricksBaseIfConnFd bif,
                    if bool_decide (conn_state bif = kConnListening) then POLLIN else POLLOUT)]
        else pfds in
      if (0 <? ret) && negb (length pfds <=? n)%nat then pabort
      else
        let! (send_ret, bif) :=
          (if bool_decide (conn_state bif = kConnAwaitHandshakeTx)
              || bool_decide (conn_state bif = kConnAwaitHandshakeRxTx)
           then SimbricksBaseIfIntroSend bif (tx_intro e) else pret (0, bif)) in
        let e := e <| est_if := bif |> in
        if nz send_ret then pret (false, e, pfds, established)
        else
          let! (ret, e) :=
            (if bool_decide (conn_state bif = kConnAwaitHandshakeRx) then
               let! (ret, bif, plen, payload) :=
                 SimbricksBaseIfIntroRecv bif (rx_intro_len e) stack in
               pret (ret, e <| est_if := bif |> <| rx_intro_len := plen |>
                            <| rx_intro := default (rx_intro e) payload |>)
             else pret (0, e)) in
          if ret <? 0 then pret (false, e, pfds, established)
          else
            let pfds :=
              if 0 <? ret then pfds ++ [(SimbricksBaseIfIntroFd (est_if e), POLLIN)]
              else pfds in
            if (0 <? ret) && negb (length pfds <=? n)%nat then pabort
            else
              pret (true, e, pfds,
                if bool_decide (conn_state (est_if e) = kConnOpen)
                then S established else established).

(** The inner loop: stops at the first interface that fails. *)
Fixpoint establish_pass (stack : list Z) (n : nat) (ifs : list SimBricksBaseIfEstablishData)
    (pfds : list (Z * Z)) (established : nat)
    : prog W (bool * list SimBricksBaseIfEstablishData * list (Z * Z) * nat) :=
  match ifs with
  | [] => pret (true, [], pfds, established)
  | e :: ifs' =>
      let! (ok, e, pfds, established) := establish_one stack n e pfds established in
      if negb ok then pret (false, e :: ifs', pfds, established)
      else
        let! (ok, ifs', pfds, established) :=
          establish_pass stack n ifs' pfds established in
        pret (ok, e :: ifs', pfds, established)
  end.

(** The outer loop; [rounds] bounds how often it waits for the peers. *)
Fixpoint establish_loop (stack : list Z) (rounds : nat) (established : nat)
    (ifs : list SimBricksBaseIfEstablishData)
    : prog W (Z * list SimBricksBaseIfEstablishData) :=
  let n := length ifs in
  if negb (established <? n)%nat then pret (0, ifs)
  else
    match rounds with
    | O => ptimeout
    | S rounds =>
        let! (ok, ifs, pfds, established) := establish_pass stack n ifs [] 0 in
        if negb ok then pret (-1, ifs)
        else if (length pfds =? 0)%nat && negb (established =? n)%nat then pabort
        else if (0 <? length pfds)%nat then
          let! (ret, _) := os_poll pfds (-1) in
          if ret <? 0 then pret (-1, ifs)
          else establish_loop stack rounds established ifs
        else establish_loop stack rounds established ifs
    end.

Definition SimBricksBaseIfEstablish (stack : list Z) (rounds : nat)
    (ifs : list SimBricksBaseIfEstablishData) : prog W (Z * list SimBricksBaseIfEstablishData) :=
  establish_loop stack rounds 0 ifs.

(** ** Waiting for connections

    The local arrays [pfds] and [ids] start uninitialised ([None]) and keep
    their content from one round to the next. *)

Definition wait_arrays : Type := list (option Z) * list (option (Z * Z * Z)).

(** The first inner loop of [SimbricksBaseIfConnsWait]. *)
Fixpoint conns_prepare (bifs : list SimbricksBaseIf) (i n_wait : nat) (a : wait_arrays)
    : option (nat * wait_arrays) :=
  match bifs with
  | [] => Some (n_wait, a)
  | b :: bifs' =>
      let add fd0 ev :=
        conns_prepare bifs' (S i) (S n_wait)
          (<[n_wait := Some (Z.of_nat i)]> a.1, <[n_wait := Some (fd0, ev, 0)]> a.2) in
      match conn_state b with
      | kConnListening => add (listen_fd b) POLLIN
      | kConnConnecting => add (conn_fd b) POLLOUT
      | kConnAwaitHandshakeRxTx | kConnAwaitHandshakeRx | kConnAwaitHandshakeTx
      | kConnOpen => conns_prepare bifs' (S i) n_wait a
      | kConnClosed => None
      end
  end.

(** [poll] fills in [revents] of the entries it is given. *)
Definition store_revents (pfds : list (option (Z * Z * Z))) (revents : list Z)
    : list (option (Z * Z * Z)) :=
  imap (λ i p, match p, revents !! i with
               | Some (fd0, ev, _), Some rv => Some (fd0, ev, rv)
               | _, _ => p
               end) pfds.

(** The second inner loop, which runs over all [n] entries. *)
Fixpoint conns_check (todo i : nat) (a : wait_arrays) (bifs : list SimbricksBaseIf) (n_wait : Z)
    : prog W (Z * list SimbricksBaseIf * Z) :=
  match todo with
  | O => pret (0, bifs, n_wait)
  | S todo =>
      let! id := plift (mjoin (a.1 !! i)) in
      let! b := plift (rd bifs id) in
      let! (_, _, revents) := plift (mjoin (a.2 !! i)) in
      if nz (revents .& Z.lnot (POLLIN .| POLLOUT)) then pret (-1, bifs, n_wait)
      else
        let! (ret, b) := SimbricksBaseIfConnected b in
        let! bifs := plift (wr bifs id b) in
        if ret <? 0 then pret (-1, bifs, n_wait)
        else conns_check todo (S i) a bifs (if ret =? 0 then u32 (n_wait - 1) else n_wait)
  end.

Fixpoint conns_wait_loop (rounds : nat) (a : wait_arrays) (bifs : list SimbricksBaseIf)
    : prog W (Z * list SimbricksBaseIf) :=
  match rounds with
  | O => ptimeout
  | S rounds =>
      match conns_prepare bifs 0 0 a with
      | None => pret (-1, bifs)
      | Some (n_wait, a) =>
          if (n_wait =? 0)%nat then pret (0, bifs)
          else
            let! (ret, revents) :=
              os_poll (omap (fmap (λ '(fd0, ev, _), (fd0, ev))) (take n_wait a.2)) (-1) in
            if ret <? 0 then pret (-1, bifs)
            else
              let a := (a.1, store_revents a.2 (take n_wait revents)) in
              let! (r, bifs, n_wait) := conns_check (length bifs) 0 a bifs (Z.of_nat n_wait) in
              if nz r then pret (r, bifs)
              else if 0 <? n_wait then conns_wait_loop rounds a bifs
              else pret (0, bifs)
      end
  end.

Definition SimbricksBaseIfConnsWait (rounds : nat) (bifs : list SimbricksBaseIf)
    : prog W (Z * list SimbricksBaseIf) :=
  conns_wait_loop rounds (replicate (length bifs) None, replicate (length bifs) None) bifs.

(** ** Closing

    The busy wait for a free entry; [q_at k] is the queue the [k]-th attempt
    sees. *)
Fixpoint close_alloc (attempts k : nat) (base_if : SimbricksBaseIf)
    (q_at : nat → list SimbricksProtoBaseMsg)
    : prog W (SimbricksBaseIf * list SimbricksProtoBaseMsg * Z) :=
  match attempts with
  | O => ptimeout
  | S attempts =>
      let! (base_if, out_q, m) :=
        plift (SimbricksBaseIfOutAlloc base_if (q_at k) UINT64_MAX) in
      match m with
      | None => close_alloc attempts (S k) base_if q_at
      | Some i => pret (base_if, out_q, i)
      end
  end.

(** The result is the handle and the outgoing queue, when a termination message
    was put into it. *)
Definition SimbricksBaseIfClose (attempts : nat) (base_if : SimbricksBaseIf)
    (q_at : nat → list SimbricksProtoBaseMsg)
    : prog W (SimbricksBaseIf * option (list SimbricksProtoBaseMsg)) :=
  match conn_state base_if with
  | kConnListening =>
      let! _ := os_close (listen_fd base_if) in
      pret (base_if <| listen_fd := -1 |> <| conn_state := kConnClosed |>, None)
  | kConnClosed => pret (base_if, None)
  | st =>
      let! (base_if, out_q) :=
        (match st with
         | kConnOpen =>
             let! (base_if, out_q, i) := close_alloc attempts 0 base_if q_at in
             let! out_q := plift
               (SimbricksBaseIfOutSend out_q i SIMBRICKS_PROTO_MSG_TYPE_TERMINATE) in
             pret (base_if, Some out_q)
         | _ => pret (base_if, None)
         end) in
      let! _ := os_close (conn_fd base_if) in
      pret (base_if <| conn_fd := -1 |> <| conn_state := kConnClosed |>, out_q)
  end.

(** ** Users: network interface and NIC interface *)

Definition SimbricksNetIfInit (stack : list Z) (rounds : nat) (p : SimbricksBaseIfParams)
    (eth_socket_path : option string) (sync_eth : option bool)
    : prog W (Z * SimbricksBaseIf * option bool) :=
  let p := p <| sync_mode := match sync_eth with
                             | Some true => kSimbricksBaseIfSyncOptional
                             | _ => kSimbricksBaseIfSyncDisabled
                             end |> in
  let p := p <| sock_path := eth_socket_path |> in
  let (bif, r) := SimbricksBaseIfInit p in
  if nz r then pret (-1, bif, sync_eth)
  else
    let! (r, bif) := SimbricksBaseIfConnect bif in
    if nz r then pret (-1, bif, sync_eth)
    else
      let! (r, bifs) := SimbricksBaseIfConnsWait rounds [bif] in
      let bif := default bif (head bifs) in
      if nz r then pret (-1, bif, sync_eth)
      else
        let! (r, bif) := SimbricksBaseIfIntroSend bif (replicate sizeof_net_intro 0) in
        if nz r then pret (-1, bif, sync_eth)
        else
          let! (ret, _) := os_poll [(SimbricksBaseIfIntroFd bif, POLLIN)] (-1) in
          if negb (ret =? 1) then pret (-1, bif, sync_eth)
          else
            let! (r, bif, _, _) :=
              SimbricksBaseIfIntroRecv bif (Z.of_nat sizeof_net_intro) stack in
            if nz r then pret (-1, bif, sync_eth)
            else pret (0, bif, (λ _, SimbricksBaseIfSyncEnabled bif) <$> sync_eth).

(** Initialise and listen on one of the two interfaces of a NIC. *)
Definition nic_listen (p : SimbricksBaseIfParams) (pool : SimbricksBaseIfSHMPool)
    : prog W (Z * SimbricksBaseIf * SimbricksBaseIfSHMPool) :=
  let (bif, r) := SimbricksBaseIfInit p in
  if nz r then pret (-1, bif, pool)
  else
    let! (r, bif, pool) := SimbricksBaseIfListen bif pool in
    if nz r then pret (-1, bif, pool) else pret (0, bif, pool).

Definition nic_shm_size (netParams pcieParams : option SimbricksBaseIfParams) : Z :=
  let add shm_size o :=
    match o with
    | Some p =>
        u64 (u64 (shm_size + in_num_entries p * in_entries_size p)
             + out_num_entries p * out_entries_size p)
    | None => shm_size
    end in
  add (add 0 netParams) pcieParams.

Definition SimbricksNicIfInit (stack : list Z) (rounds : nat) (nicif : SimbricksNicIf)
    (shm_path : option string) (netParams pcieParams : option SimbricksBaseIfParams)
    (di : list Z) : prog W (Z * SimbricksNicIf) :=
  let! (r, pool) :=
    SimbricksBaseIfSHMPoolCreate (nic_pool nicif) shm_path (nic_shm_size netParams pcieParams) in
  let nicif := nicif <| nic_pool := pool |> in
  if nz r then pret (-1, nicif)
  else
    let! (r, nicif) :=
      (match netParams with
       | Some p =>
           let! (r, bif, pool) := nic_listen p (nic_pool nicif) in
           pret (r, nicif <| nic_net := bif |> <| nic_pool := pool |>)
       | None => pret (0, nicif)
       end) in
    if nz r then pret (-1, nicif)
    else
      let! (r, nicif) :=
        (match pcieParams with
         | Some p =>
             let! (r, bif, pool) := nic_listen p (nic_pool nicif) in
             pret (r, nicif <| nic_pcie := bif |> <| nic_pool := pool |>)
         | None => pret (0, nicif)
         end) in
      if nz r then pret (-1, nicif)
      else
        let net_est :=
          match netParams with
          | Some _ => [mkEst (nic_net nicif) (replicate sizeof_net_intro 0)
                         (replicate sizeof_net_intro 0) (Z.of_nat sizeof_net_intro)]
          | None => []
          end in
        let pcie_est :=
          match pcieParams with
          | Some _ => [mkEst (nic_pcie nicif) di [] sizeof_pcie_host_intro]
          | None => []
          end in
        let! (r, ests) := SimBricksBaseIfEstablish stack rounds (net_est ++ pcie_est) in
        let bifs := est_if <$> ests in
        let nicif :=
          match netParams, pcieParams, bifs with
          | Some _, Some _, [b1; b2] => nicif <| nic_net := b1 |> <| nic_pcie := b2 |>
          | Some _, None, [b1] => nicif <| nic_net := b1 |>
          | None, Some _, [b1] => nicif <| nic_pcie := b1 |>
          | _, _, _ => nicif
          end in
        pret (r, nicif).

Definition SimbricksNicIfCleanup (attempts : nat) (nicif : SimbricksNicIf)
    (q_pcie q_net : nat → list SimbricksProtoBaseMsg) : prog W (Z * SimbricksNicIf) :=
  let! (bif, _) := SimbricksBaseIfClose attempts (nic_pcie nicif) q_pcie in
  let nicif := nicif <| nic_pcie := bif |> in
  let! (bif, _) := SimbricksBaseIfClose attempts (nic_net nicif) q_net in
  let nicif := nicif <| nic_net := bif |> in
  pret (-1, nicif).

End with_os.
