(* ===== verification/SimbricksHandshake.v ===== *)
(** * SimBricks connections: correctness of pools, handshake and establishment

    Theorems about the definitions of [SimbricksConn.v]. *)
From stdpp Require Import strings.
From S2P Require Import Prelude SimbricksBase SimbricksConn.

(** ** Reasoning about computations *)

Lemma pbind_Ret {W A B} (m : prog W A) (k : A → prog W B) w b w' :
  pbind m k w = Ret (b, w') → ∃ a w1, m w = Ret (a, w1) ∧ k a w1 = Ret (b, w').
Proof. unfold pbind. destruct (m w) as [[a w1]| | |]; naive_solver. Qed.

Lemma pbind_Abort {W A B} (m : prog W A) (k : A → prog W B) w :
  pbind m k w = Abort → m w = Abort ∨ ∃ a w1, m w = Ret (a, w1) ∧ k a w1 = Abort.
Proof. unfold pbind. destruct (m w) as [[a w1]| | |]; naive_solver. Qed.

(** Split [p w = Ret _] or [p w = Abort] along the binds and branches of [p]. *)
Ltac inv_prog_step :=
  match goal with
  | H : Ret _ = Ret _ |- _ => injection H as H; subst
  | H : (_, _) = (_, _) |- _ => injection H as H; subst
  | H : @eq (outcome _) ?a ?b |- _ => discriminate H
  | H : pbind _ _ _ = Ret _ |- _ => apply pbind_Ret in H as (? & ? & ? & H)
  | H : pbind _ _ _ = Abort |- _ => apply pbind_Abort in H as [H|(? & ? & ? & H)]
  | H : pret _ _ = _ |- _ => unfold pret in H
  | H : pabort _ = _ |- _ => unfold pabort in H
  | H : pundef _ = _ |- _ => unfold pundef in H
  | H : ptimeout _ = _ |- _ => unfold ptimeout in H
  | H : plift ?o _ = _ |- _ => unfold plift in H; destruct o eqn:?
  | H : sys _ _ = _ |- _ => unfold sys in H
  | H : (if ?b then _ else _) _ = _ |- _ => destruct b eqn:?
  | H : (match ?x with _ => _ end) _ = _ |- _ => destruct x eqn:?
  end.
Ltac inv_prog := repeat (inv_prog_step; simpl in *).

(** Split on the outermost test or match of [H : p w = _]. *)
Ltac prog_case H :=
  match type of H with
  | (if ?b then _ else _) _ = _ => destruct b eqn:?
  | (match ?x with _ => _ end) _ = _ => destruct x eqn:?
  end.

Ltac bdec :=
  repeat match goal with
  | H : bool_decide _ = true |- _ => apply bool_decide_eq_true_1 in H
  | H : bool_decide _ = false |- _ => apply bool_decide_eq_false_1 in H
  end.

(** ** Handshake messages *)

Definition listener_intro_ok (i : SimbricksProtoListenerIntro) : Prop :=
  Forall (in_width 64)
    [li_version i; li_flags i; l2c_offset i; l2c_elen i; l2c_nentries i;
     c2l_offset i; c2l_elen i; c2l_nentries i; li_upper_layer_proto i;
     li_upper_layer_intro_off i].

Definition connecter_intro_ok (i : SimbricksProtoConnecterIntro) : Prop :=
  Forall (in_width 64)
    [ci_version i; ci_flags i; ci_upper_layer_proto i; ci_upper_layer_intro_off i].

Lemma load_app_l n xs ys : length xs = n → load n (xs ++ ys) 0 = Some (le xs).
Proof.
  intros <-. unfold load, bytes_at. rewrite length_app.
  destruct (Z.leb_spec 0 0), (Z.leb_spec (0 + Z.of_nat (length xs))
    (Z.of_nat (length xs + length ys))); try lia.
  simpl. by rewrite drop_0, take_app_length.
Qed.

Lemma load_app_r n xs ys off : Z.of_nat (length xs) <= off →
  load n (xs ++ ys) off = load n ys (off - Z.of_nat (length xs)).
Proof.
  intros Hoff. unfold load, bytes_at. rewrite length_app.
  destruct (Z.leb_spec 0 off), (Z.leb_spec 0 (off - Z.of_nat (length xs))); try lia.
  destruct (Z.leb_spec (off + Z.of_nat n) (Z.of_nat (length xs + length ys))),
    (Z.leb_spec (off - Z.of_nat (length xs) + Z.of_nat n) (Z.of_nat (length ys)));
    try lia; simpl; [|done].
  rewrite drop_app_ge by lia. do 4 f_equal. lia.
Qed.

(** The [k]-th field of a packed sequence of 64-bit fields. *)
Lemma load_enc64s k off xs x rest : off = 8 * Z.of_nat k → Forall (in_width 64) xs →
  xs !! k = Some x → load 8 (enc64s xs ++ rest) off = Some x.
Proof.
  intros -> Hw. revert k. unfold enc64s.
  induction Hw as [|y ys Hy Hys IH]; intros k Hk; [done|].
  cbn [fmap list_fmap concat]. rewrite <- app_assoc. destruct k as [|k]; simpl in Hk.
  - simplify_eq. rewrite load_app_l by apply length_le_bytes.
    rewrite le_le_bytes. f_equal. by apply wrap_small.
  - rewrite load_app_r by (rewrite length_le_bytes; lia).
    rewrite length_le_bytes. rewrite <- (IH k Hk). f_equal. lia.
Qed.

Lemma length_enc64s xs : length (enc64s xs) = (8 * length xs)%nat.
Proof.
  unfold enc64s. induction xs as [|x xs IH]; [done|].
  cbn [fmap list_fmap concat length]. rewrite length_app, length_le_bytes, IH. lia.
Qed.

Lemma length_enc_listener i : length (enc_listener_intro i) = 80%nat.
Proof. apply length_enc64s. Qed.

Lemma dec_enc_listener i rest : listener_intro_ok i →
  dec_listener_intro (enc_listener_intro i ++ rest) = Some i.
Proof.
  intros Hok. unfold dec_listener_intro, enc_listener_intro.
  rewrite (load_enc64s 0 0 _ _ rest eq_refl Hok eq_refl), (load_enc64s 1 8 _ _ rest eq_refl Hok eq_refl),
    (load_enc64s 2 16 _ _ rest eq_refl Hok eq_refl), (load_enc64s 3 24 _ _ rest eq_refl Hok eq_refl),
    (load_enc64s 4 32 _ _ rest eq_refl Hok eq_refl), (load_enc64s 5 40 _ _ rest eq_refl Hok eq_refl),
    (load_enc64s 6 48 _ _ rest eq_refl Hok eq_refl), (load_enc64s 7 56 _ _ rest eq_refl Hok eq_refl),
    (load_enc64s 8 64 _ _ rest eq_refl Hok eq_refl), (load_enc64s 9 72 _ _ rest eq_refl Hok eq_refl).
  by destruct i.
Qed.

Lemma dec_enc_connecter i rest : connecter_intro_ok i →
  dec_connecter_intro (enc_connecter_intro i ++ rest) = Some i.
Proof.
  intros Hok. unfold dec_connecter_intro, enc_connecter_intro.
  rewrite (load_enc64s 0 0 _ _ rest eq_refl Hok eq_refl), (load_enc64s 1 8 _ _ rest eq_refl Hok eq_refl),
    (load_enc64s 2 16 _ _ rest eq_refl Hok eq_refl), (load_enc64s 3 24 _ _ rest eq_refl Hok eq_refl).
  by destruct i.
Qed.

(** The two flags a peer in mode [m] announces. *)
Definition offers (m : SimbricksBaseIfSyncMode) : bool :=
  bool_decide (m ≠ kSimbricksBaseIfSyncDisabled).
Definition forces (m : SimbricksBaseIfSyncMode) : bool :=
  bool_decide (m = kSimbricksBaseIfSyncRequired).

Lemma intro_flags_decode m :
  nz (intro_flags m 1 2 .& 1) = offers m ∧ nz (intro_flags m 1 2 .& 2) = forces m.
Proof. by destruct m. Qed.

Ltac solve_widths :=
  repeat apply List.Forall_cons; try apply List.Forall_nil;
  try done; try (by apply wrap_width).

(** A handle whose fields have their C types. *)
Definition base_if_ok (b : SimbricksBaseIf) : Prop :=
  Forall (in_width 64) [in_elen b; in_enum b; out_elen b; out_enum b;
    upper_layer_proto (params b)].

Lemma listener_intro_in_width b pool : base_if_ok b →
  listener_intro_ok (listener_intro b pool).
Proof.
  unfold base_if_ok, listener_intro_ok, listener_intro.
  intros Hb. decompose_Forall_hyps. simpl.
  solve_widths. by destruct (sync_mode (params b)).
Qed.

Lemma connecter_intro_in_width b : base_if_ok b → connecter_intro_ok (connecter_intro b).
Proof.
  unfold base_if_ok, connecter_intro_ok, connecter_intro.
  intros Hb. decompose_Forall_hyps. simpl.
  solve_widths. by destruct (sync_mode (params b)).
Qed.

Section with_os.
Context {W : Type} `{Os W}.

(** ** Pools *)

Lemma map_fd_Ret pool fd0 w r pool' w' :
  SimbricksBaseIfSHMPoolMapFd pool fd0 w = Ret ((r, pool'), w') →
  (r = 0 ∧ pool_fd pool' = fd0 ∧ pool_pos pool' = 0) ∨ r = -1.
Proof.
  unfold SimbricksBaseIfSHMPoolMapFd, os_fstat, os_close, os_mmap. intros Hm.
  inv_prog; simpl; auto.
Qed.

(** ** Connection states *)

Lemma accept_Ret b w r b' w' : conn_state b = kConnListening →
  AcceptOnBaseIf b w = Ret ((r, b'), w') →
  (r = 0 ∧ conn_state b' = kConnAwaitHandshakeRxTx ∧ 0 <= conn_fd b') ∨
  (r = 1 ∧ conn_state b' = kConnListening) ∨ (r = -1 ∧ conn_state b' = kConnClosed).
Proof.
  unfold AcceptOnBaseIf, os_accept4, os_close. intros Hst Ha.
  inv_prog; bool_to_prop; simpl; auto.
Qed.

Definition connected (st : ConnState) : bool :=
  match st with
  | kConnAwaitHandshakeRxTx | kConnAwaitHandshakeRx | kConnAwaitHandshakeTx
  | kConnOpen => true
  | _ => false
  end.

Definition waiting (st : ConnState) : bool :=
  match st with kConnListening | kConnConnecting => true | _ => false end.

Lemma connected_Ret b w r b' w' :
  SimbricksBaseIfConnected b w = Ret ((r, b'), w') →
  (r = 0 ∧ connected (conn_state b') = true ∧
     (conn_state b' = conn_state b ∨
      waiting (conn_state b) = true ∧ conn_state b' = kConnAwaitHandshakeRxTx)) ∨
  (r = 1 ∧ waiting (conn_state b) = true ∧ conn_state b' = conn_state b) ∨
  (r = -1 ∧ conn_state b' = kConnClosed).
Proof.
  unfold SimbricksBaseIfConnected. intros Hc. destruct (conn_state b) eqn:Hst.
  2: { apply accept_Ret in Hc as [(-> & -> & _)|[(-> & ->)|(-> & ->)]]; auto 10. }
  all: unfold conn_failed, os_poll, os_getsockopt, os_close in Hc; inv_prog; simpl;
    rewrite ?Hst; auto 10.
Qed.

Lemma intro_send_Ret b payload w r b' w' :
  SimbricksBaseIfIntroSend b payload w = Ret ((r, b'), w') →
  (r = 0 ∧ ((conn_state b = kConnAwaitHandshakeRxTx ∧ conn_state b' = kConnAwaitHandshakeRx) ∨
            (conn_state b = kConnAwaitHandshakeTx ∧ conn_state b' = kConnOpen))) ∨
  (r = -1 ∧ b' = b).
Proof.
  unfold SimbricksBaseIfIntroSend, os_sendmsg. intros Hs.
  inv_prog; simpl; auto.
Qed.

Lemma recv_shm_Ret b buf ctl w r b' w' :
  intro_recv_shm b buf ctl w = Ret ((r, b'), w') →
  conn_state b' = conn_state b ∧ (r = 0 ∨ r = -1).
Proof.
  unfold intro_recv_shm, os_calloc, os_close. intros Hs. inv_prog; simpl; auto.
Qed.

Lemma intro_recv_Ret b plen stack w r b' plen' payload w' :
  SimbricksBaseIfIntroRecv b plen stack w = Ret ((r, b', plen', payload), w') →
  (r = 0 ∧ ((conn_state b = kConnAwaitHandshakeRxTx ∧ conn_state b' = kConnAwaitHandshakeTx) ∨
            (conn_state b = kConnAwaitHandshakeRx ∧ conn_state b' = kConnOpen))) ∨
  (r = 1 ∧ b' = b) ∨ (r = -1 ∧ conn_state b' = conn_state b).
Proof.
  unfold SimbricksBaseIfIntroRecv, os_recvmsg. intros Hr.
  prog_case Hr; [inv_prog; auto|].
  apply pbind_Ret in Hr as (res & w1 & Hrecv & Hr). destruct res as [errno|[msg ctl]].
  { inv_prog; auto. }
  apply pbind_Ret in Hr as ([[[[version up] uo] sy0] syf] & w2 & Hp & Hr).
  do 2 (prog_case Hr; [inv_prog; auto|]).
  prog_case Hr; [|inv_prog; auto]. prog_case Hr; [inv_prog; auto|].
  apply pbind_Ret in Hr as (pl & w3 & Hpl & Hr).
  apply pbind_Ret in Hr as ([r1 b1] & w4 & Hshm & Hr).
  assert (conn_state b1 = conn_state b ∧ (r1 = 0 ∨ r1 = -1)) as [Hst Hr1].
  { prog_case Hshm.
    - apply recv_shm_Ret in Hshm as [-> ?]. simpl. auto.
    - clear Hr. inv_prog. simpl. auto. }
  inv_prog; simpl; rewrite <- ?Hst; auto 10.
Qed.

(** No guard of the three handshake functions leads to their [abort()]. *)
Lemma connected_no_abort b w : SimbricksBaseIfConnected b w ≠ Abort.
Proof.
  unfold SimbricksBaseIfConnected, AcceptOnBaseIf, conn_failed, os_accept4, os_close,
    os_poll, os_getsockopt. intros Ha. inv_prog.
Qed.

Lemma intro_send_no_abort b payload w : SimbricksBaseIfIntroSend b payload w ≠ Abort.
Proof.
  unfold SimbricksBaseIfIntroSend, os_sendmsg. intros Ha.
  destruct (conn_state b) eqn:Hst; simpl in *; inv_prog.
Qed.

Lemma recv_shm_no_abort b buf ctl w : intro_recv_shm b buf ctl w ≠ Abort.
Proof.
  unfold intro_recv_shm, SimbricksBaseIfSHMPoolMapFd, os_calloc, os_close, os_fstat, os_mmap.
  intros Ha. inv_prog.
Qed.

Lemma intro_recv_no_abort b plen stack w :
  SimbricksBaseIfIntroRecv b plen stack w ≠ Abort.
Proof.
  unfold SimbricksBaseIfIntroRecv, os_recvmsg. intros Hr.
  destruct (conn_state b) eqn:Hst; simpl in Hr; try by inv_prog.
  all: apply pbind_Abort in Hr as [Hr|(res & w1 & Hrecv & Hr)]; [by inv_prog|].
  all: destruct res as [errno|[msg ctl]]; [by inv_prog|].
  all: apply pbind_Abort in Hr as [Hr|([[[[version up] uo] sy0] syf] & w2 & Hp & Hr)];
    [by inv_prog|].
  all: do 2 (prog_case Hr; [by inv_prog|]).
  all: prog_case Hr; [|by inv_prog].
  all: prog_case Hr; [by inv_prog|].
  all: apply pbind_Abort in Hr as [Hr|(pl & w3 & Hpl & Hr)]; [by inv_prog|].
  all: apply pbind_Abort in Hr as [Hr|([r1 b1] & w4 & Hshm & Hr)].
  1,3: prog_case Hr; [by apply recv_shm_no_abort in Hr|by inv_prog].
  all: assert (conn_state b1 = conn_state b) as Hst1 by
    (clear Hr; prog_case Hshm; [by apply recv_shm_Ret in Hshm as [-> _]|by inv_prog]).
  all: rewrite Hst1, Hst in Hr; by inv_prog.
Qed.

(** ** Establishment *)

Definition is_open (e : SimBricksBaseIfEstablishData) : Prop :=
  conn_state (est_if e) = kConnOpen.

(** One iteration either fails, or leaves the interface open, or leaves it with
    exactly one descriptor to wait for. *)
Lemma establish_one_Ret stack n e pfds est w e' pfds' est' w' :
  establish_one stack n e pfds est w = Ret ((true, e', pfds', est'), w') →
  (is_open e' ∧ pfds' = pfds ∧ est' = S est) ∨
  (¬ is_open e' ∧ length pfds' = S (length pfds) ∧ est' = est).
Proof.
  unfold establish_one, is_open. intros Hr. prog_case Hr; [by inv_prog|].
  apply pbind_Ret in Hr as ([r1 b1] & w1 & Hc & Hr).
  apply connected_Ret in Hc. prog_case Hr; [by inv_prog|].
  prog_case Hr; [by inv_prog|].
  apply pbind_Ret in Hr as ([r2 b2] & w2 & Hs & Hr).
  prog_case Hr; [by inv_prog|].
  apply pbind_Ret in Hr as ([r3 e3] & w3 & Hv & Hr).
  destruct Hc as [(-> & Hcon & _)|[(-> & Hw & Hst)|(-> & _)]]; [| |bool_to_prop; lia].
  - assert (conn_state b2 = kConnAwaitHandshakeRx ∨ conn_state b2 = kConnOpen) as Hb2.
    { prog_case Hs.
      - apply intro_send_Ret in Hs as [(_ & [(_ & ?)|(_ & ?)])|(-> & _)]; auto.
        discriminate.
      - clear Hr Hv. inv_prog. bool_to_prop. destruct (conn_state b2); simpl in *; auto; done. }
    assert ((r3 = 0 ∧ conn_state (est_if e3) = kConnOpen) ∨
      (r3 = 1 ∧ conn_state (est_if e3) ≠ kConnOpen) ∨ r3 < 0) as Hr3.
    { prog_case Hv.
      - apply pbind_Ret in Hv as ([[[r4 b4] pl] py] & w4 & Hv & Hv').
        clear Hr Hs. inv_prog. bdec.
        apply intro_recv_Ret in Hv as [(-> & [(? & _)|(_ & ?)])|[(-> & ->)|(-> & _)]];
          simpl; try congruence; auto with lia.
        right. left. split; [done|congruence].
      - clear Hr Hs. inv_prog. bdec.
        destruct Hb2; [done|]. auto. }
    destruct Hr3 as [(-> & Ho)|[(-> & Ho)|Hneg]]; clear Hs Hv; inv_prog; bool_to_prop; bdec;
      try lia; try done; simpl; auto.
    + left. by rewrite bool_decide_eq_true_2.
    + right. rewrite bool_decide_eq_false_2, length_app by done. simpl.
      split_and!; [done|lia|done].
  - assert (conn_state b1 = kConnListening ∨ conn_state b1 = kConnConnecting) as Hb1.
    { rewrite Hst. by destruct (conn_state (est_if e)); auto. }
    assert (r2 = 0 ∧ b2 = b1) as [-> ->].
    { clear Hr Hv. destruct Hb1 as [Hb1|Hb1]; rewrite Hb1 in Hs; simpl in Hs; by inv_prog. }
    assert (r3 = 0 ∧ e3 = e <| est_if := b1 |>) as [-> ->].
    { clear Hr Hs. destruct Hb1 as [Hb1|Hb1]; rewrite Hb1 in Hv; simpl in Hv; by inv_prog. }
    simpl in Hr. rewrite (bool_decide_eq_false_2 (conn_state b1 = kConnOpen)) in Hr by (by destruct Hb1 as [->| ->]).
    unfold pret in Hr. injection Hr as <- <- <- <-. right. simpl.
    rewrite length_app. simpl. split_and!; [by destruct Hb1 as [->| ->]|lia|done].
Qed.

Lemma establish_one_no_abort stack n e pfds est w : (length pfds < n)%nat →
  establish_one stack n e pfds est w ≠ Abort.
Proof.
  unfold establish_one. intros Hlen Hr. prog_case Hr; [by inv_prog|].
  apply pbind_Abort in Hr as [Hr|([r1 b1] & w1 & Hc & Hr)]; [by apply connected_no_abort in Hr|].
  apply connected_Ret in Hc. prog_case Hr; [by inv_prog|].
  assert (∀ x : Z * Z, (length (pfds ++ [x]) <=? n)%nat = true) as Hle.
  { intros x. apply Nat.leb_le. rewrite length_app. simpl. lia. }
  prog_case Hr.
  { destruct (0 <? r1); simpl in Heqb1; [|done]. by rewrite Hle in Heqb1. }
  apply pbind_Abort in Hr as [Hr|([r2 b2] & w2 & Hs & Hr)].
  { prog_case Hr; [by apply intro_send_no_abort in Hr|by inv_prog]. }
  prog_case Hr; [by inv_prog|].
  apply pbind_Abort in Hr as [Hr|([r3 e3] & w3 & Hv & Hr)].
  { prog_case Hr; [|by inv_prog].
    apply pbind_Abort in Hr as [Hr|([[[r4 b4] pl] py] & w4 & Hv & Hr)]; [|by inv_prog].
    by apply intro_recv_no_abort in Hr. }
  prog_case Hr; [by inv_prog|]. prog_case Hr; [|by inv_prog].
  destruct Hc as [(-> & _)|[(-> & Hw & Hst)|(-> & _)]].
  - simpl in *. destruct (0 <? r3); simpl in *; [|done]. by rewrite Hle in *.
  - destruct (conn_state (est_if e)); try done; rewrite Hst in Hs; simpl in Hs;
      unfold pret in Hs; injection Hs as <- <- <-; rewrite Hst in Hv; simpl in Hv;
      unfold pret in Hv; injection Hv as <- <- <-; done.
  - bool_to_prop. lia.
Qed.

Lemma establish_pass_Ret stack n ifs pfds est w ifs' pfds' est' w' :
  establish_pass stack n ifs pfds est w = Ret ((true, ifs', pfds', est'), w') →
  (length pfds' + est' = length pfds + est + length ifs)%nat ∧
  length ifs' = length ifs ∧ (est' <= est + length ifs)%nat ∧
  (est' = est + length ifs → Forall is_open ifs')%nat.
Proof.
  revert pfds est w ifs' pfds' est' w'.
  induction ifs as [|e ifs IH]; intros pfds est w ifs' pfds' est' w' Hr; simpl in *.
  { unfold pret in Hr. injection Hr as <- <- <- <-. simpl. split_and!; [lia|done|lia|done]. }
  apply pbind_Ret in Hr as ([[[ok e1] pfds1] est1] & w1 & Ho & Hr).
  destruct ok; simpl in Hr; [|by inv_prog].
  apply pbind_Ret in Hr as ([[[ok ifs2] pfds2] est2] & w2 & Hp & Hr).
  unfold pret in Hr. injection Hr as -> <- -> -> ->.
  apply establish_one_Ret in Ho. apply IH in Hp as (Hsum & Hlen & Hle & Hall). simpl.
  destruct Ho as [(Hopen & -> & ->)|(Hopen & Hpf & ->)]; split_and!; try lia.
  - intros. constructor; [done|]. apply Hall. lia.
Qed.

Lemma establish_pass_no_abort stack n ifs pfds est w :
  (length pfds + length ifs <= n)%nat → establish_pass stack n ifs pfds est w ≠ Abort.
Proof.
  revert pfds est w. induction ifs as [|e ifs IH]; intros pfds est w Hlen Hr; simpl in *.
  { by inv_prog. }
  apply pbind_Abort in Hr as [Hr|([[[ok e1] pfds1] est1] & w1 & Ho & Hr)].
  { apply establish_one_no_abort in Hr; [done|lia]. }
  destruct ok; simpl in Hr; [|by inv_prog].
  apply establish_one_Ret in Ho.
  apply pbind_Abort in Hr as [Hr|([[[ok ifs2] pfds2] est2] & w2 & Hp & Hr)]; [|by inv_prog].
  apply IH in Hr; [done|]. destruct Ho as [(_ & -> & _)|(_ & -> & _)]; lia.
Qed.

Lemma establish_loop_spec stack rounds est ifs w :
  (length ifs <= est → Forall is_open ifs)%nat →
  establish_loop stack rounds est ifs w ≠ Abort ∧
  (∀ ifs' w', establish_loop stack rounds est ifs w = Ret ((0, ifs'), w') →
     length ifs' = length ifs ∧ Forall is_open ifs').
Proof.
  revert est ifs w. induction rounds as [|rounds IH]; intros est ifs w Hall; simpl.
  all: destruct (Nat.ltb_spec est (length ifs)); simpl.
  1, 2, 4: split; [done|]; intros ifs' w' Hr; inv_prog; auto.
  split.
  - intros Hr.
    apply pbind_Abort in Hr as [Hr|([[[ok ifs1] pfds1] est1] & w1 & Hp & Hr)].
    { apply establish_pass_no_abort in Hr; [done|simpl; lia]. }
    destruct ok; simpl in Hr; [|by inv_prog].
    apply establish_pass_Ret in Hp as (Hsum & Hlen & Hle & Ho). simpl in Hsum.
    destruct (Nat.eqb_spec (length pfds1) 0), (Nat.eqb_spec est1 (length ifs)); simpl in Hr;
      try lia.
    all: prog_case Hr.
    all: try (apply pbind_Abort in Hr as [Hr|([r2 rv] & w2 & _ & Hr)];
      [by unfold os_poll in Hr; inv_prog|]; prog_case Hr; [by inv_prog|]).
    all: eapply IH in Hr; [done|]; intros; apply Ho; lia.
  - intros ifs' w' Hr.
    apply pbind_Ret in Hr as ([[[ok ifs1] pfds1] est1] & w1 & Hp & Hr).
    destruct ok; simpl in Hr; [|by inv_prog].
    apply establish_pass_Ret in Hp as (Hsum & Hlen & Hle & Ho). simpl in Hsum.
    prog_case Hr; [by inv_prog|].
    prog_case Hr.
    + apply pbind_Ret in Hr as ([r2 rv] & w2 & _ & Hr). prog_case Hr; [by inv_prog|].
      apply IH in Hr as [-> ?]; [by split|]. intros. apply Ho. lia.
    + apply IH in Hr as [-> ?]; [by split|]. intros. apply Ho. lia.
Qed.

(** ** What the receiver of an intro learns *)

Lemma bytes_at_app_mid (xs ys zs : list Z) n off : n = length ys →
  off = Z.of_nat (length xs) → bytes_at n (xs ++ ys ++ zs) off = Some ys.
Proof.
  intros -> ->. unfold bytes_at. rewrite !length_app.
  destruct (Z.leb_spec 0 (Z.of_nat (length xs))), (Z.leb_spec
    (Z.of_nat (length xs) + Z.of_nat (length ys))
    (Z.of_nat (length xs + (length ys + length zs)))); try lia.
  simpl. by rewrite Nat2Z.id, drop_app_length, take_app_length.
Qed.

(** The part of a successful reception common to both roles. *)
Lemma intro_recv_success b plen stack w msg ctl w1 b' plen' p w' :
  k_recvmsg (conn_fd b) 2048 (negb (listener b)) w = (inr (msg, ctl), w1) →
  SimbricksBaseIfIntroRecv b plen stack w = Ret ((0, b', plen', p), w') →
  ∃ version uo sy0 syf sy pl b1,
    peer_intro (listener b) (msg ++ drop (length msg) stack)
      = Some (version, upper_layer_proto (params b), uo, sy0, syf) ∧
    negotiate_sync (sync_mode (params b)) sy0 syf = Some sy ∧
    plen' = u64 (Z.of_nat (length msg) - uo) ∧
    bytes_at (Z.to_nat plen') (msg ++ drop (length msg) stack) uo = Some pl ∧ p = Some pl ∧
    (if listener b then b1 = b <| sync := sy |>
     else ∃ w3 w4, intro_recv_shm (b <| sync := sy |>) (msg ++ drop (length msg) stack) ctl w3
            = Ret ((0, b1), w4)) ∧
    ∃ st, b' = b1 <| conn_state := st |>.
Proof.
  intros Hk. unfold SimbricksBaseIfIntroRecv, os_recvmsg. intros Hr.
  prog_case Hr; [by inv_prog|].
  apply pbind_Ret in Hr as (res & w2 & Hrecv & Hr).
  unfold sys in Hrecv. rewrite Hk in Hrecv. injection Hrecv as <- <-.
  apply pbind_Ret in Hr as ([[[[version up] uo] sy0] syf] & w3 & Hp & Hr).
  unfold plift in Hp. destruct (peer_intro _ _) as [pi|] eqn:Hpi; [|by inv_prog].
  unfold pret in Hp. injection Hp as -> <-.
  prog_case Hr; [by inv_prog|]. prog_case Hr; [by inv_prog|].
  prog_case Hr; [|by inv_prog]. prog_case Hr; [by inv_prog|].
  apply pbind_Ret in Hr as (pl & w4 & Hpl & Hr).
  unfold plift in Hpl. destruct (bytes_at _ _ _) as [pl1|] eqn:Hb; [|by inv_prog].
  unfold pret in Hpl. injection Hpl as -> <-.
  apply pbind_Ret in Hr as ([r1 b1] & w5 & Hshm & Hr). bool_to_prop. subst up.
  assert (r1 = 0) as ->.
  { clear Hshm. inv_prog; unfold nz in *; bool_to_prop; done. }
  exists version, uo, sy0, syf, b0, pl, b1. simpl in Hr.
  assert (plen' = u64 (Z.of_nat (length msg) - uo) ∧ p = Some pl ∧
    ∃ st, b' = b1 <| conn_state := st |>) as (-> & -> & Hst).
  { clear Hshm. inv_prog; split_and!; try done; by eexists. }
  split_and!; try done. change (listener (b <| sync := b0 |>)) with (listener b) in Hshm.
  destruct (listener b); cbn [negb] in Hshm.
  - unfold pret in Hshm. by injection Hshm.
  - by eauto.
Qed.

Lemma recv_shm_layout b l rest ctl w b' w' : listener_intro_ok l →
  intro_recv_shm b (enc_listener_intro l ++ rest) ctl w = Ret ((0, b'), w') →
  ∃ pool, shm b' = Some pool ∧ sync b' = sync b ∧
    in_queue b' = pool_base pool + l2c_offset l ∧
    in_elen b' = l2c_elen l ∧ in_enum b' = l2c_nentries l ∧
    out_queue b' = pool_base pool + c2l_offset l ∧
    out_elen b' = c2l_elen l ∧ out_enum b' = c2l_nentries l.
Proof.
  intros Hok. unfold intro_recv_shm. rewrite dec_enc_listener by done. simpl. intros Hr.
  apply pbind_Ret in Hr as (l' & w1 & Hl & Hr).
  unfold plift, pret in Hl. injection Hl as <- <-.
  prog_case Hr; [|by inv_prog].
  apply pbind_Ret in Hr as (ok & w2 & _ & Hr). prog_case Hr; [by inv_prog|].
  apply pbind_Ret in Hr as ([r pool] & w3 & _ & Hr).
  prog_case Hr.
  - apply pbind_Ret in Hr as (? & ? & _ & Hr). by inv_prog.
  - unfold pret in Hr. injection Hr as <- <-. exists pool. simpl. by split_and!.
Qed.

(** The payload that follows a peer's intro of [n] bytes. *)
Lemma recv_payload (n : nat) (e payload rest pl : list Z) :
  length e = n → Z.of_nat (length payload) < 2 ^ 63 →
  bytes_at (Z.to_nat (u64 (Z.of_nat (length (e ++ payload)) - Z.of_nat n)))
    (e ++ payload ++ rest) (Z.of_nat n) = Some pl →
  u64 (Z.of_nat (length (e ++ payload)) - Z.of_nat n) = Z.of_nat (length payload) ∧
  pl = payload.
Proof.
  intros He Hp. rewrite length_app, He.
  replace (Z.of_nat (n + length payload) - Z.of_nat n) with (Z.of_nat (length payload)) by lia.
  assert (u64 (Z.of_nat (length payload)) = Z.of_nat (length payload)) as ->.
  { apply wrap_small. unfold in_width. lia. }
  rewrite Nat2Z.id, bytes_at_app_mid by (done || by rewrite He). by intros [= ->].
Qed.

Lemma length_enc_connecter i : length (enc_connecter_intro i) = 32%nat.
Proof. apply length_enc64s. Qed.

(** The listener learns the peer's flags and the upper layer's bytes. *)
Lemma listener_recv b c plen stack w payload ctl w1 b' plen' p w' :
  listener b = true → base_if_ok c → Z.of_nat (length payload) < 2 ^ 63 →
  k_recvmsg (conn_fd b) 2048 false w =
    (inr (enc_connecter_intro (connecter_intro c) ++ payload, ctl), w1) →
  SimbricksBaseIfIntroRecv b plen stack w = Ret ((0, b', plen', p), w') →
  negotiate_sync (sync_mode (params b)) (offers (sync_mode (params c)))
    (forces (sync_mode (params c))) = Some (sync b') ∧
  p = Some payload ∧ plen' = Z.of_nat (length payload).
Proof.
  intros Hl Hok Hpl Hk Hr. eapply intro_recv_success in Hr; [|by rewrite Hl].
  destruct Hr as (v & uo & sy0 & syf & sy & pl & b1 & Hpi & Hn & Hlen & Hb & -> & Hb1 & st & ->).
  rewrite Hl in *. subst b1. unfold peer_intro in Hpi. rewrite <- app_assoc in Hpi, Hb.
  rewrite dec_enc_connecter in Hpi by (by apply connecter_intro_in_width).
  simpl in Hpi. destruct (intro_flags_decode (sync_mode (params c))) as [E1 E2].
  unfold SIMBRICKS_PROTO_FLAGS_CO_SYNC, SIMBRICKS_PROTO_FLAGS_CO_SYNC_FORCE in Hpi.
  rewrite E1, E2 in Hpi. clear Hk. simplify_eq.
  apply (recv_payload 32) in Hb as [Hu ->]; [|apply length_enc_connecter|done].
  by split_and!.
Qed.

(** The connecter learns flags, queues and the upper layer's bytes. *)
Lemma connecter_recv b l pool plen stack w payload ctl w1 b' plen' p w' :
  listener b = false → base_if_ok l → Z.of_nat (length payload) < 2 ^ 63 →
  k_recvmsg (conn_fd b) 2048 true w =
    (inr (enc_listener_intro (listener_intro l pool) ++ payload, ctl), w1) →
  SimbricksBaseIfIntroRecv b plen stack w = Ret ((0, b', plen', p), w') →
  negotiate_sync (sync_mode (params b)) (offers (sync_mode (params l)))
    (forces (sync_mode (params l))) = Some (sync b') ∧
  p = Some payload ∧ plen' = Z.of_nat (length payload) ∧
  ∃ pool', shm b' = Some pool' ∧
    in_queue b' = pool_base pool' + u64 (out_queue l - pool_base pool) ∧
    in_elen b' = out_elen l ∧ in_enum b' = out_enum l ∧
    out_queue b' = pool_base pool' + u64 (in_queue l - pool_base pool) ∧
    out_elen b' = in_elen l ∧ out_enum b' = in_enum l.
Proof.
  intros Hl Hok Hpl Hk Hr. eapply intro_recv_success in Hr; [|by rewrite Hl].
  destruct Hr as (v & uo & sy0 & syf & sy & pl & b1 & Hpi & Hn & Hlen & Hb & -> & Hb1 & st & ->).
  rewrite Hl in *. destruct Hb1 as (w3 & w4 & Hshm).
  unfold peer_intro in Hpi. rewrite <- app_assoc in Hpi, Hshm, Hb.
  pose proof (listener_intro_in_width l pool Hok) as Hli.
  apply recv_shm_layout in Hshm as (pool' & Hs & Hsy & Hlay); [|done].
  rewrite dec_enc_listener in Hpi by done.
  simpl in Hpi. destruct (intro_flags_decode (sync_mode (params l))) as [E1 E2].
  unfold SIMBRICKS_PROTO_FLAGS_LI_SYNC, SIMBRICKS_PROTO_FLAGS_LI_SYNC_FORCE in Hpi.
  rewrite E1, E2 in Hpi. simplify_eq.
  change (sync (b <| sync := sy |>)) with sy in Hsy. clear Hk.
  change (sync (b1 <| conn_state := st |>)) with (sync b1). rewrite Hsy.
  apply (recv_payload 80) in Hb as [Hu ->]; [|apply length_enc_listener|done].
  split_and!; try done. exists pool'. by split.
Qed.

(** ** Listening *)

Lemma accept_frame b w r b' w' : AcceptOnBaseIf b w = Ret ((r, b'), w') →
  in_queue b' = in_queue b ∧ in_elen b' = in_elen b ∧ in_enum b' = in_enum b ∧
  out_queue b' = out_queue b ∧ out_elen b' = out_elen b ∧ out_enum b' = out_enum b.
Proof.
  unfold AcceptOnBaseIf, os_accept4, os_close. intros Ha. inv_prog; simpl; auto 10.
Qed.

Lemma out_error_Ret b w r b' w' : out_error b w = Ret ((r, b'), w') → r = -1.
Proof. unfold out_error, os_close. intros Ha. by inv_prog. Qed.

(** ** The arrays of [SimbricksBaseIfConnsWait] *)

Lemma conns_prepare_ids bifs i n_wait a n' a' : conns_prepare bifs i n_wait a = Some (n', a') →
  (n_wait <= n')%nat ∧ ∀ j, (n' <= j)%nat → a'.1 !! j = a.1 !! j.
Proof.
  revert i n_wait a. induction bifs as [|b bifs IH]; intros i n_wait a Hp; simpl in Hp.
  { by simplify_eq. }
  destruct (conn_state b); try discriminate; apply IH in Hp as [Hle Hj]; simpl in *.
  1, 2: split; [lia|]; intros j Hlt; rewrite Hj by lia; apply list_lookup_insert_ne; lia.
  all: by auto.
Qed.

Lemma conns_check_uninit todo i a bifs n_wait w bifs' n' w' j :
  (i <= j < i + todo)%nat → mjoin (a.1 !! j) = None →
  conns_check todo i a bifs n_wait w ≠ Ret ((0, bifs', n'), w').
Proof.
  revert i bifs n_wait w. induction todo as [|todo IH]; intros i bifs n_wait w Hj Hn Hr;
    simpl in Hr; [lia|].
  apply pbind_Ret in Hr as (id & w1 & Hid & Hr).
  destruct (decide (j = i)) as [->|Hne].
  { rewrite Hn in Hid. simpl in Hid. by inv_prog. }
  apply pbind_Ret in Hr as (b & w2 & _ & Hr).
  apply pbind_Ret in Hr as ([[f ev] rv] & w3 & _ & Hr).
  prog_case Hr; [by inv_prog|].
  apply pbind_Ret in Hr as ([r b1] & w4 & _ & Hr).
  apply pbind_Ret in Hr as (bifs1 & w5 & _ & Hr).
  prog_case Hr; [by inv_prog|]. revert Hr. apply IH; [lia|done].
Qed.

(** ** Closing *)

Lemma close_alloc_Ret k attempts k0 b q_at (w : W) : (k < attempts)%nat →
  0 < out_enum b →
  (∀ j, (j < k)%nat → ∃ m, rd (q_at (k0 + j)%nat) (out_pos b) = Some m ∧
     (own_type m .& SIMBRICKS_PROTO_MSG_OWN_MASK) ≠ SIMBRICKS_PROTO_MSG_OWN_PRO) →
  (∃ m, rd (q_at (k0 + k)%nat) (out_pos b) = Some m ∧
     (own_type m .& SIMBRICKS_PROTO_MSG_OWN_MASK) = SIMBRICKS_PROTO_MSG_OWN_PRO) →
  ∃ b' q m, rd (q_at (k0 + k)%nat) (out_pos b) = Some m ∧
    wr (q_at (k0 + k)%nat) (out_pos b)
      (m <| timestamp := u64 (UINT64_MAX + link_latency (params b)) |>) = Some q ∧
    conn_fd b' = conn_fd b ∧
    close_alloc attempts k0 b q_at w = Ret ((b', q, out_pos b), w).
Proof.
  revert k attempts k0. induction k as [|k IH]; intros attempts k0 Hk He Hbusy (m & Hm & Ho).
  - destruct attempts as [|attempts]; [lia|]. rewrite Nat.add_0_r in *. simpl.
    unfold SimbricksBaseIfOutAlloc. rewrite Hm. simpl. rewrite Ho. simpl.
    destruct (wr (q_at k0) (out_pos b) _) as [q|] eqn:Hq.
    2: { rewrite wr_in_range in Hq; [done|]. by eapply rd_Some. }
    simpl. destruct (Z.eqb_spec (out_enum b) 0); [lia|]. simpl.
    eexists _, _, _. split_and!; [done|exact Hq| |reflexivity]. done.
  - destruct attempts as [|attempts]; [lia|].
    destruct (Hbusy 0%nat ltac:(lia)) as (m0 & Hm0 & Hno). rewrite Nat.add_0_r in Hm0.
    destruct (IH attempts (S k0)) as (b' & q & m1 & H1 & H2 & H3 & H4).
    + lia.
    + done.
    + intros j Hj. replace (S k0 + j)%nat with (k0 + S j)%nat by lia. apply Hbusy. lia.
    + exists m. by replace (S k0 + k)%nat with (k0 + S k)%nat by lia.
    + replace (S k0 + k)%nat with (k0 + S k)%nat in * by lia.
      exists b', q, m1. split_and!; [done..|]. simpl.
      unfold SimbricksBaseIfOutAlloc. rewrite Hm0. simpl.
      destruct (Z.eqb_spec (own_type m0 .& SIMBRICKS_PROTO_MSG_OWN_MASK)
        SIMBRICKS_PROTO_MSG_OWN_PRO); [done|]. done.
Qed.

(** ** Properties *)

(** C5. Handshake agreement: when a connecter and a listener each accept the
    intro the other one built, the connecter's incoming queue is the listener's
    outgoing queue and conversely (same offset in the pool, entry size and entry
    count), the upper layer of each side gets exactly the bytes, and the byte
    count, that the other side's upper layer sent, and both sides agree on whether the connection is synchronised. *)
Theorem handshake_agreement l c pool
    plen_c stack_c w_c payload_l ctl_c wr_c c' plen_c' p_c w_c'
    plen_l stack_l w_l payload_c ctl_l wr_l l' plen_l' p_l w_l' :
  listener l = true → listener c = false → base_if_ok l → base_if_ok c →
  Z.of_nat (length payload_l) < 2 ^ 63 → Z.of_nat (length payload_c) < 2 ^ 63 →
  k_recvmsg (conn_fd c) 2048 true w_c =
    (inr (enc_listener_intro (listener_intro l pool) ++ payload_l, ctl_c), wr_c) →
  SimbricksBaseIfIntroRecv c plen_c stack_c w_c = Ret ((0, c', plen_c', p_c), w_c') →
  k_recvmsg (conn_fd l) 2048 false w_l =
    (inr (enc_connecter_intro (connecter_intro c) ++ payload_c, ctl_l), wr_l) →
  SimbricksBaseIfIntroRecv l plen_l stack_l w_l = Ret ((0, l', plen_l', p_l), w_l') →
  sync c' = sync l' ∧
  p_c = Some payload_l ∧ plen_c' = Z.of_nat (length payload_l) ∧
  p_l = Some payload_c ∧ plen_l' = Z.of_nat (length payload_c) ∧
  ∃ pool', shm c' = Some pool' ∧
    in_queue c' = pool_base pool' + u64 (out_queue l - pool_base pool) ∧
    in_elen c' = out_elen l ∧ in_enum c' = out_enum l ∧
    out_queue c' = pool_base pool' + u64 (in_queue l - pool_base pool) ∧
    out_elen c' = in_elen l ∧ out_enum c' = in_enum l.
Proof.
  intros Hl Hc Hokl Hokc Hpl Hpc Hkc Hrc Hkl Hrl.
  apply (connecter_recv c l pool _ _ _ _ _ _ _ _ _ _ Hc Hokl Hpl Hkc) in Hrc
    as (Hn & Hp & Hplen & Hlay).
  apply (listener_recv l c _ _ _ _ _ _ _ _ _ _ Hl Hokc Hpc Hkl) in Hrl
    as (Hrl & Hp' & Hplen').
  split_and!; [|done..].
  assert (∀ m1 m2, negotiate_sync m1 (offers m2) (forces m2)
    = negotiate_sync m2 (offers m1) (forces m1)) as Hag by (by intros [] []).
  rewrite Hag in Hrl. congruence.
Qed.

(** C6. Establishment: whatever the operating system answers, establishing a set
    of interfaces never reaches one of its assertions or the [abort()] it marks
    as a bug, and it reports success only when every interface is open. *)
Theorem establish_correct stack rounds ifs w :
  SimBricksBaseIfEstablish stack rounds ifs w ≠ Abort ∧
  (∀ ifs' w', SimBricksBaseIfEstablish stack rounds ifs w = Ret ((0, ifs'), w') →
     length ifs' = length ifs ∧ Forall is_open ifs').
Proof.
  apply establish_loop_spec. intros Hlen. destruct ifs; [constructor|simpl in Hlen; lia].
Qed.

(** Close the branches that leave through the [out_error] label. *)
Local Ltac oerr Hr := apply pbind_Ret in Hr as ([? ?] & ? & Herr & Hr);
  apply out_error_Ret in Herr as ->; by inv_prog.

(** Queue placement: a listener that starts successfully puts its two queues
    next to each other at the pool's first free byte, inside the pool, and
    reserves exactly their space, provided the sizes do not overflow. *)
Theorem listen_queues_in_pool b pool w b' pool' w' :
  0 <= in_num_entries (params b) * in_entries_size (params b) →
  0 <= out_num_entries (params b) * out_entries_size (params b) →
  0 <= pool_pos pool →
  pool_pos pool + in_num_entries (params b) * in_entries_size (params b)
    + out_num_entries (params b) * out_entries_size (params b) < 2 ^ 64 →
  SimbricksBaseIfListen b pool w = Ret ((0, b', pool'), w') →
  in_queue b' = pool_base pool + pool_pos pool ∧
  out_queue b' = in_queue b' + in_num_entries (params b) * in_entries_size (params b) ∧
  pool_pos pool' = out_queue b' - pool_base pool
    + out_num_entries (params b) * out_entries_size (params b) ∧
  pool_pos pool' <= pool_size pool ∧
  pool_base pool' = pool_base pool ∧ pool_size pool' = pool_size pool.
Proof.
  set (in_len := in_num_entries (params b) * in_entries_size (params b)).
  set (out_len := out_num_entries (params b) * out_entries_size (params b)).
  intros Hin Hout Hpos Hsum. unfold SimbricksBaseIfListen. fold in_len out_len.
  rewrite (wrap_small 64 in_len), (wrap_small 64 out_len),
    (wrap_small 64 (pool_pos pool + in_len + out_len)) by (unfold in_width; lia).
  intros Hr.
  prog_case Hr; [by inv_prog|].
  apply pbind_Ret in Hr as (lfd & w1 & _ & Hr). prog_case Hr; [by inv_prog|].
  apply pbind_Ret in Hr as (ok & w2 & _ & Hr).
  prog_case Hr; [oerr Hr|].
  apply pbind_Ret in Hr as (r1 & w3 & _ & Hr). prog_case Hr; [oerr Hr|].
  apply pbind_Ret in Hr as (r2 & w4 & _ & Hr). prog_case Hr; [oerr Hr|].
  apply pbind_Ret in Hr as ([r3 b3] & w5 & Ha & Hr).
  apply accept_frame in Ha as (Hiq & _ & _ & Hoq & _). simpl in Hiq, Hoq.
  unfold pret in Hr. injection Hr as _ <- <- <-. simpl.
  rewrite Hiq, Hoq, (wrap_small 64 (pool_pos pool + in_len)) by (unfold in_width; lia).
  rewrite (wrap_small 64 (pool_pos pool + in_len + out_len)) by (unfold in_width; lia).
  bool_to_prop. split_and!; lia || done.
Qed.

(** [SimbricksBaseIfSHMPoolMap] does not map the file it opens: because the
    comparison is assigned instead of the descriptor, every successful call maps
    descriptor 0. *)
Theorem pool_map_maps_descriptor_0 pool path w f w1 pool' w' :
  k_open path w = (f, w1) → f ≠ -1 →
  SimbricksBaseIfSHMPoolMap pool path w = Ret ((0, pool'), w') →
  pool_fd pool' = 0.
Proof.
  intros Ho Hf. unfold SimbricksBaseIfSHMPoolMap, os_open. intros Hr.
  apply pbind_Ret in Hr as (r & w2 & Hk & Hr). unfold sys in Hk. rewrite Ho in Hk.
  injection Hk as <- <-. destruct (Z.eqb_spec f (-1)); [done|]. simpl in Hr.
  apply pbind_Ret in Hr as ([r2 pool2] & w3 & Hm & Hr).
  apply map_fd_Ret in Hm as [(-> & Hfd & _)| ->]; simpl in Hr.
  - unfold pret in Hr. by injection Hr as <- _.
  - apply pbind_Ret in Hr as (? & ? & _ & Hr). by inv_prog.
Qed.

(** [SimbricksBaseIfConnsWait] walks all [n] entries of arrays of which it
    filled only those of interfaces still waiting: with some but not all
    interfaces waiting it never returns success. *)
Theorem conns_wait_mixed_never_succeeds rounds bifs w n_wait a bifs' w' :
  conns_prepare bifs 0 0 (replicate (length bifs) None, replicate (length bifs) None)
    = Some (n_wait, a) →
  (0 < n_wait < length bifs)%nat →
  SimbricksBaseIfConnsWait rounds bifs w ≠ Ret ((0, bifs'), w').
Proof.
  intros Hp Hn. unfold SimbricksBaseIfConnsWait.
  destruct rounds as [|rounds]; intros Hr; simpl in Hr; [by inv_prog|].
  rewrite Hp in Hr. destruct (Nat.eqb_spec n_wait 0); [lia|].
  apply pbind_Ret in Hr as ([ret revents] & w1 & _ & Hr). prog_case Hr; [by inv_prog|].
  apply pbind_Ret in Hr as ([[r bifs1] n1] & w2 & Hc & Hr).
  prog_case Hr.
  { unfold nz in *. bool_to_prop. clear Hc. by inv_prog. }
  assert (r = 0) as -> by (unfold nz in *; bool_to_prop; done).
  revert Hc. apply (conns_check_uninit _ _ _ _ _ _ _ _ _ n_wait); [lia|].
  apply conns_prepare_ids in Hp as [_ Hj]. simpl in *. rewrite Hj by lia.
  destruct (replicate _ _ !! n_wait) as [o|] eqn:Ho; [|done].
  by apply lookup_replicate in Ho as [-> _].
Qed.

(** Closing an open connection terminates as soon as the peer has released
    the next entry, and leaves in that entry a termination message owned by the
    consumer. *)
Theorem close_sends_terminate k attempts b q_at w :
  conn_state b = kConnOpen → 0 < out_enum b → (k < attempts)%nat →
  (∀ j, (j < k)%nat → ∃ m, rd (q_at j) (out_pos b) = Some m ∧
     (own_type m .& SIMBRICKS_PROTO_MSG_OWN_MASK) ≠ SIMBRICKS_PROTO_MSG_OWN_PRO) →
  (∃ m, rd (q_at k) (out_pos b) = Some m ∧
     (own_type m .& SIMBRICKS_PROTO_MSG_OWN_MASK) = SIMBRICKS_PROTO_MSG_OWN_PRO) →
  ∃ b' q m w', SimbricksBaseIfClose attempts b q_at w = Ret ((b', Some q), w') ∧
    conn_state b' = kConnClosed ∧ conn_fd b' = -1 ∧
    rd q (out_pos b) = Some m ∧
    (own_type m .& SIMBRICKS_PROTO_MSG_OWN_MASK) = SIMBRICKS_PROTO_MSG_OWN_CON ∧
    SimbricksBaseIfInType m = SIMBRICKS_PROTO_MSG_TYPE_TERMINATE.
Proof.
  intros Hst He Hk Hbusy Hfree.
  destruct (close_alloc_Ret k attempts 0 b q_at w Hk He Hbusy Hfree)
    as (b' & q & m & Hm & Hq & Hfd & Hc).
  unfold SimbricksBaseIfClose. rewrite Hst. unfold pbind at 1. unfold pbind at 1. rewrite Hc.
  unfold SimbricksBaseIfOutSend. rewrite (rd_wr_eq _ _ _ _ Hq). simpl.
  destruct (wr q (out_pos b) _) as [q'|] eqn:Hq'.
  2: { rewrite wr_in_range in Hq'; [done|].
       rewrite (wr_length _ _ _ _ Hq). by eapply rd_Some. }
  unfold plift, pbind, pret, os_close, sys. destruct (k_close _ _) as [r w'].
  eexists _, _, _, _. split_and!; [done|done|done| | |].
  - by eapply rd_wr_eq.
  - done.
  - done.
Qed.

End with_os.

(** ** A concrete operating system

    The world is the message the next [recvmsg] delivers, with its descriptor;
    every call succeeds. *)
Definition demo_world : Type := list Z * option Z.

#[export] Instance demo_os : Os demo_world := {|
  k_open _ w := (5, w);
  k_create _ w := (5, w);
  k_ftruncate _ _ w := (0, w);
  k_mmap _ _ w := (4096, w);
  k_munmap _ _ w := (0, w);
  k_memset0 _ _ w := (tt, w);
  k_fstat _ w := ((0, 512), w);
  k_close _ w := (0, w);
  k_unlink _ w := (0, w);
  k_socket w := (6, w);
  k_getfl _ w := (2, w);
  k_setfl _ _ w := (0, w);
  k_bind _ _ w := (0, w);
  k_listen _ _ w := (0, w);
  k_accept4 _ _ w := ((7, 0), w);
  k_connect _ _ w := ((0, 0), w);
  k_poll fds _ w := ((Z.of_nat (length fds), map snd fds), w);
  k_getsockopt _ w := ((0, 0), w);
  k_sendmsg _ m _ w := (Z.of_nat (length m), w);
  k_recvmsg _ _ _ w := (inr w, w);
  k_calloc w := (true, w)
|}.

Definition demo_params : SimbricksBaseIfParams :=
  mkParams 500 1000 None kSimbricksBaseIfSyncOptional false 2 64 2 128 1.
Definition demo_pool : SimbricksBaseIfSHMPool := mkPool None 5 8192 512 0.
Definition demo_listener : SimbricksBaseIf :=
  mkBaseIf 8192 0 64 2 0 8320 0 128 2 0 false kConnAwaitHandshakeRx false demo_params
    (Some demo_pool) (-1) 7 true.
Definition demo_connecter : SimbricksBaseIf :=
  mkBaseIf 0 0 0 0 0 0 0 0 0 0 false kConnAwaitHandshakeRx false
    (demo_params <| sync_mode := kSimbricksBaseIfSyncRequired |>) None (-1) 8 false.
Definition demo_stack : list Z := replicate 2048 0.

Definition demo_recv (b : SimbricksBaseIf) (msg : list Z)
    : outcome (Z * SimbricksBaseIf * Z * option (list Z) * demo_world) :=
  SimbricksBaseIfIntroRecv b 4 demo_stack (msg, Some 9).
Definition demo_handle (b : SimbricksBaseIf) (msg : list Z) : SimbricksBaseIf :=
  match demo_recv b msg with Ret ((_, b', _, _), _) => b' | _ => b end.

Definition demo_lmsg : list Z :=
  enc_listener_intro (listener_intro demo_listener demo_pool) ++ [1; 2; 3; 4].
Definition demo_cmsg : list Z :=
  enc_connecter_intro (connecter_intro demo_connecter) ++ [5; 6].

Example demo_handshake_result :
  let c := demo_handle demo_connecter demo_lmsg in
  (in_queue c, in_elen c, in_enum c, out_queue c, out_elen c, out_enum c, sync c,
   conn_state c) = (4096 + 128, 128, 2, 4096, 64, 2, true, kConnOpen).
Proof. by vm_compute. Qed.

Lemma handshake_agreement_witness :
  sync (demo_handle demo_connecter demo_lmsg) = sync (demo_handle demo_listener demo_cmsg) ∧
  in_enum (demo_handle demo_connecter demo_lmsg) = out_enum demo_listener.
Proof.
  destruct (handshake_agreement demo_listener demo_connecter demo_pool
    4 demo_stack (demo_lmsg, Some 9) [1; 2; 3; 4] (Some 9) (demo_lmsg, Some 9)
    (demo_handle demo_connecter demo_lmsg) 4 (Some [1; 2; 3; 4]) (demo_lmsg, Some 9)
    4 demo_stack (demo_cmsg, Some 9) [5; 6] (Some 9) (demo_cmsg, Some 9)
    (demo_handle demo_listener demo_cmsg) 2 (Some [5; 6]) (demo_cmsg, Some 9))
    as (Hs & _ & _ & _ & _ & pool' & _ & _ & _ & Hn & _).
  1-2: reflexivity.
  1-2: unfold base_if_ok; simpl; solve_widths.
  1-2: done.
  1: reflexivity.
  1: vm_compute; reflexivity.
  1: reflexivity.
  1: vm_compute; reflexivity.
  split; [exact Hs|exact Hn].
Defined.

Definition demo_idle : SimbricksBaseIf :=
  demo_listener <| conn_state := kConnClosed |>.

Lemma listen_queues_in_pool_witness :
  ∃ b' pool', SimbricksBaseIfListen demo_idle demo_pool ([], None)
    = Ret ((0, b', pool'), ([], None)) ∧
  pool_pos pool' <= pool_size demo_pool ∧ out_queue b' = in_queue b' + 128.
Proof.
  eexists _, _. split; [vm_compute; reflexivity|].
  destruct (listen_queues_in_pool demo_idle demo_pool ([], None)
    (demo_idle <| shm := Some demo_pool |> <| listen_fd := -1 |> <| conn_fd := 7 |>
       <| in_queue := 8192 |> <| out_queue := 8320 |>
       <| conn_state := kConnAwaitHandshakeRxTx |>)
    (demo_pool <| pool_pos := 384 |>) ([], None)) as (_ & Ho & _ & Hle & _);
    [vm_compute; done..|vm_compute; reflexivity|].
  split; vm_compute; done.
Defined.

Lemma pool_map_maps_descriptor_0_witness :
  pool_fd (demo_pool <| pool_fd := 0 |> <| pool_base := 4096 |>) = 0 ∧ 5 ≠ -1.
Proof.
  split; [|done].
  apply (pool_map_maps_descriptor_0 demo_pool None ([], None) 5 ([], None) _ ([], None));
    [reflexivity|done|vm_compute; reflexivity].
Defined.

Definition demo_mixed : list SimbricksBaseIf :=
  [demo_listener <| conn_state := kConnListening |>;
   demo_listener <| conn_state := kConnOpen |>].

Lemma conns_wait_mixed_never_succeeds_witness :
  SimbricksBaseIfConnsWait 3 demo_mixed ([], None) ≠ Ret ((0, demo_mixed), ([], None)).
Proof.
  eapply (conns_wait_mixed_never_succeeds 3 demo_mixed ([], None) 1);
    [vm_compute; reflexivity|simpl; lia].
Defined.

Definition demo_open : SimbricksBaseIf := demo_listener <| conn_state := kConnOpen |>.
Definition demo_full_then_free (k : nat) : list SimbricksProtoBaseMsg :=
  [mkMsg [] 0 (if (k <? 1)%nat then 0xc0 else 0x40); mkMsg [] 0 0].

Lemma close_sends_terminate_witness :
  ∃ b' q m w', SimbricksBaseIfClose 5 demo_open demo_full_then_free ([], None)
      = Ret ((b', Some q), w') ∧
    conn_state b' = kConnClosed ∧ conn_fd b' = -1 ∧
    rd q (out_pos demo_open) = Some m ∧
    (own_type m .& SIMBRICKS_PROTO_MSG_OWN_MASK) = SIMBRICKS_PROTO_MSG_OWN_CON ∧
    SimbricksBaseIfInType m = SIMBRICKS_PROTO_MSG_TYPE_TERMINATE.
Proof.
  apply (close_sends_terminate 1 5 demo_open demo_full_then_free ([], None));
    [done|vm_compute; done|lia| |].
  - intros j Hj. assert (j = 0%nat) as -> by lia. eexists. by vm_compute.
  - eexists. by vm_compute.
Defined.
