(* ===== verification/IceStatus.v ===== *)
(** * Status codes of the ice driver

    [enum ice_status] of ice_status.h, shared by the parser and the control
    queues.  The numeric values are not used by the modelled code. *)
From S2P Require Import Prelude.

Inductive ice_status :=
| ICE_SUCCESS
| ICE_ERR_PARAM
| ICE_ERR_NOT_IMPL
| ICE_ERR_NOT_READY
| ICE_ERR_NOT_SUPPORTED
| ICE_ERR_BAD_PTR
| ICE_ERR_INVAL_SIZE
| ICE_ERR_DEVICE_NOT_SUPPORTED
| ICE_ERR_RESET_FAILED
| ICE_ERR_FW_API_VER
| ICE_ERR_NO_MEMORY
| ICE_ERR_CFG
| ICE_ERR_OUT_OF_RANGE
| ICE_ERR_ALREADY_EXISTS
| ICE_ERR_NVM
| ICE_ERR_NVM_CHECKSUM
| ICE_ERR_BUF_TOO_SHORT
| ICE_ERR_NVM_BLANK_MODE
| ICE_ERR_IN_USE
| ICE_ERR_MAX_LIMIT
| ICE_ERR_RESET_ONGOING
| ICE_ERR_HW_TABLE
| ICE_ERR_FW_DDP_MISMATCH
| ICE_ERR_DOES_NOT_EXIST
| ICE_ERR_AQ_ERROR
| ICE_ERR_AQ_TIMEOUT
| ICE_ERR_AQ_FULL
| ICE_ERR_AQ_NO_WORK
| ICE_ERR_AQ_EMPTY
| ICE_ERR_AQ_FW_CRITICAL.

#[export] Instance ice_status_eq_dec : EqDecision ice_status.
Proof. solve_decision. Defined.
