(* ===== verification/IceBitops.v ===== *)
(** * Bitmaps of the E810 base code

    ice_bitops.h: arrays of 32-bit chunks used as sets of small numbers.  Where a
    destination may be one of the sources, every chunk is read before it is written and
    no other chunk depends on it, so that the old contents are what the operations see.
    [None] is an access outside of an array or a loop that does not end. *)
From S2P Require Import Prelude.
Local Open Scope Z_scope.

Definition BITS_PER_CHUNK : Z := 32.
Definition BIT_CHUNK (nr : Z) : Z := nr / BITS_PER_CHUNK.
Definition BITS_TO_CHUNKS (sz : Z) : Z := u64 (sz + BITS_PER_CHUNK - 1) / BITS_PER_CHUNK.
Definition BIT_IN_CHUNK (nr : Z) : Z := nr mod BITS_PER_CHUNK.
Definition LAST_CHUNK_BITS (nr : Z) : Z := u64 (nr - 1) mod BITS_PER_CHUNK + 1.
Definition LAST_CHUNK_MASK (nr : Z) : Z := u32 (-1) .>> (BITS_PER_CHUNK - LAST_CHUNK_BITS nr).

(** [BIT(nr)] of ice_defs.h, an [unsigned long]. *)
Definition BITUL (nr : Z) : Z := u64 (1 .<< nr).

(** ** Counting *)

(** [ice_hweight8] and [ice_hweight32] of ice_osdep.h: the set bits among the lowest [n]. *)
Fixpoint hweight (n : nat) (num : Z) : Z :=
  match n with O => 0 | S n' => u8 ((num .& 1) + hweight n' (num .>> 1)) end.
Definition ice_hweight8 : Z → Z := hweight 8.
Definition ice_hweight32 : Z → Z := hweight 32.

(** ** One chunk *)

Definition ice_is_bit_set_internal (nr chunk : Z) : bool := nz (chunk .& BITUL nr).
Definition ice_clear_bit_internal (nr chunk : Z) : Z := u32 (chunk .& Z.lnot (BITUL nr)).
Definition ice_set_bit_internal (nr chunk : Z) : Z := u32 (chunk .| BITUL nr).

Definition ice_test_and_clear_bit_internal (nr chunk : Z) : bool * Z :=
  if ice_is_bit_set_internal nr chunk then (true, ice_clear_bit_internal nr chunk) else (false, chunk).

Definition ice_test_and_set_bit_internal (nr chunk : Z) : bool * Z :=
  if ice_is_bit_set_internal nr chunk then (true, chunk) else (false, ice_set_bit_internal nr chunk).

(** ** One bit *)

Definition ice_is_bit_set (bitmap : list Z) (nr : Z) : option bool :=
  c ← rd bitmap (BIT_CHUNK nr);
  Some (ice_is_bit_set_internal (BIT_IN_CHUNK nr) c).

Definition ice_clear_bit (nr : Z) (bitmap : list Z) : option (list Z) :=
  c ← rd bitmap (BIT_CHUNK nr);
  wr bitmap (BIT_CHUNK nr) (ice_clear_bit_internal (BIT_IN_CHUNK nr) c).

Definition ice_set_bit (nr : Z) (bitmap : list Z) : option (list Z) :=
  c ← rd bitmap (BIT_CHUNK nr);
  wr bitmap (BIT_CHUNK nr) (ice_set_bit_internal (BIT_IN_CHUNK nr) c).

Definition ice_test_and_clear_bit (nr : Z) (bitmap : list Z) : option (bool * list Z) :=
  c ← rd bitmap (BIT_CHUNK nr);
  let r := ice_test_and_clear_bit_internal (BIT_IN_CHUNK nr) c in
  bm ← wr bitmap (BIT_CHUNK nr) r.2;
  Some (r.1, bm).

Definition ice_test_and_set_bit (nr : Z) (bitmap : list Z) : option (bool * list Z) :=
  c ← rd bitmap (BIT_CHUNK nr);
  let r := ice_test_and_set_bit_internal (BIT_IN_CHUNK nr) c in
  bm ← wr bitmap (BIT_CHUNK nr) r.2;
  Some (r.1, bm).

(** ** Whole bitmaps *)

Definition ice_zero_bitmap (bmp : list Z) (size : Z) : option (list Z) :=
  for_range 0 (BITS_TO_CHUNKS size) (fun i b => wr b i 0) bmp.

Definition ice_cp_bitmap (dst src : list Z) (size : Z) : option (list Z) :=
  for_range 0 (BITS_TO_CHUNKS size) (fun i b => x ← rd src i; wr b i x) dst.

(** The loop over all but the last chunk and the last chunk, with the union of the chunks
    written. *)
Definition op_chunk (f : Z → Z → Z) (bmp1 bmp2 : list Z) (i : Z) (s : list Z * Z) : option (list Z * Z) :=
  x ← rd bmp1 i;
  y ← rd bmp2 i;
  dst ← wr s.1 i (f x y);
  Some (dst, s.2 .| f x y).

Definition op_last (f : Z → Z → Z) (bmp1 bmp2 : list Z) (size : Z) (s : list Z * Z) : option (list Z * Z) :=
  let i := u64 (BITS_TO_CHUNKS size - 1) in
  let mask := LAST_CHUNK_MASK size in
  d ← rd s.1 i;
  x ← rd bmp1 i;
  y ← rd bmp2 i;
  let c := u32 (d .& Z.lnot mask) .| (f x y .& mask) in
  dst ← wr s.1 i c;
  Some (dst, s.2 .| (c .& mask)).

Definition bitmap_op (f : Z → Z → Z) (dst bmp1 bmp2 : list Z) (size : Z) : option (list Z * Z) :=
  s ← for_range 0 (u64 (BITS_TO_CHUNKS size - 1)) (op_chunk f bmp1 bmp2) (dst, 0);
  op_last f bmp1 bmp2 size s.

(** Only the intersection returns whether it is empty. *)
Definition ice_and_bitmap (dst bmp1 bmp2 : list Z) (size : Z) : option (bool * list Z) :=
  r ← bitmap_op Z.land dst bmp1 bmp2 size; Some (nz r.2, r.1).
Definition ice_or_bitmap (dst bmp1 bmp2 : list Z) (size : Z) : option (list Z) :=
  r ← bitmap_op Z.lor dst bmp1 bmp2 size; Some r.1.
Definition ice_xor_bitmap (dst bmp1 bmp2 : list Z) (size : Z) : option (list Z) :=
  r ← bitmap_op Z.lxor dst bmp1 bmp2 size; Some r.1.
Definition ice_andnot_bitmap (dst bmp1 bmp2 : list Z) (size : Z) : option (list Z) :=
  r ← bitmap_op (fun x y => x .& u32 (Z.lnot y)) dst bmp1 bmp2 size; Some r.1.

Definition ice_cmp_bitmap (bmp1 bmp2 : list Z) (size : Z) : option bool :=
  let n := u64 (BITS_TO_CHUNKS size - 1) in
  eq ← for_break 0 n (fun i _ =>
    x ← rd bmp1 i;
    y ← rd bmp2 i;
    Some (if negb (x =? y) then Break false else Next true)) true;
  if negb eq then Some false
  else
    let mask := LAST_CHUNK_MASK size in
    x ← rd bmp1 n;
    y ← rd bmp2 n;
    Some ((x .& mask) =? (y .& mask)).

(** ** Search *)

(** The bits of one chunk from [j] on: [ice_min(size, off + j)] for the first that is set. *)
Definition scan_chunk (bitmap : list Z) (size off j : Z) : option (option Z) :=
  for_break j BITS_PER_CHUNK (fun j _ =>
    b ← ice_is_bit_set bitmap (u16 (off + j));
    Some (if (b : bool) then Break (Some (Z.min size (u16 (off + j)))) else Next None)) None.

Definition ice_find_next_bit (bitmap : list Z) (size offset : Z) : option Z :=
  if size <=? offset then Some size
  else
    let i := u16 (BIT_CHUNK offset) in
    c ← rd bitmap i;
    first ← (if nz c then scan_chunk bitmap size (u16 (i * BITS_PER_CHUNK)) (offset mod BITS_PER_CHUNK) else Some None);
    match first with
    | Some r => Some r
    | None =>
        rest ← for_break (i + 1) (BITS_TO_CHUNKS size) (fun i _ =>
          c ← rd bitmap i;
          r ← (if nz c then scan_chunk bitmap size (u16 (i * BITS_PER_CHUNK)) 0 else Some None);
          Some (match r with Some _ => Break r | None => Next None end)) None;
        Some (default size rest)
    end.

Definition ice_find_first_bit (bitmap : list Z) (size : Z) : option Z := ice_find_next_bit bitmap size 0.

Definition ice_is_any_bit_set (bitmap : list Z) (size : Z) : option bool :=
  r ← ice_find_first_bit bitmap size; Some (r <? size).

(** The positions that the body of [ice_for_each_set_bit] is run for.  The loop ends within
    [maxlen + 1] iterations. *)
Definition ice_for_each_set_bit (addr : list Z) (maxlen : Z) : option (list Z) :=
  first ← ice_find_first_bit addr maxlen;
  r ← iterate (fun '(ps, bitpos) =>
    if bitpos <? maxlen then
      next ← ice_find_next_bit addr maxlen (u16 (bitpos + 1));
      Some (inl (ps ++ [bitpos], next))
    else Some (inr ps)) (Z.to_pos (maxlen + 1)) ([], first);
  match r with inl _ => None | inr ps => Some ps end.

Definition ice_bitmap_hweight (bm : list Z) (size : Z) : option Z :=
  r ← iterate (fun '(count, bit) =>
    bit ← ice_find_next_bit bm size bit;
    Some (if bit <? size then inl (count + 1, u16 (bit + 1)) else inr count)) (Z.to_pos (size + 1)) (0, 0);
  match r with inl _ => None | inr count => Some count end.

(** ** Construction *)

(** The counter has 16 bits and the bound more. *)
Definition ice_bitmap_set (dst : list Z) (pos num_bits : Z) : option (list Z) :=
  if 65535 <? pos + num_bits then None
  else for_range pos (pos + num_bits) (fun i b => ice_set_bit i b) dst.

Definition BITS_PER_U32 : Z := 32.

(** The [n] low bits of [entry], for a word and for the rest of the last word. *)
Definition copy_bits (n bit_offset entry : Z) (dst : list Z) : option (list Z) :=
  for_range 0 n (fun j b => if nz (entry .& BITUL j) then ice_set_bit (u16 (j + bit_offset)) b else Some b) dst.

Definition ice_bitmap_from_array32 (dst src : list Z) (size : Z) : option (list Z) :=
  dst ← ice_zero_bitmap dst size;
  let n := size / BITS_PER_U32 in
  dst ← for_range 0 n (fun i b => entry ← rd src i; copy_bits BITS_PER_U32 (i * BITS_PER_U32) entry b) dst;
  let remaining_bits := size mod BITS_PER_U32 in
  if nz remaining_bits then
    entry ← rd src n;
    copy_bits remaining_bits (n * BITS_PER_U32) entry dst
  else Some dst.
