(* ===== verification/IceBitopsSpec.v ===== *)
(** * Bitmaps as sets

    [bit bm i]: number [i] is in the bitmap.  The operations of [IceBitops] in terms of it. *)
From S2P Require Import Prelude Bytes IceBitops.
Local Open Scope Z_scope.

Definition bit (bm : list Z) (i : Z) : bool := match rd bm (i / 32) with Some c => Z.testbit c (i mod 32) | None => false end.

(** A bitmap for [size] numbers. *)
Definition holds (bm : list Z) (size : Z) : Prop := size <= 32 * Z.of_nat (length bm).
Definition chunks_ok (bm : list Z) : Prop := Forall (in_width 32) bm.

Lemma holds_chunk bm size i : holds bm size → 0 <= i < size → is_Some (rd bm (i / 32)).
Proof. unfold holds. intros Hh Hi. apply rd_in_range. split; [apply Z.div_pos; lia|]. apply Z.div_lt_upper_bound; lia. Qed.

Lemma bitul nr : 0 <= nr < 64 → BITUL nr = 2 ^ nr.
Proof. intros H. unfold BITUL. rewrite Z.shiftl_1_l. apply wrap_small. split; [lia|]. apply Z.pow_lt_mono_r; lia. Qed.

Lemma is_bit_set_spec bm i size : holds bm size → 0 <= i < size → ice_is_bit_set bm i = Some (bit bm i).
Proof.
  intros Hh Hi. unfold ice_is_bit_set, bit, BIT_CHUNK, BIT_IN_CHUNK, BITS_PER_CHUNK. destruct (holds_chunk bm size i Hh Hi) as [c ->]. cbn [mbind option_bind].
  unfold ice_is_bit_set_internal. pose proof (Z.mod_pos_bound i 32 ltac:(lia)). by rewrite bitul, nz_bit by lia.
Qed.

(** ** Changes of one bit *)

Lemma set_internal_bit nr c j : 0 <= nr < 32 → in_width 32 c → 0 <= j < 32 → Z.testbit (ice_set_bit_internal nr c) j = (j =? nr) || Z.testbit c j.
Proof.
  intros Hn Hc Hj. unfold ice_set_bit_internal. rewrite bitul by lia. rewrite testbit_wrap, Z.lor_spec, Z.pow2_bits_eqb by lia.
  rewrite (proj2 (Z.ltb_lt j 32)), (Z.eqb_sym nr) by lia. cbn. apply orb_comm.
Qed.

Lemma clear_internal_bit nr c j : 0 <= nr < 32 → in_width 32 c → 0 <= j < 32 → Z.testbit (ice_clear_bit_internal nr c) j = negb (j =? nr) && Z.testbit c j.
Proof.
  intros Hn Hc Hj. unfold ice_clear_bit_internal. rewrite bitul by lia. rewrite testbit_wrap, Z.land_spec, Z.lnot_spec, Z.pow2_bits_eqb by lia.
  rewrite (proj2 (Z.ltb_lt j 32)), (Z.eqb_sym nr) by lia. cbn. apply andb_comm.
Qed.

(** Writing a chunk whose bit [nr] is [v] and whose other bits are those of before. *)
Lemma bit_wr bm size nr c c' v : holds bm size → 0 <= nr < size → rd bm (nr / 32) = Some c →
  (∀ j, 0 <= j < 32 → Z.testbit c' j = if j =? nr mod 32 then v else Z.testbit c j) →
  ∃ bm', wr bm (nr / 32) c' = Some bm' ∧ length bm' = length bm ∧ ∀ i, 0 <= i → bit bm' i = if i =? nr then v else bit bm i.
Proof.
  intros Hh Hn Hc Hb. pose proof (rd_Some _ _ _ Hc) as Hr. exists (<[Z.to_nat (nr / 32) := c']> bm). pose proof (wr_in_range bm (nr / 32) c' Hr) as Hw.
  split; [done|]. split; [apply length_insert|]. intros i Hi. unfold bit. pose proof (Z.mod_pos_bound i 32 ltac:(lia)) as Hm.
  destruct (decide (i / 32 = nr / 32)) as [E|N].
  - rewrite E, (rd_wr_eq _ _ _ _ Hw), Hc, Hb by lia. destruct (Z.eqb_spec (i mod 32) (nr mod 32)), (Z.eqb_spec i nr); try done; exfalso.
    + pose proof (Z.div_mod i 32 ltac:(lia)). pose proof (Z.div_mod nr 32 ltac:(lia)). lia.
    + subst. lia.
  - rewrite (rd_wr_ne _ _ _ _ _ Hw) by done. destruct (Z.eqb_spec i nr); [by subst|done].
Qed.

Lemma wr_chunks_ok bm i c bm' : chunks_ok bm → in_width 32 c → wr bm i c = Some bm' → chunks_ok bm'.
Proof. intros. by eapply wr_Forall. Qed.

Section one_bit.
  Context (bm : list Z) (size nr : Z) (Hok : chunks_ok bm) (Hh : holds bm size) (Hn : 0 <= nr < size).

Lemma set_bit_spec : ∃ bm', ice_set_bit nr bm = Some bm' ∧ chunks_ok bm' ∧ length bm' = length bm ∧
  ∀ i, 0 <= i → bit bm' i = if i =? nr then true else bit bm i.
Proof.
  destruct (holds_chunk bm size nr Hh Hn) as [c Hc]. pose proof (rd_Forall _ _ _ _ Hok Hc) as Hw. pose proof (Z.mod_pos_bound nr 32 ltac:(lia)) as Hm.
  unfold ice_set_bit, BIT_CHUNK, BIT_IN_CHUNK, BITS_PER_CHUNK. rewrite Hc. cbn [mbind option_bind].
  destruct (bit_wr bm size nr c (ice_set_bit_internal (nr mod 32) c) true Hh Hn Hc) as (bm' & Ew & Hl & Hb).
  { intros j Hj. rewrite set_internal_bit by lia || done. by destruct (j =? _). }
  exists bm'. split_and!; [done| |done|done]. eapply wr_chunks_ok; [done| |exact Ew]. apply wrap_width. lia.
Qed.

Lemma clear_bit_spec : ∃ bm', ice_clear_bit nr bm = Some bm' ∧ chunks_ok bm' ∧ length bm' = length bm ∧
  ∀ i, 0 <= i → bit bm' i = if i =? nr then false else bit bm i.
Proof.
  destruct (holds_chunk bm size nr Hh Hn) as [c Hc]. pose proof (rd_Forall _ _ _ _ Hok Hc) as Hw. pose proof (Z.mod_pos_bound nr 32 ltac:(lia)) as Hm.
  unfold ice_clear_bit, BIT_CHUNK, BIT_IN_CHUNK, BITS_PER_CHUNK. rewrite Hc. cbn [mbind option_bind].
  destruct (bit_wr bm size nr c (ice_clear_bit_internal (nr mod 32) c) false Hh Hn Hc) as (bm' & Ew & Hl & Hb).
  { intros j Hj. rewrite clear_internal_bit by lia || done. by destruct (j =? _). }
  exists bm'. split_and!; [done| |done|done]. eapply wr_chunks_ok; [done| |exact Ew]. apply wrap_width. lia.
Qed.

Lemma test_and_set_bit_spec : ∃ bm', ice_test_and_set_bit nr bm = Some (bit bm nr, bm') ∧ chunks_ok bm' ∧ length bm' = length bm ∧
  ∀ i, 0 <= i → bit bm' i = if i =? nr then true else bit bm i.
Proof.
  destruct (holds_chunk bm size nr Hh Hn) as [c Hc]. pose proof (rd_Forall _ _ _ _ Hok Hc) as Hw. pose proof (Z.mod_pos_bound nr 32 ltac:(lia)) as Hm.
  unfold ice_test_and_set_bit, BIT_CHUNK, BIT_IN_CHUNK, BITS_PER_CHUNK. rewrite Hc. cbn [mbind option_bind]. unfold ice_test_and_set_bit_internal, ice_is_bit_set_internal.
  rewrite bitul, nz_bit by lia. set (r := if Z.testbit c (nr mod 32) then _ else _).
  destruct (bit_wr bm size nr c r.2 true Hh Hn Hc) as (bm' & Ew & Hl & Hb).
  { intros j Hj. unfold r. destruct (Z.testbit c (nr mod 32)) eqn:E; cbn; [destruct (Z.eqb_spec j (nr mod 32)); congruence|]. rewrite set_internal_bit by lia || done. by destruct (j =? _). }
  rewrite Ew. cbn [mbind option_bind]. exists bm'. split_and!; [|eapply wr_chunks_ok; [done| |exact Ew]|done|done].
  - do 2 f_equal. unfold bit. rewrite Hc. unfold r. by destruct (Z.testbit _ _).
  - unfold r. destruct (Z.testbit _ _); [done|]. apply wrap_width. lia.
Qed.

Lemma test_and_clear_bit_spec : ∃ bm', ice_test_and_clear_bit nr bm = Some (bit bm nr, bm') ∧ chunks_ok bm' ∧ length bm' = length bm ∧
  ∀ i, 0 <= i → bit bm' i = if i =? nr then false else bit bm i.
Proof.
  destruct (holds_chunk bm size nr Hh Hn) as [c Hc]. pose proof (rd_Forall _ _ _ _ Hok Hc) as Hw. pose proof (Z.mod_pos_bound nr 32 ltac:(lia)) as Hm.
  unfold ice_test_and_clear_bit, BIT_CHUNK, BIT_IN_CHUNK, BITS_PER_CHUNK. rewrite Hc. cbn [mbind option_bind]. unfold ice_test_and_clear_bit_internal, ice_is_bit_set_internal.
  rewrite bitul, nz_bit by lia. set (r := if Z.testbit c (nr mod 32) then _ else _).
  destruct (bit_wr bm size nr c r.2 false Hh Hn Hc) as (bm' & Ew & Hl & Hb).
  { intros j Hj. unfold r. destruct (Z.testbit c (nr mod 32)) eqn:E; cbn; [|destruct (Z.eqb_spec j (nr mod 32)); congruence]. rewrite clear_internal_bit by lia || done. by destruct (j =? _). }
  rewrite Ew. cbn [mbind option_bind]. exists bm'. split_and!; [|eapply wr_chunks_ok; [done| |exact Ew]|done|done].
  - do 2 f_equal. unfold bit. rewrite Hc. unfold r. by destruct (Z.testbit _ _).
  - unfold r. destruct (Z.testbit _ _); [|done]. apply wrap_width. lia.
Qed.
End one_bit.

(** ** Search *)

(** No number from [lo] to [hi - 1] is in the bitmap. *)
Definition free (bm : list Z) (lo hi : Z) : Prop := ∀ k, lo <= k < hi → bit bm k = false.

(** [r] is the smallest member from [lo] on, below [hi]. *)
Definition least (bm : list Z) (lo hi r : Z) : Prop := lo <= r < hi ∧ bit bm r = true ∧ free bm lo r.

Lemma bits_to_chunks size : 0 <= size < 2 ^ 16 → BITS_TO_CHUNKS size = (size + 31) / 32.
Proof. intros H. unfold BITS_TO_CHUNKS, BITS_PER_CHUNK. rewrite wrap_small by (unfold in_width; lia). f_equal. lia. Qed.

Lemma scan_chunk_spec bm size i j0 : 0 <= i → 32 * i < 2 ^ 16 → i < Z.of_nat (length bm) → 0 <= j0 <= 32 → ∃ r,
  scan_chunk bm size (u16 (i * 32)) j0 = Some r ∧
  match r with
  | None => free bm (32 * i + j0) (32 * i + 32)
  | Some x => ∃ p, x = Z.min size p ∧ least bm (32 * i + j0) (32 * i + 32) p
  end.
Proof.
  intros Hi Hw Hl Hj. unfold scan_chunk. rewrite (wrap_small 16 (i * 32)) by (unfold in_width; lia). change BITS_PER_CHUNK with 32.
  apply (for_break_total (fun j s => s = None ∧ free bm (32 * i + j0) (32 * i + j))); [lia| | |].
  - split; [done|]. intros k Hk. lia.
  - by intros s [-> Hf].
  - intros j s Hj' [-> Hf]. assert (32 * i + j < 2 ^ 16) as Hlt by (assert (i <= 2047) by lia; lia).
    replace (i * 32 + j) with (32 * i + j) by lia. rewrite (wrap_small 16) by (unfold in_width; lia).
    rewrite (is_bit_set_spec bm (32 * i + j) (32 * Z.of_nat (length bm))) by (unfold holds; lia). cbn [mbind option_bind]. destruct (bit bm (32 * i + j)) eqn:Eb; (eexists; split; [done|]); cbn.
    + exists (32 * i + j). split; [done|]. split_and!; [lia|lia|done|done].
    + split; [done|]. intros k Hk. destruct (decide (k = 32 * i + j)) as [->|]; [done|]. apply Hf. lia.
Qed.

(** A chunk that is zero holds nothing. *)
Lemma free_zero bm i : 0 <= i → rd bm i = Some 0 → free bm (32 * i) (32 * i + 32).
Proof. intros Hi H k Hk. unfold bit. replace (k / 32) with i by (apply (Z.div_unique k 32 i (k - 32 * i)); lia). by rewrite H, Z.bits_0. Qed.

Lemma next_chunk bm size i j0 : 0 <= i → 32 * i < 2 ^ 16 → i < Z.of_nat (length bm) → 0 <= j0 <= 32 → ∃ c r, rd bm i = Some c ∧
  (if nz c then scan_chunk bm size (u16 (i * 32)) j0 else Some None) = Some r ∧
  match r with
  | None => free bm (32 * i + j0) (32 * i + 32)
  | Some x => ∃ p, x = Z.min size p ∧ least bm (32 * i + j0) (32 * i + 32) p
  end.
Proof.
  intros Hi Hw Hl Hj. destruct (rd_in_range bm i ltac:(lia)) as [c Hc]. exists c. unfold nz. destruct (Z.eqb_spec c 0) as [->|].
  - exists None. split_and!; try done. intros k Hk. apply (free_zero bm i); [done|done|lia].
  - destruct (scan_chunk_spec bm size i j0 Hi Hw Hl Hj) as (r & E & Hr). by exists r.
Qed.

Lemma free_app bm a b c : free bm a b → free bm b c → free bm a c.
Proof. intros H1 H2 k Hk. destruct (decide (k < b)); [apply H1|apply H2]; lia. Qed.

(** The search finds the first number of the bitmap from the offset on, and returns the
    size if there is none below it; it stays inside the bitmap. *)
Lemma find_next_bit_spec bm size offset : 0 <= offset → 0 <= size < 2 ^ 16 → holds bm size → ∃ r,
  ice_find_next_bit bm size offset = Some r ∧ (least bm offset size r ∨ r = size ∧ free bm offset size).
Proof.
  intros Ho Hs Hh. unfold ice_find_next_bit. destruct (Z.leb_spec size offset) as [Hle|Hlt]; [exists size; split; [done|right; split; [done|intros k Hk; lia]]|].
  unfold holds in Hh. change (BIT_CHUNK offset) with (offset / 32). change BITS_PER_CHUNK with 32. pose proof (Z.div_mod offset 32 ltac:(lia)) as Hdm. pose proof (Z.mod_pos_bound offset 32 ltac:(lia)) as Hm.
  set (i := offset / 32) in *. set (j := offset mod 32) in *. rewrite (wrap_small 16 i) by (unfold in_width; lia).
  assert (∀ x p, x = Z.min size p → offset <= p → bit bm p = true → free bm offset p → least bm offset size x ∨ x = size ∧ free bm offset size) as Hfin.
  { intros x p -> Hp Hb Hf. destruct (decide (p < size)); [left; rewrite Z.min_r by lia; split_and!; [lia|lia|done|done]|right]. rewrite Z.min_l by lia. split; [done|]. intros k Hk. apply Hf. lia. }
  destruct (next_chunk bm size i j ltac:(lia) ltac:(lia) ltac:(lia) ltac:(lia)) as (c & r & Hc & Er & Hr). rewrite Hc. cbn [mbind option_bind]. rewrite Er. cbn [mbind option_bind].
  destruct r as [x|]; [destruct Hr as (p & -> & [Hp (Hb & Hf)]); eexists; split; [done|]; apply (Hfin _ p); [done|lia|done|by rewrite Hdm]|].
  rewrite bits_to_chunks by lia. set (n := (size + 31) / 32). assert (32 * n < size + 32 ∧ size <= 32 * n) as [Hn1 Hn2] by (pose proof (Z.div_mod (size + 31) 32 ltac:(lia)); pose proof (Z.mod_pos_bound (size + 31) 32 ltac:(lia)); unfold n; lia).
  match goal with |- context [for_break ?lo ?hi ?body ?s0] => destruct (for_break_total (fun k s => s = None ∧ free bm offset (32 * k))
    (fun s => least bm offset size (default size s) ∨ default size s = size ∧ free bm offset size) lo hi body s0) as (rest & E & Hq) end.
  - lia.
  - split; [done|]. replace offset with (32 * i + j) at 1 by lia. by replace (32 * (i + 1)) with (32 * i + 32) by lia.
  - intros s [-> Hf]. right. split; [done|]. intros k Hk. apply Hf. lia.
  - intros k s Hk [-> Hf]. destruct (next_chunk bm size k 0 ltac:(lia) ltac:(lia) ltac:(lia) ltac:(lia)) as (c' & r' & Hc' & Er' & Hr'). cbn beta. rewrite Hc'. cbn [mbind option_bind]. rewrite Er'. cbn [mbind option_bind].
    eexists. split; [done|]. rewrite Z.add_0_r in Hr'. destruct r' as [x|]; cbn.
    + destruct Hr' as (p & Ex & [Hp (Hb & Hf')]). apply (Hfin x p Ex); [lia|done|by eapply free_app].
    + split; [done|]. replace (32 * (k + 1)) with (32 * k + 32) by lia. by eapply free_app.
  - rewrite E. cbn [mbind option_bind]. by exists (default size rest).
Qed.

(** ** Members *)

Definition members_from (bm : list Z) (lo hi : Z) : list Z := filter (fun i => bit bm i = true) (seqZ lo (hi - lo)).
Definition members (bm : list Z) (size : Z) : list Z := members_from bm 0 size.

Lemma members_free bm lo hi : free bm lo hi → members_from bm lo hi = [].
Proof.
  intros Hf. unfold members_from. destruct (filter _ _) as [|x l] eqn:E; [done|].
  assert (x ∈ filter (fun i => bit bm i = true) (seqZ lo (hi - lo))) as Hx by (rewrite E; by left).
  apply list_elem_of_filter in Hx as [Hb Hx]. apply elem_of_seqZ in Hx. rewrite Hf in Hb by lia. done.
Qed.

Lemma members_split bm lo mid hi : lo <= mid <= hi → members_from bm lo hi = members_from bm lo mid ++ members_from bm mid hi.
Proof.
  intros H. unfold members_from. rewrite <- list.filter_app. f_equal. replace (hi - lo) with ((mid - lo) + (hi - mid)) by lia. rewrite seqZ_app by lia. by replace (lo + (mid - lo)) with mid by lia.
Qed.

Lemma members_least bm lo hi r : least bm lo hi r → members_from bm lo hi = r :: members_from bm (r + 1) hi.
Proof.
  intros [Hr (Hb & Hf)]. rewrite (members_split bm lo r) by lia. rewrite (members_free bm lo r) by done. cbn [app]. unfold members_from at 1.
  rewrite seqZ_cons by lia. rewrite filter_cons_True by done. unfold members_from. f_equal. do 2 f_equal; lia.
Qed.

(** C37. The loops over a bitmap visit its members, in order and each once: the positions of
    [ice_for_each_set_bit], the count of [ice_bitmap_hweight], and the test of
    [ice_is_any_bit_set] are those of the set.  They end and stay inside the bitmap. *)
Theorem bitmap_members bm size : 0 <= size < 2 ^ 16 → holds bm size →
  ice_for_each_set_bit bm size = Some (members bm size) ∧
  ice_bitmap_hweight bm size = Some (Z.of_nat (length (members bm size))) ∧
  ice_is_any_bit_set bm size = Some (bool_decide (members bm size ≠ [])).
Proof.
  intros Hs Hh. split_and!.
  - unfold ice_for_each_set_bit, ice_find_first_bit. destruct (find_next_bit_spec bm size 0 ltac:(lia) Hs Hh) as (r0 & -> & Hr0). cbn [mbind option_bind].
    match goal with |- context [iterate ?body ?p ?s0] => destruct (iterate_total body
      (fun '(ps, pos) => ps ++ members_from bm pos size = members bm size ∧ 0 <= pos <= size ∧ (pos < size → bit bm pos = true))
      (fun ps => ps = members bm size) (fun '(_, pos) => size - pos) p s0) as (q & -> & ->) end; [| | |done].
    + cbn [app]. destruct Hr0 as [Hl|[-> Hf]].
      * pose proof (members_least _ _ _ _ Hl) as E. destruct Hl as [Hr (Hb & Hf)]. split_and!; [|lia|lia|done]. unfold members. by rewrite (members_split bm 0 r0 size), (members_free bm 0 r0) by (done || lia).
      * split_and!; [|lia|lia|lia]. unfold members. rewrite (members_free bm 0 size Hf). apply members_free. intros k Hk. lia.
    + destruct Hr0 as [[Hr _]|[-> _]]; lia.
    + intros [ps pos] (Hps & Hp & Hb). destruct (Z.ltb_spec pos size) as [Hlt|Hge].
      * rewrite (wrap_small 16 (pos + 1)) by (unfold in_width; lia). destruct (find_next_bit_spec bm size (pos + 1) ltac:(lia) Hs Hh) as (r & -> & Hr). cbn [mbind option_bind]. eexists. split; [done|].
        assert (members_from bm pos size = pos :: members_from bm (pos + 1) size) as E by (apply members_least; split_and!; [lia|lia|by apply Hb|intros k Hk; lia]).
        assert (members_from bm (pos + 1) size = members_from bm r size ∧ pos + 1 <= r <= size ∧ (r < size → bit bm r = true)) as (Er & Hr2 & Hbr).
        { destruct Hr as [[Hr (Hbr & Hf)]|[-> Hf]]; [|split_and!; [|lia|lia|lia]; rewrite (members_free bm (pos + 1)) by done; symmetry; apply members_free; intros k Hk; lia].
          split_and!; [|lia|lia|done]. by rewrite (members_split bm (pos + 1) r size), (members_free bm (pos + 1) r) by (done || lia). }
        split_and!; [|lia|lia|done|lia|lia]. rewrite <- app_assoc. cbn [app]. by rewrite <- Er, <- E.
      * exists (inr ps). split; [done|]. rewrite (members_free bm pos size), app_nil_r in Hps; [done|]. intros k Hk. lia.
  - unfold ice_bitmap_hweight.
    match goal with |- context [iterate ?body ?p ?s0] => destruct (iterate_total body
      (fun '(n, pos) => n + Z.of_nat (length (members_from bm pos size)) = Z.of_nat (length (members bm size)) ∧ 0 <= pos <= size)
      (fun n => n = Z.of_nat (length (members bm size))) (fun '(_, pos) => size - pos) p s0) as (q & -> & ->) end; [split; [done|lia]|lia| |done].
    intros [n pos] (Hc & Hp). destruct (find_next_bit_spec bm size pos ltac:(lia) Hs Hh) as (r & -> & Hr). cbn [mbind option_bind]. eexists. split; [done|].
    destruct Hr as [Hl|[-> Hf]].
    + rewrite (members_least _ _ _ _ Hl) in Hc. destruct Hl as [Hr _]. cbn [length] in Hc. rewrite (proj2 (Z.ltb_lt _ _)) by lia. rewrite (wrap_small 16 (r + 1)) by (unfold in_width; lia). lia.
    + rewrite Z.ltb_irrefl. rewrite (members_free bm pos size Hf) in Hc. cbn in Hc. lia.
  - unfold ice_is_any_bit_set, ice_find_first_bit. destruct (find_next_bit_spec bm size 0 ltac:(lia) Hs Hh) as (r & -> & Hr). cbn [mbind option_bind]. f_equal. unfold members. destruct Hr as [Hl|[-> Hf]].
    + rewrite (members_least _ _ _ _ Hl). destruct Hl as [Hr _]. by rewrite (proj2 (Z.ltb_lt _ _)) by lia.
    + by rewrite Z.ltb_irrefl, (members_free bm 0 size Hf).
Qed.

(** ** Operations on sets *)

Lemma bit_wr_chunk bm i c bm' k : 0 <= i → wr bm i c = Some bm' → bit bm' k = if k / 32 =? i then Z.testbit c (k mod 32) else bit bm k.
Proof.
  intros Hi Hw. unfold bit. destruct (Z.eqb_spec (k / 32) i) as [E|]; [rewrite E; by rewrite (rd_wr_eq _ _ _ _ Hw)|]. by rewrite (rd_wr_ne _ _ _ _ _ Hw) by done.
Qed.

Lemma bit_rd bm i c k : rd bm i = Some c → k / 32 = i → bit bm k = Z.testbit c (k mod 32).
Proof. intros Hc Hk. unfold bit. by rewrite Hk, Hc. Qed.

Lemma last_index size : 0 < size < 2 ^ 16 → u64 (BITS_TO_CHUNKS size - 1) = (size - 1) / 32.
Proof.
  intros Hs. rewrite bits_to_chunks by lia. replace (size + 31) with (size - 1 + 1 * 32) by lia. rewrite Z.div_add by lia.
  pose proof (Z.div_pos (size - 1) 32 ltac:(lia) ltac:(lia)). pose proof (Z.div_le_upper_bound (size - 1) 32 (2 ^ 16) ltac:(lia) ltac:(lia)). rewrite wrap_small by (unfold in_width; lia). lia.
Qed.

Lemma last_mask size : 0 < size < 2 ^ 16 → LAST_CHUNK_MASK size = Z.ones ((size - 1) mod 32 + 1).
Proof.
  intros Hs. unfold LAST_CHUNK_MASK, LAST_CHUNK_BITS, BITS_PER_CHUNK. rewrite (wrap_small 64) by (unfold in_width; lia). pose proof (Z.mod_pos_bound (size - 1) 32 ltac:(lia)).
  change (u32 (-1)) with (Z.ones 32). rewrite Z.shiftr_div_pow2 by lia. rewrite (Z.ones_div_pow2 32) by lia. f_equal. lia.
Qed.

(** Inside the last chunk: the bits below the size. *)
Lemma last_bits size k : 0 < size → k / 32 = (size - 1) / 32 → (k mod 32 <? (size - 1) mod 32 + 1) = (k <? size).
Proof.
  intros Hs E. pose proof (Z.div_mod k 32 ltac:(lia)). pose proof (Z.div_mod (size - 1) 32 ltac:(lia)).
  destruct (Z.ltb_spec (k mod 32) ((size - 1) mod 32 + 1)), (Z.ltb_spec k size); try done; lia.
Qed.

Lemma zero_bits c : in_width 32 c → c = 0 ↔ ∀ j, 0 <= j < 32 → Z.testbit c j = false.
Proof.
  intros Hc. split; [intros -> j _; apply Z.bits_0|]. intros H. apply Z.bits_inj'. intros j Hj. rewrite Z.bits_0. destruct (decide (j < 32)); [by apply H|].
  unfold in_width in Hc. rewrite <- (Z.mod_small c (2 ^ 32)) by lia. apply Z.mod_pow2_bits_high. lia.
Qed.

Lemma chunk_index_in size (bm : list Z) i : 0 < size → holds bm size → 0 <= i <= (size - 1) / 32 → is_Some (rd bm i).
Proof.
  intros Hs Hh Hi. apply rd_in_range. unfold holds in Hh. pose proof (Z.div_mod (size - 1) 32 ltac:(lia)). pose proof (Z.mod_pos_bound (size - 1) 32 ltac:(lia)). lia.
Qed.

Section set_operation.
  Context (f : Z → Z → Z) (fb : bool → bool → bool).
  Context (Hbits : ∀ x y j, 0 <= j < 32 → Z.testbit (f x y) j = fb (Z.testbit x j) (Z.testbit y j)).
  Context (Hwidth : ∀ x y, in_width 32 x → in_width 32 y → in_width 32 (f x y)).
  Context (dst bmp1 bmp2 : list Z) (size : Z) (Hsize : 0 < size < 2 ^ 16).
  Context (Hd : chunks_ok dst) (H1 : chunks_ok bmp1) (H2 : chunks_ok bmp2).
  Context (Ld : holds dst size) (L1 : holds bmp1 size) (L2 : holds bmp2 size).

  (** The state when the numbers below [n] are done. *)
Definition op_done (n : Z) (s : list Z * Z) : Prop :=
  length s.1 = length dst ∧ chunks_ok s.1 ∧
  (∀ k, 0 <= k → bit s.1 k = if k <? n then fb (bit bmp1 k) (bit bmp2 k) else bit dst k) ∧
  in_width 32 s.2 ∧ (s.2 = 0 ↔ ∀ k, 0 <= k < n → fb (bit bmp1 k) (bit bmp2 k) = false).

(** One more chunk, of which the numbers below [n] count. *)
Lemma op_step i n s c x y : op_done (32 * i) s → 0 <= i <= (size - 1) / 32 → rd bmp1 i = Some x → rd bmp2 i = Some y → in_width 32 c →
  32 * i < n <= 32 * i + 32 →
  (∀ j, 0 <= j < 32 → Z.testbit c j = if 32 * i + j <? n then Z.testbit (f x y) j else bit s.1 (32 * i + j)) →
  ∃ d, wr s.1 i c = Some d ∧ ∀ m, in_width 32 m → (∀ j, 0 <= j < 32 → Z.testbit m j = (32 * i + j <? n) && Z.testbit (f x y) j) → op_done n (d, s.2 .| m).
Proof.
  intros (Hl & Hc & Hb & Hw & Hz) Hi Hx Hy Hcw Hn Hcb. destruct (chunk_index_in size dst i ltac:(lia) Ld Hi) as [z Hz']. apply rd_Some in Hz'.
  exists (<[Z.to_nat i := c]> s.1). pose proof (wr_in_range s.1 i c ltac:(lia)) as Ew. split; [done|]. intros m Hmw Hm.
  assert (∀ k, 0 <= k → k / 32 = i → k = 32 * i + k mod 32 ∧ 0 <= k mod 32 < 32) as Hk by (intros k Hk <-; split; [apply Z.div_mod; lia|apply Z.mod_pos_bound; lia]).
  assert (∀ k, 0 <= k → k / 32 = i → fb (bit bmp1 k) (bit bmp2 k) = Z.testbit (f x y) (k mod 32)) as Hf.
  { intros k H0 E. rewrite (bit_rd bmp1 i x k), (bit_rd bmp2 i y k), Hbits by (done || by apply Hk). done. }
  unfold op_done. cbn [fst snd]. split; [|split; [|split; [|split]]].
  - by rewrite length_insert.
  - exact (wr_chunks_ok _ _ _ _ Hc Hcw Ew).
  - intros k H0. rewrite (bit_wr_chunk _ _ _ _ k (proj1 Hi) Ew). destruct (Z.eqb_spec (k / 32) i) as [E|N].
    + destruct (Hk k H0 E) as [Ek Hr]. rewrite Hcb, <- Ek by done. destruct (k <? n); [by rewrite Hf|]. rewrite Hb by done. by rewrite (proj2 (Z.ltb_ge _ _)) by lia.
    + rewrite Hb by done. pose proof (Z.div_mod k 32 ltac:(lia)). pose proof (Z.mod_pos_bound k 32 ltac:(lia)).
      destruct (Z.ltb_spec k (32 * i)), (Z.ltb_spec k n); try done; lia.
  - by apply in_width_lor.
  - rewrite Z.lor_eq_0_iff, Hz, (zero_bits m) by done. split.
    + intros [Ha Hm0] k Hkn. destruct (decide (k / 32 = i)) as [E|N].
      * destruct (Hk k ltac:(lia) E) as [Ek Hr]. pose proof (Hm0 (k mod 32) Hr) as Hm1. rewrite Hm, <- Ek, (proj2 (Z.ltb_lt _ _)) in Hm1 by lia. by rewrite Hf by lia.
      * apply Ha. pose proof (Z.div_mod k 32 ltac:(lia)). pose proof (Z.mod_pos_bound k 32 ltac:(lia)). lia.
    + intros Ha. split; [intros k Hkn; apply Ha; lia|]. intros j Hj. rewrite Hm by done. destruct (Z.ltb_spec (32 * i + j) n); [|done]. cbn.
      assert ((32 * i + j) / 32 = i ∧ (32 * i + j) mod 32 = j) as [E1 E2] by (split; [symmetry; apply (Z.div_unique _ 32 i j)|symmetry; apply (Z.mod_unique _ 32 i j)]; lia).
      rewrite <- E2, <- Hf by (done || lia). apply Ha. lia.
Qed.

Lemma bitmap_op_spec : ∃ s, bitmap_op f dst bmp1 bmp2 size = Some s ∧ op_done size s.
Proof.
  unfold bitmap_op. rewrite last_index by done. set (n := (size - 1) / 32) in *. assert (0 <= n) as Hn0 by (apply Z.div_pos; lia).
  pose proof (Z.div_mod (size - 1) 32 ltac:(lia)) as Hdm. pose proof (Z.mod_pos_bound (size - 1) 32 ltac:(lia)) as Hmod. fold n in Hdm.
  destruct (for_range_total (fun i s => op_done (32 * i) s) 0 n (op_chunk f bmp1 bmp2) (dst, 0)) as (s & -> & Hs); [done| | |].
  - split_and!; [done|done|intros k Hk; by rewrite (proj2 (Z.ltb_ge _ _)) by lia|done|]. split; [intros _ k Hk; lia|done].
  - intros i s Hi Hdone. unfold op_chunk. destruct (chunk_index_in size bmp1 i ltac:(lia) L1) as [x Hx]; [fold n; lia|]. destruct (chunk_index_in size bmp2 i ltac:(lia) L2) as [y Hy]; [fold n; lia|].
    rewrite Hx, Hy. cbn [mbind option_bind]. pose proof (rd_Forall _ _ _ _ H1 Hx) as Wx. pose proof (rd_Forall _ _ _ _ H2 Hy) as Wy.
    destruct (op_step i (32 * (i + 1)) s (f x y) x y Hdone ltac:(fold n; lia) Hx Hy (Hwidth _ _ Wx Wy) ltac:(lia)) as (d & -> & Hd').
    { intros j Hj. by rewrite (proj2 (Z.ltb_lt _ _)) by lia. }
    cbn [mbind option_bind]. eexists. split; [done|]. apply Hd'; [by apply Hwidth|]. intros j Hj. by rewrite (proj2 (Z.ltb_lt _ _)) by lia.
  - cbn [mbind option_bind]. unfold op_last. rewrite last_index, last_mask by done. fold n. set (w := (size - 1) mod 32 + 1).
    destruct (chunk_index_in size bmp1 n ltac:(lia) L1) as [x Hx]; [fold n; lia|]. destruct (chunk_index_in size bmp2 n ltac:(lia) L2) as [y Hy]; [fold n; lia|].
    destruct (chunk_index_in size dst n ltac:(lia) Ld) as [z0 Hz0]; [fold n; lia|]. destruct (rd_in_range s.1 n) as [z Hz]; [destruct Hs as [-> _]; by apply rd_Some in Hz0|].
    rewrite Hz, Hx, Hy. cbn [mbind option_bind]. pose proof (rd_Forall _ _ _ _ H1 Hx) as Wx. pose proof (rd_Forall _ _ _ _ H2 Hy) as Wy.
    set (c := u32 (z .& Z.lnot (Z.ones w)) .| (f x y .& Z.ones w)).
    assert (in_width 32 (f x y .& Z.ones w)) as Wm by (apply in_width_land_l; [lia|by apply Hwidth]).
    assert (in_width 32 c) as Wc by (apply in_width_lor; [lia|by apply wrap_width|done]).
    assert (∀ j, 0 <= j < 32 → Z.testbit c j = if 32 * n + j <? size then Z.testbit (f x y) j else Z.testbit z j) as Hcb.
    { intros j Hj. unfold c. rewrite Z.lor_spec, testbit_wrap, !Z.land_spec, Z.lnot_spec, Z.testbit_ones_nonneg by lia. rewrite (proj2 (Z.ltb_lt j 32)) by lia.
      destruct (Z.ltb_spec j w), (Z.ltb_spec (32 * n + j) size); try lia; cbn; by rewrite ?andb_true_r, ?andb_false_r, ?orb_false_r. }
    destruct (op_step n size s c x y Hs ltac:(fold n; lia) Hx Hy Wc ltac:(lia)) as (d & -> & Hd').
    { intros j Hj. rewrite Hcb by done. destruct (_ <? _); [done|]. rewrite (bit_rd s.1 n z) by (done || (symmetry; apply (Z.div_unique _ 32 n j); lia)).
      f_equal. apply (Z.mod_unique _ 32 n j); lia. }
    cbn [mbind option_bind]. eexists. split; [done|]. apply Hd'; [apply in_width_land_l; [lia|done]|].
    intros j Hj. rewrite Z.land_spec, Hcb, Z.testbit_ones_nonneg by lia. destruct (Z.ltb_spec j w), (Z.ltb_spec (32 * n + j) size); try lia; cbn; by rewrite ?andb_true_r, ?andb_false_r.
Qed.
End set_operation.

Lemma cmp_chunks_spec bmp1 bmp2 size : 0 < size < 2 ^ 16 → chunks_ok bmp1 → chunks_ok bmp2 → holds bmp1 size → holds bmp2 size →
  ∃ r, ice_cmp_bitmap bmp1 bmp2 size = Some r ∧ (r = true ↔ ∀ k, 0 <= k < size → bit bmp1 k = bit bmp2 k).
Proof.
  intros Hs H1 H2 L1 L2. unfold ice_cmp_bitmap. rewrite last_index, last_mask by done. set (n := (size - 1) / 32). assert (0 <= n) as Hn0 by (apply Z.div_pos; lia).
  pose proof (Z.div_mod (size - 1) 32 ltac:(lia)) as Hdm. pose proof (Z.mod_pos_bound (size - 1) 32 ltac:(lia)) as Hmod. fold n in Hdm.
  assert (∀ i, 0 <= i <= n → ∃ x y, rd bmp1 i = Some x ∧ rd bmp2 i = Some y ∧ in_width 32 x ∧ in_width 32 y) as Hrd.
  { intros i Hi. destruct (chunk_index_in size bmp1 i ltac:(lia) L1) as [x Hx]; [fold n; lia|]. destruct (chunk_index_in size bmp2 i ltac:(lia) L2) as [y Hy]; [fold n; lia|].
    exists x, y. split; [done|]. split; [done|]. split; [by apply (rd_Forall _ _ _ _ H1 Hx)|by apply (rd_Forall _ _ _ _ H2 Hy)]. }
  assert (∀ i j, 0 <= j < 32 → (32 * i + j) / 32 = i ∧ (32 * i + j) mod 32 = j) as Hij
    by (intros i j Hj; split; [symmetry; apply (Z.div_unique _ 32 i j)|symmetry; apply (Z.mod_unique _ 32 i j)]; lia).
  assert (∀ i, 0 <= i < n → ∀ x y, rd bmp1 i = Some x → rd bmp2 i = Some y → x ≠ y → ¬ ∀ k, 0 <= k < size → bit bmp1 k = bit bmp2 k) as Hne.
  { intros i Hi x y Hx Hy Hxy Hall. apply Hxy. pose proof (rd_Forall _ _ _ _ H1 Hx) as [? ?]. pose proof (rd_Forall _ _ _ _ H2 Hy) as [? ?].
    rewrite <- (Z.mod_small x (2 ^ 32)), <- (Z.mod_small y (2 ^ 32)) by lia. apply Z.bits_inj'. intros j Hj. rewrite !Z.testbit_mod_pow2 by lia. destruct (Z.ltb_spec j 32); [|done].
    cbn. destruct (Hij i j ltac:(lia)) as [E1 E2]. pose proof (Hall (32 * i + j) ltac:(lia)) as Hk. rewrite (bit_rd bmp1 i x), (bit_rd bmp2 i y), E2 in Hk by done. done. }
  match goal with |- context [for_break ?lo ?hi ?body ?s0] => destruct (for_break_total (fun i s => s = true ∧ ∀ k, 0 <= k < 32 * i → bit bmp1 k = bit bmp2 k)
    (fun s : bool => if s then ∀ k, 0 <= k < 32 * n → bit bmp1 k = bit bmp2 k else ¬ ∀ k, 0 <= k < size → bit bmp1 k = bit bmp2 k) lo hi body s0) as (eq & -> & Hq) end.
  - lia.
  - split; [done|]. intros k Hk. lia.
  - by intros s [-> Hall].
  - intros i s Hi [-> Hall]. destruct (Hrd i ltac:(lia)) as (x & y & Hx & Hy & _ & _). rewrite Hx, Hy. cbn [mbind option_bind]. eexists. split; [done|]. destruct (Z.eqb_spec x y) as [->|N]; cbn [negb]; [|by eapply Hne].
    split; [done|]. intros k Hk. destruct (decide (k < 32 * i)); [apply Hall; lia|]. assert (k / 32 = i) as E by (symmetry; apply (Z.div_unique k 32 i (k - 32 * i)); lia).
    by rewrite (bit_rd bmp1 i y), (bit_rd bmp2 i y).
  - cbn [mbind option_bind]. destruct eq; cbn [negb]; [|exists false; split; [done|]; split; [done|intros H; by destruct Hq]].
    destruct (Hrd n ltac:(lia)) as (x & y & Hx & Hy & Wx & Wy). rewrite Hx, Hy. cbn [mbind option_bind]. eexists. split; [done|]. set (w := (size - 1) mod 32 + 1). rewrite Z.eqb_eq. split.
    + intros E k Hk. destruct (decide (k < 32 * n)); [apply Hq; lia|]. assert (k / 32 = n) as Ek by (symmetry; apply (Z.div_unique k 32 n (k - 32 * n)); lia).
      rewrite (bit_rd bmp1 n x), (bit_rd bmp2 n y) by done. pose proof (f_equal (fun v => Z.testbit v (k mod 32)) E) as Eb. cbn beta in Eb. pose proof (Z.mod_pos_bound k 32 ltac:(lia)).
      rewrite !Z.land_spec, !Z.testbit_ones_nonneg in Eb by lia. unfold w in Eb. rewrite (last_bits size k) in Eb by (lia || done). rewrite (proj2 (Z.ltb_lt _ _)) in Eb by lia. by rewrite !andb_true_r in Eb.
    + intros Hall. apply Z.bits_inj'. intros j Hj. rewrite !Z.land_spec, !Z.testbit_ones_nonneg by lia. destruct (Z.ltb_spec j w); [|by rewrite !andb_false_r]. rewrite !andb_true_r.
      destruct (Hij n j ltac:(lia)) as [E1 E2]. pose proof (Hall (32 * n + j) ltac:(lia)) as Hk. by rewrite (bit_rd bmp1 n x), (bit_rd bmp2 n y), E2 in Hk.
Qed.

(** The destination holds the members of the operation below the size, and is unchanged above. *)
Definition set_result (fb : bool → bool → bool) (dst bmp1 bmp2 : list Z) (size : Z) (d : list Z) : Prop :=
  length d = length dst ∧ chunks_ok d ∧ ∀ k, 0 <= k → bit d k = if k <? size then fb (bit bmp1 k) (bit bmp2 k) else bit dst k.

(** The operations on bitmaps are those on sets of numbers below the size: intersection,
    with the test whether it is empty, union, symmetric difference, difference and
    equality.  Numbers from the size on are left alone. *)
Theorem bitmap_set_ops dst bmp1 bmp2 size : 0 < size < 2 ^ 16 → chunks_ok dst → chunks_ok bmp1 → chunks_ok bmp2 →
  holds dst size → holds bmp1 size → holds bmp2 size →
  (∃ d r, ice_and_bitmap dst bmp1 bmp2 size = Some (r, d) ∧ set_result andb dst bmp1 bmp2 size d ∧
     (r = false ↔ ∀ k, 0 <= k < size → bit bmp1 k && bit bmp2 k = false)) ∧
  (∃ d, ice_or_bitmap dst bmp1 bmp2 size = Some d ∧ set_result orb dst bmp1 bmp2 size d) ∧
  (∃ d, ice_xor_bitmap dst bmp1 bmp2 size = Some d ∧ set_result xorb dst bmp1 bmp2 size d) ∧
  (∃ d, ice_andnot_bitmap dst bmp1 bmp2 size = Some d ∧ set_result (fun x y => x && negb y) dst bmp1 bmp2 size d) ∧
  ∃ r, ice_cmp_bitmap bmp1 bmp2 size = Some r ∧ (r = true ↔ ∀ k, 0 <= k < size → bit bmp1 k = bit bmp2 k).
Proof.
  intros Hs Hd H1 H2 Ld L1 L2. split; [|split; [|split; [|split]]]; [| | | |by apply cmp_chunks_spec].
  - destruct (bitmap_op_spec Z.land andb (fun x y j _ => Z.land_spec x y j) (fun x y Hx _ => in_width_land_l 32 x y ltac:(lia) Hx) dst bmp1 bmp2 size Hs Hd H1 H2 Ld L1 L2) as (s & E & Hl & Hc & Hb & _ & Hz).
    unfold ice_and_bitmap. rewrite E. exists s.1, (nz s.2). split; [done|]. split; [done|]. rewrite <- Hz. unfold nz. destruct (Z.eqb_spec s.2 0); naive_solver.
  - destruct (bitmap_op_spec Z.lor orb (fun x y j _ => Z.lor_spec x y j) (fun x y Hx Hy => in_width_lor 32 x y ltac:(lia) Hx Hy) dst bmp1 bmp2 size Hs Hd H1 H2 Ld L1 L2) as (s & E & Hl & Hc & Hb & _).
    unfold ice_or_bitmap. rewrite E. by exists s.1.
  - assert (∀ x y, in_width 32 x → in_width 32 y → in_width 32 (Z.lxor x y)) as Hw.
    { intros x y Hx Hy. apply in_width_bits; [lia|apply Z.lxor_nonneg; unfold in_width in *; lia|]. intros j Hj. rewrite Z.lxor_spec, (testbit_above 32 x), (testbit_above 32 y) by (done || lia). done. }
    destruct (bitmap_op_spec Z.lxor xorb (fun x y j _ => Z.lxor_spec x y j) Hw dst bmp1 bmp2 size Hs Hd H1 H2 Ld L1 L2) as (s & E & Hl & Hc & Hb & _).
    unfold ice_xor_bitmap. rewrite E. by exists s.1.
  - assert (∀ x y j, 0 <= j < 32 → Z.testbit (x .& u32 (Z.lnot y)) j = Z.testbit x j && negb (Z.testbit y j)) as Hb'.
    { intros x y j Hj. rewrite Z.land_spec, testbit_wrap, Z.lnot_spec, (proj2 (Z.ltb_lt j 32)) by lia. done. }
    destruct (bitmap_op_spec _ (fun x y => x && negb y) Hb' (fun x y Hx _ => in_width_land_l 32 x _ ltac:(lia) Hx) dst bmp1 bmp2 size Hs Hd H1 H2 Ld L1 L2) as (s & E & Hl & Hc & Hb & _).
    unfold ice_andnot_bitmap. rewrite E. by exists s.1.
Qed.

(** ** Construction *)

(** A loop that sets the numbers [off + j], [lo <= j < hi], for which [g] holds. *)
Lemma set_loop (g : Z → bool) off dst size lo hi body : chunks_ok dst → holds dst size → 0 <= off + lo → lo <= hi → off + hi <= size →
  (∀ j b, lo <= j < hi → body j b = if g j then ice_set_bit (off + j) b else Some b) →
  ∃ d, for_range lo hi body dst = Some d ∧ chunks_ok d ∧ length d = length dst ∧
    ∀ k, 0 <= k → bit d k = (off + lo <=? k) && (k <? off + hi) && g (k - off) || bit dst k.
Proof.
  intros Hc Hh Hlo Hle Hhi Hbody.
  destruct (for_range_total (fun i b => chunks_ok b ∧ length b = length dst ∧ ∀ k, 0 <= k → bit b k = (off + lo <=? k) && (k <? off + i) && g (k - off) || bit dst k) lo hi body dst) as (d & E & Hd); [done| | |by exists d].
  - split; [done|]. split; [done|]. intros k Hk. destruct (Z.leb_spec (off + lo) k), (Z.ltb_spec k (off + lo)); try lia; done.
  - intros i b Hi (Hcb & Hl & Hb). rewrite Hbody by done.
    assert (∀ k, 0 <= k → k ≠ off + i → (off + lo <=? k) && (k <? off + (i + 1)) && g (k - off) || bit dst k = (off + lo <=? k) && (k <? off + i) && g (k - off) || bit dst k) as Hother.
    { intros k Hk Hne. destruct (Z.ltb_spec k (off + (i + 1))), (Z.ltb_spec k (off + i)); try lia; done. }
    destruct (g i) eqn:Eg.
    + destruct (set_bit_spec b size (off + i) Hcb) as (b' & Es & Hc' & Hl' & Hb'); [unfold holds in *; by rewrite Hl|lia|]. exists b'. split; [done|]. split; [done|]. split; [by rewrite Hl'|].
      intros k Hk. rewrite Hb' by done. destruct (Z.eqb_spec k (off + i)) as [->|N]; [|by rewrite Hother, Hb].
      replace (off + i - off) with i by lia. rewrite Eg, (proj2 (Z.leb_le _ _)), (proj2 (Z.ltb_lt _ _)) by lia. done.
    + exists b. split; [done|]. split; [done|]. split; [done|]. intros k Hk. destruct (decide (k = off + i)) as [->|N]; [|by rewrite Hother, Hb].
      rewrite Hb by lia. replace (off + i - off) with i by lia. by rewrite Eg, !andb_false_r.
Qed.

Lemma bitmap_set_spec dst size pos num : chunks_ok dst → holds dst size → 0 <= pos → 0 <= num → pos + num <= size < 2 ^ 16 →
  ∃ d, ice_bitmap_set dst pos num = Some d ∧ chunks_ok d ∧ ∀ k, 0 <= k → bit d k = (pos <=? k) && (k <? pos + num) || bit dst k.
Proof.
  intros Hc Hh Hp Hn Hs. unfold ice_bitmap_set. rewrite (proj2 (Z.ltb_ge _ _)) by lia.
  destruct (set_loop (fun _ => true) 0 dst size pos (pos + num) (fun i b => ice_set_bit i b) Hc Hh ltac:(lia) ltac:(lia) ltac:(lia)) as (d & E & Hd & _ & Hb); [done|].
  exists d. split; [done|]. split; [done|]. intros k Hk. rewrite Hb by done. by rewrite andb_true_r, !Z.add_0_l.
Qed.

Lemma zero_bitmap_spec bm size : chunks_ok bm → holds bm size → 0 <= size < 2 ^ 16 →
  ∃ d, ice_zero_bitmap bm size = Some d ∧ chunks_ok d ∧ length d = length bm ∧ ∀ k, 0 <= k → bit d k = (32 * ((size + 31) / 32) <=? k) && bit bm k.
Proof.
  intros Hc Hh Hs. unfold ice_zero_bitmap. rewrite bits_to_chunks by done. unfold holds in Hh. pose proof (Z.div_mod (size + 31) 32 ltac:(lia)). pose proof (Z.mod_pos_bound (size + 31) 32 ltac:(lia)).
  apply (for_range_total (fun i b => chunks_ok b ∧ length b = length bm ∧ ∀ k, 0 <= k → bit b k = (32 * i <=? k) && bit bm k)); [apply Z.div_pos; lia| |].
  - split; [done|]. split; [done|]. intros k Hk. by rewrite (proj2 (Z.leb_le _ _)) by lia.
  - intros i b Hi (Hcb & Hl & Hb). pose proof (wr_in_range b i 0 ltac:(lia)) as Ew. eexists. split; [exact Ew|]. split; [by apply (wr_chunks_ok _ _ _ _ Hcb ltac:(done) Ew)|]. split; [by rewrite length_insert|].
    intros k Hk. rewrite (bit_wr_chunk _ _ _ _ k (proj1 Hi) Ew). pose proof (Z.div_mod k 32 ltac:(lia)). pose proof (Z.mod_pos_bound k 32 ltac:(lia)). destruct (Z.eqb_spec (k / 32) i).
    + rewrite Z.bits_0. by rewrite (proj2 (Z.leb_gt _ _)) by lia.
    + rewrite Hb by done. destruct (Z.leb_spec (32 * i) k), (Z.leb_spec (32 * (i + 1)) k); try lia; done.
Qed.

Lemma copy_bits_spec n off entry dst size : chunks_ok dst → holds dst size → 0 <= off → 0 <= n <= 32 → off + n <= size < 2 ^ 16 →
  ∃ d, copy_bits n off entry dst = Some d ∧ chunks_ok d ∧ length d = length dst ∧
    ∀ k, 0 <= k → bit d k = (off <=? k) && (k <? off + n) && Z.testbit entry (k - off) || bit dst k.
Proof.
  intros Hc Hh Ho Hn Hs. unfold copy_bits. destruct (set_loop (fun j => Z.testbit entry j) off dst size 0 n
    (fun j b => if nz (entry .& BITUL j) then ice_set_bit (u16 (j + off)) b else Some b) Hc Hh ltac:(lia) ltac:(lia) ltac:(lia)) as (d & E & Hd & Hl & Hb).
  { intros j b Hj. rewrite bitul, nz_bit by lia. by rewrite (wrap_small 16), (Z.add_comm j) by (unfold in_width; lia). }
  exists d. split; [done|]. split; [done|]. split; [done|]. intros k Hk. rewrite Hb by done. by rewrite Z.add_0_r.
Qed.

(** An array of words as a bitmap. *)
Lemma from_array32_spec dst src size : chunks_ok dst → holds dst size → holds src size → 0 <= size < 2 ^ 16 →
  ∃ d, ice_bitmap_from_array32 dst src size = Some d ∧ chunks_ok d ∧ ∀ k, 0 <= k < size → bit d k = bit src k.
Proof.
  intros Hc Hh Hsrc Hs. unfold ice_bitmap_from_array32. destruct (zero_bitmap_spec dst size Hc Hh Hs) as (d0 & -> & Hc0 & Hl0 & Hb0). cbn [mbind option_bind].
  change BITS_PER_U32 with 32. set (n := size / 32). pose proof (Z.div_mod size 32 ltac:(lia)) as Hdm. pose proof (Z.mod_pos_bound size 32 ltac:(lia)) as Hm. fold n in Hdm. unfold holds in Hh, Hsrc.
  assert (∀ k, 0 <= k < size → bit d0 k = false) as Hz.
  { intros k Hk. rewrite Hb0 by lia. pose proof (Z.div_mod (size + 31) 32 ltac:(lia)). pose proof (Z.mod_pos_bound (size + 31) 32 ltac:(lia)). by rewrite (proj2 (Z.leb_gt _ _)) by lia. }
  assert (∀ i k, 32 * i <= k < 32 * i + 32 → k / 32 = i ∧ k mod 32 = k - i * 32) as Hij
    by (intros i k Hk; split; [symmetry; apply (Z.div_unique _ 32 i (k - 32 * i))|symmetry; apply (Z.mod_unique _ 32 i (k - i * 32))]; lia).
  match goal with |- context [for_range 0 n ?body d0] => destruct (for_range_total (fun i b => chunks_ok b ∧ length b = length d0 ∧ ∀ k, 0 <= k < size → bit b k = (k <? 32 * i) && bit src k) 0 n body d0) as (d1 & -> & Hc1 & Hl1 & Hb1) end.
  - lia.
  - split; [done|]. split; [done|]. intros k Hk. by rewrite (Hz k Hk), (proj2 (Z.ltb_ge _ _)) by lia.
  - intros i b Hi (Hcb & Hlb & Hbb). destruct (rd_in_range src i ltac:(lia)) as [e He]. rewrite He. cbn [mbind option_bind].
    destruct (copy_bits_spec 32 (i * 32) e b size Hcb ltac:(unfold holds; lia) ltac:(lia) ltac:(lia) ltac:(lia)) as (b' & E & Hc' & Hl' & Hb'). exists b'. split; [done|]. split; [done|]. split; [by rewrite Hl'|].
    intros k Hk. rewrite Hb', Hbb by lia. destruct (Z.leb_spec (i * 32) k), (Z.ltb_spec k (i * 32 + 32)), (Z.ltb_spec k (32 * i)), (Z.ltb_spec k (32 * (i + 1))); try lia; cbn; try done.
    destruct (Hij i k ltac:(lia)) as [E1 E2]. rewrite (bit_rd src i e k He E1), E2. apply orb_false_r.
  - cbn [mbind option_bind]. unfold nz. destruct (Z.eqb_spec (size mod 32) 0) as [E0|N0]; cbn [negb].
    + exists d1. split; [done|]. split; [done|]. intros k Hk. by rewrite Hb1, (proj2 (Z.ltb_lt _ _)) by lia.
    + destruct (rd_in_range src n ltac:(lia)) as [e He]. rewrite He. cbn [mbind option_bind].
      destruct (copy_bits_spec (size mod 32) (n * 32) e d1 size Hc1 ltac:(unfold holds; lia) ltac:(lia) ltac:(lia) ltac:(lia)) as (d & E & Hc' & _ & Hb'). exists d. split; [done|]. split; [done|].
      intros k Hk. rewrite Hb', Hb1 by lia. destruct (Z.leb_spec (n * 32) k), (Z.ltb_spec k (n * 32 + size mod 32)), (Z.ltb_spec k (32 * n)); try lia; cbn; try done.
      destruct (Hij n k ltac:(lia)) as [E1 E2]. rewrite (bit_rd src n e k He E1), E2. apply orb_false_r.
Qed.

(** ** Examples *)

Lemma bitmap_members_witness : ice_for_each_set_bit [5; 0; 2 ^ 31 + 1] 90 = Some [0; 2; 64] ∧ ice_bitmap_hweight [5; 0; 2 ^ 31 + 1] 90 = Some 3.
Proof. destruct (bitmap_members [5; 0; 2 ^ 31 + 1] 90) as (E1 & E2 & _); [lia|done|]. split; [exact E1|exact E2]. Defined.

Lemma bitmap_set_ops_witness : ∃ d, ice_xor_bitmap [0; 2 ^ 31] [5; 7] [1; 2] 34 = Some d ∧ bit d 0 = false ∧ bit d 2 = true ∧ bit d 32 = true ∧ bit d 33 = false ∧ bit d 63 = true.
Proof.
  destruct (bitmap_set_ops [0; 2 ^ 31] [5; 7] [1; 2] 34) as (_ & _ & (d & E & _ & _ & Hb) & _);
    [lia|by repeat constructor|by repeat constructor|by repeat constructor|done|done|done|].
  exists d. split; [exact E|]. rewrite !Hb by lia. vm_compute. by split_and!.
Defined.
