(* ===== verification/IceTables.v ===== *)
(** * Parser tables of the ice driver

    The pipeline parser of the E810 is configured by tables in the DDP package.
    This file models the table items (ice_imem.h, ice_metainit.h, ice_pg_cam.h,
    ice_bst_tcam.h, ice_ptype_mk.h, ice_mk_grp.h, ice_proto_grp.h, ice_flg_rd.h,
    ice_xlt_kb.h) and the functions that decode one packed package entry into an
    item (the [_*_init] and [_*_parse_item] functions of the corresponding .c
    files).

    A decoder's [buf] is the memory from the entry to the end of the package
    segment; a read past its end is [None].  The theorems state the position of
    every field in the entry taken as one little-endian number: the decoders
    read overlapping words, shift and mask them, and have to agree with the bit
    positions of the format.  The debug dumps are not modelled. *)
From S2P Require Import Prelude.

(** ** Instruction memory *)
Module Imem.

Record ice_bst_main := mkBm { al0 : bool; al1 : bool; al2 : bool; bm_pg : bool }.

Record ice_bst_keybuilder := mkBkb { priority : Z; tsr_ctrl : bool }.

Record ice_np_keybuilder := mkNpkb { ops : Z; start_or_reg0 : Z; len_or_reg1 : Z }.

Record ice_pg_keybuilder := mkPgkb {
  flag0_ena : bool; flag1_ena : bool; flag2_ena : bool; flag3_ena : bool;
  flag0_idx : Z; flag1_idx : Z; flag2_idx : Z; flag3_idx : Z;
  alu_reg_idx : Z
}.

(** [opc] holds the number of the [enum ice_alu_opcode]. *)
Record ice_alu := mkAlu {
  opc : Z;
  src_start : Z;
  src_len : Z;
  shift_xlate_select : bool;
  shift_xlate_key : Z;
  src_reg_id : Z;
  dst_reg_id : Z;
  inc0 : bool;
  inc1 : bool;
  proto_offset_opc : Z;
  proto_offset : Z;
  branch_addr : Z;
  imm : Z;
  dedicate_flags_ena : bool;
  dst_start : Z;
  dst_len : Z;
  flags_extr_imm : bool;
  flags_start_imm : Z
}.

Record ice_imem_item := mkImem {
  idx : Z;
  b_m : ice_bst_main;
  b_kb : ice_bst_keybuilder;
  pg : Z;
  np_kb : ice_np_keybuilder;
  pg_kb : ice_pg_keybuilder;
  alu0 : ice_alu;
  alu1 : ice_alu;
  alu2 : ice_alu
}.

Definition ICE_IMEM_TABLE_SIZE : Z := 192.

Definition _imem_bm_init (data : Z) : ice_bst_main := {|
  al0 := nz (data .& 0x1);
  al1 := nz (data .& 0x2);
  al2 := nz (data .& 0x4);
  bm_pg := nz (data .& 0x8)
|}.

Definition _imem_bkb_init (data : Z) : ice_bst_keybuilder := {|
  priority := u8 (data .& 0xff);
  tsr_ctrl := nz (data .& 0x100)
|}.

Definition _imem_npkb_init (data : Z) : ice_np_keybuilder := {|
  ops := u8 (data .& 0x3);
  start_or_reg0 := u8 ((data .>> 2) .& 0xff);
  len_or_reg1 := u8 ((data .>> 10) .& 0xff)
|}.

Definition _imem_pgkb_init (data : Z) : ice_pg_keybuilder := {|
  flag0_ena := nz (data .& 0x1);
  flag0_idx := u8 ((data .>> 1) .& 0x3f);
  flag1_ena := nz ((data .>> 7) .& 0x1);
  flag1_idx := u8 ((data .>> 8) .& 0x3f);
  flag2_ena := nz ((data .>> 14) .& 0x1);
  flag2_idx := u8 ((data .>> 15) .& 0x3f);
  flag3_ena := nz ((data .>> 21) .& 0x1);
  flag3_idx := u8 ((data .>> 22) .& 0x3f);
  alu_reg_idx := u8 ((data .>> 28) .& 0x7f)
|}.

(** [data] is the address of the ALU entry inside [buf]. *)
Definition _imem_alu_init (buf : list Z) (data : Z) : option ice_alu :=
  w0 ← load 8 buf data;
  w1 ← load 8 buf (data + 7);
  let d64 := w0 .>> 5 in
  let d64' := w1 .>> 7 in
  Some {|
    opc := d64 .& 0x3f;
    src_start := u8 ((d64 .>> 6) .& 0xff);
    src_len := u8 ((d64 .>> 14) .& 0x1f);
    shift_xlate_select := nz ((d64 .>> 19) .& 0x1);
    shift_xlate_key := u8 ((d64 .>> 20) .& 0xf);
    src_reg_id := u8 ((d64 .>> 24) .& 0x7f);
    dst_reg_id := u8 ((d64 .>> 31) .& 0x7f);
    inc0 := nz ((d64 .>> 38) .& 0x1);
    inc1 := nz ((d64 .>> 39) .& 0x1);
    proto_offset_opc := u8 ((d64 .>> 40) .& 0x3);
    proto_offset := u8 ((d64 .>> 42) .& 0xff);
    branch_addr := u8 ((d64 .>> 50) .& 0xff);
    imm := u16 (d64' .& 0xffff);
    dedicate_flags_ena := nz ((d64' .>> 16) .& 0x1);
    dst_start := u8 ((d64' .>> 17) .& 0x3f);
    dst_len := u8 ((d64' .>> 23) .& 0x3f);
    flags_extr_imm := nz ((d64' .>> 29) .& 0x1);
    flags_start_imm := u8 ((d64' .>> 30) .& 0xff)
  |}.

Definition _imem_parse_item (index : Z) (buf : list Z) : option ice_imem_item :=
  b0 ← load 1 buf 0;
  w0 ← load 2 buf 0;
  b1 ← load 1 buf 1;
  w2 ← load 4 buf 2;
  q2 ← load 8 buf 2;
  a0 ← _imem_alu_init buf 8;
  a1 ← _imem_alu_init buf 20;
  a2 ← _imem_alu_init buf 32;
  Some {|
    idx := index;
    b_m := _imem_bm_init b0;
    b_kb := _imem_bkb_init (w0 .>> 4);
    pg := u8 ((b1 .& 0xc0) .>> 6);
    np_kb := _imem_npkb_init w2;
    pg_kb := _imem_pgkb_init (q2 .>> 18);
    alu0 := a0;
    alu1 := a1;
    alu2 := a2
  |}.

End Imem.

(** ** Metadata initialisation *)
Module Metainit.

(** Initial value of one general-purpose register; the source has four copies
    of these fields, prefixed [gpr_a_] to [gpr_d_]. *)
Record gpr_init := mkGpr {
  gpr_ctrl : bool;
  gpr_data_mdid : Z;
  gpr_data_start : Z;
  gpr_data_len : Z;
  gpr_id : Z
}.

Record ice_metainit_item := mkMeta {
  idx : Z;
  tsr : Z;
  ho : Z;
  pc : Z;
  pg_rn : Z;
  cd : Z;
  gpr_a : gpr_init;
  gpr_b : gpr_init;
  gpr_c : gpr_init;
  gpr_d : gpr_init;
  flags : Z
}.

Definition ICE_METAINIT_TABLE_SIZE : Z := 16.

Definition _metainit_parse_item (index : Z) (buf : list Z) : option ice_metainit_item :=
  w0 ← load 8 buf 0;
  w7 ← load 8 buf 7;
  w14 ← load 8 buf 14;
  w15 ← load 8 buf 15;
  w16 ← load 8 buf 16;
  let d64 := w0 in
  let d64' := w7 .>> 4 in
  let d64'' := w14 .>> 7 in
  let flags0 := w15 .>> 3 in
  let top := (w16 .>> 56) .& 0x7 in
  Some {|
    idx := index;
    tsr := u8 (d64 .& 0xff);
    ho := u16 ((d64 .>> 8) .& 0x1ff);
    pc := u16 ((d64 .>> 17) .& 0xff);
    pg_rn := u16 ((d64 .>> 25) .& 0x3ff);
    cd := u8 (u16 ((d64 .>> 36) .& 0x7));
    gpr_a := {|
      gpr_ctrl := nz ((d64 .>> 39) .& 0x1);
      gpr_data_mdid := u8 ((d64 .>> 40) .& 0x1f);
      gpr_data_start := u8 ((d64 .>> 45) .& 0xf);
      gpr_data_len := u8 ((d64 .>> 49) .& 0x1f);
      gpr_id := u8 ((d64 .>> 56) .& 0xf) |};
    gpr_b := {|
      gpr_ctrl := nz (d64' .& 0x1);
      gpr_data_mdid := u8 ((d64' .>> 1) .& 0x1f);
      gpr_data_start := u8 ((d64' .>> 6) .& 0xf);
      gpr_data_len := u8 ((d64' .>> 10) .& 0x1f);
      gpr_id := u8 ((d64' .>> 17) .& 0xf) |};
    gpr_c := {|
      gpr_ctrl := nz ((d64' .>> 21) .& 0x1);
      gpr_data_mdid := u8 ((d64' .>> 22) .& 0x1f);
      gpr_data_start := u8 ((d64' .>> 27) .& 0xf);
      gpr_data_len := u8 ((d64' .>> 31) .& 0x1f);
      gpr_id := u8 ((d64' .>> 38) .& 0xf) |};
    gpr_d := {|
      gpr_ctrl := nz ((d64' .>> 42) .& 0x1);
      gpr_data_mdid := u8 ((d64' .>> 43) .& 0x1f);
      gpr_data_start := u8 ((d64' .>> 48) .& 0xf);
      gpr_data_len := u8 ((d64' .>> 52) .& 0x1f);
      gpr_id := u8 (d64'' .& 0xf) |};
    flags := flags0 .| u64 (top .<< 61)
  |}.

End Metainit.

(** ** Parse graph CAM *)
Module PgCam.

Record ice_pg_cam_key := mkKey {
  valid : bool;
  node_id : Z;
  flag0 : bool; flag1 : bool; flag2 : bool; flag3 : bool;
  boost_idx : Z;
  alu_reg : Z;
  next_proto : Z
}.

Record ice_pg_nm_cam_key := mkNmKey {
  nm_valid : bool;
  nm_node_id : Z;
  nm_flag0 : bool; nm_flag1 : bool; nm_flag2 : bool; nm_flag3 : bool;
  nm_boost_idx : Z;
  nm_alu_reg : Z
}.

Record ice_pg_cam_action := mkAction {
  next_node : Z;
  next_pc : Z;
  is_pg : bool;
  proto_id : Z;
  is_mg : bool;
  marker_id : Z;
  is_last_round : bool;
  ho_polarity : bool;
  ho_inc : Z
}.

Record ice_pg_cam_item := mkItem {
  idx : Z;
  key : ice_pg_cam_key;
  action : ice_pg_cam_action
}.

Record ice_pg_nm_cam_item := mkNmItem {
  nm_idx : Z;
  nm_key : ice_pg_nm_cam_key;
  nm_action : ice_pg_cam_action
}.

Definition ICE_PG_CAM_TABLE_SIZE : Z := 2048.
Definition ICE_PG_SP_CAM_TABLE_SIZE : Z := 128.
Definition ICE_PG_NM_CAM_TABLE_SIZE : Z := 1024.
Definition ICE_PG_NM_SP_CAM_TABLE_SIZE : Z := 64.

#[global] Instance key_settable : Settable ice_pg_cam_key := fun r =>
  mkKey (valid r) (node_id r) (flag0 r) (flag1 r) (flag2 r) (flag3 r) (boost_idx r)
    (alu_reg r) (next_proto r).

Definition _pg_cam_action_init (data : Z) : ice_pg_cam_action := {|
  next_node := u16 (data .& 0x7ff);
  next_pc := u8 ((data .>> 11) .& 0xff);
  is_pg := nz ((data .>> 19) .& 0x1);
  proto_id := u8 ((data .>> 23) .& 0xff);
  is_mg := nz ((data .>> 31) .& 0x1);
  marker_id := u8 ((data .>> 32) .& 0xff);
  is_last_round := nz ((data .>> 40) .& 0x1);
  ho_polarity := nz ((data .>> 41) .& 0x1);
  ho_inc := u16 ((data .>> 42) .& 0x1ff)
|}.

Definition _pg_nm_cam_key_init (data : Z) : ice_pg_nm_cam_key := {|
  nm_valid := nz (data .& 0x1);
  nm_node_id := u16 ((data .>> 1) .& 0x7ff);
  nm_flag0 := nz ((data .>> 12) .& 0x1);
  nm_flag1 := nz ((data .>> 13) .& 0x1);
  nm_flag2 := nz ((data .>> 14) .& 0x1);
  nm_flag3 := nz ((data .>> 15) .& 0x1);
  nm_boost_idx := if nz ((data .>> 16) .& 0x1) then u8 ((data .>> 17) .& 0xff) else 0;
  nm_alu_reg := u16 ((data .>> 25) .& 0xffff)
|}.

(** [data] is the address of the key inside [buf]. *)
Definition _pg_cam_key_init (buf : list Z) (data : Z) : option ice_pg_cam_key :=
  d64 ← load 8 buf data;
  w5 ← load 4 buf (data + 5);
  b9 ← load 1 buf (data + 9);
  Some {|
    valid := nz (d64 .& 0x1);
    node_id := u16 ((d64 .>> 1) .& 0x7ff);
    flag0 := nz ((d64 .>> 12) .& 0x1);
    flag1 := nz ((d64 .>> 13) .& 0x1);
    flag2 := nz ((d64 .>> 14) .& 0x1);
    flag3 := nz ((d64 .>> 15) .& 0x1);
    boost_idx := if nz ((d64 .>> 16) .& 0x1) then u8 ((d64 .>> 17) .& 0xff) else 0;
    alu_reg := u16 ((d64 .>> 25) .& 0xffff);
    next_proto := (w5 .>> 1) .| u32 ((b9 .& 0x1) .<< 31)
  |}.

Definition _pg_cam_parse_item (index : Z) (buf : list Z) : option ice_pg_cam_item :=
  w9 ← load 8 buf 9;
  k ← _pg_cam_key_init buf 0;
  Some {| idx := index; key := k; action := _pg_cam_action_init (w9 .>> 1) |}.

Definition _pg_sp_cam_parse_item (index : Z) (buf : list Z) : option ice_pg_cam_item :=
  d64 ← load 8 buf 0;
  k ← _pg_cam_key_init buf 7;
  Some {| idx := index; key := k; action := _pg_cam_action_init d64 |}.

Definition _pg_nm_cam_parse_item (index : Z) (buf : list Z) : option ice_pg_nm_cam_item :=
  d64 ← load 8 buf 0;
  w5 ← load 8 buf 5;
  Some {| nm_idx := index; nm_key := _pg_nm_cam_key_init d64;
          nm_action := _pg_cam_action_init (w5 .>> 1) |}.

Definition _pg_nm_sp_cam_parse_item (index : Z) (buf : list Z)
    : option ice_pg_nm_cam_item :=
  d64 ← load 8 buf 0;
  w7 ← load 8 buf 7;
  Some {| nm_idx := index; nm_key := _pg_nm_cam_key_init w7;
          nm_action := _pg_cam_action_init d64 |}.

End PgCam.

(** ** Boost TCAM *)
Module BstTcam.
Import Imem.

Record ice_bst_tcam_item := mkBst {
  address : Z;
  key : list Z;
  key_inv : list Z;
  hit_idx_grp : Z;
  pg_pri : Z;
  np_kb : ice_np_keybuilder;
  pg_kb : ice_pg_keybuilder;
  alu0 : ice_alu;
  alu1 : ice_alu;
  alu2 : ice_alu
}.

#[global] Instance bst_settable : Settable ice_bst_tcam_item := fun r =>
  mkBst (address r) (key r) (key_inv r) (hit_idx_grp r) (pg_pri r) (np_kb r) (pg_kb r)
    (alu0 r) (alu1 r) (alu2 r).

(** Labels of the boost TCAM entries; [label] is the char array. *)
Record ice_lbl_item := mkLbl { lbl_idx : Z; label : list Z }.

Definition ICE_BST_TCAM_TABLE_SIZE : Z := 256.

Definition _bst_alu_init (buf : list Z) (data : Z) : option ice_alu :=
  w0 ← load 8 buf data;
  w6 ← load 8 buf (data + 6);
  let d64 := w0 .>> 7 in
  let d64' := w6 .>> 9 in
  Some {|
    opc := d64 .& 0x3f;
    src_start := u8 ((d64 .>> 6) .& 0xff);
    src_len := u8 ((d64 .>> 14) .& 0x1f);
    shift_xlate_select := nz ((d64 .>> 19) .& 0x1);
    shift_xlate_key := u8 ((d64 .>> 20) .& 0xf);
    src_reg_id := u8 ((d64 .>> 24) .& 0x7f);
    dst_reg_id := u8 ((d64 .>> 31) .& 0x7f);
    inc0 := nz ((d64 .>> 38) .& 0x1);
    inc1 := nz ((d64 .>> 39) .& 0x1);
    proto_offset_opc := u8 ((d64 .>> 40) .& 0x3);
    proto_offset := u8 ((d64 .>> 42) .& 0xff);
    branch_addr := u8 (d64' .& 0xff);
    imm := u16 ((d64' .>> 8) .& 0xffff);
    dedicate_flags_ena := nz ((d64' .>> 24) .& 0x1);
    dst_start := u8 ((d64' .>> 25) .& 0x3f);
    dst_len := u8 ((d64' .>> 31) .& 0x3f);
    flags_extr_imm := nz ((d64' .>> 37) .& 0x1);
    flags_start_imm := u8 ((d64' .>> 38) .& 0xff)
  |}.

Definition _bst_pgkb_init (data : Z) : ice_pg_keybuilder := {|
  flag0_ena := nz (data .& 0x1);
  flag0_idx := u8 ((data .>> 1) .& 0x3f);
  flag1_ena := nz ((data .>> 7) .& 0x1);
  flag1_idx := u8 ((data .>> 8) .& 0x3f);
  flag2_ena := nz ((data .>> 14) .& 0x1);
  flag2_idx := u8 ((data .>> 15) .& 0x3f);
  flag3_ena := nz ((data .>> 21) .& 0x1);
  flag3_idx := u8 ((data .>> 22) .& 0x3f);
  alu_reg_idx := u8 ((data .>> 28) .& 0x7f)
|}.

Definition _bst_npkb_init (data : Z) : ice_np_keybuilder := {|
  ops := u8 (data .& 0x3);
  start_or_reg0 := u8 ((data .>> 2) .& 0xff);
  len_or_reg1 := u8 ((data .>> 10) .& 0xff)
|}.

(** The index argument is not used: the entry carries its own address. *)
Definition _bst_parse_item (index : Z) (buf : list Z) : option ice_bst_tcam_item :=
  addr ← load 2 buf 0;
  k ← bytes_at 20 buf 4;
  ki ← bytes_at 20 buf 24;
  grp ← load 1 buf 44;
  b45 ← load 1 buf 45;
  w45 ← load 4 buf 45;
  w47 ← load 8 buf 47;
  a0 ← _bst_alu_init buf 51;
  a1 ← _bst_alu_init buf 63;
  a2 ← _bst_alu_init buf 75;
  Some {|
    address := addr;
    key := k;
    key_inv := ki;
    hit_idx_grp := grp;
    pg_pri := b45 .& 0x3;
    np_kb := _bst_npkb_init (w45 .>> 2);
    pg_kb := _bst_pgkb_init (w47 .>> 4);
    alu0 := a0;
    alu1 := a1;
    alu2 := a2
  |}.

(** [ice_parse_item_dflt] copies [sizeof(struct ice_lbl_item)] = 66 bytes over
    the item: the index and the 64 characters. *)
Definition _parse_lbl_item (index : Z) (buf : list Z) : option ice_lbl_item :=
  i ← load 2 buf 0;
  l ← bytes_at 64 buf 2;
  Some {| lbl_idx := i; label := l |}.

End BstTcam.

(** ** Packet type markers, marker groups, protocol groups and flag redirection *)
Module PtypeMk.

Record ice_ptype_mk_tcam_item := mkPtype {
  address : Z;
  ptype : Z;
  key : list Z;
  key_inv : list Z
}.

Definition ICE_PTYPE_MK_TCAM_TABLE_SIZE : Z := 1024.

(** The entry is copied by [ice_parse_item_dflt]: 24 bytes. *)
Definition _parse_ptype_mk_tcam_item (index : Z) (buf : list Z)
    : option ice_ptype_mk_tcam_item :=
  a ← load 2 buf 0;
  p ← load 2 buf 2;
  k ← bytes_at 10 buf 4;
  ki ← bytes_at 10 buf 14;
  Some {| address := a; ptype := p; key := k; key_inv := ki |}.

End PtypeMk.

Module MkGrp.

Record ice_mk_grp_item := mkMk { idx : Z; markers : list Z }.

Definition ICE_MK_GRP_TABLE_SIZE : Z := 128.
Definition ICE_MK_COUNT_PER_GRP : nat := 8.

Definition _mk_grp_parse_item (index : Z) (buf : list Z) : option ice_mk_grp_item :=
  m ← bytes_at ICE_MK_COUNT_PER_GRP buf 0;
  Some {| idx := index; markers := m |}.

End MkGrp.

Module ProtoGrp.

Record ice_proto_off := mkPo { polarity : bool; proto_id : Z; offset : Z }.

Record ice_proto_grp_item := mkPg { idx : Z; po : list ice_proto_off }.

Definition ICE_PROTO_COUNT_PER_GRP : Z := 8.
Definition ICE_PROTO_GRP_TABLE_SIZE : Z := 192.

Definition _proto_off_parse (data : Z) : ice_proto_off := {|
  polarity := nz (data .& 0x1);
  proto_id := u8 ((data .>> 1) .& 0xff);
  offset := u16 ((data .>> 12) .& 0x3ff)
|}.

Definition _proto_grp_parse_item (index : Z) (buf : list Z) : option ice_proto_grp_item :=
  d0 ← load 4 buf 0;
  d1 ← load 4 buf 2;
  d2 ← load 4 buf 5;
  d3 ← load 4 buf 8;
  d4 ← load 4 buf 11;
  d5 ← load 4 buf 13;
  d6 ← load 4 buf 16;
  d7 ← load 4 buf 19;
  Some {| idx := index; po := [
    _proto_off_parse d0;
    _proto_off_parse (d1 .>> 6);
    _proto_off_parse (d2 .>> 4);
    _proto_off_parse (d3 .>> 2);
    _proto_off_parse d4;
    _proto_off_parse (d5 .>> 6);
    _proto_off_parse (d6 .>> 4);
    _proto_off_parse (d7 .>> 2)] |}.

End ProtoGrp.

Module FlgRd.

Record ice_flg_rd_item := mkFlg { idx : Z; expose : bool; intr_flg_id : Z }.

Definition ICE_FLG_RD_TABLE_SIZE : Z := 64.

Definition _flg_rd_parse_item (index : Z) (buf : list Z) : option ice_flg_rd_item :=
  d8 ← load 1 buf 0;
  Some {| idx := index; expose := nz (d8 .& 0x1);
          intr_flg_id := u8 ((d8 .>> 1) .& 0x3f) |}.

End FlgRd.

(** ** XLT key builder *)
Module XltKb.

Record ice_xlt_kb_entry := mkKbe {
  xlt1_ad_sel : Z;
  xlt2_ad_sel : Z;
  flg0_14_sel : list Z;
  xlt1_md_sel : Z;
  xlt2_md_sel : Z
}.

Record ice_xlt_kb := mkKb {
  xlt1_pm : Z;
  xlt2_pm : Z;
  prof_id_pm : Z;
  flag15 : Z;
  entries : list ice_xlt_kb_entry
}.

Definition ICE_XLT_KB_TBL_CNT : nat := 8.
Definition ICE_XLT_KB_TBL_OFF : Z := 12.
Definition ICE_XLT_KB_TBL_ENTRY_SIZE : Z := 24.

Definition _kb_entry_init (buf : list Z) (data : Z) : option ice_xlt_kb_entry :=
  w4 ← load 8 buf (data + 4);
  w11 ← load 8 buf (data + 11);
  w18 ← load 8 buf (data + 18);
  let d64 := w4 in
  let d64' := w11 .>> 4 in
  let d64'' := w18 .>> 2 in
  Some {|
    xlt1_ad_sel := u8 (d64 .& 0x7);
    xlt2_ad_sel := u8 ((d64 .>> 3) .& 0x7);
    flg0_14_sel := [
      u16 ((d64 .>> 6) .& 0x1ff); u16 ((d64 .>> 15) .& 0x1ff);
      u16 ((d64 .>> 24) .& 0x1ff); u16 ((d64 .>> 33) .& 0x1ff);
      u16 ((d64 .>> 42) .& 0x1ff); u16 ((d64 .>> 51) .& 0x1ff);
      u16 (d64' .& 0x1ff); u16 ((d64' .>> 9) .& 0x1ff);
      u16 ((d64' .>> 18) .& 0x1ff); u16 ((d64' .>> 27) .& 0x1ff);
      u16 ((d64' .>> 36) .& 0x1ff); u16 ((d64' .>> 45) .& 0x1ff);
      u16 (d64'' .& 0x1ff); u16 ((d64'' .>> 9) .& 0x1ff);
      u16 ((d64'' .>> 18) .& 0x1ff)];
    xlt1_md_sel := u8 ((d64'' .>> 36) .& 0x1f);
    xlt2_md_sel := u8 ((d64'' .>> 41) .& 0x1f)
  |}.

Fixpoint kb_entries (n : nat) (buf : list Z) (data : Z) : option (list ice_xlt_kb_entry) :=
  match n with
  | O => Some []
  | S n' =>
      e ← _kb_entry_init buf data;
      es ← kb_entries n' buf (data + ICE_XLT_KB_TBL_ENTRY_SIZE);
      Some (e :: es)
  end.

Definition _parse_kb_data (buf : list Z) : option ice_xlt_kb :=
  b0 ← load 1 buf 0;
  b1 ← load 1 buf 1;
  b2 ← load 1 buf 2;
  f15 ← load 8 buf 4;
  es ← kb_entries ICE_XLT_KB_TBL_CNT buf ICE_XLT_KB_TBL_OFF;
  Some {| xlt1_pm := b0; xlt2_pm := b1; prof_id_pm := b2; flag15 := f15; entries := es |}.

End XltKb.

(** ** The documented entry formats

    Each format is stated on the entry as one number [x]: a field is the [slice]
    of [x] at its bit position, a flag the bit of [x] at its position. *)
Section formats.
Variable x : Z.

Definition bm_at (p : Z) : Imem.ice_bst_main :=
  Imem.mkBm (Z.testbit x p) (Z.testbit x (p + 1)) (Z.testbit x (p + 2))
    (Z.testbit x (p + 3)).

Definition bkb_at (p : Z) : Imem.ice_bst_keybuilder :=
  Imem.mkBkb (slice x p 8) (Z.testbit x (p + 8)).

Definition npkb_at (p : Z) : Imem.ice_np_keybuilder :=
  Imem.mkNpkb (slice x p 2) (slice x (p + 2) 8) (slice x (p + 10) 8).

Definition pgkb_at (p : Z) : Imem.ice_pg_keybuilder :=
  Imem.mkPgkb (Z.testbit x p) (Z.testbit x (p + 7)) (Z.testbit x (p + 14))
    (Z.testbit x (p + 21)) (slice x (p + 1) 6) (slice x (p + 8) 6)
    (slice x (p + 15) 6) (slice x (p + 22) 6) (slice x (p + 28) 7).

Definition alu_at (p : Z) : Imem.ice_alu :=
  Imem.mkAlu (slice x p 6) (slice x (p + 6) 8) (slice x (p + 14) 5)
    (Z.testbit x (p + 19)) (slice x (p + 20) 4) (slice x (p + 24) 7)
    (slice x (p + 31) 7) (Z.testbit x (p + 38)) (Z.testbit x (p + 39))
    (slice x (p + 40) 2) (slice x (p + 42) 8) (slice x (p + 50) 8)
    (slice x (p + 58) 16) (Z.testbit x (p + 74)) (slice x (p + 75) 6)
    (slice x (p + 81) 6) (Z.testbit x (p + 87)) (slice x (p + 88) 8).

Definition imem_at (index : Z) : Imem.ice_imem_item :=
  Imem.mkImem index (bm_at 0) (bkb_at 4) (slice x 14 2) (npkb_at 16) (pgkb_at 34)
    (alu_at 69) (alu_at 165) (alu_at 261).

Definition gpr_at (p q : Z) : Metainit.gpr_init :=
  Metainit.mkGpr (Z.testbit x p) (slice x (p + 1) 5) (slice x (p + 6) 4)
    (slice x (p + 10) 5) (slice x q 4).

(** The parse graph root node field has ten bits in the code. *)
Definition metainit_at (index : Z) : Metainit.ice_metainit_item :=
  Metainit.mkMeta index (slice x 0 8) (slice x 8 9) (slice x 17 8) (slice x 25 10)
    (slice x 36 3) (gpr_at 39 56) (gpr_at 60 77) (gpr_at 81 98) (gpr_at 102 119)
    (slice x 123 64).

Definition action_at (p : Z) : PgCam.ice_pg_cam_action :=
  PgCam.mkAction (slice x p 11) (slice x (p + 11) 8) (Z.testbit x (p + 19))
    (slice x (p + 23) 8) (Z.testbit x (p + 31)) (slice x (p + 32) 8)
    (Z.testbit x (p + 40)) (Z.testbit x (p + 41)) (slice x (p + 42) 9).

(** The boost index of the key at [p], present when the boost hit bit is set. *)
Definition boost_at (p : Z) : Z := if Z.testbit x (p + 16) then slice x (p + 17) 8 else 0.

Definition nm_key_at (p : Z) : PgCam.ice_pg_nm_cam_key :=
  PgCam.mkNmKey (Z.testbit x p) (slice x (p + 1) 11) (Z.testbit x (p + 12))
    (Z.testbit x (p + 13)) (Z.testbit x (p + 14)) (Z.testbit x (p + 15))
    (boost_at p) (slice x (p + 25) 16).

Definition key_at (p : Z) : PgCam.ice_pg_cam_key :=
  PgCam.mkKey (Z.testbit x p) (slice x (p + 1) 11) (Z.testbit x (p + 12))
    (Z.testbit x (p + 13)) (Z.testbit x (p + 14)) (Z.testbit x (p + 15))
    (boost_at p) (slice x (p + 25) 16) (slice x (p + 41) 32).

Definition proto_off_at (p : Z) : ProtoGrp.ice_proto_off :=
  ProtoGrp.mkPo (Z.testbit x p) (slice x (p + 1) 8) (slice x (p + 12) 10).

Definition kb_entry_at (p : Z) : XltKb.ice_xlt_kb_entry :=
  XltKb.mkKbe (slice x (p + 32) 3) (slice x (p + 35) 3)
    ((fun k => slice x (p + 38 + 9 * Z.of_nat k) 9) <$> seq 0 15)
    (slice x (p + 182) 5) (slice x (p + 187) 5).

End formats.

(** ** Decoding lemmas *)

(** A single-bit mask selects one bit of a loaded word. *)
Lemma nz_land_bit y k mask : 0 <= k → mask = 2 ^ k → nz (y .& mask) = Z.testbit y k.
Proof.
  intros Hk ->. rewrite <- nz_slice1 by done. unfold nz. f_equal.
  assert (y .& 2 ^ k = slice y k 1 * 2 ^ k) as ->.
  { rewrite <- Z.shiftl_mul_pow2 by done. apply Z.bits_inj'. intros i Hi.
    rewrite Z.land_spec, Z.pow2_bits_eqb by done.
    rewrite Z.shiftl_spec by done. destruct (Z.eqb_spec k i) as [->|].
    - rewrite andb_true_r, slice_bit by lia. rewrite Z.sub_diag. simpl. by rewrite Z.add_0_r.
    - rewrite andb_false_r. destruct (Z.ltb_spec i k).
      + rewrite Z.testbit_neg_r by lia. done.
      + rewrite (testbit_above 1) by (lia || (apply slice_width; lia)). done. }
  assert (0 < 2 ^ k) by (by apply Z.pow_pos_nonneg).
  destruct (Z.eqb_spec (slice y k 1 * 2 ^ k) 0), (Z.eqb_spec (slice y k 1) 0); nia || done.
Qed.

(** A slice shifted left fits where its bits fit. *)
Lemma wrap_shl_slice w y p n k : 0 <= n → 0 <= k → n + k <= w →
  wrap w (slice y p n .<< k) = slice y p n .<< k.
Proof.
  intros. apply wrap_small. rewrite Z.shiftl_mul_pow2 by done.
  assert (in_width n (slice y p n)) as Hw by (by apply slice_width).
  unfold in_width in *. apply in_width_weaken with (n + k); [done|].
  unfold in_width. rewrite Z.pow_add_r by done.
  assert (0 < 2 ^ k) by (by apply Z.pow_pos_nonneg). nia.
Qed.

(** Two adjacent slices combined with [|] and [<<] are one slice. *)
Lemma slice_join y a m n v :
  0 <= a → 0 <= m → 0 <= n → v = slice y (a + m) n → slice y a m .| (v .<< m) = slice y a (m + n).
Proof.
  intros ? ? ? ->. apply Z.bits_inj'. intros i Hi.
  rewrite Z.lor_spec, Z.shiftl_spec by done.
  rewrite (slice_bit y a m), (slice_bit y a (m + n)) by lia.
  destruct (Z.ltb_spec i m), (Z.ltb_spec i (m + n)); try lia; simpl.
  - rewrite (Z.testbit_neg_r _ (i - m)) by lia. apply orb_false_r.
  - rewrite slice_bit, (proj2 (Z.ltb_lt _ _)) by lia. simpl. f_equal. lia.
  - rewrite slice_bit, (proj2 (Z.ltb_ge _ _)) by lia. done.
Qed.

Section decoding.
Variable buf : list Z.
Hypothesis Hbuf : bytes_ok buf.

(** Bring both sides to slices of [le buf] and compare positions. *)
Local Ltac decode_positions :=
  to_slice; simpl; to_slice; repeat (f_equal; try lia).

Lemma imem_alu_decode data : 0 <= data → data + 15 <= Z.of_nat (length buf) →
  Imem._imem_alu_init buf data = Some (alu_at (le buf) (8 * data + 5)).
Proof.
  intros. unfold Imem._imem_alu_init, alu_at. decode_positions.
Qed.

Lemma bst_alu_decode data : 0 <= data → data + 14 <= Z.of_nat (length buf) →
  BstTcam._bst_alu_init buf data = Some (alu_at (le buf) (8 * data + 7)).
Proof.
  intros. unfold BstTcam._bst_alu_init, alu_at. decode_positions.
Qed.

Lemma pg_action_decode p m : 0 <= p → 51 <= m →
  PgCam._pg_cam_action_init (slice (le buf) p m) = action_at (le buf) p.
Proof. intros. unfold PgCam._pg_cam_action_init, action_at. decode_positions. Qed.

Lemma pg_nm_key_decode p m : 0 <= p → 41 <= m →
  PgCam._pg_nm_cam_key_init (slice (le buf) p m) = nm_key_at (le buf) p.
Proof. intros. unfold PgCam._pg_nm_cam_key_init, nm_key_at, boost_at. decode_positions. Qed.

Lemma pg_key_decode data : 0 <= data → data + 10 <= Z.of_nat (length buf) →
  PgCam._pg_cam_key_init buf data = Some (key_at (le buf) (8 * data)).
Proof.
  intros. unfold PgCam._pg_cam_key_init, key_at, boost_at.
  to_slice. cbn [mbind option_bind]. to_slice. repeat (f_equal; try lia).
  rewrite wrap_shl_slice by lia.
  rewrite (slice_join _ _ 31 1); [repeat (f_equal; try lia)|lia..|].
  f_equal; lia.
Qed.

Lemma proto_off_decode p m : 0 <= p → 22 <= m →
  ProtoGrp._proto_off_parse (slice (le buf) p m) = proto_off_at (le buf) p.
Proof. intros. unfold ProtoGrp._proto_off_parse, proto_off_at. decode_positions. Qed.

Lemma kb_entry_decode data : 0 <= data → data + 26 <= Z.of_nat (length buf) →
  XltKb._kb_entry_init buf data = Some (kb_entry_at (le buf) (8 * data)).
Proof. intros. unfold XltKb._kb_entry_init, kb_entry_at. decode_positions. Qed.

Lemma kb_entries_decode n data : 0 <= data →
  data + XltKb.ICE_XLT_KB_TBL_ENTRY_SIZE * Z.of_nat n + 2 <= Z.of_nat (length buf) →
  XltKb.kb_entries n buf data =
    Some ((fun i => kb_entry_at (le buf)
             (8 * (data + XltKb.ICE_XLT_KB_TBL_ENTRY_SIZE * Z.of_nat i))) <$> seq 0 n).
Proof.
  unfold XltKb.ICE_XLT_KB_TBL_ENTRY_SIZE.
  revert data. induction n as [|n IH]; intros data Hd Hlen; [done|].
  cbn [XltKb.kb_entries]. rewrite kb_entry_decode by lia. simpl.
  unfold XltKb.ICE_XLT_KB_TBL_ENTRY_SIZE. rewrite IH by lia. simpl.
  rewrite <- fmap_S_seq, <- list_fmap_compose. f_equal. f_equal; [f_equal; lia|].
  apply list_fmap_ext. intros ? i _. simpl. f_equal. lia.
Qed.

Lemma bm_decode m : 4 <= m →
  Imem._imem_bm_init (slice (le buf) 0 m) = bm_at (le buf) 0.
Proof.
  intros. unfold Imem._imem_bm_init, bm_at.
  rewrite (nz_land_bit _ 0 0x1), (nz_land_bit _ 1 0x2), (nz_land_bit _ 2 0x4),
    (nz_land_bit _ 3 0x8) by done.
  rewrite !slice_bit by lia. rewrite !(proj2 (Z.ltb_lt _ m)) by lia. done.
Qed.

Lemma bkb_decode p m : 0 <= p → 9 <= m →
  Imem._imem_bkb_init (slice (le buf) p m) = bkb_at (le buf) p.
Proof.
  intros. unfold Imem._imem_bkb_init, bkb_at.
  rewrite (nz_land_bit _ 8 0x100) by done. rewrite slice_bit by lia.
  rewrite (proj2 (Z.ltb_lt 8 m)) by lia. by to_slice.
Qed.

Lemma npkb_decode p m : 0 <= p → 18 <= m →
  Imem._imem_npkb_init (slice (le buf) p m) = npkb_at (le buf) p.
Proof. intros. unfold Imem._imem_npkb_init, npkb_at. decode_positions. Qed.

Lemma pgkb_decode p m : 0 <= p → 35 <= m →
  Imem._imem_pgkb_init (slice (le buf) p m) = pgkb_at (le buf) p.
Proof. intros. unfold Imem._imem_pgkb_init, pgkb_at. decode_positions. Qed.

(** The two top bits of a byte, as [(b & 0xc0) >> 6]. *)
Lemma top_bits_decode p : 0 <= p →
  (slice (le buf) p 8 .& 0xc0) .>> 6 = slice (le buf) (p + 6) 2.
Proof.
  intros. rewrite Z.shiftr_land. change (0xc0 .>> 6) with 0x3. by to_slice.
Qed.

End decoding.

(** ** Field positions *)

(** Instruction memory: the 48 bytes of an entry decode to the item whose
    fields are at the documented bit positions, including the three 96-bit ALU
    instructions, which start in the middle of a byte. *)
Theorem imem_decode index buf : bytes_ok buf → 48 <= Z.of_nat (length buf) →
  Imem._imem_parse_item index buf = Some (imem_at (le buf) index).
Proof.
  intros Hok Hlen. unfold Imem._imem_parse_item.
  rewrite !load_in_range by (done || lia). simpl.
  rewrite !imem_alu_decode by (done || lia). simpl. unfold imem_at.
  rewrite !shiftr_slice by lia.
  rewrite bm_decode, bkb_decode, npkb_decode, pgkb_decode, top_bits_decode by lia.
  by rewrite wrap_slice by lia.
Qed.

(** Metadata initialisation: the 24 bytes of an entry decode to the item
    whose fields are at the documented bit positions (the root node field being
    ten bits wide), the 64 flags being reassembled from two reads. *)
Theorem metainit_decode index buf : bytes_ok buf → 24 <= Z.of_nat (length buf) →
  Metainit._metainit_parse_item index buf = Some (metainit_at (le buf) index).
Proof.
  intros Hok Hlen. unfold Metainit._metainit_parse_item, metainit_at, gpr_at.
  to_slice. simpl. to_slice. repeat f_equal.
  rewrite wrap_shl_slice by lia. by apply (slice_join _ 123 61 3).
Qed.

(** Parse graph CAM: in all four table formats (match, match spill, no
    match, no match spill) key and action decode to the fields at their bit
    positions, the boost index being present only when the boost hit bit is
    set. *)
Theorem pg_cam_decode index buf : bytes_ok buf → 17 <= Z.of_nat (length buf) →
  let x := le buf in
  PgCam._pg_cam_parse_item index buf
    = Some (PgCam.mkItem index (key_at x 0) (action_at x 73)) ∧
  PgCam._pg_sp_cam_parse_item index buf
    = Some (PgCam.mkItem index (key_at x 56) (action_at x 0)) ∧
  PgCam._pg_nm_cam_parse_item index buf
    = Some (PgCam.mkNmItem index (nm_key_at x 0) (action_at x 41)) ∧
  PgCam._pg_nm_sp_cam_parse_item index buf
    = Some (PgCam.mkNmItem index (nm_key_at x 56) (action_at x 0)).
Proof.
  intros Hok Hlen.
  unfold PgCam._pg_cam_parse_item, PgCam._pg_sp_cam_parse_item,
    PgCam._pg_nm_cam_parse_item, PgCam._pg_nm_sp_cam_parse_item.
  rewrite !load_in_range by (done || lia). simpl.
  rewrite !pg_key_decode by (done || lia). simpl.
  rewrite !shiftr_slice by lia. rewrite !pg_action_decode, !pg_nm_key_decode by lia.
  done.
Qed.

(** The boost TCAM's format: the key bytes are copied, the rest is at its bit
    positions. *)
Definition bst_at (buf : list Z) : BstTcam.ice_bst_tcam_item :=
  let x := le buf in
  BstTcam.mkBst (slice x 0 16) (take 20 (drop 4 buf)) (take 20 (drop 24 buf))
    (slice x 352 8) (slice x 360 2) (npkb_at x 362) (pgkb_at x 380)
    (alu_at x 415) (alu_at x 511) (alu_at x 607).

Lemma bytes_at_in_range n buf off : 0 <= off → off + Z.of_nat n <= Z.of_nat (length buf) →
  bytes_at n buf off = Some (take n (drop (Z.to_nat off) buf)).
Proof.
  intros. unfold bytes_at. by rewrite (proj2 (Z.leb_le _ _)), (proj2 (Z.leb_le _ _)) by lia.
Qed.

(** Boost TCAM: the entry decodes to the key, the inverted key and the
    key builders and ALU instructions at their bit positions; because of the
    last 64-bit read the code needs one byte more than the 88 of the entry, and
    reads outside the package when there is none. *)
Theorem bst_tcam_decode index buf : bytes_ok buf → 88 <= Z.of_nat (length buf) →
  BstTcam._bst_parse_item index buf =
    if Z.of_nat (length buf) =? 88 then None else Some (bst_at buf).
Proof.
  intros Hok Hlen. unfold BstTcam._bst_parse_item.
  rewrite !load_in_range, !bytes_at_in_range by (done || lia). simpl.
  rewrite (bst_alu_decode _ Hok 51), (bst_alu_decode _ Hok 63) by (done || lia). simpl.
  destruct (Z.eqb_spec (Z.of_nat (length buf)) 88) as [E|].
  - unfold BstTcam._bst_alu_init. rewrite (load_in_range 8 buf 75) by (done || lia). simpl.
    unfold load, bytes_at. rewrite (proj2 (Z.leb_gt (75 + 6 + Z.of_nat 8) _)) by lia. by rewrite andb_false_r.
  - rewrite (bst_alu_decode _ Hok 75) by (done || lia). simpl. unfold bst_at.
    rewrite !shiftr_slice by lia.
    change BstTcam._bst_npkb_init with Imem._imem_npkb_init.
    change BstTcam._bst_pgkb_init with Imem._imem_pgkb_init.
    rewrite npkb_decode, pgkb_decode by lia. by to_slice.
Qed.

(** Protocol groups and flag redirection: the eight 22-bit protocol offsets
    of a group are consecutive, although each is read from its own unaligned
    word, and a flag redirection byte decodes to its two fields. *)
Theorem proto_grp_decode index buf : bytes_ok buf → 23 <= Z.of_nat (length buf) →
  ProtoGrp._proto_grp_parse_item index buf =
    Some (ProtoGrp.mkPg index
      ((fun i => proto_off_at (le buf) (22 * Z.of_nat i)) <$> seq 0 8)) ∧
  FlgRd._flg_rd_parse_item index buf =
    Some (FlgRd.mkFlg index (Z.testbit (le buf) 0) (slice (le buf) 1 6)).
Proof.
  intros Hok Hlen. unfold ProtoGrp._proto_grp_parse_item, FlgRd._flg_rd_parse_item.
  rewrite !load_in_range by (done || lia). simpl.
  rewrite !shiftr_slice by lia. rewrite !proto_off_decode by lia.
  split; [done|by to_slice].
Qed.

(** XLT key builder: the partition modes and the flag mask are at their byte
    positions and the eight 192-bit entries follow from byte 12, each with its
    fifteen 9-bit flag selectors; the last read needs two bytes after the table. *)
Theorem xlt_kb_decode buf : bytes_ok buf → 206 <= Z.of_nat (length buf) →
  XltKb._parse_kb_data buf =
    Some (XltKb.mkKb (slice (le buf) 0 8) (slice (le buf) 8 8) (slice (le buf) 16 8)
      (slice (le buf) 32 64)
      ((fun i => kb_entry_at (le buf) (96 + 192 * Z.of_nat i)) <$> seq 0 8)).
Proof.
  intros Hok Hlen. unfold XltKb._parse_kb_data, XltKb.ICE_XLT_KB_TBL_CNT, XltKb.ICE_XLT_KB_TBL_OFF.
  rewrite !load_in_range by (done || lia). cbn [mbind option_bind].
  rewrite kb_entries_decode by (done || (unfold XltKb.ICE_XLT_KB_TBL_ENTRY_SIZE; lia)).
  done.
Qed.

(** ** Concrete entries *)

Definition demo_entry : list Z :=
  (fun i => (37 * Z.of_nat i + 11) mod 256) <$> seq 0 206.

Lemma demo_entry_ok : bytes_ok demo_entry.
Proof. apply Forall_fmap, Forall_true. intros i. apply Z.mod_pos_bound. lia. Qed.

Lemma imem_decode_witness :
  Imem._imem_parse_item 3 demo_entry = Some (imem_at (le demo_entry) 3).
Proof. apply imem_decode; [exact demo_entry_ok|vm_compute; done]. Defined.

Lemma metainit_decode_witness :
  Metainit._metainit_parse_item 3 demo_entry = Some (metainit_at (le demo_entry) 3).
Proof. apply metainit_decode; [exact demo_entry_ok|vm_compute; done]. Defined.

Lemma pg_cam_decode_witness :
  PgCam._pg_cam_parse_item 3 demo_entry
    = Some (PgCam.mkItem 3 (key_at (le demo_entry) 0) (action_at (le demo_entry) 73)).
Proof. apply (pg_cam_decode 3 demo_entry); [exact demo_entry_ok|vm_compute; done]. Defined.

Lemma bst_tcam_decode_witness :
  BstTcam._bst_parse_item 3 (take 88 demo_entry) = None.
Proof.
  rewrite (bst_tcam_decode 3 (take 88 demo_entry)); [done| |vm_compute; done].
  apply Forall_take. exact demo_entry_ok.
Defined.

Lemma proto_grp_decode_witness :
  FlgRd._flg_rd_parse_item 3 demo_entry =
    Some (FlgRd.mkFlg 3 (Z.testbit (le demo_entry) 0) (slice (le demo_entry) 1 6)).
Proof. apply (proto_grp_decode 3 demo_entry); [exact demo_entry_ok|vm_compute; done]. Defined.

Lemma xlt_kb_decode_witness :
  XltKb._parse_kb_data demo_entry =
    Some (XltKb.mkKb (slice (le demo_entry) 0 8) (slice (le demo_entry) 8 8)
      (slice (le demo_entry) 16 8) (slice (le demo_entry) 32 64)
      ((fun i => kb_entry_at (le demo_entry) (96 + 192 * Z.of_nat i)) <$> seq 0 8)).
Proof. apply xlt_kb_decode; [exact demo_entry_ok|vm_compute; done]. Defined.
