(* ===== verification/IceMatch.v ===== *)
(** * Matching against the parser tables

    Ternary matching (ice_tmatch.h), the searches of the parse graph CAMs, the
    boost TCAM, the boost labels and the packet type markers (ice_pg_cam.c,
    ice_bst_tcam.c, ice_ptype_mk.c), flag redirection (ice_flg_rd.c) and the key
    builder flags (ice_xlt_kb.c).  A search returns the index of the item whose
    address the C function returns; [None] inside the result is [NULL].  Outside,
    [None] is an access outside an array or a shift by 64 bits or more. *)
From S2P Require Import Prelude IceTables.

(** ** Ternary matching *)

Fixpoint ternary_match_bits (n : nat) (i key key_inv pat : Z) : bool :=
  match n with
  | O => true
  | S n' =>
      let k1 := u8 (key .& (1 .<< i)) in
      let k2 := u8 (key_inv .& (1 .<< i)) in
      let v := u8 (pat .& (1 .<< i)) in
      if nz k1 && nz k2 then ternary_match_bits n' (i + 1) key key_inv pat
      else if (k1 =? 0) && (k2 =? 0) then false
      else if k1 =? v then false
      else ternary_match_bits n' (i + 1) key key_inv pat
  end.

Definition ice_ternary_match_byte (key key_inv pat : Z) : bool :=
  ternary_match_bits 8 0 key key_inv pat.

Fixpoint ternary_match_bytes (n : nat) (i : Z) (key key_inv pat : list Z) : option bool :=
  match n with
  | O => Some true
  | S n' =>
      k ← rd key i;
      ki ← rd key_inv i;
      p ← rd pat i;
      if negb (ice_ternary_match_byte k ki p) then Some false
      else ternary_match_bytes n' (i + 1) key key_inv pat
  end.

Definition ice_ternary_match (key key_inv pat : list Z) (len : Z) : option bool :=
  ternary_match_bytes (Z.to_nat len) 0 key key_inv pat.

(** ** Table search *)

(** The loop the search functions share: the index of the first of the [n]
    items from [i] on which [f] holds. *)
Fixpoint first_match {A} (f : A → option bool) (n : nat) (i : Z) (table : list A)
    : option (option Z) :=
  match n with
  | O => Some None
  | S n' =>
      item ← rd table i;
      hit ← f item;
      if hit : bool then Some (Some i) else first_match f n' (i + 1) table
  end.

Section pg_cam.
Import PgCam.

Definition _pg_cam_match (item : ice_pg_cam_item) (k : ice_pg_cam_key) : bool :=
  if negb (valid (key item))
     || negb (node_id (key item) =? node_id k)
     || negb (eqb (flag0 (key item)) (flag0 k))
     || negb (eqb (flag1 (key item)) (flag1 k))
     || negb (eqb (flag2 (key item)) (flag2 k))
     || negb (eqb (flag3 (key item)) (flag3 k))
     || negb (boost_idx (key item) =? boost_idx k)
     || negb (alu_reg (key item) =? alu_reg k)
     || negb (next_proto (key item) =? next_proto k)
  then false else true.

Definition _pg_nm_cam_match (item : ice_pg_nm_cam_item) (k : ice_pg_cam_key) : bool :=
  if negb (nm_valid (nm_key item))
     || negb (nm_node_id (nm_key item) =? node_id k)
     || negb (eqb (nm_flag0 (nm_key item)) (flag0 k))
     || negb (eqb (nm_flag1 (nm_key item)) (flag1 k))
     || negb (eqb (nm_flag2 (nm_key item)) (flag2 k))
     || negb (eqb (nm_flag3 (nm_key item)) (flag3 k))
     || negb (nm_boost_idx (nm_key item) =? boost_idx k)
     || negb (nm_alu_reg (nm_key item) =? alu_reg k)
  then false else true.

Definition ice_pg_cam_match (table : list ice_pg_cam_item) (size : Z) (k : ice_pg_cam_key)
    : option (option Z) :=
  first_match (fun item => Some (_pg_cam_match item k)) (Z.to_nat size) 0 table.

Definition ice_pg_nm_cam_match (table : list ice_pg_nm_cam_item) (size : Z)
    (k : ice_pg_cam_key) : option (option Z) :=
  first_match (fun item => Some (_pg_nm_cam_match item k)) (Z.to_nat size) 0 table.

End pg_cam.

Section tcam.
Import BstTcam.

Definition ice_bst_tcam_match (tcam_table : list ice_bst_tcam_item) (pat : list Z)
    : option (option Z) :=
  first_match (fun item =>
    if hit_idx_grp item =? 0 then Some false
    else ice_ternary_match (key item) (key_inv item) pat 20)
    (Z.to_nat ICE_BST_TCAM_TABLE_SIZE) 0 tcam_table.

Definition ice_ptype_mk_tcam_match (table : list PtypeMk.ice_ptype_mk_tcam_item)
    (pat : list Z) (len : Z) : option (option Z) :=
  first_match (fun item =>
    ice_ternary_match (PtypeMk.key item) (PtypeMk.key_inv item) pat len)
    (Z.to_nat PtypeMk.ICE_PTYPE_MK_TCAM_TABLE_SIZE) 0 table.

(** Length of a C string in an array; [None] when the array has no terminator. *)
Fixpoint strlen (s : list Z) : option Z :=
  match s with
  | [] => None
  | c :: s' => if c =? 0 then Some 0 else n ← strlen s'; Some (n + 1)
  end.

(** [prefix] is a string literal, without its terminator. *)
Definition _start_with (prefix string : list Z) : option bool :=
  let len1 := Z.of_nat (length prefix) in
  len2 ← strlen string;
  if len2 <? len1 then Some false
  else Some (bool_decide (take (length prefix) string = prefix)).

(** Search from [*start]; the result is the index of the item in the TCAM table
    and the new [*start]. *)
Definition ice_bst_tcam_search (lbl_table : list ice_lbl_item) (prefix : list Z) (start : Z)
    : option (option (Z * Z)) :=
  m ← first_match (fun l => _start_with prefix (label l))
        (Z.to_nat (ICE_BST_TCAM_TABLE_SIZE - start)) start lbl_table;
  match m with
  | None => Some None
  | Some i => l ← rd lbl_table i; Some (Some (lbl_idx l, i))
  end.

End tcam.

(** ** Flags *)

(** [1ul << k]; undefined for [k] of 64 or more. *)
Definition bit64 (k : Z) : option Z :=
  if (0 <=? k) && (k <? 64) then Some (u64 (1 .<< k)) else None.

Definition ice_flg_redirect (table : list FlgRd.ice_flg_rd_item) (psr_flg : Z) : option Z :=
  for_range 0 64 (fun i flg =>
    item ← rd table i;
    if negb (FlgRd.expose item) then Some flg
    else
      b ← bit64 (FlgRd.intr_flg_id item);
      bi ← bit64 i;
      Some (if nz (psr_flg .& b) then flg .| bi else flg)) 0.

Definition ice_xlt_kb_flag_get (kb : XltKb.ice_xlt_kb) (pkt_flag : Z) : option Z :=
  entry ← rd (XltKb.entries kb) 0;
  let flg := if nz (XltKb.flag15 kb .& pkt_flag) then u16 (1 .<< 15) else 0 in
  for_range 0 15 (fun i flg =>
    sel ← rd (XltKb.flg0_14_sel entry) i;
    b ← bit64 (u16 (sel .& 0x3f));
    Some (if nz (pkt_flag .& b) then u16 (flg .| u16 (1 .<< i)) else flg)) flg.

(** ** Lemmas *)

(** What a (key, inverted key) bit pair says about a pattern bit. *)
Definition bit_match (k ki v : bool) : bool :=
  match k, ki with
  | true, true => true
  | false, false => false
  | true, false => negb v
  | false, true => v
  end.

Lemma bit_of_byte y i : 0 <= i < 8 →
  u8 (y .& (1 .<< i)) = if Z.testbit y i then 2 ^ i else 0.
Proof.
  intros. rewrite Z.shiftl_1_l. apply Z.bits_inj'. intros j Hj.
  rewrite testbit_wrap, Z.land_spec, Z.pow2_bits_eqb by lia.
  destruct (Z.testbit y i) eqn:E.
  - rewrite Z.pow2_bits_eqb by lia. destruct (Z.eqb_spec i j) as [->|].
    + rewrite E, (proj2 (Z.ltb_lt j 8)) by lia. done.
    + by rewrite andb_false_r, andb_false_r.
  - rewrite Z.testbit_0_l. destruct (Z.eqb_spec i j) as [->|].
    + by rewrite E, andb_false_r.
    + by rewrite andb_false_r, andb_false_r.
Qed.

Lemma ternary_match_bits_spec n i key key_inv pat :
  0 <= i → i + Z.of_nat n <= 8 →
  ternary_match_bits n i key key_inv pat = true ↔
  ∀ j, i <= j < i + Z.of_nat n →
    bit_match (Z.testbit key j) (Z.testbit key_inv j) (Z.testbit pat j) = true.
Proof.
  revert i. induction n as [|n IH]; intros i Hi Hn; [split; [lia|done]|].
  assert (0 < 2 ^ i) as Hp by (apply Z.pow_pos_nonneg; lia).
  assert ((∀ j, i <= j < i + Z.of_nat (S n) →
      bit_match (Z.testbit key j) (Z.testbit key_inv j) (Z.testbit pat j) = true) ↔
    bit_match (Z.testbit key i) (Z.testbit key_inv i) (Z.testbit pat i) = true ∧
    ternary_match_bits n (i + 1) key key_inv pat = true) as ->.
  { rewrite IH by lia. split.
    - intros H. split; [apply H; lia|]. intros. apply H. lia.
    - intros [H0 H] j Hj. destruct (decide (j = i)) as [->|]; [done|]. apply H. lia. }
  cbn [ternary_match_bits]. rewrite !bit_of_byte by lia. unfold nz.
  destruct (Z.testbit key i), (Z.testbit key_inv i), (Z.testbit pat i);
    rewrite ?Z.eqb_refl, ?(proj2 (Z.eqb_neq (2 ^ i) 0)), ?(proj2 (Z.eqb_neq 0 (2 ^ i))) by lia;
    simpl; clear IH; intuition congruence.
Qed.

Lemma ternary_match_bytes_spec n i key key_inv pat :
  0 <= i → i + Z.of_nat n <= Z.of_nat (length key) →
  i + Z.of_nat n <= Z.of_nat (length key_inv) → i + Z.of_nat n <= Z.of_nat (length pat) →
  ∃ r, ternary_match_bytes n i key key_inv pat = Some r ∧
    (r = true ↔ ∀ j k ki p, i <= j < i + Z.of_nat n →
       rd key j = Some k → rd key_inv j = Some ki → rd pat j = Some p →
       ice_ternary_match_byte k ki p = true).
Proof.
  revert i. induction n as [|n IH]; intros i Hi Hk Hki Hp.
  { exists true. split; [done|]. split; [lia|done]. }
  destruct (rd_in_range key i) as [k Ek]; [lia|].
  destruct (rd_in_range key_inv i) as [ki Eki]; [lia|].
  destruct (rd_in_range pat i) as [p Ep]; [lia|].
  simpl. rewrite Ek, Eki, Ep. simpl.
  destruct (ice_ternary_match_byte k ki p) eqn:E; simpl.
  - destruct (IH (i + 1)) as (r & -> & Hr); [lia..|]. exists r. split; [done|].
    rewrite Hr. split; intros H j k' ki' p' Hj ? ? ?.
    + destruct (decide (j = i)) as [->|]; [congruence|]. apply (H j); done || lia.
    + apply (H j); done || lia.
  - exists false. split; [done|]. split; [done|]. intros H.
    rewrite <- E. apply (H i); done || lia.
Qed.

(** The first match: the index of an item that matches, with none before it. *)
Definition is_first_match {A} (f : A → option bool) (lo hi : Z) (table : list A)
    (r : option Z) : Prop :=
  match r with
  | Some j =>
      lo <= j < hi ∧ (∃ x, rd table j = Some x ∧ f x = Some true) ∧
      (∀ j' x, lo <= j' < j → rd table j' = Some x → f x = Some false)
  | None => ∀ j x, lo <= j < hi → rd table j = Some x → f x = Some false
  end.

Lemma first_match_spec {A} (f : A → option bool) n i table :
  0 <= i → i + Z.of_nat n <= Z.of_nat (length table) → Forall (fun x => is_Some (f x)) table →
  ∃ r, first_match f n i table = Some r ∧ is_first_match f i (i + Z.of_nat n) table r.
Proof.
  intros Hi Hn Hf. revert i Hi Hn. induction n as [|n IH]; intros i Hi Hn.
  { exists None. split; [done|]. simpl. lia. }
  destruct (rd_in_range table i) as [x Ex]; [lia|].
  destruct (rd_Forall _ _ _ _ Hf Ex) as [hit Eh].
  simpl. rewrite Ex. simpl. rewrite Eh. simpl. destruct hit.
  - exists (Some i). split; [done|]. split_and!; [lia..|by eauto|lia].
  - destruct (IH (i + 1)) as (r & -> & Hr); [lia..|]. exists r. split; [done|].
    destruct r as [j|]; simpl in *.
    + destruct Hr as (Hj & Hx & Hb). split_and!; [lia..|done|].
      intros j' y Hj' Ey. destruct (decide (j' = i)) as [->|]; [congruence|].
      apply (Hb j'); done || lia.
    + intros j y Hj Ey. destruct (decide (j = i)) as [->|]; [congruence|].
      apply (Hr j); done || lia.
Qed.

Lemma pg_cam_match_key item k :
  _pg_cam_match item k = true ↔
  PgCam.valid (PgCam.key item) = true ∧ PgCam.key item = k <| PgCam.valid := true |>.
Proof.
  unfold _pg_cam_match. destruct item as [idx [] act], k; simpl.
  destruct valid; simpl; [|intuition congruence].
  repeat match goal with
  | |- context [Z.eqb ?a ?b] => destruct (Z.eqb_spec a b); simpl; [|intuition congruence]
  | |- context [eqb ?a ?b] => destruct (eqb_spec a b); simpl; [|intuition congruence]
  end.
  intuition congruence.
Qed.

Lemma bit64_in_range k : 0 <= k < 64 → bit64 k = Some (2 ^ k).
Proof.
  intros. unfold bit64.
  rewrite (proj2 (Z.leb_le _ _)), (proj2 (Z.ltb_lt _ _)) by lia. simpl.
  rewrite Z.shiftl_1_l, wrap_small; [done|]. unfold in_width. split; [lia|].
  apply Z.pow_lt_mono_r; lia.
Qed.

Lemma nz_land_pow2 y k : 0 <= k → nz (y .& 2 ^ k) = Z.testbit y k.
Proof. intros. by apply (nz_land_bit y k). Qed.

(** Setting bit [i] of a number. *)
Lemma testbit_set x i j : 0 <= i → 0 <= j →
  Z.testbit (x .| 2 ^ i) j = Z.testbit x j || (i =? j).
Proof. intros. by rewrite Z.lor_spec, Z.pow2_bits_eqb by done. Qed.

Lemma pow2_in_width i w : 0 <= i < w → in_width w (2 ^ i).
Proof. intros. split; [lia|]. apply Z.pow_lt_mono_r; lia. Qed.

(** A loop that sets bit [i] of a [w]-bit number in iteration [i] when [g i]
    holds collects exactly these bits. *)
Lemma set_bits_loop (g : Z → option bool) body n w flg0 :
  0 <= n <= w → in_width w flg0 → (∀ i, 0 <= i < n → is_Some (g i)) →
  (∀ i flg, 0 <= i < n → in_width w flg →
     body i flg = (h ← g i; Some (if h : bool then flg .| 2 ^ i else flg))) →
  ∃ flg, for_range 0 n body flg0 = Some flg ∧ in_width w flg ∧
    ∀ j, 0 <= j → Z.testbit flg j =
      Z.testbit flg0 j || ((j <? n) && default false (g j)).
Proof.
  intros Hn Hw0 Hg Hbody.
  apply (for_range_total (fun m flg => in_width w flg ∧
    ∀ j, 0 <= j → Z.testbit flg j =
      Z.testbit flg0 j || ((j <? m) && default false (g j)))); [lia| |].
  - split; [done|]. intros j Hj. by rewrite (proj2 (Z.ltb_ge j 0)), orb_false_r by lia.
  - intros i flg Hi [Hw Hf]. rewrite Hbody by done. destruct (Hg i Hi) as [h Eh].
    rewrite Eh. simpl. eexists. split; [done|]. split.
    { destruct h; [|done]. apply in_width_lor; [lia|done|]. apply pow2_in_width. lia. }
    intros j Hj. destruct (decide (j = i)) as [->|].
    + rewrite (proj2 (Z.ltb_lt i (i + 1))), Eh by lia. simpl. destruct h.
      * rewrite testbit_set by lia. by rewrite Z.eqb_refl, !orb_true_r.
      * rewrite Hf, (proj2 (Z.ltb_ge i i)) by lia. done.
    + assert ((j <? i + 1) = (j <? i)) as ->
        by (destruct (Z.ltb_spec j (i + 1)), (Z.ltb_spec j i); lia || done).
      rewrite <- Hf by lia.
      destruct h; [|done]. rewrite testbit_set by lia.
      by rewrite (proj2 (Z.eqb_neq i j)), orb_false_r by lia.
Qed.

Lemma flg_redirect_bits table psr_flg :
  64 <= Z.of_nat (length table) →
  Forall (fun item => 0 <= FlgRd.intr_flg_id item < 64) table →
  ∃ flg, ice_flg_redirect table psr_flg = Some flg ∧ in_width 64 flg ∧
    ∀ i item, 0 <= i < 64 → rd table i = Some item →
      Z.testbit flg i = FlgRd.expose item && Z.testbit psr_flg (FlgRd.intr_flg_id item).
Proof.
  intros Hlen Hok. unfold ice_flg_redirect.
  set (g i := item ← rd table i;
    Some (FlgRd.expose item && Z.testbit psr_flg (FlgRd.intr_flg_id item))).
  edestruct (set_bits_loop g) as (flg & -> & Hw & Hb); cycle 4.
  - exists flg. split_and!; [done..|]. intros i item Hi Ei.
    rewrite Hb, (proj2 (Z.ltb_lt i 64)) by lia. subst g. simpl. rewrite Ei. simpl.
    by rewrite Z.testbit_0_l.
  - lia.
  - done.
  - intros i Hi. destruct (rd_in_range table i) as [item Ei]; [lia|].
    subst g. simpl. rewrite Ei. by eexists.
  - intros i flg Hi _. subst g. simpl. destruct (rd table i) as [item|] eqn:Ei; [|done].
    assert (0 <= FlgRd.intr_flg_id item < 64) as Hid by exact (rd_Forall _ _ _ _ Hok Ei).
    simpl. destruct (FlgRd.expose item); [|done]. simpl.
    rewrite !bit64_in_range by lia. simpl. by rewrite nz_land_pow2 by lia.
Qed.

Lemma xlt_kb_flag_bits kb pkt_flag entry :
  rd (XltKb.entries kb) 0 = Some entry → length (XltKb.flg0_14_sel entry) = 15%nat →
  ∃ flg, ice_xlt_kb_flag_get kb pkt_flag = Some flg ∧ in_width 16 flg ∧
    Z.testbit flg 15 = nz (XltKb.flag15 kb .& pkt_flag) ∧
    ∀ i sel, 0 <= i < 15 → rd (XltKb.flg0_14_sel entry) i = Some sel →
      Z.testbit flg i = Z.testbit pkt_flag (sel mod 64).
Proof.
  intros He Hlen. unfold ice_xlt_kb_flag_get. rewrite He. cbn [mbind option_bind].
  set (flg0 := if nz _ then _ else 0).
  set (g i := sel ← rd (XltKb.flg0_14_sel entry) i; Some (Z.testbit pkt_flag (sel mod 64))).
  assert (∀ j, 0 <= j → Z.testbit flg0 j = nz (XltKb.flag15 kb .& pkt_flag) && (15 =? j)) as H0.
  { intros j Hj. subst flg0. destruct (nz _); [|by rewrite Z.testbit_0_l].
    change (u16 (1 .<< 15)) with (2 ^ 15). by rewrite Z.pow2_bits_eqb. }
  edestruct (set_bits_loop g) as (flg & -> & Hw & Hb); cycle 4.
  - exists flg. split; [done|]. split; [exact Hw|]. split.
    + rewrite Hb, H0 by lia. simpl. by rewrite andb_true_r, orb_false_r.
    + intros i sel Hi Es. rewrite Hb, H0, (proj2 (Z.ltb_lt i 15)) by lia.
      rewrite (proj2 (Z.eqb_neq 15 i)), andb_false_r by lia. subst g. simpl. by rewrite Es.
  - lia.
  - subst flg0. by destruct (nz _).
  - intros i Hi. destruct (rd_in_range (XltKb.flg0_14_sel entry) i) as [sel Es]; [lia|].
    subst g. simpl. rewrite Es. by eexists.
  - intros i flg Hi Hw. subst g. simpl.
    destruct (rd (XltKb.flg0_14_sel entry) i) as [sel|]; [|done]. simpl.
    assert (u16 (sel .& 63) = sel mod 64) as ->.
    { change 63 with (Z.ones 6). rewrite Z.land_ones by lia. apply wrap_small.
      pose proof (Z.mod_pos_bound sel 64 eq_refl). unfold in_width.
      change (2 ^ 6) with 64. change (2 ^ 16) with 65536. lia. }
    rewrite bit64_in_range by (by apply Z.mod_pos_bound). simpl.
    rewrite nz_land_pow2 by (pose proof (Z.mod_pos_bound sel 64); lia).
    destruct (Z.testbit _ _); [|done]. rewrite Z.shiftl_1_l.
    rewrite (wrap_small 16 (2 ^ i)) by (apply pow2_in_width; lia).
    rewrite wrap_small; [done|]. apply in_width_lor; [lia|done|apply pow2_in_width; lia].
Qed.

(** ** Correctness *)

(** Ternary matching: with all arrays at least [len] bytes long the match
    succeeds exactly when every bit pair accepts the pattern bit: (1,1) accepts
    both values, (1,0) only 0, (0,1) only 1, and (0,0) none. *)
Theorem ternary_match_spec key key_inv pat len :
  0 <= len <= Z.of_nat (length key) → len <= Z.of_nat (length key_inv) →
  len <= Z.of_nat (length pat) →
  ∃ r, ice_ternary_match key key_inv pat len = Some r ∧
    (r = true ↔ ∀ i k ki p, 0 <= i < len →
       rd key i = Some k → rd key_inv i = Some ki → rd pat i = Some p →
       ∀ j, 0 <= j < 8 →
         bit_match (Z.testbit k j) (Z.testbit ki j) (Z.testbit p j) = true).
Proof.
  intros Hk Hki Hp. unfold ice_ternary_match.
  destruct (ternary_match_bytes_spec (Z.to_nat len) 0 key key_inv pat) as (r & -> & Hr);
    [lia..|].
  exists r. split; [done|]. rewrite Hr, Z2Nat.id by lia.
  split; intros H i k ki p Hi ? ? ?.
  - apply (ternary_match_bits_spec 8 0 k ki p); [lia..|]. by apply (H i).
  - apply ternary_match_bits_spec; [lia..|]. intros j Hj. by apply (H i k ki p).
Qed.

(** CAM search: the search of a parse graph CAM returns the first valid item
    whose key equals the search key in every field, and [NULL] only when there is
    none. *)
Theorem pg_cam_match_first table size k :
  0 <= size <= Z.of_nat (length table) →
  ∃ r, ice_pg_cam_match table size k = Some r ∧
    match r with
    | Some j => ∃ item, 0 <= j < size ∧ rd table j = Some item ∧
        PgCam.key item = k <| PgCam.valid := true |> ∧
        ∀ j' item', 0 <= j' < j → rd table j' = Some item' →
          PgCam.key item' ≠ k <| PgCam.valid := true |>
    | None => ∀ j item, 0 <= j < size → rd table j = Some item →
        PgCam.key item ≠ k <| PgCam.valid := true |>
    end.
Proof.
  intros Hs. unfold ice_pg_cam_match.
  destruct (first_match_spec (fun item => Some (_pg_cam_match item k)) (Z.to_nat size) 0 table)
    as (r & -> & Hr); [lia..|by apply Forall_true|].
  exists r. split; [done|]. rewrite Z2Nat.id in Hr by lia.
  assert (∀ item, Some (_pg_cam_match item k) = Some false →
    PgCam.key item ≠ k <| PgCam.valid := true |>) as Hno.
  { intros item Hm Hk. assert (_pg_cam_match item k = true); [|congruence].
    apply pg_cam_match_key. by rewrite Hk. }
  destruct r as [j|]; simpl in Hr.
  - destruct Hr as (Hj & (item & Hi & [= Hm]) & Hb). apply pg_cam_match_key in Hm as [_ Hm].
    exists item. split_and!; [lia..|done|done|]. intros j' item' Hj' Hi'.
    apply Hno. by apply (Hb j').
  - intros j item Hj Hi. apply Hno. by apply (Hr j).
Qed.

(** Flag redirection: packet flag [i] is set exactly when entry [i] exposes
    it and the parser flag it selects is set. *)
Theorem flg_redirect_spec table psr_flg :
  64 <= Z.of_nat (length table) →
  Forall (fun item => 0 <= FlgRd.intr_flg_id item < 64) table →
  ∃ flg, ice_flg_redirect table psr_flg = Some flg ∧ in_width 64 flg ∧
    ∀ i item, 0 <= i < 64 → rd table i = Some item →
      Z.testbit flg i = FlgRd.expose item && Z.testbit psr_flg (FlgRd.intr_flg_id item).
Proof. apply flg_redirect_bits. Qed.

(** Key builder flags: bit 15 of the result says whether the packet flags
    meet the flag-15 mask, and bit [i] below is the packet flag the [i]-th
    selector of the first entry names. *)
Theorem xlt_kb_flag_spec kb pkt_flag entry :
  rd (XltKb.entries kb) 0 = Some entry → length (XltKb.flg0_14_sel entry) = 15%nat →
  ∃ flg, ice_xlt_kb_flag_get kb pkt_flag = Some flg ∧ in_width 16 flg ∧
    Z.testbit flg 15 = nz (XltKb.flag15 kb .& pkt_flag) ∧
    ∀ i sel, 0 <= i < 15 → rd (XltKb.flg0_14_sel entry) i = Some sel →
      Z.testbit flg i = Z.testbit pkt_flag (sel mod 64).
Proof. apply xlt_kb_flag_bits. Qed.

(** ** Concrete searches *)

Lemma ternary_match_spec_witness :
  ice_ternary_match [0xff; 0x0f] [0xff; 0xf0] [0x12; 0xf0] 2 = Some true ∧
  bit_match (Z.testbit 0x0f 4) (Z.testbit 0xf0 4) (Z.testbit 0xf0 4) = true.
Proof.
  split; [done|].
  destruct (ternary_match_spec [0xff; 0x0f] [0xff; 0xf0] [0x12; 0xf0] 2)
    as (r & Hr & Hiff); [simpl; lia..|].
  assert (r = true) as -> by (vm_compute in Hr; congruence).
  apply (proj1 Hiff eq_refl 1 0x0f 0xf0 0xf0); done.
Defined.

Definition demo_key (n : Z) : PgCam.ice_pg_cam_key :=
  PgCam.mkKey true n false false false false 0 0 0x0800.
Definition demo_cam : list PgCam.ice_pg_cam_item :=
  let act := PgCam.mkAction 1 2 true 3 false 0 false false 14 in
  [PgCam.mkItem 0 (demo_key 7) act; PgCam.mkItem 1 (demo_key 5) act;
   PgCam.mkItem 2 (demo_key 5) act].

Lemma pg_cam_match_first_witness :
  ∃ item, ice_pg_cam_match demo_cam 3 ((demo_key 5) <| PgCam.valid := false |>) = Some (Some 1) ∧
    rd demo_cam 1 = Some item ∧ PgCam.key item = demo_key 5.
Proof.
  destruct (pg_cam_match_first demo_cam 3 ((demo_key 5) <| PgCam.valid := false |>))
    as (r & Hr & Hm); [simpl; lia|].
  assert (r = Some 1) as -> by (vm_compute in Hr; congruence).
  destruct Hm as (item & _ & Hi & Hk & _). by exists item.
Defined.

Definition demo_rd : list FlgRd.ice_flg_rd_item :=
  (fun i => FlgRd.mkFlg (Z.of_nat i) (Nat.even i) (63 - Z.of_nat i)) <$> seq 0 64.

Lemma flg_redirect_spec_witness :
  ∃ flg, ice_flg_redirect demo_rd (2 ^ 61) = Some flg ∧ Z.testbit flg 2 = true.
Proof.
  destruct (flg_redirect_spec demo_rd (2 ^ 61)) as (flg & Hf & _ & Hb).
  - vm_compute. done.
  - apply Forall_fmap, Forall_seq. intros j Hj. simpl. lia.
  - exists flg. split; [done|].
    rewrite (Hb 2 (FlgRd.mkFlg 2 true 61)); [vm_compute; reflexivity|lia|vm_compute; reflexivity].
Defined.

Definition demo_kb : XltKb.ice_xlt_kb :=
  XltKb.mkKb 0 0 0 0x10 [XltKb.mkKbe 0 0 ((fun i => 64 + Z.of_nat i) <$> seq 3 15) 0 0].

Lemma xlt_kb_flag_spec_witness :
  ∃ flg, ice_xlt_kb_flag_get demo_kb 0x18 = Some flg ∧
    Z.testbit flg 15 = true ∧ Z.testbit flg 0 = true ∧ Z.testbit flg 2 = false.
Proof.
  destruct (xlt_kb_flag_spec demo_kb 0x18
    (XltKb.mkKbe 0 0 ((fun i => 64 + Z.of_nat i) <$> seq 3 15) 0 0))
    as (flg & Hf & _ & H15 & Hb); [vm_compute; reflexivity..|].
  exists flg. split; [done|]. split; [rewrite H15; vm_compute; reflexivity|].
  rewrite (Hb 0 67), (Hb 2 69); [vm_compute; split; reflexivity|lia|vm_compute; reflexivity
    |lia|vm_compute; reflexivity].
Defined.
