(* ===== verification/IceTcam.v ===== *)
(** * Keys of the profile TCAM

    The functions of ice_flex_pipe.c that encode a value with its masks as a key and write
    the key of an entry, and what they mean to the ternary match of ice_tmatch.h
    ([IceMatch]). *)
From S2P Require Import Prelude Bytes IceStatus IceBitops IceMatch.
Local Open Scope Z_scope.

Definition ICE_DC_KEY : Z := 0x1.
Definition ICE_DC_KEYINV : Z := 0x1.
Definition ICE_NM_KEY : Z := 0x0.
Definition ICE_NM_KEYINV : Z := 0x0.
Definition ICE_0_KEY : Z := 0x1.
Definition ICE_0_KEYINV : Z := 0x0.
Definition ICE_1_KEY : Z := 0x0.
Definition ICE_1_KEYINV : Z := 0x1.

(** The variables of the loop of [ice_gen_key_word]. *)
Record key_word := mkKeyWord {
  kw_val : Z; kw_valid : Z; kw_dont_care : Z; kw_nvr_mtch : Z; in_key : Z; in_key_inv : Z; out_key : Z; out_key_inv : Z
}.

Definition key_bit (w : key_word) : Z * Z :=
  if negb (nz (kw_valid w .& 0x1)) then (in_key w .& 0x1, in_key_inv w .& 0x1)
  else if nz (kw_dont_care w .& 0x1) then (ICE_DC_KEY, ICE_DC_KEYINV)
  else if nz (kw_nvr_mtch w .& 0x1) then (ICE_NM_KEY, ICE_NM_KEYINV)
  else if nz (kw_val w .& 0x01) then (ICE_1_KEY, ICE_1_KEYINV)
  else (ICE_0_KEY, ICE_0_KEYINV).

Definition key_step (w : key_word) : key_word :=
  mkKeyWord (kw_val w .>> 1) (kw_valid w .>> 1) (kw_dont_care w .>> 1) (kw_nvr_mtch w .>> 1) (in_key w .>> 1) (in_key_inv w .>> 1)
    ((out_key w .>> 1) .| u8 ((key_bit w).1 .<< 7)) ((out_key_inv w .>> 1) .| u8 ((key_bit w).2 .<< 7)).

(** The new bytes; without success they are the old ones. *)
Definition ice_gen_key_word (val valid dont_care nvr_mtch key key_inv : Z) : ice_status * (Z * Z) :=
  if negb (Z.lxor dont_care nvr_mtch =? (dont_care .| nvr_mtch)) then (ICE_ERR_CFG, (key, key_inv))
  else
    let w := Nat.iter 8 key_step (mkKeyWord val valid dont_care nvr_mtch key key_inv 0 0) in
    (ICE_SUCCESS, (out_key w, out_key_inv w)).

Definition ice_bits_max_set (mask : list Z) (size max : Z) : option bool :=
  r ← for_break 0 size (fun i s =>
    m ← rd mask i;
    if negb (nz m) then Some (Next s)
    else if s.2 =? max then Some (Break (false, s.2))
    else
      let count := u16 (s.2 + ice_hweight8 m) in
      if max <? count then Some (Break (false, count)) else Some (Next (true, count))) (true, 0);
  Some r.1.

Definition ICE_NVR_MTCH_BITS_MAX : Z := 1.

(** [upd ? upd[i] : 0xff] and the like. *)
Definition opt_byte (a : option (list Z)) (i dflt : Z) : option Z :=
  match a with Some bs => rd bs i | None => Some dflt end.

Definition ice_set_key (key : list Z) (size : Z) (val : list Z) (upd dc nm : option (list Z)) (off len : Z) : option (ice_status * list Z) :=
  if nz (size mod 2) then Some (ICE_ERR_CFG, key)
  else
    let half_size := size / 2 in
    if half_size <? off + len then Some (ICE_ERR_CFG, key)
    else
      few ← match nm with Some m => ice_bits_max_set m len ICE_NVR_MTCH_BITS_MAX | None => Some true end;
      if negb few then Some (ICE_ERR_CFG, key)
      else
        for_break 0 len (fun i s =>
          v ← rd val i;
          u ← opt_byte upd i 0xff;
          d ← opt_byte dc i 0;
          n ← opt_byte nm i 0;
          k ← rd s.2 (off + i);
          ki ← rd s.2 (half_size + off + i);
          let '(st, (k, ki)) := ice_gen_key_word v u d n k ki in
          key ← wr s.2 (off + i) k;
          key ← wr key (half_size + off + i) ki;
          Some (if bool_decide (st ≠ ICE_SUCCESS) then Break (ICE_ERR_CFG, key) else Next (ICE_SUCCESS, key))) (ICE_SUCCESS, key).

(** ** The key of a profile *)

Definition ICE_TCAM_KEY_VAL_SZ : Z := 5.
Definition ICE_TCAM_KEY_SZ : Z := 2 * ICE_TCAM_KEY_VAL_SZ.

(** [struct ice_prof_id_key], packed, in memory. *)
Record ice_prof_id_key := mkProfKey { pk_flags : Z; pk_xlt1 : Z; pk_xlt2_cdid : Z }.
Definition prof_key_bytes (k : ice_prof_id_key) : list Z := le_bytes 2 (pk_flags k) ++ [pk_xlt1 k] ++ le_bytes 2 (pk_xlt2_cdid k).

Definition ICE_CD_2_M : Z := 0xC000.
Definition ICE_CD_2_S : Z := 14.
Definition ICE_CD_4_M : Z := 0xF000.
Definition ICE_CD_4_S : Z := 12.
Definition ICE_CD_8_M : Z := 0xFF00.
Definition ICE_CD_8_S : Z := 16.

Definition put_cdid (m s xlt2 cdid : Z) : Z := (xlt2 .& u16 (Z.lnot m)) .| u16 (u64 (u64 (1 .<< cdid) .<< s)).

Definition prof_key (cdid_bits ptg vsig cdid flags : Z) : ice_prof_id_key :=
  mkProfKey (u16 flags) ptg
    (if cdid_bits =? 2 then put_cdid ICE_CD_2_M ICE_CD_2_S (u16 vsig) cdid
     else if cdid_bits =? 4 then put_cdid ICE_CD_4_M ICE_CD_4_S (u16 vsig) cdid
     else if cdid_bits =? 8 then put_cdid ICE_CD_8_M ICE_CD_8_S (u16 vsig) cdid
     else u16 vsig).

Definition ice_prof_gen_key (cdid_bits ptg vsig cdid flags : Z) (vl_msk dc_msk nm_msk key : list Z) : option (ice_status * list Z) :=
  ice_set_key key ICE_TCAM_KEY_SZ (prof_key_bytes (prof_key cdid_bits ptg vsig cdid flags)) (Some vl_msk) (Some dc_msk) (Some nm_msk) 0 (ICE_TCAM_KEY_SZ / 2).

(** [struct ice_prof_tcam_entry] *)
Record ice_prof_tcam_entry := mkTcamEntry { te_addr : Z; te_key : list Z; te_prof_id : Z }.
#[export] Instance tcam_entry_settable : Settable ice_prof_tcam_entry := fun r => mkTcamEntry (te_addr r) (te_key r) (te_prof_id r).

Definition ice_tcam_write_entry (t : list ice_prof_tcam_entry) (cdid_bits idx prof_id ptg vsig cdid flags : Z) (vl_msk dc_msk nm_msk : list Z) :
    option (ice_status * list ice_prof_tcam_entry) :=
  e ← rd t idx;
  '(status, key) ← ice_prof_gen_key cdid_bits ptg vsig cdid flags vl_msk dc_msk nm_msk (te_key e);
  let e := e <| te_key := key |> in
  t ← wr t idx (if bool_decide (status = ICE_SUCCESS) then e <| te_addr := idx |> <| te_prof_id := prof_id |> else e);
  Some (status, t).

(** ** One byte of a key *)

(** The pair of bits that encodes a bit of the value. *)
Definition encode (valid dc nm v k ki : bool) : bool * bool :=
  if negb valid then (k, ki) else if dc then (true, true) else if nm then (false, false) else if v then (false, true) else (true, false).

Definition word_bit (w : key_word) (i : Z) : bool * bool :=
  encode (Z.testbit (kw_valid w) i) (Z.testbit (kw_dont_care w) i) (Z.testbit (kw_nvr_mtch w) i) (Z.testbit (kw_val w) i) (Z.testbit (in_key w) i) (Z.testbit (in_key_inv w) i).

Lemma nz_land_1 x : nz (x .& 1) = Z.testbit x 0.
Proof. apply (nz_bit x 0). lia. Qed.

Lemma land_1_bit x j : 0 <= j → Z.testbit (x .& 1) j = (j =? 0) && Z.testbit x 0.
Proof. intros Hj. change 1 with (2 ^ 0). rewrite Z.land_spec, Z.pow2_bits_eqb by lia. rewrite (Z.eqb_sym 0). destruct (Z.eqb_spec j 0) as [->|]; [by rewrite andb_true_r|by rewrite andb_false_r]. Qed.

Lemma key_bit_spec w j : 0 <= j → Z.testbit (key_bit w).1 j = (j =? 0) && (word_bit w 0).1 ∧ Z.testbit (key_bit w).2 j = (j =? 0) && (word_bit w 0).2.
Proof.
  intros Hj. unfold key_bit, word_bit, encode. rewrite !nz_land_1.
  assert (Z.testbit 1 j = (j =? 0)) as H1 by (change 1 with (2 ^ 0); rewrite Z.pow2_bits_eqb, (Z.eqb_sym 0) by lia; done).
  destruct (Z.testbit (kw_valid w) 0); cbn [negb]; [|cbn [fst snd]; by rewrite !land_1_bit].
  unfold ICE_DC_KEY, ICE_DC_KEYINV, ICE_NM_KEY, ICE_NM_KEYINV, ICE_0_KEY, ICE_0_KEYINV, ICE_1_KEY, ICE_1_KEYINV.
  destruct (Z.testbit (kw_dont_care w) 0), (Z.testbit (kw_nvr_mtch w) 0), (Z.testbit (kw_val w) 0); cbn [fst snd]; rewrite ?H1, ?Z.bits_0, ?andb_true_r, ?andb_false_r; done.
Qed.

(** After [n] steps: the inputs are shifted by [n], the outputs hold the first [n] pairs in
    their highest bits. *)
Lemma key_steps w n i : 0 <= i → word_bit (Nat.iter n key_step w) i = word_bit w (i + Z.of_nat n).
Proof.
  intros Hi. revert i Hi. induction n as [|n IH]; intros i Hi; [by rewrite Z.add_0_r|]. cbn [Nat.iter nat_rect]. fold (Nat.iter n key_step w).
  unfold word_bit at 1, key_step. cbn [kw_val kw_valid kw_dont_care kw_nvr_mtch in_key in_key_inv]. rewrite !Z.shiftr_spec by lia.
  change (word_bit (Nat.iter n key_step w) (i + 1) = word_bit w (i + Z.of_nat (S n))). rewrite IH by lia. f_equal. lia.
Qed.

Lemma key_outputs w n j : out_key w = 0 → out_key_inv w = 0 → (n <= 8)%nat → 0 <= j →
  let p := word_bit w (j - (8 - Z.of_nat n)) in let w' := Nat.iter n key_step w in
  Z.testbit (out_key w') j = (8 - Z.of_nat n <=? j) && (j <? 8) && p.1 ∧ Z.testbit (out_key_inv w') j = (8 - Z.of_nat n <=? j) && (j <? 8) && p.2.
Proof.
  intros E1 E2. revert j. induction n as [|n IH]; intros j Hn Hj; cbn zeta.
  { cbn [Nat.iter nat_rect]. rewrite E1, E2, Z.bits_0. destruct (Z.leb_spec (8 - Z.of_nat 0) j), (Z.ltb_spec j 8); try lia; done. }
  cbn [Nat.iter nat_rect]. fold (Nat.iter n key_step w). set (w' := Nat.iter n key_step w). unfold key_step. cbn [out_key out_key_inv].
  destruct (IH (j + 1) ltac:(lia) ltac:(lia)) as [H1 H2]. fold w' in H1, H2. rewrite !Z.lor_spec, !Z.shiftr_spec, H1, H2, !testbit_wrap, !Z.shiftl_spec by lia.
  replace (j + 1 - (8 - Z.of_nat n)) with (j - (8 - Z.of_nat (S n))) by lia. destruct (Z.ltb_spec j 7).
  - rewrite !(Z.testbit_neg_r _ (j - 7)) by lia. rewrite !andb_false_r, !orb_false_r. destruct (Z.leb_spec (8 - Z.of_nat n) (j + 1)), (Z.leb_spec (8 - Z.of_nat (S n)) j), (Z.ltb_spec (j + 1) 8), (Z.ltb_spec j 8); try lia; done.
  - destruct (key_bit_spec w' (j - 7) ltac:(lia)) as [-> ->]. unfold w'. rewrite key_steps by lia. rewrite Z.add_0_l.
    destruct (Z.ltb_spec (j + 1) 8), (Z.ltb_spec j 8), (Z.eqb_spec (j - 7) 0), (Z.leb_spec (8 - Z.of_nat (S n)) j); try lia; rewrite ?andb_false_r; cbn; try done.
    replace (j - (8 - Z.of_nat (S n))) with (Z.of_nat n) by lia. done.
Qed.

Lemma overlap_free dc nm : (Z.lxor dc nm =? (dc .| nm)) = true ↔ dc .& nm = 0.
Proof.
  rewrite Z.eqb_eq. split; intros H; apply Z.bits_inj'; intros j Hj; pose proof (f_equal (fun x => Z.testbit x j) H) as Hb; cbn beta in Hb.
  - rewrite Z.lxor_spec, Z.lor_spec in Hb. rewrite Z.land_spec, Z.bits_0. by destruct (Z.testbit dc j), (Z.testbit nm j).
  - rewrite Z.land_spec, Z.bits_0 in Hb. rewrite Z.lxor_spec, Z.lor_spec. by destruct (Z.testbit dc j), (Z.testbit nm j).
Qed.

Lemma gen_key_word_spec val valid dc nm key key_inv : dc .& nm = 0 → ∃ k ki, ice_gen_key_word val valid dc nm key key_inv = (ICE_SUCCESS, (k, ki)) ∧
  byte_ok k ∧ byte_ok ki ∧
  ∀ j, 0 <= j < 8 → (Z.testbit k j, Z.testbit ki j) =
    encode (Z.testbit valid j) (Z.testbit dc j) (Z.testbit nm j) (Z.testbit val j) (Z.testbit key j) (Z.testbit key_inv j).
Proof.
  intros Ho%overlap_free. unfold ice_gen_key_word. rewrite Ho. cbn [negb]. set (w := mkKeyWord _ _ _ _ _ _ 0 0). eexists _, _. split; [done|].
  assert (∀ x, (∀ j, 8 <= j → Z.testbit x j = false) → 0 <= x → byte_ok x) as Hbyte by (intros x Hx H0; apply (in_width_bits 8); [lia|done|done]).
  pose proof (key_outputs w 8) as Hk. cbn zeta in Hk. change (8 - Z.of_nat 8) with 0 in Hk.
  assert (∀ n, 0 <= out_key (Nat.iter n key_step w) ∧ 0 <= out_key_inv (Nat.iter n key_step w)) as Hpos.
  { induction n as [|n [IH1 IH2]]; [done|]. cbn [Nat.iter nat_rect]. fold (Nat.iter n key_step w). unfold key_step at 1 3. cbn [out_key out_key_inv].
    split; apply Z.lor_nonneg; (split; [by apply Z.shiftr_nonneg|]); apply wrap_width; lia. }
  split; [|split].
  - apply Hbyte; [|apply Hpos]. intros j Hj. destruct (Hk j eq_refl eq_refl ltac:(lia) ltac:(lia)) as [-> _]. by rewrite (proj2 (Z.ltb_ge j 8)), andb_false_r by lia.
  - apply Hbyte; [|apply Hpos]. intros j Hj. destruct (Hk j eq_refl eq_refl ltac:(lia) ltac:(lia)) as [_ ->]. by rewrite (proj2 (Z.ltb_ge j 8)), andb_false_r by lia.
  - intros j Hj. destruct (Hk j eq_refl eq_refl ltac:(lia) ltac:(lia)) as [-> ->]. rewrite (proj2 (Z.ltb_lt j 8)), (proj2 (Z.leb_le 0 j)), Z.sub_0_r by lia. cbn [andb].
    unfold word_bit, w. cbn [kw_val kw_valid kw_dont_care kw_nvr_mtch in_key in_key_inv]. by destruct (encode _ _ _ _ _ _).
Qed.

(** ** Keys *)

Lemma hweight8_byte m : byte_ok m → 0 <= ice_hweight8 m <= 8 ∧ (ice_hweight8 m = 0 ↔ m = 0).
Proof.
  assert (forallb (fun m => (0 <=? ice_hweight8 m) && (ice_hweight8 m <=? 8) && Bool.eqb (ice_hweight8 m =? 0) (m =? 0)) (seqZ 0 256) = true) as Hall by (vm_compute; done).
  rewrite forallb_forall in Hall. unfold byte_ok, in_width. intros Hm. assert (In m (seqZ 0 256)) as Hin by (apply list_elem_of_In, elem_of_seqZ; lia).
  specialize (Hall m Hin). rewrite !andb_true_iff, !Z.leb_le, eqb_true_iff in Hall. destruct Hall as [[H0 H8] He]. split; [lia|]. destruct (Z.eqb_spec (ice_hweight8 m) 0), (Z.eqb_spec m 0); naive_solver.
Qed.

(** The number of bits of the first [n] bytes. *)
Definition weight (mask : list Z) (n : Z) : Z := foldr Z.add 0 (ice_hweight8 <$> take (Z.to_nat n) mask).

Lemma foldr_add_app xs ys : foldr Z.add 0 (xs ++ ys) = foldr Z.add 0 xs + foldr Z.add 0 ys.
Proof. induction xs; cbn; lia. Qed.

Lemma weight_succ mask i m : 0 <= i → rd mask i = Some m → weight mask (i + 1) = weight mask i + ice_hweight8 m.
Proof.
  intros Hi Hm. unfold weight. replace (Z.to_nat (i + 1)) with (S (Z.to_nat i)) by lia. unfold rd in Hm. rewrite (proj2 (Z.leb_le 0 i)) in Hm by done.
  rewrite (take_S_r _ _ m) by done. rewrite fmap_app, foldr_add_app. cbn [fmap list_fmap foldr]. lia.
Qed.

Lemma weight_nonneg mask n : bytes_ok mask → 0 <= weight mask n.
Proof. intros Hb. unfold weight. apply (Forall_take _ (Z.to_nat n)) in Hb. induction Hb as [|m l Hm _ IH]; cbn [fmap list_fmap foldr]; [done|]. pose proof (hweight8_byte m Hm) as [? _]. lia. Qed.

Lemma weight_mono mask i n : bytes_ok mask → 0 <= i <= n → weight mask i <= weight mask n.
Proof.
  intros Hb Hi. unfold weight. replace (Z.to_nat n) with (Z.to_nat i + (Z.to_nat n - Z.to_nat i))%nat by lia. rewrite <- take_take_drop, fmap_app, foldr_add_app.
  assert (0 <= foldr Z.add 0 (ice_hweight8 <$> take (Z.to_nat n - Z.to_nat i) (drop (Z.to_nat i) mask))); [|lia].
  apply (Forall_drop _ (Z.to_nat i)), (Forall_take _ (Z.to_nat n - Z.to_nat i)) in Hb. induction Hb as [|m l Hm _ IH]; cbn [fmap list_fmap foldr]; [done|]. pose proof (hweight8_byte m Hm) as [? _]. lia.
Qed.

Lemma bits_max_set_spec mask size max : bytes_ok mask → 0 <= size <= Z.of_nat (length mask) → 0 <= max < 2 ^ 15 →
  ice_bits_max_set mask size max = Some (weight mask size <=? max).
Proof.
  intros Hb Hs Hm. unfold ice_bits_max_set.
  match goal with |- context [for_break ?lo ?hi ?body ?s0] => destruct (for_break_total (fun i s => s = (true, weight mask i) ∧ weight mask i <= max)
    (fun s => s.1 = (weight mask size <=? max)) lo hi body s0) as (r & -> & Hr) end; [lia|by split; [|change (weight mask 0) with 0; lia]| | |cbn; by rewrite Hr].
  - intros s [-> H]. cbn. by rewrite (proj2 (Z.leb_le _ _)).
  - intros i s Hi [-> H]. destruct (rd_in_range mask i ltac:(lia)) as [m Em]. rewrite Em. cbn [mbind option_bind fst snd]. pose proof (rd_Forall _ _ _ _ Hb Em) as Hbm. destruct (hweight8_byte m Hbm) as [Hh Hz].
    pose proof (weight_succ mask i m ltac:(lia) Em) as Hw. pose proof (weight_mono mask (i + 1) size Hb ltac:(lia)) as Hmono. unfold nz. destruct (Z.eqb_spec m 0) as [->|Hne]; cbn [negb].
    { eexists. split; [done|]. cbn beta iota. rewrite (proj2 Hz eq_refl), Z.add_0_r in Hw. rewrite Hw. done. }
    assert (1 <= ice_hweight8 m) as H1 by (destruct (decide (ice_hweight8 m = 0)) as [E|]; [by apply Hz in E|lia]).
    pose proof (weight_nonneg mask i Hb). destruct (Z.eqb_spec (weight mask i) max) as [E|Hlt]; [eexists; split; [done|]; cbn; symmetry; apply Z.leb_gt; lia|].
    rewrite (wrap_small 16) by (unfold in_width; lia). rewrite <- Hw. destruct (Z.ltb_spec max (weight mask (i + 1))); eexists; (split; [done|]); cbn; [symmetry; apply Z.leb_gt; lia|by split].
Qed.

(** The byte [i] of an optional array. *)
Definition at_ (a : option (list Z)) (i dflt : Z) : Z := default 0 (opt_byte a i dflt).
Definition long (a : option (list Z)) (len : Z) : Prop := match a with Some bs => bytes_ok bs ∧ len <= Z.of_nat (length bs) | None => True end.

Lemma at_in_range a i dflt len : long a len → 0 <= i < len → opt_byte a i dflt = Some (at_ a i dflt).
Proof. intros Hl Hi. unfold at_, opt_byte. destruct a as [bs|]; [|done]. destruct Hl as [_ Hl]. destruct (rd_in_range bs i ltac:(lia)) as [x ->]. done. Qed.

Section keys.
  Context (key val : list Z) (upd dc nm : option (list Z)) (half off len : Z).
  Context (Hkey : Z.of_nat (length key) = 2 * half) (Hoff : 0 <= off) (Hlen : 0 <= len) (Hfit : off + len <= half).
  Context (Hval : long (Some val) len) (Hupd : long upd len) (Hdc : long dc len) (Hnm : long nm len).
  Context (Hover : ∀ i, 0 <= i < len → at_ dc i 0 .& at_ nm i 0 = 0).
  Context (Hfew : weight (default [] nm) len <= ICE_NVR_MTCH_BITS_MAX).

  (** The pair of bits for bit [j] of byte [i]. *)
Definition pair_at (i j k ki : Z) : bool * bool :=
  encode (Z.testbit (at_ upd i 0xff) j) (Z.testbit (at_ dc i 0) j) (Z.testbit (at_ nm i 0) j) (Z.testbit (at_ (Some val) i 0) j) (Z.testbit k j) (Z.testbit ki j).

  (** The first [n] bytes are encoded, the others are those of before. *)
Definition encoded (n : Z) (k : list Z) : Prop :=
  length k = length key ∧
  (∀ x, ¬ off <= x < off + n → ¬ half + off <= x < half + off + n → rd k x = rd key x) ∧
  ∀ i, 0 <= i < n → ∃ b bi, rd k (off + i) = Some b ∧ rd k (half + off + i) = Some bi ∧
    ∀ j, 0 <= j < 8 → (Z.testbit b j, Z.testbit bi j) = pair_at i j (default 0 (rd key (off + i))) (default 0 (rd key (half + off + i))).

Lemma set_key_encodes : ∃ k, ice_set_key key (2 * half) val upd dc nm off len = Some (ICE_SUCCESS, k) ∧ encoded len k.
Proof.
  unfold ice_set_key. assert ((2 * half) mod 2 = 0) as -> by (rewrite Z.mul_comm; apply Z.mod_mul; lia). cbn [nz Z.eqb negb]. assert (2 * half / 2 = half) as -> by (rewrite Z.mul_comm; apply Z.div_mul; lia).
  rewrite (proj2 (Z.ltb_ge half (off + len))) by lia.
  assert (match nm with Some m => ice_bits_max_set m len ICE_NVR_MTCH_BITS_MAX | None => Some true end = Some true) as ->.
  { destruct nm as [m|]; [|done]. destruct Hnm as [Hb Hl]. rewrite bits_max_set_spec by (done || lia). cbn in Hfew. by rewrite (proj2 (Z.leb_le _ _)). }
  cbn [mbind option_bind negb].
  match goal with |- context [for_break ?lo ?hi ?body ?s0] => destruct (for_break_total (fun i s => s.1 = ICE_SUCCESS ∧ encoded i s.2) (fun s => s.1 = ICE_SUCCESS ∧ encoded len s.2) lo hi body s0) as ([st k] & -> & E & Hk) end;
    [lia| |done| |cbn in E; subst st; by exists k].
  - split; [done|]. split; [done|]. split; [done|]. intros i Hi. lia.
  - intros i [st k] Hi [Est (Hl & Hout & Hin)]. cbn [fst snd] in *. destruct (rd_in_range val i) as [v Ev]; [destruct Hval as [_ Hv]; lia|].
    rewrite Ev, (at_in_range upd i 0xff len), (at_in_range dc i 0 len), (at_in_range nm i 0 len) by done. cbn [mbind option_bind].
    destruct (rd_in_range k (off + i)) as [b Eb]; [lia|]. destruct (rd_in_range k (half + off + i)) as [bi Ebi]; [lia|]. rewrite Eb, Ebi. cbn [mbind option_bind].
    destruct (gen_key_word_spec v (at_ upd i 0xff) (at_ dc i 0) (at_ nm i 0) b bi (Hover i Hi)) as (b' & bi' & -> & _ & _ & Hbits). cbn [mbind option_bind].
    rewrite (wr_in_range k) by lia. cbn [mbind option_bind]. rewrite wr_in_range by (rewrite length_insert; lia). cbn [mbind option_bind]. eexists. split; [done|].
    assert (∀ x, rd (<[Z.to_nat (half + off + i) := bi']> (<[Z.to_nat (off + i) := b']> k)) x = if decide (x = half + off + i) then Some bi' else if decide (x = off + i) then Some b' else rd k x) as Hrd.
    { intros x. unfold rd. destruct (Z.leb_spec 0 x); [|destruct (decide _); [lia|]; destruct (decide _); [lia|done]]. destruct (decide (x = half + off + i)) as [->|N1].
      - rewrite list_lookup_insert_eq by (rewrite length_insert; lia). done.
      - rewrite list_lookup_insert_ne by lia. destruct (decide (x = off + i)) as [->|N2]; [rewrite list_lookup_insert_eq by lia; done|by rewrite list_lookup_insert_ne by lia]. }
    rewrite bool_decide_eq_false_2 by (intros []; done). cbn [fst snd]. split; [done|]. split; [by rewrite !length_insert|]. split.
    + intros x H1 H2. rewrite Hrd. destruct (decide _); [lia|]. destruct (decide _); [lia|]. apply Hout; lia.
    + intros a Ha. rewrite !Hrd. destruct (decide (a = i)) as [->|Hne].
      * exists b', bi'. repeat (destruct (decide _); try lia). split; [done|]. split; [done|]. intros j Hj. rewrite Hbits by done. 
        assert (at_ (Some val) i 0 = v) as Hv by (unfold at_; cbn [opt_byte]; by rewrite Ev). unfold pair_at. rewrite Hv.
        rewrite <- (Hout (off + i)), <- (Hout (half + off + i)), Eb, Ebi by lia. done.
      * repeat (destruct (decide _); try lia). apply Hin. lia.
Qed.
End keys.

Lemma rd_drop {A} (l : list A) n i : 0 <= n → 0 <= i → rd (drop (Z.to_nat n) l) i = rd l (n + i).
Proof. intros Hn Hi. unfold rd. rewrite !(proj2 (Z.leb_le _ _)), lookup_drop by lia. f_equal. lia. Qed.

Lemma encode_match dc nm v k ki p : dc && nm = false →
  bit_match (encode true dc nm v k ki).1 (encode true dc nm v k ki).2 p = true ↔ dc = true ∨ nm = false ∧ p = v.
Proof. destruct dc, nm, v, p; cbn; naive_solver. Qed.

(** C38. A key that the driver generates from a value, a mask of bits it does not care for and
    a mask of bits that never match is accepted by the ternary match for exactly the
    patterns that agree with the value in every bit it cares for, and for none if there is
    a bit that never matches.  The rest of the key is unchanged. *)
Theorem set_key_match key val dc nm half off len : Z.of_nat (length key) = 2 * half → 0 <= off → 0 <= len → off + len <= half →
  long (Some val) len → long dc len → long nm len → (∀ i, 0 <= i < len → at_ dc i 0 .& at_ nm i 0 = 0) →
  weight (default [] nm) len <= ICE_NVR_MTCH_BITS_MAX →
  ∃ k, ice_set_key key (2 * half) val None dc nm off len = Some (ICE_SUCCESS, k) ∧ length k = length key ∧
    (∀ x, ¬ off <= x < off + len → ¬ half + off <= x < half + off + len → rd k x = rd key x) ∧
    ∀ pat, len <= Z.of_nat (length pat) → ∃ r, ice_ternary_match (drop (Z.to_nat off) k) (drop (Z.to_nat (half + off)) k) pat len = Some r ∧
      (r = true ↔ ∀ i j, 0 <= i < len → 0 <= j < 8 →
         Z.testbit (at_ dc i 0) j = true ∨ Z.testbit (at_ nm i 0) j = false ∧ Z.testbit (at_ (Some pat) i 0) j = Z.testbit (at_ (Some val) i 0) j).
Proof.
  intros Hkey Hoff Hlen Hfit Hval Hdc Hnm Hover Hfew.
  destruct (set_key_encodes key val None dc nm half off len Hkey Hoff Hlen Hfit Hval I Hdc Hnm Hover Hfew) as (k & E & Hl & Hout & Hin).
  exists k. split; [done|]. split; [done|]. split; [done|]. intros pat Hpat.
  destruct (ternary_match_spec (drop (Z.to_nat off) k) (drop (Z.to_nat (half + off)) k) pat len) as (r & Er & Hr); [rewrite length_drop; lia|rewrite length_drop; lia|done|].
  exists r. split; [done|]. rewrite Hr. clear Hr Er.
  assert (∀ i j b bi p, 0 <= i < len → 0 <= j < 8 → rd k (off + i) = Some b → rd k (half + off + i) = Some bi → rd pat i = Some p →
    bit_match (Z.testbit b j) (Z.testbit bi j) (Z.testbit p j) = true ↔
    Z.testbit (at_ dc i 0) j = true ∨ Z.testbit (at_ nm i 0) j = false ∧ Z.testbit (at_ (Some pat) i 0) j = Z.testbit (at_ (Some val) i 0) j) as Hbit.
  { intros i j b bi p Hi Hj Hb Hbi Hp. destruct (Hin i Hi) as (b' & bi' & Hb' & Hbi' & Hpair). rewrite Hb in Hb'. rewrite Hbi in Hbi'. injection Hb' as <-. injection Hbi' as <-.
    specialize (Hpair j Hj). unfold pair_at in Hpair. replace (Z.testbit (at_ None i 255) j) with true in Hpair
      by (change (at_ None i 255) with (Z.ones 8); symmetry; apply Z.ones_spec_low; lia).
    assert (Z.testbit (at_ dc i 0) j && Z.testbit (at_ nm i 0) j = false) as Hno by (by rewrite <- Z.land_spec, Hover, Z.bits_0).
    assert (at_ (Some pat) i 0 = p) as -> by (unfold at_; cbn [opt_byte]; by rewrite Hp). rewrite <- (encode_match _ _ _ (Z.testbit (default 0 (rd key (off + i))) j) (Z.testbit (default 0 (rd key (half + off + i))) j) _ Hno), <- Hpair. done. }
  split.
  - intros Hall i j Hi Hj. destruct (Hin i Hi) as (b & bi & Hb & Hbi & _). destruct (rd_in_range pat i ltac:(lia)) as [p Hp].
    apply (Hbit i j b bi p); try done. apply (Hall i b bi p); try done; by rewrite rd_drop by lia.
  - intros Hall i b bi p Hi Hb Hbi Hp j Hj. rewrite rd_drop in Hb, Hbi by lia. apply (Hbit i j b bi p); try done. by apply Hall.
Qed.

(** The shift for control domains of 8 bits is 16, so that the domain is not in the key. *)
Lemma prof_key_no_cdid ptg vsig cdid cdid' flags : 0 <= cdid → 0 <= cdid' → prof_key 8 ptg vsig cdid flags = prof_key 8 ptg vsig cdid' flags.
Proof.
  assert (∀ c, 0 <= c → u16 (u64 (u64 (1 .<< c) .<< 16)) = 0) as H.
  { intros c Hc. apply Z.bits_inj'. intros j Hj. rewrite Z.bits_0, !testbit_wrap by lia. destruct (Z.ltb_spec j 16); [|done]. rewrite Z.shiftl_spec_low by lia. by rewrite andb_false_r. }
  intros Hc Hc'. unfold prof_key, put_cdid, ICE_CD_8_S. cbn [Z.eqb Pos.eqb]. by rewrite !H.
Qed.

(** One byte at offset 1 of a key of four: bits 0 to 3 are 0101, the others do not matter. *)
Lemma set_key_match_witness : ∃ k, ice_set_key [0; 0; 0; 0] 4 [0x35] None (Some [0xf0]) None 1 1 = Some (ICE_SUCCESS, k) ∧
  ice_ternary_match (drop 1 k) (drop 3 k) [0xa5] 1 = Some true ∧ ice_ternary_match (drop 1 k) (drop 3 k) [0xa4] 1 = Some false.
Proof.
  destruct (set_key_match [0; 0; 0; 0] [0x35] (Some [0xf0]) None 2 1 1) as (k & E & _ & _ & Hm);
    [done|done|done|done|by split; [repeat constructor|]|by split; [repeat constructor|]|done|intros i Hi; by assert (i = 0) as -> by lia|done|].
  exists k. split; [exact E|]. vm_compute in E. injection E as <-. split; vm_compute; reflexivity.
Defined.
