(* ===== verification/IcePackage.v ===== *)
(** * Enumeration of the DDP package

    The parser tables are loaded from the ice segment of the DDP package: a
    buffer table behind two variable-length tables, buffers of 4096 bytes with a
    section directory each, sections with a header and fixed-size entries.  This
    file models the enumeration functions of ice_ddp.c ([ice_find_buf_table],
    [ice_pkg_val_buf], [ice_pkg_enum_buf], [ice_pkg_advance_sect],
    [ice_pkg_enum_section], [ice_pkg_enum_entry]) and the table construction of
    ice_parser.c ([ice_parser_sect_item_get], [ice_parser_create_table]), and
    shows that the stateful enumeration computes the list of entries that the
    segment's contents denote.

    The segment is a byte list and a pointer into it an offset; a read outside
    it, or of a field through [NULL], is [None].  The bounds of the two loops are
    computed from the segment's size and proved sufficient. *)
From S2P Require Import Prelude.

Definition ICE_PKG_BUF_SIZE : Z := 4096.
Definition ICE_MIN_S_OFF : Z := 12.
Definition ICE_MAX_S_OFF : Z := 4095.
Definition ICE_MIN_S_SZ : Z := 1.
Definition ICE_MAX_S_SZ : Z := 4084.
Definition ICE_MIN_S_COUNT : Z := 1.
Definition ICE_MAX_S_COUNT : Z := 511.
Definition ICE_MIN_S_DATA_END : Z := 12.
Definition ICE_MAX_S_DATA_END : Z := 4096.

Definition ICE_SID_XLT_KEY_BUILDER_SW : Z := 11.
Definition ICE_SID_XLT_KEY_BUILDER_ACL : Z := 21.
Definition ICE_SID_XLT_KEY_BUILDER_FD : Z := 31.
Definition ICE_SID_XLT_KEY_BUILDER_RSS : Z := 41.
Definition ICE_SID_RXPARSER_CAM : Z := 50.
Definition ICE_SID_RXPARSER_NOMATCH_CAM : Z := 51.
Definition ICE_SID_RXPARSER_IMEM : Z := 52.
Definition ICE_SID_RXPARSER_MARKER_PTYPE : Z := 55.
Definition ICE_SID_RXPARSER_BOOST_TCAM : Z := 56.
Definition ICE_SID_RXPARSER_PROTO_GRP : Z := 57.
Definition ICE_SID_RXPARSER_METADATA_INIT : Z := 58.
Definition ICE_SID_RXPARSER_MARKER_GRP : Z := 72.
Definition ICE_SID_RXPARSER_PG_SPILL : Z := 76.
Definition ICE_SID_RXPARSER_NOMATCH_SPILL : Z := 78.
Definition ICE_SID_RXPARSER_FLAG_REDIR : Z := 97.
Definition ICE_SID_LBL_RXPARSER_TMEM : Z := 0x80000018.

Definition ICE_SEC_DATA_OFFSET : Z := 4.
Definition ICE_SEC_LBL_DATA_OFFSET : Z := 2.

(** Layout of the segment: [struct ice_seg] has a 44-byte header, the device
    count and 8-byte device entries; [struct ice_nvm_table] a count and 4-byte
    versions; [struct ice_buf_table] a count and the buffers; [struct
    ice_buf_hdr] the section count, the data end and 8-byte section entries. *)
Definition off_device_table_count : Z := 44.
Definition off_device_table : Z := 48.
Definition sizeof_device_id_entry : Z := 8.
Definition sizeof_section_entry : Z := 8.

(** An entry handler: section type, section, index and the optional [*offset] it
    may write; it returns the entry and [*offset]. *)
Definition pkg_handler : Type := Z → option Z → Z → option Z → option (option Z * option Z).

Record ice_pkg_enum := mkEnum {
  buf_table : option Z;
  buf_idx : Z;
  type : Z;
  buf : option Z;
  sect_idx : Z;
  sect : option Z;
  sect_type : Z;
  entry_idx : Z;
  handler : option pkg_handler
}.

#[export] Instance enum_settable : Settable ice_pkg_enum := fun r =>
  mkEnum (buf_table r) (buf_idx r) (type r) (buf r) (sect_idx r) (sect r) (sect_type r)
    (entry_idx r) (handler r).

(** [memset(&state, 0, sizeof(state))]. *)
Definition enum_zero : ice_pkg_enum := mkEnum None 0 0 None 0 None 0 0 None.

Section with_segment.
Variable seg : list Z.

Definition ice_find_buf_table : option Z :=
  device_table_count ← load 4 seg off_device_table_count;
  let nvms := off_device_table + sizeof_device_id_entry * device_table_count in
  table_count ← load 4 seg nvms;
  Some (nvms + 4 + 4 * table_count).

(** Address of buffer [i] of the buffer table at [bt]. *)
Definition buf_addr (bt i : Z) : Z := bt + 4 + ICE_PKG_BUF_SIZE * i.

Definition ice_pkg_val_buf (b : Z) : option (option Z) :=
  section_count ← load 2 seg b;
  if (section_count <? ICE_MIN_S_COUNT) || (ICE_MAX_S_COUNT <? section_count)
  then Some None
  else
    data_end ← load 2 seg (b + 2);
    if (data_end <? ICE_MIN_S_DATA_END) || (ICE_MAX_S_DATA_END <? data_end)
    then Some None
    else Some (Some b).

(** [ice_seg] says whether the segment pointer is passed (the first call). *)
Definition ice_pkg_enum_buf (ice_seg : bool) (state : ice_pkg_enum)
    : option (option Z * ice_pkg_enum) :=
  if ice_seg then
    bt ← ice_find_buf_table;
    let state := state <| buf_table := Some bt |> <| buf_idx := 0 |> in
    r ← ice_pkg_val_buf (buf_addr bt 0);
    Some (r, state)
  else
    let state := state <| buf_idx := u32 (buf_idx state + 1) |> in
    bt ← buf_table state;
    buf_count ← load 4 seg bt;
    if buf_idx state <? buf_count then
      r ← ice_pkg_val_buf (buf_addr bt (buf_idx state));
      Some (r, state)
    else Some (None, state).

(** The tail of [ice_pkg_advance_sect]: move to the next buffer. *)
Definition enter_buf (r : option Z) (state : ice_pkg_enum) : bool * ice_pkg_enum :=
  let state := state <| buf := r |> in
  match r with
  | None => (false, state)
  | Some _ => (true, state <| sect_idx := 0 |>)
  end.

Definition advance_buf (ice_seg : bool) (state : ice_pkg_enum)
    : option (bool * ice_pkg_enum) :=
  '(r, state) ← ice_pkg_enum_buf ice_seg state;
  Some (enter_buf r state).

Definition ice_pkg_advance_sect (ice_seg : bool) (state : ice_pkg_enum)
    : option (bool * ice_pkg_enum) :=
  match ice_seg, buf state with
  | false, None => Some (false, state)
  | false, Some b =>
      let state := state <| sect_idx := u32 (sect_idx state + 1) |> in
      section_count ← load 2 seg b;
      if sect_idx state <? section_count then Some (true, state)
      else advance_buf ice_seg state
  | true, _ => advance_buf ice_seg state
  end.

(** Address of a section entry of the buffer at [b]. *)
Definition sect_entry (b i : Z) : Z := b + 4 + sizeof_section_entry * i.

(** One test of the scanning loop of [ice_pkg_enum_section]. *)
Definition scan_step (state : ice_pkg_enum) : option (ice_pkg_enum + bool * ice_pkg_enum) :=
  b ← buf state;
  ty ← load 4 seg (sect_entry b (sect_idx state));
  if ty =? type state then Some (inr (true, state))
  else
    '(ok, state) ← ice_pkg_advance_sect false state;
    if ok : bool then Some (inl state) else Some (inr (false, state)).

(** More than the number of sections of all buffers that lie in the segment. *)
Definition scan_bound : positive :=
  Z.to_pos (512 * (Z.of_nat (length seg) / ICE_PKG_BUF_SIZE + 2)).

Definition ice_pkg_enum_section (ice_seg : bool) (state : ice_pkg_enum) (ty : Z)
    : option (option Z * ice_pkg_enum) :=
  let state := if ice_seg then state <| type := ty |> else state in
  '(ok, state) ← ice_pkg_advance_sect ice_seg state;
  if negb ok then Some (None, state)
  else
    r ← iterate scan_step scan_bound state;
    match r with
    | inl _ => None
    | inr (false, state) => Some (None, state)
    | inr (true, state) =>
        b ← buf state;
        let e := sect_entry b (sect_idx state) in
        offset ← load 2 seg (e + 4);
        if (offset <? ICE_MIN_S_OFF) || (ICE_MAX_S_OFF <? offset) then Some (None, state)
        else
          size ← load 2 seg (e + 6);
          if (size <? ICE_MIN_S_SZ) || (ICE_MAX_S_SZ <? size) then Some (None, state)
          else if ICE_PKG_BUF_SIZE <? offset + size then Some (None, state)
          else
            sty ← load 4 seg e;
            let state := state <| sect_type := sty |> <| sect := Some (b + offset) |> in
            Some (sect state, state)
    end.

(** End of a section in [ice_pkg_enum_entry]: the first entry of the next section
    of the type. *)
Definition next_section (hd : pkg_handler) (state : ice_pkg_enum) (offset : option Z)
    : option (option Z * option Z * ice_pkg_enum) :=
  '(s, state) ← ice_pkg_enum_section false state 0;
  match s with
  | None => Some (None, offset, state)
  | Some _ =>
      let state := state <| entry_idx := 0 |> in
      '(entry, offset) ← hd (sect_type state) (sect state) (entry_idx state) offset;
      Some (entry, offset, state)
  end.

(** [offset] is the content of the optional [*offset]. *)
Definition ice_pkg_enum_entry (ice_seg : bool) (state : ice_pkg_enum) (ty : Z)
    (offset : option Z) (h : option pkg_handler)
    : option (option Z * option Z * ice_pkg_enum) :=
  '(go, state) ←
    (if ice_seg then
       match h with
       | None => Some (false, state)
       | Some _ =>
           '(s, state) ← ice_pkg_enum_section ice_seg state ty;
           match s with
           | None => Some (false, state)
           | Some _ => Some (true, state <| entry_idx := 0 |> <| handler := h |>)
           end
       end
     else Some (true, state <| entry_idx := u32 (entry_idx state + 1) |>));
  if negb go then Some (None, offset, state)
  else
    match handler state with
    | None => Some (None, offset, state)
    | Some hd =>
        '(entry, offset) ← hd (sect_type state) (sect state) (entry_idx state) offset;
        match entry with
        | Some _ => Some (entry, offset, state)
        | None => next_section hd state offset
        end
    end.

(** Offset of the entries and entry size by section type. *)
Definition sect_layout (ty : Z) : option (Z * Z) :=
  if ty =? ICE_SID_RXPARSER_IMEM then Some (ICE_SEC_DATA_OFFSET, 48)
  else if ty =? ICE_SID_RXPARSER_METADATA_INIT then Some (ICE_SEC_DATA_OFFSET, 24)
  else if ty =? ICE_SID_RXPARSER_CAM then Some (ICE_SEC_DATA_OFFSET, 16)
  else if ty =? ICE_SID_RXPARSER_PG_SPILL then Some (ICE_SEC_DATA_OFFSET, 17)
  else if ty =? ICE_SID_RXPARSER_NOMATCH_CAM then Some (ICE_SEC_DATA_OFFSET, 12)
  else if ty =? ICE_SID_RXPARSER_NOMATCH_SPILL then Some (ICE_SEC_DATA_OFFSET, 13)
  else if ty =? ICE_SID_RXPARSER_BOOST_TCAM then Some (ICE_SEC_DATA_OFFSET, 88)
  else if ty =? ICE_SID_LBL_RXPARSER_TMEM then Some (ICE_SEC_LBL_DATA_OFFSET, 66)
  else if ty =? ICE_SID_RXPARSER_MARKER_PTYPE then Some (ICE_SEC_DATA_OFFSET, 24)
  else if ty =? ICE_SID_RXPARSER_MARKER_GRP then Some (ICE_SEC_DATA_OFFSET, 8)
  else if ty =? ICE_SID_RXPARSER_PROTO_GRP then Some (ICE_SEC_DATA_OFFSET, 24)
  else if ty =? ICE_SID_RXPARSER_FLAG_REDIR then Some (ICE_SEC_DATA_OFFSET, 1)
  else None.

Definition ice_parser_sect_item_get : pkg_handler := fun ty section index offset =>
  match section with
  | None => Some (None, offset)
  | Some s =>
      match sect_layout ty with
      | None => Some (None, offset)
      | Some (data_off, size) =>
          count ← load 2 seg s;
          if count <=? index then Some (None, offset)
          else Some (Some (s + data_off + u32 (index * size)), offset)
      end
  end.

(** ** Building a table *)

Section create_table.
Context {item : Type} (parse_item : Z → list Z → option item) (ty : Z) (no_offset : bool).

(** State of the [do] loop: whether [seg] is still to be passed, the enumeration
    state, the index variable and the table. *)
Definition table_state : Type := bool * ice_pkg_enum * Z * list item.

Definition table_step (s : table_state) : option (table_state + list item) :=
  let '(first, state, idx, table) := s in
  '(data, _, state) ←
    ice_pkg_enum_entry first state ty None (Some ice_parser_sect_item_get);
  match data with
  | None => Some (inr table)
  | Some d =>
      idx ← (if no_offset then Some (u16 (idx + 1))
             else
               hdr ← sect state;
               off ← load 2 seg (hdr + 2);
               Some (u16 (off + entry_idx state)));
      it ← parse_item idx (drop (Z.to_nat d) seg);
      table ← wr table idx it;
      Some (inl (false, state, idx, table))
  end.

(** More than the number of entries: below 2^16 in each section. *)
Definition table_bound : positive := (65536 * scan_bound)%positive.

Definition create_table_loop (table : list item) : option (list item) :=
  r ← iterate table_step table_bound (true, enum_zero, 0xffff, table);
  match r with inr table => Some table | inl _ => None end.

End create_table.

End with_segment.

(** [seg] is [hw->seg]; [malloc_ok] says whether the allocation succeeds; memory
    from [ice_malloc] is zeroed, so that the table starts with [length] copies of
    the zero item. *)
Definition ice_parser_create_table {item} (seg : option (list Z)) (malloc_ok : bool)
    (ty : Z) (zero : item) (len : Z) (parse_item : Z → list Z → option item)
    (no_offset : bool) : option (option (list item)) :=
  match seg with
  | None => Some None
  | Some seg =>
      if negb malloc_ok then Some None
      else
        table ← create_table_loop seg parse_item ty no_offset (replicate (Z.to_nat len) zero);
        Some (Some table)
  end.

(** ** What a segment denotes

    The list of entries of a section type that the segment contains, as list
    functions of its bytes.  The enumeration ends at the first invalid buffer and
    at the first section of the type that does not fit its buffer; an empty
    section ends it too, unless it is the first one. *)
Section denotation.
Variables (seg : list Z) (bt n_bufs ty : Z).

Definition ld (n : nat) (off : Z) : Z := default 0 (load n seg off).

Definition sc (b : Z) : Z := ld 2 b.

Definition buf_valid (b : Z) : bool :=
  negb ((sc b <? ICE_MIN_S_COUNT) || (ICE_MAX_S_COUNT <? sc b)) &&
  negb ((ld 2 (b + 2) <? ICE_MIN_S_DATA_END) || (ICE_MAX_S_DATA_END <? ld 2 (b + 2))).

Fixpoint valid_bufs (n : nat) (k : Z) : list Z :=
  match n with
  | O => []
  | S n' =>
      if buf_valid (buf_addr bt k) then buf_addr bt k :: valid_bufs n' (k + 1) else []
  end.

(** Sections [i..] of the buffer at [b], as pairs of buffer and index. *)
Definition sects_from (b i : Z) : list (Z * Z) := (fun j => (b, j)) <$> seqZ i (sc b - i).

Definition positions (n : nat) (k : Z) : list (Z * Z) :=
  valid_bufs n k ≫= (fun b => sects_from b 0).

Definition sect_ty (q : Z * Z) : Z := ld 4 (sect_entry q.1 q.2).
Definition sect_off (q : Z * Z) : Z := ld 2 (sect_entry q.1 q.2 + 4).
Definition sect_size (q : Z * Z) : Z := ld 2 (sect_entry q.1 q.2 + 6).
Definition sect_ptr (q : Z * Z) : Z := q.1 + sect_off q.

Definition sect_ok (q : Z * Z) : bool :=
  negb ((sect_off q <? ICE_MIN_S_OFF) || (ICE_MAX_S_OFF <? sect_off q)) &&
  negb ((sect_size q <? ICE_MIN_S_SZ) || (ICE_MAX_S_SZ <? sect_size q)) &&
  negb (ICE_PKG_BUF_SIZE <? sect_off q + sect_size q).

(** The sections of the type, up to the first one that is not well placed. *)
Fixpoint sects_of (ps : list (Z * Z)) : list (Z * Z) :=
  match ps with
  | [] => []
  | q :: ps' =>
      if sect_ty q =? ty then if sect_ok q then q :: sects_of ps' else []
      else sects_of ps'
  end.

Definition sect_count (q : Z * Z) : Z := ld 2 (sect_ptr q).

(** Entries [e..] of a section. *)
Definition entries_from (q : Z * Z) (e : Z) : list (Z * Z * Z) :=
  (fun j => (q, j)) <$> seqZ e (sect_count q - e).

Fixpoint later_entries (qs : list (Z * Z)) : list (Z * Z * Z) :=
  match qs with
  | [] => []
  | q :: qs' => if sect_count q =? 0 then [] else entries_from q 0 ++ later_entries qs'
  end.

(** The number of buffers the enumeration looks at: it validates the first one
    whatever the count is. *)
Definition n_look : Z := Z.max n_bufs 1.

Definition pkg_sections : list (Z * Z) := sects_of (positions (Z.to_nat n_look) 0).

Definition pkg_entries : list (Z * Z * Z) :=
  match pkg_sections with
  | [] => []
  | q :: qs => entries_from q 0 ++ later_entries qs
  end.

Section placing.
Context {item : Type} (parse_item : Z → list Z → option item) (no_offset : bool).
Context (data_off size : Z).

(** Decode one entry into its table slot. *)
Definition place (acc : Z * list item) (e : Z * Z * Z) : option (Z * list item) :=
  let '(idx, table) := acc in
  let '(q, j) := e in
  let idx := if no_offset then u16 (idx + 1) else u16 (ld 2 (sect_ptr q + 2) + j) in
  it ← parse_item idx (drop (Z.to_nat (sect_ptr q + data_off + size * j)) seg);
  table ← wr table idx it;
  Some (idx, table).

Fixpoint place_all (acc : Z * list item) (es : list (Z * Z * Z)) : option (Z * list item) :=
  match es with
  | [] => Some acc
  | e :: es' => acc ← place acc e; place_all acc es'
  end.

End placing.

(** A segment whose buffers lie in memory, and whose sections of the type have
    their header in memory. *)
Record seg_ok : Prop := {
  so_bytes : bytes_ok seg;
  so_table : ice_find_buf_table seg = Some bt;
  so_bt : 0 <= bt;
  so_count : load 4 seg bt = Some n_bufs;
  so_n : 0 <= n_bufs < 2 ^ 32;
  so_len : buf_addr bt n_look <= Z.of_nat (length seg);
  so_hdr : Forall (fun q => sect_ptr q + 4 <= Z.of_nat (length seg)) pkg_sections
}.

End denotation.

(** ** Refinement *)
Section refinement.
Variables (seg : list Z) (bt n_bufs ty : Z).
Hypothesis Hok : seg_ok seg bt n_bufs ty.

Local Abbreviation N := (n_look n_bufs).
Local Abbreviation len := (Z.of_nat (length seg)).
Local Abbreviation buf_addr := (buf_addr bt).
Local Abbreviation ld := (ld seg).
Local Abbreviation sc := (sc seg).
Local Abbreviation positions := (positions seg bt).
Local Abbreviation sects_of := (sects_of seg ty).

Lemma load_ld n off : 0 <= off → off + Z.of_nat n <= len → load n seg off = Some (ld n off).
Proof.
  intros. destruct Hok. unfold IcePackage.ld. rewrite load_in_range by done. done.
Qed.

Lemma ld_width n off : in_width (8 * Z.of_nat n) (ld n off).
Proof.
  destruct Hok. unfold IcePackage.ld. destruct (load n seg off) as [v|] eqn:E; simpl.
  - apply load_slice in E as ->; [|done]. apply slice_width. lia.
  - unfold in_width. assert (0 < 2 ^ (8 * Z.of_nat n)) by (apply Z.pow_pos_nonneg; lia). lia.
Qed.

Lemma ld2_range off : 0 <= ld 2 off < 65536.
Proof. apply (ld_width 2). Qed.

Lemma N_pos : 1 <= N.
Proof. unfold n_look. lia. Qed.

(** Reads inside buffer [k] stay in the segment. *)
Lemma buf_in k off n : 0 <= k < N → 0 <= off → off + Z.of_nat n <= ICE_PKG_BUF_SIZE →
  load n seg (buf_addr k + off) = Some (ld n (buf_addr k + off)).
Proof.
  intros Hk Ho Hn. destruct Hok. unfold IcePackage.buf_addr, ICE_PKG_BUF_SIZE in *.
  apply load_ld; nia.
Qed.

Lemma buf_valid_sc b : buf_valid seg b = true → 1 <= sc b <= 511.
Proof.
  unfold buf_valid, ICE_MIN_S_COUNT, ICE_MAX_S_COUNT. intros. bool_to_prop. lia.
Qed.

Lemma val_buf_spec k : 0 <= k < N →
  ice_pkg_val_buf seg (buf_addr k)
    = Some (if buf_valid seg (buf_addr k) then Some (buf_addr k) else None).
Proof.
  intros Hk. unfold ice_pkg_val_buf.
  pose proof (buf_in k 0 2 Hk) as H0. rewrite Z.add_0_r in H0. rewrite H0 by done.
  rewrite (buf_in k 2 2) by done. unfold buf_valid, sc.
  simpl. destruct (_ || _); simpl; [done|]. by destruct (_ || _).
Qed.

(** The enumeration stands at section [i] of buffer [k]. *)
Definition at_pos (st : ice_pkg_enum) (k i : Z) : Prop :=
  buf_table st = Some bt ∧ buf_idx st = k ∧ buf st = Some (buf_addr k) ∧
  sect_idx st = i ∧ 0 <= k < N ∧ buf_valid seg (buf_addr k) = true ∧
  0 <= i < sc (buf_addr k).

(** The positions after it. *)
Definition rest (k i : Z) : list (Z * Z) :=
  sects_from seg (buf_addr k) (i + 1) ++ positions (Z.to_nat (N - (k + 1))) (k + 1).

Definition frame (st st' : ice_pkg_enum) : Prop :=
  type st' = type st ∧ handler st' = handler st.

(** [ice_pkg_advance_sect] moves to the head of [ps]. *)
Definition advances (first : bool) (st : ice_pkg_enum) (ps : list (Z * Z)) : Prop :=
  match ps with
  | [] => ∃ st', ice_pkg_advance_sect seg first st = Some (false, st')
  | q :: qs => ∃ st' k', ice_pkg_advance_sect seg first st = Some (true, st') ∧
      at_pos st' k' q.2 ∧ q.1 = buf_addr k' ∧ qs = rest k' q.2 ∧ frame st st'
  end.

Lemma sects_from_cons b i : 0 <= i < sc b →
  sects_from seg b i = (b, i) :: sects_from seg b (i + 1).
Proof.
  intros. unfold sects_from. rewrite seqZ_cons by lia. simpl.
  by replace (Z.succ i) with (i + 1) by lia; replace (Z.pred (sc b - i)) with (sc b - (i + 1)) by lia.
Qed.

Lemma positions_next k : 0 <= k < N →
  positions (Z.to_nat (N - k)) k =
    if buf_valid seg (buf_addr k) then (buf_addr k, 0) :: rest k 0 else [].
Proof.
  intros Hk. unfold IcePackage.positions, rest.
  replace (Z.to_nat (N - k)) with (S (Z.to_nat (N - (k + 1)))) by lia. simpl.
  destruct (buf_valid seg (buf_addr k)) eqn:E; [|done]. simpl.
  rewrite sects_from_cons by (apply buf_valid_sc in E; lia). done.
Qed.

Lemma enter_buf_spec st st0 k : 0 <= k < N →
  buf_table st0 = Some bt → buf_idx st0 = k → frame st st0 →
  let r := enter_buf (if buf_valid seg (buf_addr k) then Some (buf_addr k) else None) st0 in
  match (if buf_valid seg (buf_addr k) then (buf_addr k, 0) :: rest k 0 else []) with
  | [] => r.1 = false
  | q :: qs => r.1 = true ∧
      at_pos r.2 k 0 ∧ q = (buf_addr k, 0) ∧ qs = rest k 0 ∧ frame st r.2
  end.
Proof.
  intros Hk Hbt Hidx [Hf1 Hf2]. destruct (buf_valid seg (buf_addr k)) eqn:E; simpl; [|done].
  pose proof (buf_valid_sc _ E). unfold at_pos, frame. simpl. split_and!; done || lia.
Qed.

Lemma advance_buf_spec first st k :
  0 <= k <= N →
  (if first : bool then k = 0 else buf_table st = Some bt ∧ buf_idx st = k - 1 ∧ 1 <= k) →
  ∃ r, advance_buf seg first st = Some r ∧
  match positions (Z.to_nat (N - k)) k with
  | [] => r.1 = false
  | q :: qs => r.1 = true ∧
      at_pos r.2 k 0 ∧ q = (buf_addr k, 0) ∧ qs = rest k 0 ∧ frame st r.2
  end.
Proof.
  intros HkN Hst. unfold advance_buf, ice_pkg_enum_buf.
  pose proof N_pos. pose proof (so_n _ _ _ _ Hok). destruct first.
  - subst k. rewrite (so_table _ _ _ _ Hok). simpl. rewrite val_buf_spec by lia. simpl.
    eexists. split; [done|]. rewrite positions_next by lia. apply enter_buf_spec; done || lia.
  - destruct Hst as (Hbt & Hidx & Hk1). simpl. rewrite Hbt, Hidx. simpl.
    rewrite (so_count _ _ _ _ Hok). simpl. replace (k - 1 + 1) with k by lia.
    rewrite wrap_small by (unfold in_width, n_look in *; lia).
    destruct (Z.ltb_spec k n_bufs).
    + rewrite val_buf_spec by (unfold n_look in *; lia). simpl. eexists. split; [done|].
      rewrite positions_next by (unfold n_look in *; lia).
      apply enter_buf_spec; try done. unfold n_look; lia.
    + eexists. split; [done|]. replace k with N by (unfold n_look in *; lia).
      by rewrite Z.sub_diag.
Qed.

Lemma advance_first st : advances true st (positions (Z.to_nat N) 0).
Proof.
  pose proof N_pos. destruct (advance_buf_spec true st 0) as (r & Hr & Hm); [lia|done|].
  rewrite Z.sub_0_r in Hm. unfold advances, ice_pkg_advance_sect.
  destruct (positions (Z.to_nat N) 0) as [|q qs], r as [ok st'];
    rewrite Hr; simpl in *; [exists st'; by subst|].
  destruct Hm as (-> & Hat & -> & -> & Hf). by exists st', 0.
Qed.

Lemma advance_next st k i : at_pos st k i → advances false st (rest k i).
Proof.
  intros (Hbt & Hidx & Hb & Hi & Hk & Hv & Hir). unfold advances, ice_pkg_advance_sect, rest.
  pose proof (buf_valid_sc _ Hv). rewrite Hb, Hi.
  pose proof (buf_in k 0 2 Hk) as Hld. rewrite Z.add_0_r in Hld. rewrite Hld by done.
  cbn [mbind option_bind]. rewrite wrap_small by (unfold in_width; lia). cbn [sect_idx set_field].
  change (ld 2 (buf_addr k)) with (sc (buf_addr k)).
  destruct (Z.ltb_spec (i + 1) (sc (buf_addr k))) as [Hlt|Hge].
  - rewrite sects_from_cons by lia. simpl.
    eexists _, k. split_and!; try done. unfold at_pos. simpl. split_and!; done || lia.
  - assert (sects_from seg (buf_addr k) (i + 1) = []) as ->.
    { unfold sects_from. by rewrite seqZ_nil by lia. }
    cbn [app].
    match goal with |- context [advance_buf seg false ?s] =>
      destruct (advance_buf_spec false s (k + 1)) as (r & Hr & Hm) end;
      [lia|simpl; split_and!; done || lia|].
    destruct (positions (Z.to_nat (N - (k + 1))) (k + 1)) as [|q qs], r as [ok st'];
      rewrite Hr; simpl in *; [exists st'; by subst|].
    destruct Hm as (-> & Hat & -> & -> & Hf). by exists st', (k + 1).
Qed.

(** Skip to the first section of the type. *)
Fixpoint skip (ps : list (Z * Z)) : list (Z * Z) :=
  match ps with
  | [] => []
  | q :: ps' => if sect_ty seg q =? ty then ps else skip ps'
  end.

Lemma skip_head ps p qs : skip ps = p :: qs → sect_ty seg p = ty.
Proof.
  induction ps as [|q ps IH]; simpl; [done|].
  destruct (Z.eqb_spec (sect_ty seg q) ty); [|done]. by intros [= <- _].
Qed.

Lemma sects_of_skip ps : sects_of ps =
  match skip ps with
  | [] => []
  | q :: qs => if sect_ok seg q then q :: sects_of qs else []
  end.
Proof.
  induction ps as [|q ps IH]; simpl; [done|]. by destruct (sect_ty seg q =? ty).
Qed.

Lemma sect_entry_in k i off n : 0 <= k < N → buf_valid seg (buf_addr k) = true →
  0 <= i < sc (buf_addr k) → 0 <= off → off + Z.of_nat n <= 8 →
  load n seg (sect_entry (buf_addr k) i + off) = Some (ld n (sect_entry (buf_addr k) i + off)).
Proof.
  intros Hk Hv Hi Ho Hn. apply buf_valid_sc in Hv.
  unfold sect_entry, sizeof_section_entry.
  replace (buf_addr k + 4 + 8 * i + off) with (buf_addr k + (4 + 8 * i + off)) by lia.
  apply buf_in; unfold ICE_PKG_BUF_SIZE; lia.
Qed.

Lemma length_valid_bufs n k : (length (valid_bufs seg bt n k) <= n)%nat.
Proof.
  revert k. induction n as [|n IH]; intros k; simpl; [lia|].
  destruct (buf_valid _ _); simpl; [|lia]. specialize (IH (k + 1)). lia.
Qed.

Lemma length_positions n k : (length (positions n k) <= 511 * n)%nat.
Proof.
  unfold IcePackage.positions. revert k. induction n as [|n IH]; intros k; [done|].
  cbn [valid_bufs]. destruct (buf_valid seg (buf_addr k)) eqn:E; [|simpl length; lia].
  apply buf_valid_sc in E. rewrite bind_cons, length_app. specialize (IH (k + 1)).
  unfold sects_from at 1. rewrite length_fmap, length_seqZ. lia.
Qed.

Lemma length_rest k i : 0 <= k < N → buf_valid seg (buf_addr k) = true → 0 <= i →
  Z.of_nat (length (rest k i)) < 511 * (N + 1).
Proof.
  intros Hk Hv Hi. apply buf_valid_sc in Hv. unfold rest. rewrite length_app.
  pose proof (length_positions (Z.to_nat (N - (k + 1))) (k + 1)).
  unfold sects_from. rewrite length_fmap, length_seqZ. lia.
Qed.

Lemma scan_bound_enough : 511 * (N + 1) < Zpos (scan_bound seg).
Proof.
  pose proof (so_len _ _ _ _ Hok) as Hl. pose proof (so_bt _ _ _ _ Hok).
  pose proof N_pos. unfold scan_bound, IcePackage.buf_addr, ICE_PKG_BUF_SIZE in *.
  assert (N <= len / 4096) by (apply Z.div_le_lower_bound; lia).
  rewrite Z2Pos.id; lia.
Qed.

Lemma scan_spec st k i : at_pos st k i → type st = ty →
  ∃ q, iterate (scan_step seg) (scan_bound seg) st = Some (inr q) ∧
    match skip ((buf_addr k, i) :: rest k i) with
    | [] => q.1 = false
    | p :: ps => q.1 = true ∧ ∃ k', at_pos q.2 k' p.2 ∧ p.1 = buf_addr k' ∧
        ps = rest k' p.2 ∧ frame st q.2
    end.
Proof.
  intros Hat Hty. remember (skip ((buf_addr k, i) :: rest k i)) as target eqn:Ht0.
  apply (iterate_total (scan_step seg)
    (fun s => ∃ k i, at_pos s k i ∧ frame st s ∧
       skip ((buf_addr k, i) :: rest k i) = target)
    (fun q => match target with
       | [] => q.1 = false
       | p :: ps => q.1 = true ∧ ∃ k', at_pos q.2 k' p.2 ∧ p.1 = buf_addr k' ∧
           ps = rest k' p.2 ∧ frame st q.2
       end)
    (fun s => Z.of_nat (length (rest (buf_idx s) (sect_idx s))))).
  - exists k, i. by split_and!.
  - destruct Hat as (_ & -> & _ & -> & Hk & Hv & Hi).
    pose proof (length_rest k i Hk Hv). pose proof scan_bound_enough. lia.
  - clear k i Hat Ht0. intros s (k & i & Hat & Hf & Ht). generalize Hat.
    intros (_ & Hbi & Hb & Hsi & Hk & Hv & Hi). unfold scan_step. rewrite Hb. cbn [mbind option_bind].
    pose proof (sect_entry_in k i 0 4 Hk Hv Hi) as Hl. rewrite Z.add_0_r in Hl.
    rewrite Hsi, Hl by done. cbn [mbind option_bind]. simpl in Ht.
    change (ld 4 (sect_entry (buf_addr k) i)) with (sect_ty seg (buf_addr k, i)).
    replace (type s) with ty by (destruct Hf; congruence).
    destruct (sect_ty seg (buf_addr k, i) =? ty).
    { eexists. split; [done|]. subst target. simpl. split; [done|]. exists k. by split_and!. }
    pose proof (advance_next s k i Hat) as Ha. unfold advances in Ha.
    destruct (rest k i) as [|q qs] eqn:Hr.
    + destruct Ha as [st' ->]. eexists. split; [done|]. simpl in Ht. by subst target.
    + destruct Ha as (st' & k' & -> & Hat' & Hq & -> & Hf'). eexists. split; [done|].
      simpl. split.
      * exists k', q.2. split_and!; [done| |].
        -- unfold frame in *. destruct Hf, Hf'. split; congruence.
        -- rewrite <- Hq. by destruct q.
      * destruct Hat' as (_ & -> & _ & -> & _). rewrite ?Hbi, ?Hsi, Hr. simpl. lia.
Qed.

Lemma enum_section_spec first st tyarg ps :
  let st0 := if first : bool then st <| type := tyarg |> else st in
  type st0 = ty → advances first st0 ps →
  ∃ r, ice_pkg_enum_section seg first st tyarg = Some r ∧
    match sects_of ps with
    | [] => r.1 = None
    | q :: qs => r.1 = Some (sect_ptr seg q) ∧ sect r.2 = Some (sect_ptr seg q) ∧
        sect_type r.2 = ty ∧ frame st0 r.2 ∧
        ∃ k, at_pos r.2 k q.2 ∧ q.1 = buf_addr k ∧ qs = sects_of (rest k q.2)
    end.
Proof.
  intros st0 Hty Ha. unfold ice_pkg_enum_section. fold st0.
  destruct ps as [|q qs]; simpl in Ha.
  { destruct Ha as [st' ->]. by eexists. }
  destruct Ha as (st' & k' & -> & Hat & Hq & -> & Hf). cbn [mbind option_bind negb].
  destruct (scan_spec st' k' q.2 Hat) as ([ok st2] & -> & Hs);
    [destruct Hf; congruence|]. cbn [mbind option_bind].
  rewrite <- Hq, <- surjective_pairing in Hs. rewrite sects_of_skip.
  destruct (skip (q :: rest k' q.2)) as [|p ps] eqn:Hsk; cbn [fst snd] in Hs.
  { subst ok. by eexists. }
  destruct Hs as (-> & k2 & Hat2 & Hp & -> & Hf2). generalize Hat2.
  intros (_ & _ & Hb & Hsi & Hk & Hv & Hi). rewrite Hb, Hsi. cbn [mbind option_bind].
  pose proof (sect_entry_in k2 p.2 0 4 Hk Hv Hi) as Hl. rewrite Z.add_0_r in Hl.
  rewrite (sect_entry_in k2 p.2 4 2), (sect_entry_in k2 p.2 6 2), Hl by done.
  rewrite <- Hp. cbn [mbind option_bind]. unfold sect_ok.
  change (ld 2 (sect_entry p.1 p.2 + 4)) with (sect_off seg p).
  change (ld 2 (sect_entry p.1 p.2 + 6)) with (sect_size seg p).
  change (ld 4 (sect_entry p.1 p.2)) with (sect_ty seg p).
  destruct ((sect_off seg p <? _) || _); simpl; [by eexists|].
  destruct ((sect_size seg p <? _) || _); simpl; [by eexists|].
  destruct (ICE_PKG_BUF_SIZE <? _); simpl; [by eexists|].
  eexists. split; [done|]. simpl. split_and!; try done.
  - by eapply skip_head.
  - unfold frame in *. simpl. destruct Hf, Hf2. split; congruence.
  - exists k2. by split_and!.
Qed.

(** The enumeration stands at entry [e] of section [q], with the sections [qs]
    to come. *)
Definition at_entry (st : ice_pkg_enum) (q : Z * Z) (e : Z) (qs : list (Z * Z)) : Prop :=
  sect st = Some (sect_ptr seg q) ∧ sect_type st = ty ∧ type st = ty ∧
  handler st = Some (ice_parser_sect_item_get seg) ∧ entry_idx st = e ∧
  0 <= e < sect_count seg q ∧
  (∃ k, at_pos st k q.2 ∧ q.1 = buf_addr k ∧ qs = sects_of (rest k q.2)) ∧
  Forall (fun q => sect_ptr seg q + 4 <= len) (q :: qs).

Context (data_off size : Z) (Hlay : sect_layout ty = Some (data_off, size)).

Definition entry_ptr (q : Z * Z) (e : Z) : Z := sect_ptr seg q + data_off + size * e.

Lemma size_range : 1 <= size <= 88.
Proof.
  generalize Hlay. unfold sect_layout.
  repeat (case_match; [intros [= <- <-]; lia|]). done.
Qed.

Lemma item_get_spec q e off : 0 <= sect_ptr seg q → sect_ptr seg q + 4 <= len → 0 <= e →
  ice_parser_sect_item_get seg ty (Some (sect_ptr seg q)) e off =
    Some (if sect_count seg q <=? e then None else Some (entry_ptr q e), off).
Proof.
  intros Hp Hl He. unfold ice_parser_sect_item_get. rewrite Hlay.
  rewrite load_ld by lia. cbn [mbind option_bind].
  change (ld 2 (sect_ptr seg q)) with (sect_count seg q).
  destruct (Z.leb_spec (sect_count seg q) e); [done|].
  pose proof size_range. pose proof (ld2_range (sect_ptr seg q)).
  unfold sect_count in *. rewrite wrap_small by (unfold in_width; nia).
  unfold entry_ptr. by rewrite Z.mul_comm.
Qed.

Lemma sect_ptr_nonneg st k i q : at_pos st k i → q.1 = buf_addr k → 0 <= sect_ptr seg q.
Proof.
  intros (_ & _ & _ & _ & Hk & _ & _) Hq. unfold sect_ptr. rewrite Hq.
  pose proof (ld2_range (sect_entry q.1 q.2 + 4)). pose proof (so_bt _ _ _ _ Hok).
  unfold sect_off, IcePackage.buf_addr, ICE_PKG_BUF_SIZE in *. rewrite Hq in *. nia.
Qed.

Lemma entries_from_cons q e : 0 <= e < sect_count seg q →
  entries_from seg q e = (q, e) :: entries_from seg q (e + 1).
Proof.
  intros. unfold entries_from. rewrite seqZ_cons by lia. simpl.
  by replace (Z.succ e) with (e + 1) by lia;
    replace (Z.pred (sect_count seg q - e)) with (sect_count seg q - (e + 1)) by lia.
Qed.

Lemma entries_from_nil q e : sect_count seg q <= e → entries_from seg q e = [].
Proof. intros. unfold entries_from. by rewrite seqZ_nil by lia. Qed.

Lemma entries_step q e es : 0 <= e → entries_from seg q e ++ es =
  if sect_count seg q <=? e then es else (q, e) :: entries_from seg q (e + 1) ++ es.
Proof.
  intros. destruct (Z.leb_spec (sect_count seg q) e).
  - by rewrite entries_from_nil.
  - by rewrite entries_from_cons by lia.
Qed.

(** The results of [ice_pkg_enum_entry] that continue with [es]. *)
Definition continues (r : option Z * option Z * ice_pkg_enum) (es : list (Z * Z * Z)) : Prop :=
  match es with
  | [] => r.1.1 = None
  | (q, e) :: es' => r.1.1 = Some (entry_ptr q e) ∧ ∃ qs, at_entry r.2 q e qs ∧
      es' = entries_from seg q (e + 1) ++ later_entries seg qs
  end.

Lemma next_section_spec st k i : at_pos st k i → type st = ty →
  handler st = Some (ice_parser_sect_item_get seg) →
  Forall (fun q => sect_ptr seg q + 4 <= len) (sects_of (rest k i)) →
  ∃ r, next_section seg (ice_parser_sect_item_get seg) st None = Some r ∧
    continues r (later_entries seg (sects_of (rest k i))).
Proof.
  intros Hat Hty Hh Hhdr. unfold next_section.
  destruct (enum_section_spec false st 0 (rest k i)) as ([s st'] & -> & Hs);
    [done|by apply advance_next|]. cbn [mbind option_bind].
  destruct (sects_of (rest k i)) as [|q qs]; cbn [fst snd] in Hs.
  { subst s. by eexists. }
  destruct Hs as (-> & Hsect & Hst & [Hf1 Hf2] & k' & Hat' & Hq & Hqs).
  simpl. rewrite Hst, Hsect, item_get_spec;
    [|by eapply sect_ptr_nonneg|by inversion Hhdr|done].
  simpl. eexists. split; [done|]. unfold continues. simpl.
  destruct (Z.eqb_spec (sect_count seg q) 0) as [E|E].
  { rewrite E. done. }
  pose proof (ld2_range (sect_ptr seg q)). unfold sect_count in *.
  rewrite (proj2 (Z.leb_gt _ _)) by lia.
  rewrite entries_from_cons by (unfold sect_count; lia). simpl. split; [done|].
  exists qs. split; [|done]. unfold at_entry. simpl. unfold sect_count.
  split_and!; try done; try lia; [congruence..|]. by exists k'.
Qed.

Lemma enum_entry_next st q e qs : at_entry st q e qs →
  ∃ r, ice_pkg_enum_entry seg false st ty None (Some (ice_parser_sect_item_get seg)) = Some r ∧
    continues r (entries_from seg q (e + 1) ++ later_entries seg qs).
Proof.
  intros (Hsect & Hst & Hty & Hh & He & Her & (k & Hat & Hq & ->) & Hhdr).
  unfold ice_pkg_enum_entry. cbn [mbind option_bind negb].
  pose proof (ld2_range (sect_ptr seg q)). unfold sect_count in Her.
  simpl. rewrite Hh, Hst, Hsect, He, wrap_small by (unfold in_width; lia).
  rewrite item_get_spec; [|by eapply sect_ptr_nonneg|by inversion Hhdr|lia].
  cbn [mbind option_bind]. rewrite entries_step by lia.
  destruct (Z.leb_spec (sect_count seg q) (e + 1)).
  - eapply next_section_spec; [exact Hat|done|done|]. by inversion Hhdr.
  - eexists. split; [done|]. simpl. split; [done|]. eexists. split; [|done].
    unfold at_entry. simpl. split_and!; try done; try lia. by exists k.
Qed.

Lemma enum_entry_first :
  ∃ r, ice_pkg_enum_entry seg true enum_zero ty None (Some (ice_parser_sect_item_get seg))
         = Some r ∧
    continues r (pkg_entries seg bt n_bufs ty).
Proof.
  unfold ice_pkg_enum_entry, pkg_entries, pkg_sections.
  pose proof (so_hdr _ _ _ _ Hok) as Hhdr. unfold pkg_sections in Hhdr.
  destruct (enum_section_spec true enum_zero ty (positions (Z.to_nat N) 0))
    as ([s st'] & -> & Hs); [done|apply advance_first|]. cbn [mbind option_bind].
  destruct (sects_of (positions (Z.to_nat N) 0)) as [|q qs]; cbn [fst snd] in Hs.
  { subst s. by eexists. }
  destruct Hs as (-> & Hsect & Hst & [Hf1 _] & k & Hat & Hq & ->). simpl in Hf1. simpl.
  rewrite Hst, Hsect, item_get_spec; [|by eapply sect_ptr_nonneg|by inversion Hhdr|done].
  cbn [mbind option_bind]. rewrite entries_step by lia.
  destruct (Z.leb_spec (sect_count seg q) 0).
  - eapply next_section_spec; [exact Hat|done|done|]. by inversion Hhdr.
  - eexists. split; [done|]. simpl. split; [done|]. eexists. split; [|done].
    unfold at_entry. simpl. split_and!; try done; try lia. by exists k.
Qed.

Lemma length_entries_from q e : 0 <= e → Z.of_nat (length (entries_from seg q e)) <= 65535.
Proof.
  intros. unfold entries_from. rewrite length_fmap, length_seqZ.
  pose proof (ld2_range (sect_ptr seg q)). unfold sect_count. lia.
Qed.

Lemma length_later_entries qs :
  Z.of_nat (length (later_entries seg qs)) <= 65535 * Z.of_nat (length qs).
Proof.
  induction qs as [|q qs IH]; [done|]. cbn [later_entries].
  destruct (sect_count seg q =? 0); [simpl length; lia|]. rewrite length_app.
  pose proof (length_entries_from q 0). simpl length. lia.
Qed.

Lemma length_sects_of ps : (length (sects_of ps) <= length ps)%nat.
Proof.
  induction ps as [|q ps IH]; simpl; [lia|].
  destruct (_ =? _); [destruct (sect_ok seg q); simpl; lia|lia].
Qed.

Lemma table_bound_enough :
  Z.of_nat (length (pkg_entries seg bt n_bufs ty)) < Zpos (table_bound seg).
Proof.
  pose proof scan_bound_enough. pose proof N_pos.
  pose proof (length_positions (Z.to_nat N) 0) as Hp.
  pose proof (length_sects_of (positions (Z.to_nat N) 0)) as Hs.
  assert (Z.of_nat (length (pkg_entries seg bt n_bufs ty))
    <= 65535 * Z.of_nat (length (sects_of (positions (Z.to_nat N) 0)))) as He.
  { unfold pkg_entries, pkg_sections. destruct (sects_of _) as [|q qs]; [done|].
    rewrite length_app. pose proof (length_entries_from q 0).
    pose proof (length_later_entries qs). simpl length. lia. }
  assert (Z.of_nat (length (sects_of (positions (Z.to_nat N) 0))) <= 511 * N) by lia.
  unfold table_bound. rewrite Pos2Z.inj_mul. lia.
Qed.

Section tables.
Context {item : Type} (parse_item : Z → list Z → option item) (no_offset : bool).

Definition enumerates (first : bool) (st : ice_pkg_enum) (es : list (Z * Z * Z)) : Prop :=
  ∃ r, ice_pkg_enum_entry seg first st ty None (Some (ice_parser_sect_item_get seg)) = Some r ∧
    continues r es.

Lemma table_step_spec first st idx table es : enumerates first st es →
  match es with
  | [] => table_step seg parse_item ty no_offset (first, st, idx, table) = Some (inr table)
  | e :: es' => ∃ st', enumerates false st' es' ∧
      table_step seg parse_item ty no_offset (first, st, idx, table) =
        (a ← place seg parse_item no_offset data_off size (idx, table) e;
         Some (inl (false, st', a.1, a.2)))
  end.
Proof.
  intros ([[d off] st'] & Hr & Hc). unfold table_step. rewrite Hr. cbn [mbind option_bind].
  destruct es as [|[q e] es]; simpl in Hc; [by subst d|].
  destruct Hc as (-> & qs & Hat & ->). exists st'. split; [by apply enum_entry_next|].
  destruct Hat as (-> & _ & _ & _ & -> & _ & (k & Hpos & Hq & _) & Hhdr).
  inversion Hhdr as [|? ? Hl _]; subst.
  pose proof (sect_ptr_nonneg _ _ _ _ Hpos Hq). cbn [mbind option_bind].
  rewrite load_ld by lia. cbn [mbind option_bind place]. fold (entry_ptr q e).
  destruct no_offset; cbn [mbind option_bind];
    (destruct (parse_item _ _); [|done]; cbn [mbind option_bind];
     destruct (wr _ _ _); done).
Qed.

Lemma table_loop_spec n first st idx table es :
  enumerates first st es → (length es < n)%nat →
  iterate_nat (table_step seg parse_item ty no_offset) n (first, st, idx, table) =
    (fun a => inr a.2) <$> place_all seg parse_item no_offset data_off size (idx, table) es.
Proof.
  revert first st idx table es.
  induction n as [|n IH]; intros first st idx table es Hen Hlen; [lia|].
  apply (table_step_spec first st idx table) in Hen. cbn [iterate_nat].
  destruct es as [|e es]; [by rewrite Hen|].
  destruct Hen as (st' & Hen & ->). cbn [place_all].
  destruct (place _ _ _ _ _ _ _) as [[idx' table']|]; [|done].
  cbn [mbind option_bind]. apply IH; [done|]. simpl in Hlen. lia.
Qed.

Lemma create_table_loop_spec table :
  create_table_loop seg parse_item ty no_offset table =
    snd <$> place_all seg parse_item no_offset data_off size (0xffff, table)
              (pkg_entries seg bt n_bufs ty).
Proof.
  unfold create_table_loop. rewrite iterate_unfold.
  rewrite (table_loop_spec _ _ _ _ _ (pkg_entries seg bt n_bufs ty)).
  - by destruct (place_all _ _ _ _ _ _ _).
  - apply enum_entry_first.
  - pose proof table_bound_enough. lia.
Qed.

End tables.
End refinement.

(** ** Loading a table *)

(** C35. Package enumeration: loading a table from a segment whose buffers lie in
    memory terminates, and decodes exactly the entries the segment denotes, in
    order, each from its own position and into its own slot. *)
Theorem create_table_refines {item} seg bt n_bufs ty data_off size (zero : item) len
    parse_item no_offset :
  seg_ok seg bt n_bufs ty → sect_layout ty = Some (data_off, size) →
  ice_parser_create_table (Some seg) true ty zero len parse_item no_offset =
    (fun a => Some a.2) <$> place_all seg parse_item no_offset data_off size
      (0xffff, replicate (Z.to_nat len) zero) (pkg_entries seg bt n_bufs ty).
Proof.
  intros Hok Hlay. unfold ice_parser_create_table. simpl.
  rewrite (create_table_loop_spec seg bt n_bufs ty Hok data_off size Hlay).
  by destruct (place_all _ _ _ _ _ _ _) as [[]|].
Qed.

Lemma place_all_in_order {item} seg (parse_item : Z → list Z → option item) data_off size es :
  ∀ idx table j idx' table', place_all seg parse_item true data_off size (idx, table) es
    = Some (idx', table') → u16 (idx + 1) = j → j + Z.of_nat (length es) <= 65536 →
  length table' = length table ∧
  (∀ k q e, es !! k = Some (q, e) → ∃ it, rd table' (j + Z.of_nat k) = Some it ∧
     parse_item (j + Z.of_nat k)
       (drop (Z.to_nat (sect_ptr seg q + data_off + size * e)) seg) = Some it) ∧
  (∀ k, k < j ∨ j + Z.of_nat (length es) <= k → rd table' k = rd table k).
Proof.
  induction es as [|[q e] es IH]; intros idx table j idx' table' Hp Hj Hle.
  { injection Hp as <- <-. split_and!; done. }
  cbn [place_all place] in Hp. rewrite Hj in Hp. simpl in Hle.
  destruct (parse_item j _) as [it|] eqn:Hit; [|done]. cbn [mbind option_bind] in Hp.
  destruct (wr table j it) as [t|] eqn:Hwr; [|done]. cbn [mbind option_bind] in Hp.
  assert (0 <= j) by (rewrite <- Hj; by apply wrap_width).
  destruct es as [|e2 es].
  { injection Hp as <- <-. split_and!; [by eapply wr_length| |].
    - intros [|k] q' e'; [|done]. intros [= <- <-]. rewrite Z.add_0_r. exists it.
      split; [by eapply rd_wr_eq|done].
    - intros k Hk. eapply rd_wr_ne; [done|]. simpl in Hk. lia. }
  destruct (IH j t (j + 1) idx' table' Hp) as (Hl & Hin & Hout).
  { apply wrap_small. unfold in_width. simpl in Hle. lia. }
  { simpl in *. lia. }
  split_and!; [by rewrite Hl; eapply wr_length| |].
  - intros [|k] q' e' Hk.
    + injection Hk as <- <-. rewrite Z.add_0_r. exists it. split; [|done].
      rewrite Hout by lia. by eapply rd_wr_eq.
    + replace (j + Z.of_nat (S k)) with (j + 1 + Z.of_nat k) by lia. by apply Hin.
  - intros k Hk. rewrite Hout by (simpl in *; lia). eapply rd_wr_ne; [done|]. simpl in Hk. lia.
Qed.

(** Tables without an offset: when loading succeeds, entry [k] of the
    enumeration is decoded into slot [k], and the slots after the last entry keep
    the zero item. *)
Theorem create_table_in_order {item} seg bt n_bufs ty data_off size (zero : item) len
    parse_item table :
  seg_ok seg bt n_bufs ty → sect_layout ty = Some (data_off, size) →
  Z.of_nat (length (pkg_entries seg bt n_bufs ty)) <= 65536 →
  ice_parser_create_table (Some seg) true ty zero len parse_item true = Some (Some table) →
  length table = Z.to_nat len ∧
  (∀ k q e, pkg_entries seg bt n_bufs ty !! k = Some (q, e) →
     ∃ it, rd table (Z.of_nat k) = Some it ∧
       parse_item (Z.of_nat k)
         (drop (Z.to_nat (sect_ptr seg q + data_off + size * e)) seg) = Some it) ∧
  (∀ k, Z.of_nat (length (pkg_entries seg bt n_bufs ty)) <= k < len →
     rd table k = Some zero).
Proof.
  intros Hok Hlay Hlen. unfold ice_parser_create_table. simpl.
  rewrite (create_table_loop_spec seg bt n_bufs ty Hok data_off size Hlay).
  destruct (place_all _ _ _ _ _ _ _) as [[idx' table']|] eqn:Hp; [|done].
  intros [= ->]. apply (place_all_in_order _ _ _ _ _ _ _ 0) in Hp as (Hl & Hin & Hout);
    [|done|done].
  rewrite length_replicate in Hl. split_and!; [done|exact Hin|].
  intros k Hk. rewrite Hout by lia. unfold rd. rewrite (proj2 (Z.leb_le 0 k)) by lia.
  apply lookup_replicate. split; [done|lia].
Qed.

(** An empty section in the middle ends the enumeration: the sections of the
    type that follow it are not loaded. *)
Theorem empty_section_truncates {item} seg bt n_bufs ty data_off size (zero : item) len
    parse_item no_offset q1 q2 qs :
  seg_ok seg bt n_bufs ty → sect_layout ty = Some (data_off, size) →
  pkg_sections seg bt n_bufs ty = q1 :: q2 :: qs → sect_count seg q2 = 0 →
  ice_parser_create_table (Some seg) true ty zero len parse_item no_offset =
    (fun a => Some a.2) <$> place_all seg parse_item no_offset data_off size
      (0xffff, replicate (Z.to_nat len) zero) (entries_from seg q1 0).
Proof.
  intros Hok Hlay Hs Hc. unfold ice_parser_create_table. simpl.
  rewrite (create_table_loop_spec seg bt n_bufs ty Hok data_off size Hlay).
  unfold pkg_entries. rewrite Hs. simpl. rewrite Hc. simpl. rewrite app_nil_r.
  by destruct (place_all _ _ _ _ _ _ _) as [[]|].
Qed.

(** ** A concrete segment *)

(** One buffer with the given sections: type, entry count, table offset and data. *)
Definition demo_dir (n : Z) (dir : list (Z * Z * Z)) : list Z :=
  le_bytes 2 n ++ le_bytes 2 4000 ++
  concat ((fun e => le_bytes 4 e.1.1 ++ le_bytes 2 e.1.2 ++ le_bytes 2 e.2) <$> dir).

Definition demo_seg : list Z :=
  replicate 44 0 ++ le_bytes 4 0 ++ le_bytes 4 0 ++ le_bytes 4 1 ++
  (let b := demo_dir 3 [(ICE_SID_RXPARSER_FLAG_REDIR, 28, 8);
                        (ICE_SID_RXPARSER_FLAG_REDIR, 36, 4);
                        (ICE_SID_RXPARSER_FLAG_REDIR, 40, 8)]
           ++ [3; 0; 0; 0; 0x03; 0x05; 0x07; 0]
           ++ [0; 0; 0; 0]
           ++ [2; 0; 3; 0; 0x09; 0x0b; 0; 0] in
   b ++ replicate (4096 - length b) 0).

Lemma demo_seg_ok : seg_ok demo_seg 52 1 ICE_SID_RXPARSER_FLAG_REDIR.
Proof.
  split.
  - apply bytes_ok_check. vm_compute. reflexivity.
  - vm_compute. reflexivity.
  - done.
  - vm_compute. reflexivity.
  - done.
  - vm_compute. done.
  - set (P := pkg_sections _ _ _ _). vm_compute in P. subst P.
    repeat apply List.Forall_cons; try apply List.Forall_nil; vm_compute; done.
Qed.

Definition demo_parse (index : Z) (buf : list Z) : option (Z * Z) :=
  b ← load 1 buf 0; Some (index, b).

Lemma create_table_refines_witness :
  ice_parser_create_table (Some demo_seg) true ICE_SID_RXPARSER_FLAG_REDIR (0, 0) 5 demo_parse
    false = Some (Some [(0, 3); (1, 5); (2, 7); (0, 0); (0, 0)]).
Proof.
  rewrite (create_table_refines demo_seg 52 1 _ 4 1); [|exact demo_seg_ok|reflexivity].
  vm_compute. reflexivity.
Defined.

Lemma create_table_in_order_witness :
  length [(0, 3); (1, 5); (2, 7); (0, 0); (0, 0)] = 5%nat.
Proof.
  apply (create_table_in_order demo_seg 52 1 ICE_SID_RXPARSER_FLAG_REDIR 4 1 (0, 0) 5 demo_parse);
    [exact demo_seg_ok|reflexivity|vm_compute; done|vm_compute; reflexivity].
Defined.

Lemma empty_section_truncates_witness :
  ice_parser_create_table (Some demo_seg) true ICE_SID_RXPARSER_FLAG_REDIR (0, 0) 5 demo_parse
    false = Some (Some [(0, 3); (1, 5); (2, 7); (0, 0); (0, 0)]).
Proof.
  rewrite (empty_section_truncates demo_seg 52 1 _ 4 1 (0, 0) 5 demo_parse false
    (56, 0) (56, 1) [(56, 2)]);
    [vm_compute; reflexivity|exact demo_seg_ok|reflexivity|vm_compute; reflexivity..].
Defined.
