(* ===== verification/IceParserRt.v ===== *)
(** * Parser runtime

    The software model of the E810's packet parser (ice_parser_rt.c): a machine
    of 128 sixteen-bit registers that walks a parse graph over the packet header.
    One iteration builds a boost TCAM key and a parse graph key, looks up the
    action, executes three ALUs and the parse graph unit into a set of pending
    updates, commits them, and records protocol offsets and markers.

    [None] is undefined behaviour of the C code: an access outside an array of
    [struct ice_parser_rt] or of a table, or a shift by the width of the type or
    more.  Debug output is not modelled. *)
From S2P Require Import Prelude IceStatus IceTables IceMatch.
Import Imem PgCam.

Definition GPR_HB_IDX : Z := 64.
Definition GPR_ERR_IDX : Z := 84.
Definition GPR_FLG_IDX : Z := 104.
Definition GPR_TSR_IDX : Z := 108.
Definition GPR_NN_IDX : Z := 109.
Definition GPR_HO_IDX : Z := 110.
Definition GPR_NP_IDX : Z := 111.

Definition ICE_PARSER_MAX_PKT_LEN : Z := 504.
Definition ICE_PARSER_GPR_NUM : Z := 128.
Definition ICE_PARSER_HDR_BUF_LEN : Z := 32.
Definition ICE_PARSER_BST_KEY_LEN : Z := 20.

(** Opcodes of [enum ice_alu_opcode] that [_alu_exe] handles. *)
Definition ICE_ALU_PARK : Z := 0.
Definition ICE_ALU_MOV_ADD : Z := 1.
Definition ICE_ALU_ADD : Z := 2.
Definition ICE_ALU_MOV_XOR : Z := 9.
Definition ICE_ALU_SETEQ : Z := 19.
Definition ICE_ALU_OREQ : Z := 21.
Definition ICE_ALU_ORLT : Z := 30.

(** ** State *)

(** Pending updates of one iteration. *)
Record ice_gpr_pu := mkPu {
  gpr_val_upd : list bool;
  gpr_val : list Z;
  flg_msk : Z;
  flg_val : Z;
  err_msk : Z;
  err_val : Z
}.

#[export] Instance pu_settable : Settable ice_gpr_pu := fun r =>
  mkPu (gpr_val_upd r) (gpr_val r) (flg_msk r) (flg_val r) (err_msk r) (err_val r).

(** The ALU and action pointers are modelled by what they point to: the tables do
    not change while the parser runs. *)
Record ice_parser_rt := mkRt {
  gpr : list Z;
  pkt_buf : list Z;
  pkt_len : Z;
  po : Z;
  bst_key : list Z;
  pg_key : ice_pg_cam_key;
  rt_alu0 : option ice_alu;
  rt_alu1 : option ice_alu;
  rt_alu2 : option ice_alu;
  rt_action : option ice_pg_cam_action;
  rt_pg : Z;
  pu : ice_gpr_pu;
  markers : list Z;
  protocols : list bool;
  offsets : list Z
}.

#[export] Instance rt_settable : Settable ice_parser_rt := fun r =>
  mkRt (gpr r) (pkt_buf r) (pkt_len r) (po r) (bst_key r) (pg_key r) (rt_alu0 r) (rt_alu1 r)
    (rt_alu2 r) (rt_action r) (rt_pg r) (pu r) (markers r) (protocols r) (offsets r).

(** The tables of [struct ice_parser]. *)
Record ice_parser := mkParser {
  imem_table : list ice_imem_item;
  mi_table : list Metainit.ice_metainit_item;
  pg_cam_table : list ice_pg_cam_item;
  pg_sp_cam_table : list ice_pg_cam_item;
  pg_nm_cam_table : list ice_pg_nm_cam_item;
  pg_nm_sp_cam_table : list ice_pg_nm_cam_item;
  bst_tcam_table : list BstTcam.ice_bst_tcam_item;
  bst_lbl_table : list BstTcam.ice_lbl_item;
  ptype_mk_tcam_table : list PtypeMk.ice_ptype_mk_tcam_item;
  mk_grp_table : list MkGrp.ice_mk_grp_item;
  proto_grp_table : list ProtoGrp.ice_proto_grp_item;
  flg_rd_table : list FlgRd.ice_flg_rd_item;
  xlt_kb_sw : XltKb.ice_xlt_kb;
  xlt_kb_acl : XltKb.ice_xlt_kb;
  xlt_kb_fd : XltKb.ice_xlt_kb;
  xlt_kb_rss : XltKb.ice_xlt_kb
}.

#[export] Instance parser_settable : Settable ice_parser := fun r =>
  mkParser (imem_table r) (mi_table r) (pg_cam_table r) (pg_sp_cam_table r)
    (pg_nm_cam_table r) (pg_nm_sp_cam_table r) (bst_tcam_table r) (bst_lbl_table r)
    (ptype_mk_tcam_table r) (mk_grp_table r) (proto_grp_table r) (flg_rd_table r)
    (xlt_kb_sw r) (xlt_kb_acl r) (xlt_kb_fd r) (xlt_kb_rss r).

Record ice_parser_proto_off := mkPpo { ppo_proto_id : Z; ppo_offset : Z }.

(** [po] has 16 entries; the model keeps the first [po_num]. *)
Record ice_parser_result := mkRslt {
  r_ptype : Z;
  r_po : list ice_parser_proto_off;
  flags_psr : Z;
  flags_pkt : Z;
  flags_sw : Z;
  flags_acl : Z;
  flags_fd : Z;
  flags_rss : Z
}.

#[export] Instance rslt_settable : Settable ice_parser_result := fun r =>
  mkRslt (r_ptype r) (r_po r) (flags_psr r) (flags_pkt r) (flags_sw r) (flags_acl r)
    (flags_fd r) (flags_rss r).

Definition pu_zero : ice_gpr_pu := mkPu (replicate 128 false) (replicate 128 0) 0 0 0 0.
Definition key_zero : ice_pg_cam_key := mkKey false 0 false false false false 0 0 0.
Definition rt_zero : ice_parser_rt :=
  mkRt (replicate 128 0) (replicate 536 0) 0 0 (replicate 20 0) key_zero None None None None 0
    pu_zero (replicate 9 0) (replicate 256 false) (replicate 256 0).

(** The registers as bytes, for the copies that treat them as memory. *)
Definition bytes_of_words (ws : list Z) : list Z := concat (le_bytes 2 <$> ws).

Fixpoint words_of_bytes (bs : list Z) : list Z :=
  match bs with
  | b0 :: b1 :: bs' => (b0 + 2 ^ 8 * b1) :: words_of_bytes bs'
  | _ => []
  end.

Definition store_words (a : list Z) (i : Z) (ws : list Z) : option (list Z) :=
  if (0 <=? i) && (i + Z.of_nat (length ws) <=? Z.of_nat (length a))
  then Some (take (Z.to_nat i) a ++ ws ++ drop (Z.to_nat i + length ws) a) else None.

(** ** Register access *)

Definition set_gpr (rt : ice_parser_rt) (i v : Z) : option ice_parser_rt :=
  g ← wr (gpr rt) i v;
  Some (rt <| gpr := g |>).

Definition _rt_tsr_set (rt : ice_parser_rt) (tsr : Z) : option ice_parser_rt :=
  set_gpr rt GPR_TSR_IDX tsr.

(** Copy the 32 bytes of the header at the header offset to the registers. *)
Definition load_hb (rt : ice_parser_rt) (ho : Z) : option ice_parser_rt :=
  hb ← bytes_at 32 (pkt_buf rt) ho;
  g ← store_words (gpr rt) GPR_HB_IDX (words_of_bytes hb);
  Some (rt <| gpr := g |>).

Definition _rt_ho_set (rt : ice_parser_rt) (ho : Z) : option ice_parser_rt :=
  rt ← set_gpr rt GPR_HO_IDX ho;
  load_hb rt ho.

Definition _rt_np_set (rt : ice_parser_rt) (pc : Z) : option ice_parser_rt :=
  set_gpr rt GPR_NP_IDX pc.

Definition _rt_nn_set (rt : ice_parser_rt) (node : Z) : option ice_parser_rt :=
  set_gpr rt GPR_NN_IDX node.

(** Set or clear bit [x] of register [i]. *)
Definition gpr_bit_set (rt : ice_parser_rt) (i x : Z) (val : bool) : option ice_parser_rt :=
  r ← rd (gpr rt) i;
  set_gpr rt i (if val then u16 (r .| u16 (1 .<< x)) else u16 (r .& Z.lnot (u16 (1 .<< x)))).

Definition _rt_flag_set (rt : ice_parser_rt) (idx : Z) (val : bool) : option ice_parser_rt :=
  gpr_bit_set rt (GPR_FLG_IDX + idx / 16) (idx mod 16) val.

Definition _rt_gpr_set (rt : ice_parser_rt) (idx val : Z) : option ice_parser_rt :=
  if idx =? GPR_HO_IDX then _rt_ho_set rt val else set_gpr rt idx val.

Definition _rt_err_set (rt : ice_parser_rt) (idx : Z) (val : bool) : option ice_parser_rt :=
  gpr_bit_set rt GPR_ERR_IDX idx val.

Definition ice_parser_rt_reset (psr : ice_parser) : option ice_parser_rt :=
  mi ← rd (mi_table psr) 0;
  rt ← _rt_tsr_set rt_zero (Metainit.tsr mi);
  rt ← _rt_ho_set rt (Metainit.ho mi);
  rt ← _rt_np_set rt (Metainit.pc mi);
  rt ← _rt_nn_set rt (Metainit.pg_rn mi);
  for_range 0 64 (fun i rt =>
    if Z.testbit (Metainit.flags mi) i then _rt_flag_set rt i true else Some rt) rt.

Definition ice_parser_rt_pktbuf_set (rt : ice_parser_rt) (pkt : list Z) (plen : Z)
    : option ice_parser_rt :=
  let len := Z.min ICE_PARSER_MAX_PKT_LEN plen in
  ho ← rd (gpr rt) GPR_HO_IDX;
  if len <? 0 then None
  else
    data ← bytes_at (Z.to_nat len) pkt 0;
    let rt := rt <| pkt_buf := data ++ drop (length data) (pkt_buf rt) |> <| pkt_len := u16 plen |> in
    load_hb rt ho.

(** ** Keys *)

Definition _bst_key_init (rt : ice_parser_rt) (imem : ice_imem_item) : option ice_parser_rt :=
  tsr ← rd (gpr rt) GPR_TSR_IDX;
  ho ← rd (gpr rt) GPR_HO_IDX;
  let second_last_key_idx := ICE_PARSER_BST_KEY_LEN - 2 in
  let last_key_idx := ICE_PARSER_BST_KEY_LEN - 1 in
  key0 ← wr (bst_key rt) last_key_idx
    (if tsr_ctrl (b_kb imem) then u8 tsr else priority (b_kb imem));
  (* the source counts i down from second_last_key_idx; k is its distance from there *)
  key1 ← for_range 0 (second_last_key_idx + 1) (fun k key =>
    let i := second_last_key_idx - k in
    let j := ho + second_last_key_idx - i in
    v ← (if j <? ICE_PARSER_MAX_PKT_LEN then rd (pkt_buf rt) j else Some 0);
    wr key i v) key0;
  Some (rt <| bst_key := key1 |>).

(** The loop of the bit reversals: [w] is the width of the accumulator. *)
Fixpoint bit_rev_loop (w : Z) (len : Z) (n : nat) (i r v : Z) : Z :=
  match n with
  | O => r
  | S n' => bit_rev_loop w len n' (i + 1) (r .| wrap w ((v .& 0x1) .<< (len - 1 - i))) (v .>> 1)
  end.

Definition _bit_rev_u8 (v : Z) : Z := bit_rev_loop 8 8 8 0 0 v.

(** The return type of [_bit_rev_u16] is [u8]. *)
Definition _bit_rev_u16 (v len : Z) : Z := u8 (bit_rev_loop 16 len (Z.to_nat len) 0 0 v).

Definition _bit_rev_u32 (v len : Z) : option Z :=
  if len <=? 32 then Some (bit_rev_loop 32 len (Z.to_nat len) 0 0 v) else None.

Definition _hv_bit_sel (rt : ice_parser_rt) (start len : Z) : option Z :=
  let offset := GPR_HB_IDX + start / 16 in
  b ← bytes_at 8 (bytes_of_words (gpr rt)) (2 * offset);
  let d64 := le (_bit_rev_u8 <$> b) in
  if len <? 64 then
    let msk := (1 .<< len) - 1 in
    _bit_rev_u32 (u32 ((d64 .>> (start mod 16)) .& msk)) len
  else None.

Definition _pk_build (rt : ice_parser_rt) (kb : ice_np_keybuilder) : option Z :=
  if ops kb =? 0 then _hv_bit_sel rt (start_or_reg0 kb) (len_or_reg1 kb)
  else if ops kb =? 1 then
    r0 ← rd (gpr rt) (start_or_reg0 kb);
    r1 ← rd (gpr rt) (len_or_reg1 kb);
    Some (r0 .| u32 (r1 .<< 16))
  else if ops kb =? 2 then Some 0
  else Some 0xffffffff.

Definition _flag_get (rt : ice_parser_rt) (index : Z) : option bool :=
  r ← rd (gpr rt) (GPR_FLG_IDX + index / 16);
  Some (nz (r .& u16 (1 .<< (index mod 16)))).

(** A flag of the key: kept clear unless enabled. *)
Definition key_flag (rt : ice_parser_rt) (ena : bool) (index : Z) : option bool :=
  if ena then _flag_get rt index else Some false.

(** The part [_imem_pgk_init] and [_bst_pgk_init] share. *)
Definition pgk_build (rt : ice_parser_rt) (boost : Z) (np : ice_np_keybuilder)
    (kb : ice_pg_keybuilder) : option ice_parser_rt :=
  next ← _pk_build rt np;
  f0 ← key_flag rt (flag0_ena kb) (flag0_idx kb);
  f1 ← key_flag rt (flag1_ena kb) (flag1_idx kb);
  f2 ← key_flag rt (flag2_ena kb) (flag2_idx kb);
  f3 ← key_flag rt (flag3_ena kb) (flag3_idx kb);
  alu ← rd (gpr rt) (alu_reg_idx kb);
  node ← rd (gpr rt) GPR_NN_IDX;
  Some (rt <| pg_key := mkKey false node f0 f1 f2 f3 boost alu next |>).

Definition _imem_pgk_init (rt : ice_parser_rt) (imem : ice_imem_item) : option ice_parser_rt :=
  pgk_build rt 0 (np_kb imem) (pg_kb imem).

Definition _bst_pgk_init (rt : ice_parser_rt) (bst : BstTcam.ice_bst_tcam_item)
    : option ice_parser_rt :=
  pgk_build rt (BstTcam.hit_idx_grp bst) (BstTcam.np_kb bst) (BstTcam.pg_kb bst).

Definition _imem_alu0_set (rt : ice_parser_rt) (imem : ice_imem_item) : ice_parser_rt :=
  rt <| rt_alu0 := Some (alu0 imem) |>.
Definition _imem_alu1_set (rt : ice_parser_rt) (imem : ice_imem_item) : ice_parser_rt :=
  rt <| rt_alu1 := Some (alu1 imem) |>.
Definition _imem_alu2_set (rt : ice_parser_rt) (imem : ice_imem_item) : ice_parser_rt :=
  rt <| rt_alu2 := Some (alu2 imem) |>.
Definition _imem_pgp_set (rt : ice_parser_rt) (imem : ice_imem_item) : ice_parser_rt :=
  rt <| rt_pg := pg imem |>.
Definition _bst_alu0_set (rt : ice_parser_rt) (bst : BstTcam.ice_bst_tcam_item)
    : ice_parser_rt := rt <| rt_alu0 := Some (BstTcam.alu0 bst) |>.
Definition _bst_alu1_set (rt : ice_parser_rt) (bst : BstTcam.ice_bst_tcam_item)
    : ice_parser_rt := rt <| rt_alu1 := Some (BstTcam.alu1 bst) |>.
Definition _bst_alu2_set (rt : ice_parser_rt) (bst : BstTcam.ice_bst_tcam_item)
    : ice_parser_rt := rt <| rt_alu2 := Some (BstTcam.alu2 bst) |>.
Definition _bst_pgp_set (rt : ice_parser_rt) (bst : BstTcam.ice_bst_tcam_item)
    : ice_parser_rt := rt <| rt_pg := BstTcam.pg_pri bst |>.

(** The item itself rather than its index. *)
Definition item_at {A} (table : list A) (i : option Z) : option (option A) :=
  match i with
  | None => Some None
  | Some i => item ← rd table i; Some (Some item)
  end.

Definition _pg_cam_match (psr : ice_parser) (rt : ice_parser_rt)
    : option (option ice_pg_cam_item) :=
  i ← ice_pg_cam_match (pg_cam_table psr) ICE_PG_CAM_TABLE_SIZE (pg_key rt);
  item ← item_at (pg_cam_table psr) i;
  match item with
  | Some _ => Some item
  | None =>
      i ← ice_pg_cam_match (pg_sp_cam_table psr) ICE_PG_SP_CAM_TABLE_SIZE (pg_key rt);
      item_at (pg_sp_cam_table psr) i
  end.

Definition _pg_nm_cam_match (psr : ice_parser) (rt : ice_parser_rt)
    : option (option ice_pg_nm_cam_item) :=
  i ← ice_pg_nm_cam_match (pg_nm_cam_table psr) ICE_PG_NM_CAM_TABLE_SIZE (pg_key rt);
  item ← item_at (pg_nm_cam_table psr) i;
  match item with
  | Some _ => Some item
  | None =>
      i ← ice_pg_nm_cam_match (pg_nm_sp_cam_table psr) ICE_PG_NM_SP_CAM_TABLE_SIZE (pg_key rt);
      item_at (pg_nm_sp_cam_table psr) i
  end.

(** ** Pending updates *)

Definition _gpr_add (rt : ice_parser_rt) (idx val : Z) : option ice_parser_rt :=
  upd ← wr (gpr_val_upd (pu rt)) idx true;
  vals ← wr (gpr_val (pu rt)) idx val;
  Some (rt <| pu := (pu rt) <| gpr_val_upd := upd |> <| gpr_val := vals |> |>).

Definition _pg_exe (rt : ice_parser_rt) : option ice_parser_rt :=
  act ← rt_action rt;
  rt ← _gpr_add rt GPR_NP_IDX (next_pc act);
  _gpr_add rt GPR_NN_IDX (next_node act).

(** [w |= bit] or [w &= ~bit]. *)
Definition put_bit (w bit : Z) (val : bool) : Z :=
  if val then w .| bit else w .& Z.lnot bit.

Definition _flg_add (rt : ice_parser_rt) (idx : Z) (val : bool) : option ice_parser_rt :=
  b ← bit64 idx;
  Some (rt <| pu := (pu rt) <| flg_msk := flg_msk (pu rt) .| b |>
                            <| flg_val := put_bit (flg_val (pu rt)) b val |> |>).

Definition _flg_update (rt : ice_parser_rt) (alu : ice_alu) : option ice_parser_rt :=
  if dedicate_flags_ena alu then
    if flags_extr_imm alu then
      for_range 0 (dst_len alu) (fun i rt =>
        if i <? 32 then
          _flg_add rt (dst_start alu + i) (nz (flags_start_imm alu .& u32 (1 .<< i)))
        else None) rt
    else
      for_range 0 (dst_len alu) (fun i rt =>
        b ← _hv_bit_sel rt (flags_start_imm alu + i) 1;
        _flg_add rt (dst_start alu + i) (nz b)) rt
  else Some rt.

Definition _po_update (rt : ice_parser_rt) (alu : ice_alu) : option ice_parser_rt :=
  ho ← rd (gpr rt) GPR_HO_IDX;
  Some (
    if proto_offset_opc alu =? 1 then rt <| po := u16 (ho + proto_offset alu) |>
    else if proto_offset_opc alu =? 2 then rt <| po := u16 (ho - proto_offset alu) |>
    else if proto_offset_opc alu =? 0 then rt <| po := ho |>
    else rt).

Definition _reg_bit_sel (rt : ice_parser_rt) (reg_idx start len : Z) : option Z :=
  b ← bytes_at 4 (bytes_of_words (gpr rt)) (2 * (reg_idx + start / 16));
  let d32 := le (_bit_rev_u8 <$> b) in
  if len <? 32 then
    let msk := (1 .<< len) - 1 in
    Some (_bit_rev_u16 (u16 ((d32 .>> (start mod 16)) .& msk)) len)
  else None.

(** As in the source, the value goes to the flags' pending value. *)
Definition _err_add (rt : ice_parser_rt) (idx : Z) (val : bool) : ice_parser_rt :=
  let b := u16 (1 .<< idx) in
  rt <| pu := (pu rt) <| err_msk := u16 (err_msk (pu rt) .| b) |>
                      <| flg_val := put_bit (flg_val (pu rt)) b val |> |>.

Definition _dst_reg_bit_set (rt : ice_parser_rt) (alu : ice_alu) (val : bool)
    : option ice_parser_rt :=
  if dedicate_flags_ena alu then Some rt
  else if dst_reg_id alu =? GPR_ERR_IDX then
    if 16 <=? dst_start alu then Some rt else Some (_err_add rt (dst_start alu) val)
  else if GPR_FLG_IDX <=? dst_reg_id alu then
    let flg_idx := u16 (((dst_reg_id alu - GPR_FLG_IDX) .<< 4) + dst_start alu) in
    if 64 <=? flg_idx then Some rt else _flg_add rt flg_idx val
  else Some rt.

Definition _alu_exe (rt : ice_parser_rt) (alu : ice_alu) : option ice_parser_rt :=
  if shift_xlate_select alu then Some rt
  else
    rt ← _po_update rt alu;
    rt ← _flg_update rt alu;
    dst ← rd (gpr rt) (dst_reg_id alu);
    src ← _reg_bit_sel rt (src_reg_id alu) (src_start alu) (src_len alu);
    let shift := shift_xlate_key alu in
    let im := imm alu in
    if opc alu =? ICE_ALU_PARK then Some rt
    else if opc alu =? ICE_ALU_MOV_ADD then
      _gpr_add rt (dst_reg_id alu) (u16 ((src .<< shift) + im))
    else if opc alu =? ICE_ALU_ADD then
      _gpr_add rt (dst_reg_id alu) (u16 (dst + u16 ((src .<< shift) + im)))
    else if opc alu =? ICE_ALU_ORLT then
      rt ← (if src <? im then _dst_reg_bit_set rt alu true else Some rt);
      _gpr_add rt GPR_NP_IDX (branch_addr alu)
    else if opc alu =? ICE_ALU_OREQ then
      rt ← (if src =? im then _dst_reg_bit_set rt alu true else Some rt);
      _gpr_add rt GPR_NP_IDX (branch_addr alu)
    else if opc alu =? ICE_ALU_SETEQ then
      rt ← (if src =? im then _dst_reg_bit_set rt alu true else _dst_reg_bit_set rt alu false);
      _gpr_add rt GPR_NP_IDX (branch_addr alu)
    else if opc alu =? ICE_ALU_MOV_XOR then
      _gpr_add rt (dst_reg_id alu) (u16 (Z.lxor (u16 (src .<< shift)) im))
    else Some rt.

(** [rt->alu0] is dereferenced: [NULL] is undefined. *)
Definition _alu0_exe (rt : ice_parser_rt) : option ice_parser_rt :=
  alu ← rt_alu0 rt; _alu_exe rt alu.
Definition _alu1_exe (rt : ice_parser_rt) : option ice_parser_rt :=
  alu ← rt_alu1 rt; _alu_exe rt alu.
Definition _alu2_exe (rt : ice_parser_rt) : option ice_parser_rt :=
  alu ← rt_alu2 rt; _alu_exe rt alu.

Definition _pu_exe (rt : ice_parser_rt) : option ice_parser_rt :=
  let p := pu rt in
  rt ← for_range 0 ICE_PARSER_GPR_NUM (fun i rt =>
    upd ← rd (gpr_val_upd p) i;
    if upd : bool then v ← rd (gpr_val p) i; _rt_gpr_set rt i v else Some rt) rt;
  rt ← for_range 0 64 (fun i rt =>
    if Z.testbit (flg_msk p) i then _rt_flag_set rt i (Z.testbit (flg_val p) i)
    else Some rt) rt;
  (* the mask is tested at bit 1 in every iteration *)
  for_range 0 16 (fun i rt =>
    if Z.testbit (err_msk p) 1 then _rt_err_set rt i (Z.testbit (err_val p) i)
    else Some rt) rt.

Definition _alu_pg_exe (rt : ice_parser_rt) : option ice_parser_rt :=
  let rt := rt <| pu := pu_zero |> in
  rt ←
    (if rt_pg rt =? 0 then
       rt ← _pg_exe rt; rt ← _alu0_exe rt; rt ← _alu1_exe rt; _alu2_exe rt
     else if rt_pg rt =? 1 then
       rt ← _alu0_exe rt; rt ← _pg_exe rt; rt ← _alu1_exe rt; _alu2_exe rt
     else if rt_pg rt =? 2 then
       rt ← _alu0_exe rt; rt ← _alu1_exe rt; rt ← _pg_exe rt; _alu2_exe rt
     else if rt_pg rt =? 3 then
       rt ← _alu0_exe rt; rt ← _alu1_exe rt; rt ← _alu2_exe rt; _pg_exe rt
     else Some rt);
  rt ← _pu_exe rt;
  act ← rt_action rt;
  if ho_inc act =? 0 then Some rt
  else
    ho ← rd (gpr rt) GPR_HO_IDX;
    if ho_polarity act then _rt_ho_set rt (u16 (ho + ho_inc act))
    else _rt_ho_set rt (u16 (ho - ho_inc act)).

(** ** Protocol offsets and markers *)

Definition proto_set (rt : ice_parser_rt) (id off : Z) : option ice_parser_rt :=
  ps ← wr (protocols rt) id true;
  os ← wr (offsets rt) id off;
  Some (rt <| protocols := ps |> <| offsets := os |>).

Definition _proto_off_update (psr : ice_parser) (rt : ice_parser_rt) : option ice_parser_rt :=
  act ← rt_action rt;
  if is_pg act then
    proto_grp ← rd (proto_grp_table psr) (proto_id act);
    for_break 0 8 (fun i rt =>
      entry ← rd (ProtoGrp.po proto_grp) i;
      if ProtoGrp.proto_id entry =? 0xff then Some (Break rt)
      else
        rt ← proto_set rt (ProtoGrp.proto_id entry)
          (if negb (ProtoGrp.polarity entry) then u16 (po rt + ProtoGrp.offset entry)
           else u16 (po rt - ProtoGrp.offset entry));
        Some (Next rt)) rt
  else proto_set rt (proto_id act) (po rt).

Definition _marker_set (rt : ice_parser_rt) (idx : Z) : option ice_parser_rt :=
  m ← rd (markers rt) (idx / 8);
  ms ← wr (markers rt) (idx / 8) (u8 (m .| u8 (1 .<< (idx mod 8))));
  Some (rt <| markers := ms |>).

Definition _marker_update (psr : ice_parser) (rt : ice_parser_rt) : option ice_parser_rt :=
  act ← rt_action rt;
  if is_mg act then
    mk_grp ← rd (mk_grp_table psr) (marker_id act);
    for_break 0 8 (fun i rt =>
      marker ← rd (MkGrp.markers mk_grp) i;
      if marker =? 71 then Some (Break rt)
      else rt ← _marker_set rt marker; Some (Next rt)) rt
  else if negb (marker_id act =? 71) then _marker_set rt (marker_id act)
  else Some rt.

(** ** Result *)

Definition _ptype_resolve (psr : ice_parser) (rt : ice_parser_rt) : option Z :=
  i ← ice_ptype_mk_tcam_match (ptype_mk_tcam_table psr) (markers rt) 9;
  item ← item_at (ptype_mk_tcam_table psr) i;
  match item with
  | Some item => Some (PtypeMk.ptype item)
  | None => Some 0xffff
  end.

(** A seventeenth entry would be written behind the array. *)
Definition po_push (rslt : ice_parser_result) (id off : Z) : option ice_parser_result :=
  if Z.of_nat (length (r_po rslt)) <? 16
  then Some (rslt <| r_po := r_po rslt ++ [mkPpo (u8 id) off] |>) else None.

Definition _proto_off_resolve (rt : ice_parser_rt) (rslt : ice_parser_result)
    : option ice_parser_result :=
  for_range 0 255 (fun i rslt =>
    p ← rd (protocols rt) i;
    if p : bool then off ← rd (offsets rt) i; po_push rslt i off else Some rslt) rslt.

Definition _result_resolve (psr : ice_parser) (rt : ice_parser_rt)
    : option ice_parser_result :=
  ptype ← _ptype_resolve psr rt;
  psr_flg ← load 8 (bytes_of_words (gpr rt)) (2 * GPR_FLG_IDX);
  pkt_flg ← ice_flg_redirect (flg_rd_table psr) psr_flg;
  sw ← ice_xlt_kb_flag_get (xlt_kb_sw psr) pkt_flg;
  fd ← ice_xlt_kb_flag_get (xlt_kb_fd psr) pkt_flg;
  rss ← ice_xlt_kb_flag_get (xlt_kb_rss psr) pkt_flg;
  _proto_off_resolve rt (mkRslt ptype [] psr_flg pkt_flg sw 0 fd rss).

(** ** Execution *)

(** Choose keys and ALUs: from the boost TCAM entry where there is a match and
    the instruction enables it, else from the instruction. *)
Definition select_sources (psr : ice_parser) (rt : ice_parser_rt) (imem : ice_imem_item)
    : option ice_parser_rt :=
  i ← ice_bst_tcam_match (bst_tcam_table psr) (bst_key rt);
  bst ← item_at (bst_tcam_table psr) i;
  match bst with
  | None =>
      rt ← _imem_pgk_init rt imem;
      let rt := _imem_alu0_set rt imem in
      let rt := _imem_alu1_set rt imem in
      let rt := _imem_alu2_set rt imem in
      Some (_imem_pgp_set rt imem)
  | Some bst =>
      rt ← (if bm_pg (b_m imem) then
              rt ← _bst_pgk_init rt bst; Some (_bst_pgp_set rt bst)
            else
              rt ← _imem_pgk_init rt imem; Some (_imem_pgp_set rt imem));
      let rt := if al0 (b_m imem) then _bst_alu0_set rt bst else _imem_alu0_set rt imem in
      let rt := if al1 (b_m imem) then _bst_alu1_set rt bst else _imem_alu1_set rt imem in
      let rt := if al2 (b_m imem) then _bst_alu2_set rt bst else _imem_alu2_set rt imem in
      Some rt
  end.

(** Look up the action of the parse graph key. *)
Definition select_action (psr : ice_parser) (rt : ice_parser_rt) : option ice_parser_rt :=
  pg_cam ← _pg_cam_match psr rt;
  match pg_cam with
  | Some item => Some (rt <| rt_action := Some (action item) |>)
  | None =>
      nm ← _pg_nm_cam_match psr rt;
      Some (rt <| rt_action := nm_action <$> nm |>)
  end.

(** One iteration of the loop of [ice_parser_rt_execute]; [inr] leaves it. *)
Definition exec_step (psr : ice_parser) (rt : ice_parser_rt)
    : option (ice_parser_rt + ice_status * ice_parser_rt) :=
  pc ← rd (gpr rt) GPR_NP_IDX;
  imem ← rd (imem_table psr) pc;
  rt ← _bst_key_init rt imem;
  rt ← select_sources psr rt imem;
  rt ← select_action psr rt;
  match rt_action rt with
  | None => Some (inr (ICE_ERR_PARAM, rt))
  | Some act =>
      rt ← _alu_pg_exe rt;
      rt ← _marker_update psr rt;
      rt ← _proto_off_update psr rt;
      if is_last_round act then Some (inr (ICE_SUCCESS, rt))
      else
        ho ← rd (gpr rt) GPR_HO_IDX;
        if pkt_len rt <=? ho then Some (inr (ICE_SUCCESS, rt))
        else Some (inl rt)
  end.

(** The loop has no bound in the source; [fuel] bounds the model's, and [inl] is
    a run that is not over. *)
Definition ice_parser_rt_execute (fuel : positive) (psr : ice_parser) (rt : ice_parser_rt)
    : option (ice_parser_rt + ice_status * ice_parser_result * ice_parser_rt) :=
  r ← iterate (exec_step psr) fuel rt;
  match r with
  | inl rt => Some (inl rt)
  | inr (status, rt) =>
      rslt ← _result_resolve psr rt;
      Some (inr (status, rslt, rt))
  end.
