(* ===== verification/IceRtBits.v ===== *)
(** * Bit selection of the parser runtime

    The header registers hold the packet's bytes; the key builders select bit
    fields of them by reversing the bits of every byte, shifting, masking and
    reversing the result.  This file shows that the outcome is the field of the
    packet in network order, that is, of the bytes read as one big-endian
    number. *)
From S2P Require Import Prelude Bytes IceStatus IceTables IceMatch IceParserRt.

(** ** Bit reversal *)

Lemma bit_rev_loop_spec w len n i r v j :
  0 <= w → 0 <= i → i + Z.of_nat n <= len → 0 <= j →
  Z.testbit (bit_rev_loop w len n i r v) j =
    Z.testbit r j || ((j <? w) && (0 <=? len - 1 - i - j) && (len - 1 - i - j <? Z.of_nat n) &&
                      Z.testbit v (len - 1 - i - j)).
Proof.
  intros Hw. revert i r v. induction n as [|n IH]; intros i r v Hi Hn Hj.
  { change (Z.of_nat 0) with 0. cbn [bit_rev_loop]. destruct (Z.leb_spec 0 (len - 1 - i - j)), (Z.ltb_spec (len - 1 - i - j) 0);
      try lia; destruct (j <? w); simpl; rewrite ?orb_false_r; done. }
  cbn [bit_rev_loop]. rewrite IH by lia.
  rewrite Z.lor_spec, testbit_wrap, Z.shiftl_spec by lia.
  rewrite <- orb_assoc. f_equal.
  rewrite Z.land_spec.
  destruct (decide (j = len - 1 - i)) as [->|Hne].
  - rewrite Z.sub_diag. change (Z.testbit 1 0) with true.
    replace (len - 1 - i - (len - 1 - i)) with 0 by lia.
    replace (len - 1 - (i + 1) - (len - 1 - i)) with (-1) by lia. simpl.
    rewrite (proj2 (Z.ltb_lt 0 (Z.of_nat (S n)))) by lia.
    rewrite !andb_false_r, !andb_true_r, orb_false_r. done.
  - assert (Z.testbit 1 (j - (len - 1 - i)) = false) as ->.
    { destruct (Z.ltb_spec (j - (len - 1 - i)) 0); [by apply Z.testbit_neg_r|].
      change 1 with (2 ^ 0). rewrite Z.pow2_bits_eqb by lia. apply Z.eqb_neq. lia. }
    rewrite !andb_false_r. simpl.
    destruct (Z.leb_spec 0 (len - 1 - (i + 1) - j)).
    + rewrite Z.shiftr_spec by lia.
      replace (len - 1 - (i + 1) - j + 1) with (len - 1 - i - j) by lia.
      rewrite (proj2 (Z.leb_le 0 (len - 1 - i - j))) by lia.
      replace (len - 1 - i - j <? Z.of_nat (S n)) with (len - 1 - (i + 1) - j <? Z.of_nat n); [done|].
      destruct (Z.ltb_spec (len - 1 - (i + 1) - j) (Z.of_nat n)),
        (Z.ltb_spec (len - 1 - i - j) (Z.of_nat (S n))); done || lia.
    + rewrite (proj2 (Z.leb_gt 0 (len - 1 - i - j))) by lia. by rewrite !andb_false_r.
Qed.

Lemma bit_rev_u8_spec v j : 0 <= j →
  Z.testbit (_bit_rev_u8 v) j = (j <? 8) && Z.testbit v (7 - j).
Proof.
  intros. unfold _bit_rev_u8. rewrite bit_rev_loop_spec by lia.
  rewrite Z.testbit_0_l. simpl orb. replace (8 - 1 - 0 - j) with (7 - j) by lia.
  destruct (Z.ltb_spec j 8); [|done].
  by rewrite (proj2 (Z.leb_le 0 (7 - j))), (proj2 (Z.ltb_lt (7 - j) (Z.of_nat 8))) by lia.
Qed.

Lemma bit_rev_loop_nonneg w len n i r v : 0 <= w → 0 <= r → 0 <= bit_rev_loop w len n i r v.
Proof.
  intros Hw. revert i r v. induction n as [|n IH]; intros i r v Hr; [done|].
  cbn [bit_rev_loop]. apply IH, Z.lor_nonneg. split; [done|]. by apply wrap_width.
Qed.

Lemma bit_rev_u8_width v : in_width 8 (_bit_rev_u8 v).
Proof.
  apply in_width_bits; [lia|by apply bit_rev_loop_nonneg|].
  intros i Hi. rewrite bit_rev_u8_spec by lia. by rewrite (proj2 (Z.ltb_ge i 8)) by lia.
Qed.

(** Reversing the bits of a byte twice gives it back. *)
Lemma bit_rev_u8_involutive v : in_width 8 v → _bit_rev_u8 (_bit_rev_u8 v) = v.
Proof.
  intros Hv. apply Z.bits_inj'. intros j Hj. rewrite bit_rev_u8_spec by done.
  destruct (Z.ltb_spec j 8); simpl.
  - rewrite bit_rev_u8_spec, (proj2 (Z.ltb_lt (7 - j) 8)) by lia. simpl. f_equal. lia.
  - symmetry. by apply (testbit_above 8).
Qed.

(** ** Network order *)

(** The number with the bits of every byte reversed, read little endian, is the
    big-endian number read from the top. *)
Lemma le_rev_be bs p : bytes_ok bs → 0 <= p < 8 * Z.of_nat (length bs) →
  Z.testbit (le (_bit_rev_u8 <$> bs)) p = Z.testbit (be bs) (8 * Z.of_nat (length bs) - 1 - p).
Proof.
  intros Hok. revert p. induction Hok as [|b bs Hb Hbs IH]; intros p Hp; [simpl in Hp; lia|].
  rewrite le_reverse_snoc. cbn [fmap list_fmap le]. simpl length in *.
  assert (bytes_ok (reverse bs)) as Hrev by (by apply Forall_reverse).
  pose proof (le_nonneg_bound _ Hrev) as Hw. rewrite length_reverse in Hw. fold (be bs) in Hw.
  set (n := 8 * Z.of_nat (length bs)) in *.
  assert (0 <= n) by (subst n; lia).
  assert (∀ q, 0 <= q → Z.testbit (be bs + 2 ^ n * b) q =
    if q <? n then Z.testbit (be bs) q else Z.testbit b (q - n)) as Hbe.
  { intros q Hq. by apply testbit_low_high. }
  rewrite Hbe by lia.
  rewrite (testbit_low_high 8 (_bit_rev_u8 b) (le (_bit_rev_u8 <$> bs)));
    [|lia|apply bit_rev_u8_width|lia].
  destruct (Z.ltb_spec p 8).
  - rewrite (proj2 (Z.ltb_ge _ n)) by lia. rewrite bit_rev_u8_spec, (proj2 (Z.ltb_lt p 8)) by lia.
    simpl. f_equal. lia.
  - rewrite (proj2 (Z.ltb_lt _ n)) by lia. rewrite IH by lia. f_equal. lia.
Qed.

(** The field [len] bits wide that starts [s] bits into the window [b]. *)
Lemma bit_sel_field w v b s len :
  bytes_ok b → 0 <= s → 0 <= len <= w → len <= v → s + len <= 8 * Z.of_nat (length b) →
  bit_rev_loop w len (Z.to_nat len) 0 0
    (wrap v ((le (_bit_rev_u8 <$> b) .>> s) .& ((1 .<< len) - 1)))
  = slice (be b) (8 * Z.of_nat (length b) - s - len) len.
Proof.
  intros Hb Hs Hlen Hv Hfit. apply Z.bits_inj'. intros j Hj.
  rewrite bit_rev_loop_spec by lia. rewrite Z.testbit_0_l, slice_bit by lia. simpl orb.
  rewrite Z2Nat.id by lia. replace (len - 1 - 0 - j) with (len - 1 - j) by lia.
  destruct (Z.ltb_spec j len) as [Hlt|Hge].
  - rewrite (proj2 (Z.ltb_lt j w)), (proj2 (Z.leb_le 0 (len - 1 - j))),
      (proj2 (Z.ltb_lt (len - 1 - j) len)) by lia. simpl.
    rewrite testbit_wrap, (proj2 (Z.ltb_lt (len - 1 - j) v)) by lia. simpl.
    rewrite Z.land_spec, Z.shiftr_spec, Z.shiftl_1_l by lia.
    change (2 ^ len - 1) with (Z.pred (2 ^ len)). rewrite <- Z.ones_equiv.
    rewrite Z.ones_spec_low by lia. rewrite andb_true_r.
    rewrite le_rev_be by (done || lia). f_equal. lia.
  - rewrite (proj2 (Z.leb_gt 0 (len - 1 - j))) by lia. by rewrite andb_false_r.
Qed.

(** ** Registers as memory *)

Lemma length_bytes_of_words ws : length (bytes_of_words ws) = (2 * length ws)%nat.
Proof.
  unfold bytes_of_words. induction ws as [|x ws IH]; [done|].
  rewrite fmap_cons. cbn [concat]. rewrite length_app, length_le_bytes, IH. simpl. lia.
Qed.

Lemma bytes_of_words_app xs ys :
  bytes_of_words (xs ++ ys) = bytes_of_words xs ++ bytes_of_words ys.
Proof. unfold bytes_of_words. by rewrite fmap_app, concat_app. Qed.

Lemma bytes_of_words_ok ws : bytes_ok (bytes_of_words ws).
Proof.
  unfold bytes_of_words. induction ws as [|x ws IH]; simpl; [constructor|].
  repeat (constructor; [by apply wrap_width|]). done.
Qed.

Lemma bytes_words_bytes n bs : bytes_ok bs → length bs = (2 * n)%nat →
  bytes_of_words (words_of_bytes bs) = bs ∧ length (words_of_bytes bs) = n.
Proof.
  revert bs. induction n as [|n IH]; intros bs Hok Hlen.
  { destruct bs; [done|simpl in Hlen; lia]. }
  destruct bs as [|b0 [|b1 bs]]; simpl in Hlen; [lia..|].
  inversion Hok as [|? ? H0 Hok1]; subst. inversion Hok1 as [|? ? H1 Hok2]; subst.
  destruct (IH bs) as [Hb Hl]; [done|lia|].
  cbn [words_of_bytes]. split; [|simpl; lia].
  match goal with |- bytes_of_words (?w :: ?ws) = _ =>
    change (le_bytes 2 w ++ bytes_of_words ws = b0 :: b1 :: bs) end. rewrite Hb.
  unfold byte_ok, in_width in H0, H1. change (2 ^ 8) with 256 in *.
  cbn [le_bytes app]. unfold wrap.
  change (2 ^ 8) with 256. rewrite Z.shiftr_div_pow2 by done. change (2 ^ 8) with 256.
  assert ((b0 + 256 * b1) mod 256 = b0) as ->.
  { rewrite Z.mul_comm, Z.mod_add by lia. by apply Z.mod_small. }
  assert ((b0 + 256 * b1) / 256 = b1) as ->.
  { rewrite Z.mul_comm, Z.div_add by lia. by rewrite Z.div_small. }
  by rewrite Z.mod_small.
Qed.

(** A window of the bytes is a slice of the big-endian number. *)
Lemma be_window bs k n : bytes_ok bs → (k + n <= length bs)%nat →
  be (take n (drop k bs))
    = slice (be bs) (8 * (Z.of_nat (length bs) - Z.of_nat k - Z.of_nat n)) (8 * Z.of_nat n).
Proof.
  intros Hok Hle. unfold be.
  assert (reverse (take n (drop k bs)) = take n (drop (length bs - k - n) (reverse bs))) as ->.
  { rewrite reverse_take, reverse_drop, length_drop.
    rewrite firstn_skipn_comm. f_equal. f_equal. lia. }
  rewrite le_take_drop; [|by apply Forall_reverse|rewrite length_reverse; lia].
  f_equal; lia.
Qed.

Lemma slice_be_app xs ys p n : bytes_ok ys → 0 <= p → 0 <= n →
  slice (be (xs ++ ys)) (8 * Z.of_nat (length ys) + p) n = slice (be xs) p n.
Proof.
  intros Hok Hp Hn. unfold be. rewrite reverse_app, le_app, length_reverse.
  assert (bytes_ok (reverse ys)) as Hr by (by apply Forall_reverse).
  pose proof (le_nonneg_bound _ Hr) as Hw. rewrite length_reverse in Hw.
  apply Z.bits_inj'. intros j Hj. rewrite !slice_bit by lia. f_equal.
  rewrite testbit_low_high by (done || lia). rewrite (proj2 (Z.ltb_ge _ _)) by lia.
  f_equal. lia.
Qed.

(** ** Fields *)

(** The bytes from the header registers on. *)
Definition hv_bytes (g : list Z) : list Z := drop 128 (bytes_of_words g).

Lemma hv_bit_sel_regs rt start len :
  length (gpr rt) = 128%nat → 0 <= start < 960 → 0 <= len <= 32 →
  _hv_bit_sel rt start len = Some (slice (be (hv_bytes (gpr rt))) (1024 - start - len) len).
Proof.
  intros Hg Hs Hl. unfold _hv_bit_sel, GPR_HB_IDX.
  assert (0 <= start / 16 < 60) as Hq by (split; [apply Z.div_pos; lia|apply Z.div_lt_upper_bound; lia]).
  assert (bytes_at 8 (bytes_of_words (gpr rt)) (2 * (64 + start / 16))
    = Some (take 8 (drop (Z.to_nat (2 * (start / 16))) (hv_bytes (gpr rt))))) as ->.
  { rewrite bytes_at_in_range; [|lia|rewrite length_bytes_of_words, Hg; lia].
    unfold hv_bytes. rewrite drop_drop. do 2 f_equal. f_equal. lia. }
  cbn [mbind option_bind]. rewrite (proj2 (Z.ltb_lt len 64)) by lia.
  unfold _bit_rev_u32. rewrite (proj2 (Z.leb_le len 32)) by lia. f_equal.
  set (hv := hv_bytes (gpr rt)).
  assert (length hv = 128%nat) as Hlhv.
  { unfold hv, hv_bytes. rewrite length_drop, length_bytes_of_words, Hg. lia. }
  assert (bytes_ok hv) as Hhv by apply Forall_drop, bytes_of_words_ok.
  pose proof (Z.mod_pos_bound start 16 ltac:(lia)).
  assert (length (take 8 (drop (Z.to_nat (2 * (start / 16))) hv)) = 8%nat) as Hlw.
  { rewrite length_take, length_drop. lia. }
  rewrite bit_sel_field; [|by apply Forall_take, Forall_drop|lia..].
  rewrite be_window, Hlw, slice_slice by (done || lia). f_equal.
  pose proof (Z.div_mod start 16). lia.
Qed.

Lemma load_hb_bytes rt ho rt' :
  length (gpr rt) = 128%nat → bytes_ok (pkt_buf rt) → load_hb rt ho = Some rt' →
  hv_bytes (gpr rt') = take 32 (drop (Z.to_nat ho) (pkt_buf rt)) ++ drop 160 (bytes_of_words (gpr rt))
  ∧ length (take 32 (drop (Z.to_nat ho) (pkt_buf rt))) = 32%nat
  ∧ length (gpr rt') = 128%nat.
Proof.
  intros Hg Hp. unfold load_hb, bytes_at.
  destruct (_ && _) eqn:Hr; [|done]. cbn [mbind option_bind]. bool_to_prop.
  set (hb := take 32 _). assert (length hb = 32%nat) as Hl.
  { unfold hb. rewrite length_take, length_drop. lia. }
  destruct (bytes_words_bytes 16 hb) as [Hb Hw]; [by apply Forall_take, Forall_drop|done|].
  unfold store_words. rewrite Hw, Hg. cbn [mbind option_bind]. intros [= <-]. cbn [gpr set_field].
  assert (length (take 64 (gpr rt)) = 64%nat) as Ht by (rewrite length_take; lia).
  split_and!; [|done|].
  - unfold hv_bytes. simpl. change (Z.to_nat GPR_HB_IDX) with 64%nat.
    rewrite !bytes_of_words_app, Hb.
    rewrite drop_app_ge by (rewrite length_bytes_of_words, Ht; lia).
    rewrite length_bytes_of_words, Ht, drop_0. f_equal.
    rewrite <- (take_drop 80 (gpr rt)) at 2. rewrite bytes_of_words_app, drop_app_ge;
      rewrite length_bytes_of_words, length_take, Hg; [|simpl; lia]. done.
  - simpl. change (Z.to_nat GPR_HB_IDX) with 64%nat.
    rewrite !length_app, Ht, Hw, length_drop, Hg. done.
Qed.

(** Header fields: after the header offset is set, the bit field the key
    builders select is the packet's field in network order: [len] bits from bit
    [start] of the 32 bytes at the header offset, most significant bit first. *)
Theorem header_field_network_order rt ho rt' start len :
  length (gpr rt) = 128%nat → bytes_ok (pkt_buf rt) → _rt_ho_set rt ho = Some rt' →
  0 <= start → 0 <= len <= 32 → start + len <= 256 →
  _hv_bit_sel rt' start len
    = Some (slice (be (take 32 (drop (Z.to_nat ho) (pkt_buf rt)))) (256 - start - len) len).
Proof.
  intros Hg Hp Hho Hs Hl Hfit. unfold _rt_ho_set, set_gpr in Hho.
  destruct (wr (gpr rt) GPR_HO_IDX ho) as [g|] eqn:Hwr; [|done]. cbn [mbind option_bind] in Hho.
  assert (length g = 128%nat) as Hlg by (by rewrite (wr_length _ _ _ _ Hwr)).
  apply load_hb_bytes in Hho as (Hhv & Hhb & Hg'); [|done..]. simpl in Hhv, Hhb.
  rewrite hv_bit_sel_regs by (done || lia). rewrite Hhv. f_equal.
  assert (length (drop 160 (bytes_of_words g)) = 96%nat) as H96
    by (rewrite length_drop, length_bytes_of_words, Hlg; lia).
  rewrite <- (slice_be_app _ (drop 160 (bytes_of_words g)) (256 - start - len));
    [|apply Forall_drop, bytes_of_words_ok|lia..].
  rewrite H96. f_equal. lia.
Qed.

(** Register fields: the source operand of an ALU is the network-order field
    of two registers, cut to its low eight bits: [_bit_rev_u16] returns a byte,
    so that fields of more than eight bits lose their upper bits. *)
Theorem reg_field_cut_to_byte rt reg start len :
  length (gpr rt) = 128%nat → 0 <= reg → 0 <= start → reg + start / 16 <= 126 →
  0 <= len <= 16 →
  _reg_bit_sel rt reg start len
    = Some (u8 (slice (be (take 4 (drop (Z.to_nat (2 * (reg + start / 16)))
                                     (bytes_of_words (gpr rt)))))
                 (32 - start mod 16 - len) len)).
Proof.
  intros Hg Hr Hs Hfit Hl. unfold _reg_bit_sel.
  assert (0 <= start / 16) by (apply Z.div_pos; lia).
  pose proof (Z.mod_pos_bound start 16 ltac:(lia)).
  rewrite bytes_at_in_range by (rewrite ?length_bytes_of_words, ?Hg; lia).
  cbn [mbind option_bind]. rewrite (proj2 (Z.ltb_lt len 32)) by lia.
  unfold _bit_rev_u16. set (b := take 4 _). do 2 f_equal.
  assert (length b = 4%nat) as Hlb.
  { unfold b. rewrite length_take, length_drop, length_bytes_of_words, Hg. lia. }
  rewrite bit_sel_field;
    [by rewrite Hlb|by apply Forall_take, Forall_drop, bytes_of_words_ok|lia..].
Qed.

(** ** A concrete header *)

Definition demo_rt : ice_parser_rt :=
  rt_zero <| pkt_buf := ((fun i => Z.of_nat i mod 256) <$> seq 0 536) |>.
Definition demo_rt' : ice_parser_rt := default demo_rt (_rt_ho_set demo_rt 14).

Lemma header_field_network_order_witness :
  _hv_bit_sel demo_rt' 20 16 = Some 0x0111.
Proof.
  rewrite (header_field_network_order demo_rt 14 demo_rt' 20 16);
    [vm_compute; reflexivity|reflexivity|apply bytes_ok_check; vm_compute; reflexivity
    |vm_compute; reflexivity|lia..].
Defined.

Definition demo_regs : ice_parser_rt :=
  rt_zero <| gpr := 0xcdab :: replicate 127 0 |>.

Lemma reg_field_cut_to_byte_witness :
  _reg_bit_sel demo_regs 0 0 8 = Some 0xab ∧ _reg_bit_sel demo_regs 0 0 16 = Some 0xcd.
Proof.
  split; rewrite (reg_field_cut_to_byte demo_regs 0 0);
    (vm_compute; reflexivity) || (vm_compute; split; discriminate) || (vm_compute; discriminate).
Defined.
