(* ===== verification/IceRtSafety.v ===== *)
(** * Safety and termination of the parser runtime

    With tables whose index fields are in range the parser never leaves its
    arrays: the well-formedness of the tables ([psr_ok]) collects what the code
    relies on and does not check.  If moreover every action either ends the parse
    or moves the header offset forward, the loop of [ice_parser_rt_execute]
    terminates; without that it need not, and the file has a table on which it
    runs forever. *)
From S2P Require Import Prelude IceStatus IceTables IceMatch IceParserRt IceRtBits.
Import Imem PgCam.

(** ** Well-formed tables *)

Definition npkb_ok (kb : ice_np_keybuilder) : Prop :=
  (ops kb = 0 → 0 <= start_or_reg0 kb < 960 ∧ 0 <= len_or_reg1 kb <= 32) ∧
  (ops kb = 1 → 0 <= start_or_reg0 kb < 128 ∧ 0 <= len_or_reg1 kb < 128).

Definition flag_idx_ok (i : Z) : Prop := 0 <= i < 64.

Definition pgkb_ok (kb : ice_pg_keybuilder) : Prop :=
  flag_idx_ok (flag0_idx kb) ∧ flag_idx_ok (flag1_idx kb) ∧ flag_idx_ok (flag2_idx kb) ∧
  flag_idx_ok (flag3_idx kb) ∧ 0 <= alu_reg_idx kb < 128.

Definition writes_reg (op : Z) : Prop :=
  op = ICE_ALU_MOV_ADD ∨ op = ICE_ALU_ADD ∨ op = ICE_ALU_MOV_XOR.

(** An ALU instruction that can be executed: its source lies in the registers,
    its flags in the 64 flags, and it neither moves the header offset nor jumps
    by writing the program counter as a register. *)
Record alu_ok (a : ice_alu) : Prop := {
  ao_dst : 0 <= dst_reg_id a < 128;
  ao_src : 0 <= src_reg_id a ∧ 0 <= src_start a ∧ src_reg_id a + src_start a / 16 <= 126;
  ao_len : 0 <= src_len a < 32;
  ao_branch : 0 <= branch_addr a < 192;
  ao_start : 0 <= dst_start a < 64;
  ao_ded : dedicate_flags_ena a = true →
    0 <= dst_len a <= 32 ∧ dst_start a + dst_len a <= 64 ∧
    0 <= flags_start_imm a ∧ flags_start_imm a + dst_len a < 960;
  ao_reg : writes_reg (opc a) → dst_reg_id a ≠ GPR_HO_IDX ∧ dst_reg_id a ≠ GPR_NP_IDX
}.

Section with_inc.
(** The largest header offset increment of an action, and a further requirement
    on actions. *)
Variable (H : Z) (Req : ice_pg_cam_action → Prop).

Record action_ok (a : ice_pg_cam_action) : Prop := {
  co_pc : 0 <= next_pc a < 192;
  co_node : in_width 16 (next_node a);
  co_proto : 0 <= proto_id a < 256 ∧ (is_pg a = true → proto_id a < 192);
  co_mark : 0 <= marker_id a ∧
    (if is_mg a then marker_id a < 128 else marker_id a < 72);
  co_inc : 0 <= ho_inc a <= H ∧ (ho_inc a ≠ 0 → ho_polarity a = true);
  co_req : Req a
}.

Definition imem_ok (i : ice_imem_item) : Prop :=
  npkb_ok (np_kb i) ∧ pgkb_ok (pg_kb i) ∧ alu_ok (alu0 i) ∧ alu_ok (alu1 i) ∧ alu_ok (alu2 i).

Definition bst_ok (b : BstTcam.ice_bst_tcam_item) : Prop :=
  length (BstTcam.key b) = 20%nat ∧ length (BstTcam.key_inv b) = 20%nat ∧
  npkb_ok (BstTcam.np_kb b) ∧ pgkb_ok (BstTcam.pg_kb b) ∧
  alu_ok (BstTcam.alu0 b) ∧ alu_ok (BstTcam.alu1 b) ∧ alu_ok (BstTcam.alu2 b).

Definition kb_ok (kb : XltKb.ice_xlt_kb) : Prop :=
  ∃ e, rd (XltKb.entries kb) 0 = Some e ∧ length (XltKb.flg0_14_sel e) = 15%nat.

Record psr_ok (psr : ice_parser) : Prop := {
  po_imem : length (imem_table psr) = 192%nat ∧ Forall imem_ok (imem_table psr);
  po_cam : length (pg_cam_table psr) = 2048%nat ∧
    Forall (fun i => action_ok (action i)) (pg_cam_table psr);
  po_sp : length (pg_sp_cam_table psr) = 128%nat ∧
    Forall (fun i => action_ok (action i)) (pg_sp_cam_table psr);
  po_nm : length (pg_nm_cam_table psr) = 1024%nat ∧
    Forall (fun i => action_ok (nm_action i)) (pg_nm_cam_table psr);
  po_nmsp : length (pg_nm_sp_cam_table psr) = 64%nat ∧
    Forall (fun i => action_ok (nm_action i)) (pg_nm_sp_cam_table psr);
  po_bst : length (bst_tcam_table psr) = 256%nat ∧ Forall bst_ok (bst_tcam_table psr);
  po_mk : length (mk_grp_table psr) = 128%nat ∧
    Forall (fun g => length (MkGrp.markers g) = 8%nat ∧
      Forall (fun m => 0 <= m < 72) (MkGrp.markers g)) (mk_grp_table psr);
  po_pg : length (proto_grp_table psr) = 192%nat ∧
    Forall (fun g => length (ProtoGrp.po g) = 8%nat ∧
      Forall (fun e => 0 <= ProtoGrp.proto_id e < 256) (ProtoGrp.po g)) (proto_grp_table psr);
  po_ptype : length (ptype_mk_tcam_table psr) = 1024%nat ∧
    Forall (fun i => length (PtypeMk.key i) = 10%nat ∧ length (PtypeMk.key_inv i) = 10%nat)
      (ptype_mk_tcam_table psr);
  po_flg : length (flg_rd_table psr) = 64%nat ∧
    Forall (fun i => 0 <= FlgRd.intr_flg_id i < 64) (flg_rd_table psr);
  po_kb : kb_ok (xlt_kb_sw psr) ∧ kb_ok (xlt_kb_fd psr) ∧ kb_ok (xlt_kb_rss psr)
}.

(** ** Well-formed states *)

Definition regs_ok (g : list Z) : Prop := length g = 128%nat ∧ Forall (in_width 16) g.

(** Pending updates never touch the header offset, and the program counter only
    with an address of the instruction memory. *)
Record pu_ok (p : ice_gpr_pu) : Prop := {
  uo_upd : length (gpr_val_upd p) = 128%nat;
  uo_val : regs_ok (gpr_val p);
  uo_ho : rd (gpr_val_upd p) GPR_HO_IDX = Some false;
  uo_np : rd (gpr_val_upd p) GPR_NP_IDX = Some true →
    ∃ v, rd (gpr_val p) GPR_NP_IDX = Some v ∧ 0 <= v < 192
}.

Record rt_ok (rt : ice_parser_rt) : Prop := {
  ro_regs : regs_ok (gpr rt);
  ro_pkt : length (pkt_buf rt) = 536%nat ∧ bytes_ok (pkt_buf rt);
  ro_key : length (bst_key rt) = 20%nat;
  ro_mark : length (markers rt) = 9%nat;
  ro_proto : length (protocols rt) = 256%nat;
  ro_off : length (offsets rt) = 256%nat
}.

(** The header offset and the program counter. *)
Definition at_ho (rt : ice_parser_rt) (ho : Z) : Prop := rd (gpr rt) GPR_HO_IDX = Some ho.
Definition pc_ok (rt : ice_parser_rt) : Prop :=
  ∃ pc, rd (gpr rt) GPR_NP_IDX = Some pc ∧ 0 <= pc < 192.

Lemma regs_rd g i : regs_ok g → 0 <= i < 128 → ∃ v, rd g i = Some v ∧ in_width 16 v.
Proof.
  intros [Hl Hf] Hi. destruct (rd_in_range g i) as [v Hv]; [lia|].
  exists v. split; [done|]. by apply (rd_Forall _ _ _ _ Hf Hv).
Qed.

Lemma regs_wr g i v : regs_ok g → 0 <= i < 128 → in_width 16 v →
  ∃ g', wr g i v = Some g' ∧ regs_ok g' ∧ rd g' i = Some v ∧
    (∀ j, i ≠ j → rd g' j = rd g j).
Proof.
  intros [Hl Hf] Hi Hv. eexists. assert (wr g i v = Some (<[Z.to_nat i:=v]> g)) as Hw
    by (apply wr_in_range; lia). split_and!; [exact Hw| | |].
  - split; [by rewrite (wr_length _ _ _ _ Hw)|]. by apply (wr_Forall _ _ _ _ _ Hf Hv Hw).
  - by eapply rd_wr_eq.
  - intros j Hj. by eapply rd_wr_ne.
Qed.

Lemma words_of_bytes_width bs : bytes_ok bs → Forall (in_width 16) (words_of_bytes bs).
Proof.
  revert bs. fix IH 1. intros [|b0 [|b1 bs]] Hb; [constructor..|].
  inversion Hb as [|? ? H0 Hb1]; subst. inversion Hb1 as [|? ? H1 Hb2]; subst.
  cbn [words_of_bytes]. constructor; [|by apply IH].
  unfold byte_ok, in_width in *. change (2 ^ 16) with 65536. change (2 ^ 8) with 256 in *. lia.
Qed.

(** ** Pending updates *)

(** [rt'] differs from [rt] only in its pending updates, which stay well formed,
    and the protocol offset. *)
Definition ext (rt rt' : ice_parser_rt) : Prop :=
  pu_ok (pu rt') ∧ rt' = rt <| pu := pu rt' |> <| po := po rt' |>.

Lemma ext_refl rt : pu_ok (pu rt) → ext rt rt.
Proof. intros. split; [done|]. by destruct rt. Qed.

Lemma ext_trans r1 r2 r3 : ext r1 r2 → ext r2 r3 → ext r1 r3.
Proof. intros [_ E1] [H3 E3]. split; [done|]. rewrite E3, E1. done. Qed.

Lemma ext_gpr r r' : ext r r' → gpr r' = gpr r.
Proof. intros [_ ->]. done. Qed.

Lemma gpr_add_ok rt idx v : pu_ok (pu rt) → 0 <= idx < 128 → idx ≠ GPR_HO_IDX →
  in_width 16 v → (idx = GPR_NP_IDX → 0 <= v < 192) →
  ∃ rt', _gpr_add rt idx v = Some rt' ∧ ext rt rt'.
Proof.
  intros [Hu Hv Hho Hnp] Hi Hne Hw Hpc. unfold _gpr_add.
  destruct (regs_wr _ _ _ Hv Hi Hw) as (vals & Hwv & Hvals & Heq & Hoth).
  destruct (wr (gpr_val_upd (pu rt)) idx true) as [u|] eqn:Hwu.
  2: { rewrite wr_in_range in Hwu by lia. done. }
  rewrite Hwv. eexists. split; [done|]. split; [|by destruct rt as [? ? ? ? ? ? ? ? ? ? ? []]].
  split; simpl.
  - by rewrite (wr_length _ _ _ _ Hwu).
  - done.
  - by rewrite (rd_wr_ne _ _ _ _ _ Hwu).
  - destruct (decide (idx = GPR_NP_IDX)) as [->|Hn].
    + intros _. exists v. split; [done|]. by apply Hpc.
    + rewrite (rd_wr_ne _ _ _ _ _ Hwu), (Hoth _ Hn) by done. done.
Qed.

Lemma pu_ok_same p p' : gpr_val_upd p' = gpr_val_upd p → gpr_val p' = gpr_val p →
  pu_ok p → pu_ok p'.
Proof. intros E1 E2 []. split; rewrite ?E1, ?E2; done. Qed.

Lemma flg_add_ok rt idx b : pu_ok (pu rt) → 0 <= idx < 64 →
  ∃ rt', _flg_add rt idx b = Some rt' ∧ ext rt rt'.
Proof.
  intros Hp Hi. unfold _flg_add. rewrite bit64_in_range by done. eexists. split; [done|].
  split; [by eapply pu_ok_same, Hp|]. by destruct rt.
Qed.

Lemma hv_bit_sel_total rt start len : regs_ok (gpr rt) → 0 <= start < 960 → 0 <= len <= 32 →
  ∃ v, _hv_bit_sel rt start len = Some v ∧ in_width 32 v.
Proof.
  intros [Hl _] Hs Hlen. rewrite hv_bit_sel_regs by done. eexists. split; [done|].
  apply in_width_weaken with len; [lia|]. apply slice_width. lia.
Qed.

(** A loop of flag additions. *)
Lemma flg_loop_ok rt n body : pu_ok (pu rt) → 0 <= n →
  (∀ i rt1, 0 <= i < n → ext rt rt1 → ∃ rt2, body i rt1 = Some rt2 ∧ ext rt1 rt2) →
  ∃ rt', for_range 0 n body rt = Some rt' ∧ ext rt rt'.
Proof.
  intros Hp Hn Hbody. apply (for_range_total (fun _ => ext rt)); [lia|by apply ext_refl|].
  intros i rt1 Hi He. destruct (Hbody i rt1 Hi He) as (rt2 & -> & He2).
  exists rt2. split; [done|]. by eapply ext_trans.
Qed.

Lemma flg_update_ok rt a : pu_ok (pu rt) → regs_ok (gpr rt) → alu_ok a →
  ∃ rt', _flg_update rt a = Some rt' ∧ ext rt rt'.
Proof.
  intros Hp Hg Ha. unfold _flg_update.
  destruct (dedicate_flags_ena a) eqn:Hd; [|exists rt; split; [done|by apply ext_refl]].
  destruct (ao_ded _ Ha Hd) as (Hl & Hfit & Hf0 & Hf1). pose proof (ao_start _ Ha).
  destruct (flags_extr_imm a); apply flg_loop_ok; try done; try lia; intros i rt1 Hi He.
  - rewrite (proj2 (Z.ltb_lt i 32)) by lia. apply flg_add_ok; [apply He|lia].
  - destruct (hv_bit_sel_total rt1 (flags_start_imm a + i) 1) as (v & -> & _);
      [by rewrite (ext_gpr _ _ He)|lia..|].
    apply flg_add_ok; [apply He|lia].
Qed.

Lemma po_update_ok rt a : pu_ok (pu rt) → regs_ok (gpr rt) →
  ∃ rt', _po_update rt a = Some rt' ∧ ext rt rt'.
Proof.
  intros Hp Hg. unfold _po_update. destruct (regs_rd _ GPR_HO_IDX Hg) as (ho & -> & _); [done|].
  eexists. split; [done|]. simpl. repeat case_match; split; simpl; done || by destruct rt.
Qed.

Lemma reg_bit_sel_total rt a : regs_ok (gpr rt) → alu_ok a →
  ∃ v, _reg_bit_sel rt (src_reg_id a) (src_start a) (src_len a) = Some v.
Proof.
  intros [Hl _] Ha. destruct (ao_src _ Ha) as (H0 & H1 & H2). pose proof (ao_len _ Ha).
  unfold _reg_bit_sel. assert (0 <= src_start a / 16) by (apply Z.div_pos; lia).
  rewrite bytes_at_in_range by (rewrite ?length_bytes_of_words, ?Hl; lia).
  cbn [mbind option_bind]. rewrite (proj2 (Z.ltb_lt _ 32)) by lia. by eexists.
Qed.

Lemma dst_reg_bit_set_ok rt a b : pu_ok (pu rt) → alu_ok a →
  ∃ rt', _dst_reg_bit_set rt a b = Some rt' ∧ ext rt rt'.
Proof.
  intros Hp Ha. unfold _dst_reg_bit_set.
  assert (∃ rt', Some rt = Some rt' ∧ ext rt rt') as Hsame
    by (exists rt; split; [done|by apply ext_refl]).
  destruct (dedicate_flags_ena a); [done|].
  destruct (dst_reg_id a =? GPR_ERR_IDX).
  { destruct (16 <=? dst_start a); [done|]. eexists. split; [done|].
    split; [by eapply pu_ok_same, Hp|]. by destruct rt. }
  destruct (GPR_FLG_IDX <=? dst_reg_id a); [|done].
  set (f := u16 _). assert (in_width 16 f) by (by apply wrap_width).
  destruct (Z.leb_spec 64 f); [done|]. apply flg_add_ok; [done|]. unfold in_width in *. lia.
Qed.

Lemma alu_exe_ok rt a : pu_ok (pu rt) → regs_ok (gpr rt) → alu_ok a →
  ∃ rt', _alu_exe rt a = Some rt' ∧ ext rt rt'.
Proof.
  intros Hp Hg Ha. unfold _alu_exe.
  destruct (shift_xlate_select a); [exists rt; split; [done|by apply ext_refl]|].
  destruct (po_update_ok rt a Hp Hg) as (rt1 & -> & E1). cbn [mbind option_bind].
  destruct (flg_update_ok rt1 a) as (rt2 & -> & E2);
    [apply E1|by rewrite (ext_gpr _ _ E1)|done|]. cbn [mbind option_bind].
  assert (ext rt rt2) as E by (by eapply ext_trans). pose proof (ext_gpr _ _ E) as Eg.
  destruct (regs_rd (gpr rt2) (dst_reg_id a)) as (dst & -> & Hdst);
    [by rewrite Eg|by apply (ao_dst _ Ha)|]. cbn [mbind option_bind].
  destruct (reg_bit_sel_total rt2 a) as (src & ->); [by rewrite Eg|done|].
  cbn [mbind option_bind].
  assert (∀ f, (∃ rt', f rt2 = Some rt' ∧ ext rt2 rt') → ∃ rt', f rt2 = Some rt' ∧ ext rt rt')
    as Hgo.
  { intros f (rt' & Hf & He). exists rt'. split; [done|]. by eapply ext_trans. }
  assert (∀ v, in_width 16 v → writes_reg (opc a) →
    ∃ rt', _gpr_add rt2 (dst_reg_id a) v = Some rt' ∧ ext rt rt') as Hwr.
  { intros v Hv Hw. destruct (ao_reg _ Ha Hw). apply (Hgo (fun r => _gpr_add r _ v)).
    apply gpr_add_ok; [apply E|apply (ao_dst _ Ha)|done..]. }
  assert (∀ o, (∃ rt', o = Some rt' ∧ ext rt2 rt') →
    ∃ rt', (r ← o; _gpr_add r GPR_NP_IDX (branch_addr a)) = Some rt' ∧ ext rt rt') as Hbr.
  { intros o (rt3 & -> & E3). cbn [mbind option_bind]. pose proof (ao_branch _ Ha).
    destruct (gpr_add_ok rt3 GPR_NP_IDX (branch_addr a)) as (rt4 & -> & E4);
      [apply E3|done|done|unfold in_width; lia|done|].
    exists rt4. split; [done|]. eapply ext_trans; [done|]. by eapply ext_trans. }
  assert (∃ rt', Some rt2 = Some rt' ∧ ext rt2 rt') as Hsame
    by (exists rt2; split; [done|apply ext_refl, E]).
  repeat (case_match; bool_to_prop;
    [first [ by apply (Hgo Some)
           | apply Hwr; [by apply wrap_width|unfold writes_reg; tauto]
           | apply Hbr; case_match; first [done | apply dst_reg_bit_set_ok; [apply E|done]] ]|]).
  by apply (Hgo Some).
Qed.

(** The operands of an iteration are loaded. *)
Definition loaded (rt : ice_parser_rt) (act : ice_pg_cam_action) : Prop :=
  (∃ a, rt_alu0 rt = Some a ∧ alu_ok a) ∧ (∃ a, rt_alu1 rt = Some a ∧ alu_ok a) ∧
  (∃ a, rt_alu2 rt = Some a ∧ alu_ok a) ∧ rt_action rt = Some act ∧ action_ok act.

(** An execution unit that can run whenever only pending updates have changed
    since [rt]. *)
Definition runs (rt : ice_parser_rt) (f : ice_parser_rt → option ice_parser_rt) : Prop :=
  ∀ rt1, ext rt rt1 → ∃ rt2, f rt1 = Some rt2 ∧ ext rt rt2.

Lemma runs_seq rt f g : runs rt f → runs rt g → runs rt (fun r => r ← f r; g r).
Proof.
  intros Hf Hg rt1 E1. destruct (Hf rt1 E1) as (rt2 & -> & E2). cbn [mbind option_bind].
  by apply Hg.
Qed.

Lemma units_run rt act : regs_ok (gpr rt) → loaded rt act →
  runs rt _pg_exe ∧ runs rt _alu0_exe ∧ runs rt _alu1_exe ∧ runs rt _alu2_exe.
Proof.
  intros Hg ((a0 & E0 & H0) & (a1 & E1 & H1) & (a2 & E2 & H2) & Ea & Ha).
  assert (∀ a rt1, ext rt rt1 → alu_ok a → ∃ rt2, _alu_exe rt1 a = Some rt2 ∧ ext rt rt2) as Halu.
  { intros a rt1 E Ho. destruct (alu_exe_ok rt1 a) as (rt2 & -> & E');
      [apply E|by rewrite (ext_gpr _ _ E)|done|]. exists rt2. split; [done|]. by eapply ext_trans. }
  split_and!; intros rt1 E.
  2: assert (rt_alu0 rt1 = Some a0) as Ealu by (destruct E as [_ ->]; done).
  3: assert (rt_alu1 rt1 = Some a1) as Ealu by (destruct E as [_ ->]; done).
  4: assert (rt_alu2 rt1 = Some a2) as Ealu by (destruct E as [_ ->]; done).
  2-4: unfold _alu0_exe, _alu1_exe, _alu2_exe; rewrite Ealu; by apply Halu.
  unfold _pg_exe. assert (rt_action rt1 = Some act) as -> by (destruct E as [_ ->]; done).
  cbn [mbind option_bind]. pose proof (co_pc _ Ha).
  destruct (gpr_add_ok rt1 GPR_NP_IDX (next_pc act)) as (rt2 & -> & E2');
    [apply E|done|done|unfold in_width; lia|done|]. cbn [mbind option_bind].
  destruct (gpr_add_ok rt2 GPR_NN_IDX (next_node act)) as (rt3 & -> & E3);
    [apply E2'|done|done|apply (co_node _ Ha)|done|].
  exists rt3. split; [done|]. eapply ext_trans; [done|]. by eapply ext_trans.
Qed.

(** ** Committing the updates *)

(** [rt'] differs from [rt] only in its registers, which keep their widths, the
    header offset and a valid program counter. *)
Definition regs_ext (rt rt' : ice_parser_rt) : Prop :=
  regs_ok (gpr rt') ∧ rd (gpr rt') GPR_HO_IDX = rd (gpr rt) GPR_HO_IDX ∧ pc_ok rt' ∧
  rt' = rt <| gpr := gpr rt' |>.

Lemma regs_ext_refl rt : regs_ok (gpr rt) → pc_ok rt → regs_ext rt rt.
Proof. intros. split_and!; try done; by destruct rt. Qed.

Lemma regs_ext_set rt rt1 i v : regs_ext rt rt1 → 0 <= i < 128 → i ≠ GPR_HO_IDX →
  in_width 16 v → (i = GPR_NP_IDX → 0 <= v < 192) →
  ∃ rt2, set_gpr rt1 i v = Some rt2 ∧ regs_ext rt rt2.
Proof.
  intros (Hg & Hho & (pc & Hpc & Hpcr) & Eq) Hi Hne Hv Hnp. unfold set_gpr.
  destruct (regs_wr _ _ _ Hg Hi Hv) as (g & -> & Hg' & Heq & Hoth). eexists. split; [done|].
  split_and!; simpl; [done|by rewrite Hoth| |rewrite Eq; done].
  unfold pc_ok. simpl. destruct (decide (i = GPR_NP_IDX)) as [->|Hn].
  - exists v. split; [done|]. by apply Hnp.
  - exists pc. by rewrite Hoth.
Qed.

Lemma bit_set_width r x b : in_width 16 r →
  in_width 16 (if b : bool then u16 (r .| u16 (1 .<< x)) else u16 (r .& Z.lnot (u16 (1 .<< x)))).
Proof. intros. destruct b; by apply wrap_width. Qed.

Lemma regs_ext_bit rt rt1 i x b : regs_ext rt rt1 → 0 <= i < 108 →
  ∃ rt2, gpr_bit_set rt1 i x b = Some rt2 ∧ regs_ext rt rt2.
Proof.
  intros E Hi. unfold gpr_bit_set.
  destruct (regs_rd (gpr rt1) i) as (r & -> & Hr); [apply E|lia|]. cbn [mbind option_bind].
  apply regs_ext_set; [done|lia|unfold GPR_HO_IDX; lia|by apply bit_set_width|].
  unfold GPR_NP_IDX. lia.
Qed.

(** A loop that changes only registers. *)
Lemma regs_loop rt rt0 n body : 0 <= n → regs_ext rt rt0 →
  (∀ i rt1, 0 <= i < n → regs_ext rt rt1 → ∃ rt2, body i rt1 = Some rt2 ∧ regs_ext rt rt2) →
  ∃ rt', for_range 0 n body rt0 = Some rt' ∧ regs_ext rt rt'.
Proof. intros Hn H0 Hb. by apply (for_range_total (fun _ => regs_ext rt)). Qed.

Lemma pu_exe_ok rt : regs_ok (gpr rt) → pc_ok rt → pu_ok (pu rt) →
  ∃ rt', _pu_exe rt = Some rt' ∧ regs_ext rt rt'.
Proof.
  intros Hg Hpc Hp. unfold _pu_exe. cbv zeta. pose proof (regs_ext_refl _ Hg Hpc) as E0.
  edestruct (regs_loop rt rt ICE_PARSER_GPR_NUM) as (rt1 & -> & E1); [done|done| |].
  { intros i r Hi E. change (0 <= i < 128) in Hi.
    destruct (rd_in_range (gpr_val_upd (pu rt)) i) as [upd Hupd];
      [rewrite (uo_upd _ Hp); lia|]. rewrite Hupd. cbn [mbind option_bind].
    destruct upd; [|by exists r].
    destruct (regs_rd (gpr_val (pu rt)) i) as (v & Hv & Hw); [apply Hp|done|].
    rewrite Hv. cbn [mbind option_bind]. unfold _rt_gpr_set.
    destruct (Z.eqb_spec i GPR_HO_IDX) as [->|Hne].
    { rewrite (uo_ho _ Hp) in Hupd. done. }
    apply regs_ext_set; try done. intros ->.
    destruct (uo_np _ Hp Hupd) as (v' & Hv' & Hr). congruence. }
  cbn [mbind option_bind].
  edestruct (regs_loop rt rt1 64) as (rt2 & -> & E2); [done|done| |].
  { intros i r Hi E.
    cbv beta. case_match; [|by exists r]. apply regs_ext_bit; [done|].
    unfold GPR_FLG_IDX. assert (0 <= i / 16 < 4); [|lia].
    split; [apply Z.div_pos; lia|apply Z.div_lt_upper_bound; lia]. }
  cbn [mbind option_bind]. apply (regs_loop rt rt2 16); [done|done|].
  intros i r Hi E. case_match; [|by exists r]. by apply regs_ext_bit.
Qed.

(** Loading the header bytes changes only the registers below 80. *)
Lemma load_hb_ok rt ho : rt_ok rt → 0 <= ho <= 504 →
  ∃ rt', load_hb rt ho = Some rt' ∧ rt_ok rt' ∧
    (∀ i, 80 <= i → rd (gpr rt') i = rd (gpr rt) i) ∧ rt' = rt <| gpr := gpr rt' |>.
Proof.
  intros Hok Hho. destruct (ro_regs _ Hok) as [Hgl Hgw].
  destruct (ro_pkt _ Hok) as [Hpl Hpb]. unfold load_hb.
  rewrite bytes_at_in_range by lia. cbn [mbind option_bind].
  set (hb := take 32 _). assert (bytes_ok hb) as Hhb by (by apply Forall_take, Forall_drop).
  destruct (bytes_words_bytes 16 hb) as [_ Hwl]; [done|unfold hb; rewrite length_take, length_drop; lia|].
  unfold store_words. rewrite Hwl, Hgl. cbn [mbind option_bind]. eexists. split; [done|].
  change (Z.to_nat GPR_HB_IDX) with 64%nat.
  set (g' := take 64 (gpr rt) ++ words_of_bytes hb ++ drop (64 + 16) (gpr rt)).
  assert (length (take 64 (gpr rt)) = 64%nat) as Ht by (rewrite length_take; lia).
  assert (regs_ok g') as Hg'.
  { split; [unfold g'; rewrite !length_app, Ht, Hwl, length_drop; lia|].
    unfold g'. apply Forall_app. split; [by apply Forall_take|]. apply Forall_app.
    split; [by apply words_of_bytes_width|by apply Forall_drop]. }
  split_and!; [destruct Hok; by split| |done].
  intros i Hi. simpl. fold g'. unfold rd. rewrite (proj2 (Z.leb_le 0 i)) by lia. unfold g'.
  rewrite lookup_app_r by lia. rewrite lookup_app_r by lia. rewrite lookup_drop. f_equal. lia.
Qed.

(** Moving the header offset inside the packet buffer. *)
Lemma ho_set_ok rt ho : rt_ok rt → pc_ok rt → 0 <= ho <= 504 →
  ∃ rt', _rt_ho_set rt ho = Some rt' ∧ rt_ok rt' ∧ pc_ok rt' ∧ at_ho rt' ho ∧
    rt' = rt <| gpr := gpr rt' |>.
Proof.
  intros Hok (pc & Hpc & Hpcr) Hho. unfold _rt_ho_set, set_gpr.
  destruct (regs_wr (gpr rt) GPR_HO_IDX ho (ro_regs _ Hok)) as (g & -> & Hg & Heq & Hoth);
    [done|unfold in_width; lia|]. cbn [mbind option_bind].
  destruct (load_hb_ok (rt <| gpr := g |>) ho) as (rt' & -> & Hok' & Hrd & E);
    [destruct Hok; by split|done|]. simpl in Hrd.
  exists rt'. split_and!; [done..| | |].
  - exists pc. by rewrite Hrd, Hoth.
  - unfold at_ho. by rewrite Hrd.
  - by rewrite E.
Qed.

Lemma pu_zero_ok : pu_ok pu_zero.
Proof.
  split; try done. split; [done|]. by apply Forall_replicate.
Qed.

Lemma rt_ok_ext rt rt' : ext rt rt' → rt_ok rt → rt_ok rt'.
Proof. intros [_ ->] []. by split. Qed.

Lemma rt_ok_regs_ext rt rt' : regs_ext rt rt' → rt_ok rt → rt_ok rt'.
Proof. intros (Hg & _ & _ & Eq) []. rewrite Eq. split; simpl; done. Qed.

Lemma exec_units rt act : regs_ok (gpr rt) → loaded rt act → pu_ok (pu rt) →
  ∃ rt', (if rt_pg rt =? 0 then
       r ← _pg_exe rt; r ← _alu0_exe r; r ← _alu1_exe r; _alu2_exe r
     else if rt_pg rt =? 1 then
       r ← _alu0_exe rt; r ← _pg_exe r; r ← _alu1_exe r; _alu2_exe r
     else if rt_pg rt =? 2 then
       r ← _alu0_exe rt; r ← _alu1_exe r; r ← _pg_exe r; _alu2_exe r
     else if rt_pg rt =? 3 then
       r ← _alu0_exe rt; r ← _alu1_exe r; r ← _alu2_exe r; _pg_exe r
     else Some rt) = Some rt' ∧ ext rt rt'.
Proof.
  intros Hg Hl Hp. destruct (units_run rt act Hg Hl) as (Hpg & H0 & H1 & H2).
  pose proof (ext_refl _ Hp) as E.
  assert (∀ f0 f1 f2 f3, runs rt f0 → runs rt f1 → runs rt f2 → runs rt f3 →
    ∃ rt', (r ← f0 rt; r ← f1 r; r ← f2 r; f3 r) = Some rt' ∧ ext rt rt') as Hseq.
  { intros f0 f1 f2 f3 R0 R1 R2 R3.
    destruct (R0 rt E) as (r0 & -> & E0). cbn [mbind option_bind].
    destruct (R1 r0 E0) as (r1 & -> & E1). cbn [mbind option_bind].
    destruct (R2 r1 E1) as (r2 & -> & E2). cbn [mbind option_bind]. by apply R3. }
  repeat (case_match; [by apply Hseq|]). by exists rt.
Qed.

Lemma alu_pg_exe_ok rt act ho : rt_ok rt → pc_ok rt → at_ho rt ho → loaded rt act →
  0 <= ho → ho + H <= 504 →
  ∃ rt', _alu_pg_exe rt = Some rt' ∧ rt_ok rt' ∧ pc_ok rt' ∧ at_ho rt' (ho + ho_inc act) ∧
    rt_action rt' = Some act ∧ pkt_len rt' = pkt_len rt.
Proof.
  intros Hok Hpc Hho Hl H0 HH. unfold _alu_pg_exe. cbv zeta.
  set (rt0 := rt <| pu := pu_zero |>).
  assert (rt_ok rt0) as Hok0 by (destruct Hok; by split).
  destruct (exec_units rt0 act) as (rt1 & -> & E1);
    [apply (ro_regs _ Hok0)|exact Hl|apply pu_zero_ok|]. cbn [mbind option_bind].
  pose proof (rt_ok_ext _ _ E1 Hok0) as Hok1. pose proof (ext_gpr _ _ E1) as Eg1.
  destruct (pu_exe_ok rt1) as (rt2 & -> & E2);
    [apply (ro_regs _ Hok1)|unfold pc_ok; rewrite Eg1; apply Hpc|apply E1|].
  cbn [mbind option_bind]. pose proof (rt_ok_regs_ext _ _ E2 Hok1) as Hok2.
  destruct E2 as (Hg2 & Hho2 & Hpc2 & Eq2).
  assert (rt_action rt2 = Some act) as Hact.
  { rewrite Eq2. destruct E1 as [_ ->]. apply Hl. }
  assert (pkt_len rt2 = pkt_len rt) as Hpl by (rewrite Eq2; by destruct E1 as [_ ->]).
  assert (at_ho rt2 ho) as Hat by (unfold at_ho; rewrite Hho2, Eg1; exact Hho).
  rewrite Hact. cbn [mbind option_bind].
  destruct Hl as (_ & _ & _ & _ & Ha). destruct (co_inc _ Ha) as [Hinc Hpol].
  destruct (Z.eqb_spec (ho_inc act) 0) as [E|Hne].
  { exists rt2. rewrite E, Z.add_0_r. by split_and!. }
  rewrite Hat. cbn [mbind option_bind]. rewrite Hpol, wrap_small by (done || unfold in_width; lia).
  destruct (ho_set_ok rt2 (ho + ho_inc act)) as (rt3 & -> & Hok3 & Hpc3 & Hat3 & Eq3);
    [done|done|lia|]. exists rt3. split_and!; try done; by rewrite Eq3.
Qed.

(** ** Keys and lookups *)

Lemma flag_get_total rt ena i : regs_ok (gpr rt) → flag_idx_ok i →
  ∃ b, key_flag rt ena i = Some b.
Proof.
  intros Hg Hi. unfold key_flag, _flag_get. destruct ena; [|by eexists].
  assert (0 <= i / 16 < 4).
  { unfold flag_idx_ok in Hi. split; [apply Z.div_pos; lia|apply Z.div_lt_upper_bound; lia]. }
  destruct (regs_rd _ (GPR_FLG_IDX + i / 16) Hg) as (v & -> & _); [unfold GPR_FLG_IDX; lia|].
  by eexists.
Qed.

Lemma pk_build_total rt kb : regs_ok (gpr rt) → npkb_ok kb → ∃ v, _pk_build rt kb = Some v.
Proof.
  intros Hg [Hk0 Hk1]. unfold _pk_build.
  destruct (Z.eqb_spec (ops kb) 0) as [E0|_].
  { destruct (Hk0 E0) as [? ?].
    destruct (hv_bit_sel_total rt (start_or_reg0 kb) (len_or_reg1 kb)) as (v & -> & _); eauto. }
  destruct (Z.eqb_spec (ops kb) 1) as [E1|_]; [|case_match; by eexists].
  destruct (Hk1 E1) as [Hs Hl].
  destruct (regs_rd _ _ Hg Hs) as (v0 & -> & _), (regs_rd _ _ Hg Hl) as (v1 & -> & _).
  by eexists.
Qed.

Lemma pgk_build_ok rt boost np kb : regs_ok (gpr rt) → npkb_ok np → pgkb_ok kb →
  ∃ k, pgk_build rt boost np kb = Some (rt <| pg_key := k |>).
Proof.
  intros Hg Hn (H0 & H1 & H2 & H3 & Ha). unfold pgk_build.
  destruct (pk_build_total rt np Hg Hn) as (v & ->). cbn [mbind option_bind].
  destruct (flag_get_total rt (flag0_ena kb) _ Hg H0) as (b0 & ->).
  destruct (flag_get_total rt (flag1_ena kb) _ Hg H1) as (b1 & ->).
  destruct (flag_get_total rt (flag2_ena kb) _ Hg H2) as (b2 & ->).
  destruct (flag_get_total rt (flag3_ena kb) _ Hg H3) as (b3 & ->).
  destruct (regs_rd _ _ Hg Ha) as (a & -> & _).
  destruct (regs_rd _ GPR_NN_IDX Hg) as (n & -> & _); [done|].
  cbn [mbind option_bind]. by eexists.
Qed.

Lemma bst_key_init_ok rt imem : rt_ok rt →
  ∃ k, _bst_key_init rt imem = Some (rt <| bst_key := k |>) ∧ length k = 20%nat.
Proof.
  intros Hok. unfold _bst_key_init. pose proof (ro_regs _ Hok) as Hg.
  destruct (regs_rd _ GPR_TSR_IDX Hg) as (tsr & -> & _); [done|].
  destruct (regs_rd _ GPR_HO_IDX Hg) as (ho & -> & Hho); [done|]. cbn [mbind option_bind].
  destruct (ro_pkt _ Hok) as [Hpl _]. pose proof (ro_key _ Hok) as Hk.
  destruct (wr (bst_key rt) _ _) as [k0|] eqn:Hw.
  2: { rewrite wr_in_range in Hw; [done|]. rewrite Hk. done. }
  cbn [mbind option_bind]. assert (length k0 = 20%nat) as Hk0 by (by rewrite (wr_length _ _ _ _ Hw)).
  edestruct (for_range_total (fun _ (k : list Z) => length k = 20%nat) 0
    (ICE_PARSER_BST_KEY_LEN - 2 + 1)) as (k1 & -> & Hk1); [done|exact Hk0| |by exists k1].
  intros i k Hi Hlk. cbv beta zeta. change (0 <= i < 19) in Hi.
  unfold ICE_PARSER_BST_KEY_LEN, ICE_PARSER_MAX_PKT_LEN in *. unfold in_width in Hho.
  assert (∃ v, (if ho + (20 - 2) - (20 - 2 - i) <? 504
    then rd (pkt_buf rt) (ho + (20 - 2) - (20 - 2 - i)) else Some 0) = Some v) as [v ->].
  { destruct (Z.ltb_spec (ho + (20 - 2) - (20 - 2 - i)) 504); [|by eexists].
    destruct (rd_in_range (pkt_buf rt) (ho + (20 - 2) - (20 - 2 - i))) as [v ->]; [lia|].
    by eexists. }
  cbn [mbind option_bind]. destruct (wr k _ v) as [k'|] eqn:Hw'.
  - exists k'. split; [done|]. by rewrite (wr_length _ _ _ _ Hw').
  - rewrite wr_in_range in Hw' by lia. done.
Qed.

(** A search over a table of well-formed items returns a well-formed item. *)
Lemma lookup_ok {A} (P : A → Prop) f n (table : list A) :
  Forall P table → Forall (fun x => is_Some (f x)) table → (n <= length table)%nat →
  ∃ i b, first_match f n 0 table = Some i ∧ item_at table i = Some b ∧
    (∀ x, b = Some x → P x).
Proof.
  intros HP Hf Hn. destruct (first_match_spec f n 0 table) as (i & Hm & Hi); [lia|lia|done|].
  exists i. unfold item_at. destruct i as [i|]; [|by exists None].
  destruct Hi as (_ & (x & Hx & _) & _). exists (Some x). rewrite Hx.
  split_and!; [done|done|]. intros y [= <-]. by apply (rd_Forall _ _ _ _ HP Hx).
Qed.

Lemma ternary_total key key_inv pat len : 0 <= len <= Z.of_nat (length key) →
  len <= Z.of_nat (length key_inv) → len <= Z.of_nat (length pat) →
  is_Some (ice_ternary_match key key_inv pat len).
Proof.
  intros. unfold ice_ternary_match.
  destruct (ternary_match_bytes_spec (Z.to_nat len) 0 key key_inv pat) as (r & -> & _); [lia..|].
  by eexists.
Qed.

Lemma flg_redirect_total table f : 64 <= Z.of_nat (length table) →
  Forall (fun i => 0 <= FlgRd.intr_flg_id i < 64) table → is_Some (ice_flg_redirect table f).
Proof.
  intros Hl Hf. destruct (flg_redirect_bits table f Hl Hf) as (v & -> & _). by eexists.
Qed.

Lemma kb_flag_total kb f : kb_ok kb → is_Some (ice_xlt_kb_flag_get kb f).
Proof.
  intros (e & He & Hl). destruct (xlt_kb_flag_bits kb f e He Hl) as (v & -> & _). by eexists.
Qed.

Variable psr : ice_parser.
Hypothesis Hpsr : psr_ok psr.

(** Only key, ALUs, priority and action change while an iteration is set up. *)
Definition setup_ext (rt rt' : ice_parser_rt) : Prop :=
  rt_ok rt' ∧ gpr rt' = gpr rt ∧ pkt_len rt' = pkt_len rt.

Definition alus_ok (rt : ice_parser_rt) : Prop :=
  (∃ a, rt_alu0 rt = Some a ∧ alu_ok a) ∧ (∃ a, rt_alu1 rt = Some a ∧ alu_ok a) ∧
  (∃ a, rt_alu2 rt = Some a ∧ alu_ok a).

Lemma select_sources_ok rt imem : rt_ok rt → imem_ok imem →
  ∃ rt', select_sources psr rt imem = Some rt' ∧ setup_ext rt rt' ∧ alus_ok rt'.
Proof.
  intros Hok (Hn & Hp & Ha0 & Ha1 & Ha2). unfold select_sources, ice_bst_tcam_match.
  destruct (po_bst _ Hpsr) as [Hbl Hbf]. pose proof (ro_regs _ Hok) as Hg.
  destruct (lookup_ok bst_ok (fun item =>
    if BstTcam.hit_idx_grp item =? 0 then Some false
    else ice_ternary_match (BstTcam.key item) (BstTcam.key_inv item) (bst_key rt) 20)
    (Z.to_nat BstTcam.ICE_BST_TCAM_TABLE_SIZE) (bst_tcam_table psr)) as (i & b & -> & Hb & Hbok).
  { done. }
  { eapply List.Forall_impl; [|exact Hbf]. intros x (Hk & Hki & _). case_match; [by eexists|].
    apply ternary_total; rewrite ?Hk, ?Hki, ?(ro_key _ Hok); lia. }
  { rewrite Hbl. done. }
  cbn [mbind option_bind]. rewrite Hb. cbn [mbind option_bind].
  destruct (pgk_build_ok rt 0 (np_kb imem) (pg_kb imem) Hg Hn Hp) as (k & Hik).
  assert (∀ rt', gpr rt' = gpr rt → pkt_buf rt' = pkt_buf rt → pkt_len rt' = pkt_len rt →
    bst_key rt' = bst_key rt → markers rt' = markers rt → protocols rt' = protocols rt →
    offsets rt' = offsets rt → setup_ext rt rt') as Hse.
  { intros rt' E1 E2 E3 E4 E5 E6 E7. split; [|done]. destruct Hok. split; by rewrite ?E1, ?E2, ?E4, ?E5, ?E6, ?E7. }
  destruct b as [bst|].
  - destruct (Hbok _ eq_refl) as (_ & _ & Hbn & Hbp & Hb0 & Hb1 & Hb2).
    destruct (pgk_build_ok rt (BstTcam.hit_idx_grp bst) (BstTcam.np_kb bst) (BstTcam.pg_kb bst)
      Hg Hbn Hbp) as (k' & Hbk).
    unfold _bst_pgk_init, _imem_pgk_init. rewrite Hik, Hbk.
    destruct (bm_pg (b_m imem)); cbn [mbind option_bind]; (eexists; split; [done|]; split;
      [apply Hse; repeat case_match; done
      |split_and!; repeat case_match; simpl; eexists; split; done || done]).
  - unfold _imem_pgk_init. rewrite Hik. cbn [mbind option_bind]. eexists. split; [done|].
    split; [by apply Hse|]. split_and!; by eexists.
Qed.

Lemma cam_total {A} (f : A → bool) (table : list A) :
  Forall (fun x => is_Some (Some (f x))) table.
Proof. apply Forall_true. by eexists. Qed.

Lemma select_action_ok rt : 
  ∃ a, select_action psr rt = Some (rt <| rt_action := a |>) ∧
    ∀ act, a = Some act → action_ok act.
Proof.
  unfold select_action, _pg_cam_match, _pg_nm_cam_match, ice_pg_cam_match, ice_pg_nm_cam_match.
  destruct (po_cam _ Hpsr) as [Hcl Hcf], (po_sp _ Hpsr) as [Hsl Hsf],
    (po_nm _ Hpsr) as [Hnl Hnf], (po_nmsp _ Hpsr) as [Hml Hmf].
  destruct (lookup_ok _ (fun item => Some (IceMatch._pg_cam_match item (pg_key rt)))
    (Z.to_nat ICE_PG_CAM_TABLE_SIZE) _ Hcf (cam_total _ _)) as (i1 & b1 & -> & E1 & H1);
    [by rewrite Hcl|]. cbn [mbind option_bind]. rewrite E1. cbn [mbind option_bind].
  destruct b1 as [it1|].
  { eexists. split; [done|]. intros act [= <-]. by apply H1. }
  destruct (lookup_ok _ (fun item => Some (IceMatch._pg_cam_match item (pg_key rt)))
    (Z.to_nat ICE_PG_SP_CAM_TABLE_SIZE) _ Hsf (cam_total _ _)) as (i2 & b2 & -> & E2 & H2);
    [by rewrite Hsl|]. cbn [mbind option_bind]. rewrite E2. cbn [mbind option_bind].
  destruct b2 as [it2|].
  { eexists. split; [done|]. intros act [= <-]. by apply H2. }
  destruct (lookup_ok _ (fun item => Some (IceMatch._pg_nm_cam_match item (pg_key rt)))
    (Z.to_nat ICE_PG_NM_CAM_TABLE_SIZE) _ Hnf (cam_total _ _)) as (i3 & b3 & -> & E3 & H3);
    [by rewrite Hnl|]. cbn [mbind option_bind]. rewrite E3. cbn [mbind option_bind].
  destruct b3 as [it3|].
  { eexists. split; [done|]. intros act [= <-]. by apply H3. }
  destruct (lookup_ok _ (fun item => Some (IceMatch._pg_nm_cam_match item (pg_key rt)))
    (Z.to_nat ICE_PG_NM_SP_CAM_TABLE_SIZE) _ Hmf (cam_total _ _)) as (i4 & b4 & -> & E4 & H4);
    [by rewrite Hml|]. cbn [mbind option_bind]. rewrite E4.
  eexists. split; [done|]. destruct b4 as [it4|]; [|done]. intros act [= <-]. by apply H4.
Qed.

(** ** Markers and protocol offsets *)

(** Only the result arrays change, and keep their sizes. *)
Definition out_ext (rt rt' : ice_parser_rt) : Prop :=
  rt_ok rt' ∧ gpr rt' = gpr rt ∧ pkt_len rt' = pkt_len rt ∧ rt_action rt' = rt_action rt.

Lemma out_ext_trans r1 r2 r3 : out_ext r1 r2 → out_ext r2 r3 → out_ext r1 r3.
Proof. intros (_ & ? & ? & ?) (? & ? & ? & ?). split_and!; congruence. Qed.

Lemma marker_set_ok rt m : rt_ok rt → 0 <= m < 72 →
  ∃ rt', _marker_set rt m = Some rt' ∧ out_ext rt rt'.
Proof.
  intros Hok Hm. unfold _marker_set. pose proof (ro_mark _ Hok) as Hl.
  assert (0 <= m / 8 < 9) by (split; [apply Z.div_pos; lia|apply Z.div_lt_upper_bound; lia]).
  destruct (rd_in_range (markers rt) (m / 8)) as [v ->]; [lia|]. cbn [mbind option_bind].
  destruct (wr _ _ _) as [ms|] eqn:Hw; [|rewrite wr_in_range in Hw; [done|lia]].
  eexists. split; [done|]. split_and!; try done. destruct Hok. split; simpl; try done.
  by rewrite (wr_length _ _ _ _ Hw).
Qed.

Lemma proto_set_ok rt id off : rt_ok rt → 0 <= id < 256 →
  ∃ rt', proto_set rt id off = Some rt' ∧ out_ext rt rt'.
Proof.
  intros Hok Hid. unfold proto_set. pose proof (ro_proto _ Hok). pose proof (ro_off _ Hok).
  destruct (wr (protocols rt) id true) as [ps|] eqn:Hp; [|rewrite wr_in_range in Hp; [done|lia]].
  destruct (wr (offsets rt) id off) as [os|] eqn:Ho; [|rewrite wr_in_range in Ho; [done|lia]].
  eexists. split; [done|]. split_and!; try done. destruct Hok. split; simpl; try done.
  - by rewrite (wr_length _ _ _ _ Hp).
  - by rewrite (wr_length _ _ _ _ Ho).
Qed.

(** A loop over a group that only touches the result arrays. *)
Lemma out_loop rt n body : 0 <= n → rt_ok rt →
  (∀ i rt1, 0 <= i < n → out_ext rt rt1 →
     ∃ c, body i rt1 = Some c ∧ out_ext rt (ctl_state c)) →
  ∃ rt', for_break 0 n body rt = Some rt' ∧ out_ext rt rt'.
Proof.
  intros Hn Hok Hb. apply (for_break_total (fun _ => out_ext rt)); [lia|by split_and!|done|].
  intros i rt1 Hi He. destruct (Hb i rt1 Hi He) as (c & -> & Hc). exists c.
  split; [done|]. by destruct c.
Qed.

Lemma marker_update_ok rt act : rt_ok rt → rt_action rt = Some act → action_ok act →
  ∃ rt', _marker_update psr rt = Some rt' ∧ out_ext rt rt'.
Proof.
  intros Hok Ha Hact. unfold _marker_update. rewrite Ha. cbn [mbind option_bind].
  destruct (co_mark _ Hact) as [H0 Hm]. destruct (is_mg act).
  - destruct (po_mk _ Hpsr) as [Hl Hf].
    destruct (rd_in_range (mk_grp_table psr) (marker_id act)) as [g Hg]; [lia|].
    destruct (rd_Forall _ _ _ _ Hf Hg) as [Hgl Hgf]. rewrite Hg. cbn [mbind option_bind].
    apply out_loop; [done|done|]. intros i rt1 Hi He.
    destruct (rd_in_range (MkGrp.markers g) i) as [m Em]; [lia|]. rewrite Em. cbn [mbind option_bind].
    pose proof (rd_Forall _ _ _ _ Hgf Em) as Hmr. simpl in Hmr.
    destruct (m =? 71); [eexists; split; [done|exact He]|].
    destruct (marker_set_ok rt1 m) as (rt2 & -> & E2); [apply He|done|].
    eexists. split; [done|]. by eapply out_ext_trans.
  - destruct (negb (marker_id act =? 71)); [by apply marker_set_ok|].
    exists rt. by split_and!.
Qed.

Lemma proto_off_update_ok rt act : rt_ok rt → rt_action rt = Some act → action_ok act →
  ∃ rt', _proto_off_update psr rt = Some rt' ∧ out_ext rt rt'.
Proof.
  intros Hok Ha Hact. unfold _proto_off_update. rewrite Ha. cbn [mbind option_bind].
  destruct (co_proto _ Hact) as [Hid Hpg]. destruct (is_pg act); [|by apply proto_set_ok].
  destruct (po_pg _ Hpsr) as [Hl Hf]. specialize (Hpg eq_refl).
  destruct (rd_in_range (proto_grp_table psr) (proto_id act)) as [g Hg]; [lia|].
  destruct (rd_Forall _ _ _ _ Hf Hg) as [Hgl Hgf]. rewrite Hg. cbn [mbind option_bind].
  apply out_loop; [done|done|]. intros i rt1 Hi He.
  destruct (rd_in_range (ProtoGrp.po g) i) as [e Ee]; [lia|]. rewrite Ee. cbn [mbind option_bind].
  pose proof (rd_Forall _ _ _ _ Hgf Ee) as Her. simpl in Her.
  destruct (ProtoGrp.proto_id e =? 0xff); [eexists; split; [done|exact He]|].
  match goal with |- context [proto_set rt1 ?p ?o] =>
    destruct (proto_set_ok rt1 p o) as (rt2 & -> & E2) end; [apply He|done|].
  eexists. split; [done|]. by eapply out_ext_trans.
Qed.

(** ** One iteration *)

Lemma exec_step_ok rt ho : rt_ok rt → pc_ok rt → at_ho rt ho → 0 <= ho → ho + H <= 504 →
  ∃ r, exec_step psr rt = Some r ∧
    match r with
    | inl rt' => rt_ok rt' ∧ pc_ok rt' ∧ pkt_len rt' = pkt_len rt ∧
        ∃ act, action_ok act ∧ is_last_round act = false ∧ at_ho rt' (ho + ho_inc act) ∧
          ho + ho_inc act < pkt_len rt
    | inr (status, rt') => rt_ok rt' ∧ (status = ICE_SUCCESS ∨ status = ICE_ERR_PARAM)
    end.
Proof.
  intros Hok (pc & Hpc & Hpcr) Hho H0 HH. unfold exec_step. rewrite Hpc. cbn [mbind option_bind].
  destruct (po_imem _ Hpsr) as [Hil Hif].
  destruct (rd_in_range (imem_table psr) pc) as [imem Hi]; [lia|]. rewrite Hi. cbn [mbind option_bind].
  pose proof (rd_Forall _ _ _ _ Hif Hi) as Himem.
  destruct (bst_key_init_ok rt imem Hok) as (k & -> & Hk). cbn [mbind option_bind].
  assert (rt_ok (rt <| bst_key := k |>)) as Hok1 by (destruct Hok; by split).
  destruct (select_sources_ok _ imem Hok1 Himem) as (rt2 & -> & (Hok2 & Eg2 & Ep2) & Hal).
  cbn [mbind option_bind]. simpl in Eg2, Ep2.
  destruct (select_action_ok rt2) as (a & -> & Hact). cbn [mbind option_bind].
  assert (rt_ok (rt2 <| rt_action := a |>)) as Hok3 by (destruct Hok2; by split).
  cbn [rt_action set_field]. simpl. destruct a as [act|]; [|eexists; split; [done|]; by split; [|right]].
  specialize (Hact act eq_refl).
  destruct (alu_pg_exe_ok (rt2 <| rt_action := Some act |>) act ho)
    as (rt4 & Halu & Hok4 & Hpc4 & Hho4 & Hact4 & Hpl4);
    [done|unfold pc_ok; simpl; rewrite Eg2; eauto|unfold at_ho; simpl; by rewrite Eg2| |done|done|].
  { destruct Hal as (? & ? & ?). by split_and!. }
  simpl in Halu, Hpl4. rewrite Halu. cbn [mbind option_bind].
  destruct (marker_update_ok rt4 act) as (rt5 & -> & (Hok5 & Eg5 & Ep5 & Ea5)); [done..|].
  cbn [mbind option_bind].
  destruct (proto_off_update_ok rt5 act) as (rt6 & -> & (Hok6 & Eg6 & Ep6 & _));
    [done|congruence|done|]. cbn [mbind option_bind].
  assert (at_ho rt6 (ho + ho_inc act)) as Hho6 by (unfold at_ho; by rewrite Eg6, Eg5).
  destruct (is_last_round act) eqn:Hlast; [eexists; split; [done|]; by split; [|left]|].
  rewrite Hho6. cbn [mbind option_bind].
  destruct (Z.leb_spec (pkt_len rt6) (ho + ho_inc act)); (eexists; split; [done|]).
  - by split; [|left].
  - split_and!; [done|unfold pc_ok; by rewrite Eg6, Eg5|congruence|].
    exists act. split_and!; try done. replace (pkt_len rt) with (pkt_len rt6) by congruence. done.
Qed.

(** ** The result *)

(** The recorded protocols with identifiers from [i] on, in ascending order. *)
Fixpoint found (rt : ice_parser_rt) (n : nat) (i : Z) : list ice_parser_proto_off :=
  match n with
  | O => []
  | S n' =>
      match rd (protocols rt) i, rd (offsets rt) i with
      | Some true, Some off => [mkPpo i off]
      | _, _ => []
      end ++ found rt n' (i + 1)
  end.

Definition found_protocols (rt : ice_parser_rt) : list ice_parser_proto_off := found rt 255 0.

Lemma proto_off_resolve_loop rt n i rslt : rt_ok rt → 0 <= i → i + Z.of_nat n <= 255 →
  (length (r_po rslt) <= 16)%nat →
  for_loop n i (fun i rslt =>
    p ← rd (protocols rt) i;
    if p : bool then off ← rd (offsets rt) i; po_push rslt i off else Some rslt) rslt
  = if (length (r_po rslt) + length (found rt n i) <=? 16)%nat
    then Some (rslt <| r_po := r_po rslt ++ found rt n i |>) else None.
Proof.
  intros Hok. revert i rslt. induction n as [|n IH]; intros i rslt Hi Hn Hl.
  { simpl. rewrite Nat.add_0_r, (proj2 (Nat.leb_le _ _)), app_nil_r by done. by destruct rslt. }
  cbn [for_loop found].
  destruct (rd_in_range (protocols rt) i) as [p Hp]; [rewrite (ro_proto _ Hok); lia|].
  destruct (rd_in_range (offsets rt) i) as [off Ho]; [rewrite (ro_off _ Hok); lia|].
  rewrite Hp, Ho. cbn [mbind option_bind].
  destruct p; cbn [mbind option_bind app]; [|by rewrite IH by (done || lia)].
  unfold po_push. cbn [app length].
  destruct (Z.ltb_spec (Z.of_nat (length (r_po rslt))) 16).
  - cbn [mbind option_bind]. rewrite IH by (simpl; rewrite ?length_app; simpl; lia).
    simpl r_po. rewrite length_app. cbn [length].
    rewrite (wrap_small 8 i) by (unfold in_width; lia).
    replace (length (r_po rslt) + 1 + length (found rt n (i + 1)))%nat
      with (length (r_po rslt) + S (length (found rt n (i + 1))))%nat by lia.
    rewrite <- app_assoc. done.
  - rewrite (proj2 (Nat.leb_gt _ _)) by lia. done.
Qed.

Lemma result_resolve_ok rt : rt_ok rt →
  ∃ rslt, _result_resolve psr rt =
    (if (length (found_protocols rt) <=? 16)%nat
     then Some (rslt <| r_po := found_protocols rt |>) else None) ∧ flags_acl rslt = 0.
Proof.
  intros Hok. unfold _result_resolve, _ptype_resolve, ice_ptype_mk_tcam_match.
  destruct (po_ptype _ Hpsr) as [Hl Hf].
  destruct (lookup_ok (fun _ => True) (fun item =>
    ice_ternary_match (PtypeMk.key item) (PtypeMk.key_inv item) (markers rt) 9)
    (Z.to_nat PtypeMk.ICE_PTYPE_MK_TCAM_TABLE_SIZE) (ptype_mk_tcam_table psr))
    as (i & b & -> & Hb & _).
  { by apply Forall_true. }
  { eapply List.Forall_impl; [|exact Hf]. intros x [Hk Hki].
    apply ternary_total; rewrite ?Hk, ?Hki, ?(ro_mark _ Hok); lia. }
  { rewrite Hl. done. }
  cbn [mbind option_bind]. rewrite Hb. cbn [mbind option_bind].
  assert (∃ ptype, match b with
    | Some item => Some (PtypeMk.ptype item) | None => Some 0xffff end = Some ptype) as [pt ->]
    by (destruct b; by eexists). cbn [mbind option_bind].
  rewrite load_in_range; [|done|rewrite length_bytes_of_words, (proj1 (ro_regs _ Hok)); done
    |apply bytes_of_words_ok]. cbn [mbind option_bind].
  destruct (po_flg _ Hpsr) as [Hfl Hff].
  match goal with |- context [ice_flg_redirect _ ?f] =>
    destruct (flg_redirect_total (flg_rd_table psr) f) as [pf ->] end; [lia|done|].
  cbn [mbind option_bind].
  destruct (po_kb _ Hpsr) as (Hsw & Hfd & Hrss).
  destruct (kb_flag_total _ pf Hsw) as [sw ->], (kb_flag_total _ pf Hfd) as [fd ->],
    (kb_flag_total _ pf Hrss) as [rss ->]. cbn [mbind option_bind].
  unfold _proto_off_resolve, for_range. rewrite proto_off_resolve_loop by (done || (simpl; lia)).
  eexists. split; [done|done].
Qed.

(** Every run of the loop stays inside the arrays. *)
Lemma exec_loop_safe rt ho fuel : rt_ok rt → pc_ok rt → at_ho rt ho → 0 <= ho →
  ho + H <= 504 → pkt_len rt + H <= 505 →
  ∃ r, iterate (exec_step psr) fuel rt = Some r ∧
    match r with
    | inl rt' => rt_ok rt'
    | inr (status, rt') => rt_ok rt' ∧ (status = ICE_SUCCESS ∨ status = ICE_ERR_PARAM)
    end.
Proof.
  rewrite iterate_unfold. revert rt ho.
  induction (Pos.to_nat fuel) as [|n IH]; intros rt ho Hok Hpc Hho H0 HH Hlen.
  { by eexists. }
  cbn [iterate_nat]. destruct (exec_step_ok rt ho) as (r & -> & Hr); [done..|].
  cbn [mbind option_bind]. destruct r as [rt'|[status rt']]; [|by eexists].
  destruct Hr as (Hok' & Hpc' & Hpl & act & Ha & _ & Hho' & Hlt).
  destruct (co_inc _ Ha) as [Hinc _].
  apply (IH rt' (ho + ho_inc act)); try done; lia.
Qed.

End with_inc.

(** ** Termination *)

(** An action that ends the parse or moves forward. *)
Definition progress (a : ice_pg_cam_action) : Prop :=
  is_last_round a = true ∨ 1 <= ho_inc a.

Lemma exec_loop_terminates H psr rt ho fuel : psr_ok H progress psr →
  rt_ok rt → pc_ok rt → at_ho rt ho → 0 <= ho → ho + H <= 504 → pkt_len rt + H <= 505 →
  pkt_len rt < Zpos fuel →
  ∃ q, iterate (exec_step psr) fuel rt = Some (inr q) ∧
    rt_ok q.2 ∧ (q.1 = ICE_SUCCESS ∨ q.1 = ICE_ERR_PARAM).
Proof.
  intros Hpsr Hok Hpc Hho H0 HH Hlen Hfuel.
  set (ho_of s := default 0 (rd (gpr s) GPR_HO_IDX)).
  apply (iterate_total (exec_step psr)
    (fun s => rt_ok s ∧ pc_ok s ∧ pkt_len s = pkt_len rt ∧
       ∃ ho, at_ho s ho ∧ 0 <= ho ∧ ho + H <= 504)
    (fun q => rt_ok q.2 ∧ (q.1 = ICE_SUCCESS ∨ q.1 = ICE_ERR_PARAM))
    (fun s => Z.max 0 (pkt_len s - ho_of s))).
  - split_and!; try done. by exists ho.
  - unfold ho_of. rewrite Hho. simpl. lia.
  - intros s (Hok' & Hpc' & Hpl & h & Hh & Hh0 & HhH).
    destruct (exec_step_ok H progress psr Hpsr s h) as (r & -> & Hr); [done..|].
    exists r. split; [done|]. destruct r as [s'|[status s']]; [|done].
    destruct Hr as (Hok'' & Hpc'' & Hpl' & act & Ha & Hlast & Hh' & Hlt).
    destruct (co_inc _ _ _ Ha) as [Hinc _].
    destruct (co_req _ _ _ Ha) as [Hl|Hprog]; [congruence|].
    split.
    + split_and!; [done|done|congruence|]. exists (h + ho_inc act). split_and!; [done|lia..].
    + unfold ho_of. rewrite Hh, Hh'. simpl. lia.
Qed.

(** Termination: when every action ends the parse or moves the header offset
    forward, the parser terminates within [pkt_len] + 1 iterations, without
    leaving its arrays; it then reports the recorded protocols in ascending
    order, unless there are more than the 16 the result has room for, in which
    case the code writes behind the result's array. *)
Theorem parser_terminates H psr rt ho fuel : psr_ok H progress psr →
  rt_ok rt → pc_ok rt → at_ho rt ho → 0 <= ho → ho + H <= 504 → pkt_len rt + H <= 505 →
  pkt_len rt < Zpos fuel →
  ∃ status rt', iterate (exec_step psr) fuel rt = Some (inr (status, rt')) ∧
    (status = ICE_SUCCESS ∨ status = ICE_ERR_PARAM) ∧ rt_ok rt' ∧
    if (length (found_protocols rt') <=? 16)%nat
    then ∃ rslt, ice_parser_rt_execute fuel psr rt = Some (inr (status, rslt, rt')) ∧
      r_po rslt = found_protocols rt'
    else ice_parser_rt_execute fuel psr rt = None.
Proof.
  intros Hpsr Hok Hpc Hho H0 HH Hlen Hfuel.
  destruct (exec_loop_terminates H psr rt ho fuel) as ([status rt'] & Hit & Hok' & Hst); [done..|].
  exists status, rt'. split_and!; [done..|]. unfold ice_parser_rt_execute. rewrite Hit.
  cbn [mbind option_bind].
  destruct (result_resolve_ok H progress psr Hpsr rt' Hok') as (rslt & -> & _).
  destruct (length (found_protocols rt') <=? 16)%nat; [|done]. eexists. split; [done|done].
Qed.

(** ** Concrete tables *)

Definition alu_park : ice_alu :=
  mkAlu ICE_ALU_PARK 0 0 false 0 0 0 false false 0 0 0 0 false 0 0 false 0.
Definition demo_imem : ice_imem_item :=
  mkImem 0 (mkBm false false false false) (mkBkb 0 false) 0 (mkNpkb 2 0 0)
    (mkPgkb false false false false 0 0 0 0 0) alu_park alu_park alu_park.
Definition demo_act (inc : Z) (last : bool) : ice_pg_cam_action :=
  mkAction 0 0 false 1 false 71 last true inc.
Definition demo_bst : BstTcam.ice_bst_tcam_item :=
  BstTcam.mkBst 0 (replicate 20 0) (replicate 20 0) 0 0 (mkNpkb 2 0 0)
    (mkPgkb false false false false 0 0 0 0 0) alu_park alu_park alu_park.
Definition demo_kbt : XltKb.ice_xlt_kb :=
  XltKb.mkKb 0 0 0 0 [XltKb.mkKbe 0 0 (replicate 15 0) 0 0].

(** A parser whose every action is [act], reached at node 0. *)
Definition demo_parser (act : ice_pg_cam_action) : ice_parser :=
  let item := mkItem 0 (mkKey true 0 false false false false 0 0 0) act in
  let nm := mkNmItem 0 (mkNmKey false 0 false false false false 0 0) act in
  mkParser (replicate 192 demo_imem) [] (replicate 2048 item) (replicate 128 item)
    (replicate 1024 nm) (replicate 64 nm) (replicate 256 demo_bst) []
    (replicate 1024 (PtypeMk.mkPtype 0 0 (replicate 10 0) (replicate 10 0)))
    (replicate 128 (MkGrp.mkMk 0 (replicate 8 0)))
    (replicate 192 (ProtoGrp.mkPg 0 (replicate 8 (ProtoGrp.mkPo false 0 0))))
    (replicate 64 (FlgRd.mkFlg 0 false 0)) demo_kbt demo_kbt demo_kbt demo_kbt.

Lemma alu_park_ok : alu_ok alu_park.
Proof.
  split; simpl; try (vm_compute; split; discriminate); try done.
Qed.

Lemma demo_kb_ok : npkb_ok (mkNpkb 2 0 0) ∧ pgkb_ok (mkPgkb false false false false 0 0 0 0 0).
Proof. split; split_and!; done. Qed.

Lemma demo_act_ok inc last (Req : ice_pg_cam_action → Prop) : 0 <= inc →
  Req (demo_act inc last) → action_ok inc Req (demo_act inc last).
Proof. intros Hi Hr. split; simpl; try done. Qed.

Lemma demo_parser_ok inc last Req : 0 <= inc → Req (demo_act inc last) →
  psr_ok inc Req (demo_parser (demo_act inc last)).
Proof.
  intros Hi Hr. pose proof (demo_act_ok inc last Req Hi Hr) as Ha.
  destruct demo_kb_ok as [Hn Hp]. pose proof alu_park_ok.
  split; cbn [demo_parser imem_table pg_cam_table pg_sp_cam_table pg_nm_cam_table
      pg_nm_sp_cam_table bst_tcam_table mk_grp_table proto_grp_table ptype_mk_tcam_table
      flg_rd_table xlt_kb_sw xlt_kb_fd xlt_kb_rss];
    try (split; [by rewrite length_replicate|apply Forall_replicate; simpl]); try done.
  - split; [done|]. repeat constructor; done.
  - split; [done|]. repeat constructor; done.
  - split_and!; by eexists.
Qed.

Definition demo_start : ice_parser_rt := rt_zero <| pkt_len := 100 |>.

Lemma demo_start_ok : rt_ok demo_start ∧ pc_ok demo_start ∧ at_ho demo_start 0.
Proof.
  split_and!.
  - split; try done; split; try done; by apply Forall_replicate.
  - by exists 0.
  - done.
Qed.

Lemma parser_terminates_witness :
  ∃ status rt', iterate (exec_step (demo_parser (demo_act 14 false))) 101 demo_start = Some (inr (status, rt')) ∧
    (status = ICE_SUCCESS ∨ status = ICE_ERR_PARAM) ∧ rt_ok rt' ∧
    if (length (found_protocols rt') <=? 16)%nat
    then ∃ rslt, ice_parser_rt_execute 101 (demo_parser (demo_act 14 false)) demo_start
        = Some (inr (status, rslt, rt')) ∧ r_po rslt = found_protocols rt'
    else ice_parser_rt_execute 101 (demo_parser (demo_act 14 false)) demo_start = None.
Proof.
  destruct demo_start_ok as (Hok & Hpc & Hho).
  apply (parser_terminates 14 _ demo_start 0 101); try done.
  apply demo_parser_ok; [done|]. right. done.
Defined.

(** One iteration of the parser whose only action stays where it is. *)
Definition demo_looping : ice_parser_rt :=
  match exec_step (demo_parser (demo_act 0 false)) demo_start with
  | Some (inl rt) => rt
  | _ => demo_start
  end.

(** Divergence: well-formed tables do not suffice for termination.  With an
    action that neither ends the parse nor moves the header offset, the loop of
    [ice_parser_rt_execute] runs for as long as it is allowed to. *)
Theorem parser_may_diverge :
  psr_ok 0 (fun _ => True) (demo_parser (demo_act 0 false)) ∧
  ∀ fuel, ∃ rt, ice_parser_rt_execute fuel (demo_parser (demo_act 0 false)) demo_start
    = Some (inl rt).
Proof.
  split; [by apply demo_parser_ok|]. intros fuel.
  assert (exec_step (demo_parser (demo_act 0 false)) demo_start = Some (inl demo_looping)) as H0
    by (vm_compute; reflexivity).
  assert (exec_step (demo_parser (demo_act 0 false)) demo_looping = Some (inl demo_looping)) as H1
    by (vm_compute; reflexivity).
  assert (∀ n, iterate_nat (exec_step (demo_parser (demo_act 0 false))) n demo_looping
    = Some (inl demo_looping)) as Hloop.
  { induction n as [|n IH]; [done|]. cbn [iterate_nat]. by rewrite H1. }
  exists demo_looping. unfold ice_parser_rt_execute. rewrite iterate_unfold.
  destruct (Pos.to_nat fuel) as [|n] eqn:E; [lia|]. cbn [iterate_nat]. rewrite H0.
  cbn [mbind option_bind]. by rewrite Hloop.
Qed.
