(* ===== verification/IceParser.v ===== *)
(** * The parser instance

    ice_parser.c on top of the package and the runtime: creation and destruction
    of a parser with its sixteen tables, parsing a packet, the run-time changes
    to the boost TCAM (double VLAN mode and UDP tunnel ports), and the conversion
    of a parse result into a flow profile. *)
From S2P Require Import Prelude IceStatus IceTables IceMatch IcePackage IceParserRt IceBitops.
From Stdlib Require Import Ascii String.
Local Open Scope list_scope.
Local Open Scope Z_scope.
Local Abbreviation length := List.length.

(** A string literal as bytes. *)
Fixpoint lit (s : string) : list Z :=
  match s with
  | EmptyString => []
  | String c s' => Z.of_N (N_of_ascii c) :: lit s'
  end.

(** ** Table construction *)

(** Zero items, as [ice_malloc] leaves them. *)
Definition alu_zero : Imem.ice_alu :=
  Imem.mkAlu 0 0 0 false 0 0 0 false false 0 0 0 0 false 0 0 false 0.
Definition npkb_zero : Imem.ice_np_keybuilder := Imem.mkNpkb 0 0 0.
Definition pgkb_zero : Imem.ice_pg_keybuilder :=
  Imem.mkPgkb false false false false 0 0 0 0 0.
Definition imem_zero : Imem.ice_imem_item :=
  Imem.mkImem 0 (Imem.mkBm false false false false) (Imem.mkBkb 0 false) 0 npkb_zero pgkb_zero
    alu_zero alu_zero alu_zero.
Definition gpr_zero : Metainit.gpr_init := Metainit.mkGpr false 0 0 0 0.
Definition metainit_zero : Metainit.ice_metainit_item :=
  Metainit.mkMeta 0 0 0 0 0 0 gpr_zero gpr_zero gpr_zero gpr_zero 0.
Definition action_zero : PgCam.ice_pg_cam_action :=
  PgCam.mkAction 0 0 false 0 false 0 false false 0.
Definition pg_cam_zero : PgCam.ice_pg_cam_item := PgCam.mkItem 0 key_zero action_zero.
Definition pg_nm_cam_zero : PgCam.ice_pg_nm_cam_item :=
  PgCam.mkNmItem 0 (PgCam.mkNmKey false 0 false false false false 0 0) action_zero.
Definition bst_zero : BstTcam.ice_bst_tcam_item :=
  BstTcam.mkBst 0 (replicate 20 0) (replicate 20 0) 0 0 npkb_zero pgkb_zero
    alu_zero alu_zero alu_zero.
Definition lbl_zero : BstTcam.ice_lbl_item := BstTcam.mkLbl 0 (replicate 64 0).
Definition ptype_zero : PtypeMk.ice_ptype_mk_tcam_item :=
  PtypeMk.mkPtype 0 0 (replicate 10 0) (replicate 10 0).
Definition mk_grp_zero : MkGrp.ice_mk_grp_item := MkGrp.mkMk 0 (replicate 8 0).
Definition proto_grp_zero : ProtoGrp.ice_proto_grp_item :=
  ProtoGrp.mkPg 0 (replicate 8 (ProtoGrp.mkPo false 0 0)).
Definition flg_rd_zero : FlgRd.ice_flg_rd_item := FlgRd.mkFlg 0 false 0.

(** The package segment and, by section type, whether the allocation of the
    table succeeds; type 0 stands for the parser structure itself. *)
Record ice_hw := mkHw { seg : option (list Z); malloc_ok : Z → bool }.

Section with_hw.
Variable hw : ice_hw.

Definition table_get {item} (ty : Z) (zero : item) (size : Z)
    (parse_item : Z → list Z → option item) (no_offset : bool) : option (option (list item)) :=
  ice_parser_create_table (seg hw) (malloc_ok hw ty) ty zero size parse_item no_offset.

Definition ice_imem_table_get : option (option (list Imem.ice_imem_item)) :=
  table_get ICE_SID_RXPARSER_IMEM imem_zero Imem.ICE_IMEM_TABLE_SIZE
    Imem._imem_parse_item false.

Definition ice_metainit_table_get : option (option (list Metainit.ice_metainit_item)) :=
  table_get ICE_SID_RXPARSER_METADATA_INIT metainit_zero Metainit.ICE_METAINIT_TABLE_SIZE
    Metainit._metainit_parse_item false.

Definition ice_pg_cam_table_get : option (option (list PgCam.ice_pg_cam_item)) :=
  table_get ICE_SID_RXPARSER_CAM pg_cam_zero PgCam.ICE_PG_CAM_TABLE_SIZE
    PgCam._pg_cam_parse_item false.

Definition ice_pg_sp_cam_table_get : option (option (list PgCam.ice_pg_cam_item)) :=
  table_get ICE_SID_RXPARSER_PG_SPILL pg_cam_zero PgCam.ICE_PG_SP_CAM_TABLE_SIZE
    PgCam._pg_sp_cam_parse_item false.

Definition ice_pg_nm_cam_table_get : option (option (list PgCam.ice_pg_nm_cam_item)) :=
  table_get ICE_SID_RXPARSER_NOMATCH_CAM pg_nm_cam_zero PgCam.ICE_PG_NM_CAM_TABLE_SIZE
    PgCam._pg_nm_cam_parse_item false.

Definition ice_pg_nm_sp_cam_table_get : option (option (list PgCam.ice_pg_nm_cam_item)) :=
  table_get ICE_SID_RXPARSER_NOMATCH_SPILL pg_nm_cam_zero PgCam.ICE_PG_NM_SP_CAM_TABLE_SIZE
    PgCam._pg_nm_sp_cam_parse_item false.

Definition ice_bst_tcam_table_get : option (option (list BstTcam.ice_bst_tcam_item)) :=
  table_get ICE_SID_RXPARSER_BOOST_TCAM bst_zero BstTcam.ICE_BST_TCAM_TABLE_SIZE
    BstTcam._bst_parse_item true.

Definition ice_bst_lbl_table_get : option (option (list BstTcam.ice_lbl_item)) :=
  table_get ICE_SID_LBL_RXPARSER_TMEM lbl_zero BstTcam.ICE_BST_TCAM_TABLE_SIZE
    BstTcam._parse_lbl_item true.

Definition ice_ptype_mk_tcam_table_get
    : option (option (list PtypeMk.ice_ptype_mk_tcam_item)) :=
  table_get ICE_SID_RXPARSER_MARKER_PTYPE ptype_zero PtypeMk.ICE_PTYPE_MK_TCAM_TABLE_SIZE
    PtypeMk._parse_ptype_mk_tcam_item true.

Definition ice_mk_grp_table_get : option (option (list MkGrp.ice_mk_grp_item)) :=
  table_get ICE_SID_RXPARSER_MARKER_GRP mk_grp_zero MkGrp.ICE_MK_GRP_TABLE_SIZE
    MkGrp._mk_grp_parse_item false.

Definition ice_proto_grp_table_get : option (option (list ProtoGrp.ice_proto_grp_item)) :=
  table_get ICE_SID_RXPARSER_PROTO_GRP proto_grp_zero ProtoGrp.ICE_PROTO_GRP_TABLE_SIZE
    ProtoGrp._proto_grp_parse_item false.

Definition ice_flg_rd_table_get : option (option (list FlgRd.ice_flg_rd_item)) :=
  table_get ICE_SID_RXPARSER_FLAG_REDIR flg_rd_zero FlgRd.ICE_FLG_RD_TABLE_SIZE
    FlgRd._flg_rd_parse_item false.

Definition _xlt_kb_get (ty : Z) : option (option XltKb.ice_xlt_kb) :=
  match seg hw with
  | None => Some None
  | Some sg =>
      if negb (malloc_ok hw ty) then Some None
      else
        '(data, _) ← ice_pkg_enum_section sg true enum_zero ty;
        match data with
        | None => Some None
        | Some d => kb ← XltKb._parse_kb_data (drop (Z.to_nat d) sg); Some (Some kb)
        end
  end.

Definition ice_xlt_kb_get_sw : option (option XltKb.ice_xlt_kb) :=
  _xlt_kb_get ICE_SID_XLT_KEY_BUILDER_SW.
Definition ice_xlt_kb_get_acl : option (option XltKb.ice_xlt_kb) :=
  _xlt_kb_get ICE_SID_XLT_KEY_BUILDER_ACL.
Definition ice_xlt_kb_get_fd : option (option XltKb.ice_xlt_kb) :=
  _xlt_kb_get ICE_SID_XLT_KEY_BUILDER_FD.
Definition ice_xlt_kb_get_rss : option (option XltKb.ice_xlt_kb) :=
  _xlt_kb_get ICE_SID_XLT_KEY_BUILDER_RSS.

(** ** Creation and destruction

    The blocks that are allocated and those whose address is stored in the
    parser structure, both as lists of section types. *)
Record blocks := mkBlocks { live : list Z; stored : list Z }.

#[local] Instance blocks_settable : Settable blocks := fun r => mkBlocks (live r) (stored r).

(** [ice_parser_destroy] frees the blocks the structure knows, and itself. *)
Definition ice_parser_destroy (b : blocks) : list Z :=
  List.filter (fun ty => negb (bool_decide (ty ∈ stored b))) (live b).

(** [p->t = get(hw); if (!p->t) goto err;] where [get] may have allocated. *)
Definition load_part {A B} (ty : Z) (get : option (option A)) (b : blocks)
    (k : A → blocks → option (ice_status * option B * list Z))
    : option (ice_status * option B * list Z) :=
  r ← get;
  let allocated := bool_decide (is_Some (seg hw)) && malloc_ok hw ty in
  let b := if allocated then b <| live := ty :: live b |> else b in
  match r with
  | None => Some (ICE_ERR_PARAM, None, ice_parser_destroy b)
  | Some t => k t (b <| stored := ty :: stored b |>)
  end.

(** The status, the parser and the blocks still allocated. *)
Definition ice_parser_create : option (ice_status * option ice_parser * list Z) :=
  if negb (malloc_ok hw 0) then Some (ICE_ERR_NO_MEMORY, None, [])
  else
    let b := mkBlocks [0] [0] in
    load_part ICE_SID_RXPARSER_IMEM ice_imem_table_get b (fun im b =>
    load_part ICE_SID_RXPARSER_METADATA_INIT ice_metainit_table_get b (fun mi b =>
    load_part ICE_SID_RXPARSER_CAM ice_pg_cam_table_get b (fun cam b =>
    load_part ICE_SID_RXPARSER_PG_SPILL ice_pg_sp_cam_table_get b (fun sp b =>
    load_part ICE_SID_RXPARSER_NOMATCH_CAM ice_pg_nm_cam_table_get b (fun nm b =>
    load_part ICE_SID_RXPARSER_NOMATCH_SPILL ice_pg_nm_sp_cam_table_get b (fun nmsp b =>
    load_part ICE_SID_RXPARSER_BOOST_TCAM ice_bst_tcam_table_get b (fun bst b =>
    load_part ICE_SID_LBL_RXPARSER_TMEM ice_bst_lbl_table_get b (fun lbl b =>
    load_part ICE_SID_RXPARSER_MARKER_PTYPE ice_ptype_mk_tcam_table_get b (fun pt b =>
    load_part ICE_SID_RXPARSER_MARKER_GRP ice_mk_grp_table_get b (fun mk b =>
    load_part ICE_SID_RXPARSER_PROTO_GRP ice_proto_grp_table_get b (fun pg b =>
    load_part ICE_SID_RXPARSER_FLAG_REDIR ice_flg_rd_table_get b (fun fr b =>
    load_part ICE_SID_XLT_KEY_BUILDER_SW ice_xlt_kb_get_sw b (fun sw b =>
    load_part ICE_SID_XLT_KEY_BUILDER_ACL ice_xlt_kb_get_acl b (fun acl b =>
    load_part ICE_SID_XLT_KEY_BUILDER_FD ice_xlt_kb_get_fd b (fun fd b =>
    load_part ICE_SID_XLT_KEY_BUILDER_RSS ice_xlt_kb_get_rss b (fun rss b =>
      Some (ICE_SUCCESS,
        Some (mkParser im mi cam sp nm nmsp bst lbl pt mk pg fr sw acl fd rss),
        live b))))))))))))))))).

(** The search of [ice_check_ddp_support_proto_id]. *)
Definition ice_check_ddp_support_proto_id (id : Z) : option bool :=
  t ← ice_proto_grp_table_get;
  match t with
  | None => Some false
  | Some table =>
      for_break 0 ProtoGrp.ICE_PROTO_GRP_TABLE_SIZE (fun idx exist =>
        proto_grp ← rd table idx;
        exist ← for_break 0 ProtoGrp.ICE_PROTO_COUNT_PER_GRP (fun i exist =>
          e ← rd (ProtoGrp.po proto_grp) i;
          Some (if ProtoGrp.proto_id e =? id then Break true else Next exist)) exist;
        Some (if exist : bool then Break exist else Next exist)) false
  end.

End with_hw.

(** ** Parsing a packet *)

Definition ice_parser_run (fuel : positive) (psr : ice_parser) (pkt : list Z) (plen : Z)
    : option (ice_parser_rt + ice_status * ice_parser_result * ice_parser_rt) :=
  rt ← ice_parser_rt_reset psr;
  rt ← ice_parser_rt_pktbuf_set rt pkt plen;
  ice_parser_rt_execute fuel psr rt.

(** ** Run-time changes to the boost TCAM *)

Section tcam_updates.
Import BstTcam.

(** The store to the first byte of a key. *)
Definition vm_byte (on : bool) : Z := if on then 0xff else 0xfe.

Definition set_vm_byte (item : ice_bst_tcam_item) (on : bool) : option ice_bst_tcam_item :=
  k ← wr (key item) 0 (vm_byte on);
  ki ← wr (key_inv item) 0 (vm_byte on);
  Some (item <| key := k |> <| key_inv := ki |>).

(** One iteration of the loop of [_bst_vm_set]: the TCAM table and [i]. *)
Definition bst_vm_step (lbls : list ice_lbl_item) (prefix : list Z) (on : bool)
    (s : list ice_bst_tcam_item * Z)
    : option (list ice_bst_tcam_item * Z + list ice_bst_tcam_item) :=
  let '(table, i) := s in
  found ← ice_bst_tcam_search lbls prefix i;
  match found with
  | None => Some (inr table)
  | Some (idx, i) =>
      item ← rd table idx;
      item ← set_vm_byte item on;
      table ← wr table idx item;
      Some (inl (table, u16 (i + 1)))
  end.

(** [None] also stands for a loop that is not over after one iteration for each
    label and a last one, which is a theorem not to happen. *)
Definition _bst_vm_set (psr : ice_parser) (prefix : list Z) (on : bool) : option ice_parser :=
  r ← iterate (bst_vm_step (bst_lbl_table psr) prefix on) 257 (bst_tcam_table psr, 0);
  match r with
  | inl _ => None
  | inr table => Some (psr <| bst_tcam_table := table |>)
  end.

Definition ice_parser_dvm_set (psr : ice_parser) (on : bool) : option ice_parser :=
  psr ← _bst_vm_set psr (lit "BOOST_MAC_VLAN_DVM") on;
  _bst_vm_set psr (lit "BOOST_MAC_VLAN_SVM") (negb on).

(** Bytes 15 and 16 of a key and of its inverse. *)
Definition set_port_bytes (item : ice_bst_tcam_item) (ki15 ki16 k15 k16 : Z)
    : option ice_bst_tcam_item :=
  ki ← wr (key_inv item) 15 ki15;
  ki ← wr ki 16 ki16;
  k ← wr (key item) 15 k15;
  k ← wr k 16 k16;
  Some (item <| key := k |> <| key_inv := ki |>).

Definition tunnel_step (lbls : list ice_lbl_item) (prefix : list Z) (udp_port : Z) (on : bool)
    (s : list ice_bst_tcam_item * Z)
    : option (list ice_bst_tcam_item * Z + ice_status * list ice_bst_tcam_item) :=
  let '(table, i) := s in
  let buf0 := u8 udp_port in
  let buf1 := u8 (udp_port .>> 8) in
  found ← ice_bst_tcam_search lbls prefix i;
  match found with
  | None => Some (inr (ICE_ERR_PARAM, table))
  | Some (idx, i) =>
      item ← rd table idx;
      k16 ← rd (key item) 16;
      ki15 ← rd (key_inv item) 15;
      ki16 ← rd (key_inv item) 16;
      if on && (k16 =? 0xfe) && (ki16 =? 0xfe) then
        item ← set_port_bytes item buf0 buf1 (u8 (0xff - buf0)) (u8 (0xff - buf1));
        table ← wr table idx item;
        Some (inr (ICE_SUCCESS, table))
      else if negb on && ((ki15 =? buf0) || (ki16 =? buf1)) then
        item ← set_port_bytes item 0xff 0xfe 0xff 0xfe;
        table ← wr table idx item;
        Some (inr (ICE_SUCCESS, table))
      else Some (inl (table, u16 (i + 1)))
  end.

Definition _tunnel_port_set (psr : ice_parser) (prefix : list Z) (udp_port : Z) (on : bool)
    : option (ice_status * ice_parser) :=
  r ← iterate (tunnel_step (bst_lbl_table psr) prefix udp_port on) 257 (bst_tcam_table psr, 0);
  match r with
  | inl _ => None
  | inr (status, table) => Some (status, psr <| bst_tcam_table := table |>)
  end.

Definition ice_parser_vxlan_tunnel_set (psr : ice_parser) (udp_port : Z) (on : bool)
    : option (ice_status * ice_parser) :=
  _tunnel_port_set psr (lit "TNL_VXLAN") udp_port on.

Definition ice_parser_geneve_tunnel_set (psr : ice_parser) (udp_port : Z) (on : bool)
    : option (ice_status * ice_parser) :=
  _tunnel_port_set psr (lit "TNL_GENEVE") udp_port on.

Definition ice_parser_ecpri_tunnel_set (psr : ice_parser) (udp_port : Z) (on : bool)
    : option (ice_status * ice_parser) :=
  _tunnel_port_set psr (lit "TNL_UDP_ECPRI") udp_port on.

End tcam_updates.

(** ** Flow profiles *)

(** The pair found by [_nearest_proto_id]: protocol and distance. *)
Definition _nearest_proto_id (rslt : ice_parser_result) (offset : Z) : option (Z * Z) :=
  let '(p, dist) :=
    foldl (fun '(p, dist) e =>
      if offset <? ppo_offset e then (p, dist)
      else if offset - ppo_offset e <? dist
           then (ppo_proto_id e, u16 (offset - ppo_offset e))
           else (p, dist)) (0, 0xffff) (r_po rslt) in
  if nz (dist mod 2) then None else Some (p, dist).

Inductive ice_block := ICE_BLK_SW | ICE_BLK_ACL | ICE_BLK_FD | ICE_BLK_RSS | ICE_BLK_PE.

Record ice_parser_fv := mkFv { fv_proto_id : Z; fv_offset : Z; fv_spec : Z; fv_msk : Z }.

(** [fv] holds the first [fv_num] elements of the array of 48; [ptypes] is the
    bitmap, in chunks of 32 bits. *)
Record ice_parser_profile := mkProf {
  fv : list ice_parser_fv;
  prof_flags : Z;
  prof_flags_msk : Z;
  ptypes : list Z
}.

#[export] Instance prof_settable : Settable ice_parser_profile := fun r =>
  mkProf (fv r) (prof_flags r) (prof_flags_msk r) (ptypes r).

Definition ICE_FLOW_PTYPE_MAX : Z := 1024.
Definition prof_zero : ice_parser_profile :=
  mkProf [] 0 0 (replicate (Z.to_nat (ICE_FLOW_PTYPE_MAX / 32)) 0).

Definition fv_push (prof : ice_parser_profile) (e : ice_parser_fv) : option ice_parser_profile :=
  if Z.of_nat (length (fv prof)) <? 48 then Some (prof <| fv := fv prof ++ [e] |>) else None.

(** The flags and the mask of a pipeline stage. *)
Definition block_flags (rslt : ice_parser_result) (blk : ice_block) : option (Z * Z) :=
  match blk with
  | ICE_BLK_SW => Some (flags_sw rslt, 0x4002)
  | ICE_BLK_ACL => Some (flags_acl rslt, 0x0000)
  | ICE_BLK_FD => Some (flags_fd rslt, 0x6080)
  | ICE_BLK_RSS => Some (flags_rss rslt, 0x6010)
  | ICE_BLK_PE => None
  end.

(** One iteration of the loop over the offsets; [off] is 16 bits wide. *)
Definition profile_step (rslt : ice_parser_result) (pkt msk : list Z) (buf_len : Z)
    (s : Z * ice_parser_profile)
    : option (Z * ice_parser_profile + ice_status * ice_parser_profile) :=
  let '(off, prof) := s in
  if negb (off <? buf_len - 1) then Some (inr (ICE_SUCCESS, prof))
  else
    m0 ← rd msk off;
    masked ← (if m0 =? 0 then m1 ← rd msk (off + 1); Some (m1 =? 0) else Some false);
    if masked : bool then Some (inl (u16 (off + 1), prof))
    else
      match _nearest_proto_id rslt off with
      | None => Some (inl (u16 (off + 1), prof))
      | Some (proto_id, proto_off) =>
          if 32 <=? Z.of_nat (length (fv prof)) then Some (inr (ICE_ERR_PARAM, prof))
          else
            spec ← load 2 pkt off;
            m ← load 2 msk off;
            prof ← fv_push prof (mkFv proto_id proto_off spec m);
            Some (inl (u16 (off + 1), prof))
      end.

(** The result; [inl] when the loop has not ended within [fuel] iterations. *)
Definition ice_parser_profile_init (fuel : positive) (rslt : ice_parser_result)
    (pkt_buf msk_buf : list Z) (buf_len : Z) (blk : ice_block)
    : option (Z * ice_parser_profile + ice_status * ice_parser_profile) :=
  pts ← ice_set_bit (r_ptype rslt) (ptypes prof_zero);
  let prof := prof_zero <| ptypes := pts |> in
  match block_flags rslt blk with
  | None => Some (inr (ICE_ERR_PARAM, prof))
  | Some (flags, msk) =>
      iterate (profile_step rslt pkt_buf msk_buf buf_len) fuel
        (0, prof <| prof_flags := flags |> <| prof_flags_msk := msk |>)
  end.
