(* ===== verification/IceParserSpec.v ===== *)
(** * Correctness of the parser instance

    Flow profiles: the header a field belongs to is the nearest one that starts
    at or before it, and the profile lists the masked fields in packet order.
    Boost TCAM updates: double VLAN mode enables exactly the labelled entries,
    and a tunnel port is added to an entry that then matches exactly this port.
    Creation releases what it allocated when it fails, and a run of a parser with
    well-formed tables terminates. *)
From S2P Require Import Prelude IceStatus IceBitops IceBitopsSpec IceTables IceMatch IcePackage IceParserRt IceRtSafety IceParser.
From Stdlib Require Import String.
Local Open Scope list_scope.
Local Open Scope Z_scope.
Local Abbreviation length := List.length.

(** ** Flow profiles *)

(** The headers of a result that start at or before [off]. *)
Definition before (off : Z) (e : ice_parser_proto_off) : Prop := ppo_offset e <= off.

(** [(p, d)] is what the search has found in the headers [es]. *)
Definition nearest (off : Z) (es : list ice_parser_proto_off) (p d : Z) : Prop :=
  (d = 0xffff ∧ (∀ e, e ∈ es → before off e → 0xffff <= off - ppo_offset e)) ∨
  (0 <= d < 0xffff ∧ (∃ e, e ∈ es ∧ ppo_proto_id e = p ∧ off = ppo_offset e + d) ∧
    (∀ e, e ∈ es → before off e → d <= off - ppo_offset e)).

Lemma nearest_fold off es : in_width 16 off → Forall (fun e => 0 <= ppo_offset e) es →
  ∃ p d, foldl (fun '(p, dist) e =>
      if off <? ppo_offset e then (p, dist)
      else if off - ppo_offset e <? dist
           then (ppo_proto_id e, u16 (off - ppo_offset e))
           else (p, dist)) (0, 0xffff) es = (p, d) ∧ nearest off es p d.
Proof.
  intros [Ho1 Ho2]. change (2 ^ 16) with 65536 in Ho2.
  induction es as [|e es IH] using rev_ind; intros Hes.
  { exists 0, 0xffff. split; [done|]. left. split; [done|]. intros e He. by apply elem_of_nil in He. }
  apply Forall_app in Hes as [Hes He]. rewrite Forall_singleton in He.
  destruct (IH Hes) as (p & d & E & Hn). rewrite foldl_app, E. simpl. clear IH E.
  destruct (Z.ltb_spec off (ppo_offset e)).
  - exists p, d. split; [done|]. unfold nearest, before in *. setoid_rewrite elem_of_app.
    setoid_rewrite list_elem_of_singleton. destruct Hn as [[-> Hn]|(Hd & (e0 & Hin & Hx) & Hn)].
    + left. split; [done|]. intros e' [?| ->] ?; [by apply Hn|lia].
    + right. split; [done|]. split; [by eauto|]. intros e' [?| ->] ?; [by apply Hn|lia].
  - destruct (Z.ltb_spec (off - ppo_offset e) d).
    + exists (ppo_proto_id e), (off - ppo_offset e). split.
      { f_equal. apply wrap_small. unfold in_width. lia. }
      right. unfold nearest, before in *. setoid_rewrite elem_of_app.
      setoid_rewrite list_elem_of_singleton.
      split; [lia|]. split; [exists e; split_and!; [by right|done|lia]|].
      intros e' [Hin| ->] Hb; [|lia].
      destruct Hn as [[-> Hn]|(Hd & _ & Hn)]; specialize (Hn _ Hin Hb); lia.
    + exists p, d. split; [done|]. unfold nearest, before in *. setoid_rewrite elem_of_app.
      setoid_rewrite list_elem_of_singleton.
      destruct Hn as [[-> Hn]|(Hd & (e0 & Hin & Hx) & Hn)].
      * left. split; [done|]. intros e' [?| ->] ?; [by apply Hn|lia].
      * right. split; [done|]. split; [by eauto|]. intros e' [?| ->] ?; [by apply Hn|lia].
Qed.

(** The protocol reported for a packet offset is that of the nearest header
    that starts at or before the offset, with the distance to it; nothing is
    reported exactly when that distance is odd or no such header is within 65534
    bytes. *)
Theorem nearest_proto_spec rslt off :
  in_width 16 off → Forall (fun e => 0 <= ppo_offset e) (r_po rslt) →
  match _nearest_proto_id rslt off with
  | Some (p, d) =>
      Z.even d = true ∧
      (∃ e, e ∈ r_po rslt ∧ ppo_proto_id e = p ∧ off = ppo_offset e + d) ∧
      (∀ e, e ∈ r_po rslt → ppo_offset e <= off → d <= off - ppo_offset e)
  | None =>
      (∀ e, e ∈ r_po rslt → ppo_offset e <= off → 0xffff <= off - ppo_offset e) ∨
      (∃ e, e ∈ r_po rslt ∧ ppo_offset e <= off ∧ Z.odd (off - ppo_offset e) = true ∧
        ∀ e', e' ∈ r_po rslt → ppo_offset e' <= off → off - ppo_offset e <= off - ppo_offset e')
  end.
Proof.
  intros Ho Hes. unfold _nearest_proto_id.
  destruct (nearest_fold off (r_po rslt) Ho Hes) as (p & d & -> & Hn).
  unfold nz. rewrite Zmod_even. unfold before in Hn.
  destruct Hn as [[-> Hn]|(Hd & (e & Hin & Hp & ->) & Hn)]; simpl; [by left|].
  destruct (Z.even d) eqn:Ev; simpl.
  - split_and!; [done|by eauto|done].
  - right. exists e. split_and!; [done|lia| |].
    + rewrite <- Z.negb_even. replace (ppo_offset e + d - ppo_offset e) with d by lia. by rewrite Ev.
    + intros e' ? ?. transitivity d; [lia|]. by apply Hn.
Qed.

Definition demo_result : ice_parser_result :=
  mkRslt 26 [mkPpo 1 0; mkPpo 9 12; mkPpo 32 14; mkPpo 49 34] 0 0 0x4002 0 0x6080 0x6010.

(** Byte 16 of an IPv4 packet lies two bytes into the IPv4 header. *)
Lemma nearest_proto_spec_witness :
  _nearest_proto_id demo_result 16 = Some (32, 2) ∧
  (∃ e, e ∈ r_po demo_result ∧ ppo_proto_id e = 32 ∧ 16 = ppo_offset e + 2).
Proof.
  split; [reflexivity|].
  apply (nearest_proto_spec demo_result 16); [done|].
  repeat (apply List.Forall_cons; [simpl; lia|]). apply List.Forall_nil.
Defined.

(** The field the profile takes from a packet offset. *)
Definition field_at (rslt : ice_parser_result) (pkt msk : list Z) (off : Z)
    : option ice_parser_fv :=
  if bool_decide (rd msk off = Some 0 ∧ rd msk (off + 1) = Some 0) then None
  else
    '(p, d) ← _nearest_proto_id rslt off;
    spec ← load 2 pkt off;
    m ← load 2 msk off;
    Some (mkFv p d spec m).

(** The fields of the first [n] offsets, in packet order. *)
Definition fields (rslt : ice_parser_result) (pkt msk : list Z) (n : Z) : list ice_parser_fv :=
  omap (field_at rslt pkt msk) (seqZ 0 n).

Lemma fields_S rslt pkt msk n : 0 <= n →
  fields rslt pkt msk (n + 1) =
  fields rslt pkt msk n ++ option_list (field_at rslt pkt msk n).
Proof.
  intros. unfold fields. rewrite (seqZ_app 0 n 1) by lia.
  by rewrite omap_app.
Qed.

Lemma fields_prefix rslt pkt msk n m : 0 <= n <= m →
  fields rslt pkt msk n `prefix_of` fields rslt pkt msk m.
Proof.
  intros. unfold fields. replace m with (n + (m - n)) by lia.
  rewrite (seqZ_app 0 n (m - n)) by lia. rewrite omap_app. by eexists.
Qed.

Section profile.
Context (rslt : ice_parser_result) (pkt msk : list Z) (buf_len : Z).
Hypotheses (Hlen : 0 <= buf_len <= 65536)
  (Hpkt : buf_len <= Z.of_nat (length pkt)) (Hmsk : buf_len <= Z.of_nat (length msk)).

Lemma load2_total buf off : 0 <= off < buf_len - 1 → buf_len <= Z.of_nat (length buf) →
  is_Some (load 2 buf off).
Proof.
  intros. unfold load, bytes_at. rewrite (proj2 (Z.leb_le _ _)) by lia.
  rewrite (proj2 (Z.leb_le _ _)) by lia. by eexists.
Qed.

(** One iteration adds the field at [off], or stops at a full vector. *)
Lemma profile_step_spec off prof : 0 <= off < buf_len - 1 → (length (fv prof) <= 32)%nat →
  profile_step rslt pkt msk buf_len (off, prof) =
  match field_at rslt pkt msk off with
  | None => Some (inl (off + 1, prof))
  | Some e =>
      if (length (fv prof) <? 32)%nat
      then Some (inl (off + 1, prof <| fv := fv prof ++ [e] |>))
      else Some (inr (ICE_ERR_PARAM, prof))
  end.
Proof.
  intros Hoff Hfv. unfold profile_step, field_at.
  rewrite (proj2 (Z.ltb_lt _ _)) by lia. cbn [negb].
  rewrite (wrap_small 16 (off + 1)) by (unfold in_width; change (2 ^ 16) with 65536; lia).
  destruct (rd_in_range msk off) as [m0 E0]; [lia|].
  destruct (rd_in_range msk (off + 1)) as [m1 E1]; [lia|].
  destruct (load2_total pkt off) as [spec Es]; [lia..|].
  destruct (load2_total msk off) as [m Em]; [lia..|].
  rewrite E0, E1, Es, Em. cbn [mbind option_bind].
  assert (bool_decide (Some m0 = Some 0 ∧ Some m1 = Some 0) = (m0 =? 0) && (m1 =? 0)) as ->.
  { case_bool_decide as Hz; destruct (Z.eqb_spec m0 0), (Z.eqb_spec m1 0); simpl; naive_solver. }
  destruct (Z.eqb_spec m0 0); cbn [mbind option_bind andb];
    [destruct (Z.eqb_spec m1 0); [done|]|];
    (destruct (_nearest_proto_id rslt off) as [[p d]|]; [|done]);
    cbn [mbind option_bind]; unfold fv_push;
    (destruct (Nat.ltb_spec (length (fv prof)) 32);
      [rewrite (proj2 (Z.leb_gt _ _)), (proj2 (Z.ltb_lt _ _)) by lia; done
      |rewrite (proj2 (Z.leb_le _ _)) by lia; done]).
Qed.

Lemma profile_loop_spec prof fuel : fv prof = [] → buf_len < Zpos fuel →
  let fs := fields rslt pkt msk (buf_len - 1) in
  iterate (profile_step rslt pkt msk buf_len) fuel (0, prof) =
  Some (inr (if (length fs <=? 32)%nat then ICE_SUCCESS else ICE_ERR_PARAM,
    prof <| fv := take 32 fs |>)).
Proof.
  intros Hnil Hfuel fs.
  destruct (iterate_total (profile_step rslt pkt msk buf_len)
    (fun '(off, p) => 0 <= off <= Z.max 0 (buf_len - 1) ∧
       p = prof <| fv := fields rslt pkt msk off |> ∧ (length (fv p) <= 32)%nat)
    (fun r => r = (if (length fs <=? 32)%nat then ICE_SUCCESS else ICE_ERR_PARAM,
       prof <| fv := take 32 fs |>))
    (fun '(off, _) => Z.max 0 (buf_len - 1) - off) fuel (0, prof)) as (r & -> & ->); [| | |done].
  - split_and!; [lia..| |rewrite Hnil; simpl; lia]. destruct prof; simpl in *. by subst.
  - lia.
  - intros [off p] (Hoff & -> & Hl). simpl in Hl.
    destruct (decide (off < buf_len - 1)).
    + rewrite profile_step_spec by (done || lia). simpl fv.
      destruct (field_at rslt pkt msk off) as [e|] eqn:Ef.
      2:{ eexists. split; [done|]. simpl. rewrite fields_S, Ef by lia. simpl. rewrite app_nil_r.
          split_and!; done || lia. }
      destruct (Nat.ltb_spec (length (fields rslt pkt msk off)) 32);
        (eexists; split; [done|]); simpl.
      * rewrite fields_S, Ef by lia. split_and!; try done; try lia.
        rewrite length_app. simpl. lia.
      * assert (fields rslt pkt msk (off + 1) `prefix_of` fs) as Hp
          by (apply fields_prefix; lia).
        rewrite fields_S, Ef in Hp by lia. simpl in Hp. destruct Hp as [k Hk].
        rewrite Hk, !length_app. simpl. rewrite (proj2 (Nat.leb_gt _ _)) by lia.
        do 2 f_equal. rewrite <- app_assoc, take_app_le by lia. by rewrite take_ge by lia.
    + unfold profile_step. rewrite (proj2 (Z.ltb_ge _ _)) by lia. cbn [negb].
      eexists. split; [done|]. simpl.
      assert (fs = fields rslt pkt msk off) as ->.
      { unfold fs, fields. destruct (decide (off = buf_len - 1)) as [->|]; [done|].
        rewrite !seqZ_nil by lia. done. }
      rewrite (proj2 (Nat.leb_le _ _)) by done. by rewrite take_ge by lia.
Qed.
End profile.

Lemma ice_set_bit_in_range nr : 0 <= nr < ICE_FLOW_PTYPE_MAX →
  ice_set_bit nr (ptypes prof_zero) =
  Some (<[Z.to_nat (nr / 32) := 2 ^ (nr mod 32)]> (ptypes prof_zero)).
Proof.
  unfold ICE_FLOW_PTYPE_MAX. intros Hnr. unfold ice_set_bit, BIT_CHUNK, BIT_IN_CHUNK, BITS_PER_CHUNK, prof_zero. cbn [ptypes].
  change (Z.to_nat (ICE_FLOW_PTYPE_MAX / 32)) with 32%nat.
  assert (0 <= nr / 32 < 32) as Hd by (split; [apply Z.div_pos|apply Z.div_lt_upper_bound]; lia).
  destruct (rd_in_range (replicate 32 0) (nr / 32)) as [c Ec]; [rewrite length_replicate; lia|].
  rewrite Ec. cbn [mbind option_bind].
  assert (c = 0) as ->.
  { apply (rd_Forall (fun c => c = 0) _ _ _) in Ec; [done|]. by apply Forall_replicate. }
  rewrite wr_in_range by (rewrite length_replicate; lia). pose proof (Z.mod_pos_bound nr 32 ltac:(lia)).
  unfold ice_set_bit_internal. rewrite bitul, Z.lor_0_l, wrap_small by lia || by apply pow2_in_width. done.
Qed.

(** Functional behaviour of the profile construction, on every branch: for a
    packet type of the bitmap and buffers of [buf_len] bytes, the loop ends; the
    profile has the bit of the packet type, the flags of the pipeline stage, and
    the masked fields that start an even distance after their header, in packet
    order; with more than 32 such fields it holds the first 32 and the status is
    an error; an unknown stage is an error. *)
Theorem profile_init_spec rslt pkt msk buf_len blk fuel :
  0 <= r_ptype rslt < ICE_FLOW_PTYPE_MAX → 0 <= buf_len <= 65536 →
  buf_len <= Z.of_nat (length pkt) → buf_len <= Z.of_nat (length msk) → buf_len < Zpos fuel →
  let pts := <[Z.to_nat (r_ptype rslt / 32) := 2 ^ (r_ptype rslt mod 32)]> (replicate 32 0) in
  let fs := fields rslt pkt msk (buf_len - 1) in
  ice_parser_profile_init fuel rslt pkt msk buf_len blk = Some (inr
    match block_flags rslt blk with
    | None => (ICE_ERR_PARAM, mkProf [] 0 0 pts)
    | Some (flags, fmsk) =>
        (if (length fs <=? 32)%nat then ICE_SUCCESS else ICE_ERR_PARAM,
         mkProf (take 32 fs) flags fmsk pts)
    end).
Proof.
  intros Hpt Hlen Hpkt Hmsk Hfuel pts fs. unfold ice_parser_profile_init.
  rewrite ice_set_bit_in_range by done. cbn [mbind option_bind].
  destruct (block_flags rslt blk) as [[flags fmsk]|]; [|done].
  rewrite profile_loop_spec by done. done.
Qed.

Definition demo_pkt : list Z := replicate 12 0xaa ++ [8; 0] ++ seqZ 0 40.
Definition demo_msk : list Z := replicate 26 0 ++ replicate 4 0xff ++ replicate 24 0.

(** Masking the IPv4 source address gives its two halves; the offsets 25 and 29,
    whose pairs of bytes touch the mask, are odd and skipped. *)
Lemma profile_init_spec_witness :
  ice_parser_profile_init 100 demo_result demo_pkt demo_msk 54 ICE_BLK_FD =
  Some (inr (ICE_SUCCESS,
    mkProf [mkFv 32 12 0x0d0c 0xffff; mkFv 32 14 0x0f0e 0xffff] 0x6080 0x6080
      (<[0%nat := 2 ^ 26]> (replicate 32 0)))).
Proof.
  rewrite (profile_init_spec demo_result demo_pkt demo_msk 54 ICE_BLK_FD 100);
    [reflexivity|vm_compute; intuition congruence..].
Defined.

Lemma result_resolve_ptype psr rt rslt : _result_resolve psr rt = Some rslt →
  _ptype_resolve psr rt = Some (r_ptype rslt).
Proof.
  unfold _result_resolve. intros H. inv_some.
  match goal with H : _ptype_resolve _ _ = Some ?pt |- _ => rewrite H; rename pt into t end.
  f_equal. symmetry. unfold _proto_off_resolve in H.
  revert H. apply (for_range_inv (fun _ r => r_ptype r = t)); [lia|done|].
  intros i r r' _ Hr Hb. unfold po_push in Hb. by inv_some.
Qed.

(** A packet whose markers match no packet type gets the type 0xffff; the
    construction of a profile from its result then sets a bit behind the bitmap
    of 1024 types, in every pipeline stage. *)
Theorem profile_init_no_ptype psr rt rslt pkt msk buf_len blk fuel :
  ice_ptype_mk_tcam_match (ptype_mk_tcam_table psr) (markers rt) 9 = Some None →
  _result_resolve psr rt = Some rslt →
  ice_parser_profile_init fuel rslt pkt msk buf_len blk = None.
Proof.
  intros Hm Hr%result_resolve_ptype. unfold _ptype_resolve in Hr. rewrite Hm in Hr.
  injection Hr as Hr. unfold ice_parser_profile_init. by rewrite <- Hr.
Qed.

Lemma profile_init_no_ptype_witness :
  ∃ rslt, _result_resolve (demo_parser (demo_act 14 false)) demo_start = Some rslt ∧
    ice_parser_profile_init 100 rslt demo_pkt demo_msk 54 ICE_BLK_SW = None.
Proof.
  eexists. split; [vm_compute; reflexivity|].
  apply (profile_init_no_ptype (demo_parser (demo_act 14 false)) demo_start);
    vm_compute; reflexivity.
Defined.

(** ** Boost TCAM updates *)

Section tcam.
Import BstTcam.

(** Labels are terminated and name an entry of the TCAM. *)
Definition lbls_ok (lbls : list ice_lbl_item) : Prop :=
  length lbls = 256%nat ∧
  Forall (fun l => is_Some (strlen (label l)) ∧ 0 <= lbl_idx l < 256) lbls.

Definition keys_ok (table : list ice_bst_tcam_item) : Prop :=
  length table = 256%nat ∧
  Forall (fun b => length (key b) = 20%nat ∧ length (key_inv b) = 20%nat) table.

Definition has_prefix (prefix : list Z) (l : ice_lbl_item) : Prop :=
  _start_with prefix (label l) = Some true.

(** Entry [j] of the TCAM is named by one of the labels below [hi]. *)
Definition labelled (lbls : list ice_lbl_item) (prefix : list Z) (hi j : Z) : Prop :=
  ∃ n l, 0 <= n < hi ∧ rd lbls n = Some l ∧ has_prefix prefix l ∧ lbl_idx l = j.

#[export] Instance has_prefix_dec prefix l : Decision (has_prefix prefix l).
Proof. unfold has_prefix. apply _. Defined.

Lemma labelled_exists lbls prefix hi j : labelled lbls prefix hi j ↔
  Exists (fun n => match rd lbls n with
    | Some l => has_prefix prefix l ∧ lbl_idx l = j | None => False end) (seqZ 0 hi).
Proof.
  rewrite List.Exists_exists. split.
  - intros (n & l & Hn & En & Hp & Ej). exists n. rewrite En.
    split; [apply list_elem_of_In, elem_of_seqZ; lia|done].
  - intros (n & Hn%list_elem_of_In%elem_of_seqZ & Hd). destruct (rd lbls n) as [l|] eqn:En; [|done]. destruct Hd.
    exists n, l. split_and!; done || lia.
Qed.

#[export] Instance labelled_dec lbls prefix hi j : Decision (labelled lbls prefix hi j).
Proof.
  unshelve refine (match (List.Exists_dec _ (seqZ 0 hi) _ : Decision (Exists (fun n => match rd lbls n with
    | Some l => has_prefix prefix l ∧ lbl_idx l = j | None => False end) _)) with
  | left H => left (proj2 (labelled_exists _ _ _ _) H)
  | right H => right (fun H' => H (proj1 (labelled_exists _ _ _ _) H'))
  end).
  intros n. destruct (rd lbls n) as [l|].
  - apply (decide (has_prefix prefix l ∧ lbl_idx l = j)).
  - apply (decide False).
Defined.

Lemma search_spec lbls prefix i : lbls_ok lbls → 0 <= i <= 256 →
  ∃ r, ice_bst_tcam_search lbls prefix i = Some r ∧
    match r with
    | None => ∀ n l, i <= n < 256 → rd lbls n = Some l → ¬ has_prefix prefix l
    | Some (idx, i') => i <= i' < 256 ∧ 0 <= idx < 256 ∧
        (∃ l, rd lbls i' = Some l ∧ has_prefix prefix l ∧ lbl_idx l = idx) ∧
        (∀ n l, i <= n < i' → rd lbls n = Some l → ¬ has_prefix prefix l)
    end.
Proof.
  intros [Hl Hf] Hi. unfold ice_bst_tcam_search, has_prefix, ICE_BST_TCAM_TABLE_SIZE.
  destruct (first_match_spec (fun l => _start_with prefix (label l))
    (Z.to_nat (256 - i)) i lbls) as (m & -> & Hm); [lia|lia| |].
  { eapply List.Forall_impl; [|exact Hf]. intros l [[n En] _]. unfold _start_with.
    rewrite En. simpl. case_match; by eexists. }
  cbn [mbind option_bind]. rewrite Z2Nat.id in Hm by lia.
  replace (i + (256 - i)) with 256 in Hm by lia. destruct m as [i'|]; simpl in Hm.
  - destruct Hm as (Hi' & (l & El & Hp) & Hb). rewrite El. cbn [mbind option_bind].
    eexists. split; [done|]. cbn beta iota.
    destruct (rd_Forall _ _ _ _ Hf El) as [_ Hidx]. split_and!; [lia..|by eauto|].
    intros n l' Hn El'. by rewrite (Hb n l').
  - eexists. split; [done|]. intros n l Hn El. by rewrite (Hm n l).
Qed.

(** Moving the bound over labels without the prefix changes nothing; over one
    with the prefix, it adds the entry that this label names. *)
Lemma labelled_skip lbls prefix i i' j : 0 <= i <= i' →
  (∀ n l, i <= n < i' → rd lbls n = Some l → ¬ has_prefix prefix l) →
  labelled lbls prefix i' j ↔ labelled lbls prefix i j.
Proof.
  intros Hi Hn. split; intros (n & l & Hlt & El & Hp & Ej).
  - exists n, l. split_and!; try done; [lia|]. destruct (decide (n < i)); [done|].
    destruct (Hn n l); done || lia.
  - exists n, l. split_and!; done || lia.
Qed.

Lemma labelled_add lbls prefix i l j : 0 <= i → rd lbls i = Some l → has_prefix prefix l →
  labelled lbls prefix (i + 1) j ↔ lbl_idx l = j ∨ labelled lbls prefix i j.
Proof.
  intros Hi El Hp. split.
  - intros (n & l' & Hlt & El' & Hp' & Ej). destruct (decide (n = i)) as [->|].
    + left. congruence.
    + right. exists n, l'. split_and!; done || lia.
  - intros [<-|(n & l' & Hlt & El' & Hp' & Ej)].
    + exists i, l. split_and!; done || lia.
    + exists n, l'. split_and!; done || lia.
Qed.

(** The entry with its first key bytes set. *)
Definition vm_item (on : bool) (item : ice_bst_tcam_item) : ice_bst_tcam_item :=
  item <| key := <[0%nat := vm_byte on]> (key item) |>
       <| key_inv := <[0%nat := vm_byte on]> (key_inv item) |>.

(** [table'] is [table] with the entries in [P] changed by [f]. *)
Definition changed (f : ice_bst_tcam_item → ice_bst_tcam_item) (P : Z → Prop)
    (table table' : list ice_bst_tcam_item) : Prop :=
  length table' = length table ∧
  ∀ j item, rd table j = Some item →
    (P j → rd table' j = Some (f item)) ∧ (¬ P j → rd table' j = Some item).

Lemma vm_item_idem on item : vm_item on (vm_item on item) = vm_item on item.
Proof. unfold vm_item. simpl. by rewrite !list_insert_insert_eq. Qed.

Lemma vm_step_spec lbls prefix on table t i :
  lbls_ok lbls → keys_ok table → 0 <= i <= 256 →
  changed (vm_item on) (labelled lbls prefix i) table t →
  ∃ r, bst_vm_step lbls prefix on (t, i) = Some r ∧
    match r with
    | inl (t', i') => i < i' <= 256 ∧ changed (vm_item on) (labelled lbls prefix i') table t'
    | inr t' => changed (vm_item on) (labelled lbls prefix 256) table t'
    end.
Proof.
  intros Hl [Hk Hkf] Hi [Hlt Hc]. unfold bst_vm_step.
  destruct (search_spec lbls prefix i Hl Hi) as (r & -> & Hr). cbn [mbind option_bind].
  destruct r as [[idx i']|].
  2:{ eexists. split; [done|]. split; [done|]. intros j item Ej.
      rewrite (labelled_skip lbls prefix i 256) by (done || lia). by apply Hc. }
  destruct Hr as (Hi' & Hidx & (l & El & Hp & Eidx) & Hskip).
  destruct (rd_in_range table idx) as [item0 E0]; [lia|].
  destruct (rd_Forall _ _ _ _ Hkf E0) as [Hkl Hkil].
  assert (∃ item, rd t idx = Some item ∧ vm_item on item = vm_item on item0 ∧
    length (key item) = 20%nat ∧ length (key_inv item) = 20%nat) as (item & E & Evm & Hl1 & Hl2).
  { destruct (Hc idx item0 E0) as [Hin Hout].
    destruct (rd_in_range t idx) as [item E]; [lia|]. exists item. split; [done|].
    destruct (decide (labelled lbls prefix i idx)) as [HL|HL].
    - assert (item = vm_item on item0) as -> by (specialize (Hin HL); congruence).
      rewrite vm_item_idem. simpl. by rewrite !length_insert.
    - assert (item = item0) as -> by (specialize (Hout HL); congruence). done. }
  rewrite E. cbn [mbind option_bind]. unfold set_vm_byte.
  rewrite !wr_in_range by lia. cbn [mbind option_bind].
  change (item <| key := _ |> <| key_inv := _ |>) with (vm_item on item).
  rewrite wr_in_range by lia. cbn [mbind option_bind]. eexists. split; [done|].
  rewrite (wrap_small 16 (i' + 1)) by (unfold in_width; change (2 ^ 16) with 65536; lia).
  split; [lia|]. split; [by rewrite length_insert|]. intros j it Ej.
  rewrite (labelled_add lbls prefix i' l) by (done || lia).
  rewrite (labelled_skip lbls prefix i i') by (done || lia). rewrite Eidx.
  destruct (decide (j = idx)) as [->|Hne].
  - assert (it = item0) as -> by congruence. rewrite <- Evm. split; [intros _|tauto].
    apply (rd_wr_eq t). by rewrite wr_in_range by lia.
  - assert (rd (<[Z.to_nat idx := vm_item on item]> t) j = rd t j) as ->.
    { apply (rd_wr_ne t idx j (vm_item on item)); [by rewrite wr_in_range by lia|done]. }
    destruct (Hc j it Ej) as [H1 H2]. split; intros HL; [apply H1|apply H2]; naive_solver.
Qed.

Lemma bst_vm_set_spec psr prefix on :
  lbls_ok (bst_lbl_table psr) → keys_ok (bst_tcam_table psr) →
  ∃ t, _bst_vm_set psr prefix on = Some (psr <| bst_tcam_table := t |>) ∧
    changed (vm_item on) (labelled (bst_lbl_table psr) prefix 256) (bst_tcam_table psr) t.
Proof.
  intros Hl Hk. unfold _bst_vm_set.
  destruct (iterate_total (bst_vm_step (bst_lbl_table psr) prefix on)
    (fun '(t, i) => 0 <= i <= 256 ∧
       changed (vm_item on) (labelled (bst_lbl_table psr) prefix i) (bst_tcam_table psr) t)
    (changed (vm_item on) (labelled (bst_lbl_table psr) prefix 256) (bst_tcam_table psr))
    (fun '(_, i) => 256 - i) 257 (bst_tcam_table psr, 0)) as (t & -> & Ht).
  - split; [lia|]. split; [done|]. intros j item Ej. split; [|done].
    intros (n & l & ? & _). lia.
  - lia.
  - intros [t i] [Hi Hc]. destruct (vm_step_spec (bst_lbl_table psr) prefix on
      (bst_tcam_table psr) t i) as (r & -> & Hr); [done..|]. exists r. split; [done|].
    destruct r as [[t' i']|]; [|done]. destruct Hr. split; [split; [lia|done]|lia].
  - cbn [mbind option_bind]. eauto.
Qed.

Lemma changed_keys_ok on P table t : keys_ok table → changed (vm_item on) P table t →
  (∀ j, Decision (P j)) → keys_ok t.
Proof.
  intros [Hk Hf] [Hl Hc] Hdec. split; [congruence|]. apply List.Forall_forall.
  intros b (n & Hb)%list_elem_of_In%list_elem_of_lookup.
  assert (rd t (Z.of_nat n) = Some b) as Hn.
  { unfold rd. rewrite (proj2 (Z.leb_le _ _)), Nat2Z.id by lia. done. }
  destruct (rd_in_range table (Z.of_nat n)) as [b0 E0]; [apply rd_Some in Hn; lia|].
  destruct (rd_Forall _ _ _ _ Hf E0) as [H1 H2]. destruct (Hc _ _ E0) as [Hin Hout].
  destruct (Hdec (Z.of_nat n)) as [HP|HP].
  - assert (b = vm_item on b0) as -> by (specialize (Hin HP); congruence).
    simpl. by rewrite !length_insert.
  - assert (b = b0) as -> by (specialize (Hout HP); congruence). done.
Qed.

(** The first key byte is a wildcard, or matches nothing. *)
Definition opened (item item' : ice_bst_tcam_item) : Prop := ∀ pat, length pat = 20%nat →
  ice_ternary_match (key item') (key_inv item') pat 20 =
  ternary_match_bytes 19 1 (key item) (key_inv item) pat.

Definition closed (item' : ice_bst_tcam_item) : Prop := ∀ pat, length pat = 20%nat →
  ice_ternary_match (key item') (key_inv item') pat 20 = Some false.

Lemma byte_wildcard p : ice_ternary_match_byte 0xff 0xff p = true.
Proof.
  apply ternary_match_bits_spec; [lia..|]. intros j Hj. change 255 with (Z.ones 8).
  rewrite Z.ones_spec_low by lia. done.
Qed.

Lemma byte_never p : ice_ternary_match_byte 0xfe 0xfe p = false.
Proof.
  apply not_true_iff_false. intros H.
  pose proof (proj1 (ternary_match_bits_spec 8 0 0xfe 0xfe p ltac:(lia) ltac:(lia)) H 0 ltac:(lia)).
  done.
Qed.

Lemma match_bytes_insert n i k ki x y pat : 0 < i →
  ternary_match_bytes n i (<[0%nat := x]> k) (<[0%nat := y]> ki) pat =
  ternary_match_bytes n i k ki pat.
Proof.
  revert i. induction n as [|n IH]; intros i Hi; [done|]. simpl.
  unfold rd. rewrite (proj2 (Z.leb_le 0 i)) by lia.
  rewrite !list_lookup_insert_ne by lia. fold (@rd Z). 
  destruct (k !! Z.to_nat i), (ki !! Z.to_nat i), (pat !! Z.to_nat i); simpl; try done.
  case_match; [done|]. apply IH. lia.
Qed.

Lemma vm_item_match on item pat : length (key item) = 20%nat → length (key_inv item) = 20%nat →
  length pat = 20%nat →
  ice_ternary_match (key (vm_item on item)) (key_inv (vm_item on item)) pat 20 =
  if on then ternary_match_bytes 19 1 (key item) (key_inv item) pat else Some false.
Proof.
  intros Hk Hki Hp. unfold ice_ternary_match, vm_item. simpl key. simpl key_inv.
  change (Z.to_nat 20) with (S 19). generalize 19%nat. intros n. cbn [ternary_match_bytes].
  destruct (rd_in_range pat 0) as [p Ep]; [lia|].
  assert (∀ a : list Z, length a = 20%nat → rd (<[0%nat := vm_byte on]> a) 0 = Some (vm_byte on))
    as Hrd by (intros a Ha; unfold rd; simpl; apply list_lookup_insert_eq; lia).
  rewrite !Hrd, Ep by done. cbn [mbind option_bind]. destruct on; simpl vm_byte.
  - rewrite byte_wildcard. cbn [negb]. by rewrite match_bytes_insert by lia.
  - by rewrite byte_never.
Qed.

Abbreviation dvm_lbl := (lit "BOOST_MAC_VLAN_DVM").
Abbreviation svm_lbl := (lit "BOOST_MAC_VLAN_SVM").

(** Double VLAN mode: the call ends and changes only boost TCAM entries whose
    label says so.  Turning it on lets the entries of double VLAN mode match
    whatever their first byte and disables those of single VLAN mode, which then
    match no pattern; turning it off does the converse; other entries stay. *)
Theorem dvm_set_spec psr on :
  lbls_ok (bst_lbl_table psr) → keys_ok (bst_tcam_table psr) →
  let dvm j := labelled (bst_lbl_table psr) dvm_lbl 256 j in
  let svm j := labelled (bst_lbl_table psr) svm_lbl 256 j in
  ∃ t, ice_parser_dvm_set psr on = Some (psr <| bst_tcam_table := t |>) ∧
    ∀ j item, rd (bst_tcam_table psr) j = Some item →
      ∃ item', rd t j = Some item' ∧
        (dvm j → ¬ svm j → if on then opened item item' else closed item') ∧
        (svm j → if on then closed item' else opened item item') ∧
        (¬ dvm j → ¬ svm j → item' = item).
Proof.
  intros Hl Hk dvm svm. unfold ice_parser_dvm_set.
  destruct (bst_vm_set_spec psr dvm_lbl on Hl Hk) as (t1 & -> & Hc1). cbn [mbind option_bind].
  assert (keys_ok t1) as Hk1 by (eapply changed_keys_ok; [exact Hk|exact Hc1|apply _]).
  destruct (bst_vm_set_spec (psr <| bst_tcam_table := t1 |>) svm_lbl (negb on))
    as (t2 & -> & Hc2); [exact Hl|exact Hk1|]. exists t2. split; [done|]. simpl in Hc2. intros j item Ej.
  destruct (rd_Forall _ _ _ _ (proj2 Hk) Ej) as [Hk' Hki'].
  destruct Hc1 as [_ Hc1], Hc2 as [_ Hc2]. destruct (Hc1 _ _ Ej) as [Hin1 Hout1].
  assert (∀ b : bool, if b then opened item (vm_item b item) else closed (vm_item b item)) as Hvm.
  { intros []; intros pat Hp; by rewrite vm_item_match. }
  assert (vm_item (negb on) (vm_item on item) = vm_item (negb on) item) as Hover.
  { unfold vm_item. simpl. by rewrite !list_insert_insert_eq. }
  specialize (Hvm on) as Hon. specialize (Hvm (negb on)) as Hoff. clear Hvm.
  destruct (decide (dvm j)) as [Hd|Hd], (decide (svm j)) as [Hs|Hs].
  - specialize (Hin1 Hd). apply (proj1 (Hc2 _ _ Hin1)) in Hs as Hr. rewrite Hover in Hr.
    eexists. split; [exact Hr|]. split_and!; try tauto. by destruct on.
  - specialize (Hin1 Hd). apply (proj2 (Hc2 _ _ Hin1)) in Hs as Hr.
    eexists. split; [exact Hr|]. split_and!; tauto.
  - specialize (Hout1 Hd). apply (proj1 (Hc2 _ _ Hout1)) in Hs as Hr.
    eexists. split; [exact Hr|]. split_and!; try tauto. by destruct on.
  - specialize (Hout1 Hd). apply (proj2 (Hc2 _ _ Hout1)) in Hs as Hr.
    eexists. split; [exact Hr|]. split_and!; tauto.
Qed.

(** A parser whose boost TCAM has the entries [bsts] first, named by the labels
    [names], and otherwise empty entries and labels. *)
Definition demo_label (i : nat) (name : string) : ice_lbl_item :=
  mkLbl (Z.of_nat i) (lit name ++ replicate (64 - length (lit name)) 0).
Definition demo_tcam_parser (names : list string) (bsts : list ice_bst_tcam_item) : ice_parser :=
  (demo_parser (demo_act 14 false))
    <| bst_lbl_table := imap demo_label names ++
         replicate (256 - length names) (mkLbl 0 (replicate 64 0)) |>
    <| bst_tcam_table := bsts ++ replicate (256 - length bsts) demo_bst |>.

Definition lbls_okb (lbls : list ice_lbl_item) : bool :=
  (length lbls =? 256)%nat &&
  forallb (fun l => match strlen (label l) with Some _ => true | None => false end &&
    (0 <=? lbl_idx l) && (lbl_idx l <? 256)) lbls.
Definition keys_okb (table : list ice_bst_tcam_item) : bool :=
  (length table =? 256)%nat &&
  forallb (fun b => (length (key b) =? 20)%nat && (length (key_inv b) =? 20)%nat) table.

Lemma lbls_okb_ok lbls : lbls_okb lbls = true → lbls_ok lbls.
Proof.
  unfold lbls_okb. intros [Hl%Nat.eqb_eq Hf]%andb_true_iff. split; [done|].
  apply List.Forall_forall. intros l Hin. apply (proj1 (List.forallb_forall _ _) Hf) in Hin.
  destruct (strlen (label l)); simpl in Hin; bool_to_prop; [|done]. split; [by eexists|lia].
Qed.

Lemma keys_okb_ok table : keys_okb table = true → keys_ok table.
Proof.
  unfold keys_okb. intros [Hl%Nat.eqb_eq Hf]%andb_true_iff. split; [done|].
  apply List.Forall_forall. intros b Hin. apply (proj1 (List.forallb_forall _ _) Hf) in Hin.
  bool_to_prop. split; by apply Nat.eqb_eq.
Qed.

Definition demo_vlan_parser : ice_parser :=
  demo_tcam_parser ["BOOST_MAC_VLAN_DVM_1"; "BOOST_MAC_VLAN_SVM_1"; "BOOST_MAC"]%string [].

Lemma dvm_set_spec_witness :
  ∃ t, ice_parser_dvm_set demo_vlan_parser true
       = Some (demo_vlan_parser <| bst_tcam_table := t |>) ∧
    (∃ item', rd t 0 = Some item' ∧ opened demo_bst item') ∧
    (∃ item', rd t 1 = Some item' ∧ closed item').
Proof.
  destruct (dvm_set_spec demo_vlan_parser true) as (t & Ht & Hj).
  { apply lbls_okb_ok. vm_compute. reflexivity. }
  { apply keys_okb_ok. vm_compute. reflexivity. }
  exists t. split; [exact Ht|]. split.
  - destruct (Hj 0 demo_bst eq_refl) as (item' & E & Hd & _). exists item'. split; [exact E|].
    apply Hd; [eapply bool_decide_eq_true_1|eapply bool_decide_eq_false_1];
      vm_compute; reflexivity.
  - destruct (Hj 1 demo_bst eq_refl) as (item' & E & _ & Hs & _). exists item'. split; [exact E|].
    apply Hs. eapply bool_decide_eq_true_1; vm_compute; reflexivity.
Defined.

(** A free slot, and a slot configured for a port. *)
Definition slot_free (item : ice_bst_tcam_item) : Prop :=
  rd (key item) 16 = Some 0xfe ∧ rd (key_inv item) 16 = Some 0xfe.

Definition port_item (port : Z) (item : ice_bst_tcam_item) : ice_bst_tcam_item :=
  let b0 := u8 port in
  let b1 := u8 (port .>> 8) in
  item <| key := <[16%nat := u8 (0xff - b1)]> (<[15%nat := u8 (0xff - b0)]> (key item)) |>
       <| key_inv := <[16%nat := b1]> (<[15%nat := b0]> (key_inv item)) |>.

Lemma byte_exact b p : in_width 8 b → in_width 8 p →
  ice_ternary_match_byte (u8 (0xff - b)) b p = true ↔ p = b.
Proof.
  intros Hb Hp. unfold ice_ternary_match_byte. rewrite ternary_match_bits_spec by lia.
  assert (∀ j, 0 <= j < 8 → Z.testbit (u8 (0xff - b)) j = negb (Z.testbit b j)) as Hbit.
  { intros j Hj. replace (u8 (0xff - b)) with (u8 (Z.lnot b)).
    { rewrite testbit_wrap, Z.lnot_spec, (proj2 (Z.ltb_lt j 8)) by lia. done. }
    unfold wrap. change (2 ^ 8) with 256. replace (0xff - b) with (Z.lnot b + 1 * 256)
      by (unfold Z.lnot; lia). by rewrite Z.mod_add by lia. }
  split.
  - intros H. apply Z.bits_inj'. intros j Hj. destruct (decide (j < 8)).
    + specialize (H j ltac:(lia)). rewrite Hbit in H by lia.
      by destruct (Z.testbit b j), (Z.testbit p j).
    + by rewrite (testbit_above 8 p j), (testbit_above 8 b j) by (done || lia).
  - intros -> j Hj. rewrite Hbit by lia. by destruct (Z.testbit b j).
Qed.

(** A configured slot matches the patterns that carry the port in bytes 15 and
    16 and match the rest of the key. *)
Lemma port_item_match port item pat : length (key item) = 20%nat →
  length (key_inv item) = 20%nat → length pat = 20%nat → bytes_ok pat →
  ∃ r, ice_ternary_match (key (port_item port item)) (key_inv (port_item port item)) pat 20
      = Some r ∧
    (r = true ↔
      rd pat 15 = Some (u8 port) ∧ rd pat 16 = Some (u8 (port .>> 8)) ∧
      ∀ j k ki p, 0 <= j < 20 → j ≠ 15 → j ≠ 16 →
        rd (key item) j = Some k → rd (key_inv item) j = Some ki → rd pat j = Some p →
        ice_ternary_match_byte k ki p = true).
Proof.
  intros Hk Hki Hp Hok. unfold ice_ternary_match.
  destruct (ternary_match_bytes_spec (Z.to_nat 20) 0 (key (port_item port item))
    (key_inv (port_item port item)) pat) as (r & -> & Hr);
    [lia|simpl; rewrite ?length_insert; lia..|].
  exists r. split; [done|]. rewrite Hr. clear Hr. change (0 + Z.of_nat (Z.to_nat 20)) with 20.
  assert (∀ (a : list Z) x y j, j ≠ 15 → j ≠ 16 →
    rd (<[16%nat := x]> (<[15%nat := y]> a)) j = rd a j) as Hoth.
  { intros a x y j ? ?. unfold rd. case_match; [|done].
    bool_to_prop. by rewrite !list_lookup_insert_ne by lia. }
  assert (∀ (a : list Z) x y, length a = 20%nat →
    rd (<[16%nat := x]> (<[15%nat := y]> a)) 15 = Some y ∧
    rd (<[16%nat := x]> (<[15%nat := y]> a)) 16 = Some x) as Hat.
  { intros a x y Ha. unfold rd. simpl. split.
    - rewrite list_lookup_insert_ne by done. apply list_lookup_insert_eq. lia.
    - apply list_lookup_insert_eq. rewrite length_insert. lia. }
  unfold port_item. simpl key. simpl key_inv.
  destruct (Hat (key item) (u8 (0xff - u8 (port .>> 8))) (u8 (0xff - u8 port)) Hk) as [K15 K16].
  destruct (Hat (key_inv item) (u8 (port .>> 8)) (u8 port) Hki) as [I15 I16].
  destruct (rd_in_range pat 15) as [p15 P15]; [lia|].
  destruct (rd_in_range pat 16) as [p16 P16]; [lia|].
  pose proof (rd_Forall _ _ _ _ Hok P15) as B15. pose proof (rd_Forall _ _ _ _ Hok P16) as B16.
  split.
  - intros H. split_and!.
    + rewrite P15. f_equal. apply byte_exact; [by apply wrap_width|done|]. by apply (H 15).
    + rewrite P16. f_equal. apply byte_exact; [by apply wrap_width|done|]. by apply (H 16).
    + intros j k ki p Hj ? ? Ek Eki Ep. apply (H j); try done; by rewrite Hoth.
  - intros (E15 & E16 & H) j k ki p Hj Ek Eki Ep.
    destruct (decide (j = 15)) as [->|]; [|destruct (decide (j = 16)) as [->|]].
    + rewrite Ek in K15. rewrite Eki in I15. simplify_eq.
      apply byte_exact; [by apply wrap_width|done|congruence].
    + rewrite Ek in K16. rewrite Eki in I16. simplify_eq.
      apply byte_exact; [by apply wrap_width|done|congruence].
    + rewrite Hoth in Ek, Eki by done. by apply (H j).
Qed.

(** The outcome of an addition: the first free slot, if any, gets the port. *)
Definition tunnel_added (lbls : list ice_lbl_item) (prefix : list Z) (port : Z)
    (table : list ice_bst_tcam_item) (r : ice_status * list ice_bst_tcam_item) : Prop :=
  let '(status, t) := r in
  (status = ICE_ERR_PARAM ∧ t = table ∧
    ∀ j item, labelled lbls prefix 256 j → rd table j = Some item → ¬ slot_free item) ∨
  (status = ICE_SUCCESS ∧ ∃ j item, labelled lbls prefix 256 j ∧
    rd table j = Some item ∧ slot_free item ∧
    t = <[Z.to_nat j := port_item port item]> table).

(** The loop of an addition stops at the first free slot. *)
Lemma tunnel_add_step lbls prefix port table i :
  lbls_ok lbls → keys_ok table → 0 <= i <= 256 →
  (∀ j item, labelled lbls prefix i j → rd table j = Some item → ¬ slot_free item) →
  ∃ r, tunnel_step lbls prefix port true (table, i) = Some r ∧
    match r with
    | inl (t, i') => t = table ∧ i < i' <= 256 ∧
        (∀ j item, labelled lbls prefix i' j → rd table j = Some item → ¬ slot_free item)
    | inr q => tunnel_added lbls prefix port table q
    end.
Proof.
  intros Hl [Hk Hkf] Hi Hocc. unfold tunnel_step.
  destruct (search_spec lbls prefix i Hl Hi) as (r & -> & Hr). cbn [mbind option_bind].
  destruct r as [[idx i']|].
  2:{ eexists. split; [done|]. left. split_and!; [done..|]. intros j item.
      rewrite (labelled_skip lbls prefix i 256) by (done || lia). apply Hocc. }
  destruct Hr as (Hi' & Hidx & (l & El & Hp & Eidx) & Hskip).
  destruct (rd_in_range table idx) as [item E0]; [lia|].
  destruct (rd_Forall _ _ _ _ Hkf E0) as [Hkl Hkil]. rewrite E0. cbn [mbind option_bind].
  destruct (rd_in_range (key item) 16) as [k16 E1]; [lia|].
  destruct (rd_in_range (key_inv item) 15) as [ki15 E2]; [lia|].
  destruct (rd_in_range (key_inv item) 16) as [ki16 E3]; [lia|].
  rewrite E1, E2, E3. cbn [mbind option_bind andb negb].
  destruct ((k16 =? 0xfe) && (ki16 =? 0xfe)) eqn:Efree.
  - bool_to_prop. subst. unfold set_port_bytes.
    rewrite !wr_in_range by (rewrite ?length_insert; lia). cbn [mbind option_bind].
    rewrite !wr_in_range by (rewrite ?length_insert; lia). cbn [mbind option_bind].
    rewrite !wr_in_range by (rewrite ?length_insert; lia). cbn [mbind option_bind].
    eexists. split; [done|]. right. split; [done|]. exists (lbl_idx l), item.
    split_and!; [|done|by split|done]. exists i', l. split_and!; done || lia.
  - eexists. split; [done|].
    rewrite (wrap_small 16 (i' + 1)) by (unfold in_width; change (2 ^ 16) with 65536; lia).
    split_and!; [done|lia..|]. intros j it.
    rewrite (labelled_add lbls prefix i' l) by (done || lia).
    rewrite (labelled_skip lbls prefix i i') by (done || lia).
    intros [Hj|Hj] Ej; [|by apply (Hocc j)]. intros [F1 F2].
    assert (it = item) as -> by congruence. rewrite E1 in F1. rewrite E3 in F2. simplify_eq.
Qed.

Lemma tunnel_add_loop psr prefix port :
  lbls_ok (bst_lbl_table psr) → keys_ok (bst_tcam_table psr) →
  ∃ status t, _tunnel_port_set psr prefix port true =
      Some (status, psr <| bst_tcam_table := t |>) ∧
    tunnel_added (bst_lbl_table psr) prefix port (bst_tcam_table psr) (status, t).
Proof.
  intros Hl Hk. unfold _tunnel_port_set.
  edestruct (iterate_total (tunnel_step (bst_lbl_table psr) prefix port true)
    (fun '(t, i) => t = bst_tcam_table psr ∧ 0 <= i <= 256 ∧
       ∀ j item, labelled (bst_lbl_table psr) prefix i j →
         rd (bst_tcam_table psr) j = Some item → ¬ slot_free item)
    (tunnel_added (bst_lbl_table psr) prefix port (bst_tcam_table psr))
    (fun '(_, i) => 256 - i) 257 (bst_tcam_table psr, 0)) as ([status t] & -> & Ht).
  - split_and!; [done|lia..|]. intros j item (n & l & ? & _). lia.
  - lia.
  - intros [t i] (-> & Hi & Hc). edestruct (tunnel_add_step (bst_lbl_table psr) prefix port
      (bst_tcam_table psr) i) as (r & -> & Hr); [done..|]. exists r. split; [done|].
    destruct r as [[t' i']|q]; [|exact Hr]. destruct Hr as (-> & ? & ?).
    split; [split_and!; done || lia|lia].
  - cbn [mbind option_bind]. eauto.
Qed.

(** Tunnel ports: adding a UDP port ends; with a free slot under the label,
    it reconfigures one of these slots, which then matches exactly the patterns
    that carry the port in bytes 15 and 16 (and the rest of its key), and leaves
    the other entries alone; without a free slot, it reports an error and changes
    nothing. *)
Theorem tunnel_add_spec psr prefix port :
  lbls_ok (bst_lbl_table psr) → keys_ok (bst_tcam_table psr) →
  ∃ status t, _tunnel_port_set psr prefix port true =
      Some (status, psr <| bst_tcam_table := t |>) ∧
    ((status = ICE_ERR_PARAM ∧ t = bst_tcam_table psr ∧
       ∀ j item, labelled (bst_lbl_table psr) prefix 256 j →
         rd (bst_tcam_table psr) j = Some item → ¬ slot_free item) ∨
     (status = ICE_SUCCESS ∧ ∃ j item item', labelled (bst_lbl_table psr) prefix 256 j ∧
       rd (bst_tcam_table psr) j = Some item ∧ slot_free item ∧ rd t j = Some item' ∧
       (∀ j', j' ≠ j → rd t j' = rd (bst_tcam_table psr) j') ∧
       ∀ pat, length pat = 20%nat → bytes_ok pat →
         ice_ternary_match (key item') (key_inv item') pat 20 = Some true ↔
         rd pat 15 = Some (u8 port) ∧ rd pat 16 = Some (u8 (port .>> 8)) ∧
         ∀ j k ki p, 0 <= j < 20 → j ≠ 15 → j ≠ 16 →
           rd (key item) j = Some k → rd (key_inv item) j = Some ki → rd pat j = Some p →
           ice_ternary_match_byte k ki p = true)).
Proof.
  intros Hl Hk. destruct (tunnel_add_loop psr prefix port Hl Hk) as (status & t & -> & Hr).
  exists status, t. split; [done|].
  destruct Hr as [Hr|(-> & j & item & Hlab & Ej & Hfree & ->)]; [by left|]. right.
  split; [done|]. exists j, item, (port_item port item). pose proof (rd_Some _ _ _ Ej).
  destruct (rd_Forall _ _ _ _ (proj2 Hk) Ej) as [Hkl Hkil].
  assert (wr (bst_tcam_table psr) j (port_item port item) =
    Some (<[Z.to_nat j := port_item port item]> (bst_tcam_table psr))) as Hw
    by (by apply wr_in_range).
  split_and!; [done..|by eapply rd_wr_eq|intros; by eapply rd_wr_ne|].
  intros pat Hp Hok. destruct (port_item_match port item pat) as (r & -> & Hr); [done..|].
  rewrite <- Hr. split; [by intros [= ->]|by intros ->].
Qed.

(** A boost TCAM entry for a UDP tunnel without a port. *)
Definition demo_slot : ice_bst_tcam_item :=
  demo_bst <| key := replicate 15 0xff ++ [0xff; 0xfe] ++ replicate 3 0xff |>
           <| key_inv := replicate 15 0xff ++ [0xff; 0xfe] ++ replicate 3 0xff |>
           <| hit_idx_grp := 1 |>.
Definition demo_tunnel_parser : ice_parser :=
  demo_tcam_parser ["TNL_VXLAN_0"; "TNL_VXLAN_1"]%string [demo_slot; demo_slot].

Lemma tunnel_add_spec_witness :
  ∃ status t, _tunnel_port_set demo_tunnel_parser (lit "TNL_VXLAN") 4789 true =
      Some (status, demo_tunnel_parser <| bst_tcam_table := t |>) ∧ status = ICE_SUCCESS.
Proof.
  destruct (tunnel_add_spec demo_tunnel_parser (lit "TNL_VXLAN") 4789)
    as (status & t & E & [(_ & _ & Hocc)|[Hs _]]).
  { apply lbls_okb_ok. vm_compute. reflexivity. }
  { apply keys_okb_ok. vm_compute. reflexivity. }
  { exfalso. apply (Hocc 0 demo_slot);
      [eapply bool_decide_eq_true_1; vm_compute; reflexivity|reflexivity|by split]. }
  by exists status, t.
Defined.

(** The port of an entry, if it has one. *)
Definition slot_port (item : ice_bst_tcam_item) : option Z :=
  b0 ← rd (key_inv item) 15;
  b1 ← rd (key_inv item) 16;
  if b1 =? 0xfe then None else Some (b0 + 256 * b1).

Definition slot_ports (psr : ice_parser) : list (option Z) :=
  slot_port <$> take 2 (bst_tcam_table psr).

(** Deleting a tunnel port can remove another one: after the VXLAN ports
    0x12b5 and 0x1234 have been added, deleting 0x1234 succeeds, but removes
    0x12b5, which agrees with it in one of the two bytes. *)
Theorem tunnel_delete_wrong_port :
  ∃ psr1 psr2 psr3,
    ice_parser_vxlan_tunnel_set demo_tunnel_parser 0x12b5 true = Some (ICE_SUCCESS, psr1) ∧
    ice_parser_vxlan_tunnel_set psr1 0x1234 true = Some (ICE_SUCCESS, psr2) ∧
    slot_ports psr2 = [Some 0x12b5; Some 0x1234] ∧
    ice_parser_vxlan_tunnel_set psr2 0x1234 false = Some (ICE_SUCCESS, psr3) ∧
    slot_ports psr3 = [None; Some 0x1234].
Proof.
  do 3 eexists. split_and!; try (vm_compute; reflexivity).
Qed.

End tcam.

(** ** Parsing a packet *)

(** The start state that the metadata of node 0 describes. *)
Definition start_ok (H : Z) (mi : Metainit.ice_metainit_item) : Prop :=
  in_width 16 (Metainit.tsr mi) ∧ in_width 16 (Metainit.pg_rn mi) ∧
  0 <= Metainit.pc mi < 192 ∧ 0 <= Metainit.ho mi ∧ Metainit.ho mi + H <= 504.

Lemma rt_zero_ok : rt_ok rt_zero ∧ pc_ok rt_zero.
Proof. split; [split; try done; split; try done; by apply Forall_replicate|by exists 0]. Qed.

Lemma flag_loop_ok rt rt0 flags : regs_ext rt rt0 →
  ∃ rt', for_range 0 64 (fun i rt =>
      if Z.testbit flags i then _rt_flag_set rt i true else Some rt) rt0 = Some rt' ∧
    regs_ext rt rt'.
Proof.
  intros E. apply regs_loop; [lia|done|]. intros i r Hi Er.
  case_match; [|by exists r]. apply regs_ext_bit; [done|]. unfold GPR_FLG_IDX.
  assert (0 <= i / 16 < 4); [|lia]. split; [apply Z.div_pos; lia|apply Z.div_lt_upper_bound; lia].
Qed.

Lemma reset_ok H psr mi : 0 <= H → rd (mi_table psr) 0 = Some mi → start_ok H mi →
  ∃ rt, ice_parser_rt_reset psr = Some rt ∧ rt_ok rt ∧ pc_ok rt ∧ at_ho rt (Metainit.ho mi).
Proof.
  intros HH Hmi (Ht & Hn & Hpc & Hho0 & HhoH). unfold ice_parser_rt_reset.
  rewrite Hmi. cbn [mbind option_bind]. destruct rt_zero_ok as [Hz Hzpc].
  destruct (regs_ext_set rt_zero rt_zero GPR_TSR_IDX (Metainit.tsr mi)) as (rt1 & E1 & X1);
    [apply regs_ext_refl; [apply Hz|done]|done..|].
  unfold _rt_tsr_set. rewrite E1. cbn [mbind option_bind].
  destruct (ho_set_ok rt1 (Metainit.ho mi)) as (rt2 & -> & Hok2 & Hpc2 & Hho2 & _);
    [by eapply rt_ok_regs_ext|apply X1|lia|]. cbn [mbind option_bind].
  unfold _rt_np_set, _rt_nn_set.
  destruct (regs_ext_set rt2 rt2 GPR_NP_IDX (Metainit.pc mi)) as (rt3 & -> & X3);
    [apply regs_ext_refl; [apply Hok2|done]|done..|unfold in_width; lia|done|].
  cbn [mbind option_bind].
  destruct (regs_ext_set rt2 rt3 GPR_NN_IDX (Metainit.pg_rn mi)) as (rt4 & -> & X4); [done..|].
  cbn [mbind option_bind].
  destruct (flag_loop_ok rt2 rt4 (Metainit.flags mi) X4) as (rt5 & -> & X5).
  exists rt5. split_and!; [done|by eapply rt_ok_regs_ext|apply X5|].
  destruct X5 as (_ & Eho & _). unfold at_ho. by rewrite Eho.
Qed.

Lemma pktbuf_set_ok rt pkt plen ho : rt_ok rt → pc_ok rt → at_ho rt ho → 0 <= ho <= 504 →
  0 <= plen <= 504 → plen <= Z.of_nat (length pkt) → bytes_ok pkt →
  ∃ rt', ice_parser_rt_pktbuf_set rt pkt plen = Some rt' ∧ rt_ok rt' ∧ pc_ok rt' ∧
    at_ho rt' ho ∧ pkt_len rt' = plen.
Proof.
  intros Hok (pc & Hpc & Hpcr) Hho Hr Hp Hl Hb. unfold ice_parser_rt_pktbuf_set.
  rewrite Hho. cbn [mbind option_bind]. unfold ICE_PARSER_MAX_PKT_LEN.
  rewrite Z.min_r by lia. rewrite (proj2 (Z.ltb_ge _ _)) by lia.
  rewrite bytes_at_in_range by lia. cbn [mbind option_bind]. simpl (Z.to_nat 0). rewrite drop_0.
  set (d := take (Z.to_nat plen) pkt).
  assert (length d = Z.to_nat plen) as Hd by (unfold d; rewrite length_take; lia).
  destruct (ro_pkt _ Hok) as [Hpl Hpb].
  match goal with |- context [load_hb ?r _] =>
    destruct (load_hb_ok r ho) as (rt' & -> & Hok' & Hrd & E) end; [|done|].
  { destruct Hok. split; simpl; try done. split.
    - rewrite length_app, length_drop, Hd. lia.
    - apply Forall_app. split; [by apply Forall_take|by apply Forall_drop]. }
  exists rt'. split_and!; [done..| | |].
  - exists pc. rewrite Hrd by done. done.
  - unfold at_ho. rewrite Hrd by done. done.
  - rewrite E. simpl. apply wrap_small. unfold in_width. lia.
Qed.


Definition demo_run_parser : ice_parser :=
  (demo_parser (demo_act 14 false)) <| mi_table := replicate 16 metainit_zero |>.


(** ** Creation *)

Lemma create_table_length {item} sg mok ty (zero : item) len parse no_offset t :
  ice_parser_create_table sg mok ty zero len parse no_offset = Some (Some t) →
  length t = Z.to_nat len.
Proof.
  unfold ice_parser_create_table, create_table_loop. intros H.
  destruct sg as [sg|]; [|done]. destruct mok; [|done]. cbn [negb] in H. inv_some.
  match goal with H : iterate _ _ _ = Some ?r |- _ => rename H into Hit; destruct r as [|t'] end;
    inv_some.
  assert (length t = length (replicate (Z.to_nat len) zero)) as ->; [|by rewrite length_replicate].
  set (n := length (replicate _ zero)).
  apply (iterate_inv _ (fun s : table_state => length s.2 = n) (fun tb => length tb = n))
    in Hit; [done|done|].
  intros [[[first st] idx] tb] r Htb Hs. unfold table_step in Hs.
  apply bind_Some in Hs as ([[data o] st'] & _ & Hs). destruct data as [d|]; [|by inv_some].
  simpl in Htb. destruct no_offset; inv_some; simpl;
    match goal with H : wr _ _ _ = Some _ |- _ => apply wr_length in H; congruence end.
Qed.

Section create.
Variable hw : ice_hw.

(** The memory of the table was obtained. *)
Definition allocated (ty : Z) : bool := bool_decide (is_Some (seg hw)) && malloc_ok hw ty.

Definition kb_types : list Z :=
  [ICE_SID_XLT_KEY_BUILDER_SW; ICE_SID_XLT_KEY_BUILDER_ACL;
   ICE_SID_XLT_KEY_BUILDER_FD; ICE_SID_XLT_KEY_BUILDER_RSS].

(** The sizes of the tables that the parser structure documents. *)
Definition sizes_ok (psr : ice_parser) : Prop :=
  length (imem_table psr) = 192%nat ∧ length (mi_table psr) = 16%nat ∧
  length (pg_cam_table psr) = 2048%nat ∧ length (pg_sp_cam_table psr) = 128%nat ∧
  length (pg_nm_cam_table psr) = 1024%nat ∧ length (pg_nm_sp_cam_table psr) = 64%nat ∧
  length (bst_tcam_table psr) = 256%nat ∧ length (bst_lbl_table psr) = 256%nat ∧
  length (ptype_mk_tcam_table psr) = 1024%nat ∧ length (mk_grp_table psr) = 128%nat ∧
  length (proto_grp_table psr) = 192%nat ∧ length (flg_rd_table psr) = 64%nat.

(** What creation may return: a complete parser, of whose blocks nothing is left
    after destruction, or an error without any block left, except for one key
    builder whose section the package lacks. *)
Definition created (r : option (ice_status * option ice_parser * list Z)) : Prop :=
  match r with
  | None => True
  | Some (ICE_SUCCESS, p, l) =>
      (∃ psr, p = Some psr ∧ sizes_ok psr) ∧ length l = 17%nat ∧ ice_parser_destroy (mkBlocks l l) = []
  | Some (_, p, l) => p = None ∧
      (l = [] ∨ ∃ ty, l = [ty] ∧ ty ∈ kb_types ∧ allocated ty = true ∧
        _xlt_kb_get hw ty = Some None)
  end.

Lemma destroy_all l : ice_parser_destroy (mkBlocks l l) = [].
Proof.
  unfold ice_parser_destroy. simpl.
  assert (∀ l', (∀ x, x ∈ l' → x ∈ l) →
    List.filter (fun ty => negb (bool_decide (ty ∈ l))) l' = []) as Hg; [|by apply Hg].
  induction l' as [|x l' IH]; intros Hsub; simpl; [done|].
  rewrite bool_decide_true by (apply Hsub; left). simpl. apply IH. intros y ?. apply Hsub. by right.
Qed.

Lemma destroy_one ty l : ty ∉ l → ice_parser_destroy (mkBlocks (ty :: l) l) = [ty].
Proof.
  intros Hty. unfold ice_parser_destroy. simpl. rewrite bool_decide_false by done. simpl.
  f_equal. apply (destroy_all l).
Qed.

Lemma load_part_created {A} ty (get : option (option A)) l k :
  (∀ t, get = Some (Some t) → allocated ty = true) →
  (get = Some None → allocated ty = true →
     (ty ∉ l) ∧ ty ∈ kb_types ∧ _xlt_kb_get hw ty = Some None) →
  (∀ t, get = Some (Some t) → created (k t (mkBlocks (ty :: l) (ty :: l)))) →
  created (load_part hw ty get (mkBlocks l l) k).
Proof.
  intros Hok Hno Hk. unfold load_part. destruct get as [[t|]|]; cbn [mbind option_bind]; [| |done].
  - specialize (Hok t eq_refl). unfold allocated in Hok. rewrite Hok. by apply Hk.
  - destruct (allocated ty) eqn:Ea.
    + destruct (Hno eq_refl eq_refl) as (Hty & Hin & Hx). unfold allocated in Ea. rewrite Ea.
      simpl. split; [done|]. right. exists ty. rewrite destroy_one by done. by rewrite <- Ea.
    + unfold allocated in Ea. rewrite Ea. simpl. split; [done|]. left. apply destroy_all.
Qed.

Lemma table_created {item} ty (zero : item) size parse no_offset l k :
  (∀ t, length t = Z.to_nat size → created (k t (mkBlocks (ty :: l) (ty :: l)))) →
  created (load_part hw ty (table_get hw ty zero size parse no_offset) (mkBlocks l l) k).
Proof.
  intros Hk. apply load_part_created.
  - intros t Ht. unfold table_get, ice_parser_create_table in Ht. unfold allocated.
    destruct (seg hw), (malloc_ok hw ty); done.
  - intros Ht Ha. unfold table_get, ice_parser_create_table in Ht. unfold allocated in Ha.
    destruct (seg hw); [|done]. destruct (malloc_ok hw ty); [|done]. simpl in Ht. by inv_some.
  - intros t Ht. apply Hk. by eapply create_table_length.
Qed.

Lemma kb_created ty l k : ty ∉ l → ty ∈ kb_types →
  (∀ t, created (k t (mkBlocks (ty :: l) (ty :: l)))) →
  created (load_part hw ty (_xlt_kb_get hw ty) (mkBlocks l l) k).
Proof.
  intros Hl Hty Hk. apply load_part_created; [|done|done].
  intros t Ht. unfold _xlt_kb_get in Ht. unfold allocated.
  destruct (seg hw), (malloc_ok hw ty); done.
Qed.

(** Creation: when [ice_parser_create] succeeds, every table has its size
    and destroying the parser frees all 17 blocks; when it fails, it frees what
    it allocated, with one exception: a key builder that was allocated and whose
    section the package lacks stays allocated. *)
Theorem parser_create_spec : created (ice_parser_create hw).
Proof.
  unfold ice_parser_create. destruct (malloc_ok hw 0); cbn [negb]; [|by split; [|left]].
  do 12 (apply table_created; intros ? ?).
  do 4 (apply kb_created;
    [apply (bool_decide_unpack _); vm_compute; exact I
    |apply (bool_decide_unpack _); vm_compute; exact I|intros ?]).
  simpl. split_and!; [|done|apply destroy_all]. eexists. split; [done|]. by split_and!.
Qed.
End create.

(** The exception occurs: a package without key builder sections. *)
Lemma parser_create_leak :
  ice_parser_create (mkHw (Some demo_seg) (fun _ => true)) =
  Some (ICE_ERR_PARAM, None, [ICE_SID_XLT_KEY_BUILDER_SW]).
Proof. vm_compute. reflexivity. Qed.
