(* ===== verification/IceCtlq.v ===== *)
(** * Control queues

    ice_controlq.c and the send functions of ice_common.c: the rings of
    descriptors through which the driver talks to firmware, sideband devices and
    the PF-VF mailbox.  Memory is explicit: every allocated block has an address
    in a heap, so that a use after free or a double free is an undefined
    operation of the model.  The device and the allocator are an environment
    [Env]; the device may act whenever the driver touches a register.

    The bodies of the two functions for DMA memory are those in ice_osdep.h,
    where they stand in comments.  Debug output, delays and the register reads
    that only feed debug output are left out. *)
From S2P Require Import Prelude IceStatus.
From stdpp Require Export gmap.
Local Open Scope Z_scope.

(** ** Data *)

(** [params] is the generic view of the union. *)
Record ice_aq_desc := mkDesc {
  flags : Z; opcode : Z; datalen : Z; retval : Z; cookie_high : Z; cookie_low : Z;
  param0 : Z; param1 : Z; addr_high : Z; addr_low : Z
}.

#[export] Instance desc_settable : Settable ice_aq_desc := fun r =>
  mkDesc (flags r) (opcode r) (datalen r) (retval r) (cookie_high r) (cookie_low r)
    (param0 r) (param1 r) (addr_high r) (addr_low r).

Definition desc_zero : ice_aq_desc := mkDesc 0 0 0 0 0 0 0 0 0 0.

Record ice_dma_mem := mkDma { va : Z; pa : Z; msize : Z }.
Definition dma_zero : ice_dma_mem := mkDma 0 0 0.

Record ice_sq_cd := mkCd { wb_desc : Z }.
Definition cd_zero : ice_sq_cd := mkCd 0.

Record ice_ctl_q_ring := mkRing {
  dma_head : Z;
  desc_buf : ice_dma_mem;
  cmd_buf : Z;
  bi : Z;                      (* the union of sq_bi and rq_bi *)
  count : Z;
  next_to_use : Z;
  next_to_clean : Z;
  head : Z; tail : Z; len : Z; bah : Z; bal : Z;
  len_mask : Z; len_ena_mask : Z; len_crit_mask : Z; head_mask : Z
}.

#[export] Instance ring_settable : Settable ice_ctl_q_ring := fun r =>
  mkRing (dma_head r) (desc_buf r) (cmd_buf r) (bi r) (count r) (next_to_use r)
    (next_to_clean r) (head r) (tail r) (len r) (bah r) (bal r) (len_mask r)
    (len_ena_mask r) (len_crit_mask r) (head_mask r).

Inductive ice_ctl_q := ICE_CTL_Q_UNKNOWN | ICE_CTL_Q_ADMIN | ICE_CTL_Q_MAILBOX | ICE_CTL_Q_SB.

Record ice_ctl_q_info := mkCq {
  qtype : ice_ctl_q;
  rq : ice_ctl_q_ring;
  sq : ice_ctl_q_ring;
  sq_cmd_timeout : Z;
  num_rq_entries : Z;
  num_sq_entries : Z;
  rq_buf_size : Z;
  sq_buf_size : Z;
  sq_last_status : Z;
  sq_lock : bool;
  rq_lock : bool
}.

#[export] Instance cq_settable : Settable ice_ctl_q_info := fun r =>
  mkCq (qtype r) (rq r) (sq r) (sq_cmd_timeout r) (num_rq_entries r) (num_sq_entries r)
    (rq_buf_size r) (sq_buf_size r) (sq_last_status r) (sq_lock r) (rq_lock r).

Record ice_rq_event_info := mkEvent {
  e_desc : ice_aq_desc; msg_len : Z; buf_len : Z; msg_buf : option (list Z)
}.

#[export] Instance event_settable : Settable ice_rq_event_info := fun r =>
  mkEvent (e_desc r) (msg_len r) (buf_len r) (msg_buf r).

Inductive ice_mac_type :=
| ICE_MAC_UNKNOWN | ICE_MAC_E810 | ICE_MAC_GENERIC | ICE_MAC_GENERIC_3K | ICE_MAC_GENERIC_3K_E825.

Definition ICE_AQ_LG_BUF : Z := 512.
Definition ICE_AQ_FLAG_ERR : Z := 0x4.
Definition ICE_AQ_FLAG_LB : Z := 0x200.
Definition ICE_AQ_FLAG_BUF : Z := 0x1000.
Definition ICE_AQ_FLAG_SI : Z := 0x2000.
Definition ICE_AQ_RC_OK : Z := 0.
Definition ICE_AQ_RC_EBUSY : Z := 12.
Definition ICE_CTL_Q_SQ_CMD_TIMEOUT : Z := 10000.
Definition ICE_CTL_Q_ADMIN_INIT_TIMEOUT : nat := 10.
Definition ICE_SQ_SEND_MAX_EXECUTE : nat := 3.
Definition EXP_FW_API_VER_MAJOR : Z := 1.

Definition ICE_HI_DWORD (x : Z) : Z := u32 (((x .>> 16) .>> 16) .& 0xFFFFFFFF).
Definition ICE_LO_DWORD (x : Z) : Z := u32 (x .& 0xFFFFFFFF).

(** ** Memory and environment *)

(** What an allocated block holds.  Descriptor rings and data buffers are visible
    to the device. *)
Inductive block :=
| Descs (ds : list ice_aq_desc)
| Data (bs : list Z)
| DmaInfo (l : list ice_dma_mem)
| CmdBuf (l : list ice_sq_cd).

Abbreviation heap_t := (gmap Z block).

(** The environment: register accesses, during which the device may also write
    to memory; allocations, which may fail, DMA memory coming with a physical
    address; and the optional function that replaces the admin queue. *)
Class Env (E : Type) := {
  env_rd32 : Z → heap_t → E → Z * heap_t * E;
  env_wr32 : Z → Z → heap_t → E → heap_t * E;
  env_malloc : E → bool * E;
  env_dma : E → option Z * E;
  aq_send_cmd_fn : option (ice_aq_desc → option (list Z) → Z → E →
    Z * ice_aq_desc * option (list Z) * E)
}.

Record world (E : Type) := mkWorld { heap : heap_t; fresh : Z; env : E }.
Arguments mkWorld {E} _ _ _.
Arguments heap {E} _.
Arguments fresh {E} _.
Arguments env {E} _.

(** Result of a computation: a value and the new world, an undefined operation,
    or no more fuel. *)
Inductive outcome (A : Type) :=
| Ret (a : A)
| Undef
| OutOfFuel.
Arguments Ret {A} _.
Arguments Undef {A}.
Arguments OutOfFuel {A}.

Definition M (E A : Type) : Type := world E → outcome (A * world E).

#[export] Instance M_ret E : MRet (M E) := fun A a w => Ret (a, w).
#[export] Instance M_bind E : MBind (M E) := fun A B f m w =>
  match m w with
  | Ret (a, w') => f a w'
  | Undef => Undef
  | OutOfFuel => OutOfFuel
  end.

Section ops.
Context {E : Type} `{Env E}.

Definition undef {A} : M E A := fun _ => Undef.
Definition out_of_fuel {A} : M E A := fun _ => OutOfFuel.
Definition of_option {A} (o : option A) : M E A :=
  match o with Some a => mret a | None => undef end.

Definition rd32 (reg : Z) : M E Z := fun w =>
  let '(v, h, e) := env_rd32 reg (heap w) (env w) in Ret (v, mkWorld h (fresh w) e).
Definition wr32 (reg v : Z) : M E unit := fun w =>
  let '(h, e) := env_wr32 reg v (heap w) (env w) in Ret (tt, mkWorld h (fresh w) e).

Definition get_block (p : Z) : M E block := fun w =>
  match heap w !! p with Some b => Ret (b, w) | None => Undef end.
Definition put_block (p : Z) (b : block) : M E unit := fun w =>
  match heap w !! p with
  | Some _ => Ret (tt, mkWorld (<[p := b]> (heap w)) (fresh w) (env w))
  | None => Undef
  end.

(** A new block at a fresh address. *)
Definition new_block (b : block) : M E Z := fun w =>
  Ret (fresh w, mkWorld (<[fresh w := b]> (heap w)) (fresh w + 1) (env w)).
Definition del_block (p : Z) : M E unit := fun w =>
  match heap w !! p with
  | Some _ => Ret (tt, mkWorld (delete p (heap w)) (fresh w) (env w))
  | None => Undef
  end.

(** [ice_calloc]: the address, 0 when there is no memory. *)
Definition ice_calloc (b : block) : M E Z := fun w =>
  let '(ok, e) := env_malloc (env w) in
  let w := mkWorld (heap w) (fresh w) e in
  if ok : bool then new_block b w else Ret (0, w).

(** [ice_malloc]: cleared bytes; a request for none gives [NULL]. *)
Definition ice_malloc (size : Z) : M E Z :=
  if size =? 0 then mret 0 else ice_calloc (Data (replicate (Z.to_nat size) 0)).

Definition ice_free (p : Z) : M E unit := if p =? 0 then mret tt else del_block p.

(** [ice_alloc_dma_mem] fills the structure it is given and returns [va]; it
    leaves the structure alone when there is no memory, and the caller then
    stores the returned [NULL] in [va]. *)
Definition ice_alloc_dma_mem (mem : ice_dma_mem) (b : block) (size : Z) : M E ice_dma_mem := fun w =>
  let '(r, e) := env_dma (env w) in
  let w := mkWorld (heap w) (fresh w) e in
  match r with
  | Some phys =>
      match new_block b w with
      | Ret (p, w) => Ret (mkDma p phys (u32 size), w)
      | Undef => Undef
      | OutOfFuel => OutOfFuel
      end
  | None => Ret (mkDma 0 (pa mem) (msize mem), w)
  end.

Definition ice_free_dma_mem (mem : ice_dma_mem) : M E ice_dma_mem :=
  _ ← del_block (va mem);
  mret (mkDma 0 0 (msize mem)).

(** Typed access to the elements of a block. *)
Definition rd_desc (p i : Z) : M E ice_aq_desc :=
  b ← get_block p; match b with Descs ds => of_option (rd ds i) | _ => undef end.
Definition wr_desc (p i : Z) (d : ice_aq_desc) : M E unit :=
  b ← get_block p;
  match b with
  | Descs ds => ds ← of_option (wr ds i d); put_block p (Descs ds)
  | _ => undef
  end.
Definition rd_info (p i : Z) : M E ice_dma_mem :=
  b ← get_block p; match b with DmaInfo l => of_option (rd l i) | _ => undef end.
Definition wr_info (p i : Z) (m : ice_dma_mem) : M E unit :=
  b ← get_block p;
  match b with
  | DmaInfo l => l ← of_option (wr l i m); put_block p (DmaInfo l)
  | _ => undef
  end.
Definition rd_cd (p i : Z) : M E ice_sq_cd :=
  b ← get_block p; match b with CmdBuf l => of_option (rd l i) | _ => undef end.
Definition wr_cd (p i : Z) (c : ice_sq_cd) : M E unit :=
  b ← get_block p;
  match b with
  | CmdBuf l => l ← of_option (wr l i c); put_block p (CmdBuf l)
  | _ => undef
  end.
Definition rd_data (p n : Z) : M E (list Z) :=
  b ← get_block p; match b with Data bs => of_option (bytes_at (Z.to_nat n) bs 0) | _ => undef end.
Definition wr_data (p : Z) (new : list Z) : M E unit :=
  b ← get_block p;
  match b with
  | Data bs =>
      if (length new <=? length bs)%nat
      then put_block p (Data (new ++ drop (length new) bs)) else undef
  | _ => undef
  end.

(** ** Registers *)

(** The registers of one queue; the masks are the same for all of them. *)
Record reg_set := mkRegs {
  r_ATQH : Z; r_ATQT : Z; r_ATQLEN : Z; r_ATQBAH : Z; r_ATQBAL : Z;
  r_ARQH : Z; r_ARQT : Z; r_ARQLEN : Z; r_ARQBAH : Z; r_ARQBAL : Z
}.

Definition PF_FW : reg_set :=
  mkRegs 0x00080300 0x00080400 0x00080200 0x00080100 0x00080000
    0x00080380 0x00080480 0x00080280 0x00080180 0x00080080.
Definition PF_MBX : reg_set :=
  mkRegs 0x0022E280 0x0022E300 0x0022E200 0x0022E180 0x0022E100
    0x0022E500 0x0022E580 0x0022E480 0x0022E400 0x0022E380.
Definition PF_SB : reg_set :=
  mkRegs 0x0022FD80 0x0022FE00 0x0022FD00 0x0022FC80 0x0022FC00
    0x00230000 0x00230080 0x0022FF80 0x0022FF00 0x0022FE80.

Definition QLEN_M : Z := 0x3FF.
Definition QENABLE_M : Z := 0x80000000.
Definition QCRIT_M : Z := 0x40000000.
Definition QHEAD_M : Z := 0x3FF.

Definition ring_regs (r : ice_ctl_q_ring) (h t l bh bl : Z) : ice_ctl_q_ring :=
  r <| head := h |> <| tail := t |> <| len := l |> <| bah := bh |> <| bal := bl |>
    <| len_mask := QLEN_M |> <| len_ena_mask := QENABLE_M |> <| len_crit_mask := QCRIT_M |>
    <| head_mask := QHEAD_M |>.

Definition ICE_CQ_INIT_REGS (cq : ice_ctl_q_info) (p : reg_set) : ice_ctl_q_info :=
  cq <| sq := ring_regs (sq cq) (r_ATQH p) (r_ATQT p) (r_ATQLEN p) (r_ATQBAH p) (r_ATQBAL p) |>
     <| rq := ring_regs (rq cq) (r_ARQH p) (r_ARQT p) (r_ARQLEN p) (r_ARQBAH p) (r_ARQBAL p) |>.

Definition ice_adminq_init_regs (cq : ice_ctl_q_info) : ice_ctl_q_info := ICE_CQ_INIT_REGS cq PF_FW.
Definition ice_mailbox_init_regs (cq : ice_ctl_q_info) : ice_ctl_q_info := ICE_CQ_INIT_REGS cq PF_MBX.
Definition ice_sb_init_regs (cq : ice_ctl_q_info) : ice_ctl_q_info := ICE_CQ_INIT_REGS cq PF_SB.

Definition ice_check_sq_alive (cq : ice_ctl_q_info) : M E bool :=
  if nz (len (sq cq)) && nz (len_mask (sq cq)) && nz (len_ena_mask (sq cq)) then
    v ← rd32 (len (sq cq));
    mret (v .& (len_mask (sq cq) .| len_ena_mask (sq cq)) =?
          (num_sq_entries cq .| len_ena_mask (sq cq)))
  else mret false.

(** ** Allocation *)

Definition ice_alloc_ctrlq_sq_ring (cq : ice_ctl_q_info) : M E (ice_status * ice_ctl_q_info) :=
  let n := Z.to_nat (num_sq_entries cq) in
  mem ← ice_alloc_dma_mem (desc_buf (sq cq)) (Descs (replicate n desc_zero)) (num_sq_entries cq * 32);
  let cq := cq <| sq ::= fun r => r <| desc_buf := mem |> |> in
  if va mem =? 0 then mret (ICE_ERR_NO_MEMORY, cq)
  else
    p ← ice_calloc (CmdBuf (replicate n cd_zero));
    let cq := cq <| sq ::= fun r => r <| cmd_buf := p |> |> in
    if p =? 0 then
      mem ← ice_free_dma_mem mem;
      mret (ICE_ERR_NO_MEMORY, cq <| sq ::= fun r => r <| desc_buf := mem |> |>)
    else mret (ICE_SUCCESS, cq).

Definition ice_alloc_ctrlq_rq_ring (cq : ice_ctl_q_info) : M E (ice_status * ice_ctl_q_info) :=
  let n := Z.to_nat (num_rq_entries cq) in
  mem ← ice_alloc_dma_mem (desc_buf (rq cq)) (Descs (replicate n desc_zero)) (num_rq_entries cq * 32);
  let cq := cq <| rq ::= fun r => r <| desc_buf := mem |> |> in
  if va mem =? 0 then mret (ICE_ERR_NO_MEMORY, cq) else mret (ICE_SUCCESS, cq).

Definition ice_free_cq_ring (ring : ice_ctl_q_ring) : M E ice_ctl_q_ring :=
  mem ← ice_free_dma_mem (desc_buf ring);
  mret (ring <| desc_buf := mem |>).

(** [bi[i].va = ice_alloc_dma_mem(hw, &bi[i], size)] *)
Definition alloc_buf (p i size : Z) : M E ice_dma_mem :=
  mem ← rd_info p i;
  mem ← ice_alloc_dma_mem mem (Data (replicate (Z.to_nat size) 0)) size;
  _ ← wr_info p i mem;
  mret mem.

(** The descriptor of a posted receive buffer. *)
Definition rq_desc (buf_size : Z) (mem : ice_dma_mem) : ice_aq_desc :=
  desc_zero
    <| flags := if ICE_AQ_LG_BUF <? buf_size then ICE_AQ_FLAG_BUF .| ICE_AQ_FLAG_LB
                else ICE_AQ_FLAG_BUF |>
    <| datalen := u16 (msize mem) |>
    <| addr_high := ICE_HI_DWORD (pa mem) |>
    <| addr_low := ICE_LO_DWORD (pa mem) |>.

(** The loop of the two functions below: [n] more buffers from [i] on, [post]
    being done with each; the index that could not be allocated. *)
Fixpoint bufs_loop (post : Z → ice_dma_mem → M E unit) (size : Z) (n : nat) (p i : Z)
    : M E (option Z) :=
  match n with
  | O => mret None
  | S n' =>
      mem ← alloc_buf p i size;
      if va mem =? 0 then mret (Some i)
      else _ ← post i mem; bufs_loop post size n' p (i + 1)
  end.

(** [ice_free_dma_mem(hw, &bi[i])], where [mem] is the content of [bi[i]] *)
Definition free_buf (p i : Z) (mem : ice_dma_mem) : M E unit :=
  mem ← ice_free_dma_mem mem;
  wr_info p i mem.

(** Free the buffers [n] - 1, ..., 0. *)
Fixpoint unwind_bufs (n : nat) (p : Z) : M E unit :=
  match n with
  | O => mret tt
  | S n' =>
      mem ← rd_info p (Z.of_nat n');
      _ ← free_buf p (Z.of_nat n') mem;
      unwind_bufs n' p
  end.

Definition ice_alloc_rq_bufs (cq : ice_ctl_q_info) : M E (ice_status * ice_ctl_q_info) :=
  let n := Z.to_nat (num_rq_entries cq) in
  p ← ice_calloc (DmaInfo (replicate n dma_zero));
  let cq := cq <| rq ::= fun r => r <| dma_head := p |> |> in
  if p =? 0 then mret (ICE_ERR_NO_MEMORY, cq)
  else
    let cq := cq <| rq ::= fun r => r <| bi := p |> |> in
    failed ← bufs_loop (fun i mem =>
      wr_desc (va (desc_buf (rq cq))) i (rq_desc (rq_buf_size cq) mem)) (rq_buf_size cq) n p 0;
    match failed with
    | None => mret (ICE_SUCCESS, cq)
    | Some i =>
        _ ← unwind_bufs (Z.to_nat i) p;
        _ ← ice_free p;
        mret (ICE_ERR_NO_MEMORY, cq <| rq ::= fun r => r <| bi := 0 |> <| dma_head := 0 |> |>)
    end.

Definition ice_alloc_sq_bufs (cq : ice_ctl_q_info) : M E (ice_status * ice_ctl_q_info) :=
  let n := Z.to_nat (num_sq_entries cq) in
  p ← ice_calloc (DmaInfo (replicate n dma_zero));
  let cq := cq <| sq ::= fun r => r <| dma_head := p |> |> in
  if p =? 0 then mret (ICE_ERR_NO_MEMORY, cq)
  else
    let cq := cq <| sq ::= fun r => r <| bi := p |> |> in
    failed ← bufs_loop (fun _ _ => mret tt) (sq_buf_size cq) n p 0;
    match failed with
    | None => mret (ICE_SUCCESS, cq)
    | Some i =>
        _ ← unwind_bufs (Z.to_nat i) p;
        _ ← ice_free p;
        mret (ICE_ERR_NO_MEMORY, cq <| sq ::= fun r => r <| bi := 0 |> <| dma_head := 0 |> |>)
    end.

(** The loop of [ICE_FREE_CQ_BUFS]: buffers [i], [i] + 1, ... *)
Fixpoint free_bufs_loop (n : nat) (p i : Z) : M E unit :=
  match n with
  | O => mret tt
  | S n' =>
      mem ← rd_info p i;
      _ ← (if nz (pa mem) then free_buf p i mem else mret tt);
      free_bufs_loop n' p (i + 1)
  end.

Definition ICE_FREE_CQ_BUFS (ring : ice_ctl_q_ring) (num : Z) : M E unit :=
  _ ← (if nz (bi ring) then free_bufs_loop (Z.to_nat num) (bi ring) 0 else mret tt);
  _ ← ice_free (cmd_buf ring);
  ice_free (dma_head ring).

(** ** Set-up and tear-down *)

Definition ice_cfg_cq_regs (ring : ice_ctl_q_ring) (num_entries : Z) : M E ice_status :=
  _ ← wr32 (head ring) 0;
  _ ← wr32 (tail ring) 0;
  _ ← wr32 (len ring) (num_entries .| len_ena_mask ring);
  _ ← wr32 (bal ring) (ICE_LO_DWORD (pa (desc_buf ring)));
  _ ← wr32 (bah ring) (ICE_HI_DWORD (pa (desc_buf ring)));
  v ← rd32 (bal ring);
  mret (if v =? ICE_LO_DWORD (pa (desc_buf ring)) then ICE_SUCCESS else ICE_ERR_AQ_ERROR).

Definition ice_cfg_sq_regs (cq : ice_ctl_q_info) : M E ice_status :=
  ice_cfg_cq_regs (sq cq) (num_sq_entries cq).

Definition is_ok (s : ice_status) : bool := bool_decide (s = ICE_SUCCESS).

Definition ice_cfg_rq_regs (cq : ice_ctl_q_info) : M E ice_status :=
  status ← ice_cfg_cq_regs (rq cq) (num_rq_entries cq);
  if negb (is_ok status) then mret status
  else
    _ ← wr32 (tail (rq cq)) (u32 (num_rq_entries cq - 1));
    mret ICE_SUCCESS.

(** The exit [init_ctrlq_free_rings] of the two initialisations. *)
Definition free_sq (cq : ice_ctl_q_info) : M E ice_ctl_q_info :=
  _ ← ICE_FREE_CQ_BUFS (sq cq) (num_sq_entries cq);
  ring ← ice_free_cq_ring (sq cq);
  mret (cq <| sq := ring |>).

Definition free_rq (cq : ice_ctl_q_info) : M E ice_ctl_q_info :=
  _ ← ICE_FREE_CQ_BUFS (rq cq) (num_rq_entries cq);
  ring ← ice_free_cq_ring (rq cq);
  mret (cq <| rq := ring |>).

Definition ice_init_sq (cq : ice_ctl_q_info) : M E (ice_status * ice_ctl_q_info) :=
  if 0 <? count (sq cq) then mret (ICE_ERR_NOT_READY, cq)
  else if (num_sq_entries cq =? 0) || (sq_buf_size cq =? 0) then mret (ICE_ERR_CFG, cq)
  else
    let cq := cq <| sq ::= fun r => r <| next_to_use := 0 |> <| next_to_clean := 0 |> |> in
    '(ret_code, cq) ← ice_alloc_ctrlq_sq_ring cq;
    if negb (is_ok ret_code) then mret (ret_code, cq)
    else
      '(ret_code, cq) ← ice_alloc_sq_bufs cq;
      if negb (is_ok ret_code) then cq ← free_sq cq; mret (ret_code, cq)
      else
        ret_code ← ice_cfg_sq_regs cq;
        if negb (is_ok ret_code) then cq ← free_sq cq; mret (ret_code, cq)
        else mret (ICE_SUCCESS, cq <| sq ::= fun r => r <| count := num_sq_entries cq |> |>).

Definition ice_init_rq (cq : ice_ctl_q_info) : M E (ice_status * ice_ctl_q_info) :=
  if 0 <? count (rq cq) then mret (ICE_ERR_NOT_READY, cq)
  else if (num_rq_entries cq =? 0) || (rq_buf_size cq =? 0) then mret (ICE_ERR_CFG, cq)
  else
    let cq := cq <| rq ::= fun r => r <| next_to_use := 0 |> <| next_to_clean := 0 |> |> in
    '(ret_code, cq) ← ice_alloc_ctrlq_rq_ring cq;
    if negb (is_ok ret_code) then mret (ret_code, cq)
    else
      '(ret_code, cq) ← ice_alloc_rq_bufs cq;
      if negb (is_ok ret_code) then cq ← free_rq cq; mret (ret_code, cq)
      else
        ret_code ← ice_cfg_rq_regs cq;
        if negb (is_ok ret_code) then cq ← free_rq cq; mret (ret_code, cq)
        else mret (ICE_SUCCESS, cq <| rq ::= fun r => r <| count := num_rq_entries cq |> |>).

(** Locks: taking a lock that is held waits forever. *)
Definition acquire (held : bool) : M E unit := if held then out_of_fuel else mret tt.

(** [wr32] of zero to the five registers of a ring. *)
Definition stop_ring (r : ice_ctl_q_ring) : M E unit :=
  _ ← wr32 (head r) 0;
  _ ← wr32 (tail r) 0;
  _ ← wr32 (len r) 0;
  _ ← wr32 (bal r) 0;
  wr32 (bah r) 0.

Definition ice_shutdown_sq (cq : ice_ctl_q_info) : M E (ice_status * ice_ctl_q_info) :=
  _ ← acquire (sq_lock cq);
  let cq := cq <| sq_lock := true |> in
  '(ret_code, cq) ←
    (if count (sq cq) =? 0 then mret (ICE_ERR_NOT_READY, cq)
     else
       _ ← stop_ring (sq cq);
       let cq := cq <| sq ::= fun r => r <| count := 0 |> |> in
       cq ← free_sq cq;
       mret (ICE_SUCCESS, cq));
  mret (ret_code, cq <| sq_lock := false |>).

Definition ice_shutdown_rq (cq : ice_ctl_q_info) : M E (ice_status * ice_ctl_q_info) :=
  _ ← acquire (rq_lock cq);
  let cq := cq <| rq_lock := true |> in
  '(ret_code, cq) ←
    (if count (rq cq) =? 0 then mret (ICE_ERR_NOT_READY, cq)
     else
       _ ← stop_ring (rq cq);
       let cq := cq <| rq ::= fun r => r <| count := 0 |> |> in
       cq ← free_rq cq;
       mret (ICE_SUCCESS, cq));
  mret (ret_code, cq <| rq_lock := false |>).

(** ** Sending commands *)

Definition ICE_CTL_Q_DESC_UNUSED (r : ice_ctl_q_ring) : Z :=
  u16 ((if next_to_use r <? next_to_clean r then 0 else count r)
       + next_to_clean r - next_to_use r - 1).

(** The next index in a ring of [n] entries. *)
Definition next_idx (n i : Z) : Z := if u16 (i + 1) =? n then 0 else u16 (i + 1).

(** Clear a descriptor and the details of its command. *)
Definition clear_entry (r : ice_ctl_q_ring) (ntc : Z) : M E unit :=
  _ ← wr_desc (va (desc_buf r)) ntc desc_zero;
  wr_cd (cmd_buf r) ntc cd_zero.

Fixpoint clean_sq_loop (fuel : nat) (r : ice_ctl_q_ring) (ntc : Z) : M E Z :=
  match fuel with
  | O => out_of_fuel
  | S fuel' =>
      h ← rd32 (head r);
      if h =? ntc then mret ntc
      else
        _ ← clear_entry r ntc;
        clean_sq_loop fuel' r (next_idx (count r) ntc)
  end.

Definition ice_clean_sq (fuel : nat) (cq : ice_ctl_q_info) : M E (Z * ice_ctl_q_info) :=
  ntc ← clean_sq_loop fuel (sq cq) (next_to_clean (sq cq));
  let cq := cq <| sq ::= fun r => r <| next_to_clean := ntc |> |> in
  mret (ICE_CTL_Q_DESC_UNUSED (sq cq), cq).

Definition ice_sq_done (cq : ice_ctl_q_info) : M E bool :=
  h ← rd32 (head (sq cq));
  mret (h =? next_to_use (sq cq)).

(** The polling loop: at most [n] tests. *)
Fixpoint wait_done (n : nat) (cq : ice_ctl_q_info) : M E unit :=
  match n with
  | O => mret tt
  | S n' => d ← ice_sq_done cq; if d : bool then mret tt else wait_done n' cq
  end.

(** The caller's descriptor with the buffer flags. *)
Definition buf_flags (buf_size : Z) (desc : ice_aq_desc) : ice_aq_desc :=
  desc <| flags := let f := flags desc .| ICE_AQ_FLAG_BUF in
                   if ICE_AQ_LG_BUF <? buf_size then f .| ICE_AQ_FLAG_LB else f |>.

(** Fill the descriptor and the buffer at [next_to_use], and hand them to the
    device by moving the tail. *)
Definition sq_post (cq : ice_ctl_q_info) (desc : ice_aq_desc) (buf : option (list Z)) (buf_size : Z)
    : M E ice_ctl_q_info :=
  let slot := next_to_use (sq cq) in
  let ring := va (desc_buf (sq cq)) in
  _ ← wr_desc ring slot desc;
  _ ← (match buf with
       | None => mret tt
       | Some b =>
           mem ← rd_info (bi (sq cq)) slot;
           bytes ← of_option (bytes_at (Z.to_nat buf_size) b 0);
           _ ← wr_data (va mem) bytes;
           wr_desc ring slot (desc <| datalen := buf_size |>
             <| addr_high := ICE_HI_DWORD (pa mem) |> <| addr_low := ICE_LO_DWORD (pa mem) |>)
       end);
  let cq := cq <| sq ::= fun r => r <| next_to_use := next_idx (count r) (next_to_use r) |> |> in
  _ ← wr32 (tail (sq cq)) (next_to_use (sq cq));
  mret cq.

(** Copy the completed descriptor and the buffer back to the caller. *)
Definition sq_collect (cq : ice_ctl_q_info) (slot : Z) (buf : option (list Z)) (buf_size : Z)
    : M E (ice_status * ice_aq_desc * option (list Z) * ice_ctl_q_info) :=
  desc ← rd_desc (va (desc_buf (sq cq))) slot;
  '(status, buf) ←
    (match buf with
     | None => mret (ICE_SUCCESS, None)
     | Some b =>
         let copy_size := datalen desc in
         if buf_size <? copy_size then mret (ICE_ERR_AQ_ERROR, Some b)
         else
           mem ← rd_info (bi (sq cq)) slot;
           bytes ← rd_data (va mem) copy_size;
           mret (ICE_SUCCESS, Some (bytes ++ drop (length bytes) b))
     end);
  let rc := if nz (retval desc) then retval desc .& 0xff else retval desc in
  let status := if is_ok status && negb (rc =? ICE_AQ_RC_OK) then ICE_ERR_AQ_ERROR else status in
  mret (status, desc, buf, cq <| sq_last_status := rc |>).

(** Save the completed descriptor where the caller of an earlier or of this
    command asked for it. *)
Definition sq_write_back (cq : ice_ctl_q_info) (slot : Z) : M E unit :=
  details ← rd_cd (cmd_buf (sq cq)) slot;
  if nz (wb_desc details) then
    d ← rd_desc (va (desc_buf (sq cq))) slot;
    wr_desc (wb_desc details) 0 d
  else mret tt.

(** The status of a command that has not completed. *)
Definition sq_timeout_status (cq : ice_ctl_q_info) : M E ice_status :=
  rl ← rd32 (len (rq cq));
  crit ← (if nz (rl .& len_crit_mask (rq cq)) then mret true
          else sl ← rd32 (len (sq cq)); mret (nz (sl .& len_crit_mask (sq cq))));
  mret (if crit : bool then ICE_ERR_AQ_FW_CRITICAL else ICE_ERR_AQ_TIMEOUT).

(** From the polling loop to the end of [ice_sq_send_cmd_nolock]. *)
Definition sq_finish (cq : ice_ctl_q_info) (slot : Z) (desc : ice_aq_desc)
    (buf : option (list Z)) (buf_size : Z)
    : M E (ice_status * ice_aq_desc * option (list Z) * ice_ctl_q_info) :=
  _ ← wait_done (Z.to_nat (Z.max 1 (sq_cmd_timeout cq))) cq;
  completed ← ice_sq_done cq;
  '(status, desc, buf, cq) ←
    (if completed : bool then sq_collect cq slot buf buf_size
     else mret (ICE_SUCCESS, desc, buf, cq));
  _ ← sq_write_back cq slot;
  status ← (if completed : bool then mret status else sq_timeout_status cq);
  mret (status, desc, buf, cq).

(** [desc] and [buf] are updated in place in the source and returned here. *)
Definition ice_sq_send_cmd_nolock (fuel : nat) (reset_ongoing : bool) (cq : ice_ctl_q_info)
    (desc : ice_aq_desc) (buf : option (list Z)) (buf_size : Z) (cd : option ice_sq_cd)
    : M E (ice_status * ice_aq_desc * option (list Z) * ice_ctl_q_info) :=
  if reset_ongoing then mret (ICE_ERR_RESET_ONGOING, desc, buf, cq)
  else
    let cq := cq <| sq_last_status := ICE_AQ_RC_OK |> in
    if count (sq cq) =? 0 then mret (ICE_ERR_AQ_EMPTY, desc, buf, cq)
    else if (bool_decide (is_Some buf) && (buf_size =? 0)) ||
            (bool_decide (buf = None) && nz buf_size) then mret (ICE_ERR_PARAM, desc, buf, cq)
    else if bool_decide (is_Some buf) && (sq_buf_size cq <? buf_size) then
      mret (ICE_ERR_INVAL_SIZE, desc, buf, cq)
    else
      let desc := match buf with Some _ => buf_flags buf_size desc | None => desc end in
      val ← rd32 (head (sq cq));
      if num_sq_entries cq <=? val then mret (ICE_ERR_AQ_EMPTY, desc, buf, cq)
      else
        let slot := next_to_use (sq cq) in
        _ ← wr_cd (cmd_buf (sq cq)) slot (default cd_zero cd);
        '(unused, cq) ← ice_clean_sq fuel cq;
        if unused =? 0 then mret (ICE_ERR_AQ_FULL, desc, buf, cq)
        else
          cq ← sq_post cq desc buf buf_size;
          sq_finish cq slot desc buf buf_size.

Definition ice_sq_send_cmd (fuel : nat) (reset_ongoing : bool) (cq : ice_ctl_q_info)
    (desc : ice_aq_desc) (buf : option (list Z)) (buf_size : Z) (cd : option ice_sq_cd)
    : M E (ice_status * ice_aq_desc * option (list Z) * ice_ctl_q_info) :=
  if reset_ongoing then mret (ICE_ERR_RESET_ONGOING, desc, buf, cq)
  else
    _ ← acquire (sq_lock cq);
    '(status, desc, buf, cq) ←
      ice_sq_send_cmd_nolock fuel reset_ongoing (cq <| sq_lock := true |>) desc buf buf_size cd;
    mret (status, desc, buf, cq <| sq_lock := false |>).

Definition ice_fill_dflt_direct_cmd_desc (op : Z) : ice_aq_desc :=
  desc_zero <| opcode := u16 op |> <| flags := ICE_AQ_FLAG_SI |>.

Definition ice_should_retry_sq_send_cmd (op : Z) : bool :=
  (op =? 0x06E0) || (op =? 0x0A05) || (op =? 0x0A06) || (op =? 0x0A0A).

(** The do-while loop of [ice_sq_send_cmd_retry]: [n] more attempts; [buf_cpy] is
    the content of the copy of the buffer. *)
Fixpoint retry_loop (n fuel : nat) (reset_ongoing is_cmd_for_retry : bool) (cq : ice_ctl_q_info)
    (desc : ice_aq_desc) (buf : option (list Z)) (buf_size : Z) (cd : option ice_sq_cd)
    (desc_cpy : ice_aq_desc) (buf_cpy : option (list Z))
    : M E (ice_status * ice_aq_desc * option (list Z) * ice_ctl_q_info) :=
  '(status, desc, buf, cq) ← ice_sq_send_cmd fuel reset_ongoing cq desc buf buf_size cd;
  if negb is_cmd_for_retry || is_ok status || negb (sq_last_status cq =? ICE_AQ_RC_EBUSY)
  then mret (status, desc, buf, cq)
  else
    let buf := match buf_cpy, buf with
               | Some c, Some b => Some (c ++ drop (length c) b)
               | _, _ => buf
               end in
    match n with
    | O => mret (status, desc_cpy, buf, cq)
    | S n' => retry_loop n' fuel reset_ongoing is_cmd_for_retry cq desc_cpy buf buf_size cd
                desc_cpy buf_cpy
    end.

(** The copy of the buffer comes from [ice_malloc], which clears it, and nothing
    is stored in it. *)
Definition ice_sq_send_cmd_retry (fuel : nat) (reset_ongoing : bool) (cq : ice_ctl_q_info)
    (desc : ice_aq_desc) (buf : option (list Z)) (buf_size : Z) (cd : option ice_sq_cd)
    : M E (ice_status * ice_aq_desc * option (list Z) * ice_ctl_q_info) :=
  let is_cmd_for_retry := ice_should_retry_sq_send_cmd (opcode desc) in
  p ← (if is_cmd_for_retry && bool_decide (is_Some buf)
       then ice_malloc buf_size else mret 0);
  if is_cmd_for_retry && bool_decide (is_Some buf) && (p =? 0) then
    mret (ICE_ERR_NO_MEMORY, desc, buf, cq)
  else
    let desc_cpy := if is_cmd_for_retry then desc else desc_zero in
    buf_cpy ← (if p =? 0 then mret None else b ← rd_data p buf_size; mret (Some b));
    r ← retry_loop (ICE_SQ_SEND_MAX_EXECUTE - 1) fuel reset_ongoing is_cmd_for_retry cq desc buf
          buf_size cd desc_cpy buf_cpy;
    _ ← ice_free p;
    mret r.

(** A call of the function that replaces the admin queue. *)
Definition call_hook (fn : ice_aq_desc → option (list Z) → Z → E →
      Z * ice_aq_desc * option (list Z) * E)
    (desc : ice_aq_desc) (buf : option (list Z)) (buf_size : Z)
    : M E (Z * ice_aq_desc * option (list Z)) := fun w =>
  let '(r, e) := fn desc buf buf_size (env w) in Ret (r, mkWorld (heap w) (fresh w) e).

Definition ice_aq_send_cmd (fuel : nat) (reset_ongoing : bool) (adminq : ice_ctl_q_info)
    (desc : ice_aq_desc) (buf : option (list Z)) (buf_size : Z) (cd : option ice_sq_cd)
    : M E (ice_status * ice_aq_desc * option (list Z) * ice_ctl_q_info) :=
  match aq_send_cmd_fn with
  | Some fn =>
      _ ← acquire (sq_lock adminq);
      '(r, desc, buf) ← call_hook fn desc buf buf_size;
      let rc := if r =? 0 then
                  (if nz (retval desc) then retval desc .& 0xff else retval desc)
                else ICE_AQ_RC_OK in
      let status := if r =? 0 then
                      (if rc =? ICE_AQ_RC_OK then ICE_SUCCESS else ICE_ERR_AQ_ERROR)
                    else ICE_ERR_NOT_READY in
      mret (status, desc, buf, adminq <| sq_last_status := rc |>)
  | None => ice_sq_send_cmd_retry fuel reset_ongoing adminq desc buf buf_size cd
  end.

(** ** Receiving events *)

(** The part of [ice_clean_rq_elem] between the two labels: take the event at
    [ntc], post its buffer again and move the tail; the result is the status,
    the event and the new [next_to_clean]. *)
Definition rq_take (cq : ice_ctl_q_info) (e : ice_rq_event_info) (ntc ntu : Z)
    : M E (ice_status * ice_rq_event_info * Z * ice_ctl_q_info) :=
  let ring := va (desc_buf (rq cq)) in
  desc ← rd_desc ring ntc;
  let ret_code := if nz (flags desc .& ICE_AQ_FLAG_ERR) then ICE_ERR_AQ_ERROR else ICE_SUCCESS in
  let e := e <| e_desc := desc |> <| msg_len := Z.min (datalen desc) (buf_len e) |> in
  mem ← rd_info (bi (rq cq)) ntc;
  e ← (match msg_buf e with
       | Some b =>
           if nz (msg_len e) then
             bytes ← rd_data (va mem) (msg_len e);
             mret (e <| msg_buf := Some (bytes ++ drop (length bytes) b) |>)
           else mret e
       | None => mret e
       end);
  _ ← wr_desc ring ntc (rq_desc (rq_buf_size cq) mem);
  _ ← wr32 (tail (rq cq)) ntc;
  let ntc := next_idx (num_rq_entries cq) ntc in
  mret (ret_code, e, ntc,
    cq <| rq ::= fun r => r <| next_to_clean := ntc |> <| next_to_use := ntu |> |>).

(** [pending] says whether the caller wants the number of events left. *)
Definition ice_clean_rq_elem (cq : ice_ctl_q_info) (e : ice_rq_event_info) (pending : bool)
    : M E (ice_status * ice_rq_event_info * option Z * ice_ctl_q_info) :=
  let ntc := next_to_clean (rq cq) in
  let e := e <| e_desc := desc_zero |> in
  _ ← acquire (rq_lock cq);
  let cq := cq <| rq_lock := true |> in
  if count (rq cq) =? 0 then mret (ICE_ERR_AQ_EMPTY, e, None, cq <| rq_lock := false |>)
  else
    h ← rd32 (head (rq cq));
    let ntu := u16 (h .& head_mask (rq cq)) in
    '(ret_code, e, ntc, cq) ←
      (if ntu =? ntc then mret (ICE_ERR_AQ_NO_WORK, e, ntc, cq) else rq_take cq e ntc ntu);
    p ← (if pending then
           h ← rd32 (head (rq cq));
           let ntu := u16 (h .& head_mask (rq cq)) in
           mret (Some (u16 ((if ntu <? ntc then count (rq cq) else 0) + (ntu - ntc))))
         else mret None);
    mret (ret_code, e, p, cq <| rq_lock := false |>).

(** ** All control queues *)

Record ice_hw := mkCtlHw {
  adminq : ice_ctl_q_info;
  mailboxq : ice_ctl_q_info;
  sbq : ice_ctl_q_info;
  reset_ongoing : bool;
  mac_type : ice_mac_type;
  fw_branch : Z; fw_maj_ver : Z; fw_min_ver : Z; fw_patch : Z; fw_build : Z;
  api_branch : Z; api_maj_ver : Z; api_min_ver : Z; api_patch : Z
}.

#[local] Instance hw_settable : Settable ice_hw := fun r =>
  mkCtlHw (adminq r) (mailboxq r) (sbq r) (reset_ongoing r) (mac_type r) (fw_branch r)
    (fw_maj_ver r) (fw_min_ver r) (fw_patch r) (fw_build r) (api_branch r) (api_maj_ver r)
    (api_min_ver r) (api_patch r).

(** Byte [i] of a 32-bit word of the descriptor parameters. *)
Definition word_byte (v i : Z) : Z := u8 (v .>> (8 * i)).

Definition ice_aq_get_fw_ver (fuel : nat) (hw : ice_hw) (cd : option ice_sq_cd)
    : M E (ice_status * ice_hw) :=
  let desc := ice_fill_dflt_direct_cmd_desc 0x0001 in
  '(status, desc, _, cq) ← ice_aq_send_cmd fuel (reset_ongoing hw) (adminq hw) desc None 0 cd;
  let hw := hw <| adminq := cq |> in
  if is_ok status then
    mret (status, hw <| fw_build := param1 desc |>
      <| fw_branch := word_byte (addr_high desc) 0 |> <| fw_maj_ver := word_byte (addr_high desc) 1 |>
      <| fw_min_ver := word_byte (addr_high desc) 2 |> <| fw_patch := word_byte (addr_high desc) 3 |>
      <| api_branch := word_byte (addr_low desc) 0 |> <| api_maj_ver := word_byte (addr_low desc) 1 |>
      <| api_min_ver := word_byte (addr_low desc) 2 |> <| api_patch := word_byte (addr_low desc) 3 |>)
  else mret (status, hw).

Definition ice_aq_q_shutdown (fuel : nat) (hw : ice_hw) (unloading : bool)
    : M E (ice_status * ice_hw) :=
  let desc := ice_fill_dflt_direct_cmd_desc 0x0003 in
  let desc := if unloading then desc <| param0 := 1 |> else desc in
  '(status, _, _, cq) ← ice_aq_send_cmd fuel (reset_ongoing hw) (adminq hw) desc None 0 None;
  mret (status, hw <| adminq := cq |>).

Definition ice_aq_ver_check (hw : ice_hw) : bool := negb (EXP_FW_API_VER_MAJOR <? api_maj_ver hw).

Definition ice_init_check_adminq (fuel : nat) (hw : ice_hw) : M E (ice_status * ice_hw) :=
  '(status, hw) ← ice_aq_get_fw_ver fuel hw None;
  let status := if is_ok status && negb (ice_aq_ver_check hw) then ICE_ERR_FW_API_VER else status in
  if is_ok status then mret (ICE_SUCCESS, hw)
  else
    '(_, cq) ← ice_shutdown_rq (adminq hw);
    '(_, cq) ← ice_shutdown_sq cq;
    mret (status, hw <| adminq := cq |>).

(** The queue of a type and its register set-up. *)
Definition get_cq (hw : ice_hw) (q : ice_ctl_q) : option ice_ctl_q_info :=
  match q with
  | ICE_CTL_Q_ADMIN => Some (adminq hw)
  | ICE_CTL_Q_SB => Some (sbq hw)
  | ICE_CTL_Q_MAILBOX => Some (mailboxq hw)
  | ICE_CTL_Q_UNKNOWN => None
  end.

Definition set_cq (hw : ice_hw) (q : ice_ctl_q) (cq : ice_ctl_q_info) : ice_hw :=
  match q with
  | ICE_CTL_Q_ADMIN => hw <| adminq := cq |>
  | ICE_CTL_Q_SB => hw <| sbq := cq |>
  | ICE_CTL_Q_MAILBOX => hw <| mailboxq := cq |>
  | ICE_CTL_Q_UNKNOWN => hw
  end.

Definition init_regs (q : ice_ctl_q) (cq : ice_ctl_q_info) : ice_ctl_q_info :=
  match q with
  | ICE_CTL_Q_ADMIN => ice_adminq_init_regs cq
  | ICE_CTL_Q_SB => ice_sb_init_regs cq
  | ICE_CTL_Q_MAILBOX => ice_mailbox_init_regs cq
  | ICE_CTL_Q_UNKNOWN => cq
  end.

Definition ice_init_ctrlq (hw : ice_hw) (q_type : ice_ctl_q) : M E (ice_status * ice_hw) :=
  match get_cq hw q_type with
  | None => mret (ICE_ERR_PARAM, hw)
  | Some cq =>
      let cq := init_regs q_type cq <| qtype := q_type |> in
      if (num_rq_entries cq =? 0) || (num_sq_entries cq =? 0) ||
         (rq_buf_size cq =? 0) || (sq_buf_size cq =? 0)
      then mret (ICE_ERR_CFG, set_cq hw q_type cq)
      else
        let cq := cq <| sq_cmd_timeout := ICE_CTL_Q_SQ_CMD_TIMEOUT |> in
        '(ret_code, cq) ← ice_init_sq cq;
        if negb (is_ok ret_code) then mret (ret_code, set_cq hw q_type cq)
        else
          '(ret_code, cq) ← ice_init_rq cq;
          if negb (is_ok ret_code) then
            '(_, cq) ← ice_shutdown_sq cq;
            mret (ret_code, set_cq hw q_type cq)
          else mret (ICE_SUCCESS, set_cq hw q_type cq)
  end.

Definition ice_is_generic_mac (hw : ice_hw) : bool :=
  match mac_type hw with
  | ICE_MAC_GENERIC | ICE_MAC_GENERIC_3K | ICE_MAC_GENERIC_3K_E825 => true
  | _ => false
  end.

Definition ice_is_sbq_supported (hw : ice_hw) : bool := ice_is_generic_mac hw.

Definition ice_shutdown_ctrlq (fuel : nat) (hw : ice_hw) (q_type : ice_ctl_q) (unloading : bool)
    : M E ice_hw :=
  hw ← (match q_type with
        | ICE_CTL_Q_ADMIN =>
            alive ← ice_check_sq_alive (adminq hw);
            if alive : bool then '(_, hw) ← ice_aq_q_shutdown fuel hw unloading; mret hw
            else mret hw
        | _ => mret hw
        end);
  match get_cq hw q_type with
  | None => mret hw
  | Some cq =>
      '(_, cq) ← ice_shutdown_sq cq;
      '(_, cq) ← ice_shutdown_rq cq;
      mret (set_cq hw q_type cq)
  end.

Definition ice_shutdown_all_ctrlq (fuel : nat) (hw : ice_hw) (unloading : bool) : M E ice_hw :=
  hw ← ice_shutdown_ctrlq fuel hw ICE_CTL_Q_ADMIN unloading;
  hw ← (if ice_is_sbq_supported hw then ice_shutdown_ctrlq fuel hw ICE_CTL_Q_SB unloading
        else mret hw);
  ice_shutdown_ctrlq fuel hw ICE_CTL_Q_MAILBOX unloading.

(** The retries of the admin queue: [n] more after this one. *)
Fixpoint init_adminq_loop (n fuel : nat) (hw : ice_hw) : M E (ice_status * ice_hw) :=
  '(status, hw) ← ice_init_ctrlq hw ICE_CTL_Q_ADMIN;
  if negb (is_ok status) then mret (status, hw)
  else
    '(status, hw) ← ice_init_check_adminq fuel hw;
    if negb (bool_decide (status = ICE_ERR_AQ_FW_CRITICAL)) then mret (status, hw)
    else
      hw ← ice_shutdown_ctrlq fuel hw ICE_CTL_Q_ADMIN true;
      match n with
      | O => mret (status, hw)
      | S n' => init_adminq_loop n' fuel hw
      end.

Definition ice_init_all_ctrlq (fuel : nat) (hw : ice_hw) : M E (ice_status * ice_hw) :=
  '(status, hw) ← init_adminq_loop ICE_CTL_Q_ADMIN_INIT_TIMEOUT fuel hw;
  if negb (is_ok status) then mret (status, hw)
  else
    '(status, hw) ← (if ice_is_sbq_supported hw then ice_init_ctrlq hw ICE_CTL_Q_SB
                     else mret (ICE_SUCCESS, hw));
    if negb (is_ok status) then mret (status, hw)
    else ice_init_ctrlq hw ICE_CTL_Q_MAILBOX.

(** A spin lock starts released. *)
Definition ice_init_ctrlq_locks (cq : ice_ctl_q_info) : ice_ctl_q_info :=
  cq <| sq_lock := false |> <| rq_lock := false |>.

Definition ice_create_all_ctrlq (fuel : nat) (hw : ice_hw) : M E (ice_status * ice_hw) :=
  let hw := hw <| adminq ::= ice_init_ctrlq_locks |> in
  let hw := if ice_is_sbq_supported hw then hw <| sbq ::= ice_init_ctrlq_locks |> else hw in
  let hw := hw <| mailboxq ::= ice_init_ctrlq_locks |> in
  ice_init_all_ctrlq fuel hw.

(** Destroying a spin lock does nothing. *)
Definition ice_destroy_all_ctrlq (fuel : nat) (hw : ice_hw) : M E ice_hw :=
  ice_shutdown_all_ctrlq fuel hw true.

End ops.
