(* ===== verification/IceCtlqSpec.v ===== *)
(** * Correctness of the control queues

    The send queue keeps its ring invariant with every device that moves its head
    towards the tail, cleaning it terminates, and a command is in the ring with
    its buffer when the tail moves.  Receiving an event copies it to the caller
    and posts its buffer again. *)
From S2P Require Import Prelude IceStatus IceCtlq.
Local Open Scope Z_scope.

(** ** Reasoning about computations *)

(** [m] returns from [w], with a result that satisfies [Q]. *)
Definition wp {E A} (m : M E A) (w : world E) (Q : A → world E → Prop) : Prop :=
  match m w with Ret (a, w') => Q a w' | _ => False end.

Section wp.
Context {E : Type}.
Implicit Types (w : world E).

Lemma wp_ret {A} (a : A) w (Q : A → world E → Prop) : Q a w → wp (mret a) w Q.
Proof. done. Qed.

Lemma wp_bind {A B} (f : A → M E B) m w (Q : B → world E → Prop) :
  wp m w (fun a w' => wp (f a) w' Q) → wp (m ≫= f) w Q.
Proof.
  unfold wp, mbind, M_bind. destruct (m w) as [[a w']| |]; done.
Qed.

Lemma wp_mono {A} (m : M E A) w (Q Q' : A → world E → Prop) :
  wp m w Q → (∀ a w', Q a w' → Q' a w') → wp m w Q'.
Proof. unfold wp. destruct (m w) as [[a w']| |]; auto. Qed.

Lemma wp_of_option {A} (o : option A) a w (Q : A → world E → Prop) :
  o = Some a → Q a w → wp (of_option o) w Q.
Proof. by intros ->. Qed.

Lemma wp_inv {A} (m : M E A) w (Q : A → world E → Prop) :
  wp m w Q → ∃ a w', m w = Ret (a, w') ∧ Q a w'.
Proof. unfold wp. destruct (m w) as [[a w']| |]; [eauto|done..]. Qed.

Lemma wp_get_block p b w (Q : block → world E → Prop) :
  heap w !! p = Some b → Q b w → wp (get_block p) w Q.
Proof. intros Hp HQ. unfold wp, get_block. by rewrite Hp. Qed.

Definition set_heap (w : world E) (h : heap_t) : world E := mkWorld h (fresh w) (env w).

Lemma wp_put_block p b b' w (Q : unit → world E → Prop) :
  heap w !! p = Some b → Q tt (set_heap w (<[p := b']> (heap w))) → wp (put_block p b') w Q.
Proof. intros Hp HQ. unfold wp, put_block. by rewrite Hp. Qed.

Lemma wp_rd_desc p i ds d w (Q : ice_aq_desc → world E → Prop) :
  heap w !! p = Some (Descs ds) → rd ds i = Some d → Q d w → wp (rd_desc p i) w Q.
Proof.
  intros Hp Hd HQ. eapply wp_bind, wp_get_block; [done|]. by eapply wp_of_option.
Qed.

Lemma wp_wr_desc p i ds d w (Q : unit → world E → Prop) :
  heap w !! p = Some (Descs ds) → 0 <= i < Z.of_nat (length ds) →
  Q tt (set_heap w (<[p := Descs (<[Z.to_nat i := d]> ds)]> (heap w))) →
  wp (wr_desc p i d) w Q.
Proof.
  intros Hp Hi HQ. eapply wp_bind, wp_get_block; [done|]. cbn beta iota.
  eapply wp_bind, wp_of_option; [by apply wr_in_range|]. by eapply wp_put_block.
Qed.

Lemma wp_rd_info p i l m w (Q : ice_dma_mem → world E → Prop) :
  heap w !! p = Some (DmaInfo l) → rd l i = Some m → Q m w → wp (rd_info p i) w Q.
Proof.
  intros Hp Hd HQ. eapply wp_bind, wp_get_block; [done|]. by eapply wp_of_option.
Qed.

Lemma wp_wr_info p i l m w (Q : unit → world E → Prop) :
  heap w !! p = Some (DmaInfo l) → 0 <= i < Z.of_nat (length l) →
  Q tt (set_heap w (<[p := DmaInfo (<[Z.to_nat i := m]> l)]> (heap w))) →
  wp (wr_info p i m) w Q.
Proof.
  intros Hp Hi HQ. eapply wp_bind, wp_get_block; [done|]. cbn beta iota.
  eapply wp_bind, wp_of_option; [by apply wr_in_range|]. by eapply wp_put_block.
Qed.

Lemma wp_rd_cd p i l c w (Q : ice_sq_cd → world E → Prop) :
  heap w !! p = Some (CmdBuf l) → rd l i = Some c → Q c w → wp (rd_cd p i) w Q.
Proof.
  intros Hp Hd HQ. eapply wp_bind, wp_get_block; [done|]. by eapply wp_of_option.
Qed.

Lemma wp_wr_cd p i l c w (Q : unit → world E → Prop) :
  heap w !! p = Some (CmdBuf l) → 0 <= i < Z.of_nat (length l) →
  Q tt (set_heap w (<[p := CmdBuf (<[Z.to_nat i := c]> l)]> (heap w))) →
  wp (wr_cd p i c) w Q.
Proof.
  intros Hp Hi HQ. eapply wp_bind, wp_get_block; [done|]. cbn beta iota.
  eapply wp_bind, wp_of_option; [by apply wr_in_range|]. by eapply wp_put_block.
Qed.

Lemma wp_rd_data p k bs w (Q : list Z → world E → Prop) :
  heap w !! p = Some (Data bs) → k <= Z.of_nat (length bs) →
  Q (take (Z.to_nat k) bs) w → wp (rd_data p k) w Q.
Proof.
  intros Hp Hk HQ. eapply wp_bind, wp_get_block; [done|]. cbn beta iota.
  eapply wp_of_option; [|done]. unfold bytes_at.
  rewrite (proj2 (Z.leb_le _ _)), (proj2 (Z.leb_le _ _)) by lia. done.
Qed.

Lemma wp_wr_data p bs new w (Q : unit → world E → Prop) :
  heap w !! p = Some (Data bs) → (length new <= length bs)%nat →
  Q tt (set_heap w (<[p := Data (new ++ drop (length new) bs)]> (heap w))) →
  wp (wr_data p new) w Q.
Proof.
  intros Hp Hl HQ. eapply wp_bind, wp_get_block; [done|]. cbn beta iota.
  rewrite (proj2 (Nat.leb_le _ _)) by done. by eapply wp_put_block.
Qed.
End wp.

(** ** Heaps of the same shape *)

Lemma elem_insert_inv {A} (l : list A) i x c : c ∈ <[i := x]> l → c = x ∨ c ∈ l.
Proof.
  intros (k & Hk)%list_elem_of_lookup. destruct (decide (i = k)) as [->|].
  - left. assert (k < length l)%nat as Hlt
      by (apply lookup_lt_Some in Hk; by rewrite length_insert in Hk).
    rewrite list_lookup_insert_eq in Hk by done. congruence.
  - right. rewrite list_lookup_insert_ne in Hk by done. by eapply list_elem_of_lookup_2.
Qed.

(** A pointer to which a completed descriptor can be written. *)
Definition wb_ok (h : heap_t) (p : Z) : Prop := p = 0 ∨ ∃ d ds, h !! p = Some (Descs (d :: ds)).

(** A block may change its contents but not its kind and size; buffer addresses
    stay, and write-back pointers stay or are valid. *)
Definition block_compat (h : heap_t) (b b' : block) : Prop :=
  match b, b' with
  | Descs ds, Descs ds' => length ds' = length ds
  | Data bs, Data bs' => length bs' = length bs
  | DmaInfo l, DmaInfo l' => l' = l
  | CmdBuf l, CmdBuf l' => length l' = length l ∧ ∀ c, c ∈ l' → c ∈ l ∨ wb_ok h (wb_desc c)
  | _, _ => False
  end.

Definition compat (h h' : heap_t) : Prop := ∀ p,
  match h !! p, h' !! p with
  | Some b, Some b' => block_compat h b b'
  | None, None => True
  | _, _ => False
  end.

Lemma compat_refl h : compat h h.
Proof. intros p. destruct (h !! p) as [[]|]; simpl; auto. Qed.

Lemma compat_lookup h h' p b : compat h h' → h !! p = Some b →
  ∃ b', h' !! p = Some b' ∧ block_compat h b b'.
Proof. intros Hc Hp. specialize (Hc p). rewrite Hp in Hc. destruct (h' !! p); [eauto|done]. Qed.

Lemma wb_ok_compat h h' p : compat h h' → wb_ok h' p ↔ wb_ok h p.
Proof.
  intros Hc. unfold wb_ok. specialize (Hc p).
  destruct (h !! p) as [[[|]| | |]|] eqn:E1, (h' !! p) as [[[|]| | |]|] eqn:E2; simpl in Hc;
    naive_solver.
Qed.

Lemma compat_trans h1 h2 h3 : compat h1 h2 → compat h2 h3 → compat h1 h3.
Proof.
  intros H12 H23 p. pose proof (H12 p) as A. pose proof (H23 p) as B.
  destruct (h1 !! p) as [b1|], (h2 !! p) as [b2|], (h3 !! p) as [b3|]; try done.
  destruct b1, b2, b3; simpl in *; try done; try congruence.
  destruct A as [? A], B as [? B]. split; [congruence|]. intros c Hc.
  destruct (B c Hc) as [Hc'|Hw]; [auto|]. right. by apply (wb_ok_compat _ _ _ H12).
Qed.

Lemma compat_insert h p b b' : h !! p = Some b → block_compat h b b' → compat h (<[p := b']> h).
Proof.
  intros Hp Hb q. destruct (decide (p = q)) as [<-|].
  - by rewrite Hp, lookup_insert_eq.
  - rewrite lookup_insert_ne by done. apply compat_refl.
Qed.

#[export] Instance compat_preorder : PreOrder compat.
Proof. split; [intros ?; apply compat_refl|intros ???; apply compat_trans]. Qed.

(** ** Rings *)

(** The number of steps from [a] to [b] in a ring of [n] entries. *)
Definition dist (n a b : Z) : Z := (b - a) mod n.

Lemma dist_bound n a b : 0 < n → 0 <= dist n a b < n.
Proof. intros. by apply Z.mod_pos_bound. Qed.

Lemma dist_cases n a b : 0 <= a < n → 0 <= b < n →
  dist n a b = if a <=? b then b - a else b - a + n.
Proof.
  intros Ha Hb. unfold dist. destruct (Z.leb_spec a b).
  - apply Z.mod_small. lia.
  - rewrite <- (Z.mod_add _ 1 n), Z.mul_1_l by lia. apply Z.mod_small. lia.
Qed.

Ltac dist_lia := rewrite ?dist_cases in * by lia;
  repeat match goal with |- context [Z.leb ?x ?y] => destruct (Z.leb_spec x y)
  | H : context [Z.leb ?x ?y] |- _ => destruct (Z.leb_spec x y) end; try lia.

Lemma next_idx_spec n i : 0 <= i < n → n < 65536 →
  next_idx n i = (if i + 1 =? n then 0 else i + 1) ∧ 0 <= next_idx n i < n.
Proof.
  intros Hi Hn. unfold next_idx. rewrite !(wrap_small 16 (i + 1))
    by (unfold in_width; change (2 ^ 16) with 65536; lia).
  destruct (Z.eqb_spec (i + 1) n); split; done || lia.
Qed.

Lemma dist_next n a b : 0 <= a < n → 0 <= b < n → n < 65536 → a ≠ b →
  dist n (next_idx n a) b = dist n a b - 1.
Proof.
  intros Ha Hb Hn Hne. destruct (next_idx_spec n a) as [-> Hr]; [done..|].
  destruct (Z.eqb_spec (a + 1) n); dist_lia.
Qed.

Lemma dist_succ n a b : 0 <= a < n → 0 <= b < n → n < 65536 → dist n a b ≠ n - 1 →
  dist n a (next_idx n b) = dist n a b + 1.
Proof.
  intros Ha Hb Hn Hne. destruct (next_idx_spec n b) as [-> Hr]; [done..|].
  destruct (Z.eqb_spec (b + 1) n); dist_lia.
Qed.

Lemma dist_eq n a a' b : 0 <= a < n → 0 <= a' < n → 0 <= b < n →
  dist n a b = dist n a' b → a = a'.
Proof. intros. dist_lia. Qed.

Lemma desc_unused_spec r n : count r = n → 0 < n < 65536 →
  0 <= next_to_use r < n → 0 <= next_to_clean r < n →
  ICE_CTL_Q_DESC_UNUSED r = n - 1 - dist n (next_to_clean r) (next_to_use r).
Proof.
  intros <- Hn Hu Hc. unfold ICE_CTL_Q_DESC_UNUSED.
  destruct (Z.ltb_spec (next_to_use r) (next_to_clean r)).
  - rewrite wrap_small by (unfold in_width; change (2 ^ 16) with 65536; lia). dist_lia.
  - rewrite wrap_small by (unfold in_width; change (2 ^ 16) with 65536; lia). dist_lia.
Qed.

(** ** Devices

    What the send queue relies on: the device writes only to descriptors and data
    buffers, and it moves the head of the ring, never past the tail that the
    driver wrote last.  [pos] is the position of the head and [goal] that tail. *)
Definition dma_only (h h' : heap_t) : Prop := ∀ p,
  match h !! p, h' !! p with
  | Some (Descs ds), Some (Descs ds') => length ds' = length ds
  | Some (Data bs), Some (Data bs') => length bs' = length bs
  | b, b' => b' = b
  end.

Lemma dma_only_compat h h' : dma_only h h' → compat h h'.
Proof.
  intros Hd p. specialize (Hd p). destruct (h !! p) as [b|], (h' !! p) as [b'|]; try done.
  - destruct b, b'; simpl; try done; simplify_eq; auto.
  - by destruct b.
Qed.

Lemma dma_only_refl h : dma_only h h.
Proof. intros p. by destruct (h !! p) as [[]|]. Qed.

Lemma dma_only_trans h1 h2 h3 : dma_only h1 h2 → dma_only h2 h3 → dma_only h1 h3.
Proof.
  intros H12 H23 p. specialize (H12 p). specialize (H23 p).
  destruct (h1 !! p) as [[]|], (h2 !! p) as [[]|], (h3 !! p) as [[]|]; simplify_eq; congruence.
Qed.

Class RingDev (E : Type) `{Env E} (n hr tr : Z) := {
  pos : E → Z;
  goal : E → Z;
  rd_law reg h e v h' e' : env_rd32 reg h e = (v, h', e') → 0 <= pos e < n →
    dma_only h h' ∧ goal e' = goal e ∧ 0 <= pos e' < n ∧
    dist n (pos e') (goal e) <= dist n (pos e) (goal e) ∧ (reg = hr → v = pos e');
  wr_law reg v h e h' e' : env_wr32 reg v h e = (h', e') → 0 <= pos e < n →
    dma_only h h' ∧ 0 <= pos e' < n ∧ goal e' = (if reg =? tr then v else goal e) ∧
    dist n (pos e') (goal e') <= dist n (pos e) (goal e')
}.

Section send.
Context {E : Type} `{Env E} (n hr tr : Z) `{!RingDev E n hr tr}.
Implicit Types (w : world E) (cq : ice_ctl_q_info).

(** The memory of a send queue with [n] entries. *)
Record sq_mem (h : heap_t) (r : ice_ctl_q_ring) (size : Z) : Prop := {
  sm_desc : ∃ ds, h !! va (desc_buf r) = Some (Descs ds) ∧ Z.of_nat (length ds) = n;
  sm_cmd : ∃ l, h !! cmd_buf r = Some (CmdBuf l) ∧ Z.of_nat (length l) = n ∧
    Forall (fun c => wb_ok h (wb_desc c)) l;
  sm_bi : ∃ l, h !! bi r = Some (DmaInfo l) ∧ Z.of_nat (length l) = n ∧
    Forall (fun m => ∃ bs, h !! va m = Some (Data bs) ∧ Z.of_nat (length bs) = size) l
}.

(** The indices of the driver and the device: the device works on the entries
    between [next_to_clean] and [next_to_use]. *)
Record sq_ring (e : E) (r : ice_ctl_q_ring) : Prop := {
  sr_n : 0 < n < 65536;
  sr_count : count r = n;
  sr_ntu : 0 <= next_to_use r < n;
  sr_ntc : 0 <= next_to_clean r < n;
  sr_head : head r = hr;
  sr_tail : tail r = tr;
  sr_goal : goal e = next_to_use r;
  sr_pos : 0 <= pos e < n;
  sr_order : dist n (pos e) (next_to_use r) <= dist n (next_to_clean r) (next_to_use r)
}.

Record sq_inv (w : world E) (cq : ice_ctl_q_info) : Prop := {
  si_mem : sq_mem (heap w) (sq cq) (sq_buf_size cq);
  si_ring : sq_ring (env w) (sq cq);
  si_num : num_sq_entries cq = n;
  si_size : 0 <= sq_buf_size cq < 65536
}.

(** The device has moved on and memory kept its shape. *)
Definition later (w w' : world E) : Prop :=
  compat (heap w) (heap w') ∧ goal (env w') = goal (env w) ∧ 0 <= pos (env w') < n ∧
  dist n (pos (env w')) (goal (env w)) <= dist n (pos (env w)) (goal (env w)).

Lemma later_refl w : 0 <= pos (env w) < n → later w w.
Proof. intros. split_and!; [apply compat_refl|done|lia..]. Qed.

Lemma later_trans w1 w2 w3 : later w1 w2 → later w2 w3 → later w1 w3.
Proof.
  intros (C1 & G1 & P1 & D1) (C2 & G2 & P2 & D2). rewrite G1 in D2.
  split_and!; [by eapply compat_trans|congruence|lia..].
Qed.

Lemma later_heap w h : compat (heap w) h → 0 <= pos (env w) < n → later w (set_heap w h).
Proof. intros. split_and!; simpl; done || lia. Qed.

Lemma sq_mem_compat h h' r size : compat h h' → sq_mem h r size → sq_mem h' r size.
Proof.
  intros Hc [(ds & Hd & Hdl) (l & Hl & Hll & Hlf) (m & Hm & Hml & Hmf)]. split.
  - destruct (compat_lookup _ _ _ _ Hc Hd) as ([] & E' & Hb); try done. simpl in Hb.
    eexists. split; [done|]. by rewrite Hb.
  - destruct (compat_lookup _ _ _ _ Hc Hl) as ([] & E' & Hb); try done. destruct Hb as [Hb1 Hb2].
    eexists. split_and!; [done|by rewrite Hb1|]. apply Forall_forall. intros c Hin.
    apply (wb_ok_compat _ _ _ Hc). destruct (Hb2 c) as [Hin'|]; [done| |done].
    by apply (proj1 (Forall_forall _ _) Hlf).
  - destruct (compat_lookup _ _ _ _ Hc Hm) as ([] & E' & Hb); try done. simpl in Hb. subst.
    eexists. split_and!; [done..|]. eapply Forall_impl; [exact Hmf|]. intros x (bs & Hbs & Hlen).
    destruct (compat_lookup _ _ _ _ Hc Hbs) as ([] & E'' & Hb); try done. simpl in Hb.
    eexists. split; [done|]. by rewrite Hb.
Qed.

Lemma sq_ring_later w w' r : later w w' → sq_ring (env w) r → sq_ring (env w') r.
Proof.
  intros (_ & Hg & Hp & Hd) []. split; try done; [congruence|]. rewrite sr_goal0 in Hd. lia.
Qed.

Lemma sq_inv_later w w' cq : later w w' → sq_inv w cq → sq_inv w' cq.
Proof.
  intros Hl [Hm Hr ? ?]. split; [eapply sq_mem_compat; [apply Hl|done]| |done..].
  by eapply sq_ring_later.
Qed.

Lemma wp_rd32 reg w (Q : Z → world E → Prop) : 0 <= pos (env w) < n →
  (∀ v w', later w w' → (reg = hr → v = pos (env w')) → Q v w') → wp (rd32 reg) w Q.
Proof.
  intros Hp HQ. unfold wp, rd32.
  destruct (env_rd32 reg (heap w) (env w)) as [[v h'] e'] eqn:Erd.
  destruct (rd_law _ _ _ _ _ _ Erd Hp) as (Hd & Hg & Hp' & Hdist & Hv).
  apply HQ; [|done]. split; [by apply dma_only_compat|done].
Qed.

(** *** Cleaning *)

Lemma wp_clear_entry r ntc w size : sq_mem (heap w) r size → 0 <= ntc < n →
  0 <= pos (env w) < n → wp (clear_entry r ntc) w (fun _ w' => later w w').
Proof.
  intros Hm Hntc Hp. destruct (sm_desc _ _ _ Hm) as (ds & Hds & Hdl).
  eapply wp_bind, wp_wr_desc; [done|lia|]. set (w2 := set_heap w _).
  assert (later w w2) as Hl2
    by (apply later_heap; [eapply compat_insert; [done|]; simpl; by rewrite length_insert|done]).
  pose proof (sq_mem_compat _ _ _ _ (proj1 Hl2) Hm) as Hm2.
  destruct (sm_cmd _ _ _ Hm2) as (cs & Hcs & Hcl & Hcf).
  eapply wp_wr_cd; [done|lia|]. eapply later_trans; [exact Hl2|].
  apply later_heap; [|done]. eapply compat_insert; [done|]. split; [by rewrite length_insert|].
  intros c [->|?]%elem_insert_inv; [right; by left|by left].
Qed.

Lemma wp_clean_sq_loop fuel r ntc w size : sq_mem (heap w) r size → sq_ring (env w) r →
  0 <= ntc < n → dist n (pos (env w)) (next_to_use r) <= dist n ntc (next_to_use r) →
  dist n ntc (next_to_use r) < Z.of_nat fuel →
  wp (clean_sq_loop fuel r ntc) w (fun ntc' w' => later w w' ∧ ntc' = pos (env w')).
Proof.
  revert ntc w. induction fuel as [|fuel IH]; intros ntc w Hm Hr Hntc Hd Hf.
  { pose proof (dist_bound n ntc (next_to_use r)). pose proof (sr_n _ _ Hr). lia. }
  cbn [clean_sq_loop]. apply wp_bind, wp_rd32; [apply Hr|]. intros h w1 Hl1 Hh.
  specialize (Hh (sr_head _ _ Hr)). destruct (Z.eqb_spec h ntc) as [->|Hne]; [by apply wp_ret|].
  pose proof Hl1 as (Hc1 & _ & Hp1 & Hd1). rewrite (sr_goal _ _ Hr) in Hd1.
  pose proof (sr_n _ _ Hr) as Hn. pose proof (sr_ntu _ _ Hr) as Hu.
  eapply wp_bind, wp_mono; [by eapply wp_clear_entry; [eapply sq_mem_compat| |]|].
  intros ? w2 Hl2. assert (later w w2) as Hl by by eapply later_trans.
  assert (dist n (pos (env w1)) (next_to_use r) ≠ dist n ntc (next_to_use r)) as Hneq.
  { intros Heq. apply Hne. subst h. by apply (dist_eq n _ _ (next_to_use r)). }
  assert (ntc ≠ next_to_use r) as Hnu.
  { intros ->. pose proof (dist_bound n (pos (env w1)) (next_to_use r)).
    assert (dist n (next_to_use r) (next_to_use r) = 0) by dist_lia. lia. }
  rewrite (sr_count _ _ Hr). destruct (next_idx_spec n ntc) as [_ Hnx]; [lia..|].
  pose proof (dist_next n ntc (next_to_use r) ltac:(lia) ltac:(lia) ltac:(lia) Hnu) as Hdn.
  assert (dist n (pos (env w2)) (next_to_use r) <= dist n (pos (env w1)) (next_to_use r)) as Hd2.
  { pose proof Hl2 as (_ & _ & _ & Hd2). destruct Hl1 as (_ & Hg1 & _).
    by rewrite Hg1, (sr_goal _ _ Hr) in Hd2. }
  eapply wp_mono; [apply IH; [eapply sq_mem_compat; [apply Hl|done]|by eapply sq_ring_later|lia..]|].
  intros ntc' w' [Hl' ->]. split; [by eapply later_trans|done].
Qed.

(** Cleaning brings [next_to_clean] to the head and reports the number of free
    entries. *)
Lemma wp_clean_sq fuel cq w : sq_inv w cq → n <= Z.of_nat fuel →
  wp (ice_clean_sq fuel cq) w (fun '(unused, cq') w' =>
    later w w' ∧ cq' = cq <| sq ::= fun r => r <| next_to_clean := pos (env w') |> |> ∧
    sq_inv w' cq' ∧ unused = n - 1 - dist n (pos (env w')) (next_to_use (sq cq))).
Proof.
  intros [Hm Hr Hnum Hsz] Hf. unfold ice_clean_sq. pose proof (sr_n _ _ Hr) as Hn.
  eapply wp_bind, wp_mono.
  { eapply wp_clean_sq_loop; [done|done|apply Hr|apply Hr|].
    pose proof (dist_bound n (next_to_clean (sq cq)) (next_to_use (sq cq))). lia. }
  intros ntc w' [Hl ->]. apply wp_ret. pose proof Hl as (Hc & Hg & Hp & Hd). split_and!; [done..| |].
  - split; [|destruct Hr; split; simpl; done || congruence || lia|done..].
    destruct (sq_mem_compat _ _ _ _ Hc Hm). by split.
  - rewrite (desc_unused_spec _ n); [done|apply Hr|done|apply Hr|done].
Qed.

(** *** Posting a command *)

(** The caller's buffer: enough bytes, and no more than the queue has room for. *)
Definition buf_fits (cq : ice_ctl_q_info) (buf : option (list Z)) (buf_size : Z) : Prop :=
  match buf with
  | Some b => 0 <= buf_size <= Z.of_nat (length b) ∧ buf_size <= sq_buf_size cq
  | None => True
  end.

(** [h1] is [h] with the command at [next_to_use]: the descriptor, with length
    and address of the DMA buffer for an indirect command, and the data in that
    buffer. *)
Definition posted (h : heap_t) (r : ice_ctl_q_ring) (desc : ice_aq_desc) (buf : option (list Z))
    (buf_size : Z) (h1 : heap_t) : Prop :=
  let slot := Z.to_nat (next_to_use r) in
  ∃ ds l m, h !! va (desc_buf r) = Some (Descs ds) ∧ h !! bi r = Some (DmaInfo l) ∧
    l !! slot = Some m ∧
    match buf with
    | None => h1 = <[va (desc_buf r) := Descs (<[slot := desc]> ds)]> h
    | Some b => ∃ bs, h !! va m = Some (Data bs) ∧
        h1 = <[va (desc_buf r) := Descs (<[slot := desc <| datalen := buf_size |>
                 <| addr_high := ICE_HI_DWORD (pa m) |> <| addr_low := ICE_LO_DWORD (pa m) |>]> ds)]>
             (<[va m := Data (take (Z.to_nat buf_size) b ++ drop (Z.to_nat buf_size) bs)]> h)
    end.

Definition advanced (cq : ice_ctl_q_info) : ice_ctl_q_info :=
  cq <| sq ::= fun r => r <| next_to_use := next_idx n (next_to_use r) |> |>.

Lemma wp_wr32_raw reg v w (Q : unit → world E → Prop) :
  (∀ h e, env_wr32 reg v (heap w) (env w) = (h, e) → Q tt (mkWorld h (fresh w) e)) →
  wp (wr32 reg v) w Q.
Proof.
  intros HQ. unfold wp, wr32. destruct (env_wr32 _ _ _ _) eqn:Ew. by apply HQ.
Qed.

(** What the device sees at the moment the tail moves. *)
Lemma sq_post_exact cq desc buf buf_size w : sq_inv w cq → buf_fits cq buf buf_size →
  wp (sq_post cq desc buf buf_size) w (fun cq' w' => cq' = advanced cq ∧ fresh w' = fresh w ∧
    ∃ h1, posted (heap w) (sq cq) desc buf buf_size h1 ∧
      env_wr32 tr (next_idx n (next_to_use (sq cq))) h1 (env w) = (heap w', env w')).
Proof.
  intros [Hm Hr _ _] Hfit. destruct (sm_desc _ _ _ Hm) as (ds & Hds & Hdl).
  destruct (sm_bi _ _ _ Hm) as (l & Hl & Hll & Hlf). pose proof (sr_ntu _ _ Hr) as Hu.
  destruct (rd_in_range l (next_to_use (sq cq))) as [m Em]; [lia|].
  destruct (rd_Forall _ _ _ _ Hlf Em) as (bs & Hbs & Hbl).
  assert (l !! Z.to_nat (next_to_use (sq cq)) = Some m) as Em'.
  { unfold rd in Em. by rewrite (proj2 (Z.leb_le _ _)) in Em by lia. }
  eapply wp_bind, wp_wr_desc; [done|lia|]. set (D := va (desc_buf (sq cq))) in *.
  set (w1 := set_heap w _).
  assert (∀ h1, posted (heap w) (sq cq) desc buf buf_size h1 →
    wp (let cq' := cq <| sq ::= fun r => r <| next_to_use := next_idx (count r) (next_to_use r) |> |> in
        _ ← wr32 (tail (sq cq')) (next_to_use (sq cq')); mret cq') (set_heap w h1)
      (fun cq' w' => cq' = advanced cq ∧ fresh w' = fresh w ∧
        ∃ h1, posted (heap w) (sq cq) desc buf buf_size h1 ∧
          env_wr32 tr (next_idx n (next_to_use (sq cq))) h1 (env w) = (heap w', env w'))) as Hend.
  { intros h1 Hp1. simpl. rewrite (sr_tail _ _ Hr), (sr_count _ _ Hr).
    apply wp_bind, wp_wr32_raw. intros h e Ew. apply wp_ret.
    split_and!; [|done|by exists h1]. unfold advanced. simpl.
    by rewrite (sr_tail _ _ Hr), (sr_count _ _ Hr). }
  apply wp_bind. destruct buf as [b|].
  - destruct Hfit as [Hb1 Hb2].
    assert (D ≠ va m) as Hne1 by congruence. assert (D ≠ bi (sq cq)) as Hne2 by congruence.
    eapply wp_bind, wp_rd_info; [|done|]; [simpl; by rewrite lookup_insert_ne by done|].
    eapply wp_bind, wp_of_option.
    { unfold bytes_at. rewrite (proj2 (Z.leb_le _ _)), (proj2 (Z.leb_le _ _)) by lia. done. }
    assert (length (take (Z.to_nat buf_size) (drop (Z.to_nat 0) b)) = Z.to_nat buf_size) as Htl
      by (rewrite length_take, length_drop; lia).
    eapply wp_bind, wp_wr_data; [simpl; by rewrite lookup_insert_ne by done|rewrite Htl; lia|].
    eapply (wp_wr_desc _ _ (<[Z.to_nat (next_to_use (sq cq)) := desc]> ds));
      [simpl; rewrite lookup_insert_ne, lookup_insert_eq by done; done
      |rewrite length_insert; lia|].
    simpl. apply Hend. exists ds, l, m. split_and!; [done..|]. exists bs. split; [done|].
    rewrite Htl. simpl (Z.to_nat 0). rewrite drop_0, list_insert_insert_eq.
    rewrite (insert_insert_ne _ (va m) D) by done. by rewrite insert_insert_eq.
  - apply wp_ret. apply Hend. by exists ds, l, m.
Qed.

Lemma posted_compat h r size desc buf buf_size h1 cq : sq_mem h r size → buf_fits cq buf buf_size →
  size = sq_buf_size cq → posted h r desc buf buf_size h1 → compat h h1.
Proof.
  intros Hm Hfit -> (ds & l & m & Hds & Hl & Em & Hp).
  assert (∀ d, block_compat h (Descs ds) (Descs (<[Z.to_nat (next_to_use r) := d]> ds))) as Hd
    by (intros d; simpl; apply length_insert).
  destruct buf as [b|]; [|subst; by eapply compat_insert].
  destruct Hp as (bs & Hbs & ->). destruct Hfit as [Hb1 Hb2].
  destruct (sm_bi _ _ _ Hm) as (l' & Hl' & _ & Hf). assert (l' = l) as -> by congruence.
  destruct (Forall_lookup_1 _ _ _ _ Hf Em) as (bs' & Hbs' & Hlen).
  assert (bs' = bs) as -> by congruence.
  match goal with |- compat _ (<[_ := _]> ?h') => transitivity h' end.
  - eapply compat_insert; [exact Hbs|]. simpl. rewrite length_app, length_take, length_drop. lia.
  - eapply compat_insert; [rewrite lookup_insert_ne by congruence; exact Hds|].
    simpl. apply length_insert.
Qed.

(** Posting keeps the invariant when an entry is free. *)
Lemma wp_sq_post cq desc buf buf_size w : sq_inv w cq → buf_fits cq buf buf_size →
  dist n (next_to_clean (sq cq)) (next_to_use (sq cq)) ≠ n - 1 →
  wp (sq_post cq desc buf buf_size) w (fun cq' w' =>
    cq' = advanced cq ∧ sq_inv w' cq' ∧ compat (heap w) (heap w')).
Proof.
  intros Hinv Hfit Hfree. eapply wp_mono; [by apply sq_post_exact|].
  intros cq' w' (-> & _ & h1 & Hp & Ew). destruct Hinv as [Hm Hr Hnum Hsz].
  pose proof (posted_compat _ _ _ _ _ _ _ _ Hm Hfit eq_refl Hp) as Hc1.
  destruct (wr_law _ _ _ _ _ _ Ew (sr_pos _ _ Hr)) as (Hd & Hpos & Hgoal & Hdist).
  rewrite Z.eqb_refl in Hgoal. rewrite Hgoal in Hdist.
  assert (compat (heap w) (heap w')) as Hc by (etransitivity; [done|by apply dma_only_compat]).
  split_and!; [done| |done]. split; [| |done..].
  - destruct (sq_mem_compat _ _ _ _ Hc Hm). by split.
  - destruct Hr. destruct (next_idx_spec n (next_to_use (sq cq))) as [_ Hnx]; [lia..|].
    pose proof (dist_succ n (next_to_clean (sq cq)) (next_to_use (sq cq)) ltac:(lia) ltac:(lia)
      ltac:(lia) Hfree).
    pose proof (dist_bound n (next_to_clean (sq cq)) (next_to_use (sq cq))).
    rewrite (dist_succ n (pos (env w))) in Hdist by lia.
    split; simpl; done || lia.
Qed.

(** *** Completion *)

Lemma wp_sq_done cq w : sq_inv w cq →
  wp (ice_sq_done cq) w (fun b w' => later w w' ∧ (b = true → pos (env w') = next_to_use (sq cq))).
Proof.
  intros Hinv. apply wp_bind, wp_rd32; [apply Hinv|]. intros v w' Hl Hv. apply wp_ret.
  split; [done|]. rewrite <- Hv by apply Hinv. apply Z.eqb_eq.
Qed.

Lemma wp_wait_done k cq w : sq_inv w cq → wp (wait_done k cq) w (fun _ w' => later w w').
Proof.
  revert w. induction k as [|k IH]; intros w Hinv; cbn [wait_done].
  { apply wp_ret, later_refl, Hinv. }
  eapply wp_bind, wp_mono; [by apply wp_sq_done|]. intros b w1 [Hl _].
  destruct b; [by apply wp_ret|]. eapply wp_mono; [apply IH; by eapply sq_inv_later|].
  intros [] w2 Hl2. by eapply later_trans.
Qed.

Lemma wp_sq_collect cq slot buf buf_size w : sq_inv w cq → buf_fits cq buf buf_size →
  0 <= slot < n →
  wp (sq_collect cq slot buf buf_size) w (fun '(status, _, _, cq') w' => w' = w ∧
    (status = ICE_SUCCESS ∨ status = ICE_ERR_AQ_ERROR) ∧
    ∃ rc, cq' = cq <| sq_last_status := rc |> ∧ (status = ICE_SUCCESS → rc = ICE_AQ_RC_OK)).
Proof.
  intros [Hm Hr _ _] Hfit Hs. destruct (sm_desc _ _ _ Hm) as (ds & Hds & Hdl).
  destruct (rd_in_range ds slot) as [d Ed]; [lia|]. eapply wp_bind, wp_rd_desc; [done..|].
  set (P := fun (x : ice_status * option (list Z)) w' => w' = w ∧
    (x.1 = ICE_SUCCESS ∨ x.1 = ICE_ERR_AQ_ERROR)).
  eapply wp_bind, (wp_mono _ _ P).
  - destruct buf as [b|]; [|apply wp_ret; split; auto]. destruct Hfit as [Hb1 Hb2]. cbn zeta.
    destruct (Z.ltb_spec buf_size (datalen d)); [apply wp_ret; split; auto|].
    destruct (sm_bi _ _ _ Hm) as (l & Hl & Hll & Hlf).
    destruct (rd_in_range l slot) as [m Em]; [lia|].
    destruct (rd_Forall _ _ _ _ Hlf Em) as (bs & Hbs & Hbl).
    eapply wp_bind, wp_rd_info; [done..|]. eapply wp_bind, wp_rd_data; [done|lia|].
    apply wp_ret. split; auto.
  - intros [status b] w' [-> Hst]. simpl in Hst. apply wp_ret. split; [done|].
    match goal with |- context [is_ok _ && negb (?x =? _)] => set (rc := x) end.
    destruct (Z.eqb_spec rc ICE_AQ_RC_OK); simpl.
    + rewrite andb_false_r. split; [done|]. by exists rc.
    + rewrite andb_true_r. split.
      * unfold is_ok. case_bool_decide; auto.
      * exists rc. split; [done|]. unfold is_ok. case_bool_decide; [done|]. intros ->. done.
Qed.

Lemma wp_write_back cq slot w : sq_inv w cq → 0 <= slot < n →
  wp (sq_write_back cq slot) w (fun _ w' => later w w').
Proof.
  intros [Hm Hr _ _] Hs. destruct (sm_cmd _ _ _ Hm) as (l & Hl & Hll & Hlf).
  destruct (rd_in_range l slot) as [c Ec]; [lia|]. eapply wp_bind, wp_rd_cd; [done..|].
  pose proof (rd_Forall _ _ _ _ Hlf Ec) as [Hz|(d0 & ds0 & Hwb)].
  { rewrite Hz. apply wp_ret, later_refl, Hr. }
  destruct (nz (wb_desc c)); [|apply wp_ret, later_refl, Hr].
  destruct (sm_desc _ _ _ Hm) as (ds & Hds & Hdl).
  destruct (rd_in_range ds slot) as [d Ed]; [lia|]. eapply wp_bind, wp_rd_desc; [done..|].
  eapply wp_wr_desc; [done|simpl; lia|]. apply later_heap; [|apply Hr].
  eapply compat_insert; [done|]. simpl. done.
Qed.

Lemma wp_timeout_status cq w : sq_inv w cq →
  wp (sq_timeout_status cq) w (fun s w' => later w w' ∧
    (s = ICE_ERR_AQ_FW_CRITICAL ∨ s = ICE_ERR_AQ_TIMEOUT)).
Proof.
  intros Hinv. apply wp_bind, wp_rd32; [apply Hinv|]. intros rl w1 Hl1 _.
  apply wp_bind. destruct (nz _); [by apply wp_ret, wp_ret; auto|].
  apply wp_bind, wp_rd32; [apply Hl1|]. intros sl w2 Hl2 _. apply wp_ret, wp_ret.
  split; [by eapply later_trans|]. destruct (nz _); auto.
Qed.

Lemma sq_inv_status w cq rc : sq_inv w cq → sq_inv w (cq <| sq_last_status := rc |>).
Proof. intros []. by split. Qed.

(** A device that is done stays done. *)
Lemma later_done w w' cq : sq_inv w cq → later w w' → pos (env w) = next_to_use (sq cq) →
  pos (env w') = next_to_use (sq cq).
Proof.
  intros [_ Hr _ _] (_ & _ & Hp & Hd) Hpos. destruct Hr. rewrite sr_goal0, Hpos in Hd.
  assert (dist n (next_to_use (sq cq)) (next_to_use (sq cq)) = 0) by dist_lia.
  pose proof (dist_bound n (pos (env w')) (next_to_use (sq cq)) ltac:(lia)).
  apply (dist_eq n _ _ (next_to_use (sq cq))); lia.
Qed.

Definition finished (cq : ice_ctl_q_info) (w : world E) (status : ice_status)
    (cq' : ice_ctl_q_info) (w' : world E) : Prop :=
  later w w' ∧ sq_inv w' cq' ∧ (∃ rc, cq' = cq <| sq_last_status := rc |>) ∧
  (status = ICE_SUCCESS → sq_last_status cq' = ICE_AQ_RC_OK ∧ pos (env w') = next_to_use (sq cq)) ∧
  status ∈ [ICE_SUCCESS; ICE_ERR_AQ_ERROR; ICE_ERR_AQ_FW_CRITICAL; ICE_ERR_AQ_TIMEOUT].

Lemma wp_sq_finish cq slot desc buf buf_size w : sq_inv w cq → buf_fits cq buf buf_size →
  0 <= slot < n →
  wp (sq_finish cq slot desc buf buf_size) w (fun '(status, _, _, cq') w' =>
    finished cq w status cq' w').
Proof.
  intros Hinv Hfit Hs. unfold sq_finish.
  eapply wp_bind, wp_mono; [by apply wp_wait_done|]. intros [] w1 Hl1.
  pose proof (sq_inv_later _ _ _ Hl1 Hinv) as Hinv1.
  eapply wp_bind, wp_mono; [by apply wp_sq_done|]. intros completed w2 [Hl2 Hdone].
  pose proof (sq_inv_later _ _ _ Hl2 Hinv1) as Hinv2.
  set (P := fun (x : ice_status * ice_aq_desc * option (list Z) * ice_ctl_q_info) w' =>
    let '(status, _, _, cq') := x in w' = w2 ∧
    (status = ICE_SUCCESS ∨ status = ICE_ERR_AQ_ERROR) ∧
    ∃ rc, cq' = cq <| sq_last_status := rc |> ∧
      (completed = true → status = ICE_SUCCESS → rc = ICE_AQ_RC_OK)).
  eapply wp_bind, (wp_mono _ _ P).
  { destruct completed.
    - eapply wp_mono; [by apply wp_sq_collect|]. intros [[[s d] b] cq'] w' (-> & Hst & rc & -> & Hrc).
      split_and!; [done..|]. by exists rc.
    - apply wp_ret. split_and!; [done|by left|]. exists (sq_last_status cq). by destruct cq. }
  intros [[[status d] b] cq'] w' (-> & Hst & rc & -> & Hrc).
  pose proof (sq_inv_status _ _ rc Hinv2) as Hinv2'.
  eapply wp_bind, wp_mono; [by apply wp_write_back|]. intros [] w3 Hl3.
  pose proof (sq_inv_later _ _ _ Hl3 Hinv2') as Hinv3.
  assert (later w w3) as Hl by (eapply later_trans; [done|by eapply later_trans]).
  apply wp_bind. destruct completed.
  - apply wp_ret, wp_ret. split_and!; [done|done|by exists rc| |].
    + intros ->. split; [by apply Hrc|]. eapply (later_done w2); eauto.
    + rewrite !elem_of_cons. tauto.
  - eapply wp_mono; [by apply wp_timeout_status|]. intros s w4 [Hl4 Hs4]. apply wp_ret.
    split_and!; [by eapply later_trans|by eapply sq_inv_later|by exists rc| |].
    + intros ->. by destruct Hs4.
    + rewrite !elem_of_cons. tauto.
Qed.

(** *** The whole command *)

(** The caller's buffer holds the bytes it announces, and the completed
    descriptor can be stored where the caller asks for it. *)
Definition args_ok (w : world E) (buf : option (list Z)) (buf_size : Z) (cd : option ice_sq_cd) : Prop :=
  0 <= buf_size ∧ match buf with Some b => buf_size <= Z.of_nat (length b) | None => True end ∧
  match cd with Some c => wb_ok (heap w) (wb_desc c) | None => True end.

(** The outcome of a command: the invariant holds again; on success the queue has
    moved by one entry and the device has processed everything; a full queue has
    [n] - 1 commands in flight; other errors leave the indices alone or stand for
    a command that was sent. *)
Definition sent (cq : ice_ctl_q_info) (w : world E) (status : ice_status)
    (cq' : ice_ctl_q_info) (w' : world E) : Prop :=
  sq_inv w' cq' ∧ compat (heap w) (heap w') ∧
  match status with
  | ICE_SUCCESS => next_to_use (sq cq') = next_idx n (next_to_use (sq cq)) ∧
      pos (env w') = next_to_use (sq cq') ∧ sq_last_status cq' = ICE_AQ_RC_OK
  | ICE_ERR_AQ_ERROR | ICE_ERR_AQ_FW_CRITICAL | ICE_ERR_AQ_TIMEOUT =>
      next_to_use (sq cq') = next_idx n (next_to_use (sq cq))
  | ICE_ERR_AQ_FULL => next_to_use (sq cq') = next_to_use (sq cq) ∧
      dist n (next_to_clean (sq cq')) (next_to_use (sq cq')) = n - 1
  | ICE_ERR_PARAM | ICE_ERR_INVAL_SIZE | ICE_ERR_RESET_ONGOING =>
      next_to_use (sq cq') = next_to_use (sq cq) ∧ w' = w
  | _ => False
  end.

Lemma wp_send_nolock fuel reset cq desc buf buf_size cd w :
  sq_inv w cq → n <= Z.of_nat fuel → args_ok w buf buf_size cd →
  wp (ice_sq_send_cmd_nolock fuel reset cq desc buf buf_size cd) w (fun '(status, _, _, cq') w' =>
    sent cq w status cq' w' ∧ sq_lock cq' = sq_lock cq).
Proof.
  intros Hinv Hf (Hsz & Hbuf & Hcd). unfold ice_sq_send_cmd_nolock.
  destruct reset; [by apply wp_ret|]. cbn zeta.
  pose proof (sq_inv_status _ _ ICE_AQ_RC_OK Hinv) as Hinv0.
  set (cq0 := cq <| sq_last_status := ICE_AQ_RC_OK |>) in *.
  pose proof (si_ring _ _ Hinv) as Hr. pose proof (sr_n _ _ Hr) as Hn.
  rewrite (proj2 (Z.eqb_neq (count (sq cq0)) 0)) by (simpl; rewrite (sr_count _ _ Hr); lia).
  destruct ((bool_decide (is_Some buf) && (buf_size =? 0)) || _) eqn:Ep; [by apply wp_ret|].
  destruct (bool_decide (is_Some buf) && (sq_buf_size cq0 <? buf_size)) eqn:Es; [by apply wp_ret|].
  assert (buf_fits cq buf buf_size) as Hfit.
  { destruct buf; [|done]. simpl in Es. apply Z.ltb_ge in Es. split; [lia|done]. }
  set (desc0 := match buf with Some _ => _ | None => desc end).
  apply wp_bind, wp_rd32; [apply Hr|]. intros v w1 Hl1 Hv. pose proof Hl1 as (_ & _ & Hp1 & _).
  rewrite (Hv (sr_head _ _ Hr)), (proj2 (Z.leb_gt (num_sq_entries cq0) _))
    by (simpl; rewrite (si_num _ _ Hinv); lia).
  pose proof (sq_inv_later _ _ _ Hl1 Hinv0) as Hinv1.
  destruct (sm_cmd _ _ _ (si_mem _ _ Hinv1)) as (l & Hl & Hll & Hlf).
  eapply wp_bind, wp_wr_cd; [done|rewrite Hll; apply Hr|].
  match goal with |- wp _ ?w2 _ => assert (later w1 w2) as Hl2 end.
  { apply later_heap; [|done]. eapply compat_insert; [done|]. split; [by rewrite length_insert|].
    intros c [->|?]%elem_insert_inv; [right|by left]. apply (wb_ok_compat _ _ _ (proj1 Hl1)).
    by destruct cd; [|left]. }
  set (w2 := set_heap w1 _) in *. pose proof (sq_inv_later _ _ _ Hl2 Hinv1) as Hinv2.
  eapply wp_bind, wp_mono; [by apply wp_clean_sq|].
  intros [unused cq3] w3 (Hl3 & -> & Hinv3 & ->).
  assert (later w w3) as Hlw3 by (eapply later_trans; [done|by eapply later_trans]).
  destruct (Z.eqb_spec (n - 1 - dist n (pos (env w3)) (next_to_use (sq cq0))) 0) as [Hfull|Hfree].
  { apply wp_ret. split; [|done]. split_and!; [done|apply Hlw3|done|]. simpl in *. lia. }
  eapply wp_bind, wp_mono; [apply wp_sq_post; [done|done|simpl in *; lia]|].
  intros cq4 w4 (-> & Hinv4 & Hc4).
  eapply wp_mono; [apply wp_sq_finish; [done|done|apply Hr]|].
  intros [[[status d] b] cq'] w' (Hl5 & Hinv5 & (rc & ->) & Hok & Hst). split; [|done].
  assert (compat (heap w) (heap w')) as Hc.
  { etransitivity; [apply Hlw3|]. etransitivity; [exact Hc4|apply Hl5]. }
  rewrite !elem_of_cons, elem_of_nil in Hst.
  destruct Hst as [->|[->|[->|[->|[]]]]]; split_and!; try done; by apply Hok.
Qed.

(** Cleaning the send queue: with a device that moves its head towards the
    tail, the loop of [ice_clean_sq] ends after at most [n] iterations without
    leaving the ring, wherever the device moves the head meanwhile;
    [next_to_clean] is then the head, and the result is the number of entries
    that are free while one is kept unused, the rest being in flight. *)
Theorem clean_sq_spec fuel cq w : sq_inv w cq → n <= Z.of_nat fuel →
  ∃ unused cq' w', ice_clean_sq fuel cq w = Ret ((unused, cq'), w') ∧
    sq_inv w' cq' ∧ next_to_clean (sq cq') = pos (env w') ∧
    unused + dist n (next_to_clean (sq cq')) (next_to_use (sq cq')) = n - 1 ∧ 0 <= unused < n.
Proof.
  intros Hinv Hf. destruct (wp_inv _ _ _ (wp_clean_sq fuel cq w Hinv Hf))
    as ([unused cq'] & w' & Eq & Hl & -> & Hinv' & ->).
  do 3 eexists. split_and!; [exact Eq|done|done|simpl; lia|..]; pose proof (sr_n _ _ (si_ring _ _ Hinv));
    pose proof (dist_bound n (pos (env w')) (next_to_use (sq cq))); lia.
Qed.

(** What the device is given: when the tail register is written, the
    descriptor of the command is in the entry at [next_to_use], an indirect
    command's data is in the DMA buffer of the entry, whose address and length
    are in the descriptor, and nothing else in memory has changed. *)
Theorem sq_post_spec cq desc buf buf_size w : sq_inv w cq → buf_fits cq buf buf_size →
  ∃ cq' w', sq_post cq desc buf buf_size w = Ret (cq', w') ∧
    next_to_use (sq cq') = next_idx n (next_to_use (sq cq)) ∧
    ∃ h1, posted (heap w) (sq cq) desc buf buf_size h1 ∧
      env_wr32 (tail (sq cq)) (next_to_use (sq cq')) h1 (env w) = (heap w', env w').
Proof.
  intros Hinv Hfit. destruct (wp_inv _ _ _ (sq_post_exact cq desc buf buf_size w Hinv Hfit))
    as (cq' & w' & Eq & -> & _ & h1 & Hp & Ew).
  exists (advanced cq), w'. split_and!; [done..|]. exists h1. split; [done|].
  by rewrite (sr_tail _ _ (si_ring _ _ Hinv)).
Qed.

Lemma send_cmd_ok fuel reset cq desc buf buf_size cd w :
  sq_inv w cq → sq_lock cq = false → n <= Z.of_nat fuel → args_ok w buf buf_size cd →
  ∃ status desc' buf' cq' w',
    ice_sq_send_cmd fuel reset cq desc buf buf_size cd w = Ret ((status, desc', buf', cq'), w') ∧
    sent cq w status cq' w' ∧ sq_lock cq' = false.
Proof.
  intros Hinv Hlock Hf Hargs.
  assert (wp (ice_sq_send_cmd fuel reset cq desc buf buf_size cd) w (fun '(status, _, _, cq') w' =>
    sent cq w status cq' w' ∧ sq_lock cq' = false)) as Hwp.
  { unfold ice_sq_send_cmd. destruct reset; [by apply wp_ret|]. rewrite Hlock.
    apply wp_bind, wp_ret. assert (sq_inv w (cq <| sq_lock := true |>)) as Hinv1
      by (destruct Hinv; by split).
    eapply wp_bind, wp_mono; [by apply wp_send_nolock|].
    intros [[[status d] b] cq'] w' [Hs _]. apply wp_ret. split; [|done].
    destruct Hs as (Hi & Hc & Hst). split_and!; [destruct Hi; by split|done|]. by destruct status. }
  destruct (wp_inv _ _ _ Hwp) as ([[[status d] b] cq'] & w' & Eq & Hs & Hl).
  by exists status, d, b, cq', w'.
Qed.

(** C39. Invariant of the send queue: whatever the device answers, as long as it
    keeps its head between the driver's indices and writes only to descriptors
    and buffers, [ice_sq_send_cmd] returns, releases the lock and keeps the
    queue well-formed; the outcome of each status is that of [sent]: in
    particular success means that the device has processed every command. *)
Theorem send_cmd_invariant fuel reset cq desc buf buf_size cd w :
  sq_inv w cq → sq_lock cq = false → n <= Z.of_nat fuel → args_ok w buf buf_size cd →
  ∃ status desc' buf' cq' w',
    ice_sq_send_cmd fuel reset cq desc buf buf_size cd w = Ret ((status, desc', buf', cq'), w') ∧
    sent cq w status cq' w' ∧ sq_lock cq' = false.
Proof. exact (send_cmd_ok fuel reset cq desc buf buf_size cd w). Qed.
End send.

(** ** A concrete device

    A queue of four entries whose device processes every command the next time
    its head is read.  It has memory for [mem_left] more allocations, and its
    base address register can be read back. *)
Record ideal := mkIdeal { i_pos : Z; i_goal : Z; i_bal : Z; mem_left : nat }.

#[export] Instance ideal_env : Env ideal := {|
  env_rd32 reg h e :=
    let e := if (0 <=? i_goal e) && (i_goal e <? 4)
             then mkIdeal (i_goal e) (i_goal e) (i_bal e) (mem_left e) else e in
    (if reg =? r_ATQH PF_FW then i_pos e
     else if (reg =? r_ATQBAL PF_FW) || (reg =? r_ARQBAL PF_FW) then i_bal e else 0, h, e);
  env_wr32 reg v h e :=
    (h, mkIdeal (i_pos e) (if reg =? r_ATQT PF_FW then v else i_goal e)
          (if (reg =? r_ATQBAL PF_FW) || (reg =? r_ARQBAL PF_FW) then v else i_bal e) (mem_left e));
  env_malloc e := match mem_left e with
    | O => (false, e) | S k => (true, mkIdeal (i_pos e) (i_goal e) (i_bal e) k) end;
  env_dma e := match mem_left e with
    | O => (None, e)
    | S k => (Some (0x1000 * (Z.of_nat k + 1)), mkIdeal (i_pos e) (i_goal e) (i_bal e) k) end;
  aq_send_cmd_fn := None
|}.

#[export] Program Instance ideal_ring : RingDev ideal 4 (r_ATQH PF_FW) (r_ATQT PF_FW) :=
  {| pos := i_pos; goal := i_goal |}.
Next Obligation.
  intros reg h e v h' e' Hrd Hp. injection Hrd as <- <- <-.
  destruct ((0 <=? i_goal e) && (i_goal e <? 4)) eqn:Eg; bool_to_prop; simpl.
  - split_and!; try done || lia; [apply dma_only_refl| |by intros ->].
    pose proof (dist_bound 4 (i_pos e) (i_goal e)). unfold dist at 1.
    rewrite Z.sub_diag. rewrite Z.mod_0_l by lia. lia.
  - split_and!; try done || lia; [apply dma_only_refl|by intros ->].
Qed.
Next Obligation.
  intros reg v h e h' e' Hwr Hp. injection Hwr as <- <-. simpl.
  split_and!; try done || lia. apply dma_only_refl.
Qed.

Definition demo_ring : ice_ctl_q_ring :=
  ring_regs (mkRing 3 (mkDma 1 0x10000 128) 2 3 4 1 3 0 0 0 0 0 0 0 0 0)
    (r_ATQH PF_FW) (r_ATQT PF_FW) (r_ATQLEN PF_FW) (r_ATQBAH PF_FW) (r_ATQBAL PF_FW).
Definition demo_cq : ice_ctl_q_info :=
  mkCq ICE_CTL_Q_ADMIN demo_ring demo_ring 10 4 4 16 16 0 false false.
Definition demo_heap : heap_t :=
  {[ 1 := Descs (replicate 4 desc_zero); 2 := CmdBuf (replicate 4 cd_zero);
     3 := DmaInfo [mkDma 10 0x1000 16; mkDma 11 0x2000 16; mkDma 12 0x3000 16; mkDma 13 0x4000 16];
     10 := Data (replicate 16 0); 11 := Data (replicate 16 0);
     12 := Data (replicate 16 0); 13 := Data (replicate 16 0) ]}.
(** Two commands are in flight, in the entries 3 and 0. *)
Definition demo_world : world ideal := mkWorld demo_heap 14 (mkIdeal 3 1 0 0).

Lemma demo_sq_inv : sq_inv 4 (r_ATQH PF_FW) (r_ATQT PF_FW) demo_world demo_cq.
Proof.
  split; [split|split|..]; try (vm_compute; intuition congruence).
  - by eexists.
  - eexists. split_and!; [done..|]. repeat constructor; by left.
  - eexists. split_and!; [done..|]. repeat constructor; by eexists.
Qed.

Lemma clean_sq_spec_witness :
  ∃ unused cq' w', ice_clean_sq 4 demo_cq demo_world = Ret ((unused, cq'), w') ∧
    unused + dist 4 (next_to_clean (sq cq')) (next_to_use (sq cq')) = 3.
Proof.
  destruct (clean_sq_spec 4 (r_ATQH PF_FW) (r_ATQT PF_FW) 4 demo_cq demo_world demo_sq_inv)
    as (unused & cq' & w' & Eq & _ & _ & Hu & _); [lia|].
  by exists unused, cq', w'.
Defined.

Lemma sq_post_spec_witness :
  ∃ cq' w', sq_post demo_cq desc_zero (Some [1; 2; 3]) 3 demo_world = Ret (cq', w') ∧
    next_to_use (sq cq') = 2.
Proof.
  destruct (sq_post_spec 4 (r_ATQH PF_FW) (r_ATQT PF_FW) demo_cq desc_zero (Some [1; 2; 3]) 3
    demo_world demo_sq_inv) as (cq' & w' & Eq & Hu & _); [vm_compute; intuition congruence|].
  by exists cq', w'.
Defined.

Lemma send_cmd_invariant_witness :
  ∃ status desc' buf' cq' w',
    ice_sq_send_cmd 4 false demo_cq desc_zero (Some [1; 2; 3]) 3 None demo_world
      = Ret ((status, desc', buf', cq'), w') ∧
    sent 4 (r_ATQH PF_FW) (r_ATQT PF_FW) demo_cq demo_world status cq' w' ∧ sq_lock cq' = false.
Proof.
  apply (send_cmd_invariant 4 (r_ATQH PF_FW) (r_ATQT PF_FW)); [exact demo_sq_inv|done|lia|].
  vm_compute. intuition congruence.
Defined.

(** ** Receiving

    The receive queue relies on less: the device writes only to descriptors and
    data buffers, and its head register, masked, is an index of the ring. *)
Class EventDev (E : Type) `{Env E} (n hr mask : Z) : Prop := {
  ev_rd reg h e v h' e' : env_rd32 reg h e = (v, h', e') →
    dma_only h h' ∧ (reg = hr → 0 <= u16 (v .& mask) < n);
  ev_wr reg v h e h' e' : env_wr32 reg v h e = (h', e') → dma_only h h'
}.

Section receive.
Context {E : Type} `{Env E} (n hr mask : Z) `{!EventDev E n hr mask}.
Implicit Types (w : world E) (cq : ice_ctl_q_info).

Record rq_mem (h : heap_t) (r : ice_ctl_q_ring) (size : Z) : Prop := {
  rm_desc : ∃ ds, h !! va (desc_buf r) = Some (Descs ds) ∧ Z.of_nat (length ds) = n;
  rm_bi : ∃ l, h !! bi r = Some (DmaInfo l) ∧ Z.of_nat (length l) = n ∧
    Forall (fun m => ∃ bs, h !! va m = Some (Data bs) ∧ Z.of_nat (length bs) = size) l
}.

Record rq_inv (h : heap_t) (cq : ice_ctl_q_info) : Prop := {
  qi_mem : rq_mem h (rq cq) (rq_buf_size cq);
  qi_n : 0 < n < 65536;
  qi_count : count (rq cq) = n;
  qi_num : num_rq_entries cq = n;
  qi_ntc : 0 <= next_to_clean (rq cq) < n;
  qi_head : head (rq cq) = hr;
  qi_mask : head_mask (rq cq) = mask
}.

Lemma rq_mem_compat h h' r size : compat h h' → rq_mem h r size → rq_mem h' r size.
Proof.
  intros Hc [(ds & Hd & Hdl) (m & Hm & Hml & Hmf)]. split.
  - destruct (compat_lookup _ _ _ _ Hc Hd) as ([] & E' & Hb); try done. simpl in Hb.
    eexists. split; [done|]. by rewrite Hb.
  - destruct (compat_lookup _ _ _ _ Hc Hm) as ([] & E' & Hb); try done. simpl in Hb. subst.
    eexists. split_and!; [done..|]. eapply Forall_impl; [exact Hmf|]. intros x (bs & Hbs & Hlen).
    destruct (compat_lookup _ _ _ _ Hc Hbs) as ([] & E'' & Hb); try done. simpl in Hb.
    eexists. split; [done|]. by rewrite Hb.
Qed.

(** The caller's event buffer: as long as announced, and no longer than the
    buffers of the queue. *)
Definition event_ok (cq : ice_ctl_q_info) (e : ice_rq_event_info) : Prop :=
  0 <= buf_len e <= rq_buf_size cq ∧
  match msg_buf e with Some b => buf_len e <= Z.of_nat (length b) | None => True end.

(** What the caller gets from descriptor [d] with the data [bs]. *)
Definition event_of (e : ice_rq_event_info) (d : ice_aq_desc) (bs : list Z) : ice_rq_event_info :=
  let k := Z.min (datalen d) (buf_len e) in
  mkEvent d k (buf_len e)
    ((fun b => if nz k then take (Z.to_nat k) bs ++ drop (Z.to_nat k) b else b) <$> msg_buf e).

(** Taking the event at [next_to_clean] from memory [h]: the event is that of the
    descriptor and the buffer there, and the device gets the tail together with
    memory in which the entry is posted again. *)
Definition taken (h : heap_t) (en : E) (cq : ice_ctl_q_info) (e : ice_rq_event_info)
    (status : ice_status) (e' : ice_rq_event_info) (ntc' : Z) (h' : heap_t) (en' : E) : Prop :=
  let ntc := next_to_clean (rq cq) in
  ∃ ds l d m bs, h !! va (desc_buf (rq cq)) = Some (Descs ds) ∧ rd ds ntc = Some d ∧
    h !! bi (rq cq) = Some (DmaInfo l) ∧ rd l ntc = Some m ∧ h !! va m = Some (Data bs) ∧
    e' = event_of e d bs ∧
    status = (if nz (flags d .& ICE_AQ_FLAG_ERR) then ICE_ERR_AQ_ERROR else ICE_SUCCESS) ∧
    ntc' = next_idx n ntc ∧
    env_wr32 (tail (rq cq)) ntc
      (<[va (desc_buf (rq cq)) := Descs (<[Z.to_nat ntc := rq_desc (rq_buf_size cq) m]> ds)]> h) en
    = (h', en').

Lemma wp_rq_take cq e ntu w : rq_inv (heap w) cq → event_ok cq e →
  wp (rq_take cq e (next_to_clean (rq cq)) ntu) w (fun '(status, e', ntc', cq') w' =>
    taken (heap w) (env w) cq e status e' ntc' (heap w') (env w') ∧
    cq' = cq <| rq ::= fun r => r <| next_to_clean := ntc' |> <| next_to_use := ntu |> |> ∧
    rq_inv (heap w') cq').
Proof.
  intros [Hm Hn Hcount Hnum Hntc Hhead Hmask] [Hbl Hb].
  destruct (rm_desc _ _ _ Hm) as (ds & Hds & Hdl). destruct (rm_bi _ _ _ Hm) as (l & Hl & Hll & Hlf).
  destruct (rd_in_range ds (next_to_clean (rq cq))) as [d Ed]; [lia|].
  destruct (rd_in_range l (next_to_clean (rq cq))) as [m Em]; [lia|].
  destruct (rd_Forall _ _ _ _ Hlf Em) as (bs & Hbs & Hbsl).
  eapply wp_bind, wp_rd_desc; [done..|]. eapply wp_bind, wp_rd_info; [done..|].
  eapply wp_bind, (wp_mono _ _ (fun e' w' => w' = w ∧ e' = event_of e d bs)).
  { unfold event_of. simpl. destruct (msg_buf e) as [b|]; simpl; [|by apply wp_ret].
    destruct (nz (datalen d `min` buf_len e)); [|by apply wp_ret].
    eapply wp_bind, wp_rd_data; [done|lia|]. apply wp_ret. split; [done|].
    do 2 f_equal. rewrite length_take.
    destruct (decide (0 <= Z.min (datalen d) (buf_len e))); do 2 f_equal; lia. }
  intros e' w' [-> ->]. eapply wp_bind, wp_wr_desc; [done|lia|].
  apply wp_bind, wp_wr32_raw. intros h' en' Ew. apply wp_ret.
  assert (compat (heap w) h') as Hc.
  { pose proof (ev_wr _ _ _ _ _ _ Ew) as Hd. simpl in Hd.
    etransitivity; [|apply dma_only_compat; exact Hd].
    eapply compat_insert; [exact Hds|]. simpl. apply length_insert. }
  rewrite Hnum. split_and!; [|done|].
  - exists ds, l, d, m, bs. by split_and!.
  - destruct (rq_mem_compat _ _ _ _ Hc Hm).
    destruct (next_idx_spec n (next_to_clean (rq cq))) as [_ Hx]; [lia..|]. by split.
Qed.

Lemma pending_spec ntu ntc : 0 < n < 65536 → 0 <= ntu < n → 0 <= ntc < n →
  u16 ((if ntu <? ntc then n else 0) + (ntu - ntc)) = dist n ntc ntu.
Proof.
  intros Hn Hu Hc. destruct (Z.ltb_spec ntu ntc);
    rewrite wrap_small by (unfold in_width; change (2 ^ 16) with 65536; lia); dist_lia.
Qed.

(** Receiving an event: the call returns and releases the lock, and the
    queue stays well-formed.  With the head at [next_to_clean] there is no work
    and nothing changes; otherwise the caller gets the descriptor and as many
    bytes of the message as the event and its buffer have, the entry is posted
    again with its own buffer before the tail moves to it, and [next_to_clean]
    moves on by one.  The number of pending events is the distance from there to
    the head. *)
Theorem clean_rq_elem_spec cq e (want : bool) w v h1 en1 :
  rq_inv (heap w) cq → rq_lock cq = false → event_ok cq e →
  env_rd32 hr (heap w) (env w) = (v, h1, en1) →
  ∃ status e' pending cq' w',
    ice_clean_rq_elem cq e want w = Ret ((status, e', pending, cq'), w') ∧
    rq_inv (heap w') cq' ∧ rq_lock cq' = false ∧
    (if u16 (v .& mask) =? next_to_clean (rq cq)
     then status = ICE_ERR_AQ_NO_WORK ∧ e' = e <| e_desc := desc_zero |> ∧
       next_to_clean (rq cq') = next_to_clean (rq cq)
     else ∃ h2 en2, taken h1 en1 cq e status e' (next_to_clean (rq cq')) h2 en2) ∧
    (if want then ∃ ntu, 0 <= ntu < n ∧ pending = Some (dist n (next_to_clean (rq cq')) ntu)
     else pending = None).
Proof.
  intros Hinv Hlock He Hrd. destruct (ev_rd _ _ _ _ _ _ Hrd) as [Hd1 Hv]. specialize (Hv eq_refl).
  assert (rq_inv h1 (cq <| rq_lock := true |>)) as Hinv1.
  { destruct Hinv as [Hm ? ? ? ? ? ?]. split; try done. destruct (rq_mem_compat _ h1 _ _
      (dma_only_compat _ _ Hd1) Hm). by split. }
  set (P := fun (x : ice_status * ice_rq_event_info * Z * ice_ctl_q_info) w' =>
    let '(status, e', ntc', cq') := x in
    rq_inv (heap w') cq' ∧ ntc' = next_to_clean (rq cq') ∧
    if u16 (v .& mask) =? next_to_clean (rq cq)
    then status = ICE_ERR_AQ_NO_WORK ∧ e' = e <| e_desc := desc_zero |> ∧
      next_to_clean (rq cq') = next_to_clean (rq cq)
    else ∃ h2 en2, taken h1 en1 cq e status e' (next_to_clean (rq cq')) h2 en2).
  enough (wp (ice_clean_rq_elem cq e want) w (fun '(status, e', pending, cq') w' =>
    rq_lock cq' = false ∧ P (status, e', next_to_clean (rq cq'), cq') w' ∧
    if want then ∃ ntu, 0 <= ntu < n ∧ pending = Some (dist n (next_to_clean (rq cq')) ntu)
    else pending = None)) as Hwp.
  { destruct (wp_inv _ _ _ Hwp) as ([[[status e'] pe] cq'] & w' & Eq & Hlk & (Hi & _ & Hp) & Hpe).
    by exists status, e', pe, cq', w'. }
  unfold ice_clean_rq_elem. rewrite Hlock. apply wp_bind, wp_ret.
  change (rq (cq <| rq_lock := true |>)) with (rq cq).
  rewrite (qi_count _ _ Hinv), (proj2 (Z.eqb_neq n 0)) by (pose proof (qi_n _ _ Hinv); lia).
  apply wp_bind. unfold wp at 1, rd32. rewrite (qi_head _ _ Hinv), Hrd.
  rewrite (qi_mask _ _ Hinv). eapply wp_bind, (wp_mono _ _ P).
  - unfold P. destruct (Z.eqb_spec (u16 (v .& mask)) (next_to_clean (rq cq))); [by apply wp_ret|].
    pose (cq1 := cq <| rq_lock := true |>). pose (e1 := e <| e_desc := desc_zero |>).
    eapply wp_mono; [exact (wp_rq_take cq1 e1 _ (mkWorld h1 (fresh w) en1) Hinv1 He)|].
    intros [[[status e'] ntc'] cq'] w' (Ht & -> & Hi). split_and!; [done..|]. by eexists _, _.
  - intros [[[status e'] ntc'] cq'] w' (Hi & -> & Hp). apply wp_bind. destruct want.
    2:{ apply wp_ret, wp_ret. split_and!; try done. destruct Hi as [[] ? ? ? ? ? ?]. by split. }
    apply wp_bind. unfold wp at 1, rd32.
    destruct (env_rd32 (head (rq cq')) (heap w') (env w')) as [[v2 h2] en2] eqn:Er2.
    destruct (ev_rd _ _ _ _ _ _ Er2) as [Hd2 Hv2]. specialize (Hv2 (qi_head _ _ Hi)).
    apply wp_ret, wp_ret. rewrite (qi_count _ _ Hi), (qi_mask _ _ Hi).
    rewrite pending_spec by (done || apply Hi). split; [done|]. split; [|by eexists]. split_and!; try done.
    destruct Hi as [Hm ? ? ? ? ? ?]. split; try done.
    destruct (rq_mem_compat _ h2 _ _ (dma_only_compat _ _ Hd2) Hm). by split.
Qed.
End receive.

#[export] Instance ideal_event : EventDev ideal 4 (r_ARQH PF_FW) QHEAD_M.
Proof.
  split.
  - intros reg h e v h' e' Hr. injection Hr as <- <- _. split; [apply dma_only_refl|].
    intros ->. by vm_compute.
  - intros reg v h e h' e' Hw. injection Hw as <- _. apply dma_only_refl.
Qed.

(** The receive queue of the admin queue on the memory of [demo_heap], with an
    event waiting in the last entry. *)
Definition demo_rq : ice_ctl_q_info :=
  demo_cq <| rq := ring_regs (demo_ring <| next_to_clean := 3 |>) (r_ARQH PF_FW) (r_ARQT PF_FW)
    (r_ARQLEN PF_FW) (r_ARQBAH PF_FW) (r_ARQBAL PF_FW) |>.
Definition demo_events : world ideal :=
  mkWorld (<[1 := Descs (replicate 3 desc_zero ++ [desc_zero <| datalen := 2 |>])]>
    (<[13 := Data (7 :: 8 :: replicate 14 0)]> demo_heap)) 14 (mkIdeal 3 1 0 0).

Lemma clean_rq_elem_spec_witness :
  ∃ status e' pending cq' w',
    ice_clean_rq_elem demo_rq (mkEvent desc_zero 0 4 (Some [1; 1; 1; 1])) true demo_events
      = Ret ((status, e', pending, cq'), w') ∧
    rq_inv 4 (r_ARQH PF_FW) QHEAD_M (heap w') cq' ∧ next_to_clean (rq cq') = 0 ∧
    pending = Some 0 ∧ msg_buf e' = Some [7; 8; 1; 1].
Proof.
  destruct (clean_rq_elem_spec 4 (r_ARQH PF_FW) QHEAD_M demo_rq
    (mkEvent desc_zero 0 4 (Some [1; 1; 1; 1])) true demo_events 0 (heap demo_events)
    (mkIdeal 1 1 0 0)) as (status & e' & pending & cq' & w' & Eq & Hi & _).
  - split; [split|..]; try (vm_compute; intuition congruence).
    + eexists. by split.
    + eexists. split_and!; [done..|]. repeat constructor; by eexists.
  - done.
  - vm_compute. intuition congruence.
  - done.
  - exists status, e', pending, cq', w'. split; [exact Eq|]. split; [exact Hi|].
    vm_compute in Eq. injection Eq as <- <- <- <- <-. by split_and!.
Defined.
