(* ===== verification/IceCtlqMem.v ===== *)
(** * Memory of the control queues

    Initialising a queue and shutting it down again leaves the heap with the
    blocks it had before, and so does an initialisation that fails; but a queue
    that has been shut down keeps the addresses of its freed blocks, and a failed
    second initialisation follows them.  Resending a command with a buffer sends
    a cleared buffer. *)
From S2P Require Import Prelude IceStatus IceCtlq IceCtlqSpec.
Local Open Scope Z_scope.

(** A device that writes only to descriptors and buffers; physical addresses are
    not zero. *)
Class DmaDev (E : Type) `{Env E} : Prop := {
  dd_rd reg h e v h' e' : env_rd32 reg h e = (v, h', e') → dma_only h h';
  dd_wr reg v h e h' e' : env_wr32 reg v h e = (h', e') → dma_only h h';
  dd_pa e p e' : env_dma e = (Some p, e') → p ≠ 0
}.

Section memory.
Context {E : Type} `{Env E} `{!DmaDev E}.
Implicit Types (w : world E) (cq : ice_ctl_q_info).

(** Addresses in use lie below the next fresh one; 0 is [NULL]. *)
Definition heap_ok (w : world E) : Prop :=
  0 < fresh w ∧ ∀ q, is_Some (heap w !! q) → 0 < q < fresh w.

(** [w'] has the blocks of [w] and those of [P]; addresses up to [w'] are used. *)
Definition blocks (w w' : world E) (P : Z → Prop) : Prop :=
  fresh w <= fresh w' ∧ ∀ q, is_Some (heap w' !! q) ↔ is_Some (heap w !! q) ∨ P q.

Lemma wp_rd32_dma reg w (Q : Z → world E → Prop) :
  (∀ v w', dma_only (heap w) (heap w') → fresh w' = fresh w → Q v w') → wp (rd32 reg) w Q.
Proof.
  intros HQ. unfold wp, rd32. destruct (env_rd32 _ _ _) as [[v h] e] eqn:Er.
  apply HQ; [by eapply dd_rd|done].
Qed.

Lemma wp_wr32_dma reg v w (Q : unit → world E → Prop) :
  (∀ w', dma_only (heap w) (heap w') → fresh w' = fresh w → Q tt w') → wp (wr32 reg v) w Q.
Proof.
  intros HQ. apply wp_wr32_raw. intros h e Ew. apply HQ; [by eapply dd_wr|done].
Qed.

Lemma dma_only_dom h h' q : dma_only h h' → is_Some (h' !! q) ↔ is_Some (h !! q).
Proof.
  intros Hd. specialize (Hd q). destruct (h !! q) as [[]|], (h' !! q) as [[]|];
    simplify_eq; split; intros []; done || by eexists.
Qed.

Lemma dma_only_info h h' q l : dma_only h h' → h !! q = Some (DmaInfo l) →
  h' !! q = Some (DmaInfo l).
Proof. intros Hd Hq. specialize (Hd q). by rewrite Hq in Hd. Qed.

(** *** Buffers *)

(** The state in the loop over the buffers of the ring at [D]: entries below [i]
    of the list [l] at [p] have blocks with consecutive addresses after those of
    [w0], the others are clear. *)
Record bufs (w0 w : world E) (D p n i : Z) (l : list ice_dma_mem) : Prop := {
  bu_ok : heap_ok w0;
  bu_i : 0 <= i <= n;
  bu_fresh : fresh w = fresh w0 + i;
  bu_p : p ≠ 0 ∧ p < fresh w0;
  bu_dom : ∀ q, is_Some (heap w !! q) ↔
    is_Some (heap w0 !! q) ∨ fresh w0 <= q < fresh w0 + i;
  bu_ring : ∃ ds, heap w !! D = Some (Descs ds) ∧ Z.of_nat (length ds) = n;
  bu_list : heap w !! p = Some (DmaInfo l) ∧ Z.of_nat (length l) = n;
  bu_used : ∀ k, 0 <= k < i → ∃ m, rd l k = Some m ∧ va m = fresh w0 + k ∧ pa m ≠ 0;
  bu_free : ∀ k, i <= k < n → rd l k = Some dma_zero
}.

Lemma rd_insert_eq {A} (l : list A) i x : 0 <= i < Z.of_nat (length l) →
  rd (<[Z.to_nat i := x]> l) i = Some x.
Proof. intros. eapply rd_wr_eq. by apply wr_in_range. Qed.

Lemma rd_insert_ne {A} (l : list A) i j x : 0 <= i < Z.of_nat (length l) → i ≠ j →
  rd (<[Z.to_nat i := x]> l) j = rd l j.
Proof. intros. eapply (rd_wr_ne l i j x); [by apply wr_in_range|done]. Qed.

(** The next entry gets a block. *)
Lemma bufs_add w0 w D p n i l e m : bufs w0 w D p n i l → i < n → va m = fresh w → pa m ≠ 0 →
  ∀ b, bufs w0 (mkWorld (<[p := DmaInfo (<[Z.to_nat i := m]> l)]> (<[fresh w := b]> (heap w)))
    (fresh w + 1) e) D p n (i + 1) (<[Z.to_nat i := m]> l).
Proof.
  intros [[Hf0 Hok] Hi Hfr [Hp0 Hp] Hdom (ds & Hds & Hdl) [Hl Hll] Hused Hfree] Hin Hva Hpa b.
  assert (p ≠ D) as HpD by congruence.
  assert (fresh w ≠ D) as HfD.
  { intros HD. destruct (proj1 (Hdom D)) as [?%Hok|?]; [by eexists|lia..]. }
  split; simpl; [done|lia|lia|done| | | | |].
  - intros q. destruct (decide (p = q)) as [<-|].
    { rewrite lookup_insert_eq. split; [intros _|by eexists].
      destruct (proj1 (Hdom p)) as [?|?]; [by exists (DmaInfo l)|by left|lia]. }
    rewrite lookup_insert_ne by done. destruct (decide (fresh w = q)) as [<-|].
    { rewrite lookup_insert_eq. split; [right; lia|by eexists]. }
    rewrite lookup_insert_ne, Hdom by done. split; intros [?|?]; auto; right; lia.
  - exists ds. by rewrite !lookup_insert_ne by done.
  - rewrite lookup_insert_eq. by rewrite length_insert.
  - intros k Hk. destruct (decide (k = i)) as [->|].
    + exists m. rewrite rd_insert_eq by lia. split_and!; [done|lia|done].
    + rewrite rd_insert_ne by lia. apply Hused. lia.
  - intros k Hk. rewrite rd_insert_ne by lia. apply Hfree. lia.
Qed.

Lemma wp_alloc_buf w0 w D p n i l size : bufs w0 w D p n i l → i < n →
  wp (alloc_buf p i size) w (fun mem w' =>
    if va mem =? 0 then bufs w0 w' D p n i l else ∃ l', bufs w0 w' D p n (i + 1) l').
Proof.
  intros Hb Hin. pose proof Hb as [[Hf0 Hok] Hi Hfr [Hp0 Hp] Hdom Hring [Hl Hll] Hused Hfree].
  eapply wp_bind, wp_rd_info; [done|by apply Hfree|]. apply wp_bind.
  unfold wp at 1, ice_alloc_dma_mem. destruct (env_dma (env w)) as [[phys|] e'] eqn:Ed; simpl.
  - apply dd_pa in Ed. assert (fresh w ≠ p) by lia.
    eapply wp_bind, wp_wr_info; [simpl; rewrite lookup_insert_ne by done; exact Hl|lia|].
    apply wp_ret. simpl va. rewrite (proj2 (Z.eqb_neq (fresh w) 0)) by lia.
    eexists. by apply bufs_add.
  - eapply wp_bind, wp_wr_info; [exact Hl|lia|]. apply wp_ret. simpl.
    assert (<[Z.to_nat i := mkDma 0 0 0]> l = l) as ->.
    { apply list_insert_id. pose proof (Hfree i ltac:(lia)) as Hr. unfold rd in Hr.
      by rewrite (proj2 (Z.leb_le _ _)) in Hr by lia. }
    unfold set_heap. simpl. rewrite insert_id by exact Hl. by split.
Qed.

(** Work on the ring that is done with each buffer. *)
Definition ring_only (post : Z → ice_dma_mem → M E unit) (D n : Z) : Prop :=
  ∀ i mem w ds, 0 <= i < n → heap w !! D = Some (Descs ds) → Z.of_nat (length ds) = n →
    wp (post i mem) w (fun _ w' => ∃ ds', Z.of_nat (length ds') = n ∧
      w' = set_heap w (<[D := Descs ds']> (heap w))).

Lemma bufs_ring w0 w D p n i l ds' : bufs w0 w D p n i l → Z.of_nat (length ds') = n →
  bufs w0 (set_heap w (<[D := Descs ds']> (heap w))) D p n i l.
Proof.
  intros [Hok Hi Hfr [Hp0 Hp] Hdom (ds & Hds & Hdl) [Hl Hll] Hused Hfree] Hlen.
  assert (D ≠ p) by congruence. split; simpl; try done.
  - intros q. rewrite <- Hdom. destruct (decide (D = q)) as [<-|].
    + rewrite lookup_insert_eq, Hds. split; by eexists.
    + by rewrite lookup_insert_ne.
  - exists ds'. by rewrite lookup_insert_eq.
  - by rewrite lookup_insert_ne.
Qed.

(** All buffers, or the index that failed. *)
Lemma wp_bufs_loop post w0 w D p n i l size k : ring_only post D n →
  bufs w0 w D p n i l → Z.of_nat k = n - i →
  wp (bufs_loop post size k p i) w (fun r w' =>
    ∃ l', bufs w0 w' D p n (default n r) l').
Proof.
  intros Hpost. revert w i l. induction k as [|k IH]; intros w i l Hb Hk; cbn [bufs_loop].
  { apply wp_ret. exists l. simpl. assert (i = n) as -> by lia. done. }
  eapply wp_bind, wp_mono; [apply wp_alloc_buf; [done|lia]|]. intros mem w1 Hb1. cbn beta in Hb1.
  destruct (va mem =? 0); [apply wp_ret; by exists l|]. destruct Hb1 as [l1 Hb1].
  destruct (bu_ring _ _ _ _ _ _ _ Hb1) as (ds & Hds & Hdl).
  eapply wp_bind, wp_mono; [eapply Hpost; [pose proof (bu_i _ _ _ _ _ _ _ Hb); lia|done..]|].
  intros [] w2 (ds' & Hlen & ->). apply (IH _ _ l1); [by apply bufs_ring|lia].
Qed.

(** *** Freeing *)

(** The blocks of the buffers from [lo] to [hi] are in use, besides those of [w0]. *)
Record held (w0 w : world E) (p lo hi : Z) (l : list ice_dma_mem) : Prop := {
  he_ok : heap_ok w0;
  he_lo : 0 <= lo;
  he_p : p ≠ 0 ∧ p < fresh w0;
  he_fresh : fresh w0 <= fresh w;
  he_dom : ∀ q, is_Some (heap w !! q) ↔
    is_Some (heap w0 !! q) ∨ fresh w0 + lo <= q < fresh w0 + hi;
  he_list : heap w !! p = Some (DmaInfo l) ∧ hi <= Z.of_nat (length l);
  he_used : ∀ k, lo <= k < hi → ∃ m, rd l k = Some m ∧ va m = fresh w0 + k ∧ pa m ≠ 0
}.

Lemma bufs_held w0 w D p n i l : bufs w0 w D p n i l → held w0 w p 0 i l.
Proof.
  intros [Hok Hi Hfr Hp Hdom Hring [Hl Hll] Hused Hfree].
  split; try done; try lia; try (split; [done|lia]). intros q. by rewrite Hdom, Z.add_0_r.
Qed.

(** Free the buffer of entry [k], at one end of the range. *)
Lemma wp_free_buf w0 w p lo hi l k lo' hi' (Q : unit → world E → Prop) m :
  held w0 w p lo hi l → lo <= k < hi → rd l k = Some m →
  (k = lo ∧ lo' = lo + 1 ∧ hi' = hi ∨ k = hi - 1 ∧ lo' = lo ∧ hi' = hi - 1) →
  (∀ w' l', held w0 w' p lo' hi' l' → fresh w' = fresh w → Q tt w') →
  wp (free_buf p k m) w Q.
Proof.
  intros [Hok Hlo [Hp0 Hp] Hfr Hdom [Hl Hll] Hused] Hk Hm Hend HQ.
  destruct (Hused k Hk) as (m' & Em & Hva & Hpa). assert (m' = m) as -> by congruence.
  assert (is_Some (heap w !! va m)) as [b Hb] by (apply Hdom; right; lia).
  apply wp_bind, wp_bind. unfold wp at 1, del_block. rewrite Hb. apply wp_ret.
  assert (va m ≠ p) by lia.
  eapply wp_wr_info; [simpl; by rewrite lookup_delete_ne|lia|].
  eapply HQ; [|done]. split; simpl; [done|lia|done|done| | |].
  - intros q. destruct (decide (p = q)) as [<-|].
    { rewrite lookup_insert_eq. split; [intros _|by eexists].
      destruct (proj1 (Hdom p)) as [?|?]; [by eexists|by left|lia]. }
    rewrite lookup_insert_ne by done. destruct (decide (va m = q)) as [<-|].
    { rewrite lookup_delete_eq. split; [by intros []|].
      intros [[_ ?]%Hok|?]; lia. }
    rewrite lookup_delete_ne, Hdom by done. split; intros [?|?]; auto; right; lia.
  - rewrite lookup_insert_eq. split; [done|]. rewrite length_insert. lia.
  - intros j Hj. rewrite rd_insert_ne by lia. apply Hused. lia.
Qed.

Lemma wp_unwind_bufs w0 w p i l k : held w0 w p 0 i l → Z.of_nat k = i →
  wp (unwind_bufs k p) w (fun _ w' => ∃ l', held w0 w' p 0 0 l').
Proof.
  revert w i l. induction k as [|k IH]; intros w i l Hh Hk; cbn [unwind_bufs].
  { apply wp_ret. exists l. assert (i = 0) as -> by lia. done. }
  destruct (he_list _ _ _ _ _ _ Hh) as [Hl Hll].
  destruct (rd_in_range l (Z.of_nat k)) as [m Em]; [lia|].
  eapply wp_bind, wp_rd_info; [done..|].
  apply wp_bind. eapply (wp_free_buf w0 w p 0 i l (Z.of_nat k) 0 (i - 1)); [done|lia|done|right; lia|].
  intros w' l' Hh' _. apply (IH w' (i - 1) l'); [done|lia].
Qed.

Lemma wp_free_bufs_loop w0 w p lo hi l k : held w0 w p lo hi l → Z.of_nat k = hi - lo →
  wp (free_bufs_loop k p lo) w (fun _ w' => ∃ l', held w0 w' p hi hi l').
Proof.
  revert w lo l. induction k as [|k IH]; intros w lo l Hh Hk; cbn [free_bufs_loop].
  { apply wp_ret. exists l. assert (lo = hi) as -> by lia. done. }
  destruct (he_used _ _ _ _ _ _ Hh lo) as (m & Em & _ & Hpa); [lia|].
  destruct (he_list _ _ _ _ _ _ Hh) as [Hl _].
  eapply wp_bind, wp_rd_info; [done..|]. unfold nz. rewrite (proj2 (Z.eqb_neq (pa m) 0)) by done.
  apply wp_bind. eapply (wp_free_buf w0 w p lo hi l lo (lo + 1) hi); [done|lia|done|left; lia|].
  intros w' l' Hh' _. apply (IH w' (lo + 1) l'); [done|lia].
Qed.

(** [w] has the blocks of [w0] and those in [L], which are new. *)
Definition extra (w0 w : world E) (L : list Z) : Prop :=
  heap_ok w0 ∧ fresh w0 <= fresh w ∧ NoDup L ∧
  (∀ q, q ∈ L → 0 < q ∧ ¬ is_Some (heap w0 !! q)) ∧
  ∀ q, is_Some (heap w !! q) ↔ is_Some (heap w0 !! q) ∨ q ∈ L.

Lemma extra_dma w0 w w' L : extra w0 w L → dma_only (heap w) (heap w') → fresh w' = fresh w →
  extra w0 w' L.
Proof.
  intros (Hok & Hf & Hnd & Hnew & Hdom) Hd Hf'. split_and!; [done|lia|done..|].
  intros q. by rewrite (dma_only_dom _ _ _ Hd), Hdom.
Qed.

(** Deleting the first of the new blocks. *)
Lemma wp_del_block w0 w p L (Q : unit → world E → Prop) : extra w0 w (p :: L) →
  (∀ w', extra w0 w' L → (∀ q, q ≠ p → heap w' !! q = heap w !! q) → fresh w' = fresh w → Q tt w') →
  wp (del_block p) w Q.
Proof.
  intros (Hok & Hf & Hnd & Hnew & Hdom) HQ. apply NoDup_cons in Hnd as [Hp Hnd].
  assert (is_Some (heap w !! p)) as [b Hb] by (apply Hdom; right; left).
  unfold wp, del_block. rewrite Hb. apply HQ; [|intros; simpl; by rewrite lookup_delete_ne|done].
  split_and!; [done|done..|intros; apply Hnew; by right|].
  intros q. simpl. destruct (decide (p = q)) as [<-|].
  - rewrite lookup_delete_eq. destruct (Hnew p) as [_ Hn]; [left|]. split; [by intros []|tauto].
  - rewrite lookup_delete_ne, Hdom, elem_of_cons by done. naive_solver.
Qed.

Lemma wp_ice_free w0 w p L (Q : unit → world E → Prop) : extra w0 w (p :: L) →
  (∀ w', extra w0 w' L → (∀ q, q ≠ p → heap w' !! q = heap w !! q) → Q tt w') →
  wp (ice_free p) w Q.
Proof.
  intros He HQ. unfold ice_free. pose proof He as (_ & _ & _ & Hnew & _).
  destruct (Hnew p) as [Hp _]; [left|]. rewrite (proj2 (Z.eqb_neq p 0)) by lia.
  eapply wp_del_block; [done|auto].
Qed.

Lemma wp_free_cq_ring w0 w r L (Q : ice_ctl_q_ring → world E → Prop) :
  extra w0 w (va (desc_buf r) :: L) →
  (∀ r' w', r' = r <| desc_buf := mkDma 0 0 (msize (desc_buf r)) |> → extra w0 w' L → Q r' w') →
  wp (ice_free_cq_ring r) w Q.
Proof.
  intros He HQ. apply wp_bind, wp_bind. eapply wp_del_block; [done|]. intros w' He' _ _.
  apply wp_ret, wp_ret. by apply HQ.
Qed.

(** A new block. *)
Lemma extra_new w0 w L b : extra w0 w L → heap_ok w →
  extra w0 (mkWorld (<[fresh w := b]> (heap w)) (fresh w + 1) (env w)) (fresh w :: L) ∧
  heap_ok (mkWorld (<[fresh w := b]> (heap w)) (fresh w + 1) (env w)).
Proof.
  intros (Hok & Hf & Hnd & Hnew & Hdom) [Hf0 Hok'].
  assert (¬ is_Some (heap w !! fresh w)) as Hfree by (intros ?%Hok'; lia).
  split.
  - split_and!; [done|simpl; lia| | |].
    + apply NoDup_cons. split; [|done]. intros Hin. apply Hfree, Hdom. by right.
    + intros q [->|Hin]%elem_of_cons; [|by apply Hnew]. split; [lia|].
      intros Hs. apply Hfree, Hdom. by left.
    + intros q. simpl. rewrite elem_of_cons. destruct (decide (fresh w = q)) as [<-|].
      * rewrite lookup_insert_eq. split; [auto|by eexists].
      * rewrite lookup_insert_ne, Hdom by done. naive_solver.
  - split; simpl; [lia|]. intros q. destruct (decide (fresh w = q)) as [<-|].
    + lia.
    + rewrite lookup_insert_ne by done. intros ?%Hok'. lia.
Qed.

Lemma wp_ice_calloc w0 w L b (Q : Z → world E → Prop) : extra w0 w L → heap_ok w →
  (∀ w', extra w0 w' L → heap_ok w' → heap w' = heap w → Q 0 w') →
  (∀ p w', p ≠ 0 → extra w0 w' (p :: L) → heap_ok w' → fresh w' = p + 1 → fresh w = p →
     heap w' = <[p := b]> (heap w) → Q p w') →
  wp (ice_calloc b) w Q.
Proof.
  intros He Hok Hno Hyes. unfold wp, ice_calloc. destruct (env_malloc (env w)) as [[] e].
  - simpl. destruct (extra_new w0 (mkWorld (heap w) (fresh w) e) L b He Hok) as [He' Hok'].
    apply Hyes; try done. destruct Hok. lia.
  - by apply Hno.
Qed.

Lemma wp_alloc_dma w0 w L mem b size (Q : ice_dma_mem → world E → Prop) :
  extra w0 w L → heap_ok w →
  (∀ m w', va m = 0 → extra w0 w' L → heap_ok w' → Q m w') →
  (∀ m w', va m ≠ 0 → extra w0 w' (va m :: L) → heap_ok w' → heap w' !! va m = Some b →
     fresh w' = va m + 1 → fresh w = va m → Q m w') →
  wp (ice_alloc_dma_mem mem b size) w Q.
Proof.
  intros He Hok Hno Hyes. unfold wp, ice_alloc_dma_mem. destruct (env_dma (env w)) as [[ph|] e].
  - simpl. destruct (extra_new w0 (mkWorld (heap w) (fresh w) e) L b He Hok) as [He' Hok'].
    apply Hyes; try done; simpl; [destruct Hok; lia|apply lookup_insert_eq].
  - by apply Hno.
Qed.

Lemma extra_perm w0 w L L' : Permutation L L' → extra w0 w L → extra w0 w L'.
Proof.
  intros HP (Hok & Hf & Hnd & Hnew & Hdom). split_and!; [done..|by rewrite <- HP| |].
  - intros q Hq. apply Hnew. by rewrite HP.
  - intros q. by rewrite Hdom, HP.
Qed.

Lemma held_dma w1 w w' p lo hi l : held w1 w p lo hi l → dma_only (heap w) (heap w') →
  fresh w' = fresh w → held w1 w' p lo hi l.
Proof.
  intros [Hok Hlo Hp Hfr Hdom [Hl Hll] Hused] Hd Hf. split; try done; [lia| |].
  - intros q. by rewrite (dma_only_dom _ _ _ Hd), Hdom.
  - split; [by eapply dma_only_info|done].
Qed.

(** With no buffer held, only the blocks of [w1] are left. *)
Lemma held_none w0 w1 w p k l L : held w1 w p k k l → extra w0 w1 L → extra w0 w L.
Proof.
  intros Hh (Hok & Hf & Hnd & Hnew & Hdom). split_and!; try done.
  - pose proof (he_fresh _ _ _ _ _ _ Hh). lia.
  - intros q. rewrite (he_dom _ _ _ _ _ _ Hh), Hdom. split; [|tauto]. intros [?|?]; [done|lia].
Qed.

(** The loop over the buffers and, when it fails, the way back. *)
Lemma wp_loop_or_unwind post size w0 w1 D p n L ds :
  extra w0 w1 (p :: L) → heap_ok w1 → fresh w1 = p + 1 → ring_only post D (Z.of_nat n) →
  heap w1 !! D = Some (Descs ds) → length ds = n →
  heap w1 !! p = Some (DmaInfo (replicate n dma_zero)) →
  wp (bufs_loop post size n p 0) w1 (fun r w2 =>
    match r with
    | None => ∃ l, held w1 w2 p 0 (Z.of_nat n) l
    | Some j => wp (unwind_bufs (Z.to_nat j) p) w2 (fun _ w3 =>
        wp (ice_free p) w3 (fun _ w4 => extra w0 w4 L))
    end).
Proof.
  intros He Hok Hfr Hpost Hds Hdl Hp.
  assert (bufs w1 w1 D p (Z.of_nat n) 0 (replicate n dma_zero)) as Hb.
  { destruct He as (_ & _ & _ & Hnew & _). destruct (Hnew p) as [Hp0 _]; [left|].
    split; [done|lia|lia|lia| | | |lia|].
    - intros q. split; [auto|intros [?|?]; [done|lia]].
    - exists ds. split; [done|lia].
    - split; [done|]. by rewrite length_replicate.
    - intros k Hk. unfold rd. rewrite (proj2 (Z.leb_le _ _)) by lia.
      apply lookup_replicate. split; [done|lia]. }
  eapply wp_mono; [eapply wp_bufs_loop; [done|exact Hb|lia]|]. intros r w2 [l Hb2].
  destruct r as [j|]; simpl in Hb2; [|exists l; by eapply bufs_held].
  eapply wp_mono; [eapply wp_unwind_bufs; [by eapply bufs_held|]|].
  { pose proof (bu_i _ _ _ _ _ _ _ Hb2). lia. }
  intros [] w3 [l3 Hh3]. eapply wp_ice_free; [by eapply held_none|auto].
Qed.

(** *** The send queue *)

(** The blocks of an initialised send queue are the new ones. *)
Definition sq_owned (w0 w : world E) (cq : ice_ctl_q_info) : Prop :=
  let r := sq cq in
  dma_head r = bi r ∧ ∃ w1 l, extra w0 w1 [bi r; cmd_buf r; va (desc_buf r)] ∧
    held w1 w (bi r) 0 (num_sq_entries cq) l.

Lemma wp_free_sq w0 w cq : sq_owned w0 w cq → 0 <= num_sq_entries cq →
  wp (free_sq cq) w (fun cq' w' => extra w0 w' [] ∧
    cq' = cq <| sq ::= fun r => r <| desc_buf := mkDma 0 0 (msize (desc_buf r)) |> |>).
Proof.
  intros (Hdh & w1 & l & He & Hh) Hn. unfold free_sq, ICE_FREE_CQ_BUFS.
  destruct (he_p _ _ _ _ _ _ Hh) as [Hp0 _]. unfold nz. rewrite (proj2 (Z.eqb_neq _ 0)) by done.
  apply wp_bind, wp_bind. eapply wp_mono; [eapply wp_free_bufs_loop; [done|lia]|].
  intros [] w2 [l2 Hh2]. pose proof (held_none _ _ _ _ _ _ _ Hh2 He) as He2.
  apply wp_bind. eapply wp_ice_free; [eapply extra_perm; [apply Permutation_swap|done]|].
  intros w3 He3 _. rewrite Hdh. eapply wp_ice_free; [done|]. intros w4 He4 _.
  apply wp_bind. eapply wp_free_cq_ring; [done|]. intros r w5 -> He5. by apply wp_ret.
Qed.

(** Without buffers: the exit after a failed allocation. *)
Lemma wp_free_sq_ring w0 w cq : bi (sq cq) = 0 → dma_head (sq cq) = 0 →
  extra w0 w [cmd_buf (sq cq); va (desc_buf (sq cq))] →
  wp (free_sq cq) w (fun cq' w' => extra w0 w' [] ∧
    count (sq cq') = count (sq cq) ∧ sq_lock cq' = sq_lock cq).
Proof.
  intros Hbi Hdh He. unfold free_sq, ICE_FREE_CQ_BUFS. rewrite Hbi, Hdh.
  apply wp_bind, wp_bind, wp_ret, wp_bind. eapply wp_ice_free; [done|]. intros w1 He1 _.
  apply wp_ret, wp_bind. eapply wp_free_cq_ring; [done|]. intros r w2 -> He2. by apply wp_ret.
Qed.

Lemma wp_alloc_sq_bufs w0 w cq ds : bi (sq cq) = 0 →
  extra w0 w [cmd_buf (sq cq); va (desc_buf (sq cq))] → heap_ok w → 0 <= num_sq_entries cq →
  heap w !! va (desc_buf (sq cq)) = Some (Descs ds) → length ds = Z.to_nat (num_sq_entries cq) →
  wp (ice_alloc_sq_bufs cq) w (fun '(s, cq') w' =>
    count (sq cq') = count (sq cq) ∧ num_sq_entries cq' = num_sq_entries cq ∧
    sq_lock cq' = sq_lock cq ∧
    if is_ok s then sq_owned w0 w' cq'
    else bi (sq cq') = 0 ∧ dma_head (sq cq') = 0 ∧
      extra w0 w' [cmd_buf (sq cq'); va (desc_buf (sq cq'))]).
Proof.
  intros Hbi He Hok Hn Hds Hdl. unfold ice_alloc_sq_bufs.
  apply wp_bind. eapply wp_ice_calloc; [done..| |].
  { intros w1 He1 _ _. by apply wp_ret. }
  intros p w1 Hp He1 Hok1 Hf1 Hf Hh1. rewrite (proj2 (Z.eqb_neq p 0)) by done.
  assert (va (desc_buf (sq cq)) ≠ p) as HDp.
  { intros HD. destruct Hok as [_ Hok]. rewrite HD in Hds. destruct (Hok p); [by eexists|lia]. }
  apply wp_bind. eapply wp_mono; [eapply (wp_loop_or_unwind _ _ w0 w1); [done..| | | |]|].
  - intros i mem w2 ds2 _ Hd2 Hl2. apply wp_ret. exists ds2. split; [done|].
    destruct w2. unfold set_heap. simpl. by rewrite insert_id.
  - rewrite Hh1, lookup_insert_ne; [exact Hds|done].
  - done.
  - rewrite Hh1. by rewrite lookup_insert_eq.
  - intros [j|] w2 Hr; cbn beta iota in Hr.
    + eapply wp_bind, wp_mono; [exact Hr|]. intros [] w3 Hr3. eapply wp_bind, wp_mono; [exact Hr3|].
      intros [] w4 He4. by apply wp_ret.
    + apply wp_ret. split_and!; [done..|]. simpl. split; [done|]. destruct Hr as [l Hl].
      rewrite Z2Nat.id in Hl by done. by exists w1, l.
Qed.

Lemma extra_refl w : heap_ok w → extra w w [].
Proof.
  intros Hok. split_and!; [done|lia|constructor|by intros q ?%elem_of_nil|].
  intros q. rewrite elem_of_nil. tauto.
Qed.

Lemma wp_alloc_sq_ring w cq : heap_ok w →
  wp (ice_alloc_ctrlq_sq_ring cq) w (fun '(s, cq') w' =>
    (∃ mem c, cq' = cq <| sq ::= fun r => r <| desc_buf := mem |> <| cmd_buf := c |> |>) ∧
    if is_ok s then extra w w' [cmd_buf (sq cq'); va (desc_buf (sq cq'))] ∧ heap_ok w' ∧
      heap w' !! va (desc_buf (sq cq')) =
        Some (Descs (replicate (Z.to_nat (num_sq_entries cq)) desc_zero))
    else extra w w' []).
Proof.
  intros Hok. unfold ice_alloc_ctrlq_sq_ring. apply wp_bind.
  eapply wp_alloc_dma; [by apply extra_refl|done|..].
  - intros m w1 Hm He _. rewrite Hm. apply wp_ret. split; [|done].
    exists m, (cmd_buf (sq cq)). by destruct cq, sq.
  - intros m w1 Hm He Hok1 Hb Hf1 Hf. rewrite (proj2 (Z.eqb_neq (va m) 0)) by done.
    apply wp_bind. eapply wp_ice_calloc; [done..| |].
    + intros w2 He2 _ Hh2. apply wp_bind, wp_bind. eapply wp_del_block; [done|].
      intros w3 He3 _ _. apply wp_ret, wp_ret. split; [|done]. by eexists _, 0.
    + intros p w2 Hp He2 Hok2 Hf2 Hf1' Hh2. rewrite (proj2 (Z.eqb_neq p 0)) by done. apply wp_ret.
      split; [by exists m, p|]. simpl. split_and!; [done..|]. rewrite Hh2.
      rewrite lookup_insert_ne by lia. done.
Qed.

(** Configuring the registers leaves the blocks alone. *)
Lemma wp_cfg_cq_regs ring num w : wp (ice_cfg_cq_regs ring num) w (fun _ w' =>
  dma_only (heap w) (heap w') ∧ fresh w' = fresh w).
Proof.
  unfold ice_cfg_cq_regs.
  apply wp_bind, wp_wr32_dma; intros w1 H1 F1. apply wp_bind, wp_wr32_dma; intros w2 H2 F2.
  apply wp_bind, wp_wr32_dma; intros w3 H3 F3. apply wp_bind, wp_wr32_dma; intros w4 H4 F4.
  apply wp_bind, wp_wr32_dma; intros w5 H5 F5. apply wp_bind, wp_rd32_dma; intros v w6 H6 F6.
  apply wp_ret. split; [|congruence]. repeat (eapply dma_only_trans; [eassumption|]). apply dma_only_refl.
Qed.

Lemma wp_stop_ring r w : wp (stop_ring r) w (fun _ w' =>
  dma_only (heap w) (heap w') ∧ fresh w' = fresh w).
Proof.
  unfold stop_ring.
  apply wp_bind, wp_wr32_dma; intros w1 H1 F1. apply wp_bind, wp_wr32_dma; intros w2 H2 F2.
  apply wp_bind, wp_wr32_dma; intros w3 H3 F3. apply wp_bind, wp_wr32_dma; intros w4 H4 F4.
  apply wp_wr32_dma; intros w5 H5 F5.
  split; [|congruence]. repeat (eapply dma_only_trans; [eassumption|]). apply dma_only_refl.
Qed.

Lemma sq_owned_dma w0 w w' cq : sq_owned w0 w cq → dma_only (heap w) (heap w') →
  fresh w' = fresh w → sq_owned w0 w' cq.
Proof.
  intros (Hd & w1 & l & He & Hh) ? ?. split; [done|]. exists w1, l. split; [done|].
  by eapply held_dma.
Qed.

Lemma wp_init_sq w cq : heap_ok w → count (sq cq) = 0 → bi (sq cq) = 0 → 0 <= num_sq_entries cq →
  wp (ice_init_sq cq) w (fun '(s, cq') w' => sq_lock cq' = sq_lock cq ∧
    if is_ok s then count (sq cq') = num_sq_entries cq ∧ num_sq_entries cq' = num_sq_entries cq ∧
      0 < num_sq_entries cq ∧ sq_owned w w' cq'
    else count (sq cq') = 0 ∧ extra w w' []).
Proof.
  intros Hok Hc Hbi Hn. unfold ice_init_sq. rewrite Hc. cbn [Z.ltb Z.compare].
  destruct (Z.eqb_spec (num_sq_entries cq) 0), (sq_buf_size cq =? 0); cbn [orb];
    try (apply wp_ret; split; [done|]; split; [done|by apply extra_refl]).
  set (cq0 := cq <| sq ::= _ |>).
  eapply wp_bind, wp_mono; [by apply wp_alloc_sq_ring|].
  intros [s cq1] w1 [(mem & c & ->) Hr]. destruct s; try by apply wp_ret.
  destruct Hr as (He & Hok1 & Hds). cbn [is_ok bool_decide decide negb].
  eapply wp_bind, wp_mono.
  { eapply (wp_alloc_sq_bufs w w1); [done|exact He|done|done|exact Hds|by rewrite length_replicate]. }
  intros [s cq2] w2 (Hc2 & Hn2 & Hl2 & Hr2). simpl in Hc2, Hn2, Hl2.
  destruct (is_ok s) eqn:Es; cbn [negb].
  - eapply wp_bind, wp_mono; [apply wp_cfg_cq_regs|]. intros s3 w3 [Hd3 Hf3].
    pose proof (sq_owned_dma _ _ _ _ Hr2 Hd3 Hf3) as Hr3. destruct (is_ok s3) eqn:Es3; cbn [negb].
    + apply wp_ret. split; [done|]. simpl. split_and!; [done|done|lia|done].
    + eapply wp_bind, wp_mono; [apply (wp_free_sq w); [done|lia]|]. intros cq4 w4 [He4 ->].
      apply wp_ret. rewrite Es3. split_and!; [done| |done]. simpl. congruence.
  - destruct Hr2 as (Hbi2 & Hdh2 & He2).
    eapply wp_bind, wp_mono; [by apply (wp_free_sq_ring w)|]. intros cq4 w4 (He4 & Hc4 & Hl4).
    apply wp_ret. rewrite Es. split_and!; [congruence..|done].
Qed.

(** The memory of a queue in use: contents may change, blocks and lists of
    buffers do not, and the driver's indices move. *)
Definition in_use (w w' : world E) (cq cq' : ice_ctl_q_info) : Prop :=
  compat (heap w) (heap w') ∧ fresh w' = fresh w ∧ num_sq_entries cq' = num_sq_entries cq ∧
  sq_lock cq' = false ∧ dma_head (sq cq') = dma_head (sq cq) ∧ bi (sq cq') = bi (sq cq) ∧
  cmd_buf (sq cq') = cmd_buf (sq cq) ∧ desc_buf (sq cq') = desc_buf (sq cq) ∧
  count (sq cq') = count (sq cq).

Lemma compat_dom h h' q : compat h h' → is_Some (h' !! q) ↔ is_Some (h !! q).
Proof.
  intros Hc. specialize (Hc q). destruct (h !! q), (h' !! q); try done;
    split; intros []; by eexists.
Qed.

Lemma sq_owned_in_use w0 w w' cq cq' : sq_owned w0 w cq → in_use w w' cq cq' → sq_owned w0 w' cq'.
Proof.
  intros (Hd & w1 & l & He & [Hok Hlo Hp Hfr Hdom [Hl Hll] Hused])
    (Hc & Hf & Hn & _ & Edh & Ebi & Ecmd & Edb & _).
  unfold sq_owned. rewrite Edh, Ebi, Ecmd, Edb, Hn. split; [done|]. exists w1, l. split; [done|].
  split; try done; [lia| |].
  - intros q. by rewrite (compat_dom _ _ _ Hc), Hdom.
  - destruct (compat_lookup _ _ _ _ Hc Hl) as ([] & El & Hb); try done. simpl in Hb. by subst.
Qed.

Lemma wp_shutdown_sq w0 w cq : sq_owned w0 w cq → sq_lock cq = false → count (sq cq) ≠ 0 →
  0 <= num_sq_entries cq →
  wp (ice_shutdown_sq cq) w (fun '(s, cq') w' => s = ICE_SUCCESS ∧ extra w0 w' [] ∧
    count (sq cq') = 0 ∧ sq_lock cq' = false ∧ bi (sq cq') = bi (sq cq)).
Proof.
  intros Ho Hlock Hc Hn. unfold ice_shutdown_sq. rewrite Hlock. apply wp_bind, wp_ret.
  set (cq0 := cq <| sq_lock := true |>). change (count (sq cq0)) with (count (sq cq)).
  rewrite (proj2 (Z.eqb_neq _ 0)) by done. apply wp_bind.
  eapply wp_bind, wp_mono; [apply wp_stop_ring|]. intros [] w1 [Hd1 Hf1].
  eapply wp_bind, wp_mono; [apply (wp_free_sq w0); [|exact Hn]|].
  { by eapply (sq_owned_dma w0 w w1). }
  intros cq2 w2 [He ->]. apply wp_ret, wp_ret. by split_and!.
Qed.

(** C40. Memory of a send queue, on every path: initialising a queue that has
    never been initialised returns; when it fails, the heap has exactly the
    blocks it had before; when it succeeds, then after any use of the queue
    shutting it down succeeds, frees exactly the blocks the initialisation
    allocated and releases the lock. *)
Theorem init_shutdown_sq w cq : heap_ok w → count (sq cq) = 0 → bi (sq cq) = 0 →
  0 <= num_sq_entries cq →
  ∃ s cq1 w1, ice_init_sq cq w = Ret ((s, cq1), w1) ∧
    if is_ok s
    then count (sq cq1) = num_sq_entries cq ∧
      ∀ cq2 w2, in_use w1 w2 cq1 cq2 →
        ∃ cq3 w3, ice_shutdown_sq cq2 w2 = Ret ((ICE_SUCCESS, cq3), w3) ∧
          (∀ q, is_Some (heap w3 !! q) ↔ is_Some (heap w !! q)) ∧
          count (sq cq3) = 0 ∧ sq_lock cq3 = false
    else ∀ q, is_Some (heap w1 !! q) ↔ is_Some (heap w !! q).
Proof.
  intros Hok Hc Hbi Hn.
  destruct (wp_inv _ _ _ (wp_init_sq w cq Hok Hc Hbi Hn)) as ([s cq1] & w1 & Eq & _ & Hr).
  assert (∀ w', extra w w' [] → ∀ q, is_Some (heap w' !! q) ↔ is_Some (heap w !! q)) as Hnil.
  { intros w' (_ & _ & _ & _ & Hdom) q. rewrite Hdom, elem_of_nil. tauto. }
  exists s, cq1, w1. split; [done|]. destruct (is_ok s); [|by apply Hnil, Hr].
  destruct Hr as (Hc1 & Hn1 & Hpos & Ho). split; [done|]. intros cq2 w2 Hu.
  pose proof Hu as (_ & _ & En & El & _ & _ & _ & _ & Ec).
  destruct (wp_inv _ _ _ (wp_shutdown_sq w w2 cq2 (sq_owned_in_use _ _ _ _ _ Ho Hu) El
    ltac:(lia) ltac:(lia))) as ([s3 cq3] & w3 & Eq3 & -> & He & Hc3 & Hl3 & _).
  exists cq3, w3. split_and!; [done|by apply Hnil|done|done].
Qed.
End memory.

(** ** Witnesses and counterexamples *)

#[export] Instance ideal_dma : DmaDev ideal.
Proof.
  split.
  - intros reg h e v h' e' Hr. injection Hr as _ <- _. apply dma_only_refl.
  - intros reg v h e h' e' Hw. injection Hw as <- _. apply dma_only_refl.
  - intros e p e'. simpl. destruct (mem_left e); [done|]. intros [= <- _]. lia.
Qed.

Definition demo_new : ice_ctl_q_info :=
  ice_adminq_init_regs (mkCq ICE_CTL_Q_ADMIN (mkRing 0 dma_zero 0 0 0 0 0 0 0 0 0 0 0 0 0 0)
    (mkRing 0 dma_zero 0 0 0 0 0 0 0 0 0 0 0 0 0 0) 10 2 2 16 16 0 false false).

(** A world with memory for [k] allocations. *)
Definition demo_start (k : nat) : world ideal := mkWorld ∅ 1 (mkIdeal 0 0 0 k).

Lemma init_shutdown_sq_witness :
  ∃ s cq1 w1, ice_init_sq demo_new (demo_start 5) = Ret ((s, cq1), w1) ∧ s = ICE_SUCCESS ∧
    count (sq cq1) = 2.
Proof.
  destruct (init_shutdown_sq (demo_start 5) demo_new) as (s & cq1 & w1 & Eq & Hr);
    [split; [by vm_compute|intros q [? Hq]; simpl in Hq; by rewrite lookup_empty in Hq]|done|done|vm_compute; congruence|].
  exists s, cq1, w1. vm_compute in Eq. injection Eq as <- <- <-. by split_and!.
Defined.

(** Initialising a receive queue again: after a first life of the queue
    (initialisation and shutdown), a second initialisation that runs out of
    memory for the list of buffers follows the address of the freed list, which
    shutdown has left in the queue. *)
Theorem reinit_use_after_free :
  ∃ cq1 w1 cq2 w2,
    ice_init_rq demo_new (demo_start 5) = Ret ((ICE_SUCCESS, cq1), w1) ∧
    ice_shutdown_rq cq1 w1 = Ret ((ICE_SUCCESS, cq2), w2) ∧
    heap w2 = ∅ ∧ ice_init_rq cq2 w2 = Undef.
Proof.
  do 4 eexists. split_and!; [(vm_compute; reflexivity)..].
Qed.

(** A device that is always busy: it notes the buffer of each command and
    answers it with [ICE_AQ_RC_EBUSY]. *)
Record busy := mkBusy { b_pos : Z; b_log : list (list Z) }.

#[export] Instance busy_env : Env busy := {|
  env_rd32 reg h e := (if reg =? r_ATQH PF_FW then b_pos e else 0, h, e);
  env_wr32 reg v h e :=
    if negb (reg =? r_ATQT PF_FW) then (h, e)
    else match h !! 1, h !! (10 + b_pos e) with
    | Some (Descs ds), Some (Data bs) =>
        (<[1 := Descs (alter (fun d => d <| retval := ICE_AQ_RC_EBUSY |>) (Z.to_nat (b_pos e)) ds)]> h,
         mkBusy v (b_log e ++ [take 3 bs]))
    | _, _ => (h, e)
    end;
  env_malloc e := (true, e);
  env_dma e := (None, e);
  aq_send_cmd_fn := None
|}.

Definition demo_idle : ice_ctl_q_info := demo_cq <| sq ::= fun r => r <| next_to_clean := 1 |> |>.

(** Retrying a command: the copy of the buffer that is meant to restore it
    before each new attempt is never filled, so that the device gets the
    caller's bytes once and zeros afterwards, and the caller's buffer is lost. *)
Theorem retry_sends_cleared_buffer :
  ∃ desc' cq' w',
    ice_sq_send_cmd_retry 4 false demo_idle (ice_fill_dflt_direct_cmd_desc 0x0A0A)
      (Some [1; 2; 3]) 3 None (mkWorld demo_heap 14 (mkBusy 1 []))
      = Ret ((ICE_ERR_AQ_ERROR, desc', Some [0; 0; 0], cq'), w') ∧
    sq_last_status cq' = ICE_AQ_RC_EBUSY ∧
    b_log (env w') = [[1; 2; 3]; [0; 0; 0]; [0; 0; 0]].
Proof. do 3 eexists. split_and!; [(vm_compute; reflexivity)..]. Qed.
