(* ===== verification/IceAq.v ===== *)
(** * Admin commands

    What the base code builds on the admin queue: the parameters of a descriptor as
    bytes, the interface [AqDev] through which a command is sent, and the ownership
    of resources shared between drivers (ice_common.c).  The send functions of
    [IceCtlq] implement the interface ([ctlq_dev]). *)
From S2P Require Import IceCtlq IceStatus Prelude Bytes.
Local Open Scope Z_scope.

(** ** Descriptor parameters

    The union [params] is 16 bytes; a command accesses it through a struct of its
    own, so by offset. *)

Definition params (d : ice_aq_desc) : list Z :=
  le_bytes 4 (param0 d) ++ le_bytes 4 (param1 d) ++ le_bytes 4 (addr_high d) ++ le_bytes 4 (addr_low d).

Definition set_params (bs : list Z) (d : ice_aq_desc) : ice_aq_desc :=
  let w := fun k => le (take 4 (drop k bs)) in
  d <| param0 := w 0%nat |> <| param1 := w 4%nat |> <| addr_high := w 8%nat |> <| addr_low := w 12%nat |>.

(** The [n]-byte field at offset [off]. *)
Definition pget (n off : nat) (d : ice_aq_desc) : Z := le (take n (drop off (params d))).
Definition pset (n off : nat) (v : Z) (d : ice_aq_desc) : ice_aq_desc :=
  set_params (put (params d) off (le_bytes n v)) d.

(** ** The interface *)

(** What the base code sees of the machine: the admin queue, the result code of the
    last command and the time-out of the queue, registers, the allocator, and the
    content of a local variable that has not been initialised. *)
Class AqDev (D : Type) := {
  dev_send : ice_aq_desc → option (list Z) → Z → D →
    outcome (ice_status * ice_aq_desc * option (list Z) * D);
  dev_last_status : D → Z;
  dev_timeout : D → Z;
  dev_rd32 : Z → D → Z * D;
  dev_wr32 : Z → Z → D → D;
  dev_malloc : D → bool * D;
  dev_uninit : nat → D → list Z
}.

Definition DM (D A : Type) : Type := D → outcome (A * D).

#[export] Instance DM_ret D : MRet (DM D) := fun A a d => Ret (a, d).
#[export] Instance DM_bind D : MBind (DM D) := fun A B f m d =>
  match m d with Ret (a, d') => f a d' | Undef => Undef | OutOfFuel => OutOfFuel end.

Definition ICE_AQ_FLAG_RD : Z := 0x400.

Definition ICE_NVM_RES_ID : Z := 1.
Definition ICE_CHANGE_LOCK_RES_ID : Z := 3.
Definition ICE_GLOBAL_CFG_LOCK_RES_ID : Z := 4.
Definition ICE_RES_READ : Z := 1.
Definition ICE_RES_WRITE : Z := 2.
Definition ICE_AQ_RES_GLBL_SUCCESS : Z := 0.
Definition ICE_AQ_RES_GLBL_IN_PROG : Z := 1.
Definition ICE_AQ_RES_GLBL_DONE : Z := 2.
Definition ICE_RES_POLLING_DELAY_MS : Z := 10.
Definition ice_aqc_opc_req_res : Z := 0x0008.
Definition ice_aqc_opc_release_res : Z := 0x0009.

Section base.
Context {D : Type} `{AqDev D}.

Definition d_undef {A} : DM D A := fun _ => Undef.
Definition d_out_of_fuel {A} : DM D A := fun _ => OutOfFuel.
Definition d_option {A} (o : option A) : DM D A := match o with Some a => mret a | None => d_undef end.

Definition d_send (desc : ice_aq_desc) (buf : option (list Z)) (buf_size : Z)
    : DM D (ice_status * ice_aq_desc * option (list Z)) := dev_send desc buf buf_size.
Definition d_last_status : DM D Z := fun d => Ret (dev_last_status d, d).
Definition d_timeout : DM D Z := fun d => Ret (dev_timeout d, d).
Definition d_rd32 (reg : Z) : DM D Z := fun d => Ret (dev_rd32 reg d).
Definition d_wr32 (reg v : Z) : DM D unit := fun d => Ret (tt, dev_wr32 reg v d).
Definition d_malloc : DM D bool := fun d => Ret (dev_malloc d).
(** [n] bytes of an uninitialised local variable. *)
Definition d_uninit (n : nat) : DM D (list Z) := fun d =>
  if (length (dev_uninit n d) =? n)%nat then Ret (dev_uninit n d, d) else Undef.

(** ** Resources *)

(** The status and [*timeout]. *)
Definition ice_aq_req_res (res access sdp_number timeout : Z) : DM D (ice_status * Z) :=
  let desc := ice_fill_dflt_direct_cmd_desc ice_aqc_opc_req_res in
  let desc := pset 4 4 timeout (pset 4 8 sdp_number (pset 2 2 access (pset 2 0 res desc))) in
  '(status, desc, _) ← d_send desc None 0;
  if res =? ICE_GLOBAL_CFG_LOCK_RES_ID then
    if pget 2 12 desc =? ICE_AQ_RES_GLBL_SUCCESS then mret (ICE_SUCCESS, pget 4 4 desc)
    else if pget 2 12 desc =? ICE_AQ_RES_GLBL_IN_PROG then mret (ICE_ERR_AQ_ERROR, pget 4 4 desc)
    else if pget 2 12 desc =? ICE_AQ_RES_GLBL_DONE then mret (ICE_ERR_AQ_NO_WORK, 0)
    else mret (ICE_ERR_AQ_ERROR, 0)
  else
    last ← d_last_status;
    if is_ok status || (last =? ICE_AQ_RC_EBUSY) then mret (status, pget 4 4 desc) else mret (status, 0).

Definition ice_aq_release_res (res sdp_number : Z) : DM D ice_status :=
  let desc := pset 4 8 sdp_number (pset 2 0 res (ice_fill_dflt_direct_cmd_desc ice_aqc_opc_release_res)) in
  '(status, _, _) ← d_send desc None 0;
  mret status.

(** The polling loop of [ice_acquire_res]. *)
Fixpoint acquire_loop (fuel : nat) (res access timeout time_left : Z) (status : ice_status) : DM D ice_status :=
  if negb (is_ok status) && nz timeout && nz time_left then
    match fuel with
    | O => d_out_of_fuel
    | S fuel' =>
        let timeout := if ICE_RES_POLLING_DELAY_MS <? timeout then timeout - ICE_RES_POLLING_DELAY_MS else 0 in
        '(status, time_left) ← ice_aq_req_res res access 0 time_left;
        if bool_decide (status = ICE_ERR_AQ_NO_WORK) || is_ok status then mret status
        else acquire_loop fuel' res access timeout time_left status
    end
  else mret status.

(** The time that is left bounds the number of polls. *)
Definition ice_acquire_res (res access timeout : Z) : DM D ice_status :=
  '(status, time_left) ← ice_aq_req_res res access 0 timeout;
  if bool_decide (status = ICE_ERR_AQ_NO_WORK) then mret status
  else acquire_loop (Z.to_nat (time_left / ICE_RES_POLLING_DELAY_MS + 1)) res access time_left time_left status.

Fixpoint release_loop (fuel : nat) (res total_delay : Z) (status : ice_status) : DM D unit :=
  timeout ← d_timeout;
  if bool_decide (status = ICE_ERR_AQ_TIMEOUT) && (total_delay <? timeout) then
    match fuel with
    | O => d_out_of_fuel
    | S fuel' => status ← ice_aq_release_res res 0; release_loop fuel' res (total_delay + 1) status
    end
  else mret tt.

Definition ice_release_res (res : Z) : DM D unit :=
  timeout ← d_timeout;
  status ← ice_aq_release_res res 0;
  release_loop (Z.to_nat timeout) res 0 status.

End base.

(** ** The control queue as implementation *)

(** The driver's structure and the world of [IceCtlq]; [fuel] bounds the cleaning of
    the send queue, for which the number of its entries suffices. *)
Section ctlq.
Context {E : Type} `{Env E} (fuel : nat) (uninit : nat → ice_hw * world E → list Z).

Definition ctlq_send (desc : ice_aq_desc) (buf : option (list Z)) (buf_size : Z) (s : ice_hw * world E)
    : outcome (ice_status * ice_aq_desc * option (list Z) * (ice_hw * world E)) :=
  match ice_aq_send_cmd fuel (reset_ongoing s.1) (adminq s.1) desc buf buf_size None s.2 with
  | Ret ((status, desc, buf, cq), w) => Ret (status, desc, buf, (set_cq s.1 ICE_CTL_Q_ADMIN cq, w))
  | Undef => Undef
  | OutOfFuel => OutOfFuel
  end.

Definition ctlq_dev : AqDev (ice_hw * world E) := {|
  dev_send := ctlq_send;
  dev_last_status s := sq_last_status (adminq s.1);
  dev_timeout s := sq_cmd_timeout (adminq s.1);
  dev_rd32 reg s := let '(v, h, e) := env_rd32 reg (heap s.2) (env s.2) in (v, (s.1, mkWorld h (IceCtlq.fresh s.2) e));
  dev_wr32 reg v s := let '(h, e) := env_wr32 reg v (heap s.2) (env s.2) in (s.1, mkWorld h (IceCtlq.fresh s.2) e);
  dev_malloc s := let '(ok, e) := env_malloc (env s.2) in (ok, (s.1, mkWorld (heap s.2) (IceCtlq.fresh s.2) e));
  dev_uninit := uninit
|}.
End ctlq.

(** ** Parameters: reading and writing *)

Lemma length_params d : length (params d) = 16%nat.
Proof. unfold params. by rewrite !length_app, !length_le_bytes. Qed.

Lemma params_ok d : bytes_ok (params d).
Proof. unfold params. repeat (apply Forall_app; split); apply le_bytes_ok. Qed.

Lemma params_set bs d : bytes_ok bs → length bs = 16%nat → params (set_params bs d) = bs.
Proof.
  intros Hok Hl. unfold params, set_params. cbn [param0 param1 addr_high addr_low set_field].
  rewrite !le_bytes_le by (first [by apply bytes_ok_sub | apply length_sub; lia]).
  change 12%nat with (8 + 4)%nat. rewrite <- (sub_app 4 4 8). change 8%nat with (4 + 4)%nat at 1. rewrite <- (sub_app 4 8 4).
  change 4%nat with (0 + 4)%nat at 3. rewrite <- (sub_app 4 12 0). rewrite drop_0. apply take_ge. lia.
Qed.

Lemma params_pset n off v d : (off + n <= 16)%nat → params (pset n off v d) = put (params d) off (le_bytes n v).
Proof.
  intros. unfold pset. apply params_set.
  - apply put_ok; [apply params_ok|apply le_bytes_ok].
  - rewrite length_put; [apply length_params|]. rewrite length_le_bytes, length_params. lia.
Qed.

Lemma pget_pset n off v d : (off + n <= 16)%nat → pget n off (pset n off v d) = wrap (8 * Z.of_nat n) v.
Proof.
  intros. unfold pget. rewrite params_pset by done. rewrite sub_put_eq; [apply le_le_bytes|apply length_le_bytes|].
  rewrite length_params. lia.
Qed.

Lemma pget_pset_ne n off n' off' v d : (off' + n' <= 16)%nat → (off + n <= off' ∨ off' + n' <= off)%nat →
  pget n off (pset n' off' v d) = pget n off d.
Proof.
  intros ? Hd. unfold pget. rewrite params_pset by done. rewrite sub_put_out; [done|..];
    rewrite ?length_le_bytes, ?length_params; lia.
Qed.

Lemma pget_width n off d : in_width (8 * Z.of_nat (length (take n (drop off (params d))))) (pget n off d).
Proof. apply le_nonneg_bound, bytes_ok_sub, params_ok. Qed.

Lemma opcode_pset n off v d : opcode (pset n off v d) = opcode d.
Proof. done. Qed.
Lemma flags_pset n off v d : flags (pset n off v d) = flags d.
Proof. done. Qed.

(** Read a field through the writes of the others. *)
Ltac pfields := repeat first [ rewrite pget_pset by lia | rewrite pget_pset_ne by lia ].

(** ** Computations that return *)

Section wp.
Context {D : Type}.

Definition dwp {A} (m : DM D A) (d : D) (Q : A → D → Prop) : Prop := ∃ a d', m d = Ret (a, d') ∧ Q a d'.

Lemma dwp_ret {A} (a : A) d (Q : A → D → Prop) : Q a d → dwp (mret a) d Q.
Proof. intros. by exists a, d. Qed.

Lemma dwp_bind {A B} (m : DM D A) (f : A → DM D B) d Q : dwp m d (fun a d' => dwp (f a) d' Q) → dwp (m ≫= f) d Q.
Proof.
  intros (a & d' & Hm & b & d'' & Hf & HQ). exists b, d''. split; [|done].
  unfold mbind, DM_bind. by rewrite Hm.
Qed.

Lemma dm_bind {A B} (m : DM D A) (f : A → DM D B) d a d' : m d = Ret (a, d') → (m ≫= f) d = f a d'.
Proof. intros E. unfold mbind, DM_bind. by rewrite E. Qed.

Lemma dwp_mono {A} (m : DM D A) d (P Q : A → D → Prop) : dwp m d P → (∀ a d', P a d' → Q a d') → dwp m d Q.
Proof. intros (a & d' & Hm & HP) HPQ. exists a, d'. eauto. Qed.

Lemma dwp_get {A} (f : D → A) d (Q : A → D → Prop) : Q (f d) d → dwp (fun d => Ret (f d, d)) d Q.
Proof. intros. by exists (f d), d. Qed.
End wp.

(** Follow the branch of a successful command. *)
Ltac on_ok := change (is_ok ICE_SUCCESS) with true; cbn [negb].

Create HintDb dwp.
#[export] Hint Resolve dwp_ret dwp_bind dwp_get : dwp.

(** ** Time bounds of the resource functions *)

Section total.
Context {D : Type} `{AqDev D}.

(** A queue that answers every command, as [IceCtlq] does within its time-out. *)
Context (send_total : ∀ desc buf n d, ∃ r d', dev_send desc buf n d = Ret (r, d')).

Lemma dwp_send desc buf n d : dwp (d_send desc buf n) d (fun _ _ => True).
Proof. destruct (send_total desc buf n d) as ([[st ?] ?] & d' & E). by eexists _, d'. Qed.

Lemma dwp_req_res res access sdp timeout d :
  dwp (ice_aq_req_res res access sdp timeout) d (fun r _ => 0 <= r.2).
Proof.
  apply dwp_bind. eapply dwp_mono; [apply dwp_send|]. intros [[st desc] b] d1 _.
  pose proof (proj1 (pget_width 4 4 desc)). repeat case_match; try by apply dwp_ret.
  apply dwp_bind, dwp_get. case_match; by apply dwp_ret.
Qed.

Lemma dwp_acquire_loop fuel res access timeout left st d : 0 <= timeout → timeout / 10 < Z.of_nat fuel →
  dwp (acquire_loop fuel res access timeout left st) d (fun _ _ => True).
Proof.
  revert timeout left st d. induction fuel as [|fuel IH]; intros timeout left st d Ht Hf; cbn [acquire_loop].
  { exfalso. pose proof (Z.div_pos timeout 10). lia. }
  case_match; [|by apply dwp_ret]. apply dwp_bind. eapply dwp_mono; [apply dwp_req_res|].
  intros [st' left'] d' _. case_match; [by apply dwp_ret|].
  unfold ICE_RES_POLLING_DELAY_MS. destruct (Z.ltb_spec 10 timeout).
  - apply IH; [lia|]. replace timeout with (timeout - 10 + 1 * 10) in Hf by lia. rewrite Z.div_add in Hf by lia. lia.
  - destruct fuel as [|f']; cbn [acquire_loop]; rewrite andb_false_r; by apply dwp_ret.
Qed.

Lemma dwp_acquire_res res access timeout d : dwp (ice_acquire_res res access timeout) d (fun _ _ => True).
Proof.
  apply dwp_bind. eapply dwp_mono; [apply dwp_req_res|]. intros [st left] d' Hl. cbn [snd] in Hl.
  case_match; [by apply dwp_ret|]. apply dwp_acquire_loop; [done|].
  pose proof (Z.div_pos left 10). unfold ICE_RES_POLLING_DELAY_MS. lia.
Qed.
End total.
