(* ===== verification/IceNvm.v ===== *)
(** * Non-volatile memory

    ice_nvm.c: reading the flash and the shadow RAM through admin commands, the
    banks of a module, version information, the search for the size of the flash,
    and the register accesses that the NVM tools ask for.  Debug output is left
    out. *)
From S2P Require Import IceCtlq IceStatus Prelude Bytes IceAq.
Local Open Scope Z_scope.

(** ** Data *)

Inductive ice_flash_bank := ICE_INVALID_FLASH_BANK | ICE_1ST_FLASH_BANK | ICE_2ND_FLASH_BANK.
Inductive ice_bank_select := ICE_ACTIVE_FLASH_BANK | ICE_INACTIVE_FLASH_BANK.

Record ice_bank_info := mkBanks {
  nvm_ptr : Z; nvm_size : Z; orom_ptr : Z; orom_size : Z; netlist_ptr : Z; netlist_size : Z;
  nvm_bank : ice_flash_bank; orom_bank : ice_flash_bank; netlist_bank : ice_flash_bank
}.
#[export] Instance banks_settable : Settable ice_bank_info := fun r =>
  mkBanks (nvm_ptr r) (nvm_size r) (orom_ptr r) (orom_size r) (netlist_ptr r) (netlist_size r)
    (nvm_bank r) (orom_bank r) (netlist_bank r).

Record ice_nvm_info := mkNvmInfo { eetrack : Z; srev : Z; major : Z; minor : Z }.
#[export] Instance nvm_info_settable : Settable ice_nvm_info := fun r =>
  mkNvmInfo (eetrack r) (srev r) (major r) (minor r).

Record ice_orom_info := mkOromInfo { o_major : Z; o_patch : Z; o_build : Z; o_srev : Z }.
#[export] Instance orom_info_settable : Settable ice_orom_info := fun r =>
  mkOromInfo (o_major r) (o_patch r) (o_build r) (o_srev r).

Record ice_flash_info := mkFlash {
  orom : ice_orom_info; nvm : ice_nvm_info; banks : ice_bank_info;
  sr_words : Z; flash_size : Z; blank_nvm_mode : bool
}.
#[export] Instance flash_settable : Settable ice_flash_info := fun r =>
  mkFlash (orom r) (nvm r) (banks r) (sr_words r) (flash_size r) (blank_nvm_mode r).

Definition ICE_AQC_NVM_MAX_OFFSET : Z := 0xFFFFFF.
Definition ICE_AQC_NVM_START_POINT : Z := 0.
Definition ICE_AQC_NVM_LAST_CMD : Z := 1.
Definition ICE_AQC_NVM_FLASH_ONLY : Z := 0x80.
Definition ICE_AQ_MAX_BUF_LEN : Z := 4096.
Definition ICE_NVM_TIMEOUT : Z := 180000.
Definition ICE_AQ_RC_EINVAL : Z := 14.
Definition ice_aqc_opc_nvm_read : Z := 0x0701.
Definition ice_aqc_opc_nvm_checksum : Z := 0x0706.

Definition ICE_SR_NVM_CTRL_WORD : Z := 0x00.
Definition ICE_SR_PBA_BLOCK_PTR : Z := 0x16.
Definition ICE_SR_NVM_DEV_STARTER_VER : Z := 0x18.
Definition ICE_SR_NVM_EETRACK_LO : Z := 0x2D.
Definition ICE_SR_NVM_EETRACK_HI : Z := 0x2E.
Definition ICE_SR_PFA_PTR : Z := 0x40.
Definition ICE_SR_1ST_NVM_BANK_PTR : Z := 0x42.
Definition ICE_SR_NVM_BANK_SIZE : Z := 0x43.
Definition ICE_SR_1ST_OROM_BANK_PTR : Z := 0x44.
Definition ICE_SR_OROM_BANK_SIZE : Z := 0x45.
Definition ICE_SR_NETLIST_BANK_PTR : Z := 0x46.
Definition ICE_SR_NETLIST_BANK_SIZE : Z := 0x47.
Definition ICE_NVM_CSS_HDR_LEN_L : Z := 0x02.
Definition ICE_NVM_CSS_HDR_LEN_H : Z := 0x03.
Definition ICE_NVM_CSS_SREV_L : Z := 0x14.
Definition ICE_NVM_CSS_SREV_H : Z := 0x15.
Definition ICE_NVM_AUTH_HEADER_LEN : Z := 0x08.

Section nvm.
Context {D : Type} `{AqDev D}.

(** ** Reading *)

(** The status and the buffer, which the device fills. *)
Definition ice_aq_read_nvm (module_typeid offset length : Z) (data : list Z) (last_command read_shadow_ram : bool)
    : DM D (ice_status * list Z) :=
  if ICE_AQC_NVM_MAX_OFFSET <? offset then mret (ICE_ERR_PARAM, data)
  else
    let cmd_flags := if negb read_shadow_ram && (module_typeid =? ICE_AQC_NVM_START_POINT)
                     then ICE_AQC_NVM_FLASH_ONLY else 0 in
    let cmd_flags := if last_command then cmd_flags .| ICE_AQC_NVM_LAST_CMD else cmd_flags in
    let desc := ice_fill_dflt_direct_cmd_desc ice_aqc_opc_nvm_read in
    let desc := pset 2 6 length (pset 1 2 ((offset .>> 16) .& 0xFF) (pset 2 0 (offset .& 0xFFFF)
                  (pset 2 4 module_typeid (pset 1 3 cmd_flags desc)))) in
    '(status, _, buf) ← d_send desc (Some data) length;
    mret (status, default data buf).

(** The loop of [ice_read_flat_nvm]: the status, [bytes_read] and the buffer. *)
Fixpoint flat_loop (fuel : nat) (offset inlen bytes_read : Z) (data : list Z) (read_shadow_ram : bool)
    : DM D (ice_status * Z * list Z) :=
  match fuel with
  | O => d_out_of_fuel
  | S fuel' =>
      let sector_offset := offset mod ICE_AQ_MAX_BUF_LEN in
      let read_size := Z.min (ICE_AQ_MAX_BUF_LEN - sector_offset) (u32 (inlen - bytes_read)) in
      let last_cmd := negb (u32 (bytes_read + read_size) <? inlen) in
      part ← d_option (bytes_at (Z.to_nat (u16 read_size)) data bytes_read);
      '(status, part) ← ice_aq_read_nvm ICE_AQC_NVM_START_POINT offset (u16 read_size) part last_cmd read_shadow_ram;
      data ← d_option (put_bytes data bytes_read part);
      if negb (is_ok status) then mret (status, bytes_read, data)
      else if last_cmd then mret (status, u32 (bytes_read + read_size), data)
      else flat_loop fuel' (u32 (offset + read_size)) inlen (u32 (bytes_read + read_size)) data read_shadow_ram
  end.

(** The status, [*length] and the buffer. *)
Definition ice_read_flat_nvm (flash : ice_flash_info) (offset length : Z) (data : list Z) (read_shadow_ram : bool)
    : DM D (ice_status * Z * list Z) :=
  if read_shadow_ram && (sr_words flash * 2 <? u32 (offset + length)) then mret (ICE_ERR_PARAM, 0, data)
  else flat_loop (Z.to_nat (length / ICE_AQ_MAX_BUF_LEN + 2)) offset length 0 data read_shadow_ram.

(** The word, when the read succeeds. *)
Definition ice_read_sr_word_aq (flash : ice_flash_info) (offset : Z) : DM D (ice_status * Z) :=
  data_local ← d_uninit 2;
  '(status, _, data_local) ← ice_read_flat_nvm flash (offset * 2) 2 data_local true;
  mret (status, le data_local).

(** The status, the number of words and the words; the host is little endian. *)
Definition ice_read_sr_buf_aq (flash : ice_flash_info) (offset words : Z) (data : list Z)
    : DM D (ice_status * Z * list Z) :=
  '(status, bytes, data) ← ice_read_flat_nvm flash (offset * 2) (words * 2) data true;
  mret (status, u16 (bytes / 2), data).

Definition ice_acquire_nvm (flash : ice_flash_info) (access : Z) : DM D ice_status :=
  if blank_nvm_mode flash then mret ICE_SUCCESS else ice_acquire_res ICE_NVM_RES_ID access ICE_NVM_TIMEOUT.

Definition ice_release_nvm (flash : ice_flash_info) : DM D unit :=
  if blank_nvm_mode flash then mret tt else ice_release_res ICE_NVM_RES_ID.

(** ** Modules *)

Definition ice_get_flash_bank_offset (flash : ice_flash_info) (bank : ice_bank_select) (module : Z) : Z :=
  let b := banks flash in
  match (if module =? ICE_SR_1ST_NVM_BANK_PTR then Some (nvm_ptr b, nvm_size b, nvm_bank b)
         else if module =? ICE_SR_1ST_OROM_BANK_PTR then Some (orom_ptr b, orom_size b, orom_bank b)
         else if module =? ICE_SR_NETLIST_BANK_PTR then Some (netlist_ptr b, netlist_size b, netlist_bank b)
         else None) with
  | None => 0
  | Some (offset, size, active_bank) =>
      match active_bank, bank with
      | ICE_INVALID_FLASH_BANK, _ => 0
      | ICE_1ST_FLASH_BANK, ICE_ACTIVE_FLASH_BANK | ICE_2ND_FLASH_BANK, ICE_INACTIVE_FLASH_BANK => u32 (offset + 0)
      | ICE_2ND_FLASH_BANK, ICE_ACTIVE_FLASH_BANK | ICE_1ST_FLASH_BANK, ICE_INACTIVE_FLASH_BANK => u32 (offset + size)
      end
  end.

Definition ice_read_flash_module (flash : ice_flash_info) (bank : ice_bank_select) (module offset : Z)
    (data : list Z) (length : Z) : DM D (ice_status * list Z) :=
  let start := ice_get_flash_bank_offset flash bank module in
  if start =? 0 then mret (ICE_ERR_PARAM, data)
  else
    status ← ice_acquire_nvm flash ICE_RES_READ;
    if negb (is_ok status) then mret (status, data)
    else
      '(status, _, data) ← ice_read_flat_nvm flash (u32 (start + offset)) length data false;
      _ ← ice_release_nvm flash;
      mret (status, data).

Definition ice_read_nvm_module (flash : ice_flash_info) (bank : ice_bank_select) (offset : Z) : DM D (ice_status * Z) :=
  data_local ← d_uninit 2;
  '(status, data_local) ← ice_read_flash_module flash bank ICE_SR_1ST_NVM_BANK_PTR (u32 (offset * 2)) data_local 2;
  mret (status, le data_local).

Definition ice_read_orom_module (flash : ice_flash_info) (bank : ice_bank_select) (offset : Z) : DM D (ice_status * Z) :=
  data_local ← d_uninit 2;
  '(status, data_local) ← ice_read_flash_module flash bank ICE_SR_1ST_OROM_BANK_PTR (u32 (offset * 2)) data_local 2;
  mret (status, le data_local).

Definition ice_get_nvm_css_hdr_len (flash : ice_flash_info) (bank : ice_bank_select) : DM D (ice_status * Z) :=
  '(status, hdr_len_l) ← ice_read_nvm_module flash bank ICE_NVM_CSS_HDR_LEN_L;
  if negb (is_ok status) then mret (status, 0)
  else
    '(status, hdr_len_h) ← ice_read_nvm_module flash bank ICE_NVM_CSS_HDR_LEN_H;
    if negb (is_ok status) then mret (status, 0)
    else mret (ICE_SUCCESS, u32 (u32 ((hdr_len_h .<< 16) .| hdr_len_l) * 2 + ICE_NVM_AUTH_HEADER_LEN)).

Definition ROUND_UP (a b : Z) : Z := u32 (b * (u32 (a + b - 1) / b)).

Definition ice_read_nvm_sr_copy (flash : ice_flash_info) (bank : ice_bank_select) (offset : Z) : DM D (ice_status * Z) :=
  '(status, hdr_len) ← ice_get_nvm_css_hdr_len flash bank;
  if negb (is_ok status) then mret (status, 0)
  else ice_read_nvm_module flash bank (u32 (ROUND_UP hdr_len 32 + offset)).

Definition ice_read_sr_word (flash : ice_flash_info) (offset : Z) : DM D (ice_status * Z) :=
  status ← ice_acquire_nvm flash ICE_RES_READ;
  if negb (is_ok status) then mret (status, 0)
  else
    r ← ice_read_sr_word_aq flash offset;
    _ ← ice_release_nvm flash;
    mret r.

Definition ice_read_sr_buf (flash : ice_flash_info) (offset words : Z) (data : list Z)
    : DM D (ice_status * Z * list Z) :=
  status ← ice_acquire_nvm flash ICE_RES_READ;
  if negb (is_ok status) then mret (status, words, data)
  else
    r ← ice_read_sr_buf_aq flash offset words data;
    _ ← ice_release_nvm flash;
    mret r.

(** ** The preserved field area *)

(** The loop of [ice_get_pfa_module_tlv]: the status and the position and length of
    the module.  A failed read leaves the loop, and its status is replaced. *)
Fixpoint pfa_loop (fuel : nat) (flash : ice_flash_info) (pfa_end next_tlv module_type : Z)
    : DM D (ice_status * option (Z * Z)) :=
  if next_tlv <? pfa_end then
    match fuel with
    | O => d_out_of_fuel
    | S fuel' =>
        '(status, tlv_sub_module_type) ← ice_read_sr_word flash next_tlv;
        if negb (is_ok status) then mret (ICE_ERR_DOES_NOT_EXIST, None)
        else
          '(status, tlv_len) ← ice_read_sr_word flash (u16 (next_tlv + 1));
          if negb (is_ok status) then mret (ICE_ERR_DOES_NOT_EXIST, None)
          else if tlv_sub_module_type =? module_type then
            if nz tlv_len then mret (ICE_SUCCESS, Some (next_tlv, tlv_len)) else mret (ICE_ERR_INVAL_SIZE, None)
          else pfa_loop fuel' flash pfa_end (u16 (next_tlv + tlv_len + 2)) module_type
    end
  else mret (ICE_ERR_DOES_NOT_EXIST, None).

Definition ice_get_pfa_module_tlv (fuel : nat) (flash : ice_flash_info) (module_type : Z)
    : DM D (ice_status * option (Z * Z)) :=
  '(status, pfa_ptr) ← ice_read_sr_word flash ICE_SR_PFA_PTR;
  if negb (is_ok status) then mret (status, None)
  else
    '(status, pfa_len) ← ice_read_sr_word flash pfa_ptr;
    if negb (is_ok status) then mret (status, None)
    else pfa_loop fuel flash (pfa_ptr + pfa_len) (u16 (pfa_ptr + 1)) module_type.

(** The loop of [ice_read_pba_string]: [n] words from number [i] on. *)
Fixpoint pba_loop (n : nat) (flash : ice_flash_info) (pba_tlv i : Z) (pba_num : list Z)
    : DM D (ice_status * list Z) :=
  match n with
  | O => mret (ICE_SUCCESS, pba_num)
  | S n' =>
      '(status, pba_word) ← ice_read_sr_word flash (u16 (pba_tlv + 2 + 1 + i));
      if negb (is_ok status) then mret (status, pba_num)
      else
        pba_num ← d_option (wr pba_num (i * 2) ((pba_word .>> 8) .& 0xFF));
        pba_num ← d_option (wr pba_num (i * 2 + 1) (pba_word .& 0xFF));
        pba_loop n' flash pba_tlv (i + 1) pba_num
  end.

Definition ice_read_pba_string (fuel : nat) (flash : ice_flash_info) (pba_num : list Z) (pba_num_size : Z)
    : DM D (ice_status * list Z) :=
  '(status, tlv) ← ice_get_pfa_module_tlv fuel flash ICE_SR_PBA_BLOCK_PTR;
  match tlv with
  | None => mret (status, pba_num)
  | Some (pba_tlv, pba_tlv_len) =>
      '(status, pba_size) ← ice_read_sr_word flash (u16 (pba_tlv + 2));
      if negb (is_ok status) then mret (status, pba_num)
      else if pba_tlv_len <? pba_size then mret (ICE_ERR_INVAL_SIZE, pba_num)
      else
        let pba_size := u16 (pba_size - 1) in
        if pba_num_size <? u32 (pba_size * 2) + 1 then mret (ICE_ERR_PARAM, pba_num)
        else
          '(status, pba_num) ← pba_loop (Z.to_nat pba_size) flash pba_tlv 0 pba_num;
          if negb (is_ok status) then mret (status, pba_num)
          else
            pba_num ← d_option (wr pba_num (pba_size * 2) 0);
            mret (status, pba_num)
  end.

(** ** Versions *)

Definition ice_get_nvm_srev (flash : ice_flash_info) (bank : ice_bank_select) : DM D (ice_status * Z) :=
  '(status, srev_l) ← ice_read_nvm_module flash bank ICE_NVM_CSS_SREV_L;
  if negb (is_ok status) then mret (status, 0)
  else
    '(status, srev_h) ← ice_read_nvm_module flash bank ICE_NVM_CSS_SREV_H;
    if negb (is_ok status) then mret (status, 0)
    else mret (ICE_SUCCESS, u32 ((srev_h .<< 16) .| srev_l)).

(** [info] is updated field by field, up to the first read that fails. *)
Definition ice_get_nvm_ver_info (flash : ice_flash_info) (bank : ice_bank_select) (info : ice_nvm_info)
    : DM D (ice_status * ice_nvm_info) :=
  '(status, ver) ← ice_read_nvm_sr_copy flash bank ICE_SR_NVM_DEV_STARTER_VER;
  if negb (is_ok status) then mret (status, info)
  else
    let info := info <| major := u8 ((ver .& 0xf000) .>> 12) |> <| minor := u8 ((ver .& 0xff) .>> 0) |> in
    '(status, eetrack_lo) ← ice_read_nvm_sr_copy flash bank ICE_SR_NVM_EETRACK_LO;
    if negb (is_ok status) then mret (status, info)
    else
      '(status, eetrack_hi) ← ice_read_nvm_sr_copy flash bank ICE_SR_NVM_EETRACK_HI;
      if negb (is_ok status) then mret (status, info)
      else
        let info := info <| eetrack := u32 ((eetrack_hi .<< 16) .| eetrack_lo) |> in
        '(status, v) ← ice_get_nvm_srev flash bank;
        mret (ICE_SUCCESS, if is_ok status then info <| srev := v |> else info).

Definition ice_get_inactive_nvm_ver (flash : ice_flash_info) (info : ice_nvm_info) : DM D (ice_status * ice_nvm_info) :=
  ice_get_nvm_ver_info flash ICE_INACTIVE_FLASH_BANK info.

Definition ice_get_orom_srev (flash : ice_flash_info) (bank : ice_bank_select) : DM D (ice_status * Z) :=
  let orom_size_word := orom_size (banks flash) / 2 in
  '(status, hdr_len) ← ice_get_nvm_css_hdr_len flash bank;
  if negb (is_ok status) then mret (status, 0)
  else if orom_size_word <? hdr_len then mret (ICE_ERR_CFG, 0)
  else
    let css_start := orom_size_word - hdr_len in
    '(status, srev_l) ← ice_read_orom_module flash bank (u32 (css_start + ICE_NVM_CSS_SREV_L));
    if negb (is_ok status) then mret (status, 0)
    else
      '(status, srev_h) ← ice_read_orom_module flash bank (u32 (css_start + ICE_NVM_CSS_SREV_H));
      if negb (is_ok status) then mret (status, 0)
      else mret (ICE_SUCCESS, u32 ((srev_h .<< 16) .| srev_l)).

(** ["$CIV"] *)
Definition civd_signature : list Z := [0x24; 0x43; 0x49; 0x56].
(** [sizeof(struct ice_orom_civd_info)] *)
Definition civd_len : nat := 74.

(** The scan for the CIVD section: the sections at the [n] multiples of 512 from
    [offset] on; the status and the section. *)
Fixpoint civd_scan (n : nat) (offset : Z) (orom_data : list Z) : option (ice_status * list Z) :=
  match n with
  | O => Some (ICE_ERR_NVM, [])
  | S n' =>
      signature ← bytes_at 4 orom_data offset;
      if negb (bool_decide (signature = civd_signature)) then civd_scan n' (offset + 512) orom_data
      else
        tmp ← bytes_at civd_len orom_data offset;
        if nz (u8 (foldr Z.add 0 tmp)) then Some (ICE_ERR_NVM, []) else Some (ICE_SUCCESS, tmp)
  end.

(** The status and the section. *)
Definition ice_get_orom_civd_data (flash : ice_flash_info) (bank : ice_bank_select) : DM D (ice_status * list Z) :=
  let size := orom_size (banks flash) in
  ok ← (if size =? 0 then mret false else d_malloc);
  if negb ok then mret (ICE_ERR_NO_MEMORY, [])
  else
    '(status, orom_data) ← ice_read_flash_module flash bank ICE_SR_1ST_OROM_BANK_PTR 0 (replicate (Z.to_nat size) 0) size;
    if negb (is_ok status) then mret (status, [])
    else d_option (civd_scan (Z.to_nat (size / 512)) 0 orom_data).

Definition ice_get_orom_ver_info (flash : ice_flash_info) (bank : ice_bank_select) (info : ice_orom_info)
    : DM D (ice_status * ice_orom_info) :=
  '(status, civd) ← ice_get_orom_civd_data flash bank;
  if negb (is_ok status) then mret (status, info)
  else
    combo_ver ← d_option (load 4 civd 5);
    let info := info <| o_major := u8 ((combo_ver .& 0xff000000) .>> 24) |> <| o_patch := u8 (combo_ver .& 0xff) |>
                     <| o_build := u16 ((combo_ver .& 0xffff00) .>> 8) |> in
    '(status, v) ← ice_get_orom_srev flash bank;
    if negb (is_ok status) then mret (status, info) else mret (ICE_SUCCESS, info <| o_srev := v |>).

Definition ice_get_inactive_orom_ver (flash : ice_flash_info) (info : ice_orom_info) : DM D (ice_status * ice_orom_info) :=
  ice_get_orom_ver_info flash ICE_INACTIVE_FLASH_BANK info.

(** ** Initialisation *)

(** The bisection of [ice_discover_flash_size]: the status and the upper bound. *)
Fixpoint bisect (fuel : nat) (flash : ice_flash_info) (min_size max_size : Z) (status : ice_status)
    : DM D (ice_status * Z) :=
  if 1 <? max_size - min_size then
    match fuel with
    | O => d_out_of_fuel
    | S fuel' =>
        let offset := (max_size + min_size) / 2 in
        data ← d_uninit 1;
        '(status, _, _) ← ice_read_flat_nvm flash offset 1 data false;
        last ← d_last_status;
        if bool_decide (status = ICE_ERR_AQ_ERROR) && (last =? ICE_AQ_RC_EINVAL)
        then bisect fuel' flash min_size offset ICE_SUCCESS
        else if is_ok status then bisect fuel' flash offset max_size status
        else mret (status, max_size)
    end
  else mret (status, max_size).

(** 2^24 offsets need 24 rounds. *)
Definition ice_discover_flash_size (flash : ice_flash_info) : DM D (ice_status * ice_flash_info) :=
  status ← ice_acquire_nvm flash ICE_RES_READ;
  if negb (is_ok status) then mret (status, flash)
  else
    '(status, max_size) ← bisect 24 flash 0 (ICE_AQC_NVM_MAX_OFFSET + 1) status;
    let flash := if is_ok status then flash <| flash_size := max_size |> else flash in
    _ ← ice_release_nvm flash;
    mret (status, flash).

Definition ICE_SR_NVM_PTR_4KB_UNITS : Z := 0x8000.

Definition sr_pointer (value : Z) : Z :=
  if nz (value .& ICE_SR_NVM_PTR_4KB_UNITS) then u32 ((value .& Z.lnot ICE_SR_NVM_PTR_4KB_UNITS) * 4 * 1024)
  else value * 2.

(** The status and [*pointer], which keeps its value [old] when the read fails. *)
Definition ice_read_sr_pointer (flash : ice_flash_info) (offset old : Z) : DM D (ice_status * Z) :=
  '(status, value) ← ice_read_sr_word flash offset;
  if negb (is_ok status) then mret (status, old) else mret (ICE_SUCCESS, sr_pointer value).

Definition ice_read_sr_area_size (flash : ice_flash_info) (offset old : Z) : DM D (ice_status * Z) :=
  '(status, value) ← ice_read_sr_word flash offset;
  if negb (is_ok status) then mret (status, old) else mret (ICE_SUCCESS, value * 4 * 1024).

Definition bank_bit (ctrl_word bit : Z) : ice_flash_bank :=
  if nz (ctrl_word .& bit) then ICE_2ND_FLASH_BANK else ICE_1ST_FLASH_BANK.

Definition ICE_SR_CTRL_WORD_1_S : Z := 6.

(** Set one field of the banks from a shadow RAM word, unless an earlier read has
    failed. *)
Definition bank_word (read : ice_flash_info → Z → Z → DM D (ice_status * Z)) (offset : Z)
    (get : ice_bank_info → Z) (upd : Z → ice_bank_info → ice_bank_info) (r : ice_status * ice_flash_info)
    : DM D (ice_status * ice_flash_info) :=
  let '(status, flash) := r in
  if negb (is_ok status) then mret r
  else
    '(status, v) ← read flash offset (get (banks flash));
    mret (status, flash <| banks ::= upd v |>).

Definition ice_determine_active_flash_banks (flash : ice_flash_info) : DM D (ice_status * ice_flash_info) :=
  '(status, ctrl_word) ← ice_read_sr_word flash ICE_SR_NVM_CTRL_WORD;
  if negb (is_ok status) then mret (status, flash)
  else if negb ((ctrl_word .& 0xC0) .>> ICE_SR_CTRL_WORD_1_S =? 1) then mret (ICE_ERR_CFG, flash)
  else
    let flash := flash <| banks ::= fun b => b <| nvm_bank := bank_bit ctrl_word 0x20 |>
                   <| orom_bank := bank_bit ctrl_word 0x08 |> <| netlist_bank := bank_bit ctrl_word 0x10 |> |> in
    r ← bank_word ice_read_sr_pointer ICE_SR_1ST_NVM_BANK_PTR nvm_ptr (fun v b => b <| nvm_ptr := v |>) (ICE_SUCCESS, flash);
    r ← bank_word ice_read_sr_area_size ICE_SR_NVM_BANK_SIZE nvm_size (fun v b => b <| nvm_size := v |>) r;
    r ← bank_word ice_read_sr_pointer ICE_SR_1ST_OROM_BANK_PTR orom_ptr (fun v b => b <| orom_ptr := v |>) r;
    r ← bank_word ice_read_sr_area_size ICE_SR_OROM_BANK_SIZE orom_size (fun v b => b <| orom_size := v |>) r;
    r ← bank_word ice_read_sr_pointer ICE_SR_NETLIST_BANK_PTR netlist_ptr (fun v b => b <| netlist_ptr := v |>) r;
    bank_word ice_read_sr_area_size ICE_SR_NETLIST_BANK_SIZE netlist_size (fun v b => b <| netlist_size := v |>) r.

Definition GLNVM_GENS : Z := 0x000B6100.
Definition GLNVM_FLA : Z := 0x000B6108.

(** [BIT(sr_size) * ICE_SR_WORDS_IN_1KB] in a [u16]. *)
Definition sr_words_of (gens_stat : Z) : Z := u16 (1 .<< ((gens_stat .& 0xE0) .>> 5) * 512).

Definition ice_init_nvm (flash : ice_flash_info) : DM D (ice_status * ice_flash_info) :=
  gens_stat ← d_rd32 GLNVM_GENS;
  let flash := flash <| sr_words := sr_words_of gens_stat |> in
  fla ← d_rd32 GLNVM_FLA;
  if negb (nz (fla .& 0x40)) then mret (ICE_ERR_NVM_BLANK_MODE, flash <| blank_nvm_mode := true |>)
  else
    '(status, flash) ← ice_discover_flash_size (flash <| blank_nvm_mode := false |>);
    if negb (is_ok status) then mret (status, flash)
    else
      '(status, flash) ← ice_determine_active_flash_banks flash;
      if negb (is_ok status) then mret (status, flash)
      else
        '(status, info) ← ice_get_nvm_ver_info flash ICE_ACTIVE_FLASH_BANK (nvm flash);
        let flash := flash <| nvm := info |> in
        if negb (is_ok status) then mret (status, flash)
        else
          '(_, info) ← ice_get_orom_ver_info flash ICE_ACTIVE_FLASH_BANK (orom flash);
          mret (ICE_SUCCESS, flash <| orom := info |>).

(** ** Checksum *)

Definition ice_nvm_validate_checksum (flash : ice_flash_info) : DM D ice_status :=
  status ← ice_acquire_nvm flash ICE_RES_READ;
  if negb (is_ok status) then mret status
  else
    '(status, desc, _) ← d_send (pset 1 0 1 (ice_fill_dflt_direct_cmd_desc ice_aqc_opc_nvm_checksum)) None 0;
    _ ← ice_release_nvm flash;
    mret (if is_ok status && negb (pget 2 2 desc =? 0xBABA) then ICE_ERR_NVM_CHECKSUM else status).

Definition ice_nvm_recalculate_checksum (flash : ice_flash_info) : DM D ice_status :=
  status ← ice_acquire_nvm flash ICE_RES_READ;
  if negb (is_ok status) then mret status
  else
    '(status, _, _) ← d_send (pset 1 0 2 (ice_fill_dflt_direct_cmd_desc ice_aqc_opc_nvm_checksum)) None 0;
    _ ← ice_release_nvm flash;
    mret status.

(** ** Access by tools *)

Record ice_nvm_access_cmd := mkAccess { command : Z; config : Z; acc_offset : Z; data_size : Z }.

Definition ice_nvm_access_get_module (cmd : ice_nvm_access_cmd) : Z := (config cmd .& 0xFF) .>> 0.
Definition ice_nvm_access_get_flags (cmd : ice_nvm_access_cmd) : Z := (config cmd .& 0xF00) .>> 8.
Definition ice_nvm_access_get_adapter (cmd : ice_nvm_access_cmd) : Z := (config cmd .& 0xFFFF0000) .>> 16.

(** [ice_memset(data, 0, cmd->data_size)] *)
Definition clear_data (cmd : ice_nvm_access_cmd) (data : list Z) : option (list Z) :=
  put_bytes data 0 (replicate (Z.to_nat (data_size cmd)) 0).

(** [data] is the caller's buffer. *)
Definition ice_nvm_access_get_features (cmd : ice_nvm_access_cmd) (data : list Z) : option (ice_status * list Z) :=
  if data_size cmd <? 16 then Some (ICE_ERR_NO_MEMORY, data)
  else
    data ← clear_data cmd data;
    data ← put_bytes data 0 ([0; 5] ++ le_bytes 2 16 ++ [2]);
    Some (ICE_SUCCESS, data).

Definition GL_HICR : Z := 0x00082040.
Definition GL_HICR_EN : Z := 0x00082044.
Definition GLGEN_RSTAT : Z := 0x000B8188.
Definition GL_HIDA (i : Z) : Z := 0x00082000 + i * 4.
Definition GL_HIBA (i : Z) : Z := 0x00081000 + i * 4.

(** [GL_FWSTS], [GL_MNG_FWSM], [GLGEN_CSR_DEBUG_C], [GLPCI_LBARCTRL], [GL_MNG_DEF_DEVID], [PF_FUNC_RID] *)
Definition rw_registers : list Z :=
  [GL_HICR; GL_HICR_EN; 0x00083048; 0x000B6134; 0x00075750; GLGEN_RSTAT; 0x0009DE74; 0x000B611C; GLNVM_GENS;
   GLNVM_FLA; 0x0009E880].

Definition ice_validate_nvm_rw_reg (cmd : ice_nvm_access_cmd) : ice_status :=
  if negb (ice_nvm_access_get_module cmd =? 0) || negb (ice_nvm_access_get_flags cmd =? 1) || negb (data_size cmd =? 4)
  then ICE_ERR_PARAM
  else if existsb (Z.eqb (acc_offset cmd)) rw_registers then ICE_SUCCESS
  else if existsb (fun i => acc_offset cmd =? GL_HIDA i) (seqZ 0 16) then ICE_SUCCESS
  else if existsb (fun i => acc_offset cmd =? GL_HIBA i) (seqZ 0 1024) then ICE_SUCCESS
  else ICE_ERR_OUT_OF_RANGE.

Definition ice_nvm_access_read (cmd : ice_nvm_access_cmd) (data : list Z) : DM D (ice_status * list Z) :=
  data ← d_option (clear_data cmd data);
  let status := ice_validate_nvm_rw_reg cmd in
  if negb (is_ok status) then mret (status, data)
  else
    regval ← d_rd32 (acc_offset cmd);
    data ← d_option (store 4 data 0 regval);
    mret (ICE_SUCCESS, data).

Definition ice_nvm_access_write (cmd : ice_nvm_access_cmd) (data : list Z) : DM D ice_status :=
  let status := ice_validate_nvm_rw_reg cmd in
  if negb (is_ok status) then mret status
  else if (acc_offset cmd =? GL_HICR_EN) || (acc_offset cmd =? GLGEN_RSTAT) then mret ICE_ERR_OUT_OF_RANGE
  else
    regval ← d_option (load 4 data 0);
    _ ← d_wr32 (acc_offset cmd) regval;
    mret ICE_SUCCESS.

Definition ICE_NVM_CMD_READ : Z := 0xB.
Definition ICE_NVM_CMD_WRITE : Z := 0xC.

Definition ice_handle_nvm_access (device_id : Z) (cmd : ice_nvm_access_cmd) (data : list Z) : DM D (ice_status * list Z) :=
  if nz (config cmd .& 0xF000) then mret (ICE_ERR_PARAM, data)
  else if negb (ice_nvm_access_get_adapter cmd =? device_id) then mret (ICE_ERR_PARAM, data)
  else if command cmd =? ICE_NVM_CMD_READ then
    if (ice_nvm_access_get_module cmd =? 0xE) && (ice_nvm_access_get_flags cmd =? 0xF) && (acc_offset cmd =? 0)
    then d_option (ice_nvm_access_get_features cmd data)
    else ice_nvm_access_read cmd data
  else if command cmd =? ICE_NVM_CMD_WRITE then
    status ← ice_nvm_access_write cmd data; mret (status, data)
  else mret (ICE_ERR_PARAM, data).

End nvm.
