(* ===== verification/IceNvmSpec.v ===== *)
(** * Non-volatile memory: theorems

    What the functions of [IceNvm] return, for firmware that grants resources
    ([Grants]) and serves reads inside one sector ([FlashFw]). *)
From S2P Require Import IceCtlq IceStatus Prelude Bytes IceAq IceNvm.
Local Open Scope Z_scope.

(** ** Firmware *)

(** [P] is kept by the commands; a resource is always free. *)
Class Grants (D : Type) `{AqDev D} (P : D → Prop) : Prop := {
  g_uninit n d : P d → length (dev_uninit n d) = n;
  g_send desc d : P d → flags desc = ICE_AQ_FLAG_SI → opcode desc = ice_aqc_opc_req_res ∨ opcode desc = ice_aqc_opc_release_res →
    ∃ desc' b d', dev_send desc None 0 d = Ret (ICE_SUCCESS, desc', b, d') ∧ P d'
}.

(** The byte offset of a read command. *)
Definition read_offset (desc : ice_aq_desc) : Z := pget 2 0 desc + 2 ^ 16 * pget 1 2 desc.

(** A read that stays in a sector gives the bytes of the flash, or of the shadow
    RAM when the command does not ask for the flash only; beyond the end the
    command fails. *)
Class FlashFw (D : Type) `{AqDev D} (P : D → Prop) (image : bool → list Z) : Prop := {
  f_grants :: Grants D P;
  f_read desc data n d : P d → opcode desc = ice_aqc_opc_nvm_read → pget 2 4 desc = 0 → pget 2 6 desc = n →
    0 < n → length data = Z.to_nat n → read_offset desc mod 4096 + n <= 4096 →
    let img := image (negb (nz (pget 1 3 desc .& ICE_AQC_NVM_FLASH_ONLY))) in
    ∃ st desc' part d', dev_send desc (Some data) n d = Ret (st, desc', Some part, d') ∧ P d' ∧
      length part = length data ∧
      if read_offset desc + n <=? Z.of_nat (length img)
      then st = ICE_SUCCESS ∧ part = take (Z.to_nat n) (drop (Z.to_nat (read_offset desc)) img)
      else st = ICE_ERR_AQ_ERROR ∧ dev_last_status d' = ICE_AQ_RC_EINVAL
}.

(** ** Resources *)

Section grants.
Context {D : Type} `{AqDev D} (P : D → Prop) `{!Grants D P}.

Lemma dwp_grant desc d : P d → flags desc = ICE_AQ_FLAG_SI → opcode desc = ice_aqc_opc_req_res ∨ opcode desc = ice_aqc_opc_release_res →
  dwp (d_send desc None 0) d (fun r d' => r.1.1 = ICE_SUCCESS ∧ P d').
Proof. intros HP Hf Ho. destruct (g_send desc d HP Hf Ho) as (desc' & b & d' & E & HP'). by eexists _, d'. Qed.

Lemma dwp_uninit n d : P d → dwp (d_uninit n) d (fun bs d' => length bs = n ∧ d' = d).
Proof.
  intros HP. pose proof (g_uninit n d HP) as Hl. unfold dwp, d_uninit. rewrite Hl, Nat.eqb_refl. by eexists _, d.
Qed.

Lemma dwp_acquire flash access d : P d →
  dwp (ice_acquire_nvm flash access) d (fun st d' => st = ICE_SUCCESS ∧ P d').
Proof.
  intros HP. unfold ice_acquire_nvm. case_match; [by apply dwp_ret|].
  apply dwp_bind, dwp_bind. eapply dwp_mono; [by apply dwp_grant; [| |left]|].
  intros [[st desc] b] d1 [E HP1]. cbn in E. subst st. cbn [is_ok orb]. apply dwp_bind, dwp_get, dwp_ret.
  cbn [bool_decide]. destruct (Z.to_nat _); by apply dwp_ret.
Qed.

Lemma dwp_release flash d : P d → dwp (ice_release_nvm flash) d (fun _ d' => P d').
Proof.
  intros HP. unfold ice_release_nvm. case_match; [by apply dwp_ret|].
  apply dwp_bind, dwp_get, dwp_bind, dwp_bind. eapply dwp_mono; [by apply dwp_grant; [| |right]|].
  intros [[st desc] b] d1 [E HP1]. cbn in E. subst st. apply dwp_ret. destruct (Z.to_nat _); cbn [release_loop];
    apply dwp_bind, dwp_get; by apply dwp_ret.
Qed.
End grants.

(** ** Reading *)

Lemma split_offset offset : 0 <= offset < 2 ^ 24 →
  u16 (offset .& 0xFFFF) + 2 ^ 16 * u8 ((offset .>> 16) .& 0xFF) = offset.
Proof.
  intros. change 0xFFFF with (Z.ones 16). change 0xFF with (Z.ones 8). rewrite !Z.land_ones by lia.
  unfold wrap. rewrite !Zmod_mod, Z.shiftr_div_pow2 by lia.
  rewrite (Z.mod_small (offset / 2 ^ 16)) by (split; [apply Z.div_pos|apply Z.div_lt_upper_bound]; lia).
  pose proof (Z.div_mod offset (2 ^ 16)). lia.
Qed.

(** The bytes [offset, offset + n) of an image. *)
Definition sub (img : list Z) (offset n : Z) : list Z := take (Z.to_nat n) (drop (Z.to_nat offset) img).

Lemma length_image_sub img offset n : 0 <= offset → 0 <= n → offset + n <= Z.of_nat (length img) →
  length (sub img offset n) = Z.to_nat n.
Proof. intros. unfold sub. apply length_sub. lia. Qed.

Lemma sub_add img offset n m : 0 <= offset → 0 <= n → 0 <= m →
  sub img offset (n + m) = sub img offset n ++ sub img (offset + n) m.
Proof. intros. unfold sub. rewrite !Z2Nat.inj_add by lia. apply sub_app. Qed.

Section flash.
Context {D : Type} `{AqDev D} (P : D → Prop) (image : bool → list Z) `{!FlashFw D P image}.

Definition answered (rsr : bool) (offset n : Z) (st : ice_status) (d' : D) : Prop :=
  if offset + n <=? Z.of_nat (length (image rsr)) then st = ICE_SUCCESS
  else st = ICE_ERR_AQ_ERROR ∧ dev_last_status d' = ICE_AQ_RC_EINVAL.

Lemma dwp_read_nvm offset n data last rsr d : P d → 0 <= offset < 2 ^ 24 → 0 < n → length data = Z.to_nat n →
  offset mod 4096 + n <= 4096 →
  dwp (ice_aq_read_nvm ICE_AQC_NVM_START_POINT offset n data last rsr) d (fun r d' =>
    P d' ∧ length r.2 = length data ∧ answered rsr offset n r.1 d' ∧
    (r.1 = ICE_SUCCESS → r.2 = sub (image rsr) offset n)).
Proof.
  intros HP Ho Hn Hl Hs. pose proof (Z.mod_pos_bound offset 4096 ltac:(lia)).
  unfold ice_aq_read_nvm. rewrite (proj2 (Z.ltb_ge _ _)) by (unfold ICE_AQC_NVM_MAX_OFFSET; lia).
  set (desc := pset 2 6 n _). apply dwp_bind.
  assert (read_offset desc = offset) as Hro by (unfold read_offset, desc; pfields; by apply split_offset).
  assert (negb (nz (pget 1 3 desc .& ICE_AQC_NVM_FLASH_ONLY)) = rsr) as Hfl
    by (unfold desc; pfields; by destruct rsr, last).
  destruct (f_read (P := P) (image := image) desc data n d HP) as (st & desc' & part & d' & Hsd & HP' & Hlp & Hr);
    rewrite ?Hro; try done; try (unfold desc; by pfields).
  { unfold desc. pfields. apply wrap_small. split; lia. }
  eexists _, d'. split; [exact Hsd|]. apply dwp_ret. rewrite Hfl, Hro in Hr. unfold answered, sub. cbn [fst snd default].
  split; [done|]. split; [done|]. destruct (_ <=? _); [by destruct Hr|]. split; [done|]. by destruct Hr as [-> _].
Qed.

(** Overwriting the unread rest of a partly filled buffer. *)
Lemma put_part img data offset br part : 0 <= offset → 0 <= br → br + Z.of_nat (length part) <= Z.of_nat (length data) →
  length (sub img offset br) = Z.to_nat br →
  put_bytes (sub img offset br ++ drop (Z.to_nat br) data) br part =
  Some ((sub img offset br ++ part) ++ drop (Z.to_nat (br + Z.of_nat (length part))) data).
Proof.
  intros ? ? ? Hl.
  rewrite put_bytes_in by (rewrite ?length_app, ?length_drop; lia). f_equal. unfold put.
  rewrite take_app_le, take_ge by lia. rewrite <- app_assoc. do 2 f_equal.
  rewrite drop_app_ge by lia. rewrite drop_drop. f_equal. lia.
Qed.

(** A buffer that holds [br] bytes of the image and then a part of the right size. *)
Lemma filled img data offset br part : 0 <= offset → 0 <= br → br + Z.of_nat (length part) <= Z.of_nat (length data) →
  length (sub img offset br) = Z.to_nat br →
  let data' := (sub img offset br ++ part) ++ drop (Z.to_nat (br + Z.of_nat (length part))) data in
  length data' = length data ∧ take (Z.to_nat br) data' = sub img offset br.
Proof.
  intros ? ? ? Hl data'. subst data'.
  split; [rewrite !length_app, length_drop; lia|]. rewrite <- app_assoc. rewrite take_app_le, take_ge by lia. done.
Qed.

(** One sector of the loop. *)
Definition sector_size (offset len : Z) : Z := Z.min (4096 - offset mod 4096) len.

Lemma dwp_sector offset n data last rsr d : P d → 0 <= offset <= 2 ^ 24 →
  0 < n → length data = Z.to_nat n → offset mod 4096 + n <= 4096 → Z.of_nat (length (image rsr)) <= 2 ^ 24 →
  dwp (ice_aq_read_nvm ICE_AQC_NVM_START_POINT offset n data last rsr) d (fun r d' =>
    P d' ∧ length r.2 = length data ∧ (r.1 = ICE_SUCCESS ↔ offset + n <= Z.of_nat (length (image rsr))) ∧
    (offset < 2 ^ 24 → r.1 ≠ ICE_SUCCESS → r.1 = ICE_ERR_AQ_ERROR ∧ dev_last_status d' = ICE_AQ_RC_EINVAL) ∧
    (r.1 = ICE_SUCCESS → r.2 = sub (image rsr) offset n)).
Proof.
  intros HP Ho Hn Hl Hs Hi. destruct (decide (offset = 2 ^ 24)) as [->|].
  { unfold ice_aq_read_nvm. rewrite (proj2 (Z.ltb_lt _ _)) by (unfold ICE_AQC_NVM_MAX_OFFSET; lia).
    apply dwp_ret. cbn. split_and!; try done; try lia. split; [done|lia]. }
  eapply dwp_mono; [apply dwp_read_nvm; done || lia|]. intros [st part] d' (HP' & Hl' & Ha & Hd). cbn in *.
  unfold answered in Ha. destruct (Z.leb_spec (offset + n) (Z.of_nat (length (image rsr)))).
  - subst st. split_and!; done.
  - destruct Ha as [-> ?]. split_and!; try done. split; [done|lia].
Qed.

(** The loop, with [br] bytes read; the number of sectors still to read bounds the
    iterations. *)
Definition flat_result (rsr : bool) (offset len : Z) (data : list Z) (r : ice_status * Z * list Z) (d' : D) : Prop :=
  let '(st, n, data') := r in
  P d' ∧ (st = ICE_SUCCESS ↔ offset + len <= Z.of_nat (length (image rsr))) ∧
  0 <= n <= len ∧ length data' = length data ∧ take (Z.to_nat n) data' = sub (image rsr) offset n ∧
  (offset + len <= 2 ^ 24 → st ≠ ICE_SUCCESS → st = ICE_ERR_AQ_ERROR ∧ dev_last_status d' = ICE_AQ_RC_EINVAL) ∧
  (st = ICE_SUCCESS → n = len ∧ data' = sub (image rsr) offset len ++ drop (Z.to_nat len) data).

Lemma dwp_flat_loop fuel offset len br data rsr d : P d → 0 <= offset → 0 <= br < len → len < 2 ^ 31 →
  len <= Z.of_nat (length data) → offset + br <= 2 ^ 24 → Z.of_nat (length (image rsr)) <= 2 ^ 24 →
  length (sub (image rsr) offset br) = Z.to_nat br →
  ((offset + br) mod 4096 + (len - br) - 1) / 4096 < Z.of_nat fuel →
  dwp (flat_loop fuel (offset + br) len br (sub (image rsr) offset br ++ drop (Z.to_nat br) data) rsr) d
    (flat_result rsr offset len data).
Proof.
  revert br d. induction fuel as [|fuel IH]; intros br d HP Ho Hbr Hlen Hd Ho' Hi Hsl Hf;
    pose proof (Z.mod_pos_bound (offset + br) 4096 ltac:(lia)) as Hm; cbn [flat_loop].
  { pose proof (Z.div_pos ((offset + br) mod 4096 + (len - br) - 1) 4096). lia. }
  unfold ICE_AQ_MAX_BUF_LEN. rewrite (wrap_small 32 (len - br)) by (split; lia).
  change (Z.min _ (len - br)) with (sector_size (offset + br) (len - br)).
  set (rs := sector_size _ _). assert (0 < rs <= 4096 ∧ rs <= len - br ∧ (offset + br) mod 4096 + rs <= 4096) as Hrs
    by (unfold rs, sector_size; lia).
  rewrite (wrap_small 16 rs), (wrap_small 32 (br + rs)), (wrap_small 32 (offset + br + rs)) by (split; lia).
  apply dwp_bind. unfold bytes_at. rewrite (proj2 (Z.leb_le _ _)), (proj2 (Z.leb_le _ _)) by
    (rewrite ?length_app, ?length_drop; lia). cbn [andb d_option]. apply dwp_ret, dwp_bind.
  eapply dwp_mono; [apply dwp_sector; try done; try lia; rewrite length_take, length_drop, length_app, length_drop; lia|].
  intros [st part] d1 (HP1 & Hl1 & Hst & Her & Hpart). cbn [fst snd] in *.
  rewrite length_take, length_drop, length_app, length_drop in Hl1.
  rewrite put_part by (done || lia). cbn [d_option]. apply dwp_bind, dwp_ret.
  destruct (filled (image rsr) data offset br part) as [Hfl Hft]; [lia..|done|].
  destruct (decide (st = ICE_SUCCESS)) as [->|Hne]; cbn [is_ok negb]; cycle 1.
  { replace (is_ok st) with false by (by destruct st). cbn [negb]. apply dwp_ret. cbn. split_and!; try done; try lia.
    - split; [done|]. intros. exfalso. apply Hne, Hst. lia.
    - intros. apply Her; [lia|done]. }
  rewrite (Hpart eq_refl) in *. pose proof (proj1 Hst eq_refl). rewrite <- sub_add in * by lia.
  replace (br + Z.of_nat (length (sub (image rsr) (offset + br) rs))) with (br + rs) in * by (rewrite length_image_sub; lia).
  destruct (Z.ltb_spec (br + rs) len) as [Hlt|Hge]; cbn [negb].
  - rewrite <- Z.add_assoc. apply IH; try done; try lia; [rewrite length_image_sub; lia|].
    assert (rs = 4096 - (offset + br) mod 4096) as Er by (unfold rs, sector_size in *; lia).
    replace ((offset + (br + rs)) mod 4096) with 0.
    + replace (0 + (len - (br + rs)) - 1) with ((offset + br) mod 4096 + (len - br) - 1 + (-1) * 4096) by lia.
      rewrite Z.div_add by lia. lia.
    + symmetry. pose proof (Z.div_mod (offset + br) 4096 ltac:(lia)).
      replace (offset + (br + rs)) with (((offset + br) / 4096 + 1) * 4096) by lia. apply Z.mod_mul. lia.
  - apply dwp_ret. cbn. assert (br + rs = len) as E by lia. rewrite E in *. split_and!; try done; try lia.
    + split; [lia|done].
    + by rewrite take_app_le, take_ge by (rewrite length_image_sub; lia).
Qed.

Lemma dwp_read_flat flash offset len data rsr d : P d → 0 <= offset <= 2 ^ 24 →
  Z.of_nat (length (image rsr)) <= 2 ^ 24 → 0 < len < 2 ^ 31 → len <= Z.of_nat (length data) →
  (rsr = true → offset + len <= sr_words flash * 2) →
  dwp (ice_read_flat_nvm flash offset len data rsr) d (flat_result rsr offset len data).
Proof.
  intros HP Ho Hi Hl Hd Hsr. unfold ice_read_flat_nvm.
  replace (rsr && _) with false; cycle 1.
  { destruct rsr; [|done]. cbn. rewrite wrap_small by (split; lia). symmetry. apply Z.ltb_ge. auto. }
  pose proof (Z.mod_pos_bound offset 4096 ltac:(lia)).
  pose proof (dwp_flat_loop (Z.to_nat (len / ICE_AQ_MAX_BUF_LEN + 2)) offset len 0 data rsr d) as Hw.
  rewrite Z.add_0_r in Hw. apply Hw; try done; try lia. clear Hw. unfold ICE_AQ_MAX_BUF_LEN.
  pose proof (Z.div_pos len 4096). rewrite Z2Nat.id by lia.
  assert ((offset mod 4096 + (len - 0) - 1) / 4096 <= (len + 1 * 4096) / 4096) by (apply Z.div_le_mono; lia).
  rewrite Z.div_add in * by lia. lia.
Qed.

(** C22. [ice_read_flat_nvm], which splits a read at the sector boundaries: for firmware
    that serves reads inside a sector, it returns for every range, succeeds exactly when
    the range lies inside the image, fills the caller's buffer with the bytes of the image
    up to the length it reports and leaves the rest of the buffer alone; a range beyond
    the end gives the firmware's error, with the last status [EINVAL]. *)
Theorem read_flat_nvm_spec flash offset len data rsr d : P d → 0 <= offset <= 2 ^ 24 →
  Z.of_nat (length (image rsr)) <= 2 ^ 24 → 0 < len < 2 ^ 31 → len <= Z.of_nat (length data) →
  (rsr = true → offset + len <= sr_words flash * 2) →
  dwp (ice_read_flat_nvm flash offset len data rsr) d (flat_result rsr offset len data).
Proof. exact (dwp_read_flat flash offset len data rsr d). Qed.

(** ** Words of the shadow RAM *)

(** The driver knows the size of the shadow RAM. *)
Context (flash : ice_flash_info) (Hsr : sr_words flash * 2 = Z.of_nat (length (image true)))
  (Hsize : Z.of_nat (length (image true)) <= 2 ^ 24).

Definition word (img : list Z) (w : Z) : Z := le (sub img (w * 2) 2).

Lemma dwp_sr_word w d : P d → 0 <= w < sr_words flash →
  dwp (ice_read_sr_word flash w) d (fun r d' => r = (ICE_SUCCESS, word (image true) w) ∧ P d').
Proof using All.
  intros HP Hw. apply dwp_bind. eapply dwp_mono; [by apply (dwp_acquire P)|]. intros st d1 [-> HP1]. cbn [is_ok negb].
  apply dwp_bind, dwp_bind. eapply dwp_mono; [by apply (dwp_uninit P)|]. intros bs d' [Hl ->]. apply dwp_bind.
  eapply dwp_mono; [apply dwp_read_flat; done || lia|].
  intros [[st n] data] d2 (HP2 & Hst & _ & _ & _ & _ & Hdata). apply dwp_ret, dwp_bind.
  eapply dwp_mono; [by apply (dwp_release P)|]. intros ? d3 HP3. apply dwp_ret. split; [|done].
  assert (st = ICE_SUCCESS) as -> by (apply Hst; lia). destruct Hdata as [_ ->]; [done|].
  unfold word. change (Z.to_nat 2) with 2%nat. by rewrite drop_ge, app_nil_r by lia.
Qed.

(** ** The preserved field area *)

(** Words [ws] from word [w] on. *)
Definition words_at (img : list Z) (w : Z) (ws : list Z) : Prop :=
  ∀ i x, ws !! i = Some x → word img (w + Z.of_nat i) = x.

(** A list of modules as the area stores it: type, length, content. *)
Definition pfa_words (tlvs : list (Z * list Z)) : list Z :=
  tlvs ≫= fun t => t.1 :: Z.of_nat (length t.2) :: t.2.

(** The module of a type: the first one counts. *)
Fixpoint pfa_find (w : Z) (tlvs : list (Z * list Z)) (ty : Z) : ice_status * option (Z * Z) :=
  match tlvs with
  | [] => (ICE_ERR_DOES_NOT_EXIST, None)
  | (t, content) :: tlvs' =>
      if t =? ty then
        if (length content =? 0)%nat then (ICE_ERR_INVAL_SIZE, None) else (ICE_SUCCESS, Some (w, Z.of_nat (length content)))
      else pfa_find (w + Z.of_nat (length content) + 2) tlvs' ty
  end.

Lemma words_at_app img w xs ys : words_at img w (xs ++ ys) → words_at img w xs ∧ words_at img (w + Z.of_nat (length xs)) ys.
Proof.
  intros Hw. split; intros i x Hi.
  - apply Hw. by apply lookup_app_l_Some.
  - rewrite <- Z.add_assoc, <- Nat2Z.inj_add. apply Hw. rewrite lookup_app_r by lia. by rewrite Nat.add_comm, Nat.add_sub.
Qed.

Lemma dwp_pfa_loop fuel w tlvs ty d : P d → (length tlvs <= fuel)%nat → words_at (image true) w (pfa_words tlvs) →
  0 <= w → w + Z.of_nat (length (pfa_words tlvs)) <= sr_words flash → sr_words flash <= 2 ^ 16 →
  w + Z.of_nat (length (pfa_words tlvs)) < 2 ^ 16 →
  dwp (pfa_loop fuel flash (w + Z.of_nat (length (pfa_words tlvs))) w ty) d (fun r d' => r = pfa_find w tlvs ty ∧ P d').
Proof using All.
  revert w fuel d. induction tlvs as [|[t content] tlvs IH]; intros w fuel d HP Hf Hws Hw Hn Hs Hn'; cbn [pfa_words mbind list_bind] in *.
  { cbn [length]. rewrite Z.add_0_r. destruct fuel; cbn [pfa_loop]; rewrite Z.ltb_irrefl; by apply dwp_ret. }
  change (tlvs ≫= _) with (pfa_words tlvs) in *.
  rewrite !length_app in *. cbn [length fst snd] in *. destruct fuel as [|fuel]; cbn [length] in Hf; [lia|]. cbn [pfa_loop].
  rewrite (proj2 (Z.ltb_lt _ _)) by lia. apply words_at_app in Hws as [Hh Ht]. cbn [length fst snd] in *.
  apply dwp_bind. eapply dwp_mono; [apply dwp_sr_word; done || lia|]. intros ? d1 [-> HP1]. cbn [is_ok negb].
  apply dwp_bind. rewrite wrap_small by (split; lia). eapply dwp_mono; [apply dwp_sr_word; done || lia|].
  intros ? d2 [-> HP2]. cbn [is_ok negb pfa_find].
  pose proof (Hh 0%nat t eq_refl) as H0. rewrite Z.add_0_r in H0. pose proof (Hh 1%nat _ eq_refl) as H1.
  change (Z.of_nat 1) with 1 in H1. rewrite H0, H1.
  destruct (t =? ty).
  { unfold nz. destruct content; cbn [length Nat.eqb]; apply dwp_ret; split; done || (f_equal; f_equal; lia). }
  rewrite wrap_small by (split; lia).
  replace (w + Z.of_nat (S (S (length content)) + length (pfa_words tlvs)))
    with (w + Z.of_nat (length content) + 2 + Z.of_nat (length (pfa_words tlvs))) by lia.
  apply IH; try done; try lia. by replace (w + Z.of_nat (length content) + 2) with (w + Z.of_nat (S (S (length content)))) by lia.
Qed.
(** [ice_get_pfa_module_tlv] for a well-formed preserved field area: it finds the
    first module of the type, with the word at which it starts and its length; a module
    of length 0 is an invalid size, and a type that does not occur does not exist. *)
Theorem pfa_module_tlv_spec fuel tlvs ty d : P d → sr_words flash <= 2 ^ 16 →
  let p := word (image true) ICE_SR_PFA_PTR in
  0 <= p → p + 1 + Z.of_nat (length (pfa_words tlvs)) <= Z.min (sr_words flash) (2 ^ 16 - 1) → 64 < sr_words flash →
  words_at (image true) p ((1 + Z.of_nat (length (pfa_words tlvs))) :: pfa_words tlvs) → (length tlvs <= fuel)%nat →
  dwp (ice_get_pfa_module_tlv fuel flash ty) d (fun r d' => r = pfa_find (p + 1) tlvs ty ∧ P d').
Proof using All.
  intros HP Hs p Hp Hn H64 Hws Hf. apply (words_at_app _ _ [_]) in Hws as [Hh Ht]. cbn [length] in Ht.
  pose proof (Hh 0%nat _ eq_refl) as H0. rewrite Z.add_0_r in H0.
  apply dwp_bind. eapply dwp_mono; [apply dwp_sr_word; done || (unfold ICE_SR_PFA_PTR; lia)|]. intros ? d1 [-> HP1].
  cbn [is_ok negb]. fold p. apply dwp_bind. eapply dwp_mono; [apply dwp_sr_word; done || lia|]. intros ? d2 [-> HP2].
  cbn [is_ok negb]. rewrite H0, wrap_small, Z.add_assoc by (split; lia). apply dwp_pfa_loop; done || lia.
Qed.

(** A module whose length leads back to itself. *)
Lemma pfa_loop_stuck fuel w e ty d : P d → 0 <= w → w + 2 <= sr_words flash → w + 2 < 2 ^ 16 → w < e →
  word (image true) w ≠ ty → word (image true) (w + 1) = 0xFFFE →
  pfa_loop fuel flash e w ty d = OutOfFuel.
Proof using All.
  intros HP Hw Hs Hw' He Hty Hl. revert d HP. induction fuel as [|fuel IH]; intros d HP; cbn [pfa_loop];
    rewrite (proj2 (Z.ltb_lt _ _)) by lia; [done|].
  destruct (dwp_sr_word w d) as (r & d1 & E1 & -> & HP1); [done|lia|]. rewrite (dm_bind _ _ _ _ _ E1).
  on_ok. rewrite (wrap_small 16 (w + 1)) by (split; lia).
  destruct (dwp_sr_word (w + 1) d1) as (r & d2 & E2 & -> & HP2); [done|lia|]. rewrite (dm_bind _ _ _ _ _ E2).
  on_ok. rewrite (proj2 (Z.eqb_neq _ _)) by done. rewrite Hl.
  replace (u16 (w + 0xFFFE + 2)) with w; [by apply IH|].
  unfold wrap. replace (w + 0xFFFE + 2) with (w + 1 * 2 ^ 16) by lia. rewrite Z.mod_add, Z.mod_small by lia. done.
Qed.

(** The search for a module does not return for an area whose first module has another
    type and the length 0xFFFE: adding the length and 2 in 16 bits leads back to the same
    module. *)
Theorem pfa_module_tlv_hangs ty d : P d →
  let p := word (image true) ICE_SR_PFA_PTR in
  0 <= p → p + 3 <= Z.min (sr_words flash) (2 ^ 16 - 1) → 64 < sr_words flash →
  2 <= word (image true) p → word (image true) (p + 1) ≠ ty → word (image true) (p + 2) = 0xFFFE →
  ∀ fuel, ice_get_pfa_module_tlv fuel flash ty d = OutOfFuel.
Proof using All.
  intros HP p Hp Hs H64 Hn Hty Hl fuel. unfold ice_get_pfa_module_tlv.
  destruct (dwp_sr_word ICE_SR_PFA_PTR d) as (r & d1 & E1 & -> & HP1); [done|unfold ICE_SR_PFA_PTR; lia|].
  rewrite (dm_bind _ _ _ _ _ E1). on_ok. fold p.
  destruct (dwp_sr_word p d1) as (r & d2 & E2 & -> & HP2); [done|lia|]. rewrite (dm_bind _ _ _ _ _ E2).
  on_ok. rewrite wrap_small by (split; lia). apply pfa_loop_stuck; try done; try lia.
  by replace (p + 1 + 1) with (p + 2) by lia.
Qed.
End flash.

(** ** The size of the flash *)

Section size.
Context {D : Type} `{AqDev D} (P : D → Prop) `{!Grants D P} (flash : ice_flash_info).

(** The bytes at the offsets between [lo] and [hi] can be read up to [size]. *)
Definition sized (size lo hi : Z) : Prop := ∀ offset data d, P d → lo < offset < hi → length data = 1%nat →
  dwp (ice_read_flat_nvm flash offset 1 data false) d (fun r d' => P d' ∧
    if offset <? size then r.1.1 = ICE_SUCCESS
    else r.1.1 = ICE_ERR_AQ_ERROR ∧ dev_last_status d' = ICE_AQ_RC_EINVAL).

Lemma sized_weaken size lo hi lo' hi' : sized size lo hi → lo <= lo' → hi' <= hi → sized size lo' hi'.
Proof using. intros Hs ? ? offset data d ? ?. apply Hs; [done|lia]. Qed.

(** Halving the interval [fuel] times leaves one offset. *)
Lemma dwp_bisect fuel size lo hi d : P d → sized size lo hi → 0 <= lo < size → size <= hi → hi - lo <= 2 ^ Z.of_nat fuel →
  dwp (bisect fuel flash lo hi ICE_SUCCESS) d (fun r d' => r = (ICE_SUCCESS, size) ∧ P d').
Proof using All.
  revert lo hi d. induction fuel as [|fuel IH]; intros lo hi d HP Hs Hlo Hhi Hf; cbn [bisect];
    destruct (Z.ltb_spec 1 (hi - lo)) as [Hlt|]; try (cbn in Hf; lia);
    try (apply dwp_ret; split; [f_equal; lia|done]).
  pose proof (Z.div_mod (hi + lo) 2 ltac:(lia)). pose proof (Z.mod_pos_bound (hi + lo) 2 ltac:(lia)).
  assert (hi - lo <= 2 * 2 ^ Z.of_nat fuel) by (rewrite Nat2Z.inj_succ, Z.pow_succ_r in Hf; lia).
  apply dwp_bind. eapply dwp_mono; [by apply (dwp_uninit P)|]. intros bs d' [Hl ->].
  apply dwp_bind. eapply dwp_mono; [apply Hs; [done|lia|done]|]. intros [[st n] bs'] d1 [HP1 Hr]. cbn [fst] in Hr.
  apply dwp_bind, dwp_get. destruct (Z.ltb_spec ((hi + lo) / 2) size).
  - subst st. cbn [is_ok]. rewrite (bool_decide_eq_false_2 (ICE_SUCCESS = _)) by done. cbn [andb].
    apply IH; try done; try lia. eapply sized_weaken; [done|lia..].
  - destruct Hr as [-> ->]. cbn [andb]. apply IH; try done; try lia. eapply sized_weaken; [done|lia..].
Qed.

Lemma dwp_discover size d : P d →
  (∀ d, P d → dwp (bisect 24 flash 0 (2 ^ 24) ICE_SUCCESS) d (fun r d' => r = (ICE_SUCCESS, size) ∧ P d')) →
  dwp (ice_discover_flash_size flash) d (fun r d' => r = (ICE_SUCCESS, flash <| flash_size := size |>) ∧ P d').
Proof using All.
  intros HP Hb. apply dwp_bind. eapply dwp_mono; [by apply (dwp_acquire P)|]. intros st d1 [-> HP1]. cbn [is_ok negb].
  apply dwp_bind. eapply dwp_mono; [by apply Hb|]. intros ? d2 [-> HP2]. cbn [is_ok].
  apply dwp_bind. eapply dwp_mono; [by apply (dwp_release P)|]. intros ? d3 HP3. by apply dwp_ret.
Qed.
End size.

(** [ice_discover_flash_size] finds the size of any flash of at most 16 MiB: the
    bisection, which takes an [EINVAL] of the firmware for an offset past the end, returns
    within 24 reads, reports the length of the image and releases the resource. *)
Theorem discover_flash_size_spec {D} `{AqDev D} (P : D → Prop) image `{!FlashFw D P image} flash d :
  P d → 1 <= Z.of_nat (length (image false)) <= 2 ^ 24 →
  dwp (ice_discover_flash_size flash) d (fun r d' =>
    r = (ICE_SUCCESS, flash <| flash_size := Z.of_nat (length (image false)) |>) ∧ P d').
Proof.
  intros HP Hs. apply dwp_discover; [apply f_grants|done|]. intros d1 HP1. apply dwp_bisect; [apply f_grants|done| |lia..].
  intros offset data d2 HP2 Ho Hl. eapply dwp_mono; [apply (dwp_read_flat P image); done || lia|].
  intros [[st n] data'] d3 (HP3 & Hst & _ & _ & _ & He & _). split; [done|]. cbn [fst].
  destruct (Z.ltb_spec offset (Z.of_nat (length (image false)))); [apply Hst; lia|].
  apply He; [lia|]. intros ->. pose proof (proj1 Hst eq_refl). lia.
Qed.

(** ** Access by tools *)

Section access.
Context {D : Type} `{AqDev D}.

(** The registers that a tool may write. *)
Definition writable (r : Z) : Prop :=
  (r ∈ rw_registers ∧ r ≠ GL_HICR_EN ∧ r ≠ GLGEN_RSTAT) ∨ (∃ i, 0 <= i < 16 ∧ r = GL_HIDA i) ∨
  (∃ i, 0 <= i < 1024 ∧ r = GL_HIBA i).

Lemma existsb_seqZ (f : Z → Z) r n : existsb (fun i => r =? f i) (seqZ 0 n) = true → ∃ i, 0 <= i < n ∧ r = f i.
Proof.
  intros (i & Hi & E)%List.existsb_exists. apply Z.eqb_eq in E. exists i. split; [|done].
  apply list_elem_of_In, elem_of_seqZ in Hi. lia.
Qed.

Lemma validate_writable cmd : ice_validate_nvm_rw_reg cmd = ICE_SUCCESS → acc_offset cmd ≠ GL_HICR_EN →
  acc_offset cmd ≠ GLGEN_RSTAT → data_size cmd = 4 ∧ writable (acc_offset cmd).
Proof.
  unfold ice_validate_nvm_rw_reg, writable. intros Hv H1 H2. destruct (_ || _) eqn:E; [done|].
  bool_to_prop. split; [done|]. destruct (existsb _ rw_registers) eqn:Er.
  { left. split; [|done]. apply List.existsb_exists in Er as (x & Hx & Ex). apply Z.eqb_eq in Ex as <-.
    by apply list_elem_of_In. }
  right. destruct (existsb _ (seqZ 0 16)) eqn:Ea; [left; by apply existsb_seqZ in Ea|].
  destruct (existsb _ (seqZ 0 1024)) eqn:Eb; [right; by apply existsb_seqZ in Eb|done].
Qed.

Lemma clear_data_ok cmd data : data_size cmd <= Z.of_nat (length data) →
  ∃ data', clear_data cmd data = Some data' ∧ length data' = length data.
Proof.
  intros. unfold clear_data. destruct (Z.leb_spec 0 (data_size cmd)).
  - rewrite put_bytes_in by (rewrite ?length_replicate; lia). eexists. split; [done|].
    rewrite length_put; [done|]. rewrite length_replicate. lia.
  - rewrite put_bytes_in by (rewrite ?length_replicate; lia). eexists. split; [done|].
    rewrite length_put; [done|]. rewrite length_replicate. lia.
Qed.

Lemma get_features_ok cmd data : data_size cmd <= Z.of_nat (length data) →
  ∃ r, ice_nvm_access_get_features cmd data = Some r ∧ length r.2 = length data.
Proof.
  intros. unfold ice_nvm_access_get_features. destruct (Z.ltb_spec (data_size cmd) 16); [by eexists|].
  destruct (clear_data_ok cmd data) as (data' & -> & Hl); [done|]. cbn [mbind option_bind].
  rewrite put_bytes_in by (cbn; lia). eexists. split; [done|]. cbn [snd]. rewrite length_put; [done|]. cbn. lia.
Qed.

Lemma dwp_access_read cmd data d : data_size cmd <= Z.of_nat (length data) → 4 <= Z.of_nat (length data) →
  dwp (ice_nvm_access_read cmd data) d (fun r d' => length r.2 = length data ∧
    (d' = d ∨ r.1 = ICE_SUCCESS ∧ d' = (dev_rd32 (acc_offset cmd) d).2)).
Proof.
  intros Hs H4. unfold ice_nvm_access_read. destruct (clear_data_ok cmd data) as (data' & -> & Hl); [done|].
  apply dwp_bind, dwp_ret. case_match; [apply dwp_ret; auto|]. apply dwp_bind.
  unfold d_rd32. destruct (dev_rd32 (acc_offset cmd) d) as [v d'] eqn:E. eexists v, d'. rewrite E. split; [done|].
  rewrite store_in by lia. apply dwp_bind, dwp_ret, dwp_ret. cbn [fst snd]. split; [|by auto].
  rewrite length_put; [done|]. rewrite length_le_bytes. lia.
Qed.

(** [ice_handle_nvm_access]: whatever a tool asks for, the function returns, stays in
    the tool's buffer, and leaves the device alone except for one read of a register, or
    one write to a register of the list, for the adapter the tool names; the registers
    [GL_HICR_EN] and [GLGEN_RSTAT] are never written. *)
Theorem nvm_access_confined id cmd data d : data_size cmd <= Z.of_nat (length data) → 4 <= Z.of_nat (length data) →
  dwp (ice_handle_nvm_access id cmd data) d (fun r d' =>
    length r.2 = length data ∧
    (d' = d ∨
     command cmd = ICE_NVM_CMD_READ ∧ r.1 = ICE_SUCCESS ∧ d' = (dev_rd32 (acc_offset cmd) d).2 ∨
     command cmd = ICE_NVM_CMD_WRITE ∧ r.1 = ICE_SUCCESS ∧ writable (acc_offset cmd) ∧
       ice_nvm_access_get_adapter cmd = id ∧ d' = dev_wr32 (acc_offset cmd) (le (take 4 data)) d)).
Proof.
  intros Hs H4. unfold ice_handle_nvm_access.
  destruct (nz _); [apply dwp_ret; auto|]. destruct (Z.eqb_spec (ice_nvm_access_get_adapter cmd) id) as [Hid|];
    cbn [negb]; [|apply dwp_ret; auto].
  destruct (Z.eqb_spec (command cmd) ICE_NVM_CMD_READ) as [Hc|_].
  { case_match.
    - destruct (get_features_ok cmd data) as (r & -> & Hl); [done|]. apply dwp_ret. auto.
    - eapply dwp_mono; [by apply dwp_access_read|]. intros r d' [Hl [->|[Hr ->]]]; auto 6. }
  destruct (Z.eqb_spec (command cmd) ICE_NVM_CMD_WRITE) as [Hc|_]; [|apply dwp_ret; auto].
  apply dwp_bind. unfold ice_nvm_access_write. destruct (ice_validate_nvm_rw_reg cmd) eqn:Ev; cbn;
    try (apply dwp_ret, dwp_ret; by auto).
  destruct (_ || _) eqn:E; [apply dwp_ret, dwp_ret; by auto|]. bool_to_prop.
  destruct (validate_writable cmd) as [_ Hw]; [done..|].
  rewrite load_take by lia. apply dwp_bind, dwp_ret, dwp_bind. eexists tt, _. split; [done|]. apply dwp_ret, dwp_ret.
  cbn. split; [done|]. right. right. split_and!; done.
Qed.
End access.

(** ** A flash

    Firmware that serves an image; the state is the result code of the last command. *)
Module Rom.
Ltac computes := vm_compute; first [done | split; done].
Section rom.
Context (image : bool → list Z).

Definition send (desc : ice_aq_desc) (buf : option (list Z)) (n : Z) (last : Z)
    : outcome (ice_status * ice_aq_desc * option (list Z) * Z) :=
  match buf with
  | Some data =>
      let img := image (negb (nz (pget 1 3 desc .& ICE_AQC_NVM_FLASH_ONLY))) in
      if read_offset desc + n <=? Z.of_nat (length img)
      then Ret (ICE_SUCCESS, desc, Some (sub img (read_offset desc) n), 0)
      else Ret (ICE_ERR_AQ_ERROR, desc, Some data, ICE_AQ_RC_EINVAL)
  | None => Ret (ICE_SUCCESS, desc, None, 0)
  end.

#[export] Instance dev : AqDev Z := {
  dev_send := send; dev_last_status d := d; dev_timeout _ := 100; dev_rd32 r d := (r, d); dev_wr32 _ v _ := v;
  dev_malloc d := (true, d); dev_uninit n _ := replicate n 0xEE
}.

#[export] Instance dev_flash : FlashFw Z (fun _ => True) image.
Proof.
  split; [split|].
  - intros n d _. apply length_replicate.
  - intros desc d _ _ _. by eexists _, _, _.
  - intros desc data n d _ _ _ _ Hn Hl _ img. cbn [dev_send dev]. unfold send. fold img.
    assert (0 <= read_offset desc) by (pose proof (proj1 (pget_width 2 0 desc)); pose proof (proj1 (pget_width 1 2 desc)); unfold read_offset; lia).
    destruct (Z.leb_spec (read_offset desc + n) (Z.of_nat (length img))); do 4 eexists; (split; [done|]); split_and!; try done.
    rewrite length_image_sub; lia.
Defined.
End rom.

(** 6000 bytes of flash, 200 of shadow RAM. *)
Definition bytes (n : Z) : list Z := (fun i => (i * 7) mod 256) <$> seqZ 0 n.
Definition plain (rsr : bool) : list Z := if rsr then bytes 200 else bytes 6000.

(** A preserved field area at word 70, with two modules. *)
Definition pfa (ws : list Z) (rsr : bool) : list Z :=
  if rsr then put (put (replicate 200 0) 128 (le_bytes 2 70)) 140 (ws ≫= le_bytes 2) else bytes 6000.
Definition modules : list (Z * list Z) := [(1, [10; 11]); (0x16, [12; 13; 14])].
Definition full : list Z := 1 + Z.of_nat (length (pfa_words modules)) :: pfa_words modules.

Definition blank : ice_flash_info :=
  mkFlash (mkOromInfo 0 0 0 0) (mkNvmInfo 0 0 0 0)
    (mkBanks 0 0 0 0 0 0 ICE_INVALID_FLASH_BANK ICE_INVALID_FLASH_BANK ICE_INVALID_FLASH_BANK) 100 0 false.
End Rom.
#[local] Existing Instance Rom.dev_flash.

(** A read over a sector boundary. *)
Lemma read_flat_nvm_witness :
  dwp (ice_read_flat_nvm (H := Rom.dev Rom.plain) Rom.blank 4000 200 (replicate 300 0) false) 0
    (flat_result (H := Rom.dev Rom.plain) (fun _ => True) Rom.plain false 4000 200 (replicate 300 0)).
Proof.
  refine (read_flat_nvm_spec (H := Rom.dev Rom.plain) (fun _ => True) Rom.plain Rom.blank 4000 200 (replicate 300 0) false 0
    _ _ _ _ _ _); Rom.computes.
Defined.

(** The second module is found at word 75. *)
Lemma pfa_module_tlv_witness :
  dwp (ice_get_pfa_module_tlv (H := Rom.dev (Rom.pfa Rom.full)) 2 Rom.blank 0x16) 0 (fun r d' =>
    r = (ICE_SUCCESS, Some (75, 3)) ∧ True).
Proof.
  apply (pfa_module_tlv_spec (H := Rom.dev (Rom.pfa Rom.full)) (fun _ => True) (Rom.pfa Rom.full) Rom.blank) with (tlvs := Rom.modules);
    try Rom.computes.
  intros i x Hi. vm_compute in Hi. do 10 (destruct i as [|i]; [injection Hi as <-; vm_compute; done|]). done.
Defined.

(** A module of length 0xFFFE. *)
Lemma pfa_module_tlv_hangs_witness :
  ∀ fuel, ice_get_pfa_module_tlv (H := Rom.dev (Rom.pfa [9; 1; 0xFFFE])) fuel Rom.blank 0x16 0 = OutOfFuel.
Proof.
  apply (pfa_module_tlv_hangs (H := Rom.dev (Rom.pfa [9; 1; 0xFFFE])) (fun _ => True) (Rom.pfa [9; 1; 0xFFFE]));
    Rom.computes.
Defined.

Lemma discover_flash_size_witness :
  dwp (ice_discover_flash_size (H := Rom.dev Rom.plain) Rom.blank) 0 (fun r d' =>
    r = (ICE_SUCCESS, Rom.blank <| flash_size := 6000 |>) ∧ True).
Proof.
  apply (discover_flash_size_spec (H := Rom.dev Rom.plain) (fun _ => True) Rom.plain); Rom.computes.
Defined.

(** A write to a doorbell register. *)
Lemma nvm_access_witness :
  let cmd := mkAccess ICE_NVM_CMD_WRITE 0x15930100 GL_HICR 4 in
  dwp (ice_handle_nvm_access (H := Rom.dev Rom.plain) 0x1593 cmd [1; 0; 0; 0]) 0 (fun r d' =>
    length r.2 = 4%nat ∧
    (d' = 0 ∨
     command cmd = ICE_NVM_CMD_READ ∧ r.1 = ICE_SUCCESS ∧ d' = 0 ∨
     command cmd = ICE_NVM_CMD_WRITE ∧ r.1 = ICE_SUCCESS ∧ writable (acc_offset cmd) ∧
       ice_nvm_access_get_adapter cmd = 0x1593 ∧ d' = 1)).
Proof.
  intros cmd. apply (nvm_access_confined (H := Rom.dev Rom.plain) 0x1593 cmd [1; 0; 0; 0] 0); done.
Defined.
