(* ===== verification/IceCaps.v ===== *)
(** * Capabilities

    ice_common.c: the capabilities of device and function that the firmware lists, from
    the admin command to the structures of the driver, and the resources that the driver
    allocates through the admin queue.  Fields of the structures that the code only
    clears are left out, as is debug output. *)
From S2P Require Import IceCtlq IceStatus Prelude Bytes IceBitops IceAq.
Local Open Scope Z_scope.

(** ** Data *)

Record ice_hw_common_caps := mkCommonCaps {
  valid_functions : Z; active_tc_bitmap : Z; maxtc : Z; rss_table_size : Z; rss_table_entry_width : Z;
  num_rxq : Z; rxq_first_id : Z; num_txq : Z; txq_first_id : Z; num_msix_vectors : Z; msix_vector_first_id : Z;
  max_mtu : Z; dcb : bool; ieee_1588 : bool; sec_rev_disabled : bool; update_disabled : bool; nvm_unified_update : bool;
  pcie_reset_avoidance : bool; reset_restrict_support : bool;
  ext_topo_dev_img_ver_high : list Z; ext_topo_dev_img_ver_low : list Z; ext_topo_dev_img_part_num : list Z;
  ext_topo_dev_img_load_en : list bool; ext_topo_dev_img_prog_en : list bool; tx_sched_topo_comp_mode_en : bool
}.
#[export] Instance common_caps_settable : Settable ice_hw_common_caps := fun r =>
  mkCommonCaps (valid_functions r) (active_tc_bitmap r) (maxtc r) (rss_table_size r) (rss_table_entry_width r)
    (num_rxq r) (rxq_first_id r) (num_txq r) (txq_first_id r) (num_msix_vectors r) (msix_vector_first_id r)
    (max_mtu r) (dcb r) (ieee_1588 r) (sec_rev_disabled r) (update_disabled r) (nvm_unified_update r)
    (pcie_reset_avoidance r) (reset_restrict_support r)
    (ext_topo_dev_img_ver_high r) (ext_topo_dev_img_ver_low r) (ext_topo_dev_img_part_num r)
    (ext_topo_dev_img_load_en r) (ext_topo_dev_img_prog_en r) (tx_sched_topo_comp_mode_en r).

Definition common_zero : ice_hw_common_caps :=
  mkCommonCaps 0 0 0 0 0 0 0 0 0 0 0 0 false false false false false false false
    (replicate 4 0) (replicate 4 0) (replicate 4 0) (replicate 4 false) (replicate 4 false) false.

Record ice_ts_func_info := mkTsFunc {
  time_ref : Z; clk_src : bool; tmr_index_assoc : bool; tf_ena : bool; tmr_index_owned : bool; src_tmr_owned : bool; tmr_ena : bool
}.

Record ice_ts_dev_info := mkTsDev {
  tmr_own_map : Z; tmr0_owner : Z; tmr1_owner : Z; tmr0_owned : bool; tmr1_owned : bool; td_ena : bool;
  tmr0_ena : bool; tmr1_ena : bool; ts_ll_read : bool
}.

Record ice_hw_func_caps := mkFuncCaps {
  f_common : ice_hw_common_caps; guar_num_vsi : Z; fd_fltr_guar : Z; fd_fltr_best_effort : Z; f_ts : ice_ts_func_info
}.
#[export] Instance func_caps_settable : Settable ice_hw_func_caps := fun r =>
  mkFuncCaps (f_common r) (guar_num_vsi r) (fd_fltr_guar r) (fd_fltr_best_effort r) (f_ts r).

Record ice_hw_dev_caps := mkDevCaps {
  d_common : ice_hw_common_caps; num_vsi_allocd_to_host : Z; num_flow_director_fltr : Z; d_ts : ice_ts_dev_info;
  num_funcs : Z; nac_topo_mode : Z; nac_topo_id : Z
}.
#[export] Instance dev_caps_settable : Settable ice_hw_dev_caps := fun r =>
  mkDevCaps (d_common r) (num_vsi_allocd_to_host r) (num_flow_director_fltr r) (d_ts r) (num_funcs r)
    (nac_topo_mode r) (nac_topo_id r).

Definition ts_func_zero : ice_ts_func_info := mkTsFunc 0 false false false false false false.
Definition ts_dev_zero : ice_ts_dev_info := mkTsDev 0 0 0 false false false false false false.
Definition func_zero : ice_hw_func_caps := mkFuncCaps common_zero 0 0 0 ts_func_zero.
Definition dev_zero : ice_hw_dev_caps := mkDevCaps common_zero 0 0 ts_dev_zero 0 0 0.

(** The part of [ice_hw] that the code uses. *)
Record hw_caps := mkHwCaps {
  dev_caps : ice_hw_dev_caps; func_caps : ice_hw_func_caps; pf_id : Z; logical_pf_id : Z; dcf_enabled : bool
}.
#[export] Instance hw_caps_settable : Settable hw_caps := fun r =>
  mkHwCaps (dev_caps r) (func_caps r) (pf_id r) (logical_pf_id r) (dcf_enabled r).

(** An element of the list, 32 bytes. *)
Record ice_aqc_list_caps_elem := mkCap { cap : Z; number : Z; logical_id : Z; phys_id : Z }.

Definition ICE_MAX_VSI : Z := 768.
Definition NUM_ICE_TIME_REF_FREQ : Z := 6.
Definition GLQF_FD_SIZE : Z := 0x00460010.
Definition ice_aqc_opc_list_func_caps : Z := 0x000A.
Definition ice_aqc_opc_list_dev_caps : Z := 0x000B.
Definition CAPS_BUF_LEN : Z := 4096.

Definition ice_get_num_per_func (hw : hw_caps) (max : Z) : Z :=
  let funcs := ice_hweight8 (valid_functions (d_common (dev_caps hw)) .& 0xFF) in
  if funcs =? 0 then 0 else max / funcs.

(** ** Elements *)

Definition cap_at (buf : list Z) (i : Z) : option ice_aqc_list_caps_elem :=
  c ← load 2 buf (32 * i); n ← load 4 buf (32 * i + 4); l ← load 4 buf (32 * i + 8); p ← load 4 buf (32 * i + 12);
  Some (mkCap c n l p).

(** The structure, and whether the capability is a common one. *)
Definition ice_parse_common_caps (e : ice_aqc_list_caps_elem) (c : ice_hw_common_caps) : ice_hw_common_caps * bool :=
  let k := cap e in
  if k =? 0x0005 then (c <| valid_functions := number e |>, true)
  else if k =? 0x0018 then (c <| dcb := number e =? 1 |> <| active_tc_bitmap := logical_id e |> <| maxtc := phys_id e |>, true)
  else if k =? 0x0040 then (c <| rss_table_size := number e |> <| rss_table_entry_width := logical_id e |>, true)
  else if k =? 0x0041 then (c <| num_rxq := number e |> <| rxq_first_id := phys_id e |>, true)
  else if k =? 0x0042 then (c <| num_txq := number e |> <| txq_first_id := phys_id e |>, true)
  else if k =? 0x0043 then (c <| num_msix_vectors := number e |> <| msix_vector_first_id := phys_id e |>, true)
  else if k =? 0x0080 then
    (c <| sec_rev_disabled := nz (number e .& 1) |> <| update_disabled := nz (number e .& 2) |>
       <| nvm_unified_update := nz (number e .& 8) |>, true)
  else if k =? 0x0047 then (c <| max_mtu := number e |>, true)
  else if k =? 0x0076 then (c <| pcie_reset_avoidance := 0 <? number e |>, true)
  else if k =? 0x0077 then (c <| reset_restrict_support := number e =? 1 |>, true)
  else if (0x0081 <=? k) && (k <=? 0x0084) then
    let index := Z.to_nat (k - 0x0081) in
    (c <| ext_topo_dev_img_ver_high ::= <[index := number e]> |> <| ext_topo_dev_img_ver_low ::= <[index := logical_id e]> |>
       <| ext_topo_dev_img_part_num ::= <[index := (phys_id e .& 0xFF00) .>> 8]> |>
       <| ext_topo_dev_img_load_en ::= <[index := nz (phys_id e .& 1)]> |>
       <| ext_topo_dev_img_prog_en ::= <[index := nz (phys_id e .& 2)]> |>, true)
  else if k =? 0x0085 then (c <| tx_sched_topo_comp_mode_en := number e =? 1 |>, true)
  else (c, false).

Definition ice_recalc_port_limited_caps (hw : hw_caps) (c : ice_hw_common_caps) : ice_hw_common_caps :=
  if 4 <? num_funcs (dev_caps hw) then c <| maxtc := 4 |> else c.

Section caps.
Context {D : Type} `{AqDev D}.

(** *** Function capabilities *)

Definition ice_parse_vsi_func_caps (hw : hw_caps) : hw_caps :=
  hw <| func_caps ::= fun f => f <| guar_num_vsi := ice_get_num_per_func hw ICE_MAX_VSI |> |>.

Definition ice_parse_1588_func_caps (e : ice_aqc_list_caps_elem) (hw : hw_caps) : hw_caps :=
  let n := number e in
  let clk_freq := (n .& 0x70000) .>> 16 in
  let info := mkTsFunc (if clk_freq <? NUM_ICE_TIME_REF_FREQ then clk_freq else 0) (nz (n .& 1 .<< 20))
                (nz (n .& 1 .<< 24)) (nz (n .& 1)) (nz (n .& 1 .<< 4)) (nz (n .& 2)) (nz (n .& 4)) in
  hw <| func_caps ::= fun f => f <| f_ts := info |> <| f_common ::= fun c => c <| ieee_1588 := nz (n .& 1) |> |> |>.

Definition ice_parse_fdir_func_caps (hw : hw_caps) : DM D hw_caps :=
  if dcf_enabled hw then mret hw
  else
    reg_val ← d_rd32 GLQF_FD_SIZE;
    mret (hw <| func_caps ::= fun f => f <| fd_fltr_guar := ice_get_num_per_func hw ((reg_val .& 0x7FFF) .>> 0) |>
                                         <| fd_fltr_best_effort := (reg_val .& 0x7FFF0000) .>> 16 |> |>).

Definition parse_func_cap (e : ice_aqc_list_caps_elem) (hw : hw_caps) : DM D hw_caps :=
  let hw := hw <| func_caps ::= fun f => f <| f_common ::= fun c => (ice_parse_common_caps e c).1 |> |> in
  if cap e =? 0x0017 then mret (ice_parse_vsi_func_caps hw)
  else if cap e =? 0x0046 then mret (ice_parse_1588_func_caps e hw)
  else if cap e =? 0x0045 then ice_parse_fdir_func_caps hw
  else mret hw.

(** The loop over [n] elements of the buffer from number [i] on. *)
Fixpoint parse_caps (parse : ice_aqc_list_caps_elem → hw_caps → DM D hw_caps) (n : nat) (i : Z) (buf : list Z) (hw : hw_caps)
    : DM D hw_caps :=
  match n with
  | O => mret hw
  | S n' => e ← d_option (cap_at buf i); hw ← parse e hw; parse_caps parse n' (i + 1) buf hw
  end.

Definition ice_parse_func_caps (buf : list Z) (cap_count : Z) (hw : hw_caps) : DM D hw_caps :=
  hw ← parse_caps parse_func_cap (Z.to_nat cap_count) 0 buf (hw <| func_caps := func_zero |>);
  mret (hw <| func_caps ::= fun f => f <| f_common ::= ice_recalc_port_limited_caps hw |> |>).

(** *** Device capabilities *)

Fixpoint count_bits (n : nat) (i bitmap : Z) : Z :=
  match n with O => 0 | S n' => (if nz (bitmap .& 1 .<< i) then 1 else 0) + count_bits n' (i + 1) bitmap end.

Definition ice_func_id_to_logical_id (active_function_bitmap pf_id : Z) : Z :=
  u8 (count_bits (Z.to_nat pf_id) 0 active_function_bitmap).

Definition ice_parse_valid_functions_cap (e : ice_aqc_list_caps_elem) (hw : hw_caps) : hw_caps :=
  hw <| dev_caps ::= fun d => d <| num_funcs := ice_hweight32 (number e) |> |>
     <| logical_pf_id := ice_func_id_to_logical_id (number e) (pf_id hw) |>.

Definition ice_parse_vsi_dev_caps (e : ice_aqc_list_caps_elem) (d : ice_hw_dev_caps) : ice_hw_dev_caps :=
  d <| num_vsi_allocd_to_host := number e |>.

Definition ice_parse_1588_dev_caps (e : ice_aqc_list_caps_elem) (d : ice_hw_dev_caps) : ice_hw_dev_caps :=
  let n := number e in
  d <| d_ts := mkTsDev (phys_id e) (n .& 7) ((n .& 0x70) .>> 4) (nz (n .& 8)) (nz (n .& 0x80)) (nz (n .& 1 .<< 24))
         (nz (n .& 1 .<< 25)) (nz (n .& 1 .<< 26)) (nz (n .& 1 .<< 28)) |>
    <| d_common ::= fun c => c <| ieee_1588 := nz (n .& 1 .<< 24) |> |>.

Definition ice_parse_fdir_dev_caps (e : ice_aqc_list_caps_elem) (d : ice_hw_dev_caps) : ice_hw_dev_caps :=
  d <| num_flow_director_fltr := number e |>.

Definition ice_parse_nac_topo_dev_caps (e : ice_aqc_list_caps_elem) (d : ice_hw_dev_caps) : ice_hw_dev_caps :=
  d <| nac_topo_mode := number e |> <| nac_topo_id := phys_id e .& 0xF |>.

Definition parse_dev_cap (e : ice_aqc_list_caps_elem) (hw : hw_caps) : DM D hw_caps :=
  let hw := hw <| dev_caps ::= fun d => d <| d_common ::= fun c => (ice_parse_common_caps e c).1 |> |> in
  mret (if cap e =? 0x0005 then ice_parse_valid_functions_cap e hw
        else if cap e =? 0x0017 then hw <| dev_caps ::= ice_parse_vsi_dev_caps e |>
        else if cap e =? 0x0046 then hw <| dev_caps ::= ice_parse_1588_dev_caps e |>
        else if cap e =? 0x0045 then hw <| dev_caps ::= ice_parse_fdir_dev_caps e |>
        else if cap e =? 0x0087 then hw <| dev_caps ::= ice_parse_nac_topo_dev_caps e |>
        else hw).

(** [dev_p] is [hw->dev_caps]. *)
Definition ice_parse_dev_caps (buf : list Z) (cap_count : Z) (hw : hw_caps) : DM D hw_caps :=
  hw ← parse_caps parse_dev_cap (Z.to_nat cap_count) 0 buf (hw <| dev_caps := dev_zero |>);
  mret (hw <| dev_caps ::= fun d => d <| d_common ::= ice_recalc_port_limited_caps hw |> |>).

(** ** The commands *)

(** The status, the number of capabilities and the buffer. *)
Definition ice_aq_list_caps (buf : list Z) (buf_size opc : Z) (cap_count : Z) : DM D (ice_status * Z * list Z) :=
  if negb (opc =? ice_aqc_opc_list_func_caps) && negb (opc =? ice_aqc_opc_list_dev_caps)
  then mret (ICE_ERR_PARAM, cap_count, buf)
  else
    '(status, desc, b) ← d_send (ice_fill_dflt_direct_cmd_desc opc) (Some buf) buf_size;
    mret (status, pget 4 4 desc, default buf b).

Definition discover (opc : Z) (parse : list Z → Z → hw_caps → DM D hw_caps) (hw : hw_caps) : DM D (ice_status * hw_caps) :=
  ok ← d_malloc;
  if negb ok then mret (ICE_ERR_NO_MEMORY, hw)
  else
    '(status, cap_count, buf) ← ice_aq_list_caps (replicate (Z.to_nat CAPS_BUF_LEN) 0) CAPS_BUF_LEN opc (CAPS_BUF_LEN / 32);
    if is_ok status then hw ← parse buf cap_count hw; mret (status, hw) else mret (status, hw).

Definition ice_discover_dev_caps (hw : hw_caps) : DM D (ice_status * hw_caps) :=
  discover ice_aqc_opc_list_dev_caps ice_parse_dev_caps hw.
Definition ice_discover_func_caps (hw : hw_caps) : DM D (ice_status * hw_caps) :=
  discover ice_aqc_opc_list_func_caps ice_parse_func_caps hw.

Definition ice_get_caps (hw : hw_caps) : DM D (ice_status * hw_caps) :=
  '(status, hw) ← ice_discover_dev_caps hw;
  if negb (is_ok status) then mret (status, hw) else ice_discover_func_caps hw.
End caps.

(** The values that survive in safe mode. *)
Definition safe_common (c : ice_hw_common_caps) (rxq txq msix : Z) : ice_hw_common_caps :=
  common_zero <| valid_functions := valid_functions c |> <| txq_first_id := txq_first_id c |> <| rxq_first_id := rxq_first_id c |>
    <| msix_vector_first_id := msix_vector_first_id c |> <| max_mtu := max_mtu c |> <| nvm_unified_update := nvm_unified_update c |>
    <| num_rxq := rxq |> <| num_txq := txq |> <| num_msix_vectors := msix |>.

Definition ice_set_safe_mode_caps (hw : hw_caps) : hw_caps :=
  let funcs := num_funcs (dev_caps hw) in
  hw <| func_caps := func_zero <| f_common := safe_common (f_common (func_caps hw)) 1 1 2 |> <| guar_num_vsi := 1 |> |>
     <| dev_caps := dev_zero <| d_common := safe_common (d_common (dev_caps hw)) funcs funcs (u32 (2 * funcs)) |>
                             <| num_funcs := funcs |> |>.

(** ** Resources *)

Definition ice_aqc_opc_alloc_res : Z := 0x0208.
Definition ice_aqc_opc_free_res : Z := 0x0209.

Section res.
Context {D : Type} `{AqDev D}.

(** [FLEX_ARRAY_SIZE(buf, elem, num_entries)] is the size of the elements. *)
Definition ice_aq_alloc_free_res (num_entries : Z) (buf : option (list Z)) (buf_size opc : Z)
    : DM D (ice_status * option (list Z)) :=
  match buf with
  | None => mret (ICE_ERR_PARAM, buf)
  | Some _ =>
      if buf_size <? 2 * num_entries then mret (ICE_ERR_PARAM, buf)
      else
        let desc := ice_fill_dflt_direct_cmd_desc opc in
        let desc := pset 2 0 num_entries (desc <| flags := flags desc .| ICE_AQ_FLAG_RD |>) in
        '(status, _, buf) ← d_send desc buf buf_size;
        mret (status, buf)
  end.

(** [ice_struct_size(buf, elem, num)] in a [u16]. *)
Definition res_buf_len (num : Z) : Z := u16 (4 + 2 * num).

(** The status and the resources; [None] for the array that is not written. *)
Definition ice_alloc_hw_res (type num : Z) (btm : bool) : DM D (ice_status * option (list Z)) :=
  let buf_len := res_buf_len num in
  ok ← (if buf_len =? 0 then mret false else d_malloc);
  if negb ok then mret (ICE_ERR_NO_MEMORY, None)
  else
    let buf := replicate (Z.to_nat buf_len) 0 in
    let res_type := type .| 0 .| 0x2000 in
    let res_type := if btm then res_type .| 0x1000 else res_type in
    buf ← d_option (b ← store 2 buf 2 num; store 2 b 0 res_type);
    '(status, buf) ← ice_aq_alloc_free_res 1 (Some buf) buf_len ice_aqc_opc_alloc_res;
    if negb (is_ok status) then mret (status, None)
    else
      res ← d_option (b ← buf; bytes_at (Z.to_nat (2 * num)) b 4);
      mret (status, Some res).

Definition ice_free_hw_res (type num : Z) (res : list Z) : DM D ice_status :=
  let buf_len := res_buf_len num in
  ok ← (if buf_len =? 0 then mret false else d_malloc);
  if negb ok then mret ICE_ERR_NO_MEMORY
  else
    let buf := replicate (Z.to_nat buf_len) 0 in
    buf ← d_option (b ← store 2 buf 2 num; b ← store 2 b 0 type; r ← bytes_at (Z.to_nat (2 * num)) res 0; put_bytes b 4 r);
    '(status, _) ← ice_aq_alloc_free_res num (Some buf) buf_len ice_aqc_opc_free_res;
    mret status.
End res.

(** ** The list and its buffer *)

Section bounds.
Context {D : Type} `{AqDev D}.

Lemma load_in k buf off : 0 <= off → off + Z.of_nat k <= Z.of_nat (length buf) → is_Some (load k buf off).
Proof.
  intros. unfold load, bytes_at. rewrite (proj2 (Z.leb_le _ _)), (proj2 (Z.leb_le _ _)) by lia. by eexists.
Qed.

Lemma cap_at_in buf i : 0 <= i → 32 * i + 32 <= Z.of_nat (length buf) → is_Some (cap_at buf i).
Proof.
  intros. unfold cap_at. destruct (load_in 2 buf (32 * i)) as [? ->]; [lia..|]. destruct (load_in 4 buf (32 * i + 4)) as [? ->]; [lia..|].
  destruct (load_in 4 buf (32 * i + 8)) as [? ->]; [lia..|]. destruct (load_in 4 buf (32 * i + 12)) as [? ->]; [lia..|]. by eexists.
Qed.

Lemma cap_at_out buf i : Z.of_nat (length buf) <= 32 * i → cap_at buf i = None.
Proof. intros. unfold cap_at, load, bytes_at. rewrite (proj2 (Z.leb_gt (32 * i + Z.of_nat 2) _)) by lia. by rewrite andb_false_r. Qed.

Lemma parse_caps_bounds (parse : _ → _ → DM D hw_caps) n i buf hw d : (∀ e hw d, dwp (parse e hw) d (fun _ _ => True)) →
  length buf = Z.to_nat CAPS_BUF_LEN → 0 <= i <= 128 →
  (i + Z.of_nat n <= 128 → dwp (parse_caps parse n i buf hw) d (fun _ _ => True)) ∧
  (128 < i + Z.of_nat n → parse_caps parse n i buf hw d = Undef).
Proof.
  intros Hp Hl. unfold CAPS_BUF_LEN in Hl. revert i hw d. induction n as [|n IH]; intros i hw d Hi; (split; intros Hn; [|try lia]).
  - by apply dwp_ret.
  - cbn [parse_caps]. destruct (cap_at_in buf i) as [e ->]; [lia..|]. cbn [d_option]. apply dwp_bind, dwp_ret, dwp_bind.
    eapply dwp_mono; [apply Hp|]. intros hw' d' _. apply IH; lia.
  - cbn [parse_caps]. destruct (decide (i = 128)) as [->|].
    + rewrite cap_at_out by lia. done.
    + destruct (cap_at_in buf i) as [e ->]; [lia..|]. cbn [d_option]. rewrite (dm_bind _ _ _ e d) by done.
      destruct (Hp e hw d) as (hw' & d' & E & _). rewrite (dm_bind _ _ _ _ _ E). apply IH; lia.
Qed.

Lemma dwp_parse_dev e hw (d : D) : dwp (parse_dev_cap e hw) d (fun _ _ => True).
Proof. by apply dwp_ret. Qed.

Lemma dwp_parse_func e hw (d : D) : dwp (parse_func_cap e hw) d (fun _ _ => True).
Proof.
  unfold parse_func_cap. repeat case_match; try by apply dwp_ret. unfold ice_parse_fdir_func_caps. case_match; [by apply dwp_ret|].
  apply dwp_bind. destruct (dev_rd32 GLQF_FD_SIZE d) as [v d'] eqn:E. exists v, d'. split; [by unfold d_rd32; rewrite E|]. by apply dwp_ret.
Qed.

(** The number of capabilities comes from the device and is not checked against the
    buffer of 4096 bytes: parsing the device's and the function's capabilities returns for
    at most 128 of them, and reads beyond the buffer for any larger number. *)
Theorem parse_caps_overrun buf count hw (d : D) : length buf = Z.to_nat CAPS_BUF_LEN → 0 <= count →
  (count <= 128 → dwp (ice_parse_dev_caps buf count hw) d (fun _ _ => True) ∧ dwp (ice_parse_func_caps buf count hw) d (fun _ _ => True)) ∧
  (128 < count → ice_parse_dev_caps buf count hw d = Undef ∧ ice_parse_func_caps buf count hw d = Undef).
Proof.
  intros Hl Hc.
  destruct (parse_caps_bounds parse_dev_cap (Z.to_nat count) 0 buf (hw <| dev_caps := dev_zero |>) d dwp_parse_dev Hl) as [D1 D2]; [lia|].
  destruct (parse_caps_bounds parse_func_cap (Z.to_nat count) 0 buf (hw <| func_caps := func_zero |>) d dwp_parse_func Hl) as [F1 F2]; [lia|].
  split; intros Hn; split.
  - apply dwp_bind. eapply dwp_mono; [apply D1; lia|]. intros. by apply dwp_ret.
  - apply dwp_bind. eapply dwp_mono; [apply F1; lia|]. intros. by apply dwp_ret.
  - unfold ice_parse_dev_caps, mbind, DM_bind. by rewrite D2 by lia.
  - unfold ice_parse_func_caps, mbind, DM_bind. by rewrite F2 by lia.
Qed.
End bounds.

(** A device that announces one capability too many. *)
Module Overrun.
#[export] Instance dev : AqDev unit := {
  dev_send _ _ _ _ := Undef; dev_last_status _ := 0; dev_timeout _ := 0; dev_rd32 _ d := (0, d); dev_wr32 _ _ d := d;
  dev_malloc d := (true, d); dev_uninit n _ := replicate n 0
}.
End Overrun.

Lemma parse_caps_overrun_witness :
  let buf := replicate (Z.to_nat CAPS_BUF_LEN) 0 in let hw := mkHwCaps dev_zero func_zero 0 0 false in
  ice_parse_dev_caps (D := unit) buf 129 hw tt = Undef.
Proof.
  intros buf hw. exact (proj1 (proj2 (parse_caps_overrun (H := Overrun.dev) buf 129 hw tt (length_replicate _ _) ltac:(lia)) ltac:(lia))).
Defined.
