(* ===== verification/E810Base.v ===== *)
(** * Outcomes of the device model

    The result of a function of the E810 device model: a value, a call of
    [abort()] or a failed [assert], or undefined behaviour (an access outside a
    buffer, a division by zero). *)
From S2P Require Import Prelude.
Local Open Scope Z_scope.

(** Sizes of the device: [e810_bm::NUM_QUEUES], [e810_bm::NUM_PFINTS]. *)
Definition NUM_QUEUES : Z := 1536.
Definition NUM_PFINTS : Z := 2048.

Inductive result (A : Type) :=
| Ok (a : A)
| Abort
| Undef.
Arguments Ok {A} _.
Arguments Abort {A}.
Arguments Undef {A}.

#[export] Instance result_ret : MRet result := fun A a => Ok a.
#[export] Instance result_bind : MBind result := fun A B f m =>
  match m with Ok a => f a | Abort => Abort | Undef => Undef end.

Definition of_opt {A} (o : option A) : result A :=
  match o with Some a => Ok a | None => Undef end.

Definition assert_ (b : bool) : result unit := if b then Ok tt else Abort.

(** The code does nothing undefined, and what it returns satisfies [P]; it may stop in [abort]. *)
Definition safe {A} (P : A → Prop) (r : result A) : Prop :=
  match r with Ok a => P a | Abort => True | Undef => False end.

Lemma safe_bind {A B} (P : A → Prop) (Q : B → Prop) (m : result A) (f : A → result B) :
  safe P m → (∀ a, P a → safe Q (f a)) → safe Q (m ≫= f).
Proof. destruct m; cbn; auto. Qed.

Lemma safe_mono {A} (P Q : A → Prop) (m : result A) : safe P m → (∀ a, P a → Q a) → safe Q m.
Proof. destruct m; cbn; auto. Qed.

(** [for (i = lo; i < lo + n; i++)] *)
Fixpoint for_res {S} (n : nat) (i : Z) (body : Z → S → result S) (s : S) : result S :=
  match n with
  | O => Ok s
  | S n' => s ← body i s; for_res n' (i + 1) body s
  end.

Lemma for_res_safe {S} (P : S → Prop) n i body s : P s → (∀ j s, P s → safe P (body j s)) → safe P (for_res n i body s).
Proof.
  revert i s. induction n as [|n IH]; intros i s HP Hb; cbn [for_res]; [done|].
  eapply safe_bind; [by apply Hb|]. intros s' Hs'. by apply IH.
Qed.

Lemma for_res_total {S} (P : Z → S → Prop) n i body s : P i s →
  (∀ j s, i <= j < i + Z.of_nat n → P j s → ∃ s', body j s = Ok s' ∧ P (j + 1) s') →
  ∃ s', for_res n i body s = Ok s' ∧ P (i + Z.of_nat n) s'.
Proof.
  revert i s. induction n as [|n IH]; intros i s HP Hb; cbn [for_res].
  { exists s. cbn. by rewrite Z.add_0_r. }
  destruct (Hb i s) as (s1 & -> & HP1); [lia|done|]. cbn [mbind result_bind].
  destruct (IH (i + 1) s1 HP1) as (s2 & -> & HP2); [intros j s' Hj; apply Hb; lia|].
  exists s2. split; [done|]. by replace (i + Z.of_nat (Datatypes.S n)) with (i + 1 + Z.of_nat n) by lia.
Qed.
