(* ===== verification/IceCtx.v ===== *)
(** * Queue contexts

    The packing of queue contexts in ice_common.c: [ice_set_ctx] and
    [ice_get_ctx] move the fields of a C struct to and from bit positions of a
    dense buffer, as a table says; the functions for receive, completion and
    doorbell queues write that buffer to registers.  A struct is the list of its
    bytes, with the offsets that the compiler gives its fields.  [None] is an
    access outside a buffer. *)
From stdpp Require Import strings.
From S2P Require Import Prelude Bytes IceStatus E810Base.
Local Open Scope Z_scope.

(** ** Structs *)

(** Field name, offset and size. *)
Definition cstruct := list (string * (Z * Z)).

(** The layout of fields with natural alignment, and of a packed struct. *)
Fixpoint layout (packed : bool) (o : Z) (fields : list (string * Z)) : cstruct :=
  match fields with
  | [] => []
  | (f, n) :: fields =>
      let o := if packed then o else (o + n - 1) / n * n in
      (f, (o, n)) :: layout packed (o + n) fields
  end.

(** The size, without the padding at the end. *)
Definition size_of_struct (s : cstruct) : Z := foldr (fun f m => Z.max (f.2.1 + f.2.2) m) 0 s.

Definition ice_rlan_ctx : cstruct := layout false 0
  [("head", 2); ("cpuid", 2); ("base", 8); ("qlen", 2); ("dbuf", 2); ("hbuf", 2); ("dtype", 1);
   ("dsize", 1); ("crcstrip", 1); ("l2tsel", 1); ("hsplit_0", 1); ("hsplit_1", 1); ("showiv", 1);
   ("rxmax", 4); ("tphrdesc_ena", 1); ("tphwdesc_ena", 1); ("tphdata_ena", 1); ("tphhead_ena", 1);
   ("lrxqthresh", 2); ("prefena", 1)].

Definition ice_tlan_ctx : cstruct := layout false 0
  [("base", 8); ("port_num", 1); ("cgd_num", 2); ("pf_num", 1); ("vmvf_num", 2); ("vmvf_type", 1);
   ("src_vsi", 2); ("tsyn_ena", 1); ("internal_usage_flag", 1); ("alt_vlan", 1); ("cpuid", 2);
   ("wb_mode", 1); ("tphrd_desc", 1); ("tphrd", 1); ("tphwr_desc", 1); ("cmpq_id", 2);
   ("qnum_in_func", 2); ("itr_notification_mode", 1); ("adjust_prof_id", 1); ("qlen", 4);
   ("quanta_prof_idx", 1); ("tso_ena", 1); ("tso_qnum", 2); ("legacy_int", 1); ("drop_ena", 1);
   ("cache_prof_idx", 1); ("pkt_shaper_prof_idx", 1); ("gsc_ena", 1); ("int_q_state", 1)].

Definition ice_tx_cmpltnq_ctx : cstruct := layout true 0
  [("base", 8); ("q_len", 4); ("generation", 1); ("wrt_ptr", 4); ("pf_num", 1); ("vmvf_num", 2);
   ("vmvf_type", 1); ("tph_desc_wr", 1); ("cpuid", 1); ("cmpltn_cache", 64)].

Definition ice_tx_drbell_q_ctx : cstruct := layout true 0
  [("base", 8); ("ring_len", 2); ("pf_num", 1); ("vf_num", 2); ("vmvf_type", 1); ("cpuid", 1);
   ("tph_desc_rd", 1); ("tph_desc_wr", 1); ("db_q_en", 1); ("rd_head", 2); ("rd_tail", 2)].

(** ** Tables *)

Record ice_ctx_ele := mkEle { offset : Z; size_of : Z; width : Z; lsb : Z }.

#[export] Instance ele_eq_dec : EqDecision ice_ctx_ele.
Proof. solve_decision. Defined.

Definition ele_end : ice_ctx_ele := mkEle 0 0 0 0.

Definition field_of (s : cstruct) (f : string) : Z * Z :=
  match List.find (fun x => bool_decide (x.1 = f)) s with Some x => x.2 | None => (0, 0) end.

Definition ICE_CTX_STORE (s : cstruct) (f : string) (width lsb : Z) : ice_ctx_ele :=
  mkEle (field_of s f).1 (field_of s f).2 width lsb.

Definition ice_rlan_ctx_info : list ice_ctx_ele := Eval vm_compute in
  let st := ICE_CTX_STORE ice_rlan_ctx in
  [st "head" 13 0; st "cpuid" 8 13; st "base" 57 32; st "qlen" 13 89; st "dbuf" 7 102;
   st "hbuf" 5 109; st "dtype" 2 114; st "dsize" 1 116; st "crcstrip" 1 117; st "l2tsel" 1 119;
   st "hsplit_0" 4 120; st "hsplit_1" 2 124; st "showiv" 1 127; st "rxmax" 14 174;
   st "tphrdesc_ena" 1 193; st "tphwdesc_ena" 1 194; st "tphdata_ena" 1 195;
   st "tphhead_ena" 1 196; st "lrxqthresh" 3 198; st "prefena" 1 201; ele_end].

Definition ice_tlan_ctx_info : list ice_ctx_ele := Eval vm_compute in
  let st := ICE_CTX_STORE ice_tlan_ctx in
  [st "base" 57 0; st "port_num" 3 57; st "cgd_num" 5 60; st "pf_num" 3 65; st "vmvf_num" 10 68;
   st "vmvf_type" 2 78; st "src_vsi" 10 80; st "tsyn_ena" 1 90; st "internal_usage_flag" 1 91;
   st "alt_vlan" 1 92; st "cpuid" 8 93; st "wb_mode" 1 101; st "tphrd_desc" 1 102;
   st "tphrd" 1 103; st "tphwr_desc" 1 104; st "cmpq_id" 9 105; st "qnum_in_func" 14 114;
   st "itr_notification_mode" 1 128; st "adjust_prof_id" 6 129; st "qlen" 13 135;
   st "quanta_prof_idx" 4 148; st "tso_ena" 1 152; st "tso_qnum" 11 153; st "legacy_int" 1 164;
   st "drop_ena" 1 165; st "cache_prof_idx" 2 166; st "pkt_shaper_prof_idx" 3 168;
   st "int_q_state" 122 171; st "gsc_ena" 1 172; ele_end].

Definition ice_tx_cmpltnq_ctx_info : list ice_ctx_ele := Eval vm_compute in
  let st := ICE_CTX_STORE ice_tx_cmpltnq_ctx in
  [st "base" 57 0; st "q_len" 18 64; st "generation" 1 96; st "wrt_ptr" 22 97; st "pf_num" 3 128;
   st "vmvf_num" 10 131; st "vmvf_type" 2 141; st "tph_desc_wr" 1 160; st "cpuid" 8 161;
   st "cmpltn_cache" 512 192; ele_end].

Definition ice_tx_drbell_q_ctx_info : list ice_ctx_ele := Eval vm_compute in
  let st := ICE_CTX_STORE ice_tx_drbell_q_ctx in
  [st "base" 57 0; st "ring_len" 13 64; st "pf_num" 3 80; st "vf_num" 8 84; st "vmvf_type" 2 94;
   st "cpuid" 8 96; st "tph_desc_rd" 1 104; st "tph_desc_wr" 1 108; st "db_q_en" 1 112;
   st "rd_head" 13 128; st "rd_tail" 13 144; ele_end].

(** ** Moving one field *)

(** [BIT(w)] and [BIT_ULL(w)]: a shift by the width of the type is undefined. *)
Definition BIT (w : Z) : option Z := if (0 <=? w) && (w <? 64) then Some (1 .<< w) else None.

(** The mask of a field in a word of [n] bytes; bytes and words have no case for a
    full width. *)
Definition mask_small (n : nat) (w : Z) : option Z := (fun b => wrap (8 * Z.of_nat n) (b - 1)) <$> BIT w.
Definition mask_large (n : nat) (w : Z) : option Z :=
  if w <? 8 * Z.of_nat n then mask_small n w else Some (Z.ones (8 * Z.of_nat n)).

Definition write_field (n : nat) (mask : option Z) (src dest : list Z) (e : ice_ctx_ele) : option (list Z) :=
  let bits := 8 * Z.of_nat n in
  let shift_width := lsb e mod 8 in
  mask ← mask;
  src_word ← load n src (offset e);
  let src_word := src_word .& mask in
  let mask := wrap bits (mask .<< shift_width) in
  let src_word := wrap bits (src_word .<< shift_width) in
  dest_word ← load n dest (lsb e / 8);
  let dest_word := dest_word .& cnot bits mask in
  let dest_word := dest_word .| src_word in
  store n dest (lsb e / 8) dest_word.

Definition ice_write_byte src dest e := write_field 1 (mask_small 1 (width e)) src dest e.
Definition ice_write_word src dest e := write_field 2 (mask_small 2 (width e)) src dest e.
Definition ice_write_dword src dest e := write_field 4 (mask_large 4 (width e)) src dest e.
Definition ice_write_qword src dest e := write_field 8 (mask_large 8 (width e)) src dest e.

(** The mask is applied complemented. *)
Definition read_field (n : nat) (mask : option Z) (src dest : list Z) (e : ice_ctx_ele) : option (list Z) :=
  let bits := 8 * Z.of_nat n in
  let shift_width := lsb e mod 8 in
  mask ← mask;
  let mask := wrap bits (mask .<< shift_width) in
  src_word ← load n src (lsb e / 8);
  let dest_word := src_word .& cnot bits mask in
  let dest_word := dest_word .>> shift_width in
  store n dest (offset e) dest_word.

Definition ice_read_byte src dest e := read_field 1 (mask_small 1 (width e)) src dest e.
Definition ice_read_word src dest e := read_field 2 (mask_small 2 (width e)) src dest e.
Definition ice_read_dword src dest e := read_field 4 (mask_large 4 (width e)) src dest e.
Definition ice_read_qword src dest e := read_field 8 (mask_large 8 (width e)) src dest e.

(** ** Moving all fields *)

Fixpoint ice_set_ctx (src dest : list Z) (ce_info : list ice_ctx_ele) : option (ice_status * list Z) :=
  match ce_info with
  | [] => None
  | e :: ce_info =>
      if width e =? 0 then Some (ICE_SUCCESS, dest)
      else if size_of e * 8 <? width e then ice_set_ctx src dest ce_info
      else if size_of e =? 1 then dest ← ice_write_byte src dest e; ice_set_ctx src dest ce_info
      else if size_of e =? 2 then dest ← ice_write_word src dest e; ice_set_ctx src dest ce_info
      else if size_of e =? 4 then dest ← ice_write_dword src dest e; ice_set_ctx src dest ce_info
      else if size_of e =? 8 then dest ← ice_write_qword src dest e; ice_set_ctx src dest ce_info
      else Some (ICE_ERR_INVAL_SIZE, dest)
  end.

Fixpoint ice_get_ctx (src dest : list Z) (ce_info : list ice_ctx_ele) : option (ice_status * list Z) :=
  match ce_info with
  | [] => None
  | e :: ce_info =>
      if width e =? 0 then Some (ICE_SUCCESS, dest)
      else if size_of e =? 1 then dest ← ice_read_byte src dest e; ice_get_ctx src dest ce_info
      else if size_of e =? 2 then dest ← ice_read_word src dest e; ice_get_ctx src dest ce_info
      else if size_of e =? 4 then dest ← ice_read_dword src dest e; ice_get_ctx src dest ce_info
      else if size_of e =? 8 then dest ← ice_read_qword src dest e; ice_get_ctx src dest ce_info
      else ice_get_ctx src dest ce_info
  end.

(** ** Registers *)

Definition QRX_CONTEXT (i qrx : Z) : Z := 0x00280000 + (i * 8192 + qrx * 4).
Definition QRX_CTRL_MAX_INDEX : Z := 2047.
Definition ICE_RXQ_CTX_SIZE_DWORDS : Z := 8.
Definition ICE_RXQ_CTX_SZ : Z := ICE_RXQ_CTX_SIZE_DWORDS * 4.
Definition ICE_TX_CMPLTNQ_CTX_SIZE_DWORDS : Z := 22.
Definition ICE_TX_DRBELL_Q_CTX_SIZE_DWORDS : Z := 5.
Definition GLTCLAN_CQ_CNTX (i cq : Z) : Z := (0x000F0800 + cq * 4) + i * 0x0800.
Definition GLTCLAN_CQ_CNTX0_MAX_INDEX : Z := 511.
Definition QTX_COMM_DBLQ_CNTX (i dblq : Z) : Z := 0x002D0000 + (i * 1024 + dblq * 4).
Definition QTX_COMM_DBLQ_DBELL_MAX_INDEX : Z := 255.

(** The device behind [rd32] and [wr32]. *)
Class RegSpace (HW : Type) := {
  rd32 : Z → HW → result Z;
  wr32 : Z → Z → HW → result HW
}.

Section regs.
Context {HW : Type} `{RegSpace HW}.

(** The loops of the functions below, for a context of [n] dwords. *)
Definition ctx_to_hw (n max : Z) (reg : Z → Z → Z) (ctx : option (list Z)) (index : Z) (hw : HW)
    : result (ice_status * HW) :=
  match ctx with
  | None => Ok (ICE_ERR_BAD_PTR, hw)
  | Some ctx =>
      if max <? index then Ok (ICE_ERR_PARAM, hw)
      else
        hw ← for_res (Z.to_nat n) 0 (fun i hw =>
               v ← of_opt (load 4 ctx (i * 4)); wr32 (reg i index) v hw) hw;
        Ok (ICE_SUCCESS, hw)
  end.

Definition clear_ctx (n max : Z) (reg : Z → Z → Z) (index : Z) (hw : HW) : result (ice_status * HW) :=
  if max <? index then Ok (ICE_ERR_PARAM, hw)
  else
    hw ← for_res (Z.to_nat n) 0 (fun i hw => wr32 (reg i index) 0 hw) hw;
    Ok (ICE_SUCCESS, hw).

Definition ice_copy_rxq_ctx_to_hw := ctx_to_hw ICE_RXQ_CTX_SIZE_DWORDS QRX_CTRL_MAX_INDEX QRX_CONTEXT.

Definition ice_copy_rxq_ctx_from_hw (ctx : option (list Z)) (rxq_index : Z) (hw : HW)
    : result (ice_status * option (list Z)) :=
  match ctx with
  | None => Ok (ICE_ERR_BAD_PTR, None)
  | Some ctx =>
      if QRX_CTRL_MAX_INDEX <? rxq_index then Ok (ICE_ERR_PARAM, Some ctx)
      else
        ctx ← for_res (Z.to_nat ICE_RXQ_CTX_SIZE_DWORDS) 0 (fun i ctx =>
                v ← rd32 (QRX_CONTEXT i rxq_index) hw; of_opt (store 4 ctx (i * 4) v)) ctx;
        Ok (ICE_SUCCESS, Some ctx)
  end.

(** The caller's struct is changed as well. *)
Definition ice_write_rxq_ctx (rlan_ctx : option (list Z)) (rxq_index : Z) (hw : HW)
    : result (ice_status * option (list Z) * HW) :=
  match rlan_ctx with
  | None => Ok (ICE_ERR_BAD_PTR, None, hw)
  | Some rlan_ctx =>
      rlan_ctx ← of_opt (store 1 rlan_ctx (field_of ice_rlan_ctx "prefena").1 1);
      '(_, ctx_buf) ← of_opt (ice_set_ctx rlan_ctx (replicate (Z.to_nat ICE_RXQ_CTX_SZ) 0) ice_rlan_ctx_info);
      '(status, hw) ← ice_copy_rxq_ctx_to_hw (Some ctx_buf) rxq_index hw;
      Ok (status, Some rlan_ctx, hw)
  end.

Definition ice_read_rxq_ctx (rlan_ctx : option (list Z)) (rxq_index : Z) (hw : HW)
    : result (ice_status * option (list Z)) :=
  match rlan_ctx with
  | None => Ok (ICE_ERR_BAD_PTR, None)
  | Some rlan_ctx =>
      '(status, ctx_buf) ← ice_copy_rxq_ctx_from_hw (Some (replicate (Z.to_nat ICE_RXQ_CTX_SZ) 0)) rxq_index hw;
      if negb (bool_decide (status = ICE_SUCCESS)) then Ok (status, Some rlan_ctx)
      else
        ctx_buf ← of_opt ctx_buf;
        '(status, rlan_ctx) ← of_opt (ice_get_ctx ctx_buf rlan_ctx ice_rlan_ctx_info);
        Ok (status, Some rlan_ctx)
  end.

Definition ice_clear_rxq_ctx := clear_ctx ICE_RXQ_CTX_SIZE_DWORDS QRX_CTRL_MAX_INDEX QRX_CONTEXT.

Definition ice_copy_tx_cmpltnq_ctx_to_hw :=
  ctx_to_hw ICE_TX_CMPLTNQ_CTX_SIZE_DWORDS GLTCLAN_CQ_CNTX0_MAX_INDEX GLTCLAN_CQ_CNTX.

Definition ice_write_tx_cmpltnq_ctx (tx_cmpltnq_ctx : list Z) (tx_cmpltnq_index : Z) (hw : HW)
    : result (ice_status * HW) :=
  '(_, ctx_buf) ← of_opt (ice_set_ctx tx_cmpltnq_ctx
      (replicate (Z.to_nat (ICE_TX_CMPLTNQ_CTX_SIZE_DWORDS * 4)) 0) ice_tx_cmpltnq_ctx_info);
  ice_copy_tx_cmpltnq_ctx_to_hw (Some ctx_buf) tx_cmpltnq_index hw.

Definition ice_clear_tx_cmpltnq_ctx :=
  clear_ctx ICE_TX_CMPLTNQ_CTX_SIZE_DWORDS GLTCLAN_CQ_CNTX0_MAX_INDEX GLTCLAN_CQ_CNTX.

Definition ice_copy_tx_drbell_q_ctx_to_hw :=
  ctx_to_hw ICE_TX_DRBELL_Q_CTX_SIZE_DWORDS QTX_COMM_DBLQ_DBELL_MAX_INDEX QTX_COMM_DBLQ_CNTX.

Definition ice_write_tx_drbell_q_ctx (tx_drbell_q_ctx : list Z) (tx_drbell_q_index : Z) (hw : HW)
    : result (ice_status * HW) :=
  '(_, ctx_buf) ← of_opt (ice_set_ctx tx_drbell_q_ctx
      (replicate (Z.to_nat (ICE_TX_DRBELL_Q_CTX_SIZE_DWORDS * 4)) 0) ice_tx_drbell_q_ctx_info);
  ice_copy_tx_drbell_q_ctx_to_hw (Some ctx_buf) tx_drbell_q_index hw.

Definition ice_clear_tx_drbell_q_ctx :=
  clear_ctx ICE_TX_DRBELL_Q_CTX_SIZE_DWORDS QTX_COMM_DBLQ_DBELL_MAX_INDEX QTX_COMM_DBLQ_CNTX.
End regs.
