(* ===== verification/IceCtxSpec.v ===== *)
(** * Queue contexts: what is packed

    The bits of a packed context, for every table of fields that do not overlap,
    and what the functions that read a context back return. *)
From stdpp Require Import strings.
From S2P Require Import Prelude Bytes IceStatus E810Base IceCtx.
Local Open Scope Z_scope.

(** ** Bits of a buffer *)

Lemma le_bit bs q b : bytes_ok bs → 0 <= q → bs !! Z.to_nat (q / 8) = Some b →
  Z.testbit (le bs) q = Z.testbit b (q mod 8).
Proof.
  intros Hok Hq Hb. pose proof (lookup_lt_Some _ _ _ Hb) as Hl.
  pose proof (Z.div_mod q 8 ltac:(lia)). pose proof (Z.mod_pos_bound q 8 ltac:(lia)).
  pose proof (Z.div_pos q 8 Hq ltac:(lia)).
  pose proof (le_take_drop 1 (Z.to_nat (q / 8)) bs Hok ltac:(lia)) as Hs.
  rewrite (drop_S _ _ _ Hb) in Hs. cbn [take le] in Hs. rewrite firstn_O in Hs. cbn [le] in Hs.
  rewrite Z.mul_0_r, Z.add_0_r in Hs. rewrite Hs, slice_bit by lia.
  rewrite (proj2 (Z.ltb_lt _ _)) by lia. cbn [andb]. f_equal. lia.
Qed.

Lemma le_bit_out bs q : bytes_ok bs → 8 * Z.of_nat (length bs) <= q → Z.testbit (le bs) q = false.
Proof. intros Hok Hq. apply (testbit_above _ _ _ (le_nonneg_bound bs Hok)). lia. Qed.

Lemma lookup_le_bytes n v j : (j < n)%nat → le_bytes n v !! j = Some (u8 (v .>> (8 * Z.of_nat j))).
Proof.
  revert v j. induction n as [|n IH]; intros v j Hj; [lia|]. destruct j as [|j]; cbn [le_bytes lookup list_lookup].
  { by rewrite Z.shiftr_0_r. }
  rewrite IH by lia. rewrite Z.shiftr_shiftr by lia. do 3 f_equal. lia.
Qed.

(** A word stored in a buffer changes the bits of that word. *)
Lemma put_bit buf o n v q : bytes_ok buf → 0 <= q → (o + n <= length buf)%nat →
  Z.testbit (le (put buf o (le_bytes n v))) q =
  if (8 * Z.of_nat o <=? q) && (q <? 8 * Z.of_nat (o + n))
  then Z.testbit v (q - 8 * Z.of_nat o) else Z.testbit (le buf) q.
Proof.
  intros Hok Hq Hl. assert (length (put buf o (le_bytes n v)) = length buf) as Hlen
    by (apply length_put; rewrite length_le_bytes; lia).
  assert (bytes_ok (put buf o (le_bytes n v))) as Hok' by (apply put_ok; [done|apply le_bytes_ok]).
  pose proof (Z.div_mod q 8 ltac:(lia)) as Hdm. pose proof (Z.mod_pos_bound q 8 ltac:(lia)).
  destruct (Z.lt_ge_cases q (8 * Z.of_nat (length buf))) as [Hin|Hout].
  2: { rewrite !le_bit_out by (done || lia). by rewrite (proj2 (Z.ltb_ge _ _)), andb_false_r by lia. }
  destruct (lookup_lt_is_Some_2 (put buf o (le_bytes n v)) (Z.to_nat (q / 8))) as [b Hb]; [lia|].
  rewrite (le_bit _ _ b) by done. rewrite lookup_put in Hb by (rewrite length_le_bytes; lia).
  rewrite length_le_bytes in Hb. case_bool_decide as Hc.
  - rewrite lookup_le_bytes in Hb by lia. injection Hb as <-.
    rewrite (proj2 (Z.leb_le _ _)), (proj2 (Z.ltb_lt _ _)) by lia. cbn [andb].
    rewrite testbit_wrap, Z.shiftr_spec by lia. rewrite (proj2 (Z.ltb_lt (q mod 8) 8)) by lia. cbn [andb]. f_equal. lia.
  - rewrite <- (le_bit buf q b) by done. destruct (Z.leb_spec (8 * Z.of_nat o) q), (Z.ltb_spec q (8 * Z.of_nat (o + n))); done || lia.
Qed.

(** ** One field *)

(** The bits of a field that fit in its word. *)
Definition ewidth (e : ice_ctx_ele) : Z := Z.min (width e) (8 * size_of e - lsb e mod 8).

(** The value of a field of the struct. *)
Definition fieldv (src : list Z) (e : ice_ctx_ele) : Z := le (take (Z.to_nat (size_of e)) (drop (Z.to_nat (offset e)) src)).

(** A field that is moved: its word lies in both buffers. *)
Definition ele_ok (slen dlen : Z) (e : ice_ctx_ele) : bool :=
  (1 <=? width e) && (width e <=? 8 * size_of e) &&
  ((size_of e =? 1) || (size_of e =? 2) || (size_of e =? 4) || (size_of e =? 8)) &&
  (0 <=? offset e) && (offset e + size_of e <=? slen) && (0 <=? lsb e) && (lsb e / 8 + size_of e <=? dlen).

Lemma ele_ok_spec slen dlen e : ele_ok slen dlen e = true →
  1 <= width e <= 8 * size_of e ∧ (size_of e = 1 ∨ size_of e = 2 ∨ size_of e = 4 ∨ size_of e = 8) ∧
  0 <= offset e ∧ offset e + size_of e <= slen ∧ 0 <= lsb e ∧ lsb e / 8 + size_of e <= dlen.
Proof.
  unfold ele_ok. rewrite !andb_true_iff, !orb_true_iff, !Z.leb_le, !Z.eqb_eq. intros H. naive_solver lia.
Qed.

Definition covers (e : ice_ctx_ele) (i : Z) : Prop := lsb e <= i < lsb e + ewidth e.

#[export] Instance covers_dec e i : Decision (covers e i).
Proof. unfold covers. apply _. Defined.

Lemma mask_ones n w : 0 <= w → w <= 8 * Z.of_nat n → (n <= 8)%nat → w < 64 → mask_small n w = Some (Z.ones w).
Proof.
  intros H0 Hw Hn H64. unfold mask_small, BIT. rewrite (proj2 (Z.leb_le 0 w)), (proj2 (Z.ltb_lt w 64)) by lia.
  cbn. rewrite Z.ones_equiv, Z.shiftl_1_l, <- Z.sub_1_r. f_equal. apply wrap_small.
  assert (2 ^ w <= 2 ^ (8 * Z.of_nat n)) by (apply Z.pow_le_mono_r; lia).
  pose proof (Z.pow_pos_nonneg 2 w). unfold in_width. lia.
Qed.

Lemma mask_ones_large n w : 0 <= w → w <= 8 * Z.of_nat n → (n <= 8)%nat → mask_large n w = Some (Z.ones w).
Proof.
  intros H0 Hw Hn. unfold mask_large. destruct (Z.ltb_spec w (8 * Z.of_nat n)); [apply mask_ones; lia|].
  do 2 f_equal. lia.
Qed.

(** A field written into a word keeps the other bits of the word. *)
Lemma word_bit bits w s x d q : 0 <= s → 0 <= w → 0 <= q < bits →
  Z.testbit ((d .& cnot bits (wrap bits (Z.ones w .<< s))) .| wrap bits ((x .& Z.ones w) .<< s)) q =
  if (s <=? q) && (q <? s + w) then Z.testbit x (q - s) else Z.testbit d q.
Proof.
  intros Hs Hw Hq. rewrite Z.lor_spec, Z.land_spec. unfold cnot. rewrite !testbit_wrap by lia.
  rewrite Z.lnot_spec, testbit_wrap by lia. rewrite !(proj2 (Z.ltb_lt q bits)) by lia. cbn [andb].
  destruct (Z.leb_spec s q) as [H1|H1].
  - rewrite !Z.shiftl_spec, Z.land_spec, Z.testbit_ones by lia. rewrite (proj2 (Z.leb_le 0 _)) by lia. cbn [andb].
    destruct (Z.ltb_spec (q - s) w), (Z.ltb_spec q (s + w)); try lia; cbn [andb negb];
      by rewrite ?andb_true_r, ?andb_false_r, ?orb_false_r.
  - rewrite !Z.shiftl_spec_low by lia. cbn. by rewrite andb_true_r, orb_false_r.
Qed.

Section one.
Context (src dest : list Z) (e : ice_ctx_ele) (n : nat).
Context (Hdest : bytes_ok dest) (Hn : size_of e = Z.of_nat n).
Context (He : ele_ok (Z.of_nat (length src)) (Z.of_nat (length dest)) e = true).

Lemma write_field_spec : ∃ dest', write_field n (Some (Z.ones (width e))) src dest e = Some dest' ∧
  bytes_ok dest' ∧ length dest' = length dest ∧
  ∀ q, 0 <= q → Z.testbit (le dest') q =
    if decide (covers e q) then Z.testbit (fieldv src e) (q - lsb e) else Z.testbit (le dest) q.
Proof.
  destruct (ele_ok_spec _ _ _ He) as (Hw & _ & Ho & Hol & Hb & Hbl).
  pose proof (Z.div_pos (lsb e) 8 Hb ltac:(lia)). pose proof (Z.mod_pos_bound (lsb e) 8 ltac:(lia)).
  pose proof (Z.div_mod (lsb e) 8 ltac:(lia)). rewrite Hn in *.
  unfold write_field. cbn [mbind option_bind].
  rewrite !load_take by lia. cbn [mbind option_bind]. rewrite store_in by lia. eexists. split; [done|].
  split; [apply put_ok; [done|apply le_bytes_ok]|]. split; [apply length_put; rewrite length_le_bytes; lia|].
  intros q Hq. rewrite put_bit by (done || lia).
  destruct (Z.leb_spec (8 * Z.of_nat (Z.to_nat (lsb e / 8))) q), (Z.ltb_spec q (8 * Z.of_nat (Z.to_nat (lsb e / 8) + n)));
    cbn [andb]; [|by rewrite decide_False by (unfold covers, ewidth; lia)..].
  rewrite word_bit by lia. unfold fieldv. rewrite Hn, Nat2Z.id.
  destruct (Z.leb_spec (lsb e mod 8) (q - 8 * Z.of_nat (Z.to_nat (lsb e / 8)))),
    (Z.ltb_spec (q - 8 * Z.of_nat (Z.to_nat (lsb e / 8))) (lsb e mod 8 + width e)); cbn [andb].
  1: { rewrite decide_True by (unfold covers, ewidth; lia). f_equal. lia. }
  all: rewrite decide_False by (unfold covers, ewidth; lia);
    rewrite le_take_drop, slice_bit by (done || lia); rewrite (proj2 (Z.ltb_lt _ _)) by lia; cbn [andb]; f_equal; lia.
Qed.
End one.

(** ** All fields *)

(** The fields that [ice_set_ctx] writes: up to the end of the table, without those
    that are wider than their type. *)
Fixpoint written (info : list ice_ctx_ele) : list ice_ctx_ele :=
  match info with
  | [] => []
  | e :: info => if width e =? 0 then [] else if size_of e * 8 <? width e then written info else e :: written info
  end.

Definition disjoint_from (e e' : ice_ctx_ele) : bool :=
  (lsb e + ewidth e <=? lsb e') || (lsb e' + ewidth e' <=? lsb e).

Fixpoint table_ok (slen dlen : Z) (info : list ice_ctx_ele) : bool :=
  match info with
  | [] => false
  | e :: info =>
      (width e =? 0) ||
      ((size_of e * 8 <? width e) || (ele_ok slen dlen e && forallb (disjoint_from e) (written info))) &&
      table_ok slen dlen info
  end.

Ltac size_nat :=
  change (Z.to_nat 1) with 1%nat in *; change (Z.to_nat 2) with 2%nat in *;
  change (Z.to_nat 4) with 4%nat in *; change (Z.to_nat 8) with 8%nat in *.

(** The four sizes do the same. *)
Lemma set_ctx_cons src dest e info : bytes_ok dest →
  ele_ok (Z.of_nat (length src)) (Z.of_nat (length dest)) e = true →
  ∃ dest', ice_set_ctx src dest (e :: info) = ice_set_ctx src dest' info ∧
    bytes_ok dest' ∧ length dest' = length dest ∧
    ∀ q, 0 <= q → Z.testbit (le dest') q =
      if decide (covers e q) then Z.testbit (fieldv src e) (q - lsb e) else Z.testbit (le dest) q.
Proof.
  intros Hd He. destruct (ele_ok_spec _ _ _ He) as (Hw & Hsz & _).
  destruct (write_field_spec src dest e (Z.to_nat (size_of e)) Hd ltac:(lia) He) as (dest' & Hwr & Hrest).
  exists dest'. split; [|done]. cbn [ice_set_ctx]. rewrite (proj2 (Z.eqb_neq _ _)), (proj2 (Z.ltb_ge _ _)) by lia.
  unfold ice_write_byte, ice_write_word, ice_write_dword, ice_write_qword.
  destruct Hsz as [E|[E|[E|E]]]; rewrite E in *; cbn [Z.eqb Pos.eqb];
    rewrite ?mask_ones, ?mask_ones_large by lia; size_nat; by rewrite Hwr.
Qed.

(** For every table of fields that do not overlap, every field of the struct arrives
    at its place, as far as it fits into its word, and no other bit changes. *)
Lemma set_ctx_bits src dest info : bytes_ok dest →
  table_ok (Z.of_nat (length src)) (Z.of_nat (length dest)) info = true →
  ∃ dest', ice_set_ctx src dest info = Some (ICE_SUCCESS, dest') ∧ bytes_ok dest' ∧ length dest' = length dest ∧
    (∀ e, e ∈ written info → slice (le dest') (lsb e) (ewidth e) = wrap (ewidth e) (fieldv src e)) ∧
    (∀ q, 0 <= q → (∀ e, e ∈ written info → ¬ covers e q) → Z.testbit (le dest') q = Z.testbit (le dest) q).
Proof.
  revert dest. induction info as [|e info IH]; intros dest Hd Ht; [done|]. cbn [table_ok written] in *.
  destruct (width e =? 0) eqn:E0.
  { exists dest. cbn [ice_set_ctx]. rewrite E0. split_and!; try done. by intros ? ?%not_elem_of_nil. }
  cbn [orb] in Ht. destruct (size_of e * 8 <? width e) eqn:Ew.
  { cbn [ice_set_ctx]. rewrite E0, Ew. by apply IH. }
  cbn [orb] in Ht. apply andb_true_iff in Ht as [[He Hdis]%andb_true_iff Ht].
  destruct (set_ctx_cons src dest e info Hd He) as (d1 & -> & Hd1 & Hl1 & Hb1).
  rewrite <- Hl1 in Ht. destruct (IH d1 Hd1 Ht) as (dest' & -> & Hd' & Hl' & Hf & Hq).
  exists dest'. split_and!; try done; [congruence| |].
  - intros e' [->|Hin]%elem_of_cons; [|by apply Hf].
    destruct (ele_ok_spec _ _ _ He) as (? & ? & ? & ? & ? & ?). pose proof (Z.mod_pos_bound (lsb e) 8 ltac:(lia)).
    assert (0 <= ewidth e) by (unfold ewidth; lia).
    apply Z.bits_inj'. intros i Hi. rewrite slice_bit, testbit_wrap by lia.
    destruct (Z.ltb_spec i (ewidth e)); [|done]. cbn [andb]. rewrite Hq, Hb1 by first [lia |
      intros e' Hin; rewrite List.forallb_forall in Hdis; apply list_elem_of_In in Hin; specialize (Hdis _ Hin);
      unfold disjoint_from in Hdis; apply orb_true_iff in Hdis; rewrite !Z.leb_le in Hdis; unfold covers; lia].
    rewrite decide_True by (unfold covers; lia). f_equal. lia.
  - intros q Hq0 Hc. rewrite Hq by (done || intros; apply Hc; by right).
    rewrite Hb1 by done. by rewrite decide_False by (apply Hc; by left).
Qed.

(** ** Reading back *)

Definition apart (e e' : ice_ctx_ele) : bool :=
  (offset e + size_of e <=? offset e') || (offset e' + size_of e' <=? offset e).

(** A table whose fields can be read into places of the struct that do not overlap. *)
Fixpoint readable (slen dlen : Z) (info : list ice_ctx_ele) : bool :=
  match info with
  | [] => false
  | e :: info =>
      (width e =? 0) || ele_ok dlen slen e && forallb (apart e) (written info) && readable slen dlen info
  end.

Lemma read_field_spec src dest e n : bytes_ok src → size_of e = Z.of_nat n →
  ele_ok (Z.of_nat (length dest)) (Z.of_nat (length src)) e = true →
  ∃ dest' v, read_field n (Some (Z.ones (width e))) src dest e = Some dest' ∧
    dest' = put dest (Z.to_nat (offset e)) (le_bytes n v) ∧ wrap (ewidth e) v = 0.
Proof.
  intros Hs Hn He. destruct (ele_ok_spec _ _ _ He) as (Hw & _ & Ho & Hol & Hb & Hbl).
  pose proof (Z.div_pos (lsb e) 8 Hb ltac:(lia)). pose proof (Z.mod_pos_bound (lsb e) 8 ltac:(lia)). rewrite Hn in *.
  unfold read_field. cbn [mbind option_bind]. rewrite load_take by lia. cbn [mbind option_bind].
  rewrite store_in by lia. eexists _, _. split; [done|]. split; [done|].
  assert (0 <= ewidth e) by (unfold ewidth; lia). apply Z.bits_inj'. intros i Hi.
  rewrite testbit_wrap, Z.bits_0 by lia. destruct (Z.ltb_spec i (ewidth e)); [|done]. cbn [andb].
  rewrite Z.shiftr_spec, Z.land_spec by lia. unfold cnot.
  rewrite !testbit_wrap, Z.lnot_spec, testbit_wrap, Z.shiftl_spec, Z.testbit_ones by lia.
  unfold ewidth in *. rewrite (proj2 (Z.leb_le _ _)) by lia. rewrite !(proj2 (Z.ltb_lt _ _)) by lia. cbn. by rewrite andb_false_r.
Qed.

Lemma get_ctx_cons src dest e info : bytes_ok src →
  ele_ok (Z.of_nat (length dest)) (Z.of_nat (length src)) e = true →
  ∃ v, ice_get_ctx src dest (e :: info) =
      ice_get_ctx src (put dest (Z.to_nat (offset e)) (le_bytes (Z.to_nat (size_of e)) v)) info ∧
    wrap (ewidth e) v = 0.
Proof.
  intros Hs He. destruct (ele_ok_spec _ _ _ He) as (Hw & Hsz & _).
  destruct (read_field_spec src dest e (Z.to_nat (size_of e)) Hs ltac:(lia) He) as (dest' & v & Hwr & -> & Hv).
  exists v. split; [|done]. cbn [ice_get_ctx]. rewrite (proj2 (Z.eqb_neq _ _)) by lia.
  unfold ice_read_byte, ice_read_word, ice_read_dword, ice_read_qword.
  destruct Hsz as [E|[E|[E|E]]]; rewrite E in *; cbn [Z.eqb Pos.eqb];
    rewrite ?mask_ones, ?mask_ones_large by lia; size_nat; by rewrite Hwr.
Qed.

(** Reading: [ice_get_ctx] never returns a field: whatever the packed context,
    the low bits of every field that it stores, as many as the field has, are
    zero. *)
Theorem get_ctx_clears src dest info : bytes_ok src →
  readable (Z.of_nat (length src)) (Z.of_nat (length dest)) info = true →
  ∃ dest', ice_get_ctx src dest info = Some (ICE_SUCCESS, dest') ∧ length dest' = length dest ∧
    (∀ e, e ∈ written info → wrap (ewidth e) (fieldv dest' e) = 0) ∧
    (∀ o n, (∀ e, e ∈ written info → Z.of_nat (o + n) <= offset e ∨ offset e + size_of e <= Z.of_nat o) →
      take n (drop o dest') = take n (drop o dest)).
Proof.
  intros Hs. revert dest. induction info as [|e info IH]; intros dest Ht; [done|]. cbn [readable written] in *.
  destruct (width e =? 0) eqn:E0.
  { exists dest. cbn [ice_get_ctx]. rewrite E0. split_and!; try done. by intros ? ?%not_elem_of_nil. }
  cbn [orb] in Ht. apply andb_true_iff in Ht as [[He Hdis]%andb_true_iff Ht].
  destruct (ele_ok_spec _ _ _ He) as (? & Hsz & ? & ? & ? & ?). rewrite (proj2 (Z.ltb_ge _ _)) by lia.
  destruct (get_ctx_cons src dest e info Hs He) as (v & -> & Hv). set (n := Z.to_nat (size_of e)) in *.
  set (o := Z.to_nat (offset e)) in *. set (d1 := put dest o (le_bytes n v)).
  assert (length d1 = length dest) as Hl1 by (apply length_put; rewrite length_le_bytes; lia).
  rewrite <- Hl1 in Ht. destruct (IH d1 Ht) as (dest' & -> & Hl' & Hf & Hq).
  exists dest'. split; [done|]. split; [congruence|]. split.
  - intros e' [->|Hin]%elem_of_cons; [|by apply Hf]. unfold fieldv. fold n o. rewrite Hq.
    + unfold d1. rewrite sub_put_eq, le_le_bytes by (rewrite ?length_le_bytes; lia).
      unfold ewidth in *. pose proof (Z.mod_pos_bound (lsb e) 8 ltac:(lia)). set (w := Z.min _ _) in *.
      rewrite <- Hv. unfold wrap. apply Z.mod_mod_divide.
      exists (2 ^ (8 * Z.of_nat n - w)). rewrite <- Z.pow_add_r by lia. f_equal. lia.
    + intros e' Hin. rewrite List.forallb_forall in Hdis. apply list_elem_of_In in Hin. specialize (Hdis _ Hin).
      unfold apart in Hdis. apply orb_true_iff in Hdis. rewrite !Z.leb_le in Hdis. lia.
  - intros o' n' Hc. rewrite Hq by (intros; apply Hc; by right). unfold d1.
    apply sub_put_out; rewrite length_le_bytes; [lia|]. destruct (Hc e ltac:(by left)); lia.
Qed.

(** The tables of the driver. *)
Lemma rlan_table_ok : table_ok (Z.of_nat 48) (Z.of_nat 32) ice_rlan_ctx_info = true ∧ readable (Z.of_nat 32) (Z.of_nat 48) ice_rlan_ctx_info = true.
Proof. by vm_compute. Qed.

Lemma tlan_table_ok : table_ok (Z.of_nat 56) (Z.of_nat 22) ice_tlan_ctx_info = true.
Proof. by vm_compute. Qed.

(** Tables with the sizes of struct and context. *)
Definition driver_tables : list (list ice_ctx_ele * nat * nat) :=
  [(ice_rlan_ctx_info, 48, 32); (ice_tlan_ctx_info, 56, 22); (ice_tx_drbell_q_ctx_info, 22, 20)]%nat.

(** Every field of these tables fits into its word. *)
Lemma tables_fit : Forall (fun t => table_ok (Z.of_nat t.1.2) (Z.of_nat t.2) t.1.1 = true ∧
  forallb (fun e => bool_decide (ewidth e = width e)) (written t.1.1) = true) driver_tables.
Proof. repeat constructor; by vm_compute. Qed.

(** Packing: for the tables of receive, transmit and doorbell queues, every
    field of the driver's struct arrives with all its bits at its place in the
    context, and no other bit changes; the only field that is left out is the one
    wider than its type. *)
Theorem set_ctx_spec info slen dlen src dest : (info, slen, dlen) ∈ driver_tables →
  length src = slen → length dest = dlen → bytes_ok dest →
  ∃ dest', ice_set_ctx src dest info = Some (ICE_SUCCESS, dest') ∧ bytes_ok dest' ∧ length dest' = dlen ∧
    (∀ e, e ∈ written info → slice (le dest') (lsb e) (width e) = wrap (width e) (fieldv src e)) ∧
    (∀ q, 0 <= q → (∀ e, e ∈ written info → ¬ (lsb e <= q < lsb e + width e)) →
      Z.testbit (le dest') q = Z.testbit (le dest) q).
Proof.
  intros Hin <- <- Hd. destruct (proj1 (list.Forall_forall _ _) tables_fit _ Hin) as [Ht Hfit]. cbn [fst snd] in Ht, Hfit.
  assert (∀ e, e ∈ written info → ewidth e = width e) as Hw.
  { intros e He. apply list_elem_of_In in He. rewrite List.forallb_forall in Hfit.
    by specialize (Hfit _ He) as ->%bool_decide_eq_true. }
  destruct (set_ctx_bits src dest info Hd Ht) as (dest' & Hs & Hb & Hl & Hf & Hq).
  exists dest'. split_and!; try done.
  - intros e He. rewrite <- (Hw e He). by apply Hf.
  - intros q Hq0 Hc. apply Hq; [done|]. intros e He. unfold covers. rewrite (Hw e He). by apply Hc.
Qed.

(** ** A concrete context *)

(** A receive context: ring at 0x12300 * 128, 512 descriptors, buffers of 2 KB. *)
Definition demo_rlan : list Z :=
  put (put (put (put (replicate 48 0) 8 (le_bytes 8 0x12300)) 16 (le_bytes 2 512)) 18 (le_bytes 2 16)) 23 [1].

Lemma set_ctx_spec_witness : ∃ buf, ice_set_ctx demo_rlan (replicate 32 0) ice_rlan_ctx_info = Some (ICE_SUCCESS, buf) ∧
  slice (le buf) 89 13 = 512.
Proof.
  destruct (set_ctx_spec ice_rlan_ctx_info 48 32 demo_rlan (replicate 32 0)) as (buf & Hs & _ & _ & Hf & _).
  - by left.
  - done.
  - done.
  - by apply bytes_ok_check.
  - exists buf. split; [exact Hs|]. apply (Hf (mkEle 16 2 13 89)). vm_compute. repeat first [left; reflexivity|right].
Defined.

(** The length of the ring is read back as a multiple of [2^13]. *)
Lemma get_ctx_clears_witness : ∃ buf st, ice_get_ctx (put (replicate 32 0) 11 [0; 4]) demo_rlan ice_rlan_ctx_info = Some (ICE_SUCCESS, st) ∧
  buf = put (replicate 32 0) 11 [0; 4] ∧ slice (le buf) 89 13 = 512 ∧ wrap 13 (fieldv st (mkEle 16 2 13 89)) = 0.
Proof.
  destruct (get_ctx_clears (put (replicate 32 0) 11 [0; 4]) demo_rlan ice_rlan_ctx_info) as (st & Hs & _ & Hf & _).
  - by apply bytes_ok_check.
  - by vm_compute.
  - exists (put (replicate 32 0) 11 [0; 4]), st. split; [exact Hs|]. split; [done|]. split; [by vm_compute|].
    apply (Hf (mkEle 16 2 13 89)). vm_compute. repeat first [left; reflexivity|right].
Defined.
