(* ===== verification/E810Rss.v ===== *)
(** * Receive side scaling

    The key cache of rss.cc and the steering function of e810_lan.cc.  The cache
    holds, for each bit position of the input, the 32 bits of the key from that
    position on; the hash is the exclusive or of those at which the input has a
    one.  This is shown to be the Toeplitz hash of the packet's addresses and
    ports in network order.  [None] is an access outside an array or behind the
    packet. *)
From S2P Require Import Prelude Bytes.
Local Open Scope Z_scope.

Definition key_len : Z := 52.
Definition cache_len : Z := 288.

Record rss_key_cache := mkRss { cache_dirty : bool; cache : list Z }.

#[export] Instance rss_settable : Settable rss_key_cache := fun r =>
  mkRss (cache_dirty r) (cache r).

(** [key] is the array of registers [regs.pfqf_hkey]; the code reads its bytes. *)
Definition key_bytes (key : list Z) : list Z := concat (le_bytes 4 <$> key).

Definition build_step (k : list Z) (i : Z) (s : list Z * Z) : option (list Z * Z) :=
  let '(cache, result) := s in
  let idx := 32 + i in
  let shift := idx mod 8 in
  cache ← wr cache i result;
  kb ← rd k (idx / 8);
  let bit := if nz ((kb .<< shift) .& 0x80) then 1 else 0 in
  Some (cache, u32 (result .<< 1) .| bit).

Definition build (key : list Z) (kc : rss_key_cache) : option rss_key_cache :=
  let k := key_bytes key in
  k0 ← rd k 0; k1 ← rd k 1; k2 ← rd k 2; k3 ← rd k 3;
  let result := (k0 .<< 24) .| (k1 .<< 16) .| (k2 .<< 8) .| k3 in
  '(c, _) ← for_range 0 cache_len (build_step k) (cache kc, result);
  Some (mkRss false c).

Definition set_dirty (kc : rss_key_cache) : rss_key_cache := kc <| cache_dirty := true |>.

(** One of the four loops of [hash_ipv4]: [n] bits of the [w]-bit value [x],
    whose cache entries start at [o]. *)
Definition hash_step (cache : list Z) (w o : Z) (i : Z) (s : Z * Z) : option (Z * Z) :=
  let '(res, x) := s in
  res ← (if nz (x .& 2 ^ (w - 1)) then c ← rd cache (o + i); Some (Z.lxor res c) else Some res);
  Some (res, wrap w (x .<< 1)).

Definition hash_loop (cache : list Z) (w o : Z) (res x : Z) : option Z :=
  fst <$> for_range 0 w (hash_step cache w o) (res, x).

Definition hash_ipv4 (key : list Z) (kc : rss_key_cache) (sip dip sp dp : Z)
    : option (Z * rss_key_cache) :=
  kc ← (if cache_dirty kc then build key kc else Some kc);
  res ← hash_loop (cache kc) 32 0 0 sip;
  res ← hash_loop (cache kc) 32 32 res dip;
  res ← hash_loop (cache kc) 16 64 res sp;
  res ← hash_loop (cache kc) 16 80 res dp;
  Some (res, kc).

(** ** Steering *)

Definition ETH_TYPE_IP : Z := 0x0800.
Definition IP_PROTO_TCP : Z := 6.
Definition IP_PROTO_UDP : Z := 17.

(** Fields of [struct pkt_tcp] and [struct pkt_udp] by their offsets, as stored. *)
Definition eth_type (data : list Z) : option Z := load 2 data 12.
Definition ip_proto (data : list Z) : option Z := load 1 data 23.
Definition ip_src (data : list Z) : option Z := load 4 data 26.
Definition ip_dest (data : list Z) : option Z := load 4 data 30.
Definition l4_src (data : list Z) : option Z := load 2 data 34.
Definition l4_dest (data : list Z) : option Z := load 2 data 36.

(** The result, the hash and the cache; [queue] is left alone. *)
Definition rss_steering (key : list Z) (kc : rss_key_cache) (data : list Z)
    : option (bool * Z * rss_key_cache) :=
  ty ← eth_type data;
  if negb (ty =? bswap16 ETH_TYPE_IP) then Some (false, 0, kc)
  else
    proto ← ip_proto data;
    src ← ip_src data; dst ← ip_dest data;
    '(sp, dp) ← (if (proto =? IP_PROTO_TCP) || (proto =? IP_PROTO_UDP)
                 then s ← l4_src data; d ← l4_dest data; Some (bswap16 s, bswap16 d)
                 else Some (0, 0));
    '(h, kc) ← hash_ipv4 key kc (bswap32 src) (bswap32 dst) sp dp;
    Some (true, h, kc).

(** ** The Toeplitz hash *)

(** The 32 bits of the key from bit [o] on, counted from the first byte. *)
Definition window (k : list Z) (o : Z) : Z :=
  slice (be k) (8 * Z.of_nat (length k) - 32 - o) 32.

(** The hash of the [n]-bit number [x], highest bit first, with the key from bit
    [o] on. *)
Fixpoint toeplitz (k : list Z) (o : Z) (n : nat) (x : Z) : Z :=
  match n with
  | O => 0
  | S n' =>
      Z.lxor (if Z.testbit x (Z.of_nat n') then window k o else 0) (toeplitz k (o + 1) n' x)
  end.

(** The cache is dirty or up to date. *)
Definition rss_ok (key : list Z) (kc : rss_key_cache) : Prop :=
  Z.of_nat (length (cache kc)) = cache_len ∧
  (cache_dirty kc = true ∨
   ∀ i, 0 <= i < cache_len → rd (cache kc) i = Some (window (key_bytes key) i)).

Definition key_ok (key : list Z) : Prop := length key = 13%nat.

(** ** Proofs *)

Lemma length_key_bytes key : key_ok key → length (key_bytes key) = 52%nat.
Proof.
  unfold key_ok, key_bytes. intros Hk.
  assert (∀ l : list Z, length (concat (le_bytes 4 <$> l)) = 4 * length l)%nat as ->; [|lia].
  induction l as [|x l IH]; [done|]. rewrite fmap_cons. cbn [concat].
  rewrite length_app, length_le_bytes, IH. simpl. lia.
Qed.

Lemma key_bytes_ok key : bytes_ok (key_bytes key).
Proof.
  unfold key_bytes. induction key as [|x l IH]; [constructor|]. rewrite fmap_cons. cbn [concat].
  apply Forall_app. split; [apply le_bytes_ok|done].
Qed.

(** Moving the window by one bit. *)
Lemma window_next k o b : bytes_ok k → 0 <= o → o + 33 <= 8 * Z.of_nat (length k) →
  rd k ((32 + o) / 8) = Some b →
  u32 (window k o .<< 1) .| (if nz ((b .<< ((32 + o) mod 8)) .& 0x80) then 1 else 0)
  = window k (o + 1).
Proof.
  intros Hk Ho Hl Hb. apply Z.bits_inj_iff'. intros i Hi.
  pose proof (Z.mod_pos_bound (32 + o) 8 ltac:(lia)).
  assert (nz ((b .<< ((32 + o) mod 8)) .& 0x80) = Z.testbit b (7 - (32 + o) mod 8)) as ->.
  { change 0x80 with (2 ^ 7). rewrite nz_bit by lia. by rewrite Z.shiftl_spec by lia. }
  rewrite Z.lor_spec, testbit_wrap, Z.shiftl_spec by lia. unfold window.
  destruct (Z.eqb_spec i 0) as [->|Hi0].
  - rewrite Z.testbit_neg_r by lia. rewrite andb_false_r. rewrite slice_bit by lia.
    rewrite <- (be_bit k (32 + o) b) by (done || lia).
    replace (8 * Z.of_nat (length k) - 32 - (o + 1) + 0) with (8 * Z.of_nat (length k) - 1 - (32 + o)) by lia.
    by destruct (Z.testbit (be k) _).
  - assert (Z.testbit (if Z.testbit b (7 - (32 + o) mod 8) then 1 else 0) i = false) as ->.
    { destruct (Z.testbit b _); [|apply Z.bits_0]. change 1 with (2 ^ 0).
      by apply Z.pow2_bits_false. }
    rewrite orb_false_r. destruct (Z.ltb_spec i 32).
    + rewrite !slice_bit by lia. rewrite !(proj2 (Z.ltb_lt _ 32)) by lia.
      simpl. f_equal. lia.
    + rewrite !slice_bit by lia. by rewrite (proj2 (Z.ltb_ge i 32)) by lia.
Qed.

Lemma window_first k k0 k1 k2 k3 : bytes_ok k → 4 <= Z.of_nat (length k) →
  rd k 0 = Some k0 → rd k 1 = Some k1 → rd k 2 = Some k2 → rd k 3 = Some k3 →
  (k0 .<< 24) .| (k1 .<< 16) .| (k2 .<< 8) .| k3 = window k 0.
Proof.
  intros Hk Hl H0 H1 H2 H3. destruct k as [|a [|b [|c [|d k]]]]; try (simpl in Hl; lia).
  injection H0 as ->. injection H1 as ->. injection H2 as ->. injection H3 as ->.
  change (k0 :: k1 :: k2 :: k3 :: k) with ([k0; k1; k2; k3] ++ k) in *.
  apply Forall_app in Hk as [Hk Hr]. unfold window. rewrite be_app, length_app.
  replace (8 * Z.of_nat (length [k0; k1; k2; k3] + length k) - 32 - 0)
    with (8 * Z.of_nat (length k)) by (simpl; lia).
  unfold slice. rewrite shiftr_low_high by (lia || by apply be_width).
  pose proof (be_width _ Hk) as Hw. rewrite wrap_small by exact Hw.
  repeat (apply Forall_cons_1 in Hk as [? Hk]). unfold byte_ok in *.
  change 24 with (8 + 16). change 16 with (8 + 8). rewrite <- !Z.shiftl_shiftl by lia.
  rewrite <- !Z.shiftl_lor. rewrite !lor_shift_add by (lia || done). unfold be. simpl. lia.
Qed.

Lemma build_spec key kc : key_ok key → Z.of_nat (length (cache kc)) = cache_len →
  ∃ kc', build key kc = Some kc' ∧ rss_ok key kc' ∧ cache_dirty kc' = false.
Proof.
  intros Hkey Hc. pose proof (length_key_bytes _ Hkey) as Hl. pose proof (key_bytes_ok key) as Hk.
  unfold build. set (k := key_bytes key) in *.
  destruct (rd_in_range k 0) as [k0 E0]; [lia|]. destruct (rd_in_range k 1) as [k1 E1]; [lia|].
  destruct (rd_in_range k 2) as [k2 E2]; [lia|]. destruct (rd_in_range k 3) as [k3 E3]; [lia|].
  rewrite E0, E1, E2, E3. simpl mbind.
  rewrite (window_first k) by (done || lia).
  destruct (for_range_total (fun i '(c, r) => Z.of_nat (length c) = cache_len ∧ r = window k i ∧
    ∀ j, 0 <= j < i → rd c j = Some (window k j)) 0 cache_len (build_step k) (cache kc, window k 0))
    as ([c r] & Ef & Hlen & _ & Hj); [done|split_and!; [done..|lia]| |].
  - intros i [c r] Hi (Hlen & -> & Hj). unfold build_step, cache_len in *.
    destruct (rd_in_range k ((32 + i) / 8)) as [b Eb].
    { split; [apply Z.div_pos; lia|apply Z.div_lt_upper_bound; lia]. }
    destruct (wr c i (window k i)) as [c'|] eqn:Ew; [|by rewrite wr_in_range in Ew by lia].
    simpl. rewrite Eb. simpl. eexists. split; [done|]. rewrite (window_next k i b) by (done || lia).
    split_and!; [by rewrite (wr_length _ _ _ _ Ew)|done|]. intros j Hij.
    destruct (decide (i = j)) as [<-|]; [by apply (rd_wr_eq _ _ _ _ Ew)|].
    rewrite (rd_wr_ne _ _ _ _ _ Ew) by done. apply Hj. lia.
  - rewrite Ef. eexists. split; [done|]. split; [|done]. split; [done|]. by right.
Qed.

Lemma hash_loop_spec k c w o res x : 0 < w → 0 <= o → o + w <= cache_len →
  (∀ i, 0 <= i < cache_len → rd c i = Some (window k i)) →
  hash_loop c w o res x = Some (Z.lxor res (toeplitz k o (Z.to_nat w) x)).
Proof.
  intros Hw Ho Hl Hc. unfold hash_loop.
  destruct (for_range_total (fun i '(r, y) =>
    Z.lxor r (toeplitz k (o + i) (Z.to_nat (w - i)) x) = Z.lxor res (toeplitz k o (Z.to_nat w) x) ∧
    ∀ j, 0 <= j < w - i → Z.testbit y (i + j) = Z.testbit x j) 0 w (hash_step c w o) (res, x))
    as ([r y] & -> & Hr & _); [lia| | |].
  - split; [by rewrite Z.add_0_r, Z.sub_0_r|]. intros j Hj. f_equal.
  - intros i [r y] Hi [Hr Hy]. unfold hash_step. rewrite nz_bit by lia.
    replace (w - 1) with (i + (w - i - 1)) by lia. rewrite Hy by lia.
    replace (Z.to_nat (w - i)) with (S (Z.to_nat (w - i - 1))) in Hr by lia. simpl in Hr.
    rewrite Z2Nat.id in Hr by lia.
    exists (Z.lxor r (if Z.testbit x (w - i - 1) then window k (o + i) else 0), wrap w (y .<< 1)).
    split; [|split].
    + destruct (Z.testbit x (w - i - 1)); [by rewrite Hc by lia|by rewrite Z.lxor_0_r].
    + rewrite <- Hr. replace (Z.to_nat (w - (i + 1))) with (Z.to_nat (w - i - 1)) by lia.
      by rewrite Z.add_assoc, Z.lxor_assoc.
    + intros j Hj. rewrite testbit_wrap, Z.shiftl_spec by lia.
      rewrite (proj2 (Z.ltb_lt _ w)) by lia. simpl.
      replace (i + 1 + j - 1) with (i + j) by lia. apply Hy. lia.
  - simpl. f_equal. rewrite Z.sub_diag in Hr. simpl in Hr. by rewrite Z.lxor_0_r in Hr.
Qed.

(** The hash of a concatenation. *)
Lemma toeplitz_app k o n m x y : in_width (Z.of_nat m) y →
  toeplitz k o (n + m) (y + 2 ^ Z.of_nat m * x)
  = Z.lxor (toeplitz k o n x) (toeplitz k (o + Z.of_nat n) m y).
Proof.
  intros Hy. revert o. induction n as [|n IH]; intros o; cbn [toeplitz Nat.add].
  - rewrite Z.add_0_r, Z.lxor_0_l.
    assert (∀ j, (j <= m)%nat → ∀ o, toeplitz k o j (y + 2 ^ Z.of_nat m * x) = toeplitz k o j y) as Hj.
    { induction j as [|j IHj]; intros Hjm o'; simpl; [done|].
      rewrite IHj by lia. rewrite testbit_low_high by (lia || done).
      by rewrite (proj2 (Z.ltb_lt _ _)) by lia. }
    by apply Hj.
  - rewrite IH. rewrite testbit_low_high by (lia || done).
    rewrite (proj2 (Z.ltb_ge _ _)) by lia.
    replace (Z.of_nat (n + m) - Z.of_nat m) with (Z.of_nat n) by lia.
    rewrite Z.lxor_assoc. by replace (o + 1 + Z.of_nat n) with (o + Z.of_nat (S n)) by lia.
Qed.

Lemma toeplitz_0 k o n : toeplitz k o n 0 = 0.
Proof. revert o. induction n as [|n IH]; intros o; cbn [toeplitz]; [done|]. by rewrite Z.bits_0, IH. Qed.

#[local] Arguments toeplitz : simpl never.

Lemma hash_ipv4_windows key kc sip dip sp dp : key_ok key → rss_ok key kc →
  in_width 32 dip → in_width 16 sp → in_width 16 dp →
  ∃ kc', hash_ipv4 key kc sip dip sp dp =
      Some (toeplitz (key_bytes key) 0 96 (dp + 2 ^ 16 * (sp + 2 ^ 16 * (dip + 2 ^ 32 * sip))), kc') ∧
    rss_ok key kc' ∧ cache_dirty kc' = false.
Proof.
  intros Hkey [Hl Hc] Hdip Hsp Hdp. unfold hash_ipv4.
  assert (∃ kc', (if cache_dirty kc then build key kc else Some kc) = Some kc' ∧
    rss_ok key kc' ∧ cache_dirty kc' = false) as (kc' & -> & Hok & Hd).
  { destruct (cache_dirty kc) eqn:Ed; [by apply build_spec|].
    destruct Hc as [|Hc]; [congruence|]. exists kc. split_and!; try done. split; [done|by right]. }
  simpl mbind. destruct Hok as [Hl' [Hc'|Hc']]; [congruence|].
  do 4 (rewrite (hash_loop_spec (key_bytes key)) by (done || (unfold cache_len; lia)); simpl mbind).
  exists kc'. split; [|split; [split; [done|by right]|done]]. do 2 f_equal.
  change 96%nat with (80 + 16)%nat.
  rewrite (toeplitz_app _ 0 80 16) by done. change 80%nat with (64 + 16)%nat.
  rewrite (toeplitz_app _ 0 64 16) by done. change 64%nat with (32 + 32)%nat.
  rewrite (toeplitz_app _ 0 32 32) by done. by rewrite Z.lxor_0_l.
Qed.

(** ** Correctness *)

(** The fields of the packet that are hashed, in network order. *)
Definition tuple (data : list Z) (n : nat) : Z := be (take n (drop 26 data)).

Lemma eth_type_be data : bytes_ok data → 14 <= Z.of_nat (length data) →
  (le (take 2 (drop 12 data)) =? bswap16 ETH_TYPE_IP) = (be (take 2 (drop 12 data)) =? ETH_TYPE_IP).
Proof.
  intros Hd Hl. pose proof (bytes_ok_sub 2 12 _ Hd) as Hok.
  pose proof (length_sub 2 12 data ltac:(lia)) as Hlen.
  destruct (take 2 (drop 12 data)) as [|a [|b [|]]]; try done.
  apply Forall_cons_1 in Hok as [Ha Hok]. apply Forall_cons_1 in Hok as [Hb _].
  unfold byte_ok, in_width in *. unfold be. change (bswap16 ETH_TYPE_IP) with 8.
  unfold ETH_TYPE_IP. simpl. destruct (Z.eqb_spec (a + 256 * (b + 0)) 8), (Z.eqb_spec (b + 256 * (a + 0)) 2048);
    lia || done.
Qed.

Lemma proto_test data : 24 <= Z.of_nat (length data) →
  ((le (take 1 (drop 23 data)) =? IP_PROTO_TCP) || (le (take 1 (drop 23 data)) =? IP_PROTO_UDP))
  = bool_decide (data !! 23%nat = Some IP_PROTO_TCP ∨ data !! 23%nat = Some IP_PROTO_UDP).
Proof.
  intros Hl. destruct (lookup_lt_is_Some_2 data 23) as [p Hp]; [lia|].
  rewrite (drop_S _ _ _ Hp), Hp. simpl. rewrite Z.add_0_r.
  destruct (Z.eqb_spec p IP_PROTO_TCP) as [->|]; [by rewrite bool_decide_true by auto|].
  destruct (Z.eqb_spec p IP_PROTO_UDP) as [->|]; [by rewrite bool_decide_true by auto|].
  symmetry. apply bool_decide_false. intros [|]; congruence.
Qed.

(** C15. Receive side scaling: for every packet of at least 38 bytes and every
    state of the cache, the steering function stays inside its arrays, keeps the
    cache valid, and computes for an IPv4 packet the Toeplitz hash of the
    addresses and, for TCP and UDP, the ports, as they stand in the packet. *)
Theorem rss_steering_toeplitz key kc data : key_ok key → rss_ok key kc → bytes_ok data →
  38 <= Z.of_nat (length data) →
  ∃ kc', rss_ok key kc' ∧ rss_steering key kc data = Some (
    if be (take 2 (drop 12 data)) =? ETH_TYPE_IP then
      (true,
       if bool_decide (data !! 23%nat = Some IP_PROTO_TCP ∨ data !! 23%nat = Some IP_PROTO_UDP)
       then toeplitz (key_bytes key) 0 96 (tuple data 12)
       else toeplitz (key_bytes key) 0 64 (tuple data 8), kc')
    else (false, 0, kc')).
Proof.
  intros Hkey Hkc Hd Hl. unfold rss_steering, eth_type, ip_proto, ip_src, ip_dest, l4_src, l4_dest.
  rewrite !load_take by lia. cbn [mbind option_bind].
  change (Z.to_nat 12) with 12%nat. change (Z.to_nat 23) with 23%nat.
  change (Z.to_nat 26) with 26%nat. change (Z.to_nat 30) with 30%nat.
  change (Z.to_nat 34) with 34%nat. change (Z.to_nat 36) with 36%nat.
  rewrite eth_type_be by (done || lia). destruct (_ =? ETH_TYPE_IP); cbn [negb];
    [|exists kc; by split].
  assert (bytes_ok (take 4 (drop 26 data)) ∧ bytes_ok (take 4 (drop 30 data)) ∧
    bytes_ok (take 2 (drop 34 data)) ∧ bytes_ok (take 2 (drop 36 data))) as (H1 & H2 & H3 & H4)
    by (split_and!; by apply bytes_ok_sub).
  rewrite !ntohl_be by (done || apply length_sub; lia).
  rewrite !ntohs_be by (done || apply length_sub; lia).
  pose proof (be_width _ H2) as W2. pose proof (be_width _ H3) as W3.
  pose proof (be_width _ H4) as W4. rewrite length_sub in W2, W3, W4 by lia.
  rewrite proto_test by lia. destruct (bool_decide _); cbn [mbind option_bind].
  - destruct (hash_ipv4_windows key kc (be (take 4 (drop 26 data))) (be (take 4 (drop 30 data)))
      (be (take 2 (drop 34 data))) (be (take 2 (drop 36 data)))) as (kc' & -> & Hok & _); try done.
    exists kc'. split; [done|]. cbn [mbind option_bind]. do 3 f_equal. f_equal. unfold tuple.
    change 12%nat with (4 + (4 + (2 + 2)))%nat. rewrite !sub_app, !be_app, !length_app.
    rewrite !length_sub by (simpl; lia). cbn [Nat.add].
    change (2 ^ (8 * Z.of_nat 8)) with (2 ^ 16 * 2 ^ 16 * 2 ^ 32).
    change (2 ^ (8 * Z.of_nat 4)) with (2 ^ 16 * 2 ^ 16).
    change (2 ^ (8 * Z.of_nat 2)) with (2 ^ 16). ring.
  - destruct (hash_ipv4_windows key kc (be (take 4 (drop 26 data))) (be (take 4 (drop 30 data))) 0 0)
      as (kc' & -> & Hok & _); try done.
    exists kc'. split; [done|]. cbn [mbind option_bind]. do 3 f_equal. unfold tuple.
    change 8%nat with (4 + 4)%nat. rewrite sub_app, be_app, length_sub by lia.
    set (x := be (take 4 (drop (26 + 4) data)) + 2 ^ (8 * Z.of_nat 4) * be (take 4 (drop 26 data))).
    transitivity (toeplitz (key_bytes key) 0 (64 + 32) (0 + 2 ^ Z.of_nat 32 * x)).
    { f_equal. subst x. change (2 ^ Z.of_nat 32) with (2 ^ 16 * 2 ^ 16). cbn [Nat.add].
      change (2 ^ (8 * Z.of_nat 4)) with (2 ^ 32). ring. }
    rewrite toeplitz_app by done. by rewrite toeplitz_0, Z.lxor_0_r.
Qed.

(** The key the device starts with, a stale cache and a TCP packet. *)
Definition demo_key : list Z :=
  [0xda565a6d; 0xc20e5b25; 0x3d256741; 0xb08fa343; 0xcb2bcad0; 0xb4307bae; 0xa32dcb77;
   0x0cf23080; 0x3bb7426a; 0xfa01acbe; 0; 0; 0].
Definition demo_kc : rss_key_cache := mkRss true (replicate 288 0).
Definition demo_pkt : list Z :=
  replicate 12 0 ++ [8; 0] ++ [0x45; 0; 0; 40; 0; 0; 0; 0; 64; 6; 0; 0] ++
  [66; 9; 149; 187] ++ [161; 142; 100; 80] ++ [10; 234; 6; 230].

(** The published value for these addresses and ports. *)
Lemma rss_steering_toeplitz_witness :
  ∃ kc', rss_ok demo_key kc' ∧ rss_steering demo_key demo_kc demo_pkt = Some (true, 0x51ccc178, kc').
Proof.
  destruct (rss_steering_toeplitz demo_key demo_kc demo_pkt) as (kc' & Hok & Eq).
  - done.
  - split; [done|by left].
  - by apply bytes_ok_check.
  - by vm_compute.
  - exists kc'. split; [done|]. rewrite Eq. vm_compute. reflexivity.
Defined.
