(* ===== verification/E810Xsum.v ===== *)
(** * Checksums

    xsums.cc: the Internet checksum as computed over a packet buffer, the
    checksums of TCP, UDP and IPv4 headers, and the update of the headers between
    two segments.  A buffer is a list of bytes and a pointer into it an offset;
    [None] is an access outside the buffer.  Multi-byte fields are read and
    written in the byte order of the host. *)
From S2P Require Import Prelude Bytes.
Local Open Scope Z_scope.

(** The sum over [len] bytes from [off] on: four words at a time, then word by
    word, then an odd byte. *)
Definition sum4 (buf : list Z) (off : Z) (i sum : Z) : option Z :=
  w0 ← load 2 buf (off + 8 * i);
  w1 ← load 2 buf (off + 8 * i + 2);
  w2 ← load 2 buf (off + 8 * i + 4);
  w3 ← load 2 buf (off + 8 * i + 6);
  Some (u32 (u32 (u32 (u32 (sum + w0) + w1) + w2) + w3)).

Definition sum1 (buf : list Z) (off : Z) (i sum : Z) : option Z :=
  w ← load 2 buf (off + 2 * i);
  Some (u32 (sum + w)).

Definition __rte_raw_cksum (buf : list Z) (off len sum : Z) : option Z :=
  sum ← for_range 0 (len / 8) (sum4 buf off) sum;
  let off' := off + 8 * (len / 8) in
  let len' := len mod 8 in
  sum ← for_range 0 (len' / 2) (sum1 buf off') sum;
  if len' mod 2 =? 1 then
    left ← rd buf (off' + 2 * (len' / 2));
    Some (u32 (sum + left))
  else Some sum.

Definition fold16 (sum : Z) : Z := u32 (((sum .& 0xffff0000) .>> 16) + (sum .& 0xffff)).

Definition __rte_raw_cksum_reduce (sum : Z) : Z :=
  let sum := fold16 sum in
  let sum := fold16 sum in
  u16 sum.

Definition rte_raw_cksum (buf : list Z) (off len : Z) : option Z :=
  sum ← __rte_raw_cksum buf off len 0;
  Some (__rte_raw_cksum_reduce sum).

(** The end of the three functions below: one more fold and the complement. *)
Definition finish (cksum : Z) : Z := Z.lnot (fold16 cksum) .& 0xffff.

(** [sizeof(struct ipv4_hdr)] *)
Definition IPV4_HDR : Z := 20.

Definition rte_ipv4_phdr_cksum (buf : list Z) (ip : Z) : option Z :=
  src ← load 4 buf (ip + 12);
  dst ← load 4 buf (ip + 16);
  proto ← rd buf (ip + 9);
  total ← load 2 buf (ip + 2);
  let len := bswap16 (u16 (bswap16 total - IPV4_HDR)) in
  rte_raw_cksum (le_bytes 4 src ++ le_bytes 4 dst ++ [0; proto] ++ le_bytes 2 len) 0 12.

Definition xsum_udp (buf : list Z) (off l4_len : Z) : option (list Z) :=
  cksum ← rte_raw_cksum buf off l4_len;
  store 2 buf (off + 6) (finish cksum).

Definition xsum_tcp (buf : list Z) (off l4_len : Z) : option (list Z) :=
  cksum ← rte_raw_cksum buf off l4_len;
  store 2 buf (off + 16) (finish cksum).

(** [ip] is the offset of the IP header. *)
Definition xsum_tcpip_tso (buf : list Z) (ip iplen l4len paylen : Z) : option (list Z) :=
  let tcp := ip + iplen in
  buf ← store 2 buf (ip + 2) (bswap16 (u16 (iplen + l4len + paylen)));
  buf ← store 2 buf (ip + 10) 0;
  cksum ← rte_raw_cksum buf ip iplen;
  buf ← store 2 buf (ip + 10) (finish cksum);
  buf ← store 2 buf (tcp + 16) 0;
  cksum ← rte_raw_cksum buf tcp (l4len + paylen);
  ph ← rte_ipv4_phdr_cksum buf ip;
  store 2 buf (tcp + 16) (finish (cksum + ph)).

Definition tso_postupdate_header (buf : list Z) (ip iplen l4len paylen : Z) : option (list Z) :=
  let tcp := ip + iplen in
  seq ← load 4 buf (tcp + 4);
  buf ← store 4 buf (tcp + 4) (bswap32 (u32 (bswap32 seq + paylen)));
  id ← load 2 buf (ip + 4);
  store 2 buf (ip + 4) (bswap16 (u16 (bswap16 id + 1))).

(** ** Specification: RFC 1071 *)

(** The sum of the bytes as 16-bit words in network order, padded with zero. *)
Fixpoint be_sum (bs : list Z) : Z :=
  match bs with
  | [] => 0
  | [a] => 256 * a
  | a :: b :: bs' => 256 * a + b + be_sum bs'
  end.

(** A receiver accepts a string whose one's complement sum is minus zero. *)
Definition cksum_valid (bs : list Z) : Prop := 0 < be_sum bs ∧ be_sum bs mod 65535 = 0.

(** The same sum in the byte order of the host. *)
Fixpoint le_sum (bs : list Z) : Z :=
  match bs with
  | [] => 0
  | [a] => a
  | a :: b :: bs' => a + 256 * b + le_sum bs'
  end.

(** ** Sums *)

Lemma pair_ind (P : list Z → Prop) : P [] → (∀ a, P [a]) →
  (∀ a b bs, P bs → P (a :: b :: bs)) → ∀ bs, P bs.
Proof.
  intros H0 H1 H2 bs. enough (P bs ∧ ∀ a, P (a :: bs)) by tauto.
  induction bs as [|b bs [IH IH']]; split; auto.
Qed.

Lemma sum_byte_order bs : (256 * le_sum bs) mod 65535 = be_sum bs mod 65535.
Proof.
  induction bs as [|a|a b bs IH] using pair_ind; [done|cbn [le_sum be_sum]; done|].
  cbn [le_sum be_sum].
  replace (256 * (a + 256 * b + le_sum bs)) with (256 * a + b + 256 * le_sum bs + b * 65535) by ring.
  rewrite Z_mod_plus_full, Z.add_mod, IH, <- Z.add_mod by lia. done.
Qed.

Lemma le_sum_nonneg bs : bytes_ok bs → 0 <= le_sum bs ∧ 0 <= be_sum bs ∧ (be_sum bs = 0 ↔ le_sum bs = 0).
Proof.
  induction bs as [|a|a b bs IH] using pair_ind; cbn [le_sum be_sum]; intros Hok.
  - lia.
  - apply Forall_cons_1 in Hok as [[? ?] _]. lia.
  - apply Forall_cons_1 in Hok as [[? ?] Hok]. apply Forall_cons_1 in Hok as [[? ?] Hok].
    specialize (IH Hok). lia.
Qed.

Lemma le_sum_bound bs : bytes_ok bs → le_sum bs <= 65535 * ((Z.of_nat (length bs) + 1) / 2).
Proof.
  induction bs as [|a|a b bs IH] using pair_ind; intros Hok.
  - done.
  - apply Forall_cons_1 in Hok as [[? ?] _]. cbn [le_sum length].
    change ((Z.of_nat 1 + 1) / 2) with 1. lia.
  - apply Forall_cons_1 in Hok as [[? ?] Hok]. apply Forall_cons_1 in Hok as [[? ?] Hok].
    specialize (IH Hok). cbn [le_sum length]. rewrite !Nat2Z.inj_succ.
    replace (Z.succ (Z.succ (Z.of_nat (length bs))) + 1) with (Z.of_nat (length bs) + 1 + 1 * 2) by lia.
    rewrite Z.div_add by lia. lia.
Qed.

Lemma le_sum_app xs ys : Nat.Even (length xs) → le_sum (xs ++ ys) = le_sum xs + le_sum ys.
Proof.
  induction xs as [|a|a b xs IH] using pair_ind; intros He; [done| |].
  - destruct He as [n He]. simpl in He. lia.
  - simpl in *. rewrite IH by (destruct He as [n He]; exists (n - 1)%nat; lia). lia.
Qed.

Lemma le_sum_word bs : length bs = 2%nat → le_sum bs = le bs.
Proof. destruct bs as [|a [|b [|]]]; try done. intros _. simpl. lia. Qed.

(** Replacing an aligned word. *)
Lemma le_sum_put l o w : Nat.Even o → (o + 2 <= length l)%nat → length w = 2%nat →
  le_sum (put l o w) = le_sum l - le (take 2 (drop o l)) + le w.
Proof.
  intros Ho Hl Hw. pose proof (take_drop o l) as E.
  rewrite <- (take_drop 2 (drop o l)) in E. rewrite <- E at 2. unfold put.
  assert (Nat.Even (length (take o l))) by (rewrite length_take; by replace (o `min` length l)%nat with o by lia).
  assert (length (take 2 (drop o l)) = 2%nat) as H2 by (rewrite length_sub; lia).
  rewrite !le_sum_app by (done || (rewrite ?Hw, ?H2; by exists 1%nat)).
  rewrite (le_sum_word w), (le_sum_word (take 2 _)) by done. rewrite drop_drop, Hw. lia.
Qed.

Lemma le_sum_drop_word l o : bytes_ok l → Nat.Even o → (o + 2 <= length l)%nat →
  0 <= le_sum l - le (take 2 (drop o l)).
Proof.
  intros Hok Ho Hl. pose proof (le_sum_put l o [0; 0] Ho Hl eq_refl) as E.
  assert (bytes_ok [0; 0]) as H0 by (by apply bytes_ok_check).
  pose proof (le_sum_nonneg _ (put_ok l o [0; 0] Hok H0)). simpl le in E at 2. lia.
Qed.

(** ** The summing loops *)

Lemma u32_add_l a b : u32 (u32 a + b) = u32 (a + b).
Proof. unfold wrap. by rewrite Zplus_mod_idemp_l. Qed.

Lemma le_sum_next buf k n : (k + n + 2 <= length buf)%nat → Nat.Even n →
  le_sum (take (n + 2) (drop k buf)) = le_sum (take n (drop k buf)) + le (take 2 (drop (k + n) buf)).
Proof.
  intros Hl He. rewrite sub_app, le_sum_app by (by rewrite length_sub by lia).
  by rewrite (le_sum_word (take 2 _)) by (rewrite length_sub; lia).
Qed.

(** The sum of [n] bytes from [off] on, on top of [s0]. *)
Definition summed (buf : list Z) (off : Z) (s0 n : Z) : Z :=
  u32 (s0 + le_sum (take (Z.to_nat n) (drop (Z.to_nat off) buf))).

Lemma summed_next buf off s0 o m w : load 2 buf o = Some w → 0 <= off → 0 <= m → o = off + 2 * m →
  u32 (summed buf off s0 (2 * m) + w) = summed buf off s0 (2 * (m + 1)).
Proof.
  intros Hw Ho Hm ->.
  assert (off + 2 * m + 2 <= Z.of_nat (length buf)) as Hl.
  { unfold load, bytes_at in Hw. destruct (Z.leb_spec 0 (off + 2 * m)); [|done].
    destruct (Z.leb_spec (off + 2 * m + Z.of_nat 2) (Z.of_nat (length buf))); [lia|done]. }
  rewrite load_take in Hw by lia. injection Hw as <-. unfold summed. rewrite u32_add_l.
  replace (Z.to_nat (2 * (m + 1))) with (Z.to_nat (2 * m) + 2)%nat by lia.
  rewrite Z2Nat.inj_add by lia. rewrite le_sum_next; [f_equal; lia|lia|].
  exists (Z.to_nat m). lia.
Qed.

Lemma load2_in buf off : 0 <= off → off + 2 <= Z.of_nat (length buf) → is_Some (load 2 buf off).
Proof. intros. rewrite load_take by lia. by eexists. Qed.

Ltac word_at off w E :=
  match goal with |- context [load 2 ?buf off] =>
    destruct (load2_in buf off) as [w E]; [lia|lia|] end.

Lemma raw_cksum_spec buf off len sum : 0 <= off → 0 <= len → off + len <= Z.of_nat (length buf) →
  in_width 32 sum → __rte_raw_cksum buf off len sum = Some (summed buf off sum len).
Proof.
  intros Ho Hlen Hl Hs. unfold __rte_raw_cksum.
  pose proof (Z.div_mod len 8 ltac:(lia)). pose proof (Z.mod_pos_bound len 8 ltac:(lia)).
  pose proof (Z.div_mod (len mod 8) 2 ltac:(lia)). pose proof (Z.mod_pos_bound (len mod 8) 2 ltac:(lia)).
  set (q := len / 8) in *. set (r := len mod 8) in *.
  assert (0 <= q /\ 0 <= r / 2) as [Hq Hr2] by lia.
  destruct (for_range_total (fun i s => s = summed buf off sum (8 * i)) 0 q (sum4 buf off) sum)
    as (s1 & -> & ->); [done| | |].
  { unfold summed. simpl. rewrite Z.add_0_r. by rewrite wrap_small. }
  { intros i s Hi ->. unfold sum4. word_at (off + 8 * i) w0 E0. word_at (off + 8 * i + 2) w1 E1.
    word_at (off + 8 * i + 4) w2 E2. word_at (off + 8 * i + 6) w3 E3.
    rewrite E0, E1, E2, E3. cbn [mbind option_bind]. eexists. split; [done|].
    replace (8 * i) with (2 * (4 * i)) by lia.
    rewrite (summed_next _ _ _ _ _ _ E0), (summed_next _ _ _ _ _ _ E1), (summed_next _ _ _ _ _ _ E2),
      (summed_next _ _ _ _ _ _ E3) by lia. f_equal. lia. }
  cbn [mbind option_bind].
  destruct (for_range_total (fun i s => s = summed buf off sum (2 * (4 * q + i))) 0 (r / 2)
    (sum1 buf (off + 8 * q)) (summed buf off sum (8 * q))) as (s2 & -> & ->); [done| | |].
  { f_equal. lia. }
  { intros i s Hi ->. unfold sum1. word_at (off + 8 * q + 2 * i) w E. rewrite E.
    eexists. split; [done|]. rewrite (summed_next _ _ _ _ _ _ E) by lia. f_equal. lia. }
  cbn [mbind option_bind]. destruct (Z.eqb_spec (r mod 2) 1) as [E1|E1].
  - destruct (rd_in_range buf (off + 8 * q + 2 * (r / 2))) as [b Eb]; [lia|]. rewrite Eb. simpl.
    f_equal. unfold summed. rewrite u32_add_l. rewrite <- Z.add_assoc. do 2 f_equal.
    replace (Z.to_nat len) with (Z.to_nat (2 * (4 * q + r / 2)) + 1)%nat by lia.
    rewrite sub_app, le_sum_app.
    + f_equal. unfold rd in Eb. rewrite (proj2 (Z.leb_le _ _)) in Eb by lia.
      rewrite <- Z2Nat.inj_add by lia.
      replace (off + 2 * (4 * q + r / 2)) with (off + 8 * q + 2 * (r / 2)) by lia.
      by rewrite (drop_S _ _ _ Eb).
    + rewrite length_sub by lia. exists (Z.to_nat (4 * q + r / 2)). lia.
  - f_equal. f_equal. lia.
Qed.

(** ** Folding *)

Lemma fold16_eq x : in_width 32 x → fold16 x = x / 65536 + x mod 65536.
Proof.
  unfold in_width. intros Hx. unfold fold16. rewrite Z.shiftr_land.
  change (0xffff0000 .>> 16) with (Z.ones 16). change 0xffff with (Z.ones 16).
  rewrite !Z.land_ones, Z.shiftr_div_pow2 by lia. change (2 ^ 16) with 65536.
  pose proof (Z.div_mod x 65536 ltac:(lia)). pose proof (Z.mod_pos_bound x 65536 ltac:(lia)).
  rewrite (Z.mod_small (x / 65536)) by lia. apply wrap_small. unfold in_width. lia.
Qed.

Lemma mod_ones_eq a b k : a = b + k * 65535 → a mod 65535 = b mod 65535.
Proof. intros ->. apply Z_mod_plus_full. Qed.

Lemma reduce_spec s : in_width 32 s → let r := __rte_raw_cksum_reduce s in
  0 <= r <= 65535 ∧ r mod 65535 = s mod 65535 ∧ (r = 0 → s = 0).
Proof.
  unfold in_width. intros Hs. unfold __rte_raw_cksum_reduce. rewrite (fold16_eq s) by done.
  pose proof (Z.div_mod s 65536 ltac:(lia)). pose proof (Z.mod_pos_bound s 65536 ltac:(lia)).
  set (q := s / 65536) in *. set (t := q + s mod 65536) in *. assert (0 <= t < 2 * 65536) as Ht by lia.
  rewrite fold16_eq by (unfold in_width; lia).
  pose proof (Z.div_mod t 65536 ltac:(lia)). pose proof (Z.mod_pos_bound t 65536 ltac:(lia)).
  rewrite wrap_small by (unfold in_width; lia). split; [lia|]. split; [|lia].
  apply (mod_ones_eq _ _ (- q - t / 65536)). lia.
Qed.

Lemma finish_spec c : 0 <= c <= 0x1fffe →
  0 <= finish c <= 65535 ∧ (c + finish c) mod 65535 = 0.
Proof.
  intros Hc. assert (∀ x, x .& 0xffff = x mod 65536) as Hones by (intros; by apply (Z.land_ones x 16)).
  unfold finish. rewrite Hones, fold16_eq by (unfold in_width; lia).
  pose proof (Z.div_mod c 65536 ltac:(lia)). pose proof (Z.mod_pos_bound c 65536 ltac:(lia)).
  set (y := c / 65536 + c mod 65536) in *. assert (0 <= y <= 65535) as Hy by lia.
  assert (Z.lnot y mod 65536 = 65535 - y) as ->.
  { replace (Z.lnot y) with (65535 - y + (-1) * 65536) by (unfold Z.lnot; lia).
    rewrite Z_mod_plus_full. apply Z.mod_small. lia. }
  split; [lia|]. replace (c + (65535 - y)) with ((1 + c / 65536) * 65535) by lia. apply Z_mod_mult.
Qed.

(** ** Validity of a stored checksum *)

Lemma le_valid bs : bytes_ok bs → 0 < le_sum bs → le_sum bs mod 65535 = 0 → cksum_valid bs.
Proof.
  intros Hok Hpos Hm. pose proof (le_sum_nonneg _ Hok). split; [lia|].
  rewrite <- sum_byte_order, Z.mul_mod, Hm by lia. done.
Qed.

(** Storing the checksum in the field at [o] of [sub] makes [pre ++ sub] valid,
    if the sum [c] accounts for everything but the old content of the field. *)
Lemma stored_valid pre sub o c : bytes_ok pre → Nat.Even (length pre) → bytes_ok sub →
  Nat.Even o → (o + 2 <= length sub)%nat → 0 <= c <= 0x1fffe →
  let rest := le_sum pre + le_sum sub - le (take 2 (drop o sub)) in
  0 < rest → c mod 65535 = rest mod 65535 →
  cksum_valid (pre ++ put sub o (le_bytes 2 (finish c))).
Proof.
  intros Hpre Hev Hsub Ho Hl Hc rest Hpos Hm.
  destruct (finish_spec c Hc) as [Hf Hz].
  apply le_valid; [by apply Forall_app; split; [|apply put_ok, le_bytes_ok]|..];
    rewrite le_sum_app, le_sum_put, le_le_bytes, wrap_small by (done || (unfold in_width; simpl; lia)).
  - unfold rest in *. lia.
  - replace (le_sum pre + _) with (rest + finish c) by lia.
    by rewrite Z.add_mod, <- Hm, <- Z.add_mod by lia.
Qed.

Lemma cksum_total buf off len : bytes_ok buf → 0 <= off → 0 <= len → off + len <= Z.of_nat (length buf) →
  len <= 131070 → ∃ c, rte_raw_cksum buf off len = Some c ∧
  let s := le_sum (take (Z.to_nat len) (drop (Z.to_nat off) buf)) in
  0 <= c <= 65535 ∧ c mod 65535 = s mod 65535.
Proof.
  intros Hok Ho Hlen Hl Hmax. unfold rte_raw_cksum. rewrite raw_cksum_spec by (done || lia).
  cbn [mbind option_bind]. unfold summed. rewrite Z.add_0_l.
  pose proof (bytes_ok_sub (Z.to_nat len) (Z.to_nat off) _ Hok) as Hs.
  pose proof (le_sum_nonneg _ Hs). pose proof (le_sum_bound _ Hs) as Hb.
  rewrite length_sub in Hb by lia.
  assert ((Z.of_nat (Z.to_nat len) + 1) / 2 < 65536) by (apply Z.div_lt_upper_bound; lia).
  assert (in_width 32 (le_sum (take (Z.to_nat len) (drop (Z.to_nat off) buf)))) as Hw
    by (unfold in_width; lia).
  rewrite wrap_small by done. destruct (reduce_spec _ Hw) as (? & ? & _). by eexists.
Qed.

(** ** Checksums of a packet *)

(** The twelve bytes of the pseudo header of a segment of [len] bytes. *)
Definition pseudo_header (buf : list Z) (ip : nat) (len : Z) : list Z :=
  take 4 (drop (ip + 12) buf) ++ take 4 (drop (ip + 16) buf) ++
  [0; default 0 (buf !! (ip + 9)%nat)] ++ [u8 (len .>> 8); u8 len].

(** C16. The checksum of a TCP or UDP packet whose checksum field holds the sum
    of the pseudo header, as drivers leave it: only the field changes, and a
    receiver accepts the packet. *)
Theorem xsum_l4_valid buf off len (udp : bool) : bytes_ok buf → 0 <= off → 18 <= len <= 131070 →
  off + len <= Z.of_nat (length buf) →
  let o := if udp then 6%nat else 16%nat in
  let sub b := take (Z.to_nat len) (drop (Z.to_nat off) b) in
  ∃ buf', (if udp then xsum_udp buf off len else xsum_tcp buf off len) = Some buf' ∧
    length buf' = length buf ∧
    (∀ i, (i < Z.to_nat off + o ∨ Z.to_nat off + o + 2 <= i)%nat → buf' !! i = buf !! i) ∧
    ∀ pre, bytes_ok pre → Nat.Even (length pre) → 0 < le_sum pre →
      le_sum pre mod 65535 = le (take 2 (drop o (sub buf))) mod 65535 →
      cksum_valid (pre ++ sub buf').
Proof.
  intros Hok Ho Hlen Hl o sub.
  destruct (cksum_total buf off len) as (c & Ec & Hc & Hm); [done|lia..|].
  assert (Nat.Even o ∧ (o <= 16)%nat) as [He Ho16] by (destruct udp; split; try lia; [by exists 3%nat|by exists 8%nat]).
  assert ((if udp then xsum_udp buf off len else xsum_tcp buf off len)
    = Some (put buf (Z.to_nat off + o) (le_bytes 2 (finish c)))) as ->.
  { unfold xsum_udp, xsum_tcp. rewrite Ec. cbn [mbind option_bind].
    destruct udp; rewrite store_in by lia; do 2 f_equal; subst o; lia. }
  eexists. split; [done|].
  split; [by rewrite length_put by (rewrite length_le_bytes; lia)|]. split.
  - intros i Hi. rewrite lookup_put by (rewrite length_le_bytes; lia).
    rewrite length_le_bytes. by rewrite bool_decide_false by lia.
  - intros pre Hpre Hev Hpos Hfield. unfold sub.
    rewrite sub_put_in by (rewrite ?length_le_bytes; lia).
    replace (Z.to_nat off + o - Z.to_nat off)%nat with o by lia.
    assert (length (sub buf) = Z.to_nat len) as Hsl by (apply length_sub; lia).
    assert (bytes_ok (sub buf)) as Hsok by (by apply bytes_ok_sub).
    change (take (Z.to_nat len) (drop (Z.to_nat off) buf)) with (sub buf) in *.
    clearbody sub. apply stored_valid; try done || lia.
    + pose proof (le_sum_drop_word (sub buf) o Hsok He ltac:(lia)). lia.
    + rewrite Hm, Zminus_mod, (Z.add_mod (le_sum pre)), Hfield, <- Z.add_mod, <- Zminus_mod by lia.
      f_equal. lia.
Qed.

(** The sum that [rte_ipv4_phdr_cksum] computes: the length in the pseudo header
    is the total length minus the twenty bytes of a header without options. *)
Lemma phdr_total buf ip total : bytes_ok buf → 0 <= ip → ip + 20 <= Z.of_nat (length buf) →
  20 <= total < 65536 → take 2 (drop (Z.to_nat ip + 2) buf) = [u8 (total .>> 8); u8 total] →
  ∃ c, rte_ipv4_phdr_cksum buf ip = Some c ∧ 0 <= c <= 65535 ∧
    c mod 65535 = le_sum (pseudo_header buf (Z.to_nat ip) (total - 20)) mod 65535.
Proof.
  intros Hok Hip Hl Ht Hf. unfold rte_ipv4_phdr_cksum. rewrite !load_take by lia.
  destruct (rd_in_range buf (ip + 9)) as [proto Ep]; [lia|]. rewrite Ep. cbn [mbind option_bind].
  rewrite !Z2Nat.inj_add by lia. change (Z.to_nat 12) with 12%nat. change (Z.to_nat 16) with 16%nat.
  change (Z.to_nat 2) with 2%nat. rewrite Hf.
  assert (bswap16 (le [u8 (total .>> 8); u8 total]) = total) as ->.
  { rewrite ntohs_be by (done || (repeat constructor; by apply wrap_width)). unfold be. simpl.
    rewrite Z.add_0_r. unfold wrap. rewrite Z.shiftr_div_pow2 by lia. change (2 ^ 8) with 256.
    pose proof (Z.div_mod total 256 ltac:(lia)). rewrite (Z.mod_small (total / 256)); [lia|].
    split; [apply Z.div_pos; lia|apply Z.div_lt_upper_bound; lia]. }
  rewrite (wrap_small 16) by (unfold in_width, IPV4_HDR; lia).
  assert (le_bytes 4 (le (take 4 (drop (Z.to_nat ip + 12) buf))) ++
    le_bytes 4 (le (take 4 (drop (Z.to_nat ip + 16) buf))) ++ [0; proto] ++
    le_bytes 2 (bswap16 (total - IPV4_HDR)) = pseudo_header buf (Z.to_nat ip) (total - 20)) as ->.
  { unfold pseudo_header. rewrite htons_bytes, !le_bytes_le by (by apply bytes_ok_sub || (by rewrite length_sub by lia)).
    unfold rd in Ep. rewrite (proj2 (Z.leb_le _ _)) in Ep by lia.
    rewrite Z2Nat.inj_add in Ep by lia. change (Z.to_nat 9) with 9%nat in Ep. by rewrite Ep. }
  assert (length (pseudo_header buf (Z.to_nat ip) (total - 20)) = 12%nat) as Hpl
    by (unfold pseudo_header; rewrite !length_app, !length_sub by lia; done).
  destruct (cksum_total (pseudo_header buf (Z.to_nat ip) (total - 20)) 0 12) as (c & -> & Hc & Hm);
    [|lia..|].
  { unfold pseudo_header. rewrite !Forall_app. split_and!; try (by apply bytes_ok_sub).
    - apply Forall_cons_2; [done|]. apply Forall_cons_2; [|constructor].
      destruct (buf !! _) eqn:Eb; [|done]. by eapply Forall_lookup_1.
    - repeat constructor; by apply wrap_width. }
  exists c. split; [done|]. split; [done|]. rewrite Hm. f_equal. f_equal.
  rewrite drop_0. by rewrite take_ge by lia.
Qed.

(** Clearing the checksum field at [o], summing [len] bytes from [off] on and
    storing the complement together with the sum [e] of a pseudo header [pre]. *)
Lemma cksum_field b off len o : bytes_ok b → 0 <= off → Nat.Even o → Z.of_nat o + 2 <= len →
  off + len <= Z.of_nat (length b) → len <= 131070 →
  let at_o := (Z.to_nat off + o)%nat in
  let sub b := take (Z.to_nat len) (drop (Z.to_nat off) b) in
  let b0 := put b at_o (le_bytes 2 0) in
  store 2 b (off + Z.of_nat o) 0 = Some b0 ∧ bytes_ok b0 ∧ length b0 = length b ∧
  ∃ c, rte_raw_cksum b0 off len = Some c ∧
    ∀ e pre, 0 <= e <= 65535 → bytes_ok pre → Nat.Even (length pre) →
      e mod 65535 = le_sum pre mod 65535 → 0 < le_sum pre + le_sum (sub b0) →
      let b' := put b at_o (le_bytes 2 (finish (c + e))) in
      store 2 b0 (off + Z.of_nat o) (finish (c + e)) = Some b' ∧ bytes_ok b' ∧
      length b' = length b ∧ cksum_valid (pre ++ sub b').
Proof.
  intros Hok Hoff He Ho Hl Hmax at_o sub b0.
  assert (Z.to_nat (off + Z.of_nat o) = at_o) as Eo by lia.
  assert (∀ v, length (put b at_o (le_bytes 2 v)) = length b) as Hlen
    by (intros; apply length_put; rewrite length_le_bytes; lia).
  assert (∀ v, bytes_ok (put b at_o (le_bytes 2 v))) as Hbok by (intros; by apply put_ok, le_bytes_ok).
  assert (∀ v w, put (put b at_o (le_bytes 2 v)) at_o (le_bytes 2 w) = put b at_o (le_bytes 2 w)) as Hpp
    by (intros; apply put_put; rewrite ?length_le_bytes; [done|lia]).
  assert (∀ v, sub (put b at_o (le_bytes 2 v)) = put (sub b) o (le_bytes 2 v)) as Hsub.
  { intros v. unfold sub. rewrite sub_put_in by (rewrite ?length_le_bytes; lia). f_equal. lia. }
  split; [by rewrite store_in, Eo by lia|]. split; [apply Hbok|]. split; [apply Hlen|].
  destruct (cksum_total b0 off len) as (c & Ec & Hc & Hm); [apply Hbok|lia|lia|unfold b0; rewrite Hlen; lia|lia|].
  exists c. split; [done|]. intros e pre Hre Hpre Hev Hem Hpos b'.
  split; [unfold b0; by rewrite store_in, Eo, Hpp by (rewrite ?Hlen; lia)|]. split; [apply Hbok|]. split; [apply Hlen|].
  assert (length (sub b) = Z.to_nat len) as Hsl by (apply length_sub; lia).
  assert (sub b' = put (sub b0) o (le_bytes 2 (finish (c + e)))) as ->.
  { unfold b', b0. rewrite !Hsub. rewrite put_put by (rewrite ?length_le_bytes; lia || done). done. }
  assert (length (sub b0) = Z.to_nat len) as Hsl0 by (apply length_sub; unfold b0; rewrite Hlen; lia).
  assert (le (take 2 (drop o (sub b0))) = 0) as Hz.
  { unfold b0. rewrite Hsub. by rewrite sub_put_eq by (done || lia). }
  apply stored_valid; try done || lia; [by apply bytes_ok_sub, Hbok|].
  rewrite Hz, Z.sub_0_r, Z.add_mod, Hem, Hm, <- Z.add_mod by lia. f_equal. apply Z.add_comm.
Qed.

(** Parts of the packet that a change behind the IP header leaves alone. *)
Lemma pseudo_header_put b o w i len : (i + 20 <= o)%nat → (o + length w <= length b)%nat →
  pseudo_header (put b o w) i len = pseudo_header b i len.
Proof.
  intros Hi Hl. unfold pseudo_header. rewrite !sub_put_out by lia.
  by rewrite lookup_put, bool_decide_false by lia.
Qed.

Lemma pseudo_header_props b i len : bytes_ok b → (i + 20 <= length b)%nat → 0 < len < 65536 →
  bytes_ok (pseudo_header b i len) ∧ length (pseudo_header b i len) = 12%nat ∧
  0 < le_sum (pseudo_header b i len).
Proof.
  intros Hok Hl Hlen. assert (bytes_ok (pseudo_header b i len)) as Hp.
  { unfold pseudo_header. rewrite !Forall_app. split_and!; try (by apply bytes_ok_sub).
    - apply Forall_cons_2; [done|]. apply Forall_cons_2; [|constructor].
      destruct (b !! _) eqn:Eb; [|done]. by eapply Forall_lookup_1.
    - repeat constructor; by apply wrap_width. }
  split; [done|]. split; [unfold pseudo_header; by rewrite !length_app, !length_sub by lia|].
  unfold pseudo_header in *. rewrite !Forall_app in Hp. destruct Hp as (H1 & H2 & H3 & _).
  rewrite !le_sum_app by (rewrite ?length_sub by lia; (by exists 2%nat) || (by exists 1%nat)).
  pose proof (le_sum_nonneg _ H1). pose proof (le_sum_nonneg _ H2). pose proof (le_sum_nonneg _ H3).
  cbn [le_sum] in *. unfold wrap. rewrite Z.shiftr_div_pow2 by lia. change (2 ^ 8) with 256.
  pose proof (Z.div_mod len 256 ltac:(lia)). pose proof (Z.mod_pos_bound len 256 ltac:(lia)).
  rewrite (Z.mod_small (len / 256)) by lia. lia.
Qed.

(** The length in the pseudo header enters its sum in network order. *)
Lemma pseudo_header_len b i len k xs : (i + 20 <= length b)%nat → 0 <= len → 0 <= k →
  len + k < 65536 →
  be_sum (pseudo_header b i (len + k) ++ xs) = be_sum (pseudo_header b i len ++ xs) + k.
Proof.
  intros Hl H0 Hk Hm. unfold pseudo_header. rewrite <- !app_assoc.
  assert (length (take 4 (drop (i + 12) b)) = 4%nat) as L1 by (apply length_sub; lia).
  assert (length (take 4 (drop (i + 16) b)) = 4%nat) as L2 by (apply length_sub; lia).
  destruct (take 4 (drop (i + 12) b)) as [|? [|? [|? [|? [|]]]]]; try done.
  destruct (take 4 (drop (i + 16) b)) as [|? [|? [|? [|? [|]]]]]; try done.
  cbn [app be_sum]. unfold wrap. rewrite !Z.shiftr_div_pow2 by lia. change (2 ^ 8) with 256.
  pose proof (Z.div_mod len 256 ltac:(lia)). pose proof (Z.mod_pos_bound len 256 ltac:(lia)).
  pose proof (Z.div_mod (len + k) 256 ltac:(lia)). pose proof (Z.mod_pos_bound (len + k) 256 ltac:(lia)).
  rewrite !(Z.mod_small (_ / 256)) by lia. lia.
Qed.

(** With a length that is [k] too high a valid checksum is wrong for the right
    length. *)
Lemma pseudo_header_options b i len k xs : (i + 20 <= length b)%nat → 0 <= len → 0 <= k < 65535 →
  len + k < 65536 → cksum_valid (pseudo_header b i (len + k) ++ xs) →
  cksum_valid (pseudo_header b i len ++ xs) ↔ k = 0.
Proof.
  intros Hl H0 Hk Hm [Vp Vm]. rewrite pseudo_header_len in Vp, Vm by lia.
  unfold cksum_valid. split; [|intros ->; by rewrite Z.add_0_r in Vp, Vm].
  intros [Hp Hm']. rewrite Z.add_mod, Hm', Z.add_0_l, Z.mod_mod in Vm by lia.
  rewrite Z.mod_small in Vm by lia. lia.
Qed.

(** A header with a positive total length has a positive sum. *)
Lemma field_pos b n i o total : bytes_ok b → 0 < total < 65536 → (i <= o)%nat → Nat.Even (o - i) →
  (o + 2 <= i + n)%nat → (i + n <= length b)%nat →
  take 2 (drop o b) = [u8 (total .>> 8); u8 total] → 0 < le_sum (take n (drop i b)).
Proof.
  intros Hok Ht Hio He Ho Hl Hf.
  pose proof (le_sum_drop_word (take n (drop i b)) (o - i) (bytes_ok_sub n i _ Hok) He
    ltac:(rewrite length_sub; lia)) as Hd.
  rewrite sub_sub in Hd by lia. replace (i + (o - i))%nat with o in Hd by lia.
  rewrite Hf in Hd. cbn [le] in Hd. unfold wrap in Hd. rewrite Z.shiftr_div_pow2 in Hd by lia.
  change (2 ^ 8) with 256 in Hd.
  pose proof (Z.div_mod total 256 ltac:(lia)). pose proof (Z.mod_pos_bound total 256 ltac:(lia)).
  rewrite (Z.mod_small (total / 256)) in Hd by lia. lia.
Qed.

Lemma be_u16 x : 0 <= x < 65536 → be [u8 (x .>> 8); u8 x] = x.
Proof.
  intros Hx. unfold be. simpl. rewrite Z.add_0_r. unfold wrap. rewrite Z.shiftr_div_pow2 by lia.
  change (2 ^ 8) with 256. pose proof (Z.div_mod x 256 ltac:(lia)).
  pose proof (Z.mod_pos_bound x 256 ltac:(lia)). rewrite (Z.mod_small (x / 256)) by lia. lia.
Qed.

(** Checksums of a TCP segment: for a header of [iplen] bytes the total
    length is stored, a receiver accepts the IP header, and nothing but the three
    fields changes; a receiver accepts the TCP checksum exactly when the IP
    header has no options. *)
Lemma tso_checksums buf ip iplen l4len paylen : bytes_ok buf → 0 <= ip → 20 <= iplen <= 255 →
  18 <= l4len → 0 <= paylen → iplen + l4len + paylen < 65536 →
  ip + iplen + l4len + paylen <= Z.of_nat (length buf) →
  let i := Z.to_nat ip in let t := Z.to_nat (ip + iplen) in let n := Z.to_nat (l4len + paylen) in
  ∃ buf', xsum_tcpip_tso buf ip iplen l4len paylen = Some buf' ∧ bytes_ok buf' ∧
    length buf' = length buf ∧
    be (take 2 (drop (i + 2) buf')) = iplen + l4len + paylen ∧
    (∀ j, j ∉ [i + 2; i + 3; i + 10; i + 11; t + 16; t + 17]%nat → buf' !! j = buf !! j) ∧
    cksum_valid (take (Z.to_nat iplen) (drop i buf')) ∧
    (cksum_valid (pseudo_header buf' i (l4len + paylen) ++ take n (drop t buf')) ↔ iplen = 20).
Proof.
  intros Hok Hip Hil Hl4 Hpay Hmax Hl i t n. unfold xsum_tcpip_tso.
  rewrite (wrap_small 16) by (unfold in_width; lia). set (total := iplen + l4len + paylen) in *.
  rewrite store_in by lia. cbn [mbind option_bind].
  replace (Z.to_nat (ip + 2)) with (i + 2)%nat by lia. rewrite htons_bytes.
  set (b1 := put buf (i + 2) [u8 (total .>> 8); u8 total]).
  assert (length b1 = length buf) as L1 by (apply length_put; simpl; lia).
  assert (bytes_ok b1) as K1 by (apply put_ok; [done|]; repeat constructor; by apply wrap_width).
  assert (take 2 (drop (i + 2) b1) = [u8 (total .>> 8); u8 total]) as F1
    by (apply sub_put_eq; [done|lia]).
  pose proof (cksum_field b1 ip iplen 10) as H1. change (Z.of_nat 10) with 10 in H1.
  destruct H1 as (-> & K2 & L2 & c1 & E1 & S1); [done|lia|by exists 5%nat|lia..|].
  cbn [mbind option_bind]. rewrite E1. cbn [mbind option_bind].
  destruct (S1 0 []) as (E2 & K3 & L3 & V1); [lia|done|by exists 0%nat|done| |].
  { cbn [le_sum]. rewrite Z.add_0_l. apply (field_pos _ _ i (i + 2) total); try done || lia;
      [replace (i + 2 - i)%nat with 2%nat by lia; by exists 1%nat|].
    by rewrite sub_put_out by (simpl; lia). }
  rewrite Z.add_0_r in E2, K3, L3, V1. rewrite E2. cbn [mbind option_bind].
  clear S1 E1 E2 K2 L2. fold i in V1, K3, L3 |- *.
  set (b3 := put b1 (i + 10) (le_bytes 2 (finish c1))) in *.
  assert (take 2 (drop (i + 2) b3) = [u8 (total .>> 8); u8 total]) as F3
    by (unfold b3; by rewrite sub_put_out by (simpl; lia)).
  pose proof (cksum_field b3 (ip + iplen) (l4len + paylen) 16) as H2. change (Z.of_nat 16) with 16 in H2.
  destruct H2 as (-> & K4 & L4 & c2 & E3 & S2); [done|lia|by exists 8%nat|lia..|].
  cbn [mbind option_bind]. rewrite E3. cbn [mbind option_bind]. fold t n in K4, L4, S2 |- *.
  set (b4 := put b3 (t + 16) (le_bytes 2 0)) in *.
  destruct (phdr_total b4 ip total) as (ph & -> & Hph & Hmp);
    [done|lia|lia|lia|unfold b4; by rewrite sub_put_out by (simpl; lia)|].
  cbn [mbind option_bind]. fold i in Hmp.
  unfold b4 in Hmp at 1. rewrite pseudo_header_put in Hmp by (simpl; lia).
  destruct (pseudo_header_props b3 i (total - 20)) as (Pok & Plen & Ppos); [done|lia|lia|].
  destruct (S2 ph (pseudo_header b3 i (total - 20))) as (-> & K5 & L5 & V2);
    [done|done|rewrite Plen; by exists 6%nat|done| |].
  { pose proof (le_sum_nonneg _ (bytes_ok_sub n t _ K4)). lia. }
  eexists. split; [done|]. split; [done|]. split; [lia|].
  set (w := le_bytes 2 (finish (c2 + ph))) in *.
  assert (length w = 2%nat) as Lw by apply length_le_bytes.
  split; [rewrite sub_put_out, F3 by lia; by apply be_u16; lia|]. split.
  { intros j Hj. rewrite !not_elem_of_cons in Hj. rewrite lookup_put_ne by lia. unfold b3.
    rewrite lookup_put_ne by (simpl; lia). unfold b1. by rewrite lookup_put_ne by (simpl; lia). }
  split; [by rewrite sub_put_out by lia|].
  rewrite pseudo_header_put by lia. replace (total - 20) with (l4len + paylen + (iplen - 20)) in V2 by lia.
  rewrite (pseudo_header_options b3 i (l4len + paylen) (iplen - 20)) by (done || lia). lia.
Qed.

(** ** A concrete segment *)

Definition demo_frame : list Z :=
  replicate 14 0 ++
  [0x45; 0; 0; 0; 0x12; 0x34; 0x40; 0; 64; 6; 0; 0; 192; 168; 0; 1; 192; 168; 0; 2] ++
  [0; 80; 0x10; 1; 0; 0; 0; 7; 0; 0; 0; 9; 0x50; 0x18; 0xff; 0xff; 0; 0; 0; 0] ++
  [104; 101; 108; 108; 111].

(** The driver's sum of the pseudo header, in the checksum field. *)
Definition demo_l4 : list Z := put demo_frame 50 [0x81; 0x73].

Lemma xsum_l4_valid_witness :
  ∃ buf', xsum_tcp demo_l4 34 25 = Some buf' ∧
    cksum_valid (pseudo_header demo_l4 14 25 ++ take 25 (drop 34 buf')).
Proof.
  destruct (xsum_l4_valid demo_l4 34 25 false) as (buf' & Eq & _ & _ & Hv);
    [by apply bytes_ok_check|lia..|by vm_compute|].
  exists buf'. split; [done|].
  apply (Hv (pseudo_header demo_l4 14 25)); [by apply bytes_ok_check|by exists 6%nat|done|].
  vm_compute. reflexivity.
Defined.
