(* ===== verification/E810Tx.v ===== *)
(** * Transmission

    The transmit side of e810_lan.cc: [lan_queue_tx::trigger_tx_packet] and
    [trigger_tx], which turn the queue of fetched descriptors into packets, with
    checksum insertion and TCP segmentation.  The network driver below is the
    class [TxDriver]. *)
From S2P Require Import Prelude Bytes E810Base E810Xsum.
Local Open Scope Z_scope.

(** ** Descriptors *)

(** A descriptor whose data has been fetched; [pos] is its place in the queue. *)
Record tx_desc_ctx := mkTxDesc { pos : Z; qw1 : Z; data : list Z }.

Definition ICE_TX_DESC_DTYPE_DATA : Z := 0.
Definition ICE_TX_DESC_DTYPE_CTX : Z := 1.
Definition ICE_TX_CTX_DESC_TSO : Z := 1.
Definition ICE_TX_DESC_CMD_EOP : Z := 1.
Definition ICE_TX_DESC_CMD_L4T_EOFT_TCP : Z := 0x100.
Definition ICE_TX_DESC_CMD_L4T_EOFT_UDP : Z := 0x300.
Definition MTU : Z := 9024.

Definition dtype (d1 : Z) : Z := d1 .& 0xF.
Definition ctx_cmd (d1 : Z) : Z := (d1 .& 0x7F0) .>> 4.
Definition ctx_mss (d1 : Z) : Z := (d1 .& (0x3FFF .<< 50)) .>> 50.
Definition desc_cmd (d1 : Z) : Z := (d1 .& 0xFFF0) .>> 4.
Definition desc_off (d1 : Z) : Z := (d1 .& (0x3FFFF .<< 16)) .>> 16.
(** The length of a buffer as the scan for the end of the packet computes it, and
    as the other places do. *)
Definition buf_sz (d1 : Z) : Z := (d1 .>> 34) .& 0x3FFF.
Definition buf_sz16 (d1 : Z) : Z := u16 (d1 .>> 34).

(** The length fields of the last descriptor. *)
Record tx_lens := mkLens { l4t : Z; maclen : Z; iplen : Z; l4len : Z }.
Definition lens_of (d1 : Z) : tx_lens :=
  let off := desc_off d1 in
  mkLens (desc_cmd d1 .& ICE_TX_DESC_CMD_L4T_EOFT_UDP)
    (((off .& 0x7F) .>> 0) * 2) (((off .& 0x3F80) .>> 7) * 4) (((off .& 0x3C000) .>> 14) * 4).

(** ** The queue *)

Record lan_queue_tx := mkTxq {
  pktbuf : list Z; tso_off : Z; tso_len : Z; ready_segments : list tx_desc_ctx
}.

#[export] Instance txq_settable : Settable lan_queue_tx := fun r =>
  mkTxq (pktbuf r) (tso_off r) (tso_len r) (ready_segments r).

(** The driver: sending a packet, and handing one buffer of a packet to the
    hardware for segmentation. *)
Record tso_args := mkTso { tso_l2 : Z; tso_l3 : Z; tso_l4 : Z; tso_segsz : Z }.

Class TxDriver (D : Type) := {
  eth_send : list Z → D → D;
  eth_send_tso : list Z → bool → tso_args → D → bool * D
}.

Section tx.
Context {D : Type} `{TxDriver D}.

(** The search for the end of the packet: the number of descriptors up to it, the
    total length and the fields of the last descriptor. *)
Fixpoint find_eop (segs : list tx_desc_ctx) (dcnt : nat) (total_len : Z)
    : result (option (nat * Z * tx_lens)) :=
  match segs with
  | [] => mret None
  | rd :: segs' =>
      let d1 := qw1 rd in
      if negb (dtype d1 =? ICE_TX_DESC_DTYPE_DATA) then Abort
      else
        let total_len := u32 (total_len + buf_sz d1) in
        if nz (desc_cmd d1 .& ICE_TX_DESC_CMD_EOP)
        then mret (Some (S dcnt, total_len, lens_of d1))
        else find_eop segs' (S dcnt) total_len
  end.

(** Hand all buffers to the hardware; whether it took them. *)
Fixpoint hw_tso (segs : list tx_desc_ctx) (a : tso_args) (d : D) : result (bool * D) :=
  match segs with
  | [] => mret (true, d)
  | rd :: segs' =>
      bytes ← of_opt (bytes_at (Z.to_nat (buf_sz16 (qw1 rd))) (data rd) 0);
      let '(ok, d) := eth_send_tso bytes (bool_decide (segs' = [])) a d in
      if ok : bool then hw_tso segs' a d else mret (false, d)
  end.

(** Mark the first [n] descriptors as processed: their positions and the queue. *)
Definition finish_unit (n : nat) (q : lan_queue_tx) : list Z * lan_queue_tx :=
  (pos <$> take n (ready_segments q), q <| ready_segments := drop n (ready_segments q) |>).

(** The copying loop: the number of descriptors it passed and the queue. *)
Fixpoint copy_loop (segs : list tx_desc_ctx) (dcnt : nat) (off data_limit : Z) (q : lan_queue_tx)
    : result (nat * lan_queue_tx) :=
  match segs with
  | [] => mret (dcnt, q)
  | rd :: segs' =>
      if off <? data_limit then
        let pkt_len := buf_sz16 (qw1 rd) in
        q ← (if (off <=? tso_off q) && (tso_off q <? u32 (off + pkt_len)) then
               let start := tso_off q in
               let end_ := Z.min (u32 (off + pkt_len)) data_limit in
               bytes ← of_opt (bytes_at (Z.to_nat (end_ - start)) (data rd) (start - off));
               buf ← of_opt (put_bytes (pktbuf q) (tso_len q) bytes);
               mret (q <| pktbuf := buf |> <| tso_off := end_ |>
                       <| tso_len := u32 (tso_len q + (end_ - start)) |>)
             else mret q);
        copy_loop segs' (S dcnt) (u32 (off + pkt_len)) data_limit q
      else mret (dcnt, q)
  end.

(** A packet without segmentation: checksum and sending. *)
Definition send_plain (l : tx_lens) (q : lan_queue_tx) (d : D) : result (lan_queue_tx * D) :=
  let l4_off := u16 (maclen l + iplen l) in
  let l4_len := u32 (tso_len q - l4_off) in
  buf ← (if l4t l =? ICE_TX_DESC_CMD_L4T_EOFT_TCP
         then of_opt (xsum_tcp (pktbuf q) l4_off l4_len)
         else if l4t l =? ICE_TX_DESC_CMD_L4T_EOFT_UDP
         then of_opt (xsum_udp (pktbuf q) l4_off l4_len)
         else mret (pktbuf q));
  pkt ← of_opt (bytes_at (Z.to_nat (tso_len q)) buf 0);
  mret (q <| pktbuf := buf |>, eth_send pkt d).

(** One segment: checksums, sending, and the headers of the next one. *)
Definition send_segment (l : tx_lens) (tso_mss : Z) (q : lan_queue_tx) (d : D)
    : result (lan_queue_tx * D) :=
  let hdrlen := u16 (maclen l + iplen l + l4len l) in
  let tso_paylen := Z.min (u32 (tso_len q - hdrlen)) tso_mss in
  buf ← of_opt (xsum_tcpip_tso (pktbuf q) (maclen l) (u8 (iplen l)) (u8 (l4len l)) (u16 tso_paylen));
  pkt ← of_opt (bytes_at (Z.to_nat (tso_len q)) buf 0);
  buf ← of_opt (tso_postupdate_header buf (maclen l) (u8 (iplen l)) (u8 (l4len l)) (u16 tso_paylen));
  mret (q <| pktbuf := buf |>, eth_send pkt d).

(** The result, the positions of the processed descriptors, the queue and the
    driver. *)
Definition trigger_tx_packet (q : lan_queue_tx) (d : D)
    : result (bool * list Z * lan_queue_tx * D) :=
  match ready_segments q with
  | [] => mret (false, [], q, d)
  | rd :: _ =>
      let ctx := dtype (qw1 rd) =? ICE_TX_DESC_DTYPE_CTX in
      let tso := ctx && nz (ctx_cmd (qw1 rd) .& ICE_TX_CTX_DESC_TSO) in
      let tso_mss := if ctx then ctx_mss (qw1 rd) else 0 in
      let d_skip := if ctx then 1%nat else 0%nat in
      let segs := drop d_skip (ready_segments q) in
      unit_ ← find_eop segs d_skip 0;
      match unit_ with
      | None => mret (false, [], q, d)
      | Some (dcnt, total_len, l) =>
          if negb tso && (MTU <? total_len) then Abort
          else
            let data_limit :=
              if tso then
                Z.min total_len
                  (u32 (if tso_off q =? 0 then maclen l + iplen l + l4len l + tso_mss
                        else tso_off q + tso_mss))
              else total_len in
            '(hw, d) ← (if tso && (tso_len q =? 0) && (tso_off q =? 0)
                        then hw_tso (take (dcnt - d_skip) segs)
                               (mkTso (maclen l) (iplen l) (l4len l) tso_mss) d
                        else mret (false, d));
            if hw : bool then
              let '(done, q) := finish_unit dcnt q in mret (true, done, q, d)
            else
              '(dcnt, q) ← copy_loop segs d_skip 0 data_limit q;
              if MTU <? tso_len q then Abort
              else
                '(q, d) ← (if tso then send_segment l tso_mss q d else send_plain l q d);
                if tso && (tso_off q <? total_len) then
                  mret (true, [], q <| tso_len := u16 (maclen l + iplen l + l4len l) |>, d)
                else
                  let '(done, q) := finish_unit dcnt q in
                  mret (true, done, q <| tso_len := 0 |> <| tso_off := 0 |>, d)
      end
  end.

(** [while (trigger_tx_packet())], with at most [fuel] packets; [None] when that
    is not enough. *)
Fixpoint trigger_tx (fuel : nat) (q : lan_queue_tx) (d : D)
    : result (option (list Z * lan_queue_tx * D)) :=
  match fuel with
  | O => mret None
  | S fuel' =>
      '(again, done, q, d) ← trigger_tx_packet q d;
      if again : bool then
        r ← trigger_tx fuel' q d;
        mret ((fun '(done', q, d) => (done ++ done', q, d)) <$> r)
      else mret (Some (done, q, d))
  end.

End tx.
