(* ===== verification/E810TxSpec.v ===== *)
(** * Transmission: what is sent

    The units of descriptors that a driver posts, and the packets that
    [trigger_tx] makes of them: the bytes of a plain unit with their checksum, or
    the segments of a TCP segmentation unit. *)
From S2P Require Import Prelude Bytes E810Base E810Xsum E810Tx.
Local Open Scope Z_scope.

(** ** Units *)

(** A data descriptor with its data fetched: the two ways in which the code
    computes the length of the buffer agree. *)
Definition data_desc (rd : tx_desc_ctx) : Prop :=
  dtype (qw1 rd) = ICE_TX_DESC_DTYPE_DATA ∧ buf_sz (qw1 rd) = Z.of_nat (length (data rd)) ∧
  buf_sz16 (qw1 rd) = Z.of_nat (length (data rd)).

Definition is_eop (rd : tx_desc_ctx) : bool := nz (desc_cmd (qw1 rd) .& ICE_TX_DESC_CMD_EOP).

Definition seg_bytes (segs : list tx_desc_ctx) : list Z := concat (data <$> segs).

Lemma seg_bytes_cons rd segs : seg_bytes (rd :: segs) = data rd ++ seg_bytes segs.
Proof. done. Qed.

Lemma seg_bytes_snoc segs rd : seg_bytes (segs ++ [rd]) = seg_bytes segs ++ data rd.
Proof. unfold seg_bytes. rewrite fmap_app, concat_app. cbn. by rewrite app_nil_r. Qed.

(** The data descriptors of one packet: the last one ends the packet and is not
    empty. *)
Record tx_unit (segs : list tx_desc_ctx) (l : tx_lens) : Prop := {
  unit_data : Forall data_desc segs;
  unit_ends : ∃ init lst, segs = init ++ [lst] ∧ is_eop lst = true ∧
    Forall (fun rd => is_eop rd = false) init ∧ data lst ≠ [] ∧ l = lens_of (qw1 lst);
  unit_bytes : bytes_ok (seg_bytes segs);
  unit_len : in_width 32 (Z.of_nat (length (seg_bytes segs)))
}.

Lemma lens_bounds d1 : let l := lens_of d1 in
  0 <= maclen l <= 254 ∧ 0 <= iplen l <= 508 ∧ 0 <= l4len l <= 60.
Proof.
  assert (∀ x k n mask, 0 <= k → 0 <= n → mask .>> k = Z.ones n → 0 <= (x .& mask) .>> k <= 2 ^ n - 1) as Hf.
  { intros x k n mask Hk Hn Hm. rewrite Z.shiftr_land, Hm, Z.land_ones by done.
    pose proof (Z.mod_pos_bound (x .>> k) (2 ^ n) ltac:(lia)). lia. }
  unfold lens_of. cbn [maclen iplen l4len].
  pose proof (Hf (desc_off d1) 0 7 0x7F ltac:(done) ltac:(done) eq_refl).
  pose proof (Hf (desc_off d1) 7 7 0x3F80 ltac:(done) ltac:(done) eq_refl).
  pose proof (Hf (desc_off d1) 14 4 0x3C000 ltac:(done) ltac:(done) eq_refl). lia.
Qed.

Lemma unit_lens segs l : tx_unit segs l →
  0 <= maclen l <= 254 ∧ 0 <= iplen l <= 508 ∧ 0 <= l4len l <= 60.
Proof. intros [_ (? & lst & _ & _ & _ & _ & ->) _ _]. apply (lens_bounds (qw1 lst)). Qed.

Lemma unit_nonempty segs l : tx_unit segs l → 0 < Z.of_nat (length (seg_bytes segs)).
Proof.
  intros [_ (init & lst & -> & _ & _ & Hne & _) _ _]. rewrite seg_bytes_snoc, length_app.
  destruct (data lst); [done|simpl; lia].
Qed.

(** The last of the descriptors holds data. *)
Definition last_full (segs : list tx_desc_ctx) : Prop := ∀ rd, list.last segs = Some rd → data rd ≠ [].

Lemma last_full_cons rd segs : last_full (rd :: segs) → last_full segs.
Proof. unfold last_full. destruct segs; [done|]. intros Hl rd' Hrd. by apply Hl. Qed.

Lemma last_full_bytes rd segs : last_full (rd :: segs) → seg_bytes (rd :: segs) ≠ [].
Proof.
  intros Hl E. destruct (list.last (rd :: segs)) as [x|] eqn:Ex; [|by apply last_None in Ex].
  apply (Hl x Ex). apply last_Some in Ex as [l' El]. rewrite El, seg_bytes_snoc in E.
  by apply app_nil in E as [_ E].
Qed.

Lemma unit_last_full segs l : tx_unit segs l → last_full segs.
Proof.
  intros [_ (init & lst & -> & _ & _ & Hne & _) _ _] rd. rewrite last_snoc. by intros [= <-].
Qed.

(** ** The search for the end of the packet *)

Lemma find_eop_init init segs n t : Forall data_desc init →
  Forall (fun rd => is_eop rd = false) init →
  find_eop (init ++ segs) n t =
  find_eop segs (n + length init)%nat (foldl (fun t rd => u32 (t + Z.of_nat (length (data rd)))) t init).
Proof.
  intros Hd. revert n t. induction Hd as [|rd init (Hdt & Hsz & _) Hd IH]; intros n t Heop; simpl.
  { by rewrite Nat.add_0_r. }
  apply Forall_cons_1 in Heop as [He Heop]. unfold is_eop in He.
  rewrite Hdt, He, Hsz. simpl. rewrite IH by done. f_equal. lia.
Qed.

Lemma u32_add_r a b : u32 (a + u32 b) = u32 (a + b).
Proof. unfold wrap. by rewrite Zplus_mod_idemp_r. Qed.

Lemma foldl_lens init t :
  u32 (foldl (fun t rd => u32 (t + Z.of_nat (length (data rd)))) t init) =
  u32 (t + Z.of_nat (length (seg_bytes init))).
Proof.
  revert t. induction init as [|rd init IH]; intros t; simpl; [by rewrite Z.add_0_r|].
  rewrite IH, u32_add_l, seg_bytes_cons, length_app. f_equal. lia.
Qed.

Lemma find_eop_unit segs l rest n : tx_unit segs l →
  find_eop (segs ++ rest) n 0 =
  Ok (Some ((n + length segs)%nat, Z.of_nat (length (seg_bytes segs)), l)).
Proof.
  intros [Hd (init & lst & -> & Heop & Hne & _ & ->) _ Hlen].
  apply Forall_app in Hd as [Hd [(Hdt & Hsz & _) _]%Forall_cons_1].
  rewrite <- app_assoc, find_eop_init by done. cbn [app find_eop]. rewrite Hdt, Hsz.
  unfold is_eop in Heop. rewrite Heop. cbn [negb Z.eqb ICE_TX_DESC_DTYPE_DATA].
  rewrite <- u32_add_l, foldl_lens, u32_add_l, Z.add_0_l, <- Nat2Z.inj_add.
  rewrite seg_bytes_snoc, length_app in *. rewrite wrap_small by done. rewrite length_app. cbn [length].
  unfold mret, result_ret. do 4 f_equal. lia.
Qed.

(** ** Copying *)

Lemma put_nil buf o : put buf o [] = buf.
Proof. unfold put. simpl. by rewrite Nat.add_0_r, take_drop. Qed.

Lemma put_app buf o xs ys : (o + length xs + length ys <= length buf)%nat →
  put (put buf o xs) (o + length xs) ys = put buf o (xs ++ ys).
Proof.
  intros Hl. apply list_eq. intros i.
  rewrite !lookup_put by (rewrite ?length_put, ?length_app; lia). rewrite length_app.
  repeat case_bool_decide; try lia; try done.
  - rewrite lookup_app_r by lia. f_equal. lia.
  - by rewrite lookup_app_l by lia.
Qed.

Section copy.
Context {D : Type} `{TxDriver D}.

Lemma copy_loop_stop segs dcnt off limit q : limit <= off →
  copy_loop segs dcnt off limit q = Ok (dcnt, q).
Proof. intros. destruct segs; simpl; [done|]. by rewrite (proj2 (Z.ltb_ge _ _)) by lia. Qed.

(** The queue after bytes were appended to the packet. *)
Definition appended (q : lan_queue_tx) (bs : list Z) (limit : Z) : lan_queue_tx :=
  q <| pktbuf := put (pktbuf q) (Z.to_nat (tso_len q)) bs |> <| tso_off := limit |>
    <| tso_len := tso_len q + Z.of_nat (length bs) |>.

Lemma tso_off_appended q bs o : tso_off (appended q bs o) = o.
Proof. done. Qed.

Lemma tso_len_appended q bs o : tso_len (appended q bs o) = tso_len q + Z.of_nat (length bs).
Proof. done. Qed.

Lemma pktbuf_appended q bs o : 0 <= tso_len q →
  tso_len q + Z.of_nat (length bs) <= Z.of_nat (length (pktbuf q)) →
  length (pktbuf (appended q bs o)) = length (pktbuf q).
Proof. intros. apply length_put. lia. Qed.

Lemma appended_nil q : appended q [] (tso_off q) = q.
Proof. destruct q. unfold appended. simpl. by rewrite put_nil, Z.add_0_r. Qed.

Lemma appended_appended q xs ys o1 o2 : 0 <= tso_len q →
  tso_len q + Z.of_nat (length xs) + Z.of_nat (length ys) <= Z.of_nat (length (pktbuf q)) →
  appended (appended q xs o1) ys o2 = appended q (xs ++ ys) o2.
Proof.
  intros H0 Hl. unfold appended. simpl. rewrite length_app. f_equal; [|lia].
  replace (Z.to_nat (tso_len q + Z.of_nat (length xs))) with (Z.to_nat (tso_len q) + length xs)%nat by lia.
  apply put_app. lia.
Qed.

(** One descriptor: before the offset of the packet it is passed, otherwise its
    bytes up to the limit are appended. *)
Lemma copy_loop_skip rd segs dcnt off limit q : buf_sz16 (qw1 rd) = Z.of_nat (length (data rd)) →
  0 <= off → off + Z.of_nat (length (data rd)) <= tso_off q → off < limit → tso_off q < 2 ^ 32 →
  copy_loop (rd :: segs) dcnt off limit q = copy_loop segs (S dcnt) (off + Z.of_nat (length (data rd))) limit q.
Proof.
  intros Hsz H0 Hle Hlim Hw. cbn [copy_loop]. rewrite (proj2 (Z.ltb_lt _ _)), Hsz by done.
  rewrite (wrap_small 32) by (unfold in_width; lia). rewrite (proj2 (Z.leb_le off _)) by lia.
  by rewrite (proj2 (Z.ltb_ge _ _)) by lia.
Qed.

Lemma copy_loop_part rd segs dcnt off limit q : let len := Z.of_nat (length (data rd)) in
  let e := Z.min (off + len) limit in buf_sz16 (qw1 rd) = len →
  0 <= off <= tso_off q → tso_off q < off + len → off < limit → tso_off q <= limit → off + len < 2 ^ 32 →
  0 <= tso_len q → tso_len q + (e - tso_off q) <= Z.of_nat (length (pktbuf q)) →
  Z.of_nat (length (pktbuf q)) < 2 ^ 32 →
  copy_loop (rd :: segs) dcnt off limit q = copy_loop segs (S dcnt) (off + len) limit
    (appended q (take (Z.to_nat (e - tso_off q)) (drop (Z.to_nat (tso_off q - off)) (data rd))) e).
Proof.
  intros len e Hsz Hoff Hin Hgo Hlim Hw H0 Hfit Hbuf. cbn [copy_loop].
  rewrite (proj2 (Z.ltb_lt _ _)), Hsz by done. rewrite (wrap_small 32 (off + len)) by (unfold in_width; lia).
  rewrite (proj2 (Z.leb_le off _)), (proj2 (Z.ltb_lt (tso_off q) _)) by lia. cbn [andb]. fold e.
  set (bs := take _ (drop _ (data rd))). assert (length bs = Z.to_nat (e - tso_off q)) as Hbs by (apply length_sub; lia).
  assert (bytes_at (Z.to_nat (e - tso_off q)) (data rd) (tso_off q - off) = Some bs) as ->.
  { unfold bytes_at. rewrite (proj2 (Z.leb_le 0 _)), (proj2 (Z.leb_le _ (Z.of_nat _))) by lia. done. }
  cbn [of_opt mbind result_bind]. rewrite put_bytes_in by lia. cbn [of_opt mbind result_bind mret result_ret].
  rewrite wrap_small by (unfold in_width; lia). f_equal. unfold appended, set_field. cbn. f_equal. lia.
Qed.

(** Between the offset of the packet and the limit, the loop appends the bytes of
    the descriptors; up to their end it passes all of them. *)
Lemma copy_loop_spec segs rest dcnt off limit q : Forall data_desc segs → last_full segs →
  0 <= off <= tso_off q → tso_off q <= limit → limit <= off + Z.of_nat (length (seg_bytes segs)) →
  in_width 32 (off + Z.of_nat (length (seg_bytes segs))) →
  0 <= tso_len q → tso_len q + (limit - tso_off q) <= Z.of_nat (length (pktbuf q)) →
  Z.of_nat (length (pktbuf q)) < 2 ^ 32 →
  ∃ n, copy_loop (segs ++ rest) dcnt off limit q = Ok ((dcnt + n)%nat,
    appended q (take (Z.to_nat (limit - tso_off q)) (drop (Z.to_nat (tso_off q - off)) (seg_bytes segs))) limit) ∧
    (limit = off + Z.of_nat (length (seg_bytes segs)) → n = length segs).
Proof.
  intros Hd. revert dcnt off q. induction Hd as [|rd segs (_ & _ & Hsz) Hd IH];
    intros dcnt off q Hlast Hoff Hlim Hmax Hw H0 Hfit Hbuf.
  { cbn in Hmax. exists 0%nat. rewrite copy_loop_stop by lia.
    assert (limit = tso_off q) as -> by lia. rewrite Z.sub_diag.
    split; [|done]. by rewrite take_0, appended_nil, Nat.add_0_r. }
  destruct (Z.leb_spec limit off) as [Hend|Hgo].
  { exists 0%nat. rewrite copy_loop_stop by lia. assert (limit = tso_off q) as -> by lia.
    rewrite Z.sub_diag, take_0, appended_nil, Nat.add_0_r. split; [done|]. intros E.
    destruct (last_full_bytes _ _ Hlast). apply nil_length_inv. lia. }
  apply last_full_cons in Hlast. cbn [app].
  rewrite seg_bytes_cons, length_app in *. unfold in_width in *. set (len := Z.of_nat (length (data rd))) in *.
  destruct (Z.ltb_spec (tso_off q) (off + len)) as [Hin|Hout].
  2: { destruct (IH (S dcnt) (off + len) q) as (n & Hc & Hn); try done || lia. exists (S n).
    rewrite copy_loop_skip by (done || lia). fold len. rewrite Hc. split; [|intros; cbn; f_equal; lia]. f_equal. f_equal; [lia|].
    f_equal. rewrite (drop_app_ge (data rd)) by lia. do 2 f_equal. lia. }
  set (e := Z.min (off + len) limit). set (bs := take (Z.to_nat (e - tso_off q)) (drop (Z.to_nat (tso_off q - off)) (data rd))).
  assert (length bs = Z.to_nat (e - tso_off q)) as Hbs by (apply length_sub; lia).
  rewrite copy_loop_part by (done || lia). fold len. fold e. fold bs.
  destruct (Z.leb_spec limit (off + len)) as [Hl|Hl].
  - exists 1%nat. rewrite copy_loop_stop by lia. assert (e = limit) as -> by lia.
    split.
    + f_equal. f_equal; [lia|]. f_equal. subst bs.
      rewrite drop_app_le by lia. by rewrite take_app_le by (rewrite length_drop; lia).
    + intros E. destruct segs; [done|]. destruct (last_full_bytes _ _ Hlast). apply nil_length_inv. lia.
  - assert (e = off + len) as He by lia.
    destruct (IH (S dcnt) (off + len) (appended q bs e)) as (n & -> & Hn);
      rewrite ?tso_off_appended, ?tso_len_appended, ?pktbuf_appended by lia; try done || lia.
    exists (S n). split; [|intros; cbn; f_equal; lia]. f_equal. f_equal; [lia|].
    rewrite appended_appended by (rewrite ?length_sub; lia). f_equal.
    rewrite He, Z.sub_diag, drop_0. subst bs.
    rewrite drop_app_le by lia. rewrite take_app_ge by (rewrite length_drop; lia). f_equal.
    + apply take_ge. rewrite length_drop. lia.
    + f_equal. rewrite length_drop. lia.
Qed.
End copy.

(** ** Plain packets *)

(** The packet of a plain unit: its bytes, with the checksum that the last
    descriptor asks for. *)
Definition packet_of (l : tx_lens) (bs : list Z) : option (list Z) :=
  let off := maclen l + iplen l in
  let len := Z.of_nat (length bs) - off in
  if l4t l =? ICE_TX_DESC_CMD_L4T_EOFT_TCP then
    if 0 <=? len then xsum_tcp bs off len else None
  else if l4t l =? ICE_TX_DESC_CMD_L4T_EOFT_UDP then
    if 0 <=? len then xsum_udp bs off len else None
  else Some bs.

Lemma length_put_0 buf bs : (length bs <= length buf)%nat → length (put buf 0 bs) = length buf.
Proof. intros. by apply length_put. Qed.

Lemma sub_put_0 n k buf bs : (k + n <= length bs)%nat → (length bs <= length buf)%nat →
  take n (drop k (put buf 0 bs)) = take n (drop k bs).
Proof.
  intros Hk Hl. unfold put. rewrite take_0. simpl.
  rewrite drop_app_le by lia. by rewrite take_app_le by (rewrite length_drop; lia).
Qed.

Lemma put_put_0 buf bs o w : (o + length w <= length bs)%nat → (length bs <= length buf)%nat →
  put (put buf 0 bs) o w = put buf 0 (put bs o w).
Proof.
  intros Ho Hl. apply list_eq. intros i.
  rewrite !lookup_put by (rewrite ?length_put; lia). rewrite length_put by lia.
  repeat case_bool_decide; try lia; try done; f_equal; lia.
Qed.

Lemma raw_cksum_local buf bs off n : 0 <= off → 0 <= n → off + n <= Z.of_nat (length bs) →
  (length bs <= length buf)%nat → rte_raw_cksum (put buf 0 bs) off n = rte_raw_cksum bs off n.
Proof.
  intros. unfold rte_raw_cksum. rewrite !raw_cksum_spec by (rewrite ?length_put_0 by lia; done || lia).
  unfold summed. by rewrite sub_put_0 by lia.
Qed.

Lemma store_local n buf bs o v bs' : (length bs <= length buf)%nat → store n bs o v = Some bs' →
  store n (put buf 0 bs) o v = Some (put buf 0 bs') ∧ length bs' = length bs.
Proof.
  intros Hl. unfold store, put_bytes. rewrite length_put_0 by done. rewrite length_le_bytes.
  destruct (Z.leb_spec 0 o), (Z.leb_spec (o + Z.of_nat n) (Z.of_nat (length bs))); try done.
  simpl. intros [= <-]. rewrite (proj2 (Z.leb_le _ _)) by lia.
  rewrite put_put_0, length_put by (rewrite ?length_le_bytes; lia). done.
Qed.

Lemma length_packet_of l bs pkt : packet_of l bs = Some pkt → length pkt = length bs.
Proof.
  unfold packet_of, xsum_tcp, xsum_udp, store, put_bytes. intros Hp.
  inv_some; rewrite ?length_le_bytes in *; bool_to_prop; [..|done]; apply length_put;
    simpl; lia.
Qed.

Lemma packet_of_ok l bs pkt : bytes_ok bs → packet_of l bs = Some pkt → bytes_ok pkt.
Proof.
  unfold packet_of, xsum_tcp, xsum_udp, store, put_bytes. intros Hok Hp.
  inv_some; [..|done]; (apply put_ok; [done|]); repeat constructor; by apply wrap_width.
Qed.

Section plain.
Context {D : Type} `{TxDriver D}.

Lemma send_plain_spec l buf bs segs pkt d : 0 <= maclen l <= 254 → 0 <= iplen l <= 508 →
  (length bs <= length buf)%nat → Z.of_nat (length bs) < 2 ^ 32 →
  packet_of l bs = Some pkt →
  send_plain l (mkTxq (put buf 0 bs) (Z.of_nat (length bs)) (Z.of_nat (length bs)) segs) d =
  Ok (mkTxq (put buf 0 pkt) (Z.of_nat (length bs)) (Z.of_nat (length bs)) segs, eth_send pkt d).
Proof.
  intros Hm Hi Hl Hw Hp. pose proof (length_packet_of _ _ _ Hp) as Hlen.
  unfold send_plain. cbn [tso_len pktbuf].
  rewrite (wrap_small 16 (maclen l + iplen l)) by (unfold in_width; lia). unfold packet_of in Hp.
  set (off := maclen l + iplen l) in *. set (n := Z.of_nat (length bs) - off) in *.
  assert ((if l4t l =? ICE_TX_DESC_CMD_L4T_EOFT_TCP
           then of_opt (xsum_tcp (put buf 0 bs) off (u32 n))
           else if l4t l =? ICE_TX_DESC_CMD_L4T_EOFT_UDP
           then of_opt (xsum_udp (put buf 0 bs) off (u32 n)) else mret (put buf 0 bs))
          = Ok (put buf 0 pkt)) as ->.
  { unfold xsum_tcp, xsum_udp in *. inv_some; bool_to_prop; [..|done];
      rewrite wrap_small by (unfold in_width; lia);
      rewrite raw_cksum_local by lia; rewrite H0; cbn [mbind option_bind];
      match goal with Hs : store _ _ _ _ = Some _ |- _ => apply (store_local _ buf) in Hs as [-> _]; [done|lia] end. }
  cbn [mbind result_bind]. unfold bytes_at. rewrite length_put_0 by lia. rewrite Nat2Z.id.
  rewrite (proj2 (Z.leb_le 0 0)), (proj2 (Z.leb_le _ _)) by lia. cbn [andb of_opt mbind result_bind].
  rewrite sub_put_0 by lia. change (Z.to_nat 0) with 0%nat. rewrite drop_0, take_ge by lia. done.
Qed.

(** A queue between two units. *)
Definition idle (q : lan_queue_tx) : Prop :=
  tso_off q = 0 ∧ tso_len q = 0 ∧ Z.of_nat (length (pktbuf q)) = MTU ∧ bytes_ok (pktbuf q).

Lemma plain_packet segs l rest q d pkt : tx_unit segs l → idle q →
  ready_segments q = segs ++ rest → Z.of_nat (length (seg_bytes segs)) <= MTU →
  packet_of l (seg_bytes segs) = Some pkt →
  ∃ q', trigger_tx_packet q d = Ok (true, pos <$> segs, q', eth_send pkt d) ∧
    idle q' ∧ ready_segments q' = rest.
Proof.
  intros Hu (Hoff & Htl & Hbuf & Hok) Hr Hmtu Hp. pose proof (unit_lens _ _ Hu) as (Hmac & Hip & _).
  pose proof (find_eop_unit segs l rest 0 Hu) as Hf. pose proof (unit_nonempty _ _ Hu) as Hne.
  destruct q as [buf o0 l0 rs]. simpl in *. subst o0 l0 rs.
  assert (∃ rd tl, segs = rd :: tl ∧ dtype (qw1 rd) = ICE_TX_DESC_DTYPE_DATA) as (rd & tl & Es & Hdt).
  { destruct segs as [|rd tl]; [done|]. exists rd, tl. split; [done|].
    apply unit_data in Hu. by apply Forall_cons_1 in Hu as [[? _] _]. }
  unfold trigger_tx_packet. cbn [ready_segments]. rewrite Es. cbn [app]. rewrite Hdt.
  change (ICE_TX_DESC_DTYPE_DATA =? ICE_TX_DESC_DTYPE_CTX) with false. cbn [andb negb drop].
  change (rd :: tl ++ rest) with ((rd :: tl) ++ rest). rewrite <- Es, Hf. cbn [mbind result_bind]. rewrite (proj2 (Z.ltb_ge _ _)) by lia. cbn [mret result_ret mbind result_bind].
  unfold MTU in *.
  destruct (copy_loop_spec segs rest 0 0 (Z.of_nat (length (seg_bytes segs))) (mkTxq buf 0 0 (segs ++ rest)))
    as (n & -> & Hn); cbn [tso_off tso_len pktbuf]; try lia.
  { by eapply unit_data. } { by eapply unit_last_full. } { apply Hu. }
  rewrite Hn by lia. cbn [mbind result_bind]. rewrite Z.sub_0_r, Nat2Z.id. simpl (Z.to_nat 0).
  rewrite drop_0, take_ge by lia. unfold appended. cbn [tso_len pktbuf tso_off ready_segments set_field].
  rewrite Z.add_0_l, (proj2 (Z.ltb_ge _ _)) by lia. change (Z.to_nat 0) with 0%nat.
  erewrite send_plain_spec; [|done..|lia|lia|done].
  cbn [mbind result_bind]. unfold finish_unit. cbn [ready_segments set_field].
  rewrite Nat.add_0_l, take_app_length, drop_app_length. eexists. split; [done|].
  unfold idle. cbn. pose proof (length_packet_of _ _ _ Hp). rewrite length_put_0 by lia.
  split_and!; try done. apply put_ok; [done|]. by eapply packet_of_ok, Hp; apply Hu.
Qed.

(** Descriptors of a packet whose end has not been posted yet. *)
Definition incomplete (segs : list tx_desc_ctx) : Prop :=
  Forall data_desc segs ∧ Forall (fun rd => is_eop rd = false) segs.

Lemma incomplete_packet segs q d : incomplete segs → ready_segments q = segs →
  trigger_tx_packet q d = Ok (false, [], q, d).
Proof.
  intros [Hd Heop] Hr. unfold trigger_tx_packet. rewrite Hr. destruct segs as [|rd segs]; [done|].
  assert (dtype (qw1 rd) = ICE_TX_DESC_DTYPE_DATA) as -> by apply (Forall_inv Hd).
  change (ICE_TX_DESC_DTYPE_DATA =? ICE_TX_DESC_DTYPE_CTX) with false. cbn [andb negb drop].
  pose proof (find_eop_init (rd :: segs) [] 0 0 Hd Heop) as Hf. rewrite app_nil_r in Hf. by rewrite Hf.
Qed.

(** ** Runs *)

Definition send_all (pkts : list (list Z)) (d : D) : D := foldl (fun d pkt => eth_send pkt d) d pkts.

(** [n] packets in a row: the descriptors handed back, the queue and the driver. *)
Inductive tx_steps : lan_queue_tx → D → nat → list Z → lan_queue_tx → D → Prop :=
| tx_stop q d : tx_steps q d 0 [] q d
| tx_step q d ps q1 d1 n dones q2 d2 :
    trigger_tx_packet q d = Ok (true, ps, q1, d1) → tx_steps q1 d1 n dones q2 d2 →
    tx_steps q d (S n) (ps ++ dones) q2 d2.

Lemma tx_steps_app q d n dones q1 d1 m dones' q2 d2 : tx_steps q d n dones q1 d1 →
  tx_steps q1 d1 m dones' q2 d2 → tx_steps q d (n + m) (dones ++ dones') q2 d2.
Proof.
  intros H1 H2. induction H1 as [|q d ps q1' d1' n dones q3 d3 Ht Hs IH]; [done|].
  rewrite <- app_assoc. eapply tx_step; [done|by apply IH].
Qed.

(** The loop ends where no complete unit is left. *)
Lemma trigger_tx_steps q d n dones q1 d1 fuel partial : tx_steps q d n dones q1 d1 →
  incomplete partial → ready_segments q1 = partial → (n < fuel)%nat →
  trigger_tx fuel q d = Ok (Some (dones, q1, d1)).
Proof.
  intros Hs Hp Hr. revert fuel. induction Hs as [q d|q d ps q1' d1' n dones q2 d2 Ht Hs IH];
    intros [|fuel] Hf; try lia; cbn [trigger_tx].
  - by rewrite (incomplete_packet partial).
  - rewrite Ht. cbn [mbind result_bind]. by rewrite IH by (done || lia).
Qed.
End plain.
