(* ===== verification/E810Tso.v ===== *)
(** * Segmentation

    What [trigger_tx] sends for a TCP segmentation unit when the driver does not
    segment in hardware, and the theorem on whole queues of units. *)
From S2P Require Import Prelude Bytes E810Base E810Xsum E810Tx E810TxSpec.
Local Open Scope Z_scope.

(** ** Fields of a buffer *)

Lemma sub_ext n o (b b' : list Z) : (∀ j, (o <= j < o + n)%nat → b !! j = b' !! j) →
  take n (drop o b) = take n (drop o b').
Proof.
  intros He. apply list_eq. intros i. destruct (decide (i < n)%nat).
  - rewrite !lookup_take_lt, !lookup_drop by lia. apply He. lia.
  - by rewrite !lookup_take_ge by lia.
Qed.

Lemma sub_take n o m (b : list Z) : (o + n <= m)%nat → take n (drop o (take m b)) = take n (drop o b).
Proof. intros. apply sub_ext. intros j Hj. by rewrite lookup_take_lt by lia. Qed.

Lemma pseudo_header_take m b i len : (i + 20 <= m)%nat →
  pseudo_header (take m b) i len = pseudo_header b i len.
Proof. intros. unfold pseudo_header. rewrite !sub_take, lookup_take_lt by lia. done. Qed.

Lemma htonl_be y : be (le_bytes 4 (bswap32 (u32 y))) = u32 y.
Proof.
  set (bs := le_bytes 4 (u32 y)). assert (u32 y = le bs) as E by (unfold bs; by rewrite le_le_bytes, wrap_wrap).
  assert (bytes_ok bs) as Hok by apply le_bytes_ok.
  rewrite E at 1. rewrite ntohl_be by done. unfold be at 2. rewrite le_bytes_le; [|by apply Forall_reverse|done].
  unfold be. by rewrite reverse_involutive.
Qed.

Lemma htons_be y : be (le_bytes 2 (bswap16 (u16 y))) = u16 y.
Proof. rewrite htons_bytes. apply be_u16. by apply wrap_width. Qed.

Lemma postupdate_spec buf ip iplen l4len paylen : bytes_ok buf → 0 <= ip → 20 <= iplen →
  ip + iplen + 8 <= Z.of_nat (length buf) →
  let i := Z.to_nat ip in let t := Z.to_nat (ip + iplen) in
  ∃ buf', tso_postupdate_header buf ip iplen l4len paylen = Some buf' ∧ bytes_ok buf' ∧
    length buf' = length buf ∧
    be (take 4 (drop (t + 4) buf')) = u32 (be (take 4 (drop (t + 4) buf)) + paylen) ∧
    be (take 2 (drop (i + 4) buf')) = u16 (be (take 2 (drop (i + 4) buf)) + 1) ∧
    ∀ j, j ∉ [i + 4; i + 5; t + 4; t + 5; t + 6; t + 7]%nat → buf' !! j = buf !! j.
Proof.
  intros Hok Hip Hil Hl i t. unfold tso_postupdate_header.
  rewrite load_take by lia. cbn [mbind option_bind]. rewrite store_in by lia. cbn [mbind option_bind].
  replace (Z.to_nat (ip + iplen + 4)) with (t + 4)%nat by lia.
  rewrite ntohl_be by (by apply bytes_ok_sub || (rewrite length_sub; lia)).
  set (w := le_bytes 4 _). assert (length w = 4%nat) as Hw by apply length_le_bytes.
  assert (length (put buf (t + 4) w) = length buf) as L1 by (apply length_put; lia).
  rewrite load_take by lia. cbn [mbind option_bind]. rewrite store_in by lia.
  replace (Z.to_nat (ip + 4)) with (i + 4)%nat by lia.
  rewrite (sub_put_out 2) by lia.
  rewrite ntohs_be by (by apply bytes_ok_sub || (rewrite length_sub; lia)).
  set (v := le_bytes 2 _). assert (length v = 2%nat) as Hv by apply length_le_bytes.
  eexists. split; [done|]. split; [by repeat apply put_ok; try apply le_bytes_ok|].
  split; [rewrite length_put; lia|]. split.
  { rewrite sub_put_out, sub_put_eq by lia. apply htonl_be. }
  split; [rewrite sub_put_eq by lia; apply htons_be|].
  intros j Hj. rewrite !not_elem_of_cons in Hj. rewrite !lookup_put_ne by lia. done.
Qed.

(** ** Segments *)

Definition hdr_len (l : tx_lens) : Z := maclen l + iplen l + l4len l.
Definition ip_at (l : tx_lens) : nat := Z.to_nat (maclen l).
Definition tcp_at (l : tx_lens) : nat := Z.to_nat (maclen l + iplen l).

(** The header fields that differ between the segments: the total length, the
    identification and the checksum of the IP header, the sequence number and the
    checksum of the TCP header. *)
Definition moving (l : tx_lens) : list nat :=
  let i := ip_at l in let t := tcp_at l in
  [i + 2; i + 3; i + 4; i + 5; i + 10; i + 11; t + 4; t + 5; t + 6; t + 7; t + 16; t + 17]%nat.

(** The headers in [buf] are those of [bs], [k] packets and [s] bytes later. *)
Record header_at (l : tx_lens) (bs : list Z) (k s : Z) (buf : list Z) : Prop := {
  at_id : be (take 2 (drop (ip_at l + 4) buf)) = u16 (be (take 2 (drop (ip_at l + 4) bs)) + k);
  at_seq : be (take 4 (drop (tcp_at l + 4) buf)) = u32 (be (take 4 (drop (tcp_at l + 4) bs)) + s);
  at_same : ∀ j, (j < Z.to_nat (hdr_len l))%nat → j ∉ moving l → buf !! j = bs !! j
}.

(** The packet with the payload [pay], [k] packets and [s] bytes after the first
    one of the unit [bs]. *)
Record segment (l : tx_lens) (bs : list Z) (k s : Z) (pay pkt : list Z) : Prop := {
  seg_header : header_at l bs k s pkt;
  seg_pay : drop (Z.to_nat (hdr_len l)) pkt = pay;
  seg_len : Z.of_nat (length pkt) = hdr_len l + Z.of_nat (length pay);
  seg_total : be (take 2 (drop (ip_at l + 2) pkt)) = iplen l + l4len l + Z.of_nat (length pay);
  seg_ip : cksum_valid (take (Z.to_nat (iplen l)) (drop (ip_at l) pkt));
  seg_tcp : cksum_valid (pseudo_header pkt (ip_at l) (l4len l + Z.of_nat (length pay)) ++
              drop (tcp_at l) pkt) ↔ iplen l = 20
}.

Definition tcp_lens (l : tx_lens) : Prop :=
  0 <= maclen l <= 254 ∧ 20 <= iplen l <= 255 ∧ 20 <= l4len l <= 60.

Section segment.
Context {D : Type} `{TxDriver D}.

Lemma header_kept l bs k s b b' : tcp_lens l → header_at l bs k s b →
  (∀ j, (j < Z.to_nat (hdr_len l))%nat → j ∉ [ip_at l + 2; ip_at l + 3; ip_at l + 10; ip_at l + 11; tcp_at l + 16; tcp_at l + 17]%nat →
    b' !! j = b !! j) → header_at l bs k s b'.
Proof.
  intros (? & ? & ?) [Hid Hseq Hsame] He. split; unfold hdr_len, ip_at, tcp_at in *.
  - rewrite <- Hid. f_equal. apply sub_ext. intros j Hj. apply He; [lia|].
    rewrite !not_elem_of_cons. split_and!; try lia. apply not_elem_of_nil.
  - rewrite <- Hseq. f_equal. apply sub_ext. intros j Hj. apply He; [lia|].
    rewrite !not_elem_of_cons. split_and!; try lia. apply not_elem_of_nil.
  - intros j Hj Hm. rewrite <- Hsame by done. apply He; [done|].
    unfold moving, ip_at, tcp_at in Hm. rewrite !not_elem_of_cons in *. naive_solver.
Qed.

Lemma send_segment_spec l bs k s mss p q d : tcp_lens l → 0 <= p <= mss →
  bytes_ok (pktbuf q) → Z.of_nat (length (pktbuf q)) = MTU →
  tso_len q = hdr_len l + p → tso_len q <= MTU → header_at l bs k s (pktbuf q) →
  ∃ pkt buf', send_segment l mss q d = Ok (q <| pktbuf := buf' |>, eth_send pkt d) ∧
    bytes_ok buf' ∧ Z.of_nat (length buf') = MTU ∧
    segment l bs k s (take (Z.to_nat p) (drop (Z.to_nat (hdr_len l)) (pktbuf q))) pkt ∧
    header_at l bs (k + 1) (s + p) buf'.
Proof.
  intros Hl Hp Hok Hbuf Htl Hmtu Hh. pose proof Hl as (Hm & Hi & H4). unfold MTU, hdr_len in *.
  unfold send_segment. rewrite (wrap_small 16 (maclen l + iplen l + l4len l)) by (unfold in_width; lia).
  replace (tso_len q - _) with p by lia. rewrite (wrap_small 32) by (unfold in_width; lia).
  rewrite Z.min_l by lia. rewrite (wrap_small 8), (wrap_small 8), (wrap_small 16) by (unfold in_width; lia).
  destruct (tso_checksums (pktbuf q) (maclen l) (iplen l) (l4len l) p)
    as (b1 & -> & K1 & L1 & Htot & Hsame1 & Vip & Vtcp); try done || lia.
  cbn [of_opt mbind result_bind]. set (N := Z.to_nat (tso_len q)).
  assert (bytes_at N b1 0 = Some (take N b1)) as ->.
  { unfold bytes_at. rewrite (proj2 (Z.leb_le 0 0)), (proj2 (Z.leb_le _ _)) by lia. done. }
  cbn [of_opt mbind result_bind].
  destruct (postupdate_spec b1 (maclen l) (iplen l) (l4len l) p)
    as (b2 & -> & K2 & L2 & Hseq2 & Hid2 & Hsame2); [done|lia..|]. cbn [of_opt mbind result_bind].
  assert (header_at l bs k s b1) as Hh1.
  { eapply header_kept; [done|done|]. intros j _ Hj. apply Hsame1, Hj. }
  exists (take N b1), b2. split; [done|]. split; [done|]. split; [lia|]. split.
  - assert (length (take (Z.to_nat p) (drop (Z.to_nat (maclen l + iplen l + l4len l)) (pktbuf q))) = Z.to_nat p) as Lp
      by (apply length_sub; lia).
    split; unfold hdr_len; rewrite ?Lp, ?Z2Nat.id by lia.
    + eapply header_kept; [done|apply Hh1|]. intros j Hj _. unfold hdr_len in Hj. by rewrite lookup_take_lt by lia.
    + replace N with (Z.to_nat (maclen l + iplen l + l4len l) + Z.to_nat p)%nat by lia.
      rewrite <- take_drop_commute. apply sub_ext. intros j Hj. apply Hsame1.
      rewrite !not_elem_of_cons. split_and!; try lia. apply not_elem_of_nil.
    + rewrite length_take. lia.
    + by rewrite sub_take by (unfold ip_at; lia).
    + by rewrite sub_take by (unfold ip_at; lia).
    + rewrite pseudo_header_take by (unfold ip_at; lia).
      replace N with (tcp_at l + Z.to_nat (l4len l + p))%nat by (unfold tcp_at; lia).
      by rewrite <- take_drop_commute.
  - split.
    + pose proof (at_id _ _ _ _ _ Hh1) as E. unfold ip_at in *. rewrite Hid2, E. unfold wrap.
      rewrite Zplus_mod_idemp_l. f_equal. lia.
    + pose proof (at_seq _ _ _ _ _ Hh1) as E. unfold tcp_at in *. rewrite Hseq2, E. unfold wrap.
      rewrite Zplus_mod_idemp_l. f_equal. lia.
    + intros j Hj Hmv. rewrite <- (at_same _ _ _ _ _ Hh1) by done. apply Hsame2.
      unfold moving, ip_at, tcp_at in Hmv. rewrite !not_elem_of_cons in *. naive_solver.
Qed.
End segment.

(** ** Segmentation units *)

(** The context descriptor that asks for segmentation. *)
Definition tso_ctx (rd : tx_desc_ctx) (mss : Z) : Prop :=
  dtype (qw1 rd) = ICE_TX_DESC_DTYPE_CTX ∧
  nz (ctx_cmd (qw1 rd) .& ICE_TX_CTX_DESC_TSO) = true ∧ ctx_mss (qw1 rd) = mss.

(** A unit with complete headers whose segments fit the packet buffer. *)
Record tso_unit (cd : tx_desc_ctx) (segs : list tx_desc_ctx) (l : tx_lens) (mss : Z) : Prop := {
  tso_ctx_desc : tso_ctx cd mss;
  tso_data : tx_unit segs l;
  tso_lens : tcp_lens l;
  tso_mss_pos : 0 <= mss;
  tso_hdr : hdr_len l <= Z.of_nat (length (seg_bytes segs));
  tso_fits : Z.min (Z.of_nat (length (seg_bytes segs))) (hdr_len l + mss) <= MTU;
  tso_total : Z.of_nat (length (seg_bytes segs)) + mss < 2 ^ 32
}.

Section unit.
Context {D : Type} `{TxDriver D}.
Context (cd : tx_desc_ctx) (segs : list tx_desc_ctx) (l : tx_lens) (mss : Z).
Context (Hu : tso_unit cd segs l mss).

Let bs := seg_bytes segs.
Let total := Z.of_nat (length bs).
Let hdr := hdr_len l.

(** The queue before the [k]-th segment. *)
Definition before (k : Z) (q : lan_queue_tx) : Prop :=
  bytes_ok (pktbuf q) ∧ Z.of_nat (length (pktbuf q)) = MTU ∧
  if k =? 0 then tso_off q = 0 ∧ tso_len q = 0
  else tso_off q = hdr + k * mss ∧ tso_len q = hdr ∧ header_at l bs k (k * mss) (pktbuf q).

Lemma hdr_pos : 40 <= hdr <= 569.
Proof. destruct (tso_lens _ _ _ _ Hu) as (? & ? & ?). unfold hdr, hdr_len. lia. Qed.

Lemma copied k q rest : 0 <= k → before k q → hdr + k * mss <= total →
  let limit := Z.min total (hdr + k * mss + mss) in
  ∃ n q1, copy_loop (segs ++ rest) 1 0 limit q = Ok (S n, q1) ∧
    (limit = total → n = length segs) ∧ ready_segments q1 = ready_segments q ∧ tso_off q1 = limit ∧
    tso_len q1 = hdr + (limit - (hdr + k * mss)) ∧
    bytes_ok (pktbuf q1) ∧ Z.of_nat (length (pktbuf q1)) = MTU ∧
    header_at l bs k (k * mss) (pktbuf q1) ∧
    take (Z.to_nat (limit - (hdr + k * mss))) (drop (Z.to_nat hdr) (pktbuf q1)) =
    take (Z.to_nat (limit - (hdr + k * mss))) (drop (Z.to_nat (hdr + k * mss)) bs).
Proof.
  intros Hk (Hok & Hbuf & Hst) Ho limit. pose proof hdr_pos as Hh.
  pose proof (tso_mss_pos _ _ _ _ Hu) as Hmss. pose proof (tso_fits _ _ _ _ Hu) as Hfit.
  pose proof (tso_total _ _ _ _ Hu) as Htot. pose proof (tso_data _ _ _ _ Hu) as Hd.
  pose proof (unit_bytes _ _ Hd) as Hbs. pose proof (tso_lens _ _ _ _ Hu) as Hl. fold bs total hdr in Hfit, Htot, Hbs.
  assert (bytes_ok bs) as Hbs' by done. unfold MTU in *.
  assert (0 <= k * mss ∧ (k = 0 → k * mss = 0)) as [Hkm Hk0] by lia. set (km := k * mss) in *.
  destruct (copy_loop_spec segs rest 1 0 limit q) as (n & Hc & Hn).
  { by eapply unit_data. } { by eapply unit_last_full. }
  1-7: fold bs total; unfold in_width; destruct (Z.eqb_spec k 0) as [E|];
    [destruct Hst as [? ?]; specialize (Hk0 E)|destruct Hst as (? & ? & _)]; lia.
  rewrite Z.sub_0_r in Hc. exists n. eexists. split; [exact Hc|]. fold bs total in Hn |- *.
  split; [intros; apply Hn; lia|]. clear Hc Hn. split; [done|]. split; [done|].
  destruct (Z.eqb_spec k 0) as [->|Hkn].
  - destruct Hst as [Eo El]. unfold appended. cbn [tso_len pktbuf set_field]. rewrite Eo, El, !Z.sub_0_r.
    change (Z.to_nat 0) with 0%nat. rewrite drop_0, Z.add_0_l. set (pre := take (Z.to_nat limit) bs).
    assert (length pre = Z.to_nat limit) as Lp by (unfold pre; rewrite length_take; lia).
    assert (∀ n o, (o + n <= Z.to_nat limit)%nat → take n (drop o (put (pktbuf q) 0 pre)) = take n (drop o bs)) as Hsub
      by (intros; rewrite sub_put_0 by lia; by apply sub_take).
    assert (∀ n o, 0 <= n → (Z.to_nat n + o <= length bs)%nat →
      be (take (Z.to_nat n) (drop o bs)) = wrap (8 * n) (be (take (Z.to_nat n) (drop o bs)) + 0)) as Hbe.
    { intros n' o Hn' Ho'. rewrite Z.add_0_r, wrap_small; [done|].
      pose proof (be_width _ (bytes_ok_sub (Z.to_nat n') o _ Hbs')) as Hw.
      rewrite length_sub, Z2Nat.id in Hw by lia. done. }
    split; [lia|]. split; [by apply put_ok, Forall_take|]. split; [rewrite length_put_0; lia|]. split.
    + destruct Hl as (? & ? & ?). unfold hdr, hdr_len in *. split; unfold km, ip_at, tcp_at.
      * rewrite Hsub by lia. apply (Hbe 2); lia.
      * rewrite Hsub by lia. apply (Hbe 4); lia.
      * intros j Hj _. unfold hdr_len in Hj. rewrite lookup_put, bool_decide_true by lia.
        rewrite Nat.sub_0_r. unfold pre. by rewrite lookup_take_lt by lia.
    + rewrite Hsub by lia. f_equal. f_equal. lia.
  - destruct Hst as (Eo & El & Hat). unfold appended. cbn [tso_len pktbuf set_field]. rewrite Eo, El.
    rewrite Z.sub_0_r || idtac. set (pay := take _ (drop _ bs)).
    assert (length pay = Z.to_nat (limit - (hdr + km))) as Lp by (apply length_sub; lia).
    split; [lia|]. split; [by apply put_ok, bytes_ok_sub|]. split; [rewrite length_put; lia|]. split.
    + eapply header_kept; [done|exact Hat|]. intros j Hj _. fold hdr in Hj. apply lookup_put_ne; lia.
    + by apply sub_put_eq; lia.
Qed.

(** A driver that refuses every buffer refuses the unit. *)
Lemma hw_refused a d : (∀ bytes lst a d, eth_send_tso bytes lst a d = (false, d)) → hw_tso segs a d = Ok (false, d).
Proof.
  intros Hhw. destruct (tso_data _ _ _ _ Hu) as [Hd (init & lst & E & _) _ _].
  destruct segs as [|rd tl]; [by destruct init|]. apply Forall_cons_1 in Hd as [(_ & _ & Hsz) _].
  cbn [hw_tso]. rewrite Hsz, Nat2Z.id. unfold bytes_at.
  rewrite (proj2 (Z.leb_le _ _)), (proj2 (Z.leb_le _ _)) by lia. cbn. by rewrite Hhw.
Qed.

(** Before the first segment the unit is offered to the hardware, which refuses it and
    leaves the driver in state [d1]. *)
Definition refused (k : Z) (d d1 : D) : Prop :=
  if k =? 0 then hw_tso segs (mkTso (maclen l) (iplen l) (l4len l) mss) d = Ok (false, d1) else d1 = d.

(** One segment. *)
Lemma segment_step k q rest d d1 : 0 <= k → before k q → hdr + k * mss <= total →
  ready_segments q = cd :: segs ++ rest → refused k d d1 →
  let limit := Z.min total (hdr + k * mss + mss) in
  ∃ pkt q', segment l bs k (k * mss)
      (take (Z.to_nat (limit - (hdr + k * mss))) (drop (Z.to_nat (hdr + k * mss)) bs)) pkt ∧
    if limit <? total
    then trigger_tx_packet q d = Ok (true, [], q', eth_send pkt d1) ∧ before (k + 1) q' ∧
         ready_segments q' = cd :: segs ++ rest
    else trigger_tx_packet q d = Ok (true, pos <$> cd :: segs, q', eth_send pkt d1) ∧ idle q' ∧
         ready_segments q' = rest.
Proof.
  intros Hk Hb Ho Hr Href limit. destruct (copied k q rest Hk Hb Ho)
    as (n & q1 & Hc & Hn & Hr1 & Eo1 & El1 & Hok1 & Hbuf1 & Hat1 & Hpay1).
  fold limit in Hc, Hn, Eo1, El1, Hpay1. assert (limit = Z.min total (hdr + k * mss + mss)) as Hlim by done.
  pose proof hdr_pos as Hh. destruct (tso_ctx_desc _ _ _ _ Hu) as (Hdt & Hts & Hms).
  pose proof (tso_mss_pos _ _ _ _ Hu) as Hmss. pose proof (tso_fits _ _ _ _ Hu) as Hfit.
  pose proof (tso_total _ _ _ _ Hu) as Htot. pose proof (tso_hdr _ _ _ _ Hu) as Hht. fold bs total hdr in Hfit, Htot, Hht.
  assert (0 <= k * mss) as Hkm by lia.
  destruct (send_segment_spec l bs k (k * mss) mss (limit - (hdr + k * mss)) q1 d1)
    as (pkt & buf' & Hs & Hok2 & Hbuf2 & Hseg & Hat2); try done.
  { apply (tso_lens _ _ _ _ Hu). } { lia. } { unfold MTU in *. lia. }
  fold hdr in Hseg. rewrite Hpay1 in Hseg. exists pkt.
  unfold trigger_tx_packet. rewrite Hr. cbn [drop]. rewrite Hdt, Z.eqb_refl. cbn [andb]. rewrite Hts, Hms.
  cbn [negb andb]. change (drop 1 (cd :: segs ++ rest)) with (segs ++ rest). rewrite (find_eop_unit segs l rest 1) by apply (tso_data _ _ _ _ Hu).
  cbn [mbind result_bind]. fold bs total.
  assert (Z.min total (u32 (if tso_off q =? 0 then maclen l + iplen l + l4len l + mss else tso_off q + mss))
          = limit) as ->.
  { change (maclen l + iplen l + l4len l) with hdr. destruct Hb as (_ & _ & Hst).
    destruct (Z.eqb_spec k 0) as [->|]; [destruct Hst as [-> _]|destruct Hst as (-> & _ & _)].
    - rewrite Z.eqb_refl, wrap_small by (unfold in_width; lia). lia.
    - rewrite (proj2 (Z.eqb_neq _ _)) by lia. rewrite wrap_small by (unfold in_width; lia). lia. }
  match goal with |- context [if ?b then hw_tso ?s ?a ?x else ?e] =>
    assert ((if b then hw_tso s a x else e) = Ok (false, d1)) as -> end.
  { replace (1 + length segs - 1)%nat with (length segs) by lia. rewrite take_app_length.
    destruct Hb as (_ & _ & Hst). unfold refused in Href. destruct (Z.eqb_spec k 0) as [->|].
    - destruct Hst as [-> ->]. exact Href.
    - destruct Hst as (-> & -> & _). rewrite (proj2 (Z.eqb_neq hdr 0)) by lia. by subst d1. }
  cbn [mbind result_bind]. rewrite Hc. cbn [mbind result_bind].
  assert (tso_len q1 <= MTU) as Hle by (unfold MTU in *; lia).
  rewrite (proj2 (Z.ltb_ge MTU _) Hle), Hs. cbn [mbind result_bind tso_off set_field].
  rewrite Eo1. destruct (Z.ltb_spec limit total) as [Hlt|Hge].
  - eexists. split; [exact Hseg|]. split; [done|]. split; [|cbn; congruence].
    unfold before. rewrite (proj2 (Z.eqb_neq (k + 1) 0)) by lia. cbn [pktbuf tso_off tso_len set_field].
    split; [done|]. split; [done|]. split; [lia|].
    change (maclen l + iplen l + l4len l) with hdr. rewrite wrap_small by (unfold in_width; lia). split; [done|].
    replace (limit - (hdr + k * mss)) with mss in Hat2 by lia.
    by replace ((k + 1) * mss) with (k * mss + mss) by lia.
  - assert (limit = total) as E by lia. rewrite Hn by done. unfold finish_unit. cbn [ready_segments set_field].
    rewrite Hr1, Hr. eexists. split; [exact Hseg|]. cbn [take drop fmap list_fmap].
    rewrite take_app_length, drop_app_length. split; [done|]. done.
Qed.

(** The payloads of the segments: chunks of [mss] bytes. *)
Fixpoint chunks (n : nat) (pay : list Z) : list (list Z) :=
  match n with
  | O => []
  | S n' =>
      if Z.of_nat (length pay) <=? mss then [pay]
      else take (Z.to_nat mss) pay :: chunks n' (drop (Z.to_nat mss) pay)
  end.

(** The packets from the [k]-th one on. *)
Fixpoint segments_from (k : Z) (pays pkts : list (list Z)) : Prop :=
  match pays, pkts with
  | [], [] => True
  | pay :: pays', pkt :: pkts' => segment l bs k (k * mss) pay pkt ∧ segments_from (k + 1) pays' pkts'
  | _, _ => False
  end.

Lemma segments_run n k q rest d d1 : 0 < mss → 0 <= k → before k q → hdr + k * mss <= total →
  ready_segments q = cd :: segs ++ rest → (length (drop (Z.to_nat (hdr + k * mss)) bs) < n)%nat → refused k d d1 →
  ∃ pkts m q', tx_steps q d m (pos <$> cd :: segs) q' (send_all pkts d1) ∧
    segments_from k (chunks n (drop (Z.to_nat (hdr + k * mss)) bs)) pkts ∧ idle q' ∧
    ready_segments q' = rest.
Proof.
  pose proof hdr_pos as Hh. intros Hmss. revert k q d d1. induction n as [|n IH]; intros k q d d1 Hk Hb Ho Hr Hn Href; [lia|].
  destruct (segment_step k q rest d d1 Hk Hb Ho Hr Href) as (pkt & q1 & Hseg & Hrun).
  assert (0 <= k * mss) as Hkm by lia. cbn [chunks]. set (o := hdr + k * mss) in *.
  assert (length (drop (Z.to_nat o) bs) = Z.to_nat (total - o)) as Ldr by (rewrite length_drop; lia).
  rewrite Ldr in Hn |- *. rewrite Z2Nat.id by lia.
  destruct (Z.ltb_spec (Z.min total (o + mss)) total) as [Hlt|Hge].
  - destruct Hrun as (Ht & Hb1 & Hr1). rewrite (proj2 (Z.leb_gt _ _)) by lia.
    assert (hdr + (k + 1) * mss = o + mss) as Eo by lia.
    destruct (IH (k + 1) q1 (eth_send pkt d1) (eth_send pkt d1)) as (pkts & m & q' & Hsteps & Hsegs & Hend);
      [lia|done|lia|done|rewrite Eo, length_drop; lia|unfold refused; by rewrite (proj2 (Z.eqb_neq (k + 1) 0)) by lia|].
    exists (pkt :: pkts), (S m), q'. split; [|split; [|exact Hend]].
    + change (pos <$> cd :: segs) with ([] ++ (pos <$> cd :: segs)). by eapply tx_step.
    + replace (Z.min total (o + mss) - o) with mss in Hseg by lia. split; [done|].
      rewrite Eo in Hsegs. rewrite drop_drop. by replace (Z.to_nat o + Z.to_nat mss)%nat with (Z.to_nat (o + mss)) by lia.
  - destruct Hrun as (Ht & Hend). rewrite (proj2 (Z.leb_le _ _)) by lia.
    exists [pkt], 1%nat, q1. split; [|split; [|exact Hend]].
    + rewrite <- (app_nil_r (pos <$> _)). eapply tx_step; [done|constructor].
    + split; [|done]. rewrite take_ge in Hseg by lia. done.
Qed.
End unit.

Lemma chunks_concat mss n pay : 0 < mss → (length pay < n)%nat → concat (chunks mss n pay) = pay.
Proof.
  intros Hm. revert pay. induction n as [|n IH]; intros pay Hn; [lia|]. cbn [chunks].
  destruct (Z.leb_spec (Z.of_nat (length pay)) mss); [apply app_nil_r|].
  cbn [concat]. rewrite IH by (rewrite length_drop; lia). apply take_drop.
Qed.

Lemma chunks_len mss n pay k c : 0 < mss → (length pay < n)%nat → chunks mss n pay !! k = Some c →
  Z.of_nat (length c) <= mss ∧ (S k < length (chunks mss n pay) → Z.of_nat (length c) = mss)%nat.
Proof.
  intros Hm. revert pay k. induction n as [|n IH]; intros pay k Hn; [lia|]. cbn [chunks].
  destruct (Z.leb_spec (Z.of_nat (length pay)) mss).
  - destruct k; [|done]. intros [= <-]. simpl. lia.
  - destruct k as [|k]; cbn [lookup list_lookup length].
    + intros [= <-]. rewrite length_take. lia.
    + intros Hc. apply IH in Hc; [|rewrite length_drop; lia]. split; [apply Hc|]. intros. apply Hc. lia.
Qed.

(** ** Queues of units *)

Inductive tx_job :=
| Plain (segs : list tx_desc_ctx) (l : tx_lens)
| Tso (cd : tx_desc_ctx) (segs : list tx_desc_ctx) (l : tx_lens) (mss : Z).

Definition job_descs (j : tx_job) : list tx_desc_ctx :=
  match j with Plain segs _ => segs | Tso cd segs _ _ => cd :: segs end.

Definition job_ok (j : tx_job) : Prop :=
  match j with
  | Plain segs l => tx_unit segs l ∧ Z.of_nat (length (seg_bytes segs)) <= MTU ∧
      is_Some (packet_of l (seg_bytes segs))
  | Tso cd segs l mss => tso_unit cd segs l mss ∧ 0 < mss
  end.

(** The packets of a unit.  For segmentation: the payload is cut into pieces of
    [mss] bytes, the last one possibly shorter, and each gets the headers of its
    place. *)
Definition job_sends (j : tx_job) (pkts : list (list Z)) : Prop :=
  match j with
  | Plain segs l => ∃ pkt, packet_of l (seg_bytes segs) = Some pkt ∧ pkts = [pkt]
  | Tso cd segs l mss => ∃ pays,
      concat pays = drop (Z.to_nat (hdr_len l)) (seg_bytes segs) ∧
      (∀ k pay, pays !! k = Some pay → Z.of_nat (length pay) <= mss ∧
        (S k < length pays → Z.of_nat (length pay) = mss)%nat) ∧
      segments_from segs l mss 0 pays pkts
  end.

Section queue.
Context {D : Type} `{TxDriver D}.

(** A unit that the hardware refuses is segmented by the model. *)
Lemma tso_run cd segs l mss rest q d d1 : tso_unit cd segs l mss → 0 < mss → idle q →
  ready_segments q = cd :: segs ++ rest → hw_tso segs (mkTso (maclen l) (iplen l) (l4len l) mss) d = Ok (false, d1) →
  ∃ pkts m q', tx_steps q d m (pos <$> cd :: segs) q' (send_all pkts d1) ∧ job_sends (Tso cd segs l mss) pkts ∧
    idle q' ∧ ready_segments q' = rest.
Proof.
  intros Hj Hm Hq Hr Href. pose proof (tso_hdr _ _ _ _ Hj).
  set (pay := drop (Z.to_nat (hdr_len l)) (seg_bytes segs)).
  destruct (segments_run cd segs l mss Hj (S (length pay)) 0 q rest d d1)
    as (pkts & m & q' & Hs & Hsegs & Hend); try (done || (simpl; rewrite Z.add_0_r; done || lia)).
  { destruct Hq as (? & ? & ? & ?). done. }
  { rewrite Z.add_0_r. fold pay. lia. }
  rewrite Z.add_0_r in Hsegs. fold pay in Hsegs.
  exists pkts, m, q'. split; [done|]. split; [|done]. exists (chunks mss (S (length pay)) pay).
  split; [apply chunks_concat; [exact Hm|apply Nat.lt_succ_diag_r]|]. split; [|done]. intros k c Hc.
  by apply chunks_len in Hc; [|exact Hm|apply Nat.lt_succ_diag_r].
Qed.

Context (Hhw : ∀ bytes lst a d, eth_send_tso bytes lst a d = (false, d)).

Lemma job_run j rest q d : job_ok j → idle q → ready_segments q = job_descs j ++ rest →
  ∃ pkts m q', tx_steps q d m (pos <$> job_descs j) q' (send_all pkts d) ∧ job_sends j pkts ∧
    idle q' ∧ ready_segments q' = rest.
Proof using Hhw.
  destruct j as [segs l|cd segs l mss]; simpl; intros Hj Hq Hr.
  - destruct Hj as (Hu & Hmtu & [pkt Hp]).
    destruct (plain_packet segs l rest q d pkt Hu Hq Hr Hmtu Hp) as (q' & Ht & Hq' & Hr').
    exists [pkt], 1%nat, q'. split; [|split; [by exists pkt|done]].
    rewrite <- (app_nil_r (pos <$> segs)). eapply tx_step; [done|constructor].
  - destruct Hj as [Hj Hm]. apply (tso_run cd segs l mss rest q d d Hj Hm Hq Hr). by eapply hw_refused.
Qed.

(** C7. Transmission: for a queue of complete units, plain or to be segmented in
    software, followed by an incomplete one, the loop ends; for every unit, in
    order, it sends the packets of the unit: the bytes of a plain unit with its
    checksum, or segments whose payloads make up the payload of the unit, with the
    right lengths, identification and sequence numbers, an acceptable IP checksum
    and, if the IP header has no options, an acceptable TCP checksum.  Exactly the
    descriptors of the complete units are handed back. *)
Theorem trigger_tx_units jobs partial q d : Forall job_ok jobs → incomplete partial → idle q →
  ready_segments q = concat (job_descs <$> jobs) ++ partial →
  ∃ pktss n q', Forall2 job_sends jobs pktss ∧ idle q' ∧ ready_segments q' = partial ∧
    ∀ fuel, (n < fuel)%nat → trigger_tx fuel q d =
      Ok (Some (pos <$> concat (job_descs <$> jobs), q', send_all (concat pktss) d)).
Proof.
  intros Hj Hp Hq Hr.
  enough (∃ pktss n q', Forall2 job_sends jobs pktss ∧ idle q' ∧ ready_segments q' = partial ∧
    tx_steps q d n (pos <$> concat (job_descs <$> jobs)) q' (send_all (concat pktss) d))
    as (pktss & n & q' & ? & ? & ? & ?).
  { exists pktss, n, q'. split_and!; try done. intros. by eapply trigger_tx_steps. }
  revert q d Hq Hr. induction Hj as [|j jobs Hj Hjs IH]; intros q d Hq Hr.
  { exists [], 0%nat, q. split_and!; try done; constructor. }
  simpl in Hr. rewrite <- app_assoc in Hr.
  destruct (job_run j _ q d Hj Hq Hr) as (pkts & m & q1 & Hs & Hsend & Hq1 & Hr1).
  destruct (IH q1 (send_all pkts d) Hq1 Hr1) as (pktss & n & q' & HF & Hq' & Hr' & Hs').
  exists (pkts :: pktss), (m + n)%nat, q'. split_and!; try done; [by constructor|].
  simpl. rewrite fmap_app. unfold send_all in *. rewrite foldl_app. by eapply tx_steps_app.
Qed.

(** ** Units that do not end

    A plain unit of one empty descriptor, and a segmentation unit whose maximal
    segment size is zero. *)
Definition empty_unit (q : lan_queue_tx) : Prop := ∃ rd rest,
  ready_segments q = rd :: rest ∧ idle q ∧ data_desc rd ∧ is_eop rd = true ∧ data rd = [] ∧
  l4t (lens_of (qw1 rd)) = 0.

Definition zero_mss_unit (q : lan_queue_tx) : Prop := ∃ cd segs l rest,
  ready_segments q = cd :: segs ++ rest ∧ idle q ∧ tso_unit cd segs l 0 ∧
  hdr_len l < Z.of_nat (length (seg_bytes segs)).

Lemma empty_unit_packet q d : empty_unit q → ∃ q', trigger_tx_packet q d = Ok (true, [], q', eth_send [] d) ∧ empty_unit q'.
Proof.
  intros (rd & rest & Hr & Hq & Hd & He & Hz & Hl4). pose proof Hd as (Hdt & Hsz & _).
  destruct Hq as (Ho & Hl & Hb & Hok). rewrite Hz in Hsz.
  unfold trigger_tx_packet. rewrite Hr. cbn [drop]. rewrite Hdt.
  change (ICE_TX_DESC_DTYPE_DATA =? ICE_TX_DESC_DTYPE_CTX) with false. cbn [andb negb drop find_eop].
  unfold is_eop in He. rewrite Hdt, Hsz, He. cbn [negb mret result_ret mbind result_bind].
  change (ICE_TX_DESC_DTYPE_DATA =? ICE_TX_DESC_DTYPE_DATA) with true. cbn [negb mret result_ret mbind result_bind].
  change (u32 (0 + Z.of_nat (length []))) with 0. change (MTU <? 0) with false. cbn [mbind result_bind]. rewrite copy_loop_stop by done.
  cbn [mbind result_bind]. rewrite Hl. change (MTU <? 0) with false.
  unfold send_plain. rewrite Hl4, Hl. change (0 =? ICE_TX_DESC_CMD_L4T_EOFT_TCP) with false.
  change (0 =? ICE_TX_DESC_CMD_L4T_EOFT_UDP) with false. cbn [mret result_ret mbind result_bind].
  unfold bytes_at. rewrite (proj2 (Z.leb_le _ _)), (proj2 (Z.leb_le _ _)) by lia.
  eexists. split; [done|]. exists rd, rest. done.
Qed.

Lemma zero_mss_packet cd segs l rest k q d : tso_unit cd segs l 0 →
  hdr_len l < Z.of_nat (length (seg_bytes segs)) → 0 <= k → before segs l 0 k q →
  ready_segments q = cd :: segs ++ rest →
  ∃ pkt q', trigger_tx_packet q d = Ok (true, [], q', eth_send pkt d) ∧ before segs l 0 (k + 1) q' ∧
    ready_segments q' = cd :: segs ++ rest.
Proof.
  intros Hu Hlt Hk Hb Hr. destruct (segment_step cd segs l 0 Hu k q rest d d Hk Hb) as (pkt & q' & _ & Hs);
    [lia|done|unfold refused; destruct (k =? 0); [by eapply hw_refused|done]|]. exists pkt, q'. by rewrite (proj2 (Z.ltb_lt _ _)) in Hs by lia.
Qed.

(** A guest can stop the device: an empty descriptor that ends a packet, or a
    segmentation unit with a maximal segment size of zero, and the transmit loop
    never ends. *)
Theorem trigger_tx_hangs q d fuel : empty_unit q ∨ zero_mss_unit q → trigger_tx fuel q d = Ok None.
Proof.
  intros [Hq|(cd & segs & l & rest & Hr & (? & ? & ? & ?) & Hu & Hlt)].
  - revert q d Hq. induction fuel as [|fuel IH]; intros q d Hq; [done|]. cbn [trigger_tx].
    destruct (empty_unit_packet q d Hq) as (q' & -> & Hq'). cbn [mbind result_bind]. by rewrite IH.
  - assert (before segs l 0 0 q) as Hb by done. assert (0 <= 0) as Hk by done. revert Hk Hb Hr.
    generalize 0 at 2 4 as k. clear -Hu Hlt Hhw. revert q d.
    induction fuel as [|fuel IH]; intros q d k Hk Hb Hr; [done|]. cbn [trigger_tx].
    destruct (zero_mss_packet cd segs l rest k q d) as (pkt & q' & -> & Hb' & Hr'); try done.
    cbn [mbind result_bind]. rewrite (IH q' _ (k + 1)) by (done || lia). done.
Qed.

(** A guest can make the device write behind its packet buffer: a segment that
    is longer than the buffer is copied before its length is checked. *)
Theorem tso_overflow cd rd rest l mss q d : tso_ctx cd mss → tx_unit [rd] l → idle q →
  ready_segments q = cd :: rd :: rest → MTU < Z.of_nat (length (data rd)) → MTU < hdr_len l + mss →
  hdr_len l + mss < 2 ^ 32 → trigger_tx_packet q d = Undef.
Proof.
  intros (Hdt & Hts & Hms) Hu (Ho & Hl & Hb & _) Hr Hlen Hmss Hw. pose proof (unit_lens _ _ Hu).
  unfold hdr_len, MTU in *. assert (seg_bytes [rd] = data rd) as Eb by apply app_nil_r.
  pose proof (unit_len _ _ Hu) as Hw'. rewrite Eb in Hw'. destruct (Forall_inv (unit_data _ _ Hu)) as (_ & _ & Hsz).
  unfold trigger_tx_packet. rewrite Hr, Hdt, Z.eqb_refl. cbn [andb]. rewrite Hts, Hms. cbn [negb andb drop].
  pose proof (find_eop_unit [rd] l rest 1 Hu) as Hf. cbn [app] in Hf. rewrite Hf, Ho, Hl, Eb.
  cbn [mbind result_bind Z.eqb andb take Nat.sub Nat.add length]. rewrite take_0.
  cbn [hw_tso]. rewrite Hsz, Nat2Z.id. unfold bytes_at at 1.
  rewrite (proj2 (Z.leb_le _ _)), (proj2 (Z.leb_le _ _)) by lia. cbn [andb of_opt mbind result_bind].
  rewrite Hhw. cbn [mret result_ret mbind result_bind copy_loop].
  rewrite (wrap_small 32 (_ + mss)) by (unfold in_width; lia). rewrite Hsz, Ho, Hl, Z.add_0_l.
  rewrite (proj2 (Z.ltb_lt 0 _)) by lia. rewrite (wrap_small 32 (Z.of_nat _)) by done.
  rewrite (proj2 (Z.ltb_lt 0 _)) by lia. cbn [andb Z.leb Z.compare]. rewrite !Z.sub_0_r.
  unfold bytes_at. rewrite (proj2 (Z.leb_le 0 0)), (proj2 (Z.leb_le _ _)) by lia.
  cbn [andb of_opt mbind result_bind]. unfold put_bytes.
  rewrite length_sub by lia. rewrite (proj2 (Z.leb_gt _ (Z.of_nat (length (pktbuf q))))) by lia. done.
Qed.
End queue.

(** ** A driver and units *)

(** Sends in software only and keeps what it sent. *)
#[export] Instance log_driver : TxDriver (list (list Z)) := {
  eth_send pkt d := d ++ [pkt];
  eth_send_tso _ _ _ d := (false, d)
}.

Lemma log_refuses bytes lst a (d : list (list Z)) : eth_send_tso bytes lst a d = (false, d).
Proof. done. Qed.

Definition demo_lens : tx_lens := mkLens 0 14 20 20.
Definition demo_cd (mss : Z) : tx_desc_ctx := mkTxDesc 0 (1 + 2 ^ 4 + 2 ^ 50 * mss) [].
(** The headers and the payload of [demo_frame] in two buffers. *)
Definition demo_segs : list tx_desc_ctx :=
  [mkTxDesc 1 (2 ^ 34 * 54) (take 54 demo_frame);
   mkTxDesc 2 (2 ^ 4 + 2 ^ 16 * (7 + 2 ^ 7 * 5 + 2 ^ 14 * 5) + 2 ^ 34 * 5) (drop 54 demo_frame)].
Definition demo_plain : tx_desc_ctx := mkTxDesc 3 (2 ^ 4 + 2 ^ 34 * 59) demo_frame.
Definition demo_empty : tx_desc_ctx := mkTxDesc 0 (2 ^ 4) [].
Definition demo_txq (segs : list tx_desc_ctx) : lan_queue_tx := mkTxq (replicate (Z.to_nat MTU) 0) 0 0 segs.

Lemma demo_txq_idle segs : idle (demo_txq segs).
Proof. unfold idle. split_and!; try done. by apply Forall_replicate. Qed.

Lemma demo_unit : tx_unit demo_segs demo_lens.
Proof.
  split; [by repeat constructor|exists (take 1 demo_segs), (default demo_empty (demo_segs !! 1%nat))| |done].
  - split_and!; try done. by repeat constructor.
  - by apply bytes_ok_check.
Qed.

Lemma demo_tso mss : 0 <= mss < 2 ^ 14 → ctx_mss (qw1 (demo_cd mss)) = mss →
  nz (ctx_cmd (qw1 (demo_cd mss)) .& ICE_TX_CTX_DESC_TSO) = true →
  dtype (qw1 (demo_cd mss)) = ICE_TX_DESC_DTYPE_CTX → tso_unit (demo_cd mss) demo_segs demo_lens mss.
Proof.
  intros Hm H1 H2 H3. split; [done|apply demo_unit|unfold tcp_lens; simpl; lia|lia|done|..].
  - unfold MTU. change (Z.of_nat (length (seg_bytes demo_segs))) with 59. lia.
  - change (Z.of_nat (length (seg_bytes demo_segs))) with 59. lia.
Qed.

Lemma trigger_tx_units_witness : ∃ pkts n q',
  job_sends (Tso (demo_cd 2) demo_segs demo_lens 2) pkts ∧
  ∀ fuel, (n < fuel)%nat →
    trigger_tx fuel (demo_txq (demo_cd 2 :: demo_segs ++ [demo_plain])) [] =
    Ok (Some ([0; 1; 2; 3], q', send_all (pkts ++ [demo_frame]) [])).
Proof.
  destruct (trigger_tx_units log_refuses
    [Tso (demo_cd 2) demo_segs demo_lens 2; Plain [demo_plain] (mkLens 0 0 0 0)] []
    (demo_txq (demo_cd 2 :: demo_segs ++ [demo_plain])) [])
    as (pktss & n & q' & HF & _ & _ & Hrun).
  - constructor; [|constructor; [|constructor]].
    + split; [by apply demo_tso|done].
    + split; [|split; [vm_compute; discriminate|by eexists]].
      split; [by repeat constructor|exists [], demo_plain; split_and!; done| |done].
      apply bytes_ok_check. reflexivity.
  - split; constructor.
  - apply demo_txq_idle.
  - reflexivity.
  - inversion HF as [|? pkts1 ? pktss' H1 HF' ]; subst.
    inversion HF' as [|? pkts2 ? pktss'' H2 HF'']; subst. inversion HF''; subst.
    destruct H2 as (pkt & Hp & ->). injection Hp as <-.
    exists pkts1, n, q'. split; [done|]. intros fuel Hf. rewrite (Hrun fuel Hf). reflexivity.
Defined.

Lemma trigger_tx_hangs_witness :
  trigger_tx 1000 (demo_txq [demo_empty]) [] = Ok None ∧
  trigger_tx 1000 (demo_txq (demo_cd 0 :: demo_segs)) [] = Ok None.
Proof.
  split; apply (trigger_tx_hangs log_refuses).
  - left. exists demo_empty, []. split_and!; done || apply demo_txq_idle.
  - right. exists (demo_cd 0), demo_segs, demo_lens, []. split_and!; try done.
    + apply demo_txq_idle.
    + by apply demo_tso.
Defined.

Definition demo_long : tx_desc_ctx := mkTxDesc 1 (2 ^ 4 + 2 ^ 34 * 10000) (replicate (Z.to_nat 10000) 0).

Lemma demo_long_bytes : seg_bytes [demo_long] = replicate (Z.to_nat 10000) 0.
Proof. apply app_nil_r. Qed.

Lemma demo_long_len : Z.of_nat (length (data demo_long)) = 10000.
Proof. unfold demo_long. cbn [data]. by rewrite length_replicate, Z2Nat.id. Qed.

Lemma demo_long_unit : tx_unit [demo_long] (mkLens 0 0 0 0).
Proof.
  split.
  - constructor; [|constructor]. unfold data_desc. rewrite demo_long_len. by vm_compute.
  - exists [], demo_long. split_and!; [done|by vm_compute|constructor| |by vm_compute]. intros E.
    pose proof demo_long_len as El. rewrite E in El. discriminate El.
  - rewrite demo_long_bytes. by apply Forall_replicate.
  - rewrite demo_long_bytes, length_replicate, Z2Nat.id by done. done.
Qed.

Lemma tso_overflow_witness :
  trigger_tx_packet (demo_txq [demo_cd 9025; demo_long]) [] = Undef.
Proof.
  apply (tso_overflow log_refuses (demo_cd 9025) demo_long [] (mkLens 0 0 0 0) 9025).
  - by vm_compute.
  - apply demo_long_unit.
  - apply demo_txq_idle.
  - reflexivity.
  - by rewrite demo_long_len.
  - done.
  - done.
Defined.
