(* ===== verification/E810Queue.v ===== *)
(** * Descriptor queues

    [queue_base] of e810_queues.cc: the ring of descriptors shared by the transmit
    and receive queues.  Descriptors are fetched in batches, prepared out of order,
    handed to the subclass in order ([process]), finished out of order
    ([processed]) and written back in order.  Transfers of memory complete later:
    an operation that starts one returns it. *)
From S2P Require Import Prelude Bytes E810Base.
Local Open Scope Z_scope.

Definition MAX_ACTIVE_DESCS : Z := 128.
Definition UINT32_MAX : Z := 0xffffffff.

Inductive dstate :=
| DESC_EMPTY | DESC_FETCHING | DESC_PREPARING | DESC_PREPARED
| DESC_PROCESSING | DESC_PROCESSED | DESC_WRITING_BACK | DESC_WRITTEN_BACK.

#[export] Instance dstate_eq_dec : EqDecision dstate.
Proof. solve_decision. Defined.

(** [state <= DESC_PREPARED] *)
Definition le_prepared (s : dstate) : bool :=
  match s with DESC_EMPTY | DESC_FETCHING | DESC_PREPARING | DESC_PREPARED => true | _ => false end.

Record desc_ctx := mkCtx { state : dstate; index : Z; desc : list Z }.
#[export] Instance ctx_settable : Settable desc_ctx := fun r => mkCtx (state r) (index r) (desc r).

Record queue_base := mkQueue {
  desc_ctxs : list desc_ctx; active_first_pos : Z; active_first_idx : Z; active_cnt : Z;
  base : Z; len : Z; reg_head : Z; reg_tail : Z; enabled : bool; desc_len : Z
}.
#[export] Instance queue_settable : Settable queue_base := fun r =>
  mkQueue (desc_ctxs r) (active_first_pos r) (active_first_idx r) (active_cnt r)
    (base r) (len r) (reg_head r) (reg_tail r) (enabled r) (desc_len r).

(** A transfer of [dma_cnt] descriptors from or to the contexts at [dma_pos]. *)
Record dma := mkDma { dma_addr : Z; dma_pos : Z; dma_cnt : Z; dma_data : list Z }.

(** [x % MAX_ACTIVE_DESCS] *)
Definition slot (x : Z) : Z := u32 x mod MAX_ACTIVE_DESCS.

Definition max_fetch_capacity : Z := UINT32_MAX.
Definition max_active_capacity : Z := UINT32_MAX.
Definition max_writeback_capacity : Z := UINT32_MAX.

(** ** Loops over contexts *)

(** Change the [n] contexts from [pos] on. *)
Definition update_each (pos : Z) (n : Z) (f : Z → desc_ctx → result desc_ctx) (cs : list desc_ctx)
    : result (list desc_ctx) :=
  for_res (Z.to_nat n) 0 (fun i cs =>
    c ← of_opt (rd cs (slot (pos + i)));
    c ← f i c;
    of_opt (wr cs (slot (pos + i)) c)) cs.

(** The number of contexts, among the [n] after the first [i] of [pos], up to the
    first one that does not satisfy [f]. *)
Fixpoint scan (f : dstate → bool) (n : nat) (i pos : Z) (cs : list desc_ctx) : result Z :=
  match n with
  | O => Ok i
  | S n' =>
      c ← of_opt (rd cs (slot (pos + i)));
      if f (state c) then scan f n' (i + 1) pos cs else Ok i
  end.

(** Move the contexts from [pos] on from state [st] to [st'], up to the first one in
    another state: the contexts and their number. *)
Fixpoint sweep (st st' : dstate) (n : nat) (i pos : Z) (cs : list desc_ctx) : result (list desc_ctx * Z) :=
  match n with
  | O => Ok (cs, i)
  | S n' =>
      c ← of_opt (rd cs (slot (pos + i)));
      if bool_decide (state c = st) then
        cs ← of_opt (wr cs (slot (pos + i)) (c <| state := st' |>));
        sweep st st' n' (i + 1) pos cs
      else Ok (cs, i)
  end.

(** ** Operations *)

Definition desc_avail (q : queue_base) (next_idx : Z) : Z := u32 (reg_tail q - next_idx) mod len q.

Definition fetch_count (q : queue_base) (next_idx : Z) : Z :=
  let fetch_cnt := Z.min (desc_avail q next_idx) (u32 (MAX_ACTIVE_DESCS - active_cnt q)) in
  let fetch_cnt :=
    if max_active_capacity <=? active_cnt q
    then Z.min fetch_cnt (u32 (max_active_capacity - active_cnt q)) else fetch_cnt in
  let fetch_cnt := Z.min fetch_cnt max_fetch_capacity in
  if len q <? u32 (next_idx + fetch_cnt) then u32 (len q - next_idx) else fetch_cnt.

Definition trigger_fetch (q : queue_base) : result (queue_base * option dma) :=
  if negb (enabled q) then Ok (q, None)
  else if len q =? 0 then Undef
  else
    let next_idx := u32 (active_first_idx q + active_cnt q) mod len q in
    let fetch_cnt := fetch_count q next_idx in
    if fetch_cnt =? 0 then Ok (q, None)
    else
      let first_pos := slot (active_first_pos q + active_cnt q) in
      cs ← update_each first_pos fetch_cnt (fun i c =>
             _ ← assert_ (bool_decide (state c = DESC_EMPTY));
             Ok (c <| state := DESC_FETCHING |> <| index := u32 (next_idx + i) mod len q |>)) (desc_ctxs q);
      Ok (q <| desc_ctxs := cs |> <| active_cnt := u32 (active_cnt q + fetch_cnt) |>,
          Some (mkDma (u64 (base q + next_idx * desc_len q)) first_pos fetch_cnt [])).

(** The contexts handed to [process] are the [snd] ones from the first on. *)
Definition trigger_process (q : queue_base) : result (queue_base * list Z) :=
  if negb (enabled q) then Ok (q, [])
  else
    i ← scan (fun s => negb (le_prepared s)) (Z.to_nat (active_cnt q)) 0 (active_first_pos q) (desc_ctxs q);
    '(cs, k) ← sweep DESC_PREPARED DESC_PROCESSING (Z.to_nat (active_cnt q - i)) i (active_first_pos q) (desc_ctxs q);
    Ok (q <| desc_ctxs := cs |>, (fun j => slot (active_first_pos q + j)) <$> seqZ i (k - i)).

Definition do_writeback (first_idx first_pos cnt : Z) (q : queue_base) : result dma :=
  data ← for_res (Z.to_nat cnt) 0 (fun i data =>
           c ← of_opt (rd (desc_ctxs q) (slot (first_pos + i)));
           _ ← assert_ (bool_decide (state c = DESC_WRITING_BACK));
           Ok (data ++ desc c)) [];
  Ok (mkDma (u64 (base q + first_idx * desc_len q)) first_pos cnt data).

Definition trigger_writeback (q : queue_base) : result (queue_base * option dma) :=
  if negb (enabled q) then Ok (q, None)
  else
    avail ← scan (fun s => bool_decide (s = DESC_PROCESSED)) (Z.to_nat (active_cnt q)) 0
              (active_first_pos q) (desc_ctxs q);
    let cnt := Z.min avail max_writeback_capacity in
    let cnt := if len q <? u32 (active_first_idx q + cnt) then u32 (len q - active_first_idx q) else cnt in
    if cnt =? 0 then Ok (q, None)
    else
      cs ← update_each (active_first_pos q) cnt (fun _ c => Ok (c <| state := DESC_WRITING_BACK |>)) (desc_ctxs q);
      let q := q <| desc_ctxs := cs |> in
      d ← do_writeback (active_first_idx q) (active_first_pos q) cnt q;
      Ok (q, Some d).

Definition writeback_done (first_pos cnt : Z) (q : queue_base) : result queue_base :=
  if negb (enabled q) then Ok q
  else if len q =? 0 then Undef
  else
    cs ← update_each first_pos cnt (fun _ c =>
           _ ← assert_ (bool_decide (state c = DESC_WRITING_BACK));
           Ok (c <| state := DESC_WRITTEN_BACK |>)) (desc_ctxs q);
    '(cs, bump_cnt) ← sweep DESC_WRITTEN_BACK DESC_EMPTY (Z.to_nat (active_cnt q)) 0 (active_first_pos q) cs;
    let idx := u32 (active_first_idx q + bump_cnt) mod len q in
    Ok (q <| desc_ctxs := cs |> <| active_first_pos := slot (active_first_pos q + bump_cnt) |>
          <| active_first_idx := idx |> <| active_cnt := u32 (active_cnt q - bump_cnt) |> <| reg_head := idx |>).

(** [trigger]; the transfers are left to the caller. *)
Definition trigger (q : queue_base) : result (queue_base * option dma * list Z * option dma) :=
  '(q, f) ← trigger_fetch q;
  '(q, ps) ← trigger_process q;
  '(q, w) ← trigger_writeback q;
  Ok (q, f, ps, w).

Definition reg_updated (q : queue_base) : result (queue_base * option dma * list Z * option dma) :=
  if negb (enabled q) then Ok (q, None, [], None) else trigger q.

Definition reset (q : queue_base) : queue_base :=
  q <| enabled := false |> <| active_first_pos := 0 |> <| active_first_idx := 0 |> <| active_cnt := 0 |>
    <| desc_ctxs := (fun c => c <| state := DESC_EMPTY |>) <$> desc_ctxs q |>.

(** ** One context *)

Definition update_ctx (pos : Z) (f : desc_ctx → result desc_ctx) (q : queue_base) : result queue_base :=
  c ← of_opt (rd (desc_ctxs q) pos);
  c ← f c;
  cs ← of_opt (wr (desc_ctxs q) pos c);
  Ok (q <| desc_ctxs := cs |>).

(** One round of the loop in [dma_fetch::done], up to the call of [prepare]. *)
Definition fetched (pos : Z) (bytes : list Z) (q : queue_base) : result queue_base :=
  update_ctx pos (fun c => Ok (c <| desc := bytes |> <| state := DESC_PREPARING |>)) q.

Definition prepared (pos : Z) (q : queue_base) : result queue_base :=
  update_ctx pos (fun c =>
    _ ← assert_ (bool_decide (state c = DESC_PREPARING)); Ok (c <| state := DESC_PREPARED |>)) q.

Definition processed (pos : Z) (q : queue_base) : result queue_base :=
  update_ctx pos (fun c =>
    _ ← assert_ (bool_decide (state c = DESC_PROCESSING)); Ok (c <| state := DESC_PROCESSED |>)) q.
