(* ===== verification/E810QueueSpec.v ===== *)
(** * Descriptor queues: order and safety

    The queue together with its environment, as a transition system: the driver
    moves the tail, transfers complete in any order, the subclass finishes
    descriptors in any order. *)
From S2P Require Import Prelude Bytes E810Base E810Queue.
Local Open Scope Z_scope.

(** ** Contexts by descriptor number

    Descriptor number [m] (counted since the reset) uses the context at
    [m mod 128]. *)
Definition ctx_of (cs : list desc_ctx) (m : Z) : option desc_ctx := cs !! Z.to_nat (m mod 128).

Lemma slot_mod x y : x mod 128 = y mod 128 → slot x = y mod 128.
Proof.
  intros E. unfold slot, MAX_ACTIVE_DESCS, wrap.
  rewrite Z.mod_mod_divide by (by exists 33554432). done.
Qed.

Section contexts.
Context (cs : list desc_ctx) (Hcs : length cs = 128%nat).

Lemma ctx_total m : is_Some (ctx_of cs m).
Proof. apply lookup_lt_is_Some. pose proof (Z.mod_pos_bound m 128 ltac:(lia)). lia. Qed.

Lemma rd_slot x m : x mod 128 = m mod 128 → rd cs (slot x) = ctx_of cs m.
Proof.
  intros E. rewrite (slot_mod x m E). pose proof (Z.mod_pos_bound m 128 ltac:(lia)).
  unfold rd. by rewrite (proj2 (Z.leb_le 0 _)) by lia.
Qed.

Lemma wr_slot x m c : x mod 128 = m mod 128 → ∃ cs', wr cs (slot x) c = Some cs' ∧
  length cs' = 128%nat ∧ ctx_of cs' m = Some c ∧
  ∀ m', m' mod 128 ≠ m mod 128 → ctx_of cs' m' = ctx_of cs m'.
Proof.
  intros E. rewrite (slot_mod x m E). pose proof (Z.mod_pos_bound m 128 ltac:(lia)).
  rewrite wr_in_range by lia. eexists. split; [done|]. split; [by rewrite length_insert|]. unfold ctx_of. split.
  - apply list_lookup_insert_eq. lia.
  - intros m' Hne. pose proof (Z.mod_pos_bound m' 128 ltac:(lia)). apply list_lookup_insert_ne. lia.
Qed.
End contexts.

(** Numbers less than 128 apart have different contexts. *)
Lemma slot_ne a b : a < b < a + 128 → a mod 128 ≠ b mod 128.
Proof.
  intros Hab E. pose proof (Z.div_mod a 128 ltac:(lia)). pose proof (Z.div_mod b 128 ltac:(lia)).
  assert (128 * (b / 128 - a / 128) = b - a) by lia. lia.
Qed.

Lemma ctx_period cs m : ctx_of cs (m + 128) = ctx_of cs m.
Proof. unfold ctx_of. rewrite Z.add_mod, Z.mod_same, Z.add_0_r, Z.mod_mod by lia. done. Qed.

(** ** The loops *)

Lemma pos_add pos m0 i : pos = m0 mod 128 → (pos + i) mod 128 = (m0 + i) mod 128.
Proof. intros ->. by rewrite Zplus_mod_idemp_l. Qed.

Lemma update_each_spec pos n f cs m0 : length cs = 128%nat → pos = m0 mod 128 → 0 <= n <= 128 →
  (∀ i c, 0 <= i < n → ctx_of cs (m0 + i) = Some c → ∃ c', f i c = Ok c') →
  ∃ cs', update_each pos n f cs = Ok cs' ∧ length cs' = 128%nat ∧
    (∀ i c c', 0 <= i < n → ctx_of cs (m0 + i) = Some c → f i c = Ok c' → ctx_of cs' (m0 + i) = Some c') ∧
    (∀ i, n <= i < 128 → ctx_of cs' (m0 + i) = ctx_of cs (m0 + i)).
Proof.
  intros Hcs Hpos Hn Hf. unfold update_each.
  destruct (for_res_total (fun k cs' => length cs' = 128%nat ∧
    (∀ i c c', 0 <= i < k → ctx_of cs (m0 + i) = Some c → f i c = Ok c' → ctx_of cs' (m0 + i) = Some c') ∧
    (∀ i, k <= i < 128 → ctx_of cs' (m0 + i) = ctx_of cs (m0 + i))) (Z.to_nat n) 0
    (fun i cs => c ← of_opt (rd cs (slot (pos + i))); c ← f i c; of_opt (wr cs (slot (pos + i)) c)) cs)
    as (cs' & -> & Hlen & Hin & Hout).
  - split; [done|]. split; [lia|done].
  - intros k cs1 Hk (Hl1 & Hin & Hout). pose proof (pos_add pos m0 k Hpos) as Ep.
    rewrite (rd_slot cs1 Hl1 _ _ Ep), Hout by lia. destruct (ctx_total cs Hcs (m0 + k)) as [c Ec].
    rewrite Ec. cbn [of_opt mbind result_bind]. destruct (Hf k c) as [c' Ef]; [lia|done|]. rewrite Ef.
    cbn [mbind result_bind]. destruct (wr_slot cs1 Hl1 _ _ c' Ep) as (cs2 & -> & Hl2 & Heq & Hne).
    exists cs2. split; [done|]. split; [done|]. split.
    + intros i c0 c1 Hi Hc0 Hf0. destruct (decide (i = k)) as [->|]; [congruence|].
      rewrite Hne by (apply slot_ne; lia). apply (Hin i c0); [lia|done..].
    + intros i Hi. rewrite Hne by (apply not_eq_sym, slot_ne; lia). apply Hout. lia.
  - rewrite Z2Nat.id in * by lia. exists cs'. done.
Qed.

Lemma active_scan_spec f n i pos cs m0 : length cs = 128%nat → pos = m0 mod 128 →
  ∃ k, scan f n i pos cs = Ok k ∧ i <= k <= i + Z.of_nat n ∧
    (∀ j c, i <= j < k → ctx_of cs (m0 + j) = Some c → f (state c) = true) ∧
    (∀ c, k < i + Z.of_nat n → ctx_of cs (m0 + k) = Some c → f (state c) = false).
Proof.
  intros Hcs Hpos. revert i. induction n as [|n IH]; intros i; cbn [scan].
  { exists i. split; [done|]. split_and!; lia. }
  rewrite (rd_slot cs Hcs _ (m0 + i)) by by apply pos_add.
  destruct (ctx_total cs Hcs (m0 + i)) as [c Ec]. rewrite Ec. cbn [of_opt mbind result_bind].
  destruct (f (state c)) eqn:Ef.
  - destruct (IH (i + 1)) as (k & -> & Hk & Hin & Hend). exists k. split; [done|]. split; [lia|]. split.
    + intros j c' Hj Hc'. destruct (decide (j = i)) as [->|]; [congruence|]. apply (Hin j); [lia|done].
    + intros c' Hk' Hc'. apply Hend; [lia|done].
  - exists i. split; [done|]. split; [lia|]. split; [lia|]. intros c' _ Hc'. congruence.
Qed.

Lemma sweep_spec st st' n i pos cs m0 : length cs = 128%nat → pos = m0 mod 128 →
  0 <= i → i + Z.of_nat n <= 128 →
  ∃ cs' k, sweep st st' n i pos cs = Ok (cs', k) ∧ length cs' = 128%nat ∧ i <= k <= i + Z.of_nat n ∧
    (∀ j, i <= j < k → ∃ c, ctx_of cs (m0 + j) = Some c ∧ state c = st ∧
       ctx_of cs' (m0 + j) = Some (c <| state := st' |>)) ∧
    (∀ c, k < i + Z.of_nat n → ctx_of cs (m0 + k) = Some c → state c ≠ st) ∧
    (∀ j, 0 <= j < 128 → j < i ∨ k <= j → ctx_of cs' (m0 + j) = ctx_of cs (m0 + j)).
Proof.
  intros Hcs Hpos. revert i cs Hcs. induction n as [|n IH]; intros i cs Hcs Hi Hn; cbn [sweep].
  { exists cs, i. split; [done|]. split; [done|]. split_and!; try done || lia. }
  pose proof (pos_add pos m0 i Hpos) as Ep. rewrite (rd_slot cs Hcs _ _ Ep).
  destruct (ctx_total cs Hcs (m0 + i)) as [c Ec]. rewrite Ec. cbn [of_opt mbind result_bind].
  case_bool_decide as Est.
  - destruct (wr_slot cs Hcs _ _ (c <| state := st' |>) Ep) as (cs1 & -> & Hl1 & Heq & Hne).
    cbn [of_opt mbind result_bind].
    destruct (IH (i + 1) cs1 Hl1) as (cs' & k & -> & Hl & Hk & Hin & Hend & Hout); [lia..|].
    exists cs', k. split; [done|]. split; [done|]. split; [lia|]. split_and!.
    + intros j Hj. destruct (decide (j = i)) as [->|].
      * exists c. split; [done|]. split; [done|]. rewrite Hout by lia. done.
      * destruct (Hin j) as (c' & Hc' & ?); [lia|]. exists c'. split; [|done].
        rewrite <- Hc'. symmetry. apply Hne, not_eq_sym, slot_ne. lia.
    + intros c' Hk' Hc'. apply Hend; [lia|]. rewrite <- Hc'. apply Hne, not_eq_sym, slot_ne. lia.
    + intros j Hj Hjk. rewrite Hout by lia. destruct (decide (j < i)).
      * apply Hne, slot_ne. lia.
      * apply Hne, not_eq_sym, slot_ne. lia.
  - exists cs, i. split; [done|]. split; [done|]. split; [lia|]. split; [lia|]. split; [|done].
    intros c' _ Hc'. congruence.
Qed.

(** ** The environment *)

(** The queue, the contexts with a transfer of the descriptor, with a preparation
    and in the hands of the subclass, and the write-backs under way. *)
Record sys := mkSys {
  sq : queue_base; p_fetch : list Z; p_prep : list Z; p_proc : list Z; p_wb : list (Z * Z)
}.
#[export] Instance sys_settable : Settable sys := fun r =>
  mkSys (sq r) (p_fetch r) (p_prep r) (p_proc r) (p_wb r).

Inductive event :=
| EvTail (t : Z) | EvFetch | EvFetched (x : Z) (bytes : list Z) | EvPrepared (x : Z)
| EvProcess | EvProcessed (x : Z) | EvWriteback | EvWritten (pos cnt : Z).

(** The number of descriptors posted and not yet written back, for a tail [t]. *)
Definition posted (q : queue_base) (t : Z) : Z := (t - active_first_idx q) mod len q.

(** What the environment may do: the driver moves the tail forward, up to the
    head; only what is under way completes. *)
Definition may (ev : event) (s : sys) : Prop :=
  match ev with
  | EvTail t => 0 <= t < len (sq s) ∧ posted (sq s) (reg_tail (sq s)) <= posted (sq s) t
  | EvFetched x _ => x ∈ p_fetch s
  | EvPrepared x => x ∈ p_prep s
  | EvProcessed x => x ∈ p_proc s
  | EvWritten pos cnt => (pos, cnt) ∈ p_wb s
  | _ => True
  end.

Definition remove (x : Z) (l : list Z) : list Z := filter (fun y => y ≠ x) l.

(** The step of an event and the ring indices of the descriptors that it hands to
    the subclass. *)
Definition exec (ev : event) (s : sys) : result (sys * list Z) :=
  let q := sq s in
  match ev with
  | EvTail t => Ok (s <| sq := q <| reg_tail := t |> |>, [])
  | EvFetch =>
      '(q, o) ← trigger_fetch q;
      let new := match o with
                 | Some d => (fun i => slot (dma_pos d + i)) <$> seqZ 0 (dma_cnt d)
                 | None => [] end in
      Ok (s <| sq := q |> <| p_fetch := p_fetch s ++ new |>, [])
  | EvFetched x bytes =>
      q ← fetched x bytes q;
      Ok (s <| sq := q |> <| p_fetch := remove x (p_fetch s) |> <| p_prep := p_prep s ++ [x] |>, [])
  | EvPrepared x =>
      q ← prepared x q; Ok (s <| sq := q |> <| p_prep := remove x (p_prep s) |>, [])
  | EvProcess =>
      '(q, ps) ← trigger_process q;
      Ok (s <| sq := q |> <| p_proc := p_proc s ++ ps |>,
          (fun x => default 0 (index <$> rd (desc_ctxs q) x)) <$> ps)
  | EvProcessed x =>
      q ← processed x q; Ok (s <| sq := q |> <| p_proc := remove x (p_proc s) |>, [])
  | EvWriteback =>
      '(q, o) ← trigger_writeback q;
      Ok (s <| sq := q |> <| p_wb := p_wb s ++ match o with Some d => [(dma_pos d, dma_cnt d)] | None => [] end |>, [])
  | EvWritten pos cnt =>
      q ← writeback_done pos cnt q;
      Ok (s <| sq := q |> <| p_wb := filter (fun y => y ≠ (pos, cnt)) (p_wb s) |>, [])
  end.

(** Runs from a reset queue that was enabled, with the indices handed out. *)
Definition start (q : queue_base) : sys := mkSys ((reset q) <| enabled := true |>) [] [] [] [].

Inductive run (s0 : sys) : sys → list Z → Prop :=
| run_start : run s0 s0 []
| run_step s out ev s' out' : run s0 s out → may ev s → exec ev s = Ok (s', out') → run s0 s' (out ++ out').

(** ** The invariant *)

Definition st (cs : list desc_ctx) (m : Z) : dstate := default DESC_EMPTY (state <$> ctx_of cs m).

(** [X] lists the contexts in state [d]. *)
Definition pend (d : dstate) (cs : list desc_ctx) (X : list Z) : Prop :=
  NoDup X ∧ (∀ x, x ∈ X → 0 <= x < 128) ∧ ∀ m, m mod 128 ∈ X ↔ st cs m = d.

Definition early (d : dstate) : Prop := d = DESC_FETCHING ∨ d = DESC_PREPARING ∨ d = DESC_PREPARED.
Definition late (d : dstate) : Prop := d = DESC_PROCESSING ∨ d = DESC_PROCESSED ∨ d = DESC_WRITING_BACK.

(** [h] descriptors are written back, [p] were handed out and [f] fetched. *)
Record inv (L h p f : Z) (s : sys) : Prop := {
  i_len : len (sq s) = L ∧ 0 < L < 2 ^ 31;
  i_enabled : enabled (sq s) = true;
  i_ctxs : length (desc_ctxs (sq s)) = 128%nat;
  i_cnt : 0 <= h <= p ∧ p <= f <= h + 128;
  i_first : active_first_pos (sq s) = h mod 128 ∧ active_first_idx (sq s) = h mod L ∧
    active_cnt (sq s) = f - h;
  i_index : ∀ m c, h <= m < f → ctx_of (desc_ctxs (sq s)) m = Some c → index c = m mod L;
  i_late : ∀ m, h <= m < p → late (st (desc_ctxs (sq s)) m);
  i_early : ∀ m, p <= m < f → early (st (desc_ctxs (sq s)) m);
  i_empty : ∀ m, f <= m < h + 128 → st (desc_ctxs (sq s)) m = DESC_EMPTY;
  i_wb : ∃ w, 0 <= w ∧ h + w <= p ∧
    (∀ m, h <= m < p → st (desc_ctxs (sq s)) m = DESC_WRITING_BACK ↔ m < h + w) ∧
    p_wb s = if w =? 0 then [] else [(h mod 128, w)];
  i_fetch : pend DESC_FETCHING (desc_ctxs (sq s)) (p_fetch s);
  i_prep : pend DESC_PREPARING (desc_ctxs (sq s)) (p_prep s);
  i_proc : pend DESC_PROCESSING (desc_ctxs (sq s)) (p_proc s);
  i_tail : 2 ^ 32 mod L = 0 → 0 <= reg_tail (sq s) < L ∧ f - h <= (reg_tail (sq s) - h) mod L
}.

(** ** Lemmas on states *)

Lemma st_some cs m c : ctx_of cs m = Some c → st cs m = state c.
Proof. unfold st. by intros ->. Qed.

Lemma ctx_mod cs m m' : m mod 128 = m' mod 128 → ctx_of cs m = ctx_of cs m'.
Proof. unfold ctx_of. by intros ->. Qed.

Lemma st_mod cs m m' : m mod 128 = m' mod 128 → st cs m = st cs m'.
Proof. unfold st. intros E. by rewrite (ctx_mod cs m m' E). Qed.

Lemma ring_window h m : ∃ i, 0 <= i < 128 ∧ (h + i) mod 128 = m mod 128.
Proof.
  exists ((m - h) mod 128). split; [apply Z.mod_pos_bound; lia|].
  rewrite Zplus_mod_idemp_r. f_equal. lia.
Qed.

Lemma mod_range x : 0 <= x < 128 → x mod 128 = x.
Proof. apply Z.mod_small. Qed.

Section pend.
Context (d : dstate) (cs cs' : list desc_ctx) (X : list Z) (HX : pend d cs X).

Lemma pend_same h : (∀ i, 0 <= i < 128 → st cs' (h + i) = d ↔ st cs (h + i) = d) → pend d cs' X.
Proof.
  destruct HX as (Hnd & Hr & Hin). intros He. split_and!; [done|done|]. intros m.
  destruct (ring_window h m) as (i & Hi & E). rewrite <- (st_mod cs' _ _ E), He, (st_mod cs _ _ E) by done. apply Hin.
Qed.

Lemma pend_add m0 pos i n : pos = m0 mod 128 → 0 <= i → 0 <= n → i + n <= 128 →
  (∀ j, i <= j < i + n → st cs (m0 + j) ≠ d ∧ st cs' (m0 + j) = d) →
  (∀ j, 0 <= j < 128 → j < i ∨ i + n <= j → st cs' (m0 + j) = d ↔ st cs (m0 + j) = d) →
  pend d cs' (X ++ ((fun j => slot (pos + j)) <$> seqZ i n)).
Proof.
  destruct HX as (Hnd & Hr & Hin). intros Hpos Hi Hn Hmax Hnew Hold.
  assert (∀ j, slot (pos + j) = (m0 + j) mod 128) as Hs by (intros j; by apply slot_mod, pos_add).
  split_and!.
  - apply list.NoDup_app. split; [done|]. split.
    + intros x Hx (j & -> & Hj)%list_elem_of_fmap. apply elem_of_seqZ in Hj.
      rewrite Hs in Hx. apply Hin in Hx. destruct (Hnew j) as [? _]; [lia|done].
    + apply NoDup_fmap_2_strong, NoDup_seqZ. intros a b Ha Hb. rewrite !Hs. intros E.
      apply elem_of_seqZ in Ha, Hb. destruct (Z.lt_trichotomy a b) as [Hlt|[Heq|Hlt]]; [|done|].
      * by destruct (slot_ne (m0 + a) (m0 + b)); [lia|].
      * by destruct (slot_ne (m0 + b) (m0 + a)); [lia|].
  - intros x [Hx|(j & -> & _)%list_elem_of_fmap]%elem_of_app; [by apply Hr|]. rewrite Hs. apply Z.mod_pos_bound. lia.
  - intros m. destruct (ring_window m0 m) as (j & Hj & E). rewrite <- (st_mod cs' _ _ E), <- E, elem_of_app, Hin.
    destruct (decide (i <= j < i + n)) as [Hjn|Hjn].
    + destruct (Hnew j Hjn) as [_ Hd]. split; [done|]. intros _. right.
      apply list_elem_of_fmap. exists j. by rewrite Hs, elem_of_seqZ.
    + rewrite Hold by lia. split; [|by left]. intros [?|(k & Ek & Hk)%list_elem_of_fmap]; [done|].
      apply elem_of_seqZ in Hk. rewrite Hs in Ek. destruct (decide (j < k)).
      * by destruct (slot_ne (m0 + j) (m0 + k)); [lia|].
      * by destruct (slot_ne (m0 + k) (m0 + j)); [lia|].
Qed.

Context (x m : Z) (Hx : x = m mod 128).
Context (Hsame : ∀ m', m' mod 128 ≠ x → st cs' m' = st cs m').

Lemma pend_remove : st cs' m ≠ d → pend d cs' (remove x X).
Proof.
  destruct HX as (Hnd & Hr & Hin). intros Hd. unfold remove. split_and!.
  - by apply list.NoDup_filter.
  - intros y [_ Hy]%list_elem_of_filter. by apply Hr.
  - intros m'. rewrite list_elem_of_filter, Hin. destruct (decide (m' mod 128 = x)) as [E|E].
    + rewrite (st_mod cs' m' m) by congruence. split; [by intros [? _]|done].
    + rewrite Hsame by done. tauto.
Qed.

Lemma pend_snoc : st cs m ≠ d → st cs' m = d → pend d cs' (X ++ [x]).
Proof.
  destruct HX as (Hnd & Hr & Hin). intros Hd Hd'. split_and!.
  - apply list.NoDup_app. split; [done|]. split; [|apply NoDup_singleton]. intros y Hy ->%list_elem_of_singleton.
    rewrite Hx in Hy. by apply Hin in Hy.
  - intros y [Hy| ->%list_elem_of_singleton]%elem_of_app; [by apply Hr|]. rewrite Hx. apply Z.mod_pos_bound. lia.
  - intros m'. rewrite elem_of_app, Hin, list_elem_of_singleton. destruct (decide (m' mod 128 = x)) as [E|E].
    + rewrite (st_mod cs' m' m) by congruence. tauto.
    + rewrite Hsame by done. tauto.
Qed.

Lemma pend_other : (st cs' m = d ↔ st cs m = d) → pend d cs' X.
Proof.
  destruct HX as (Hnd & Hr & Hin). intros Hd. split_and!; [done|done|]. intros m'.
  destruct (decide (m' mod 128 = x)) as [E|E]; [|by rewrite Hsame].
  rewrite (st_mod cs' m' m), Hd, (st_mod cs m m') by congruence. apply Hin.
Qed.
End pend.

(** ** Steps on one context *)

Lemma update_ctx_spec x m f q c c' : length (desc_ctxs q) = 128%nat → x = m mod 128 →
  ctx_of (desc_ctxs q) m = Some c → f c = Ok c' →
  ∃ cs', update_ctx x f q = Ok (q <| desc_ctxs := cs' |>) ∧ length cs' = 128%nat ∧
    ctx_of cs' m = Some c' ∧ ∀ m', m' mod 128 ≠ x → ctx_of cs' m' = ctx_of (desc_ctxs q) m'.
Proof.
  intros Hcs -> Hc Hf. assert (slot m = m mod 128) as Es by by apply slot_mod. unfold update_ctx.
  assert (rd (desc_ctxs q) (m mod 128) = Some c) as -> by (rewrite <- Es, (rd_slot _ Hcs m m eq_refl); done).
  cbn [of_opt mbind result_bind]. rewrite Hf.
  cbn [mbind result_bind]. destruct (wr_slot _ Hcs m m c' eq_refl) as (cs' & Hw & ? & ? & ?).
  rewrite Es in Hw. rewrite Hw. exists cs'. done.
Qed.

(** A context in flight belongs to an active descriptor. *)
Lemma pend_active L h p f s d X x : inv L h p f s → pend d (desc_ctxs (sq s)) X → x ∈ X → d ≠ DESC_EMPTY →
  ∃ m c, h <= m < f ∧ x = m mod 128 ∧ ctx_of (desc_ctxs (sq s)) m = Some c ∧ state c = d ∧
    (late d → m < p) ∧ (early d → p <= m).
Proof.
  intros Hi (_ & Hr & Hin) Hx Hd. pose proof (Hr x Hx) as Hx'.
  destruct (ring_window h x) as (i & Hi' & E). rewrite (mod_range x Hx') in E.
  pose proof Hx as Hst. rewrite <- (mod_range x Hx') in Hst. apply Hin in Hst.
  rewrite <- (st_mod _ (h + i)) in Hst by (by rewrite E, mod_range).
  destruct (ctx_total _ (i_ctxs _ _ _ _ _ Hi) (h + i)) as [c Hc]. pose proof (i_cnt _ _ _ _ _ Hi).
  assert (h + i < f) as Hf.
  { destruct (Z.lt_ge_cases (h + i) f); [done|]. rewrite (i_empty _ _ _ _ _ Hi) in Hst by lia. done. }
  exists (h + i), c. split; [lia|]. split; [done|]. split; [done|].
  split; [by rewrite <- (st_some _ _ _ Hc)|]. unfold late, early. split; intros Hd'.
  - destruct (Z.lt_ge_cases (h + i) p); [done|]. pose proof (i_early _ _ _ _ _ Hi (h + i) ltac:(lia)) as He.
    unfold early in He. rewrite Hst in He. naive_solver congruence.
  - destruct (Z.lt_ge_cases (h + i) p); [|done]. pose proof (i_late _ _ _ _ _ Hi (h + i) ltac:(lia)) as He.
    unfold late in He. rewrite Hst in He. naive_solver congruence.
Qed.

(** The state of one context changes within its phase. *)
Lemma inv_one L h p f s cs' m c c' x X1 X2 X3 : inv L h p f s → h <= m < f → x = m mod 128 →
  length cs' = 128%nat → ctx_of (desc_ctxs (sq s)) m = Some c → ctx_of cs' m = Some c' →
  (∀ m', m' mod 128 ≠ x → ctx_of cs' m' = ctx_of (desc_ctxs (sq s)) m') →
  index c' = index c → (if m <? p then late (state c') else early (state c')) →
  (state c' = DESC_WRITING_BACK ↔ state c = DESC_WRITING_BACK) →
  pend DESC_FETCHING cs' X1 → pend DESC_PREPARING cs' X2 → pend DESC_PROCESSING cs' X3 →
  inv L h p f (mkSys ((sq s) <| desc_ctxs := cs' |>) X1 X2 X3 (p_wb s)).
Proof.
  intros Hi Hm Hx Hl Hc Hc' Hne Hidx Hph Hwb H1 H2 H3. pose proof (i_cnt _ _ _ _ _ Hi).
  assert (∀ m', h <= m' < h + 128 → m' ≠ m → ctx_of cs' m' = ctx_of (desc_ctxs (sq s)) m') as Hoth.
  { intros m' Hm' Hmm. apply Hne. rewrite Hx. destruct (decide (m' < m)).
    - apply slot_ne. lia.
    - apply not_eq_sym, slot_ne. lia. }
  assert (∀ m', h <= m' < h + 128 → m' ≠ m → st cs' m' = st (desc_ctxs (sq s)) m') as Hst
    by (intros; unfold st; by rewrite Hoth).
  pose proof (st_some _ _ _ Hc) as Ec. pose proof (st_some _ _ _ Hc') as Ec'.
  destruct Hi as [? ? ? ? ? Hin Hla Hea Hem (w & ? & ? & Hw & ?) _ _ _ ?]. split; cbn; try done.
  - intros m' k Hm' Hk. destruct (decide (m' = m)) as [->|].
    + rewrite Hc' in Hk. injection Hk as <-. rewrite Hidx. by apply Hin.
    + rewrite Hoth in Hk by (done || lia). by apply Hin.
  - intros m' Hm'. destruct (decide (m' = m)) as [->|].
    + rewrite Ec'. by rewrite (proj2 (Z.ltb_lt m p)) in Hph by lia.
    + rewrite Hst by (done || lia). by apply Hla.
  - intros m' Hm'. destruct (decide (m' = m)) as [->|].
    + rewrite Ec'. by rewrite (proj2 (Z.ltb_ge m p)) in Hph by lia.
    + rewrite Hst by (done || lia). by apply Hea.
  - intros m' Hm'. rewrite Hst by lia. by apply Hem.
  - exists w. split_and!; try done. intros m' Hm'. destruct (decide (m' = m)) as [->|].
    + rewrite Ec', Hwb, <- Ec. by apply Hw.
    + rewrite Hst by (done || lia). by apply Hw.
Qed.

(** ** Steps *)

(** A step that can be taken, keeps the invariant and hands out the next
    descriptors. *)
Definition good_step (L h p f : Z) (ev : event) (s : sys) : Prop :=
  ∃ s' h' p' f', p <= p' ∧ exec ev s = Ok (s', (fun m => m mod L) <$> seqZ p (p' - p)) ∧ inv L h' p' f' s'.

Lemma quiet_step L h p f ev s s' : exec ev s = Ok (s', []) → inv L h p f s' → good_step L h p f ev s.
Proof. intros He Hi. exists s', h, p, f. rewrite Z.sub_diag. done. Qed.

Section one.
Context (L h p f : Z) (s : sys) (Hi : inv L h p f s).

(** A context in flight moves to another state of its phase. *)
Lemma ctx_step d d' X x (g upd : desc_ctx → _) : pend d (desc_ctxs (sq s)) X → x ∈ X →
  (early d ∧ early d') ∨ (late d ∧ late d' ∧ d ≠ DESC_WRITING_BACK ∧ d' ≠ DESC_WRITING_BACK) →
  (∀ c, state c = d → g c = Ok (upd c)) → (∀ c, state (upd c) = d' ∧ index (upd c) = index c) →
  ∃ m cs', update_ctx x g (sq s) = Ok ((sq s) <| desc_ctxs := cs' |>) ∧ x = m mod 128 ∧
    st (desc_ctxs (sq s)) m = d ∧ st cs' m = d' ∧
    (∀ m', m' mod 128 ≠ x → st cs' m' = st (desc_ctxs (sq s)) m') ∧
    ∀ X1 X2 X3, pend DESC_FETCHING cs' X1 → pend DESC_PREPARING cs' X2 → pend DESC_PROCESSING cs' X3 →
      inv L h p f (mkSys ((sq s) <| desc_ctxs := cs' |>) X1 X2 X3 (p_wb s)).
Proof.
  intros HX Hx Hph Hg Hupd.
  destruct (pend_active _ _ _ _ _ _ _ _ Hi HX Hx) as (m & c & Hm & Ex & Hc & Hs & Hla & Hea);
    [unfold early, late in Hph; intros E; intuition congruence|].
  destruct (update_ctx_spec x m g (sq s) c (upd c) (i_ctxs _ _ _ _ _ Hi) Ex Hc (Hg c Hs))
    as (cs' & Hu & Hl & Hc' & Hne). destruct (Hupd c) as [Hs' Hidx].
  exists m, cs'. split; [done|]. split; [done|]. split; [by rewrite (st_some _ _ _ Hc)|].
  split; [by rewrite (st_some _ _ _ Hc')|]. split; [intros; unfold st; by rewrite Hne|].
  intros X1 X2 X3 H1 H2 H3. eapply (inv_one _ _ _ _ _ _ m); try done.
  - rewrite Hs'. destruct Hph as [[? ?]|(? & ? & _)].
    + by rewrite (proj2 (Z.ltb_ge m p)) by (by apply Hea).
    + by rewrite (proj2 (Z.ltb_lt m p)) by (by apply Hla).
  - rewrite Hs, Hs'. unfold early, late in Hph. split; intros E; exfalso; intuition congruence.
Qed.

Lemma step_fetched x bytes : x ∈ p_fetch s → good_step L h p f (EvFetched x bytes) s.
Proof.
  intros Hx. destruct (ctx_step DESC_FETCHING DESC_PREPARING _ x
    (fun c => Ok (c <| desc := bytes |> <| state := DESC_PREPARING |>))
    (fun c => c <| desc := bytes |> <| state := DESC_PREPARING |>) (i_fetch _ _ _ _ _ Hi) Hx)
    as (m & cs' & Hu & Ex & Ec & Ec' & Hst & Hinv); [left; unfold early; auto|done|done|].
  eapply quiet_step; [unfold exec, fetched; rewrite Hu; done|]. apply Hinv.
  - eapply pend_remove; [apply Hi|done|done|congruence].
  - eapply pend_snoc; [apply Hi|done|done|congruence|done].
  - eapply pend_other; [apply Hi|done|done|]. by rewrite Ec, Ec'.
Qed.

Lemma step_prepared x : x ∈ p_prep s → good_step L h p f (EvPrepared x) s.
Proof.
  intros Hx. destruct (ctx_step DESC_PREPARING DESC_PREPARED _ x
    (fun c => _ ← assert_ (bool_decide (state c = DESC_PREPARING)); Ok (c <| state := DESC_PREPARED |>))
    (fun c => c <| state := DESC_PREPARED |>) (i_prep _ _ _ _ _ Hi) Hx)
    as (m & cs' & Hu & Ex & Ec & Ec' & Hst & Hinv);
    [left; unfold early; auto|intros c Hc; by rewrite bool_decide_true|done|].
  eapply quiet_step; [unfold exec, prepared; rewrite Hu; done|]. apply Hinv.
  - eapply pend_other; [apply Hi|done|done|]. by rewrite Ec, Ec'.
  - eapply pend_remove; [apply Hi|done|done|congruence].
  - eapply pend_other; [apply Hi|done|done|]. by rewrite Ec, Ec'.
Qed.

Lemma step_processed x : x ∈ p_proc s → good_step L h p f (EvProcessed x) s.
Proof.
  intros Hx. destruct (ctx_step DESC_PROCESSING DESC_PROCESSED _ x
    (fun c => _ ← assert_ (bool_decide (state c = DESC_PROCESSING)); Ok (c <| state := DESC_PROCESSED |>))
    (fun c => c <| state := DESC_PROCESSED |>) (i_proc _ _ _ _ _ Hi) Hx)
    as (m & cs' & Hu & Ex & Ec & Ec' & Hst & Hinv);
    [right; unfold late; split_and!; auto|intros c Hc; by rewrite bool_decide_true|done|].
  eapply quiet_step; [unfold exec, processed; rewrite Hu; done|]. apply Hinv.
  - eapply pend_other; [apply Hi|done|done|]. by rewrite Ec, Ec'.
  - eapply pend_other; [apply Hi|done|done|]. by rewrite Ec, Ec'.
  - eapply pend_remove; [apply Hi|done|done|congruence].
Qed.

Lemma step_tail t : may (EvTail t) s → good_step L h p f (EvTail t) s.
Proof.
  intros [Ht Hp]. eapply quiet_step; [done|]. pose proof (i_len _ _ _ _ _ Hi) as [El _].
  destruct (i_first _ _ _ _ _ Hi) as (_ & Ei & _). destruct Hi. split; cbn; try done.
  intros Hd. split; [by rewrite <- El|]. destruct (i_tail0 Hd) as [_ Hf]. etrans; [done|].
  unfold posted in Hp. rewrite El, Ei in Hp. by rewrite !Zminus_mod_idemp_r in Hp.
Qed.
End one.

(** Outside of the changed range. *)
Lemma out_window cs cs' h m0 n : h <= m0 → 0 <= n → m0 + n <= h + 128 →
  (∀ i, n <= i < 128 → ctx_of cs' (m0 + i) = ctx_of cs (m0 + i)) →
  ∀ m, h <= m < h + 128 → m < m0 ∨ m0 + n <= m → ctx_of cs' m = ctx_of cs m.
Proof.
  intros Hh Hn Hm Hout m Hw Hr. destruct (Z.lt_ge_cases m m0).
  - rewrite <- (ctx_period cs' m), <- (ctx_period cs m).
    replace (m + 128) with (m0 + (m + 128 - m0)) by lia. apply Hout. lia.
  - replace m with (m0 + (m - m0)) by lia. apply Hout. lia.
Qed.

Section fetch.
Context (L h p f : Z) (s : sys) (Hi : inv L h p f s).

Lemma fetch_idx : u32 (active_first_idx (sq s) + active_cnt (sq s)) mod len (sq s) = f mod L.
Proof.
  destruct (i_len _ _ _ _ _ Hi) as [-> HL]. destruct (i_first _ _ _ _ _ Hi) as (_ & -> & ->).
  pose proof (i_cnt _ _ _ _ _ Hi). pose proof (Z.mod_pos_bound h L ltac:(lia)).
  rewrite wrap_small by (unfold in_width; lia). rewrite Zplus_mod_idemp_l. f_equal. lia.
Qed.

Lemma fetch_count_spec : let n := fetch_count (sq s) (f mod L) in
  0 <= n ∧ f + n <= h + 128 ∧ f mod L + n <= L ∧ (2 ^ 32 mod L = 0 → f + n - h <= (reg_tail (sq s) - h) mod L).
Proof.
  destruct (i_len _ _ _ _ _ Hi) as [El HL]. destruct (i_first _ _ _ _ _ Hi) as (_ & _ & Ec).
  pose proof (i_cnt _ _ _ _ _ Hi) as Hc. pose proof (Z.mod_pos_bound f L ltac:(lia)) as Hf.
  unfold fetch_count, desc_avail, max_active_capacity, max_fetch_capacity, UINT32_MAX, MAX_ACTIVE_DESCS.
  rewrite El, Ec. rewrite (wrap_small 32 (128 - (f - h))) by (unfold in_width; lia).
  rewrite (proj2 (Z.leb_gt _ _)) by lia. set (a := u32 (reg_tail (sq s) - f mod L) mod L).
  assert (0 <= a < L) as Ha by (apply Z.mod_pos_bound; lia).
  rewrite (Z.min_l _ 0xffffffff) by lia. set (n := Z.min a (128 - (f - h))).
  assert (2 ^ 32 mod L = 0 → f + n - h <= (reg_tail (sq s) - h) mod L) as Ht.
  { intros Hd. destruct (i_tail _ _ _ _ _ Hi Hd) as [_ Hp].
    assert (a = (reg_tail (sq s) - h) mod L - (f - h)) as Ea; [|lia].
    unfold a, wrap. rewrite Z.mod_mod_divide by (apply Z.mod_divide; [lia|done]).
    rewrite Zminus_mod_idemp_r. replace (reg_tail (sq s) - f) with (reg_tail (sq s) - h - (f - h)) by lia.
    rewrite <- Zminus_mod_idemp_l. apply Z.mod_small. pose proof (Z.mod_pos_bound (reg_tail (sq s) - h) L). lia. }
  rewrite (wrap_small 32 (f mod L + n)) by (unfold in_width; lia).
  destruct (Z.ltb_spec L (f mod L + n)); [|split_and!; lia || done].
  rewrite wrap_small by (unfold in_width; lia). split_and!; lia.
Qed.

(** The outcome of [trigger_fetch]. *)
Lemma trigger_fetch_spec : let q := sq s in let cs := desc_ctxs q in
  ∃ n, 0 <= n ∧ f + n <= h + 128 ∧ (2 ^ 32 mod L = 0 → f + n - h <= (reg_tail q - h) mod L) ∧
  if n =? 0 then trigger_fetch q = Ok (q, None) else
  ∃ cs', trigger_fetch q = Ok (q <| desc_ctxs := cs' |> <| active_cnt := f + n - h |>,
      Some (mkDma (u64 (base q + f mod L * desc_len q)) (f mod 128) n [])) ∧ length cs' = 128%nat ∧
    (∀ i, 0 <= i < n → ∃ c, ctx_of cs (f + i) = Some c ∧ state c = DESC_EMPTY ∧
       ctx_of cs' (f + i) = Some (c <| state := DESC_FETCHING |> <| index := (f + i) mod L |>)) ∧
    (∀ i, n <= i < 128 → ctx_of cs' (f + i) = ctx_of cs (f + i)).
Proof.
  intros q cs. destruct (i_len _ _ _ _ _ Hi) as [El HL]. pose proof (i_cnt _ _ _ _ _ Hi) as Hc.
  destruct fetch_count_spec as (Hn & Hn128 & HnL & Hnt). fold q in El, Hn, Hn128, HnL, Hnt.
  destruct (i_first _ _ _ _ _ Hi) as (Epos & Eidx & Ecnt). pose proof (i_ctxs _ _ _ _ _ Hi) as Hcs.
  fold q cs in Epos, Eidx, Ecnt, Hcs. pose proof (i_enabled _ _ _ _ _ Hi) as He. fold q in He.
  exists (fetch_count q (f mod L)). split_and!; [done..|].
  unfold trigger_fetch. rewrite He. cbn [negb]. rewrite El, (proj2 (Z.eqb_neq L 0)) by lia.
  pose proof fetch_idx as Hnext. fold q in Hnext. rewrite El in Hnext. rewrite Hnext. clear Hnext.
  set (n := fetch_count q (f mod L)) in *. destruct (Z.eqb_spec n 0); [done|].
  rewrite (slot_mod (active_first_pos q + active_cnt q) f)
    by (rewrite Epos, Ecnt, Zplus_mod_idemp_l; f_equal; lia).
  assert (∀ i c, 0 <= i < n → ctx_of cs (f + i) = Some c → state c = DESC_EMPTY) as Hem.
  { intros i c Hi' Hci. rewrite <- (st_some _ _ _ Hci). apply (i_empty _ _ _ _ _ Hi). lia. }
  destruct (update_each_spec (f mod 128) n (fun i c => _ ← assert_ (bool_decide (state c = DESC_EMPTY));
      Ok (c <| state := DESC_FETCHING |> <| index := u32 (f mod L + i) mod L |>)) cs f)
    as (cs' & Hu & Hl & Hin & Hout); [done|done|lia| |].
  { intros i c Hi' Hci. rewrite bool_decide_true by by apply (Hem i). by eexists. }
  fold cs. rewrite Hu. cbn [mbind result_bind]. exists cs'. split; [|split; [done|]; split; [|done]].
  - rewrite Ecnt, (wrap_small 32) by (unfold in_width; lia). by replace (f - h + n) with (f + n - h) by lia.
  - intros i Hin'. destruct (ctx_total cs Hcs (f + i)) as [c Hci]. exists c. split; [done|].
    split; [by apply (Hem i)|]. apply (Hin i c); [done|done|]. rewrite bool_decide_true by by apply (Hem i).
    cbn [assert_ mbind result_bind]. pose proof (Z.mod_pos_bound f L ltac:(lia)).
    rewrite wrap_small by (unfold in_width; lia). by rewrite Zplus_mod_idemp_l.
Qed.

Lemma step_fetch : good_step L h p f EvFetch s.
Proof.
  destruct trigger_fetch_spec as (n & Hn & Hn128 & Hnt & Hrun). pose proof (i_cnt _ _ _ _ _ Hi) as Hc.
  destruct (Z.eqb_spec n 0) as [_|Hn0].
  { eapply quiet_step; [unfold exec; rewrite Hrun; done|]. destruct s. cbn. by rewrite app_nil_r. }
  destruct Hrun as (cs' & Et & Hl & Hnew & Hout). set (cs := desc_ctxs (sq s)) in *.
  pose proof (out_window cs cs' h f n ltac:(lia) ltac:(lia) ltac:(lia) Hout) as Hold.
  assert (∀ m, h <= m < h + 128 → m < f ∨ f + n <= m → st cs' m = st cs m) as Hst
    by (intros; unfold st; by rewrite Hold).
  assert (∀ i, 0 <= i < n → st cs (f + i) = DESC_EMPTY ∧ st cs' (f + i) = DESC_FETCHING) as Hstn.
  { intros i Hi'. destruct (Hnew i Hi') as (c & Hc1 & Hs & Hc2).
    by rewrite (st_some _ _ _ Hc1), (st_some _ _ _ Hc2). }
  assert (∀ i, n <= i < 128 → st cs' (f + i) = st cs (f + i)) as Hsto by (intros; unfold st; by rewrite Hout).
  assert (∀ d, d ≠ DESC_EMPTY → d ≠ DESC_FETCHING → ∀ i, 0 <= i < 128 → st cs' (f + i) = d ↔ st cs (f + i) = d) as Hother.
  { intros d H1 H2 i Hi'. destruct (decide (i < n)); [|by rewrite Hsto by lia].
    destruct (Hstn i) as [-> ->]; [lia|]. split; intros; congruence. }
  eexists _, h, p, (f + n). split; [done|]. rewrite Z.sub_diag. split; [unfold exec; rewrite Et; done|].
  destruct Hi as [? ? ? ? [? [? _]] Hidx Hla Hea Hem (w & ? & ? & Hw & ?) Hf1 Hf2 Hf3 Hta]. fold cs in Hidx, Hla, Hea, Hem, Hw, Hf1, Hf2, Hf3.
  split; cbn; try done.
  - lia.
  - intros m c Hm Hc'. destruct (decide (m < f)).
    + rewrite Hold in Hc' by lia. apply Hidx; [lia|done].
    + replace m with (f + (m - f)) in * by lia. destruct (Hnew (m - f)) as (c0 & _ & _ & Hc2); [lia|].
      rewrite Hc2 in Hc'. injection Hc' as <-. done.
  - intros m Hm. rewrite Hst by lia. apply Hla. lia.
  - intros m Hm. destruct (decide (m < f)); [rewrite Hst by lia; apply Hea; lia|].
    replace m with (f + (m - f)) by lia. destruct (Hstn (m - f)) as [_ ->]; [lia|]. by left.
  - intros m Hm. rewrite Hst by lia. apply Hem. lia.
  - exists w. split_and!; try done. intros m Hm. rewrite Hst by lia. by apply Hw.
  - apply (pend_add _ cs cs' _ Hf1 f); try done || lia.
    + intros j Hj. destruct (Hstn j) as [-> ->]; [lia|]. done.
    + intros j Hj Hjn. by rewrite Hsto by lia.
  - apply (pend_same _ cs cs' _ Hf2 f). by apply Hother.
  - apply (pend_same _ cs cs' _ Hf3 f). by apply Hother.
  - intros Hd. split; [by apply Hta|]. by apply Hnt.
Qed.
End fetch.

Section process.
Context (L h p f : Z) (s : sys) (Hi : inv L h p f s).
Let q := sq s.
Let cs := desc_ctxs q.

Lemma skip_done : scan (fun d => negb (le_prepared d)) (Z.to_nat (active_cnt q)) 0 (active_first_pos q) cs = Ok (p - h).
Proof.
  pose proof (i_ctxs _ _ _ _ _ Hi) as Hcs. destruct (i_first _ _ _ _ _ Hi) as (Epos & _ & Ecnt).
  pose proof (i_cnt _ _ _ _ _ Hi) as Hc. fold q in Epos, Ecnt.
  destruct (active_scan_spec (fun d => negb (le_prepared d)) (Z.to_nat (active_cnt q)) 0 (active_first_pos q) cs h Hcs Epos)
    as (k & -> & Hk & Hin & Hend). rewrite Ecnt in Hk, Hend. rewrite Z2Nat.id in Hk, Hend by lia. f_equal.
  destruct (Z.lt_trichotomy k (p - h)) as [Hlt|[Heq|Hgt]]; [|done|].
  - destruct (ctx_total cs Hcs (h + k)) as [c Hcx]. specialize (Hend c ltac:(lia) Hcx).
    pose proof (i_late _ _ _ _ _ Hi (h + k) ltac:(lia)) as Hl. fold q cs in Hl. rewrite (st_some _ _ _ Hcx) in Hl.
    by destruct Hl as [E|[E|E]]; rewrite E in Hend.
  - destruct (ctx_total cs Hcs (h + (p - h))) as [c Hcx]. specialize (Hin (p - h) c ltac:(lia) Hcx).
    pose proof (i_early _ _ _ _ _ Hi (h + (p - h)) ltac:(lia)) as Hl. fold q cs in Hl. rewrite (st_some _ _ _ Hcx) in Hl.
    by destruct Hl as [E|[E|E]]; rewrite E in Hin.
Qed.

(** The outcome of [trigger_process]. *)
Lemma trigger_process_spec : ∃ cs' k, p - h <= k <= f - h ∧
  trigger_process q = Ok (q <| desc_ctxs := cs' |>,
    (fun j => slot (active_first_pos q + j)) <$> seqZ (p - h) (k - (p - h))) ∧ length cs' = 128%nat ∧
  (∀ j, p - h <= j < k → ∃ c, ctx_of cs (h + j) = Some c ∧ state c = DESC_PREPARED ∧
     ctx_of cs' (h + j) = Some (c <| state := DESC_PROCESSING |>)) ∧
  (∀ m, h <= m < h + 128 → m < p ∨ h + k <= m → ctx_of cs' m = ctx_of cs m).
Proof.
  pose proof (i_ctxs _ _ _ _ _ Hi) as Hcs. destruct (i_first _ _ _ _ _ Hi) as (Epos & _ & Ecnt).
  pose proof (i_cnt _ _ _ _ _ Hi) as Hc. fold q cs in Epos, Ecnt, Hcs.
  destruct (sweep_spec DESC_PREPARED DESC_PROCESSING (Z.to_nat (active_cnt q - (p - h))) (p - h)
    (active_first_pos q) cs h Hcs Epos) as (cs' & k & Hs & Hl & Hk & Hin & _ & Hout); [lia..|].
  exists cs', k. split; [lia|]. split; [|split; [done|split; [done|]]].
  - unfold trigger_process. pose proof (i_enabled _ _ _ _ _ Hi) as He. fold q in He. rewrite He. cbn [negb].
    fold cs. rewrite skip_done. cbn [mbind result_bind]. by rewrite Hs.
  - intros m Hm Hr. replace m with (h + (m - h)) by lia. apply Hout; lia.
Qed.

Lemma step_process : good_step L h p f EvProcess s.
Proof.
  destruct (i_first _ _ _ _ _ Hi) as (Epos & _ & _). fold q in Epos. pose proof (i_cnt _ _ _ _ _ Hi) as Hc.
  destruct trigger_process_spec as (cs' & k & Hk & Et & Hl & Hin & Hold).
  assert (∀ m, h <= m < h + 128 → m < p ∨ h + k <= m → st cs' m = st cs m) as Hst
    by (intros; unfold st; by rewrite Hold).
  assert (∀ j, p - h <= j < k → st cs (h + j) = DESC_PREPARED ∧ st cs' (h + j) = DESC_PROCESSING) as Hstn.
  { intros j Hj. destruct (Hin j Hj) as (c & H1 & H2 & H3). by rewrite (st_some _ _ _ H1), (st_some _ _ _ H3). }
  assert (∀ d, d ≠ DESC_PREPARED → d ≠ DESC_PROCESSING → ∀ i, 0 <= i < 128 → st cs' (h + i) = d ↔ st cs (h + i) = d) as Hother.
  { intros d H1 H2 i Hi'. destruct (decide (p - h <= i < k)); [|by rewrite Hst by lia].
    destruct (Hstn i) as [-> ->]; [lia|]. split; intros; congruence. }
  destruct Hi as [? ? ? ? ? Hidx Hla Hea Hem (w & ? & ? & Hw & ?) Hf1 Hf2 Hf3 Hta].
  fold q cs in Hidx, Hla, Hea, Hem, Hw, Hf1, Hf2, Hf3.
  assert (∀ m c, h <= m < f → ctx_of cs' m = Some c → index c = m mod L) as Hidx'.
  { intros m c Hm Hcm. destruct (decide (p <= m < h + k)) as [Hr|]; [|rewrite Hold in Hcm by lia; by apply Hidx].
    replace m with (h + (m - h)) in * by lia. destruct (Hin (m - h)) as (c0 & G1 & _ & G3); [lia|].
    rewrite G3 in Hcm. injection Hcm as <-. apply (Hidx _ c0); [lia|done]. }
  exists (s <| sq := q <| desc_ctxs := cs' |> |>
            <| p_proc := p_proc s ++ ((fun j => slot (active_first_pos q + j)) <$> seqZ (p - h) (k - (p - h))) |>), h, (h + k), f.
  split; [lia|]. split.
  { unfold exec. fold q. rewrite Et. cbn [mbind result_bind]. do 2 f_equal.
    replace (seqZ p (h + k - p)) with (Z.add h <$> seqZ (p - h) (k - (p - h))) by (rewrite fmap_add_seqZ; f_equal; lia).
    rewrite <- !list_fmap_compose. apply list_fmap_ext. intros i j Hj%list_elem_of_lookup_2%elem_of_seqZ. cbn.
    rewrite (rd_slot cs' Hl _ (h + j)) by by apply pos_add.
    destruct (ctx_total cs' Hl (h + j)) as [c Hcj]. rewrite Hcj. cbn. apply Hidx'; [lia|done]. }
  split; cbn; try done.
  - lia.
  - intros m Hm. destruct (decide (m < p)); [rewrite Hst by lia; apply Hla; lia|].
    replace m with (h + (m - h)) by lia. destruct (Hstn (m - h)) as [_ ->]; [lia|]. by left.
  - intros m Hm. rewrite Hst by lia. apply Hea. lia.
  - intros m Hm. rewrite Hst by lia. by apply Hem.
  - exists w. split_and!; try done || lia. intros m Hm. destruct (decide (m < p)); [rewrite Hst by lia; apply Hw; lia|].
    replace m with (h + (m - h)) at 1 by lia. destruct (Hstn (m - h)) as [_ ->]; [lia|]. split; [done|lia].
  - apply (pend_same _ cs cs' _ Hf1 h). by apply Hother.
  - apply (pend_same _ cs cs' _ Hf2 h). by apply Hother.
  - apply (pend_add _ cs cs' _ Hf3 h); try done || lia.
    + intros j Hj. destruct (Hstn j) as [-> ->]; [lia|]. done.
    + intros j Hj Hjn. by rewrite Hst by lia.
Qed.
End process.

Section writeback.
Context (L h p f : Z) (s : sys) (Hi : inv L h p f s).
Let q := sq s.
Let cs := desc_ctxs q.

(** The number of descriptors that can be written back. *)
Lemma done_count : ∃ n, scan (fun d => bool_decide (d = DESC_PROCESSED)) (Z.to_nat (active_cnt q)) 0
    (active_first_pos q) cs = Ok n ∧ 0 <= n <= p - h ∧ ∀ j, 0 <= j < n → st cs (h + j) = DESC_PROCESSED.
Proof.
  pose proof (i_ctxs _ _ _ _ _ Hi) as Hcs. destruct (i_first _ _ _ _ _ Hi) as (Epos & _ & Ecnt).
  pose proof (i_cnt _ _ _ _ _ Hi) as Hc. fold q cs in Epos, Ecnt, Hcs.
  destruct (active_scan_spec (fun d => bool_decide (d = DESC_PROCESSED)) (Z.to_nat (active_cnt q)) 0 (active_first_pos q) cs h Hcs Epos)
    as (n & -> & Hn & Hin & _). rewrite Z2Nat.id in Hn by lia.
  assert (∀ j, 0 <= j < n → st cs (h + j) = DESC_PROCESSED) as Hp.
  { intros j Hj. destruct (ctx_total cs Hcs (h + j)) as [c Hcj]. specialize (Hin j c Hj Hcj).
    apply bool_decide_eq_true in Hin. by rewrite (st_some _ _ _ Hcj). }
  exists n. split; [done|]. split; [|done]. split; [lia|].
  destruct (Z.le_gt_cases n (p - h)) as [|Hgt]; [done|]. specialize (Hp (p - h) ltac:(lia)).
  pose proof (i_early _ _ _ _ _ Hi (h + (p - h)) ltac:(lia)) as He. fold q cs in He. rewrite Hp in He.
  unfold early in He. intuition congruence.
Qed.

(** The outcome of [trigger_writeback]. *)
Lemma trigger_writeback_spec : ∃ n, 0 <= n <= p - h ∧ h mod L + n <= L ∧
  (∀ j, 0 <= j < n → st cs (h + j) = DESC_PROCESSED) ∧
  if n =? 0 then trigger_writeback q = Ok (q, None) else
  ∃ cs' data, trigger_writeback q = Ok (q <| desc_ctxs := cs' |>,
      Some (mkDma (u64 (base q + h mod L * desc_len q)) (h mod 128) n data)) ∧ length cs' = 128%nat ∧
    (∀ j, 0 <= j < n → ∃ c, ctx_of cs (h + j) = Some c ∧
       ctx_of cs' (h + j) = Some (c <| state := DESC_WRITING_BACK |>)) ∧
    (∀ j, n <= j < 128 → ctx_of cs' (h + j) = ctx_of cs (h + j)) ∧
    data = concat ((fun j => default [] (desc <$> ctx_of cs (h + j))) <$> seqZ 0 n).
Proof.
  destruct done_count as (a & Ha & Hap & Hdone). pose proof (i_ctxs _ _ _ _ _ Hi) as Hcs.
  destruct (i_first _ _ _ _ _ Hi) as (Epos & Eidx & Ecnt). pose proof (i_cnt _ _ _ _ _ Hi) as Hc.
  destruct (i_len _ _ _ _ _ Hi) as [El HL]. pose proof (i_enabled _ _ _ _ _ Hi) as He.
  fold q cs in Epos, Eidx, Ecnt, Hcs, El, He. pose proof (Z.mod_pos_bound h L ltac:(lia)) as Hm.
  unfold trigger_writeback. rewrite He. cbn [negb]. fold cs. rewrite Ha. cbn [mbind result_bind].
  unfold max_writeback_capacity, UINT32_MAX. rewrite Z.min_l by lia. rewrite El, Eidx, Epos.
  set (n := if L <? u32 (h mod L + a) then u32 (L - h mod L) else a).
  assert (0 <= n <= a ∧ h mod L + n <= L) as [Hn HnL].
  { unfold n. rewrite (wrap_small 32 (h mod L + a)) by (unfold in_width; lia).
    destruct (Z.ltb_spec L (h mod L + a)); [rewrite wrap_small by (unfold in_width; lia); lia|lia]. }
  exists n. split; [lia|]. split; [done|]. split; [intros; apply Hdone; lia|].
  destruct (Z.eqb_spec n 0); [done|].
  destruct (update_each_spec (h mod 128) n (fun _ c => Ok (c <| state := DESC_WRITING_BACK |>)) cs h)
    as (cs' & -> & Hl & Hin & Hout); [done|done|lia|intros; by eexists|]. cbn [mbind result_bind].
  assert (∀ j, 0 <= j < n → ∃ c, ctx_of cs (h + j) = Some c ∧
    ctx_of cs' (h + j) = Some (c <| state := DESC_WRITING_BACK |>)) as Hmark.
  { intros j Hj. destruct (ctx_total cs Hcs (h + j)) as [c Hcj]. exists c. split; [done|]. by apply (Hin j c). }
  unfold do_writeback. cbn [desc_ctxs base desc_len set_field active_first_idx active_first_pos].
  destruct (for_res_total (fun i d => d = concat ((fun j => default [] (desc <$> ctx_of cs (h + j))) <$> seqZ 0 i))
    (Z.to_nat n) 0 (fun i data =>
       c ← of_opt (rd cs' (slot (h mod 128 + i)));
       _ ← assert_ (bool_decide (state c = DESC_WRITING_BACK)); Ok (data ++ desc c)) [])
    as (data & Hd & Edata); [done| |].
  { intros j d Hj ->. rewrite (rd_slot cs' Hl _ (h + j)) by by apply pos_add.
    destruct (Hmark j) as (c & Hc1 & Hc2); [lia|]. rewrite Hc2. cbn. eexists. split; [done|].
    rewrite seqZ_app by lia. rewrite fmap_app, concat_app, Z.add_0_l.
    assert (seqZ j 1 = [j]) as -> by (cbn; f_equal; lia). cbn. by rewrite Hc1, app_nil_r. }
  rewrite Epos, Eidx, Hd. cbn [mbind result_bind]. exists cs', data. rewrite Z2Nat.id, Z.add_0_l in Edata by lia.
  done.
Qed.

Lemma step_writeback : good_step L h p f EvWriteback s.
Proof.
  destruct trigger_writeback_spec as (n & Hn & _ & Hdone & Hrun). pose proof (i_cnt _ _ _ _ _ Hi) as Hc.
  destruct (Z.eqb_spec n 0) as [_|Hn0].
  { eapply quiet_step; [unfold exec; fold q; rewrite Hrun; done|]. unfold q. destruct s. cbn. by rewrite app_nil_r. }
  destruct Hrun as (cs' & data & Ht & Hl & Hin & Hout & _).
  eapply quiet_step; [unfold exec; fold q; rewrite Ht; done|]. cbn [dma_pos dma_cnt].
  destruct Hi as [? ? ? ? ? Hidx Hla Hea Hem (w & ? & ? & Hw & Ewb) Hf1 Hf2 Hf3 Hta].
  fold q cs in Hidx, Hla, Hea, Hem, Hw, Hf1, Hf2, Hf3.
  assert (w = 0) as ->.
  { destruct (decide (w = 0)); [done|]. assert (st cs h = DESC_WRITING_BACK) as E by (apply Hw; lia).
    rewrite <- (Z.add_0_r h), Hdone in E by lia. done. }
  pose proof (out_window cs cs' h h n ltac:(lia) ltac:(lia) ltac:(lia) Hout) as Hold.
  assert (∀ m, h <= m < h + 128 → h + n <= m → st cs' m = st cs m) as Hst by (intros; unfold st; rewrite Hold by lia; done).
  assert (∀ m, h <= m < h + n → st cs m = DESC_PROCESSED ∧ st cs' m = DESC_WRITING_BACK) as Hstn.
  { intros m Hm. replace m with (h + (m - h)) by lia. split; [apply Hdone; lia|].
    destruct (Hin (m - h)) as (c & _ & Hc2); [lia|]. by rewrite (st_some _ _ _ Hc2). }
  assert (∀ d, d ≠ DESC_PROCESSED → d ≠ DESC_WRITING_BACK → ∀ i, 0 <= i < 128 → st cs' (h + i) = d ↔ st cs (h + i) = d) as Hother.
  { intros d G1 G2 i Hi'. destruct (decide (i < n)); [|by rewrite Hst by lia].
    destruct (Hstn (h + i)) as [-> ->]; [lia|]. split; intros; congruence. }
  split; cbn; try done.
  - intros m c Hm Hcm. destruct (decide (m < h + n)); [|rewrite Hold in Hcm by lia; by apply Hidx].
    replace m with (h + (m - h)) in * by lia. destruct (Hin (m - h)) as (c0 & G1 & G3); [lia|].
    rewrite G3 in Hcm. injection Hcm as <-. apply (Hidx _ c0); [lia|done].
  - intros m Hm. destruct (decide (m < h + n)); [destruct (Hstn m) as [_ ->]; [lia|]; right; by right|].
    rewrite Hst by lia. by apply Hla.
  - intros m Hm. rewrite Hst by lia. by apply Hea.
  - intros m Hm. rewrite Hst by lia. by apply Hem.
  - exists n. rewrite (proj2 (Z.eqb_neq n 0) Hn0). split; [lia|]. split; [lia|]. split.
    + intros m Hm. destruct (decide (m < h + n)); [destruct (Hstn m) as [_ ->]; [lia|]; done|].
      rewrite Hst by lia. rewrite Hw by lia. lia.
    + rewrite Ewb. by rewrite Z.eqb_refl.
  - apply (pend_same _ cs cs' _ Hf1 h). by apply Hother.
  - apply (pend_same _ cs cs' _ Hf2 h). by apply Hother.
  - apply (pend_same _ cs cs' _ Hf3 h). by apply Hother.
Qed.
End writeback.

Section written.
Context (L h p f : Z) (s : sys) (Hi : inv L h p f s).
Let q := sq s.
Let cs := desc_ctxs q.

(** The outcome of [writeback_done] for the [w] descriptors under way. *)
Lemma writeback_done_spec w : 0 < w → h + w <= p →
  (∀ m, h <= m < p → st cs m = DESC_WRITING_BACK ↔ m < h + w) →
  ∃ cs', writeback_done (h mod 128) w q = Ok (q <| desc_ctxs := cs' |> <| active_first_pos := (h + w) mod 128 |>
      <| active_first_idx := (h + w) mod L |> <| active_cnt := f - (h + w) |> <| reg_head := (h + w) mod L |>) ∧
    length cs' = 128%nat ∧ (∀ j, 0 <= j < w → st cs' (h + j) = DESC_EMPTY) ∧
    (∀ j, w <= j < 128 → ctx_of cs' (h + j) = ctx_of cs (h + j)).
Proof.
  intros Hw0 Hwp Hw. pose proof (i_ctxs _ _ _ _ _ Hi) as Hcs.
  destruct (i_first _ _ _ _ _ Hi) as (Epos & Eidx & Ecnt). pose proof (i_cnt _ _ _ _ _ Hi) as Hc.
  destruct (i_len _ _ _ _ _ Hi) as [El HL]. pose proof (i_enabled _ _ _ _ _ Hi) as He.
  fold q cs in Epos, Eidx, Ecnt, Hcs, El, He. pose proof (Z.mod_pos_bound h L ltac:(lia)) as Hm.
  destruct (update_each_spec (h mod 128) w (fun _ c => _ ← assert_ (bool_decide (state c = DESC_WRITING_BACK));
      Ok (c <| state := DESC_WRITTEN_BACK |>)) cs h) as (cs1 & Hu & Hl1 & Hin1 & Hout1); [done|done|lia| |].
  { intros i c Hi' Hci. rewrite bool_decide_true by (rewrite <- (st_some _ _ _ Hci); apply Hw; lia). by eexists. }
  assert (∀ j, 0 <= j < w → st cs1 (h + j) = DESC_WRITTEN_BACK) as Hst1.
  { intros j Hj. destruct (ctx_total cs Hcs (h + j)) as [c Hcj].
    rewrite (st_some _ _ (c <| state := DESC_WRITTEN_BACK |>)); [done|]. apply (Hin1 j c); [done|done|].
    by rewrite bool_decide_true by (rewrite <- (st_some _ _ _ Hcj); apply Hw; lia). }
  destruct (sweep_spec DESC_WRITTEN_BACK DESC_EMPTY (Z.to_nat (active_cnt q)) 0 (active_first_pos q) cs1 h Hl1 Epos)
    as (cs' & k & Hs & Hl & Hk & Hin & Hend & Hout); [lia..|]. rewrite Z2Nat.id, Z.add_0_l in * by lia.
  assert (k = w) as ->.
  { destruct (Z.lt_trichotomy k w) as [Hlt|[Heq|Hgt]]; [|done|].
    - destruct (ctx_total cs1 Hl1 (h + k)) as [c Hck]. destruct (Hend c ltac:(lia) Hck).
      rewrite <- (st_some _ _ _ Hck). apply Hst1. lia.
    - destruct (Hin w) as (c & Hcw & Hsw & _); [lia|]. rewrite Hout1 in Hcw by lia. apply st_some in Hcw.
      rewrite Hsw in Hcw. exfalso. destruct (decide (h + w < p)).
      + pose proof (i_late _ _ _ _ _ Hi (h + w) ltac:(lia)) as G. fold q cs in G. rewrite Hcw in G. unfold late in G. intuition congruence.
      + pose proof (i_early _ _ _ _ _ Hi (h + w) ltac:(lia)) as G. fold q cs in G. rewrite Hcw in G. unfold early in G. intuition congruence. }
  exists cs'. split.
  { unfold writeback_done. rewrite He, El. cbn [negb]. rewrite (proj2 (Z.eqb_neq L 0)) by lia. fold cs. rewrite Hu.
    cbn [mbind result_bind]. rewrite Hs. cbn [mbind result_bind]. rewrite Epos, Eidx, Ecnt.
    rewrite (wrap_small 32 (h mod L + w)) by (unfold in_width; lia). rewrite Zplus_mod_idemp_l.
    rewrite (wrap_small 32 (f - h - w)) by (unfold in_width; lia).
    rewrite (slot_mod (h mod 128 + w) (h + w)) by (by rewrite Zplus_mod_idemp_l).
    by replace (f - h - w) with (f - (h + w)) by lia. }
  split; [done|]. split.
  - intros j Hj. destruct (Hin j Hj) as (c & _ & _ & Hcj). by rewrite (st_some _ _ _ Hcj).
  - intros j Hj. rewrite Hout by lia. apply Hout1. lia.
Qed.

Lemma step_written pos cnt : (pos, cnt) ∈ p_wb s → good_step L h p f (EvWritten pos cnt) s.
Proof.
  intros Hin. destruct (i_wb _ _ _ _ _ Hi) as (w & Hw0 & Hwp & Hw & Ewb). rewrite Ewb in Hin. fold q cs in Hw.
  destruct (Z.eqb_spec w 0) as [|Hwn]; [by apply not_elem_of_nil in Hin|].
  apply list_elem_of_singleton in Hin. injection Hin as -> ->.
  destruct (writeback_done_spec w ltac:(lia) Hwp Hw) as (cs' & Hd & Hl & Hem' & Hout).
  pose proof (i_cnt _ _ _ _ _ Hi) as Hc.
  eexists _, (h + w), p, f. split; [done|]. rewrite Z.sub_diag. split; [unfold exec; fold q; rewrite Hd; done|].
  pose proof (out_window cs cs' h h w ltac:(lia) ltac:(lia) ltac:(lia) Hout) as Hold.
  assert (∀ m, h + w <= m < h + 128 → st cs' m = st cs m) as Hst by (intros; unfold st; rewrite Hold by lia; done).
  assert (∀ j, 0 <= j < w → st cs (h + j) = DESC_WRITING_BACK) as Hwb by (intros; apply Hw; lia).
  assert (∀ d, d ≠ DESC_WRITING_BACK → d ≠ DESC_EMPTY → ∀ i, 0 <= i < 128 → st cs' (h + i) = d ↔ st cs (h + i) = d) as Hother.
  { intros d G1 G2 i Hi'. destruct (decide (i < w)); [|by rewrite Hst by lia].
    rewrite Hem', Hwb by lia. split; intros; congruence. }
  destruct Hi as [[El HL] ? ? ? ? Hidx Hla Hea Hem _ Hf1 Hf2 Hf3 Hta]. fold q cs in Hidx, Hla, Hea, Hem, Hf1, Hf2, Hf3.
  split; cbn; try done.
  - lia.
  - intros m c Hm Hcm. rewrite Hold in Hcm by lia. apply Hidx; [lia|done].
  - intros m Hm. rewrite Hst by lia. apply Hla. lia.
  - intros m Hm. rewrite Hst by lia. apply Hea. lia.
  - intros m Hm. destruct (decide (m < h + 128)); [rewrite Hst by lia; apply Hem; lia|].
    replace m with (m - 128 + 128) by lia. unfold st. rewrite ctx_period. fold (st cs' (m - 128)).
    replace (m - 128) with (h + (m - 128 - h)) by lia. apply Hem'. lia.
  - exists 0. split; [done|]. split; [lia|]. split.
    + intros m Hm. rewrite Hst by lia. rewrite (Hw m) by lia. lia.
    + rewrite Ewb. by rewrite filter_cons_False by (intros G; by apply G).
  - apply (pend_same _ cs cs' _ Hf1 h). by apply Hother.
  - apply (pend_same _ cs cs' _ Hf2 h). by apply Hother.
  - apply (pend_same _ cs cs' _ Hf3 h). by apply Hother.
  - intros Hd'. destruct (Hta Hd') as [? Hp]. split; [done|]. fold q in Hp |- *.
    replace (reg_tail q - (h + w)) with (reg_tail q - h - w) by lia. rewrite <- Zminus_mod_idemp_l.
    pose proof (Z.mod_pos_bound (reg_tail q - h) L ltac:(lia)). rewrite (Z.mod_small (_ mod L - w)) by lia. lia.
Qed.
End written.

(** ** Runs *)

Lemma good L h p f ev s : inv L h p f s → may ev s → good_step L h p f ev s.
Proof.
  intros Hi Hm. destruct ev; simpl in Hm.
  - by apply step_tail.
  - by apply step_fetch.
  - by apply step_fetched.
  - by apply step_prepared.
  - by apply step_process.
  - by apply step_processed.
  - by apply step_writeback.
  - by apply step_written.
Qed.

(** A queue that can be enabled. *)
Definition startable (q : queue_base) : Prop :=
  length (desc_ctxs q) = 128%nat ∧ 0 < len q < 2 ^ 31 ∧ 0 <= reg_tail q < len q.

Lemma inv_start q : startable q → inv (len q) 0 0 0 (start q).
Proof.
  intros (Hcs & HL & Ht).
  assert (∀ m, st ((fun c => c <| state := DESC_EMPTY |>) <$> desc_ctxs q) m = DESC_EMPTY) as Hst.
  { intros m. unfold st, ctx_of. rewrite list_lookup_fmap. by destruct (desc_ctxs q !! _). }
  assert (∀ d, d ≠ DESC_EMPTY → pend d ((fun c => c <| state := DESC_EMPTY |>) <$> desc_ctxs q) []) as Hp.
  { intros d Hd. split_and!; [constructor|by intros ? ?%not_elem_of_nil|]. intros m. rewrite Hst.
    split; [by intros ?%not_elem_of_nil|congruence]. }
  split; cbn; try done || lia; try by apply Hp.
  - by rewrite length_fmap.
  - exists 0. split_and!; try done || lia.
  - intros _. split; [done|]. rewrite Z.sub_0_r, Z.mod_small by lia. lia.
Qed.

Lemma queue_run_inv q s out : startable q → run (start q) s out →
  ∃ h p f, inv (len q) h p f s ∧ out = (fun m => m mod len q) <$> seqZ 0 p.
Proof.
  intros Hq Hr. induction Hr as [|s out ev s' out' Hr IH Hm He].
  { exists 0, 0, 0. split; [by apply inv_start|done]. }
  destruct IH as (h & p & f & Hi & ->).
  destruct (good _ _ _ _ _ _ Hi Hm) as (s1 & h' & p' & f' & Hp & He' & Hi'). rewrite He in He'. injection He' as <- ->.
  exists h', p', f'. split; [done|]. pose proof (i_cnt _ _ _ _ _ Hi).
  rewrite <- fmap_app. f_equal. replace p' with (p + (p' - p)) at 2 by lia.
  rewrite seqZ_app by lia. by rewrite Z.add_0_l.
Qed.

(** C8. Descriptors reach the subclass in order: whatever the order in which
    transfers complete and descriptors are finished, the ring indices handed to
    [process] are 0, 1, 2, ... modulo the length of the ring, each exactly once. *)
Theorem process_in_order q s out : startable q → run (start q) s out →
  out = (fun k => k mod len q) <$> seqZ 0 (Z.of_nat (length out)).
Proof.
  intros Hq Hr. destruct (queue_run_inv q s out Hq Hr) as (h & p & f & Hi & ->).
  pose proof (i_cnt _ _ _ _ _ Hi). rewrite length_fmap, length_seqZ, Z2Nat.id by lia. done.
Qed.

(** C9. Safety: in every reachable state, every operation that may run succeeds:
    no assertion fails and no context outside the table is used. *)
Theorem queue_safe q s out ev : startable q → run (start q) s out → may ev s →
  ∃ s' out', exec ev s = Ok (s', out').
Proof.
  intros Hq Hr Hm. destruct (queue_run_inv q s out Hq Hr) as (h & p & f & Hi & _).
  destruct (good _ _ _ _ _ _ Hi Hm) as (s' & h' & p' & f' & _ & He & _). eauto.
Qed.

(** If the length of the ring divides [2^32], only posted descriptors are
    ever fetched: the active ones lie between the head and the tail. *)
Theorem fetches_posted q s out : startable q → run (start q) s out → 2 ^ 32 mod len q = 0 →
  0 <= active_cnt (sq s) <= posted (sq s) (reg_tail (sq s)) ∧ active_cnt (sq s) <= 128.
Proof.
  intros Hq Hr Hd. destruct (queue_run_inv q s out Hq Hr) as (h & p & f & Hi & _).
  destruct (i_tail _ _ _ _ _ Hi Hd) as [_ Ht]. destruct (i_first _ _ _ _ _ Hi) as (_ & Eidx & Ecnt).
  pose proof (i_cnt _ _ _ _ _ Hi). unfold posted. destruct (i_len _ _ _ _ _ Hi) as [-> _].
  rewrite Eidx, Zminus_mod_idemp_r, Ecnt. lia.
Qed.

(** The number of available descriptors is right exactly if the tail has not
    wrapped around or the length of the ring divides [2^32]. *)
Theorem desc_avail_right q next_idx : 0 < len q < 2 ^ 31 → 0 <= reg_tail q < len q → 0 <= next_idx < len q →
  desc_avail q next_idx = (reg_tail q - next_idx) mod len q ↔
  next_idx <= reg_tail q ∨ 2 ^ 32 mod len q = 0.
Proof.
  intros HL Ht Hn. unfold desc_avail, wrap. destruct (Z.le_gt_cases next_idx (reg_tail q)) as [Hle|Hgt].
  { rewrite (Z.mod_small _ (2 ^ 32)) by lia. tauto. }
  replace ((reg_tail q - next_idx) mod 2 ^ 32) with (reg_tail q - next_idx + 2 ^ 32)
    by (rewrite <- (Z_mod_plus_full _ 1); symmetry; apply Z.mod_small; lia).
  rewrite <- Zplus_mod_idemp_r. set (r := 2 ^ 32 mod len q).
  pose proof (Z.mod_pos_bound (2 ^ 32) (len q) ltac:(lia)) as Hr. fold r in Hr.
  set (x := reg_tail q - next_idx). rewrite <- Zplus_mod_idemp_l.
  pose proof (Z.mod_pos_bound x (len q) ltac:(lia)) as Hx. set (y := x mod len q) in *.
  split; [|intros [?|E]; [lia|]; rewrite E, Z.add_0_r; by apply Z.mod_mod; lia].
  intros E. right. destruct (Z.lt_ge_cases (y + r) (len q)).
  - rewrite Z.mod_small in E by lia. lia.
  - rewrite <- (Z_mod_plus_full _ (-1)), Z.mod_small in E by lia. lia.
Qed.

(** Write-back: the transfer carries the descriptors of finished contexts, and
    each of them goes to its own place in the ring. *)
Theorem writeback_slots q s out q' d : startable q → run (start q) s out →
  trigger_writeback (sq s) = Ok (q', Some d) →
  ∃ cl, Z.of_nat (length cl) = dma_cnt d ∧ dma_data d = concat (desc <$> cl) ∧
    ∀ j c, cl !! j = Some c → c ∈ desc_ctxs (sq s) ∧ state c = DESC_PROCESSED ∧
      u64 (dma_addr d + Z.of_nat j * desc_len (sq s)) = u64 (base (sq s) + index c * desc_len (sq s)).
Proof.
  intros Hq Hr Ht. destruct (queue_run_inv q s out Hq Hr) as (h & p & f & Hi & _).
  destruct (trigger_writeback_spec _ _ _ _ _ Hi) as (n & Hn & HnL & Hdone & Hrun).
  destruct (Z.eqb_spec n 0); [congruence|]. destruct Hrun as (cs' & data & Hw & _ & _ & _ & Hdata).
  rewrite Ht in Hw. injection Hw as _ ->. set (cs := desc_ctxs (sq s)) in *. cbn [dma_cnt dma_data dma_addr].
  exists ((fun j => default (mkCtx DESC_EMPTY 0 []) (ctx_of cs (h + j))) <$> seqZ 0 n).
  split; [rewrite length_fmap, length_seqZ; lia|]. split.
  { rewrite Hdata, <- list_fmap_compose. f_equal. apply list_fmap_ext. intros i j _. cbn. by destruct (ctx_of cs (h + j)). }
  intros j c (k & Hc & [-> Hk]%lookup_seqZ)%list_lookup_fmap_Some. rewrite Z.add_0_l in *.
  pose proof (i_cnt _ _ _ _ _ Hi). destruct (i_len _ _ _ _ _ Hi) as [_ HL].
  destruct (ctx_total cs (i_ctxs _ _ _ _ _ Hi) (h + Z.of_nat j)) as [c' Hc']. rewrite Hc' in Hc. cbn in Hc. subst c'.
  split; [by eapply list_elem_of_lookup_2|]. split; [rewrite <- (st_some _ _ _ Hc'); apply Hdone; lia|].
  rewrite (i_index _ _ _ _ _ Hi (h + Z.of_nat j)) by (done || lia).
  assert ((h + Z.of_nat j) mod len q = h mod len q + Z.of_nat j) as ->.
  { rewrite <- Zplus_mod_idemp_l. apply Z.mod_small. pose proof (Z.mod_pos_bound h (len q)). lia. }
  unfold wrap. rewrite Zplus_mod_idemp_l. f_equal. lia.
Qed.

(** ** A concrete run *)

#[export] Instance may_dec ev s : Decision (may ev s).
Proof. destruct ev; cbn; apply _. Defined.

Fixpoint play (evs : list event) (s : sys) (out : list Z) : option (sys * list Z) :=
  match evs with
  | [] => Some (s, out)
  | ev :: evs =>
      if decide (may ev s) then
        match exec ev s with Ok (s', o) => play evs s' (out ++ o) | _ => None end
      else None
  end.

Lemma play_run s0 evs s out s' out' : run s0 s out → play evs s out = Some (s', out') → run s0 s' out'.
Proof.
  revert s out. induction evs as [|ev evs IH]; intros s out Hr; cbn [play]; [by intros [= <- <-]|].
  destruct (decide _); [|done]. destruct (exec ev s) as [[s1 o]| |] eqn:E; [|done|done].
  intros Hp. eapply IH, Hp. by eapply run_step.
Qed.

Definition demo_ring : queue_base :=
  mkQueue (replicate 128 (mkCtx DESC_EMPTY 0 [])) 0 0 0 0x1000 4 0 0 false 2.

(** Three descriptors; the preparations and the subclass are out of order. *)
Definition demo_events : list event :=
  [EvTail 3; EvFetch; EvFetched 1 [3; 4]; EvFetched 0 [1; 2]; EvPrepared 1; EvProcess; EvPrepared 0; EvProcess;
   EvProcessed 1; EvWriteback; EvProcessed 0].

Definition demo_end : sys * list Z := default (start demo_ring, []) (play demo_events (start demo_ring) []).

Lemma demo_startable : startable demo_ring.
Proof. by vm_compute. Qed.

Lemma demo_run : run (start demo_ring) demo_end.1 demo_end.2.
Proof.
  apply (play_run _ demo_events (start demo_ring) []); [constructor|]. vm_compute. reflexivity.
Qed.

Lemma process_in_order_witness : demo_end.2 = (fun k => k mod 4) <$> seqZ 0 2.
Proof. apply (process_in_order demo_ring demo_end.1 demo_end.2 demo_startable demo_run). Defined.

Lemma queue_safe_witness : ∃ s' out', exec EvWriteback demo_end.1 = Ok (s', out').
Proof. apply (queue_safe demo_ring demo_end.1 demo_end.2 EvWriteback demo_startable demo_run). exact I. Defined.

Lemma fetches_posted_witness :
  active_cnt (sq demo_end.1) = 3 ∧ active_cnt (sq demo_end.1) <= posted (sq demo_end.1) (reg_tail (sq demo_end.1)).
Proof.
  split; [by vm_compute|].
  by apply (fetches_posted demo_ring demo_end.1 demo_end.2 demo_startable demo_run).
Defined.

(** A ring of 96 descriptors whose tail has wrapped: one descriptor is posted, the
    code finds 65. *)
Lemma desc_avail_right_witness :
  let q := demo_ring <| len := 96 |> in
  desc_avail q 95 = 65 ∧ desc_avail q 95 ≠ (reg_tail q - 95) mod len q.
Proof.
  cbn zeta. split; [by vm_compute|]. intros E.
  apply desc_avail_right in E; [|cbn; lia..]. destruct E as [E|E]; vm_compute in E; congruence.
Defined.

Definition demo_dma : dma := mkDma 0x1000 0 2 [1; 2; 3; 4].

Lemma writeback_slots_witness : ∃ cl, dma_data demo_dma = concat (desc <$> cl) ∧
  ∀ j c, cl !! j = Some c → state c = DESC_PROCESSED.
Proof.
  destruct (writeback_slots demo_ring demo_end.1 demo_end.2
    (match trigger_writeback (sq demo_end.1) with Ok (q', _) => q' | _ => demo_ring end) demo_dma
    demo_startable demo_run) as (cl & _ & Hd & Hj); [vm_compute; reflexivity|].
  exists cl. split; [done|]. intros j c Hc. by apply (Hj j c).
Defined.
