(* ===== verification/E810Lan.v ===== *)
(** * Configuration of the queues

    How the driver's queue contexts reach the device: the context registers of
    e810_bm.cc, the command that adds a transmit queue in e810_adminq.cc, and the
    functions of e810_lan.cc that decode a context, enable and disable a queue. *)
From stdpp Require Import strings.
From S2P Require Import Prelude Bytes IceStatus E810Base IceCtx IceCtxSpec E810Queue E810QueueSpec.
Local Open Scope Z_scope.

(** ** Registers *)

Definition QRX_TAIL (qrx : Z) : Z := 0x00290000 + qrx * 4.

(** [regs.QRX_CONTEXT], 8 registers for each of 2048 queues.  A write to one of the
    first 256 tail registers goes elsewhere. *)
Definition write_qrx_context (addr val : Z) (regs : list Z) : result (list Z) :=
  if (QRX_TAIL 0 <=? addr) && (addr <=? QRX_TAIL 255) then Ok regs
  else if (QRX_CONTEXT 0 0 <=? addr) && (addr <? QRX_CONTEXT 8 2048)
  then of_opt (wr regs ((addr - QRX_CONTEXT 0 0) / 4) (u32 val))
  else Ok regs.

(** Only one address is readable. *)
Definition read_qrx_context (addr : Z) (regs : list Z) : result Z :=
  if (QRX_CONTEXT 0 0 <=? addr) && (addr <=? QRX_CONTEXT 0 0)
  then of_opt (rd regs ((addr - QRX_CONTEXT 0 0) / 4)) else Ok 0.

#[export] Instance qrx_regs : RegSpace (list Z) :=
  { rd32 := read_qrx_context; wr32 := write_qrx_context }.

(** [dev.ctx_addr], 22 bytes for each of 2048 transmit queues. *)
Definition add_txqs (txq_id : Z) (txq_ctx : list Z) (ctx_addr : list (list Z)) : result (list (list Z)) :=
  ctx ← of_opt (bytes_at 22 txq_ctx 0);
  of_opt (wr ctx_addr txq_id ctx).

(** ** Decoding *)

(** The three sizes have 16 bits; only the last one can exceed them. *)
Record rx_cfg := mkRxCfg { rx_dbuff_size : Z; hbuff_size : Z; crc_strip : bool; rxmax : Z }.

(** The eight registers of queue [idx], as bytes. *)
Definition packed_ctx (regs : list Z) (idx : Z) : result (list Z) :=
  for_res 8 0 (fun i acc =>
    v ← of_opt (rd regs ((QRX_CONTEXT i idx - QRX_CONTEXT 0 0) / 4)); Ok (acc ++ le_bytes 4 v)) [].

Definition rx_initialize (regs : list Z) (idx : Z) (q : queue_base) : result (queue_base * rx_cfg) :=
  ctx_p ← packed_ctx regs idx;
  head_p ← of_opt (load 2 ctx_p 0);
  base_p ← of_opt (load 8 ctx_p 4);
  qlen_p ← of_opt (load 2 ctx_p 11);
  dbsz_p ← of_opt (load 2 ctx_p 12);
  hbsz_p ← of_opt (load 2 ctx_p 13);
  rxmax_p ← of_opt (load 4 ctx_p 21);
  let dtype := (hbsz_p .>> 10) .& (1 .<< 2 - 1) in
  let longdesc := nz ((hbsz_p .>> 12) .& 1) in
  let q := q <| reg_head := head_p .& (1 .<< 13 - 1) |>
             <| base := u64 ((base_p .& (1 .<< 57 - 1)) * 128) |>
             <| len := (qlen_p .>> 1) .& (1 .<< 13 - 1) |>
             <| desc_len := if longdesc then 32 else 16 |> in
  let cfg := mkRxCfg (((dbsz_p .>> 6) .& (1 .<< 7 - 1)) * 128) (((hbsz_p .>> 5) .& (1 .<< 5 - 1)) * 64)
               (nz ((hbsz_p .>> 13) .& 1)) (u16 (((rxmax_p .>> 6) .& (1 .<< 14 - 1)) * 128)) in
  if negb longdesc then Abort
  else if negb (dtype =? 0) then Abort
  else Ok (q, cfg).

(** The queue, and whether the head is written back instead of descriptors. *)
Definition tx_initialize (ctx_p : list Z) (q : queue_base) : result (queue_base * bool) :=
  base_p ← of_opt (load 8 ctx_p 0);
  hwb_qlen_p ← of_opt (load 4 ctx_p 16);
  hwb_p ← of_opt (load 8 ctx_p 12);
  Ok (q <| base := u64 ((base_p .& (1 .<< 57 - 1)) * 128) |>
        <| len := (hwb_qlen_p .>> 7) .& (1 .<< 14 - 1) |>,
      nz ((hwb_p .>> 5) .& 1)).

(** The context of transmit queue [idx] as the device finds it. *)
Definition tx_queue (ctx_addr : list (list Z)) (idx : Z) (q : queue_base) : result queue_base :=
  ctx_p ← of_opt (rd ctx_addr idx);
  '(q, _) ← tx_initialize ctx_p q; Ok q.

(** ** Enabling *)

Definition QRX_CTRL_QENA_STAT_M : Z := 4.

Record lan_queue_base := mkLanq { lq : queue_base; enabling : bool; reg_ena : Z }.
#[export] Instance lanq_settable : Settable lan_queue_base := fun r => mkLanq (lq r) (enabling r) (reg_ena r).

Definition triggered : Type := lan_queue_base * option dma * list Z * option dma.

(** [initialize] is the function of the subclass. *)
Definition ctx_fetched (initialize : queue_base → result queue_base) (l : lan_queue_base) : result triggered :=
  q ← initialize (lq l);
  let l := l <| enabling := false |> <| reg_ena := reg_ena l .| QRX_CTRL_QENA_STAT_M |> in
  '(q, f, ps, w) ← reg_updated (q <| enabled := true |>);
  Ok (l <| lq := q |>, f, ps, w).

Definition enable (initialize : queue_base → result queue_base) (l : lan_queue_base) : result triggered :=
  if enabling l || enabled (lq l) then Ok (l, None, [], None)
  else ctx_fetched initialize (l <| enabling := true |>).

Definition disable (l : lan_queue_base) : lan_queue_base :=
  l <| lq := (lq l) <| enabled := false |> |> <| reg_ena := reg_ena l .& cnot 32 QRX_CTRL_QENA_STAT_M |>.

(** ** The manager of the queues *)

Definition QRX_CTRL_QENA_REQ_M : Z := 1.

(** What a queue has started: a fetch, the contexts handed to [process], a write-back. *)
Definition started : Type := option dma * list Z * option dma.

(** [lan::qena_updated] for the enable registers and the queues of one direction, up to the
    call of [tail_updated]; [Some] if the queue was to be enabled.  [reg_ena] of a queue is a
    reference to its register. *)
Definition qena_updated (initialize : Z → queue_base → result queue_base) (idx : Z) (regs : list Z) (qs : list lan_queue_base)
    : result (list Z * list lan_queue_base * option started) :=
  let idx := u16 idx in
  reg ← of_opt (rd regs idx);
  l ← of_opt (rd qs idx);
  let l := l <| reg_ena := reg |> in
  let req := nz (reg .& QRX_CTRL_QENA_REQ_M) in
  if req && negb (enabled (lq l)) then
    '(l, f, ps, w) ← enable (initialize idx) l;
    regs ← of_opt (wr regs idx (reg_ena l));
    qs ← of_opt (wr qs idx l);
    Ok (regs, qs, Some (f, ps, w))
  else if negb req && enabled (lq l) then
    let l := disable l in
    regs ← of_opt (wr regs idx (reg_ena l));
    qs ← of_opt (wr qs idx l);
    Ok (regs, qs, None)
  else Ok (regs, qs, None).

(** [lan::tail_updated] for the queues of one direction. *)
Definition tail_updated (idx : Z) (qs : list lan_queue_base) : result (list lan_queue_base * started) :=
  let idx := u16 idx in
  l ← of_opt (rd qs idx);
  if enabled (lq l) then
    '(q, f, ps, w) ← reg_updated (lq l);
    qs ← of_opt (wr qs idx (l <| lq := q |>));
    Ok (qs, (f, ps, w))
  else Ok (qs, (None, [], None)).

(** ** What a queue gets *)

(** A field of the driver's struct, cut to [w] bits. *)
Definition field (s : cstruct) (f : string) (w : Z) (mem : list Z) : Z :=
  wrap w (le (take (Z.to_nat (field_of s f).2) (drop (Z.to_nat (field_of s f).1) mem))).

(** The low bits of a field in a packed context, for a field that fits its word. *)
Lemma packed_field s f w b v info src buf :
  (∀ e, e ∈ written info → slice (le buf) (lsb e) (ewidth e) = wrap (ewidth e) (fieldv src e)) →
  ICE_CTX_STORE s f w b ∈ written info → ewidth (ICE_CTX_STORE s f w b) = w → 0 <= b → 0 <= v <= w →
  slice (le buf) b v = field s f v src.
Proof.
  intros Hf Hin Hw Hb Hv. specialize (Hf _ Hin). rewrite Hw in Hf. cbn [lsb ICE_CTX_STORE] in Hf.
  rewrite <- (Z.add_0_r b), <- (slice_slice _ _ w) by lia. rewrite Hf. unfold slice, field, fieldv.
  rewrite Z.shiftr_0_r. unfold wrap. apply Z.mod_mod_divide. exists (2 ^ (w - v)).
  rewrite <- Z.pow_add_r by lia. f_equal. lia.
Qed.

(** Two neighbouring fields read as one. *)
Lemma slice_app x lo a b : 0 <= lo → 0 <= a → 0 <= b →
  slice x lo (a + b) = slice x lo a + 2 ^ a * slice x (lo + a) b.
Proof.
  intros. unfold slice, wrap. rewrite <- Z.shiftr_shiftr by lia. rewrite (Z.shiftr_div_pow2 (x .>> lo)) by lia.
  rewrite Z.pow_add_r by lia. apply Z.rem_mul_r; lia.
Qed.

Ltac in_table := vm_compute; repeat first [left; reflexivity | right].

(** [packed f w b v H] is the low [v] bits of field [f], of [w] bits from bit [b] on. *)
Ltac packed s f w b v Hf :=
  match type of Hf with context [slice (le ?buf) _ _ = wrap _ (fieldv ?src _)] =>
    let E := fresh "E" in
    assert (slice (le buf) b v = field s f v src) as E
      by (apply (packed_field s f w b v _ src buf Hf); [in_table|by vm_compute|lia..])
  end.

(** The fields that a decoder reads, as bits of the context. *)
Ltac decode :=
  rewrite !load_in_range by (assumption || lia); cbn [of_opt mbind result_bind];
  repeat first [rewrite shiftr_slice by lia | mask_slice];
  repeat match goal with |- context [slice ?x ?a ?n] =>
    let a' := eval vm_compute in a in let n' := eval vm_compute in n in
    progress change (slice x a n) with (slice x a' n') end.

Lemma base_fits x a : u64 (slice x a 57 * 128) = slice x a 57 * 128.
Proof. apply wrap_small. pose proof (slice_width x a 57). unfold in_width in *. lia. Qed.

(** Decoding a packed transmit context. *)
Lemma tx_decode tlan q : bytes_ok tlan → length tlan = 56%nat →
  let f := fun n w => field ice_tlan_ctx n w tlan in
  ∃ ctx, ice_set_ctx tlan (replicate 22 0) ice_tlan_ctx_info = Some (ICE_SUCCESS, ctx) ∧ length ctx = 22%nat ∧
    tx_initialize ctx q = Ok (q <| base := f "base" 57 * 128 |>
                                <| len := f "qlen" 13 + 8192 * f "quanta_prof_idx" 1 |>, nz (f "wb_mode" 1)).
Proof.
  intros Hok Hl f. destruct (set_ctx_bits tlan (replicate 22 0) ice_tlan_ctx_info) as (ctx & Hset & Hc & Hlc & Hf & _).
  { by apply Forall_replicate. }
  { rewrite Hl, length_replicate. exact tlan_table_ok. }
  rewrite length_replicate in Hlc. exists ctx. split; [done|]. split; [done|].
  packed ice_tlan_ctx "base" 57 0 57 Hf. packed ice_tlan_ctx "qlen" 13 135 13 Hf.
  packed ice_tlan_ctx "quanta_prof_idx" 4 148 1 Hf. packed ice_tlan_ctx "wb_mode" 1 101 1 Hf.
  unfold tx_initialize. decode. rewrite (slice_app _ 135 13 1) by lia. change (135 + 13) with 148.
  rewrite base_fits, E, E0, E1, E2. done.
Qed.

(** ** Context registers *)

Lemma for_res_ext {S} n i (f g : Z → S → result S) s :
  (∀ j s, i <= j < i + Z.of_nat n → f j s = g j s) → for_res n i f s = for_res n i g s.
Proof.
  revert i s. induction n as [|n IH]; intros i s He; [done|]. cbn [for_res]. rewrite He by lia.
  destruct (g i s); cbn [mbind result_bind]; [|done..]. apply IH. intros. apply He. lia.
Qed.

(** The place of a register in the array. *)
Lemma reg_index i idx : (QRX_CONTEXT i idx - QRX_CONTEXT 0 0) / 4 = i * 2048 + idx.
Proof. unfold QRX_CONTEXT. symmetry. apply Z.div_unique_exact; lia. Qed.

Lemma write_reg i idx v regs : 0 <= i < 8 → 0 <= idx <= 2047 →
  write_qrx_context (QRX_CONTEXT i idx) v regs = of_opt (wr regs (i * 2048 + idx) (u32 v)).
Proof.
  intros Hi Hx. unfold write_qrx_context. rewrite reg_index. unfold QRX_TAIL, QRX_CONTEXT.
  rewrite (proj2 (Z.leb_gt _ _)) by lia. cbn [andb].
  by rewrite (proj2 (Z.leb_le _ _)), (proj2 (Z.ltb_lt _ _)) by lia.
Qed.

Lemma ctx_in_regs ctx idx regs : bytes_ok ctx → length ctx = 32%nat → 0 <= idx <= 2047 → Z.of_nat (length regs) = 16384 →
  ∃ regs', ice_copy_rxq_ctx_to_hw (Some ctx) idx regs = Ok (ICE_SUCCESS, regs') ∧ Z.of_nat (length regs') = 16384 ∧
    (∀ i, 0 <= i < 8 → rd regs' (i * 2048 + idx) = load 4 ctx (i * 4)) ∧
    (∀ k, (∀ i, 0 <= i < 8 → k ≠ i * 2048 + idx) → rd regs' k = rd regs k).
Proof.
  intros Hok Hl Hx Hr. unfold ice_copy_rxq_ctx_to_hw, ctx_to_hw.
  rewrite (proj2 (Z.ltb_ge _ _)) by (unfold QRX_CTRL_MAX_INDEX; lia).
  destruct (for_res_total (fun i regs' => Z.of_nat (length regs') = 16384 ∧
      (∀ j, 0 <= j < i → rd regs' (j * 2048 + idx) = load 4 ctx (j * 4)) ∧
      (∀ k, (∀ j, 0 <= j < i → k ≠ j * 2048 + idx) → rd regs' k = rd regs k)) 8 0
    (fun i hw => v ← of_opt (load 4 ctx (i * 4)); wr32 (QRX_CONTEXT i idx) v hw) regs) as (regs' & Hf & HP).
  - split_and!; [done|lia|done].
  - intros j r Hj (Hlr & Hd & Hk). rewrite load_in_range by (done || lia). cbn [of_opt mbind result_bind].
    unfold wr32, qrx_regs. rewrite write_reg by lia. rewrite wrap_slice by lia.
    pose proof (wr_in_range r (j * 2048 + idx) (slice (le ctx) (8 * (j * 4)) (8 * Z.of_nat 4)) ltac:(lia)) as Hw.
    rewrite Hw. eexists. split; [done|]. split; [by rewrite (wr_length _ _ _ _ Hw)|]. split.
    + intros j' Hj'. destruct (decide (j' = j)) as [->|].
      * rewrite (rd_wr_eq _ _ _ _ Hw). by rewrite load_in_range by (done || lia).
      * rewrite (rd_wr_ne _ _ _ _ _ Hw) by lia. apply Hd. lia.
    + intros k Hkj. rewrite (rd_wr_ne _ _ _ _ _ Hw) by (apply not_eq_sym, Hkj; lia). apply Hk. intros. apply Hkj. lia.
  - change (Z.to_nat ICE_RXQ_CTX_SIZE_DWORDS) with 8%nat. rewrite Hf. exists regs'. split; [done|]. exact HP.
Qed.

Lemma packed_regs ctx idx regs : bytes_ok ctx → length ctx = 32%nat →
  (∀ i, 0 <= i < 8 → rd regs (i * 2048 + idx) = load 4 ctx (i * 4)) → packed_ctx regs idx = Ok ctx.
Proof.
  intros Hok Hl Hr. unfold packed_ctx.
  destruct (for_res_total (fun i acc => acc = take (Z.to_nat (4 * i)) ctx) 8 0
    (fun i acc => v ← of_opt (rd regs ((QRX_CONTEXT i idx - QRX_CONTEXT 0 0) / 4)); Ok (acc ++ le_bytes 4 v)) [])
    as (acc & -> & ->); [done| |by rewrite take_ge by lia].
  intros j acc Hj ->. rewrite reg_index, Hr, load_take by lia. cbn [of_opt mbind result_bind].
  eexists. split; [done|]. rewrite le_bytes_le by (first [by apply bytes_ok_sub | apply length_sub; lia]).
  replace (Z.to_nat (4 * (j + 1))) with (Z.to_nat (4 * j) + 4)%nat by lia.
  rewrite take_add || rewrite <- take_take_drop. do 3 f_equal. lia.
Qed.

(** What [rx_initialize] makes of the fields of the driver's struct. *)
Definition rx_configured (rlan : list Z) (q : queue_base) : result (queue_base * rx_cfg) :=
  let f := fun n w => field ice_rlan_ctx n w rlan in
  if (f "dsize" 1 =? 0) || negb (f "dtype" 2 =? 0) then Abort
  else Ok (q <| reg_head := f "head" 13 |> <| base := f "base" 57 * 128 |> <| len := f "qlen" 13 |> <| desc_len := 32 |>,
           mkRxCfg (f "dbuf" 7 * 128) (f "hbuf" 5 * 64) (nz (f "crcstrip" 1)) (u16 (f "rxmax" 14 * 128))).

Lemma rx_decode src ctx regs idx q : bytes_ok ctx → length ctx = 32%nat → packed_ctx regs idx = Ok ctx →
  (∀ e, e ∈ written ice_rlan_ctx_info → slice (le ctx) (lsb e) (ewidth e) = wrap (ewidth e) (fieldv src e)) →
  rx_initialize regs idx q = rx_configured src q.
Proof.
  intros Hok Hl Hp Hf.
  packed ice_rlan_ctx "head" 13 0 13 Hf. packed ice_rlan_ctx "base" 57 32 57 Hf. packed ice_rlan_ctx "qlen" 13 89 13 Hf.
  packed ice_rlan_ctx "dbuf" 7 102 7 Hf. packed ice_rlan_ctx "hbuf" 5 109 5 Hf. packed ice_rlan_ctx "dtype" 2 114 2 Hf.
  packed ice_rlan_ctx "dsize" 1 116 1 Hf. packed ice_rlan_ctx "crcstrip" 1 117 1 Hf. packed ice_rlan_ctx "rxmax" 14 174 14 Hf.
  unfold rx_initialize. rewrite Hp. cbn [mbind result_bind]. decode.
  rewrite base_fits, E, E0, E1, E2, E3, E4, E5, E6, E7. unfold rx_configured, nz.
  destruct (field ice_rlan_ctx "dsize" 1 src =? 0); cbn [orb negb]; [done|].
  destruct (field ice_rlan_ctx "dtype" 2 src =? 0); done.
Qed.

Lemma field_put s f w src o bs : (o + length bs <= length src)%nat → 0 <= (field_of s f).1 → 0 <= (field_of s f).2 →
  (field_of s f).1 + (field_of s f).2 <= Z.of_nat o → field s f w (put src o bs) = field s f w src.
Proof. intros. unfold field. by rewrite sub_put_out by lia. Qed.

Lemma configured_put rlan bs q : length rlan = 48%nat → length bs = 1%nat →
  rx_configured (put rlan 42 bs) q = rx_configured rlan q.
Proof. intros. unfold rx_configured. by rewrite !field_put by (first [lia | by vm_compute]). Qed.

Lemma prefena_at : (field_of ice_rlan_ctx "prefena").1 = 42.
Proof. by vm_compute. Qed.

Lemma write_rxq_ctx_eq rlan src buf idx (hw : list Z) st : store 1 rlan (field_of ice_rlan_ctx "prefena").1 1 = Some src →
  ice_set_ctx src (replicate 32 0) ice_rlan_ctx_info = Some (st, buf) →
  ice_write_rxq_ctx (Some rlan) idx hw =
  ('(status, hw) ← ice_copy_rxq_ctx_to_hw (Some buf) idx hw; Ok (status, Some src, hw)).
Proof.
  unfold ice_write_rxq_ctx. generalize ice_rlan_ctx_info. intros info H1 H2. rewrite H1. cbn [of_opt mbind result_bind].
  assert (Z.to_nat ICE_RXQ_CTX_SZ = 32%nat) as -> by done. by rewrite H2.
Qed.

(** C12. Receive queue contexts: what the driver writes with [ice_write_rxq_ctx] is what
    the device decodes when it enables the queue, on every branch, except that of the
    largest packet, in units of 128 bytes, only the lowest 9 of the 14 bits are kept
    ([rx_configured]: the device stores it in 16 bits); the contexts of all other queues
    stay as they are. *)
Theorem rxq_ctx_roundtrip rlan idx regs q : bytes_ok rlan → length rlan = 48%nat → 0 <= idx <= 2047 →
  Z.of_nat (length regs) = 16384 →
  ∃ rlan' regs', ice_write_rxq_ctx (Some rlan) idx regs = Ok (ICE_SUCCESS, Some rlan', regs') ∧
    rx_initialize regs' idx q = rx_configured rlan q ∧
    ∀ i, 0 <= i <= 2047 → i ≠ idx → rx_initialize regs' i q = rx_initialize regs i q.
Proof.
  intros Hok Hl Hx Hr. set (src := put rlan 42 (le_bytes 1 1)).
  assert (length src = 48%nat) as Hls by (unfold src; rewrite length_put; cbn; lia).
  destruct (set_ctx_bits src (replicate 32 0) ice_rlan_ctx_info) as (ctx & Hset & Hc & Hlc & Hf & _).
  { by apply Forall_replicate. }
  { rewrite Hls, length_replicate. exact (proj1 rlan_table_ok). }
  rewrite length_replicate in Hlc.
  destruct (ctx_in_regs ctx idx regs Hc Hlc Hx Hr) as (regs' & Hcp & Hlr & Hw & Hk).
  rewrite (write_rxq_ctx_eq rlan src ctx idx regs ICE_SUCCESS) by
    (exact Hset || (rewrite prefena_at; by apply store_in; lia)). clear Hset. rewrite Hcp. cbn [mbind result_bind].
  exists src, regs'. split; [done|]. split.
  - rewrite (rx_decode src ctx) by (done || by apply packed_regs). by apply configured_put.
  - intros i Hi Hne. unfold rx_initialize. assert (packed_ctx regs' i = packed_ctx regs i) as ->; [|done].
    apply for_res_ext. intros j s Hj. rewrite reg_index, Hk; [done|]. intros j' Hj'. lia.
Qed.

(** ** Enabling a queue *)

(** A queue with its contexts, and with descriptors while it is enabled: all that its
    operations need to stay inside of their arrays. *)
Definition queue_ok (q : queue_base) : Prop := length (desc_ctxs q) = 128%nat ∧ (enabled q = true → len q ≠ 0).

Definition lanq_ok (l : lan_queue_base) : Prop := enabling l = false ∧ queue_ok (lq l).

Lemma rd_slot_ok {A} (cs : list A) x : length cs = 128%nat → is_Some (rd cs (slot x)).
Proof. intros Hl. apply rd_in_range. unfold slot, MAX_ACTIVE_DESCS. pose proof (Z.mod_pos_bound (u32 x) 128 ltac:(lia)). lia. Qed.

Lemma wr_slot_ok {A} (cs : list A) x c : length cs = 128%nat → ∃ cs', wr cs (slot x) c = Some cs' ∧ length cs' = 128%nat.
Proof.
  intros Hl. pose proof (Z.mod_pos_bound (u32 x) 128 ltac:(lia)). rewrite wr_in_range by (unfold slot, MAX_ACTIVE_DESCS; lia).
  eexists. split; [done|]. by rewrite length_insert.
Qed.

Lemma update_each_safe pos n f cs : length cs = 128%nat → (∀ i c, safe (fun _ => True) (f i c)) →
  safe (fun cs' => length cs' = 128%nat) (update_each pos n f cs).
Proof.
  intros Hl Hf. apply (for_res_safe (fun cs => length cs = 128%nat)); [done|]. intros j cs' Hl'.
  destruct (rd_slot_ok cs' (pos + j) Hl') as [c ->]. cbn [of_opt mbind result_bind]. eapply safe_bind; [apply Hf|]. intros c' _.
  by destruct (wr_slot_ok cs' (pos + j) c' Hl') as (cs2 & -> & ?).
Qed.

Lemma scan_safe f n i pos cs : length cs = 128%nat → safe (fun _ => True) (scan f n i pos cs).
Proof.
  intros Hl. revert i. induction n as [|n IH]; intros i; cbn [scan]; [done|]. destruct (rd_slot_ok cs (pos + i) Hl) as [c ->].
  cbn [of_opt mbind result_bind]. by destruct (f (state c)).
Qed.

Lemma sweep_safe st st' n i pos cs : length cs = 128%nat → safe (fun r => length r.1 = 128%nat) (sweep st st' n i pos cs).
Proof.
  revert i cs. induction n as [|n IH]; intros i cs Hl; cbn [sweep]; [done|]. destruct (rd_slot_ok cs (pos + i) Hl) as [c ->].
  cbn [of_opt mbind result_bind]. case_bool_decide; [|done]. destruct (wr_slot_ok cs (pos + i) (c <| state := st' |>) Hl) as (cs' & -> & ?).
  by apply IH.
Qed.

(** What an operation of an enabled queue leaves as it was. *)
Definition kept (q q' : queue_base) : Prop :=
  length (desc_ctxs q') = 128%nat ∧ enabled q' = enabled q ∧ len q' = len q.

Lemma trigger_fetch_safe q : length (desc_ctxs q) = 128%nat → len q ≠ 0 → safe (fun r => kept q r.1) (trigger_fetch q).
Proof.
  intros Hl Hne. unfold trigger_fetch. destruct (enabled q) eqn:E; cbn [negb]; [|done]. rewrite (proj2 (Z.eqb_neq _ _) Hne).
  destruct (_ =? 0); [done|]. eapply safe_bind; [apply update_each_safe; [done|]|by intros cs Hcs].
  intros i c. unfold assert_. by case_bool_decide.
Qed.

Lemma trigger_process_safe q : length (desc_ctxs q) = 128%nat → safe (fun r => kept q r.1) (trigger_process q).
Proof.
  intros Hl. unfold trigger_process. destruct (enabled q) eqn:E; cbn [negb]; [|done].
  eapply safe_bind; [by apply scan_safe|]. intros i _. eapply safe_bind; [by apply sweep_safe|]. by intros [cs k] Hcs.
Qed.

Lemma do_writeback_safe i p n q : length (desc_ctxs q) = 128%nat → safe (fun _ => True) (do_writeback i p n q).
Proof.
  intros Hl. unfold do_writeback. eapply safe_bind; [|done]. apply (for_res_safe (fun _ => True)); [done|]. intros j data _.
  destruct (rd_slot_ok (desc_ctxs q) (p + j) Hl) as [c ->]. cbn [of_opt mbind result_bind]. unfold assert_. by case_bool_decide.
Qed.

Lemma trigger_writeback_safe q : length (desc_ctxs q) = 128%nat → safe (fun r => kept q r.1) (trigger_writeback q).
Proof.
  intros Hl. unfold trigger_writeback. destruct (enabled q) eqn:E; cbn [negb]; [|done].
  eapply safe_bind; [by apply scan_safe|]. intros i _. destruct (_ =? 0); [done|].
  eapply safe_bind; [by apply update_each_safe|]. intros cs Hcs. eapply safe_bind; [by apply do_writeback_safe|]. done.
Qed.

(** A register update of a queue divides by zero exactly if the queue has no descriptors. *)
Lemma reg_updated_safe q : length (desc_ctxs q) = 128%nat →
  if enabled q && (len q =? 0) then reg_updated q = Undef else safe (fun r => kept q r.1.1.1) (reg_updated q).
Proof.
  intros Hl. unfold reg_updated, trigger. destruct (enabled q) eqn:E; cbn [andb negb]; [|done]. destruct (Z.eqb_spec (len q) 0) as [E0|Hne].
  { unfold trigger_fetch. by rewrite E, E0. }
  eapply safe_bind; [by apply trigger_fetch_safe|]. intros [q1 f] (H1 & H2 & H3). cbn [fst] in *.
  eapply safe_bind; [by apply trigger_process_safe|]. intros [q2 ps] (H4 & H5 & H6). cbn [fst] in *.
  eapply safe_bind; [by apply trigger_writeback_safe|]. intros [q3 w] (H7 & H8 & H9). cbn [fst safe mbind result_bind] in *. unfold kept. cbn [fst]. split_and!; [done|congruence..].
Qed.

Lemma reg_updated_ok q : queue_ok q → safe (fun r => queue_ok r.1.1.1 ∧ enabled r.1.1.1 = enabled q) (reg_updated q).
Proof.
  intros [Hl He]. pose proof (reg_updated_safe q Hl) as H. destruct (enabled q && (len q =? 0)) eqn:E.
  { apply andb_true_iff in E as [E1 E2%Z.eqb_eq]. by destruct (He E1). }
  eapply safe_mono; [exact H|]. intros r (H1 & H2 & H3). split; [|done]. split; [done|]. by rewrite H2, H3.
Qed.

(** A tail update needs the queue of its index, and nothing else. *)
Lemma tail_updated_ok idx qs : Forall lanq_ok qs →
  if u16 idx <? Z.of_nat (length qs) then safe (fun r => Forall lanq_ok r.1 ∧ length r.1 = length qs) (tail_updated idx qs)
  else tail_updated idx qs = Undef.
Proof.
  intros Hqs. unfold tail_updated. pose proof (wrap_width 16 idx ltac:(lia)) as [H0 _]. destruct (Z.ltb_spec (u16 idx) (Z.of_nat (length qs))).
  - destruct (rd_in_range qs (u16 idx)) as [l El]; [lia|]. rewrite El. cbn [of_opt mbind result_bind].
    pose proof (rd_Forall _ _ _ _ Hqs El) as [He Hl]. destruct (enabled (lq l)) eqn:Een; [|done].
    eapply safe_bind; [by apply reg_updated_ok|]. intros [[[q' f] ps] w] [Hq _]. cbn [fst] in *.
    pose proof (wr_in_range qs (u16 idx) (l <| lq := q' |>) ltac:(lia)) as Hw. rewrite Hw. cbn. split; [|by apply wr_length in Hw].
    by eapply wr_Forall; [exact Hqs| |exact Hw].
  - by rewrite rd_out by lia.
Qed.

(** The initialisation of the queue does not touch the contexts. *)
Definition same_ctxs (q q' : queue_base) : Prop :=
  desc_ctxs q' = desc_ctxs q ∧ active_first_pos q' = active_first_pos q ∧ active_first_idx q' = active_first_idx q ∧
  active_cnt q' = active_cnt q ∧ 0 <= len q'.
Definition init_ok (init : queue_base → result queue_base) : Prop := ∀ q, safe (same_ctxs q) (init q).

(** Enabling a queue divides by zero exactly if its context gives it no descriptors. *)
Lemma enable_safe init l : init_ok init → lanq_ok l → enabled (lq l) = false →
  (enable init l = Undef ↔ ∃ q, init (lq l) = Ok q ∧ len q = 0) ∧
  ∀ l' f ps w, enable init l = Ok (l', f, ps, w) → lanq_ok l' ∧ enabled (lq l') = true.
Proof.
  intros Hi [He [Hl _]] Hen. unfold enable, ctx_fetched. rewrite He, Hen. cbn [orb lq set_field]. specialize (Hi (lq l)).
  destruct (init (lq l)) as [q| |]; cbn [mbind result_bind safe] in *; [|split; naive_solver|done]. destruct Hi as [Hc _].
  pose proof (reg_updated_safe (q <| enabled := true |>)) as H. cbn [set_field desc_ctxs enabled len andb] in H. rewrite Hc in H. specialize (H Hl). cbn [set_field].
  destruct (Z.eqb_spec (len q) 0) as [E|Hne].
  - rewrite Hc. rewrite H. split; [|done]. split; [by exists q|done].
  - rewrite Hc. destruct (reg_updated _) as [[[[q' f] ps] w]| |]; cbn [mbind result_bind safe fst] in *; [|split; naive_solver|done].
    destruct H as (H1 & H2 & H3). split; [split; [done|naive_solver]|]. intros l' f' ps' w' [= <- <- <- <-]. split; [|exact H2]. split; [done|]. split; [done|]. cbn. by rewrite H3.
Qed.

(** The enable register of a queue was written: [q] is the queue as its context describes it. *)
Definition no_descriptors (init : Z → queue_base → result queue_base) (idx : Z) (regs : list Z) (qs : list lan_queue_base) : Prop :=
  ∃ reg l q, rd regs (u16 idx) = Some reg ∧ rd qs (u16 idx) = Some l ∧ nz (reg .& QRX_CTRL_QENA_REQ_M) = true ∧
    enabled (lq l) = false ∧ init (u16 idx) (lq l) = Ok q ∧ len q = 0.

Lemma qena_updated_ok init idx regs qs : Forall lanq_ok qs → (∀ i, 0 <= i < Z.of_nat (length qs) → init_ok (init i)) → (length qs <= length regs)%nat →
  (qena_updated init idx regs qs = Undef ↔ Z.of_nat (length qs) <= u16 idx ∨ no_descriptors init idx regs qs) ∧
  ∀ regs' qs' eff, qena_updated init idx regs qs = Ok (regs', qs', eff) →
    Forall lanq_ok qs' ∧ length qs' = length qs ∧ length regs' = length regs.
Proof.
  intros Hqs Hi Hlen. unfold qena_updated, no_descriptors. pose proof (wrap_width 16 idx ltac:(lia)) as [H0 _]. set (i := u16 idx) in *.
  destruct (Z.ltb_spec i (Z.of_nat (length qs))) as [Hlt|Hge].
  2: { rewrite (rd_out qs) by lia. destruct (rd regs i); cbn [of_opt mbind result_bind]; (split; [split; [by left|done]|done]). }
  destruct (rd_in_range regs i) as [reg Er]; [lia|]. destruct (rd_in_range qs i) as [l El]; [lia|]. rewrite Er, El. cbn [of_opt mbind result_bind].
  pose proof (rd_Forall _ _ _ _ Hqs El) as Hl. cbn [set_field lq]. set (nd := ∃ reg' l' q, _).
  assert (nd → nz (reg .& QRX_CTRL_QENA_REQ_M) = true ∧ enabled (lq l) = false ∧ ∃ q, init i (lq l) = Ok q ∧ len q = 0) as Hnd.
  { intros (reg' & l' & q & [= <-] & [= <-] & H). naive_solver. }
  destruct (nz (reg .& QRX_CTRL_QENA_REQ_M)) eqn:Ereq, (enabled (lq l)) eqn:Een; cbn [andb negb].
  - split; [split; [done|intros [?|(? & ? & _)%Hnd]; [lia|done]]|]. by intros ??? [= <- <- <-].
  - destruct (enable_safe (init i) (l <| reg_ena := reg |>) ltac:(apply Hi; lia) Hl Een) as [Hu Hk]. cbn [set_field lq] in Hu, Hk.
    destruct (enable (init i) _) as [[[[l' f] ps] w]| |]; cbn [mbind result_bind].
    + rewrite (wr_in_range regs) by lia. cbn [of_opt mbind result_bind]. pose proof (wr_in_range qs i l' ltac:(lia)) as Hw. rewrite Hw. cbn [of_opt mbind result_bind].
      split; [split; [done|intros [?|(_ & _ & H)%Hnd]; [lia|by apply Hu in H]]|]. intros ??? [= <- <- <-]. rewrite !length_insert. split; [|done].
      eapply wr_Forall; [exact Hqs| |exact Hw]. by eapply Hk.
    + split; [split; [done|intros [?|(_ & _ & H)%Hnd]; [lia|by apply Hu in H]]|done].
    + split; [|done]. split; [|done]. intros _. right. destruct (proj1 Hu eq_refl) as (q & ? & ?). by exists reg, l, q.
  - rewrite (wr_in_range regs) by lia. cbn [of_opt mbind result_bind]. set (l' := disable _). pose proof (wr_in_range qs i l' ltac:(lia)) as Hw. rewrite Hw. cbn [of_opt mbind result_bind].
    split; [split; [done|intros [?|(? & _)%Hnd]; [lia|done]]|]. intros ??? [= <- <- <-]. rewrite !length_insert. split; [|done].
    eapply wr_Forall; [exact Hqs| |exact Hw]. destruct Hl as [? [? ?]]. by split_and!.
  - split; [split; [done|intros [?|(? & _)%Hnd]; [lia|done]]|]. by intros ??? [= <- <- <-].
Qed.

(** The queue was started. *)
Definition queue_starts (init : Z → queue_base → result queue_base) (idx : Z) (regs : list Z) (qs : list lan_queue_base) : Prop :=
  ∃ reg l r, rd regs (u16 idx) = Some reg ∧ rd qs (u16 idx) = Some l ∧ nz (reg .& QRX_CTRL_QENA_REQ_M) = true ∧
    enabled (lq l) = false ∧ enable (init (u16 idx)) (l <| reg_ena := reg |>) = Ok r.

Lemma qena_started init idx regs qs :
  (∃ regs' qs' st, qena_updated init idx regs qs = Ok (regs', qs', Some st)) ↔ queue_starts init idx regs qs.
Proof.
  unfold qena_updated, queue_starts. set (i := u16 idx). split.
  - intros (regs' & qs' & st & H). destruct (rd regs i) as [reg|]; [|done]. destruct (rd qs i) as [l|]; [|done]. cbn [of_opt mbind result_bind set_field lq] in H.
    exists reg, l. destruct (nz _), (enabled (lq l)); cbn [andb negb] in H; try done.
    + destruct (enable _ _) as [r| |]; [|done..]. by exists r.
    + by destruct (wr regs i _), (wr qs i _).
  - intros (reg & l & [[[l' f] ps] w] & E1 & E2 & E3 & E4 & E5). rewrite E1, E2. cbn [of_opt mbind result_bind set_field lq] in E5 |- *. rewrite E3, E4. cbn [andb negb].
    rewrite E5. cbn [mbind result_bind]. apply rd_Some in E1, E2. rewrite !wr_in_range by lia. by eexists _, _, _.
Qed.

(** The contexts of the queues can be read in full. *)
Lemma tx_queue_ok ctx_addr i : Forall (fun c => length c = 22%nat) ctx_addr → 0 <= i < Z.of_nat (length ctx_addr) → init_ok (tx_queue ctx_addr i).
Proof.
  intros Hc Hi q. unfold tx_queue. destruct (rd_in_range ctx_addr i Hi) as [c E]. rewrite E. cbn [of_opt mbind result_bind].
  pose proof (rd_Forall _ _ _ _ Hc E) as Hl. cbn beta in Hl. unfold tx_initialize.
  rewrite !load_take by lia. cbn. split_and!; try done. apply Z.land_nonneg. by right.
Qed.

Lemma rx_initialize_ok regs i : Z.of_nat (length regs) = 16384 → 0 <= i <= 2047 → init_ok (fun q => r ← rx_initialize regs i q; Ok r.1).
Proof.
  intros Hr Hi q. unfold rx_initialize, packed_ctx.
  destruct (for_res_total (fun j acc => Z.of_nat (length acc) = 4 * j) 8 0
    (fun j acc => v ← of_opt (rd regs ((QRX_CONTEXT j i - QRX_CONTEXT 0 0) / 4)); Ok (acc ++ le_bytes 4 v)) []) as (c & Hf & Hl); [done| |].
  { intros j acc Hj Hl. rewrite reg_index by lia. destruct (rd_in_range regs (j * 2048 + i)) as [v ->]; [lia|]. cbn [of_opt mbind result_bind]. eexists. split; [done|].
    rewrite length_app, length_le_bytes. lia. }
  rewrite Hf. cbn [mbind result_bind].
  rewrite !load_take by lia. cbn [of_opt mbind result_bind]. repeat case_match; try done. cbn. split_and!; try done. apply Z.land_nonneg. by right.
Qed.

(** A queue after its construction or a reset. *)
Definition fresh (q : queue_base) : Prop :=
  active_first_pos q = 0 ∧ active_first_idx q = 0 ∧ active_cnt q = 0 ∧ Forall (fun c => state c = DESC_EMPTY) (desc_ctxs q).

(** The first fetch of a queue finds its contexts empty. *)
Lemma first_fetch q : fresh q → length (desc_ctxs q) = 128%nat → 0 < len q → enabled q = true →
  ∃ q' f, trigger_fetch q = Ok (q', f) ∧ length (desc_ctxs q') = 128%nat ∧ Forall (fun c => state c ≠ DESC_PROCESSED) (desc_ctxs q') ∧
    active_first_idx q' = 0 ∧ len q' = len q.
Proof.
  intros (Hp & Hx & Hc & Hs) Hl Hlen Hen. unfold trigger_fetch. rewrite Hen, (proj2 (Z.eqb_neq (len q) 0)), Hp, Hx, Hc by lia. cbn [negb].
  assert (Forall (fun c => state c ≠ DESC_PROCESSED) (desc_ctxs q)) as Hs' by (eapply list.Forall_impl; [exact Hs|]; by intros c ->).
  change (u32 (0 + 0) mod len q) with (0 mod len q). rewrite Z.mod_0_l by lia. set (n := fetch_count q 0).
  destruct (Z.eqb_spec n 0); [by eexists _, _|].
  assert (n <= 128) as Hn.
  { unfold n, fetch_count. rewrite Hc. change (u32 (MAX_ACTIVE_DESCS - 0)) with 128. change (max_active_capacity <=? 0) with false. cbv iota.
    pose proof (Z.mod_pos_bound (u32 (reg_tail q - 0)) (len q) Hlen) as Hm. fold (desc_avail q 0) in Hm. unfold max_fetch_capacity, UINT32_MAX.
    set (k := Z.min _ _). assert (0 <= k <= 128) by lia. rewrite (Z.add_0_l k), (wrap_small 32 k) by (unfold in_width; lia).
    destruct (Z.ltb_spec (len q) k); [|lia]. rewrite wrap_small by (unfold in_width; lia). lia. }
  change (slot (0 + 0)) with 0. unfold update_each.
  edestruct (for_res_total (fun i cs => length cs = 128%nat ∧ Forall (fun c => state c ≠ DESC_PROCESSED) cs ∧
    ∀ j c, i <= j < 128 → rd cs j = Some c → state c = DESC_EMPTY) (Z.to_nat n) 0) as (cs & Hf & Hl' & Hp' & _); [| |rewrite Hf; by eexists _, _].
  - split_and!; [done..|]. intros j c _ E. exact (rd_Forall _ _ _ _ Hs E).
  - intros j cs Hj (H1 & H2 & H3). assert (slot (0 + j) = j) as ->.
    { unfold slot, MAX_ACTIVE_DESCS. rewrite wrap_small by (unfold in_width; lia). rewrite Z.mod_small; lia. }
    destruct (rd_in_range cs j) as [c Ec]; [lia|]. rewrite Ec. cbn [of_opt mbind result_bind]. rewrite bool_decide_true by (by eapply H3; [|exact Ec]; lia).
    cbn [assert_ mbind result_bind]. rewrite wr_in_range by lia. eexists. split; [done|]. rewrite length_insert. split; [done|]. split.
    + by apply Forall_insert.
    + intros j' c' Hj' E. eapply (H3 j'); [lia|]. rewrite <- E. symmetry. eapply rd_wr_ne; [apply wr_in_range|]; lia.
Qed.

Lemma scan_abort f n i pos cs : scan f n i pos cs ≠ Abort.
Proof.
  revert i. induction n as [|n IH]; intros i; cbn [scan]; [done|]. destruct (rd cs _); [|done]. cbn. by destruct (f (state d)).
Qed.

Lemma sweep_abort st st' n i pos cs : sweep st st' n i pos cs ≠ Abort.
Proof.
  revert i cs. induction n as [|n IH]; intros i cs; cbn [sweep]; [done|]. destruct (rd cs _); [|done]. cbn. case_bool_decide; [|done].
  destruct (wr cs _ _); [apply IH|done].
Qed.

Lemma sweep_states st st' n i pos cs cs' k : st' ≠ DESC_PROCESSED → Forall (fun c => state c ≠ DESC_PROCESSED) cs →
  sweep st st' n i pos cs = Ok (cs', k) → Forall (fun c => state c ≠ DESC_PROCESSED) cs'.
Proof.
  intros Hst. revert i cs. induction n as [|n IH]; intros i cs Hs; cbn [sweep]; [by intros [= <- _]|].
  destruct (rd cs _) as [c|]; [|done]. cbn. case_bool_decide; [|by intros [= <- _]]. destruct (wr cs _ _) as [cs1|] eqn:E; [|done].
  apply IH. eapply wr_Forall; [exact Hs| |exact E]. done.
Qed.

Lemma process_states q : Forall (fun c => state c ≠ DESC_PROCESSED) (desc_ctxs q) → trigger_process q ≠ Abort ∧
  ∀ q' ps, trigger_process q = Ok (q', ps) → Forall (fun c => state c ≠ DESC_PROCESSED) (desc_ctxs q') ∧
    active_first_idx q' = active_first_idx q ∧ len q' = len q.
Proof.
  intros Hs. unfold trigger_process. destruct (enabled q); cbn [negb]; [|split; [done|by intros q' ps [= <- _]]].
  destruct (scan _ _ _ _ _) as [i| |] eqn:E1; cbn [mbind result_bind]; [|by apply scan_abort in E1|done].
  destruct (sweep _ _ _ _ _ _) as [[cs k]| |] eqn:E2; cbn [mbind result_bind]; [|by apply sweep_abort in E2|done].
  split; [done|]. intros q' ps [= <- _]. split; [|done]. by eapply sweep_states; [| |exact E2].
Qed.

(** Nothing is written back as long as nothing was processed. *)
Lemma no_writeback q : Forall (fun c => state c ≠ DESC_PROCESSED) (desc_ctxs q) → active_first_idx q = 0 → 0 < len q → trigger_writeback q ≠ Abort.
Proof.
  intros Hs Hx Hl. unfold trigger_writeback. destruct (enabled q); cbn [negb]; [|done].
  assert (∀ n, scan (fun s => bool_decide (s = DESC_PROCESSED)) n 0 (active_first_pos q) (desc_ctxs q) ∈ [Ok 0; Undef]) as Hsc.
  { intros [|n]; cbn [scan]; [by left|]. destruct (rd (desc_ctxs q) _) as [c|] eqn:E; [|by right; left]. cbn.
    rewrite bool_decide_false by exact (rd_Forall _ _ _ _ Hs E). by left. }
  specialize (Hsc (Z.to_nat (active_cnt q))). apply elem_of_cons in Hsc as [->|Hsc]; [|by apply list_elem_of_singleton in Hsc as ->].
  cbn [mbind result_bind]. rewrite Hx. change (Z.min 0 max_writeback_capacity) with 0. change (u32 (0 + 0)) with 0. by rewrite (proj2 (Z.ltb_ge _ _)) by lia.
Qed.

(** A queue that is enabled for the first time does not stop in an assertion. *)
Lemma enable_fresh init l : init_ok init → init (lq l) ≠ Abort → length (desc_ctxs (lq l)) = 128%nat → fresh (lq l) → enable init l ≠ Abort.
Proof.
  intros Hi Ha Hl Hf. unfold enable, ctx_fetched. destruct (_ || _); [done|]. cbn [lq set_field]. specialize (Hi (lq l)).
  destruct (init (lq l)) as [q| |]; cbn [mbind result_bind safe] in *; [|done..]. destruct Hi as (H1 & H2 & H3 & H4 & H5). unfold reg_updated, trigger.
  destruct Hf as (F1 & F2 & F3 & F4). set (q1 := mkQueue _ _ _ _ _ _ _ _ _ _). cbn [enabled negb q1].
  destruct (Z.eqb_spec (len q) 0) as [E|Hne]; [unfold trigger_fetch; cbn; by rewrite E|].
  destruct (first_fetch q1) as (q2 & f & -> & Hl2 & Hs2 & Hx2 & Hn2); [by split_and!; cbn; congruence|cbn; congruence|cbn; lia|done|].
  cbn [mbind result_bind]. destruct (process_states q2 Hs2) as [Hp1 Hp2]. destruct (trigger_process q2) as [[q3 ps]| |]; cbn [mbind result_bind]; [|done..].
  destruct (Hp2 q3 ps eq_refl) as (Hs3 & Hx3 & Hn3). pose proof (no_writeback q3 Hs3) as Hw.
  destruct (trigger_writeback q3) as [[q4 w]| |]; cbn [mbind result_bind]; [done| |done]. intros _. apply Hw; [congruence| |done]. rewrite Hn3, Hn2. cbn. lia.
Qed.

(** A transmit queue: none is disabled but by a reset. *)
Definition txq_ok (l : lan_queue_base) : Prop := lanq_ok l ∧ (enabled (lq l) = false → fresh (lq l)).

(** A request to enable a transmit queue. *)
Lemma qena_request init idx regs qs reg : Forall txq_ok qs → (∀ i q, init i q ≠ Abort) →
  (∀ i, 0 <= i < Z.of_nat (length qs) → init_ok (init i)) → (length qs <= length regs)%nat →
  rd regs (u16 idx) = Some reg → nz (reg .& QRX_CTRL_QENA_REQ_M) = true →
  qena_updated init idx regs qs ≠ Abort ∧ ∀ regs' qs' eff, qena_updated init idx regs qs = Ok (regs', qs', eff) →
    Forall txq_ok qs' ∧ ∃ l, rd qs' (u16 idx) = Some l ∧ enabled (lq l) = true.
Proof.
  intros Hqs Ha Hi Hlen Er Hreq. unfold qena_updated. rewrite Er. cbn [of_opt mbind result_bind]. destruct (rd qs (u16 idx)) as [l|] eqn:El; [|done].
  pose proof (rd_Some _ _ _ El) as Hb. destruct (rd_Forall _ _ _ _ Hqs El) as [Hl Hf]. cbn [of_opt mbind result_bind set_field lq]. rewrite Hreq.
  destruct (enabled (lq l)) eqn:Een; cbn [andb negb]; [split; [done|intros ??? [= _ <- _]; split; [done|by exists l]]|].
  set (l1 := mkLanq _ _ _). destruct (enable_safe (init (u16 idx)) l1 ltac:(apply Hi; lia) Hl Een) as [_ Hk].
  pose proof (enable_fresh (init (u16 idx)) l1 ltac:(apply Hi; lia) (Ha _ _) (proj1 (proj2 Hl)) (Hf eq_refl)) as Hna.
  destruct (enable _ l1) as [[[[l' f] ps] w]| |]; cbn [mbind result_bind]; [|done..]. destruct (Hk l' f ps w eq_refl) as [H1 H2].
  rewrite (wr_in_range regs) by lia. cbn [of_opt mbind result_bind]. destruct (wr qs _ l') as [qs1|] eqn:Ew; cbn [of_opt mbind result_bind]; [|done].
  split; [done|]. intros ??? [= _ <- _]. split; [|exists l'; by rewrite (rd_wr_eq _ _ _ _ Ew)].
  eapply wr_Forall; [exact Hqs| |exact Ew]. split; [done|]. by rewrite H2.
Qed.

(** [trigger] is three steps of the queue. *)
Lemma trigger_runs L h p f s0 s out : inv L h p f s → run s0 s out →
  ∃ q' fetch ps wb s' out', trigger (sq s) = Ok (q', fetch, ps, wb) ∧ run s0 s' out' ∧ sq s' = q'.
Proof.
  intros Hi Hr. unfold trigger.
  destruct (good _ _ _ _ EvFetch s Hi I) as (s1 & h1 & p1 & f1 & _ & He1 & Hi1).
  pose proof (run_step _ _ _ EvFetch _ _ Hr I He1) as Hr1. cbn [exec] in He1.
  destruct (trigger_fetch (sq s)) as [[q1 o1]| |]; try done. cbn [mbind result_bind] in He1 |- *.
  assert (q1 = sq s1) as -> by (by injection He1 as <-).
  destruct (good _ _ _ _ EvProcess s1 Hi1 I) as (s2 & h2 & p2 & f2 & _ & He2 & Hi2).
  pose proof (run_step _ _ _ EvProcess _ _ Hr1 I He2) as Hr2. cbn [exec] in He2.
  destruct (trigger_process (sq s1)) as [[q2 o2]| |]; try done. cbn [mbind result_bind] in He2 |- *.
  assert (q2 = sq s2) as -> by (by injection He2 as <-).
  destruct (good _ _ _ _ EvWriteback s2 Hi2 I) as (s3 & h3 & p3 & f3 & _ & He3 & Hi3).
  pose proof (run_step _ _ _ EvWriteback _ _ Hr2 I He3) as Hr3. cbn [exec] in He3.
  destruct (trigger_writeback (sq s2)) as [[q3 o3]| |]; try done. cbn [mbind result_bind] in He3 |- *.
  eexists _, _, _, _, s3, _. split; [done|]. split; [exact Hr3|]. by injection He3 as <-.
Qed.

Lemma add_txqs_rd idx ctx ctx_addr : length ctx = 22%nat → 0 <= idx < Z.of_nat (length ctx_addr) →
  ∃ ctx_addr', add_txqs idx ctx ctx_addr = Ok ctx_addr' ∧ rd ctx_addr' idx = Some ctx.
Proof.
  intros Hl Hi. unfold add_txqs, bytes_at. rewrite (proj2 (Z.leb_le _ _)), (proj2 (Z.leb_le _ _)) by lia.
  cbn [andb of_opt mbind result_bind]. rewrite drop_0, take_ge by lia.
  pose proof (wr_in_range ctx_addr idx ctx Hi) as Hw. rewrite Hw. eexists. split; [done|].
  by rewrite (rd_wr_eq _ _ _ _ Hw).
Qed.


(** ** Concrete queues *)

Lemma rxq_ctx_roundtrip_witness :
  ∃ rlan' regs', ice_write_rxq_ctx (Some demo_rlan) 3 (replicate (Z.to_nat 16384) 0) = Ok (ICE_SUCCESS, Some rlan', regs') ∧
    rx_initialize regs' 3 demo_ring = rx_configured demo_rlan demo_ring.
Proof.
  destruct (rxq_ctx_roundtrip demo_rlan 3 (replicate (Z.to_nat 16384) 0) demo_ring) as (rlan' & regs' & Hw & Hi & _).
  - by apply bytes_ok_check.
  - done.
  - done.
  - rewrite length_replicate. lia.
  - exists rlan', regs'. split; [exact Hw|exact Hi].
Defined.

(** The driver configures 256 descriptors. *)
Definition demo_tlan : list Z := put (put (replicate 56 0) 0 (le_bytes 8 0x4500)) 36 (le_bytes 4 256).

