(* ===== verification/E810Regs.v ===== *)
(** * Register arrays

    The cases of [reg_mem_write32] and [reg_mem_read32] of e810_bm.cc that access an
    array of registers: which address goes to which element, and which function is
    to be called after a write; [E810Mem] calls it.  The cases are tried in the order of
    the source; an address that none of them takes is left to the switch behind them
    ([None]). *)
From stdpp Require Import strings gmap.
From S2P Require Import Prelude E810Base IceCtx E810Queue E810QueueSpec IceCtxSpec E810Lan.
Local Open Scope Z_scope.


Definition GLINT_DYN_CTL (i : Z) : Z := 0x00160000 + i * 4.
Definition QTX_COMM_DBELL (i : Z) : Z := 0x002C0000 + i * 4.
Definition QRX_CTRL (i : Z) : Z := 0x00120000 + i * 4.
Definition PF0INT_ITR_0 (i : Z) : Z := 0x03000004 + i * 4096.
Definition PF0INT_ITR_1 (i : Z) : Z := 0x03000008 + i * 4096.
Definition PF0INT_ITR_2 (i : Z) : Z := 0x0300000C + i * 4096.
Definition QINT_TQCTL (i : Z) : Z := 0x00140000 + i * 4.
Definition QINT_RQCTL (i : Z) : Z := 0x00150000 + i * 4.
Definition GLINT_CEQCTL (i : Z) : Z := 0x0015C000 + i * 4.
Definition GLINT_ITR (i j : Z) : Z := 0x00154000 + (i * 8192 + j * 4).
Definition QRXFLXP_CNTXT (i : Z) : Z := 0x00480000 + i * 4.
Definition GLFLXP_RXDID_FLX_WRD_0 (i : Z) : Z := 0x0045C800 + i * 4.
Definition GLFLXP_RXDID_FLX_WRD_1 (i : Z) : Z := 0x0045C900 + i * 4.
Definition GLFLXP_RXDID_FLX_WRD_2 (i : Z) : Z := 0x0045CA00 + i * 4.
Definition GLFLXP_RXDID_FLX_WRD_3 (i : Z) : Z := 0x0045CB00 + i * 4.
Definition GLPRT_BPRCL (i : Z) : Z := 0x00381380 + i * 8.
Definition GLPRT_BPTCL (i : Z) : Z := 0x00381240 + i * 8.
Definition GLPRT_CRCERRS (i : Z) : Z := 0x00380100 + i * 8.
Definition GLPRT_GORCL (i : Z) : Z := 0x00380000 + i * 8.
Definition GLPRT_GOTCL (i : Z) : Z := 0x00380B40 + i * 8.
Definition GLPRT_ILLERRC (i : Z) : Z := 0x003801C0 + i * 8.
Definition GLPRT_LXOFFRXC (i : Z) : Z := 0x003802C0 + i * 8.
Definition GLPRT_LXOFFTXC (i : Z) : Z := 0x00381180 + i * 8.
Definition GLPRT_LXONRXC (i : Z) : Z := 0x00380280 + i * 8.
Definition GLPRT_LXONTXC (i : Z) : Z := 0x00381140 + i * 8.
Definition GLPRT_MLFC (i : Z) : Z := 0x00380040 + i * 8.
Definition GLPRT_MPRCL (i : Z) : Z := 0x00381340 + i * 8.
Definition GLPRT_MPTCL (i : Z) : Z := 0x00381200 + i * 8.
Definition GLPRT_MRFC (i : Z) : Z := 0x00380080 + i * 8.
Definition GLPRT_PRC1023L (i : Z) : Z := 0x00380A00 + i * 8.
Definition GLPRT_PRC127L (i : Z) : Z := 0x00380940 + i * 8.
Definition GLPRT_PRC1522L (i : Z) : Z := 0x00380A40 + i * 8.
Definition GLPRT_PRC255L (i : Z) : Z := 0x00380980 + i * 8.
Definition GLPRT_PRC511L (i : Z) : Z := 0x003809C0 + i * 8.
Definition GLPRT_PRC64L (i : Z) : Z := 0x00380900 + i * 8.
Definition GLPRT_PRC9522L (i : Z) : Z := 0x00380A80 + i * 8.
Definition GLPRT_PTC1023L (i : Z) : Z := 0x00380C80 + i * 8.
Definition GLPRT_PTC127L (i : Z) : Z := 0x00380BC0 + i * 8.
Definition GLPRT_PTC1522L (i : Z) : Z := 0x00380CC0 + i * 8.
Definition GLPRT_PTC255L (i : Z) : Z := 0x00380C00 + i * 8.
Definition GLPRT_PTC511L (i : Z) : Z := 0x00380C40 + i * 8.
Definition GLPRT_PTC64L (i : Z) : Z := 0x00380B80 + i * 8.
Definition GLPRT_PTC9522L (i : Z) : Z := 0x00380D00 + i * 8.
Definition GLPRT_RFC (i : Z) : Z := 0x00380AC0 + i * 8.
Definition GLPRT_RJC (i : Z) : Z := 0x00380B00 + i * 8.
Definition GLPRT_RLEC (i : Z) : Z := 0x00380140 + i * 8.
Definition GLPRT_ROC (i : Z) : Z := 0x00380240 + i * 8.
Definition GLPRT_RUC (i : Z) : Z := 0x00380200 + i * 8.
Definition GLPRT_TDOLD (i : Z) : Z := 0x00381280 + i * 8.
Definition GLPRT_UPRCL (i : Z) : Z := 0x00381300 + i * 8.
Definition GLV_BPRCL (i : Z) : Z := 0x003B6000 + i * 8.
Definition GLV_BPTCL (i : Z) : Z := 0x0030E000 + i * 8.
Definition GLV_GORCL (i : Z) : Z := 0x003B0000 + i * 8.
Definition GLV_GOTCL (i : Z) : Z := 0x00300000 + i * 8.
Definition GLV_MPRCL (i : Z) : Z := 0x003B4000 + i * 8.
Definition GLV_MPTCL (i : Z) : Z := 0x0030C000 + i * 8.
Definition GLV_RDPC (i : Z) : Z := 0x00294C04 + i * 4.
Definition GLV_TEPC (i : Z) : Z := 0x00312000 + i * 4.
Definition GLV_UPRCL (i : Z) : Z := 0x003B2000 + i * 8.
Definition GLV_UPTCL (i : Z) : Z := 0x0030A000 + i * 8.
Definition QTX_COMM_HEAD (i : Z) : Z := 0x000E0000 + i * 4.
Definition GLFLXP_RXDID_FLAGS (i j : Z) : Z := 0x0045D000 + (i * 4 + j * 256).

(** ** Arrays *)

(** The arrays of [regs] and their lengths. *)
Definition reg_arrays : list (string * Z) :=
  [("pfint_dyn_ctln", 2047); ("QTX_COMM_DBELL", 1536); ("qtx_tail", 1536); ("qrx_tail", 2048);
   ("QRX_CTRL", 2048); ("qrx_ena", 2048); ("pfint_itrn0", 2048); ("pfint_itrn1", 2048); ("pfint_itrn2", 2048);
   ("qint_tqctl", 1536); ("qint_rqctl", 1536); ("glint_ceqctl", 2048); ("GLINT_ITR0", 2048);
   ("GLINT_ITR1", 2048); ("GLINT_ITR2", 2048); ("QRX_CONTEXT", 16384); ("QRXFLXP_CNTXT", 2048);
   ("flex_rxdid_0", 64); ("flex_rxdid_1", 64); ("flex_rxdid_2", 64); ("flex_rxdid_3", 64); ("GLPRT_BPRCL", 8);
   ("GLPRT_BPTCL", 8); ("GLPRT_CRCERRS", 8); ("GLPRT_GORCL", 8); ("GLPRT_GOTCL", 8); ("GLPRT_ILLERRC", 8);
   ("GLPRT_LXOFFRXC", 8); ("GLPRT_LXOFFTXC", 8); ("GLPRT_LXONRXC", 8); ("GLPRT_LXONTXC", 8); ("GLPRT_MLFC", 8);
   ("GLPRT_MPRCL", 8); ("GLPRT_MPTCL", 8); ("GLPRT_MRFC", 8); ("GLPRT_PRC1023L", 8); ("GLPRT_PRC127L", 8);
   ("GLPRT_PRC1522L", 8); ("GLPRT_PRC255L", 8); ("GLPRT_PRC511L", 8); ("GLPRT_PRC64L", 8);
   ("GLPRT_PRC9522L", 8); ("GLPRT_PTC1023L", 8); ("GLPRT_PTC127L", 8); ("GLPRT_PTC1522L", 8);
   ("GLPRT_PTC255L", 8); ("GLPRT_PTC511L", 8); ("GLPRT_PTC64L", 8); ("GLPRT_PTC9522L", 8); ("GLPRT_RFC", 8);
   ("GLPRT_RJC", 8); ("GLPRT_RLEC", 8); ("GLPRT_ROC", 8); ("GLPRT_RUC", 8); ("GLPRT_TDOLD", 8);
   ("GLPRT_UPRCL", 8); ("GLV_BPRCL", 8); ("GLV_BPTCL", 8); ("GLV_GORCL", 768); ("GLV_GOTCL", 768);
   ("GLV_MPRCL", 768); ("GLV_MPTCL", 768); ("GLV_RDPC", 768); ("GLV_TEPC", 768); ("GLV_UPRCL", 768);
   ("GLV_UPTCL", 768); ("qtx_comm_head", 1536)].

Abbreviation reg_file := (gmap string (list Z)).

(** [memset(&regs, 0, sizeof(regs))] *)
Definition clear_regs : reg_file :=
  list_to_map ((fun x => (x.1, replicate (Z.to_nat x.2) 0)) <$> reg_arrays).

Definition reg_store (a : string) (i v : Z) (regs : reg_file) : result reg_file :=
  arr ← of_opt (regs !! a);
  arr ← of_opt (wr arr i v);
  Ok (<[a := arr]> regs).

(** ** Writing *)

(** What is called with the index after a write: [lanmgr.tail_updated],
    [lanmgr.qena_updated] or [cem.qena_updated]. *)
Inductive act := ANone | ATail (rx : bool) | AQena (rx : bool) | ACeq.

Record wcase := mkWCase { w_lo : Z; w_hi : Z; w_div : Z; w_stores : list (string * (Z → Z)); w_act : act }.

Definition write_cases : list wcase :=
  [mkWCase (GLINT_DYN_CTL 0) (GLINT_DYN_CTL 2047) 4 [("pfint_dyn_ctln", id)] ANone;
   mkWCase (QTX_COMM_DBELL 0) (QTX_COMM_DBELL 2047) 4 [("QTX_COMM_DBELL", id); ("qtx_tail", id)] (ATail false);
   mkWCase (QRX_TAIL 0) (QRX_TAIL 255) 4 [("qrx_tail", (fun v => v .& 0x1FFF))] (ATail true);
   mkWCase (QRX_CTRL 0) (QRX_CTRL 2047) 4 [("QRX_CTRL", (fun v => u32 (v + 4))); ("qrx_ena", id)] (AQena true);
   mkWCase (PF0INT_ITR_0 0) (PF0INT_ITR_0 2047) 4096 [("pfint_itrn0", id)] ANone;
   mkWCase (PF0INT_ITR_1 0) (PF0INT_ITR_1 2047) 4096 [("pfint_itrn1", id)] ANone;
   mkWCase (PF0INT_ITR_2 0) (PF0INT_ITR_2 2047) 4096 [("pfint_itrn2", id)] ANone;
   mkWCase (QINT_TQCTL 0) (QINT_TQCTL 16383) 4 [("qint_tqctl", id)] (AQena false);
   mkWCase (QINT_RQCTL 0) (QINT_RQCTL 2047) 4 [("qint_rqctl", id)] ANone;
   mkWCase (GLINT_CEQCTL 0) (GLINT_CEQCTL 2017) 4 [("glint_ceqctl", id)] ACeq;
   mkWCase (GLINT_ITR 0 0) (GLINT_ITR 0 2047) 4 [("GLINT_ITR0", id)] ANone;
   mkWCase (GLINT_ITR 1 0) (GLINT_ITR 1 2047) 4 [("GLINT_ITR1", id)] ANone;
   mkWCase (GLINT_ITR 2 0) (GLINT_ITR 2 2047) 4 [("GLINT_ITR2", id)] ANone;
   mkWCase (QRX_CONTEXT 0 0) (QRX_CONTEXT 8 2048 - 1) 4 [("QRX_CONTEXT", id)] ANone;
   mkWCase (QRXFLXP_CNTXT 0) (QRXFLXP_CNTXT 2047) 4 [("QRXFLXP_CNTXT", id)] ANone;
   mkWCase (GLFLXP_RXDID_FLX_WRD_0 0) (GLFLXP_RXDID_FLX_WRD_0 63) 4 [("flex_rxdid_0", id)] ANone;
   mkWCase (GLFLXP_RXDID_FLX_WRD_1 0) (GLFLXP_RXDID_FLX_WRD_1 63) 4 [("flex_rxdid_1", id)] ANone;
   mkWCase (GLFLXP_RXDID_FLX_WRD_2 0) (GLFLXP_RXDID_FLX_WRD_2 63) 4 [("flex_rxdid_2", id)] ANone;
   mkWCase (GLFLXP_RXDID_FLX_WRD_3 0) (GLFLXP_RXDID_FLX_WRD_3 63) 4 [("flex_rxdid_3", id)] ANone;
   mkWCase (GLPRT_BPRCL 0) (GLPRT_BPRCL 7) 8 [("GLPRT_BPRCL", id)] ANone;
   mkWCase (GLPRT_BPTCL 0) (GLPRT_BPTCL 7) 8 [("GLPRT_BPTCL", id)] ANone;
   mkWCase (GLPRT_CRCERRS 0) (GLPRT_CRCERRS 7) 8 [("GLPRT_CRCERRS", id)] ANone;
   mkWCase (GLPRT_GORCL 0) (GLPRT_GORCL 7) 8 [("GLPRT_GORCL", id)] ANone;
   mkWCase (GLPRT_GOTCL 0) (GLPRT_GOTCL 7) 8 [("GLPRT_GOTCL", id)] ANone;
   mkWCase (GLPRT_ILLERRC 0) (GLPRT_ILLERRC 7) 8 [("GLPRT_ILLERRC", id)] ANone;
   mkWCase (GLPRT_LXOFFRXC 0) (GLPRT_LXOFFRXC 7) 8 [("GLPRT_LXOFFRXC", id)] ANone;
   mkWCase (GLPRT_LXOFFTXC 0) (GLPRT_LXOFFTXC 7) 8 [("GLPRT_LXOFFTXC", id)] ANone;
   mkWCase (GLPRT_LXONRXC 0) (GLPRT_LXONRXC 7) 8 [("GLPRT_LXONRXC", id)] ANone;
   mkWCase (GLPRT_LXONTXC 0) (GLPRT_LXONTXC 7) 8 [("GLPRT_LXONTXC", id)] ANone;
   mkWCase (GLPRT_MLFC 0) (GLPRT_MLFC 7) 8 [("GLPRT_MLFC", id)] ANone;
   mkWCase (GLPRT_MPRCL 0) (GLPRT_MPRCL 7) 8 [("GLPRT_MPRCL", id)] ANone;
   mkWCase (GLPRT_MPTCL 0) (GLPRT_MPTCL 7) 8 [("GLPRT_MPTCL", id)] ANone;
   mkWCase (GLPRT_MRFC 0) (GLPRT_MRFC 7) 8 [("GLPRT_MRFC", id)] ANone;
   mkWCase (GLPRT_PRC1023L 0) (GLPRT_PRC1023L 7) 8 [("GLPRT_PRC1023L", id)] ANone;
   mkWCase (GLPRT_PRC127L 0) (GLPRT_PRC127L 7) 8 [("GLPRT_PRC127L", id)] ANone;
   mkWCase (GLPRT_PRC1522L 0) (GLPRT_PRC1522L 7) 8 [("GLPRT_PRC1522L", id)] ANone;
   mkWCase (GLPRT_PRC255L 0) (GLPRT_PRC255L 7) 8 [("GLPRT_PRC255L", id)] ANone;
   mkWCase (GLPRT_PRC511L 0) (GLPRT_PRC511L 7) 8 [("GLPRT_PRC511L", id)] ANone;
   mkWCase (GLPRT_PRC64L 0) (GLPRT_PRC64L 7) 8 [("GLPRT_PRC64L", id)] ANone;
   mkWCase (GLPRT_PRC9522L 0) (GLPRT_PRC9522L 7) 8 [("GLPRT_PRC9522L", id)] ANone;
   mkWCase (GLPRT_PTC1023L 0) (GLPRT_PTC1023L 7) 8 [("GLPRT_PTC1023L", id)] ANone;
   mkWCase (GLPRT_PTC127L 0) (GLPRT_PTC127L 7) 8 [("GLPRT_PTC127L", id)] ANone;
   mkWCase (GLPRT_PTC1522L 0) (GLPRT_PTC1522L 7) 8 [("GLPRT_PTC1522L", id)] ANone;
   mkWCase (GLPRT_PTC255L 0) (GLPRT_PTC255L 7) 8 [("GLPRT_PTC255L", id)] ANone;
   mkWCase (GLPRT_PTC511L 0) (GLPRT_PTC511L 7) 8 [("GLPRT_PTC511L", id)] ANone;
   mkWCase (GLPRT_PTC64L 0) (GLPRT_PTC64L 7) 8 [("GLPRT_PTC64L", id)] ANone;
   mkWCase (GLPRT_PTC9522L 0) (GLPRT_PTC9522L 7) 8 [("GLPRT_PTC9522L", id)] ANone;
   mkWCase (GLPRT_RFC 0) (GLPRT_RFC 7) 8 [("GLPRT_RFC", id)] ANone;
   mkWCase (GLPRT_RJC 0) (GLPRT_RJC 7) 8 [("GLPRT_RJC", id)] ANone;
   mkWCase (GLPRT_RLEC 0) (GLPRT_RLEC 7) 8 [("GLPRT_RLEC", id)] ANone;
   mkWCase (GLPRT_ROC 0) (GLPRT_ROC 7) 8 [("GLPRT_ROC", id)] ANone;
   mkWCase (GLPRT_RUC 0) (GLPRT_RUC 7) 8 [("GLPRT_RUC", id)] ANone;
   mkWCase (GLPRT_TDOLD 0) (GLPRT_TDOLD 7) 8 [("GLPRT_TDOLD", id)] ANone;
   mkWCase (GLPRT_UPRCL 0) (GLPRT_UPRCL 7) 8 [("GLPRT_UPRCL", id)] ANone;
   mkWCase (GLPRT_UPRCL 0) (GLPRT_UPRCL 7) 8 [("GLPRT_UPRCL", id)] ANone;
   mkWCase (GLV_BPRCL 0) (GLV_BPRCL 7) 8 [("GLV_BPRCL", id)] ANone;
   mkWCase (GLV_BPTCL 0) (GLV_BPTCL 7) 8 [("GLV_BPTCL", id)] ANone;
   mkWCase (GLV_GORCL 0) (GLV_GORCL 7) 8 [("GLV_GORCL", id)] ANone;
   mkWCase (GLV_GOTCL 0) (GLV_GOTCL 7) 8 [("GLV_GOTCL", id)] ANone;
   mkWCase (GLV_MPRCL 0) (GLV_MPRCL 7) 8 [("GLV_MPRCL", id)] ANone;
   mkWCase (GLV_MPTCL 0) (GLV_MPTCL 7) 8 [("GLV_MPTCL", id)] ANone;
   mkWCase (GLV_RDPC 0) (GLV_RDPC 7) 4 [("GLV_RDPC", id)] ANone;
   mkWCase (GLV_TEPC 0) (GLV_TEPC 7) 4 [("GLV_TEPC", id)] ANone;
   mkWCase (GLV_UPRCL 0) (GLV_UPRCL 7) 8 [("GLV_UPRCL", id)] ANone;
   mkWCase (GLV_UPTCL 0) (GLV_UPTCL 7) 8 [("GLV_UPTCL", id)] ANone].

Definition in_wcase (addr : Z) (c : wcase) : bool := (w_lo c <=? addr) && (addr <=? w_hi c).

Fixpoint do_stores (l : list (string * (Z → Z))) (idx val : Z) (regs : reg_file) : result reg_file :=
  match l with
  | [] => Ok regs
  | (a, f) :: l => regs ← reg_store a idx (f val) regs; do_stores l idx val regs
  end.

Definition reg_array_write (addr val : Z) (regs : reg_file) : result (option (reg_file * act * Z)) :=
  match List.find (in_wcase addr) write_cases with
  | None => Ok None
  | Some c =>
      let idx := (addr - w_lo c) / w_div c in
      regs ← do_stores (w_stores c) idx val regs;
      Ok (Some (regs, w_act c, idx))
  end.

(** ** Reading *)

(** One case stores the zero that it returns. *)
Inductive rkind := RArray (a : string) | RConst (v : Z) | RClear (a : string).

Record rcase := mkRCase { r_lo : Z; r_hi : Z; r_div : Z; r_kind : rkind }.

Definition read_cases : list rcase :=
  [mkRCase (GLINT_DYN_CTL 0) (GLINT_DYN_CTL 2047 - 1) 4 (RArray "pfint_dyn_ctln");
   mkRCase (QTX_COMM_HEAD 0) (QTX_COMM_HEAD 16383) 4 (RArray "qtx_comm_head");
   mkRCase (PF0INT_ITR_0 0) (PF0INT_ITR_0 2047) 4096 (RArray "pfint_itrn0");
   mkRCase (PF0INT_ITR_1 0) (PF0INT_ITR_1 2047) 4096 (RArray "pfint_itrn1");
   mkRCase (PF0INT_ITR_2 0) (PF0INT_ITR_2 2047) 4096 (RArray "pfint_itrn2");
   mkRCase (QINT_TQCTL 0) (QINT_TQCTL 2047) 4 (RArray "qint_tqctl");
   mkRCase (QINT_RQCTL 0) (QINT_RQCTL 2047) 4 (RArray "qint_rqctl");
   mkRCase (GLINT_CEQCTL 0) (GLINT_CEQCTL 2048) 1 (RArray "glint_ceqctl");
   mkRCase (QRX_CTRL 0) (QRX_CTRL 2047) 4 (RArray "QRX_CTRL");
   mkRCase (QRX_TAIL 0) (QRX_TAIL 2047) 4 (RArray "qrx_tail");
   mkRCase (GLINT_ITR 0 0) (GLINT_ITR 0 2047) 4 (RArray "GLINT_ITR0");
   mkRCase (GLINT_ITR 1 0) (GLINT_ITR 1 2047) 4 (RArray "GLINT_ITR1");
   mkRCase (GLINT_ITR 2 0) (GLINT_ITR 2 2047) 4 (RArray "GLINT_ITR2");
   mkRCase (QRX_CONTEXT 0 0) (QRX_CONTEXT 0 0) 4 (RArray "QRX_CONTEXT");
   mkRCase (QRXFLXP_CNTXT 0) (QRXFLXP_CNTXT 2047) 4 (RArray "QRXFLXP_CNTXT");
   mkRCase (GLFLXP_RXDID_FLX_WRD_0 0) (GLFLXP_RXDID_FLX_WRD_0 63) 4 (RClear "flex_rxdid_0");
   mkRCase (GLFLXP_RXDID_FLX_WRD_1 0) (GLFLXP_RXDID_FLX_WRD_1 63) 4 (RArray "flex_rxdid_1");
   mkRCase (GLFLXP_RXDID_FLX_WRD_2 0) (GLFLXP_RXDID_FLX_WRD_2 63) 4 (RArray "flex_rxdid_2");
   mkRCase (GLFLXP_RXDID_FLX_WRD_3 0) (GLFLXP_RXDID_FLX_WRD_3 63) 4 (RArray "flex_rxdid_3");
   mkRCase (GLFLXP_RXDID_FLAGS 0 0) (GLFLXP_RXDID_FLAGS 63 4) 1 (RConst 0x16);
   mkRCase (GLPRT_BPRCL 0) (GLPRT_BPRCL 7) 8 (RArray "GLPRT_BPRCL");
   mkRCase (GLPRT_BPTCL 0) (GLPRT_BPTCL 7) 8 (RArray "GLPRT_BPTCL");
   mkRCase (GLPRT_CRCERRS 0) (GLPRT_CRCERRS 7) 8 (RArray "GLPRT_CRCERRS");
   mkRCase (GLPRT_GORCL 0) (GLPRT_GORCL 7) 8 (RArray "GLPRT_GORCL");
   mkRCase (GLPRT_GOTCL 0) (GLPRT_GOTCL 7) 8 (RArray "GLPRT_GOTCL");
   mkRCase (GLPRT_ILLERRC 0) (GLPRT_ILLERRC 7) 8 (RArray "GLPRT_ILLERRC");
   mkRCase (GLPRT_LXOFFRXC 0) (GLPRT_LXOFFRXC 7) 8 (RArray "GLPRT_LXOFFRXC");
   mkRCase (GLPRT_LXOFFTXC 0) (GLPRT_LXOFFTXC 7) 8 (RArray "GLPRT_LXOFFTXC");
   mkRCase (GLPRT_LXONRXC 0) (GLPRT_LXONRXC 7) 8 (RArray "GLPRT_LXONRXC");
   mkRCase (GLPRT_LXONTXC 0) (GLPRT_LXONTXC 7) 8 (RArray "GLPRT_LXONTXC");
   mkRCase (GLPRT_MLFC 0) (GLPRT_MLFC 7) 8 (RArray "GLPRT_MLFC");
   mkRCase (GLPRT_MPRCL 0) (GLPRT_MPRCL 7) 8 (RArray "GLPRT_MPRCL");
   mkRCase (GLPRT_MPTCL 0) (GLPRT_MPTCL 7) 8 (RArray "GLPRT_MPTCL");
   mkRCase (GLPRT_MRFC 0) (GLPRT_MRFC 7) 8 (RArray "GLPRT_MRFC");
   mkRCase (GLPRT_PRC1023L 0) (GLPRT_PRC1023L 7) 8 (RArray "GLPRT_PRC1023L");
   mkRCase (GLPRT_PRC127L 0) (GLPRT_PRC127L 7) 8 (RArray "GLPRT_PRC127L");
   mkRCase (GLPRT_PRC1522L 0) (GLPRT_PRC1522L 7) 8 (RArray "GLPRT_PRC1522L");
   mkRCase (GLPRT_PRC255L 0) (GLPRT_PRC255L 7) 8 (RArray "GLPRT_PRC255L");
   mkRCase (GLPRT_PRC511L 0) (GLPRT_PRC511L 7) 8 (RArray "GLPRT_PRC511L");
   mkRCase (GLPRT_PRC64L 0) (GLPRT_PRC64L 7) 8 (RArray "GLPRT_PRC64L");
   mkRCase (GLPRT_PRC9522L 0) (GLPRT_PRC9522L 7) 8 (RArray "GLPRT_PRC9522L");
   mkRCase (GLPRT_PTC1023L 0) (GLPRT_PTC1023L 7) 8 (RArray "GLPRT_PTC1023L");
   mkRCase (GLPRT_PTC127L 0) (GLPRT_PTC127L 7) 8 (RArray "GLPRT_PTC127L");
   mkRCase (GLPRT_PTC1522L 0) (GLPRT_PTC1522L 7) 8 (RArray "GLPRT_PTC1522L");
   mkRCase (GLPRT_PTC255L 0) (GLPRT_PTC255L 7) 8 (RArray "GLPRT_PTC255L");
   mkRCase (GLPRT_PTC511L 0) (GLPRT_PTC511L 7) 8 (RArray "GLPRT_PTC511L");
   mkRCase (GLPRT_PTC64L 0) (GLPRT_PTC64L 7) 8 (RArray "GLPRT_PTC64L");
   mkRCase (GLPRT_PTC9522L 0) (GLPRT_PTC9522L 7) 8 (RArray "GLPRT_PTC9522L");
   mkRCase (GLPRT_RFC 0) (GLPRT_RFC 7) 8 (RArray "GLPRT_RFC");
   mkRCase (GLPRT_RJC 0) (GLPRT_RJC 7) 8 (RArray "GLPRT_RJC");
   mkRCase (GLPRT_RLEC 0) (GLPRT_RLEC 7) 8 (RArray "GLPRT_RLEC");
   mkRCase (GLPRT_ROC 0) (GLPRT_ROC 7) 8 (RArray "GLPRT_ROC");
   mkRCase (GLPRT_RUC 0) (GLPRT_RUC 7) 8 (RArray "GLPRT_RUC");
   mkRCase (GLPRT_TDOLD 0) (GLPRT_TDOLD 7) 8 (RArray "GLPRT_TDOLD");
   mkRCase (GLPRT_UPRCL 0) (GLPRT_UPRCL 7) 8 (RArray "GLPRT_UPRCL");
   mkRCase (GLPRT_UPRCL 0) (GLPRT_UPRCL 7) 8 (RArray "GLPRT_UPRCL");
   mkRCase (GLV_BPRCL 0) (GLV_BPRCL 768) 8 (RArray "GLV_BPRCL");
   mkRCase (GLV_BPTCL 0) (GLV_BPTCL 768) 8 (RArray "GLV_BPTCL");
   mkRCase (GLV_GORCL 0) (GLV_GORCL 768) 8 (RArray "GLV_GORCL");
   mkRCase (GLV_GOTCL 0) (GLV_GOTCL 768) 8 (RArray "GLV_GOTCL");
   mkRCase (GLV_MPRCL 0) (GLV_MPRCL 768) 8 (RArray "GLV_MPRCL");
   mkRCase (GLV_MPTCL 0) (GLV_MPTCL 768) 8 (RArray "GLV_MPTCL");
   mkRCase (GLV_RDPC 0) (GLV_RDPC 768) 4 (RArray "GLV_RDPC");
   mkRCase (GLV_TEPC 0) (GLV_TEPC 768) 4 (RArray "GLV_TEPC");
   mkRCase (GLV_UPRCL 0) (GLV_UPRCL 768) 8 (RArray "GLV_UPRCL");
   mkRCase (GLV_UPTCL 0) (GLV_UPTCL 768) 8 (RArray "GLV_UPTCL")].

Definition in_rcase (addr : Z) (c : rcase) : bool := (r_lo c <=? addr) && (addr <=? r_hi c).

Definition reg_array_read (addr : Z) (regs : reg_file) : result (option (Z * reg_file)) :=
  match List.find (in_rcase addr) read_cases with
  | None => Ok None
  | Some c =>
      let idx := (addr - r_lo c) / r_div c in
      match r_kind c with
      | RArray a =>
          arr ← of_opt (regs !! a);
          v ← of_opt (rd arr idx);
          Ok (Some (v, regs))
      | RConst v => Ok (Some (v, regs))
      | RClear a => regs ← reg_store a idx 0 regs; Ok (Some (0, regs))
      end
  end.
