(* ===== verification/E810RegsSpec.v ===== *)
(** * Register arrays: bounds

    Which accesses of a guest leave the arrays of registers. *)
From stdpp Require Import strings gmap.
From S2P Require Import Prelude E810Base IceCtx E810Lan E810Regs.
Local Open Scope Z_scope.

(** ** First matching range

    A case takes the addresses from [lo] to [hi] and leaves its arrays from [bad]
    on.  The two checks below compare the bad addresses of a list of cases with a
    list of intervals. *)
Section ranges.
Context {C : Type} (lo hi bad : C → Z).

Definition takes (addr : Z) (c : C) : bool := (lo c <=? addr) && (addr <=? hi c).

Definition leaves (cases : list C) (addr : Z) : bool :=
  match List.find (takes addr) cases with Some c => bad c <=? addr | None => false end.

Definition within (ivs : list (Z * Z)) (addr : Z) : Prop := ∃ iv, iv ∈ ivs ∧ iv.1 <= addr <= iv.2.

(** Every bad address of a case lies in an interval or belongs to an earlier case. *)
Fixpoint covered (ivs : list (Z * Z)) (prior cases : list C) : bool :=
  match cases with
  | [] => true
  | c :: cases =>
      ((hi c <? bad c) ||
       existsb (fun iv => (hi c <=? iv.2) &&
         ((iv.1 <=? bad c) || existsb (fun p => (lo p <=? bad c) && (iv.1 <=? hi p + 1)) prior)) ivs) &&
      covered ivs (c :: prior) cases
  end.

Lemma covered_sound ivs prior cases addr : covered ivs prior cases = true →
  (∀ p, p ∈ prior → takes addr p = false) → leaves cases addr = true → within ivs addr.
Proof.
  revert prior. induction cases as [|c cases IH]; intros prior Hc Hp Hl; [done|].
  cbn [covered] in Hc. apply andb_true_iff in Hc as [Hc Hcs]. unfold leaves in Hl. cbn [List.find] in Hl.
  destruct (takes addr c) eqn:Et.
  2: { apply (IH (c :: prior)); [done| |done]. intros p [->|Hin]%elem_of_cons; [done|by apply Hp]. }
  unfold takes in Et. apply andb_true_iff in Et as [H1%Z.leb_le H2%Z.leb_le]. apply Z.leb_le in Hl.
  apply orb_true_iff in Hc as [Hc%Z.ltb_lt|Hc]; [lia|].
  apply List.existsb_exists in Hc as (iv & Hin & [H3%Z.leb_le H4]%andb_true_iff).
  exists iv. split; [by apply list_elem_of_In|]. split; [|lia].
  apply orb_true_iff in H4 as [H4%Z.leb_le|H4]; [lia|].
  apply List.existsb_exists in H4 as (p & Hpin & [H5%Z.leb_le H6%Z.leb_le]%andb_true_iff).
  apply list_elem_of_In in Hpin. specialize (Hp p Hpin). unfold takes in Hp.
  apply andb_false_iff in Hp as [Hp%Z.leb_gt|Hp%Z.leb_gt]; lia.
Qed.

(** Every address of an interval is a bad one of the first case that meets the
    interval. *)
Fixpoint hits (iv : Z * Z) (cases : list C) : bool :=
  match cases with
  | [] => false
  | c :: cases =>
      if (lo c <=? iv.1) && (iv.2 <=? hi c) then bad c <=? iv.1
      else ((iv.2 <? lo c) || (hi c <? iv.1)) && hits iv cases
  end.

Lemma hits_sound iv cases addr : hits iv cases = true → iv.1 <= addr <= iv.2 → leaves cases addr = true.
Proof.
  intros Hh Ha. induction cases as [|c cases IH]; [done|]. cbn [hits] in Hh. unfold leaves. cbn [List.find].
  destruct ((lo c <=? iv.1) && (iv.2 <=? hi c)) eqn:E.
  - apply andb_true_iff in E as [H1%Z.leb_le H2%Z.leb_le]. apply Z.leb_le in Hh. unfold takes.
    rewrite (proj2 (Z.leb_le _ _)), (proj2 (Z.leb_le _ _)) by lia. apply Z.leb_le. lia.
  - apply andb_true_iff in Hh as [Hd Hh]. assert (takes addr c = false) as ->; [|by apply IH].
    unfold takes. apply orb_true_iff in Hd as [Hd%Z.ltb_lt|Hd%Z.ltb_lt]; apply andb_false_iff;
      rewrite !Z.leb_gt; lia.
Qed.

Lemma leaves_within ivs cases addr : covered ivs [] cases = true → forallb (fun iv => hits iv cases) ivs = true →
  leaves cases addr = true ↔ within ivs addr.
Proof.
  intros Hc Hh. split.
  - apply (covered_sound ivs []); [done|]. by intros p ?%not_elem_of_nil.
  - intros (iv & Hin & Ha). rewrite List.forallb_forall in Hh. apply list_elem_of_In in Hin.
    by apply (hits_sound iv); [apply Hh|].
Qed.
End ranges.

Lemma leaves_spans {C} (lo hi bad : C → Z) cases addr : leaves lo hi bad cases addr =
  leaves (fun x => x.1.1) (fun x => x.1.2) snd ((fun c => (lo c, hi c, bad c)) <$> cases) addr.
Proof.
  unfold leaves. induction cases as [|c cases IH]; [done|]. cbn [List.find fmap list_fmap].
  unfold takes in *. cbn [fst snd]. by destruct ((lo c <=? addr) && (addr <=? hi c)).
Qed.

(** ** Arrays *)

Definition size_of_array (a : string) : Z :=
  match List.find (fun x => bool_decide (x.1 = a)) reg_arrays with Some x => x.2 | None => 0 end.

(** Every array is there with its length. *)
Definition regs_ok (regs : reg_file) : Prop :=
  ∀ a n, (a, n) ∈ reg_arrays → ∃ arr, regs !! a = Some arr ∧ Z.of_nat (length arr) = n.

Lemma array_known a : 0 < size_of_array a → (a, size_of_array a) ∈ reg_arrays.
Proof.
  unfold size_of_array. destruct (List.find _ reg_arrays) as [[b n]|] eqn:E; cbn; [|lia]. intros _.
  apply List.find_some in E as [Hin Hb%bool_decide_eq_true]. cbn in Hb. subst b. by apply list_elem_of_In.
Qed.

Lemma arrays_unique : NoDup (reg_arrays.*1).
Proof. apply (bool_decide_unpack _). by vm_compute. Qed.

Lemma array_size a n n' : (a, n) ∈ reg_arrays → (a, n') ∈ reg_arrays → n = n'.
Proof.
  intros H1 H2. apply list_elem_of_lookup in H1 as [i H1]. apply list_elem_of_lookup in H2 as [j H2].
  assert (i = j) as ->; [|congruence].
  eapply NoDup_lookup; [apply arrays_unique|rewrite list_lookup_fmap, H1; done|by rewrite list_lookup_fmap, H2].
Qed.

Lemma reg_store_spec a i v regs : regs_ok regs → 0 < size_of_array a → 0 <= i →
  if i <? size_of_array a then ∃ regs', reg_store a i v regs = Ok regs' ∧ regs_ok regs' else reg_store a i v regs = Undef.
Proof.
  intros Hok Ha Hi. apply array_known in Ha. destruct (Hok _ _ Ha) as (arr & Har & Hlen). unfold reg_store.
  rewrite Har. cbn [of_opt mbind result_bind]. unfold wr. rewrite (proj2 (Z.leb_le 0 i)) by done. cbn [andb]. rewrite Hlen.
  destruct (Z.ltb_spec i (size_of_array a)); [|done]. cbn [of_opt mbind result_bind]. eexists. split; [done|].
  intros b n Hb. destruct (decide (a = b)) as [<-|Hne].
  - rewrite lookup_insert_eq. eexists. split; [done|]. rewrite length_insert, Hlen. by eapply array_size.
  - rewrite lookup_insert_ne by done. by apply Hok.
Qed.

(** The index of an address. *)
Lemma index_range addr l h d : 0 <= l → l <= addr → addr <= h → h < 2 ^ 64 → 0 < d → 0 <= (addr - l) / d < 2 ^ 64.
Proof. intros. split; [apply Z.div_pos; lia|]. apply Z.div_lt_upper_bound; nia. Qed.

Lemma index_bad addr l d n : 0 < d → (l + n * d <=? addr) = negb ((addr - l) / d <? n).
Proof.
  intros Hd. pose proof (Z.mod_pos_bound (addr - l) d Hd). pose proof (Z.div_mod (addr - l) d ltac:(lia)).
  set (i := (addr - l) / d) in *. destruct (Z.ltb_spec i n); cbn [negb]; [apply Z.leb_gt|apply Z.leb_le]; nia.
Qed.

(** ** Writes *)

(** The queue that is called exists. *)
Definition act_ok (a : act) (idx : Z) : bool := match a with ANone => true | _ => idx <? NUM_QUEUES end.

(** The number of elements that a case can reach in all its arrays and queues. *)
Definition w_limit (c : wcase) : Z :=
  foldr (fun s m => Z.min (size_of_array s.1) m)
    match w_act c with ANone => 2 ^ 64 | _ => NUM_QUEUES end (w_stores c).
Definition w_bad (c : wcase) : Z := w_lo c + w_limit c * w_div c.

Lemma do_stores_spec l idx val regs : regs_ok regs → 0 <= idx → Forall (fun s => 0 < size_of_array s.1) l →
  if forallb (fun s => idx <? size_of_array s.1) l
  then ∃ regs', do_stores l idx val regs = Ok regs' ∧ regs_ok regs' else do_stores l idx val regs = Undef.
Proof.
  intros Hok Hi Hl. revert regs Hok. induction Hl as [|[a f] l Ha Hl IH]; intros regs Hok; cbn [forallb do_stores].
  { by exists regs. }
  pose proof (reg_store_spec a idx (f val) regs Hok Ha Hi) as Hs. cbn [fst] in *.
  destruct (idx <? size_of_array a); cbn [andb].
  - destruct Hs as (regs1 & -> & Hok1). by apply IH.
  - by rewrite Hs.
Qed.

Lemma limit_spec c idx : 0 <= idx < 2 ^ 64 →
  (idx <? w_limit c) = forallb (fun s => idx <? size_of_array s.1) (w_stores c) && act_ok (w_act c) idx.
Proof.
  intros Hi. unfold w_limit. induction (w_stores c) as [|s l IH]; cbn [foldr forallb].
  - destruct (w_act c); cbn [act_ok andb]; try done. apply Z.ltb_lt. lia.
  - rewrite <- andb_assoc, <- IH. set (m := foldr _ _ l).
    destruct (Z.ltb_spec idx (size_of_array s.1)), (Z.ltb_spec idx m), (Z.ltb_spec idx (Z.min (size_of_array s.1) m)); done || lia.
Qed.

(** The well-formedness of the table of cases. *)
Definition wcase_ok (c : wcase) : bool :=
  (0 <? w_div c) && (0 <=? w_lo c) && (w_hi c <? 2 ^ 64) && forallb (fun s => 0 <? size_of_array s.1) (w_stores c) &&
  match w_act c with ANone => true | _ => w_hi c <? w_lo c + 2 ^ 16 * w_div c end.

Lemma write_cases_ok : forallb wcase_ok write_cases = true.
Proof. by vm_compute. Qed.

(** The case of an address: the arrays are left exactly if one of them is too short; the
    index of a function that is called has 16 bits. *)
Lemma write_leaves addr val regs : regs_ok regs →
  match List.find (in_wcase addr) write_cases with
  | None => leaves w_lo w_hi w_bad write_cases addr = false ∧ reg_array_write addr val regs = Ok None
  | Some c => let idx := (addr - w_lo c) / w_div c in
      0 <= idx ∧ (w_act c ≠ ANone → in_width 16 idx) ∧
      leaves w_lo w_hi w_bad write_cases addr = negb (forallb (fun s => idx <? size_of_array s.1) (w_stores c) && act_ok (w_act c) idx) ∧
      if forallb (fun s => idx <? size_of_array s.1) (w_stores c)
      then ∃ regs', do_stores (w_stores c) idx val regs = Ok regs' ∧ reg_array_write addr val regs = Ok (Some (regs', w_act c, idx)) ∧ regs_ok regs'
      else reg_array_write addr val regs = Undef
  end.
Proof.
  intros Hok. unfold leaves, reg_array_write. change (takes w_lo w_hi addr) with (in_wcase addr).
  destruct (List.find (in_wcase addr) write_cases) as [c|] eqn:E; [|done].
  apply List.find_some in E as [Hin [H1%Z.leb_le H2%Z.leb_le]%andb_true_iff].
  pose proof (proj1 (List.forallb_forall _ _) write_cases_ok c Hin) as Hc. unfold wcase_ok in Hc.
  rewrite !andb_true_iff, !Z.ltb_lt, Z.leb_le in Hc. destruct Hc as [[[[Hd H0] Hhi] Hst] Hact].
  pose proof (index_range addr (w_lo c) (w_hi c) (w_div c) H0 H1 H2 Hhi Hd) as Hidx.
  unfold w_bad. rewrite index_bad by done. set (idx := (addr - w_lo c) / w_div c) in *. cbv zeta.
  pose proof (do_stores_spec (w_stores c) idx val regs Hok (proj1 Hidx)) as Hs. rewrite limit_spec by done.
  split; [lia|]. split.
  { intros Ha. assert (w_hi c < w_lo c + 2 ^ 16 * w_div c) as Hb by (destruct (w_act c); [done|by apply Z.ltb_lt..]).
    split; [lia|]. apply Z.div_lt_upper_bound; lia. }
  split; [done|]. rewrite List.forallb_forall in Hst.
  assert (Forall (fun s => 0 < size_of_array s.1) (w_stores c)) as Hf
    by (apply list.Forall_forall; intros s Hsin; apply Z.ltb_lt, Hst; by apply list_elem_of_In).
  specialize (Hs Hf). destruct (forallb _ (w_stores c)); [|by rewrite Hs].
  destruct Hs as (regs' & -> & Hok'). cbn [mbind result_bind]. by exists regs'.
Qed.

(** The addresses behind the arrays or without a queue. *)
Definition bad_writes : list (Z * Z) :=
  [(GLINT_DYN_CTL 2047, GLINT_DYN_CTL 2047); (QTX_COMM_DBELL 1536, QTX_COMM_DBELL 2047);
   (QRX_CTRL 1536, QRX_CTRL 2047); (QINT_TQCTL 1536, QINT_TQCTL 16383); (QINT_RQCTL 1536, QINT_RQCTL 2047);
   (GLINT_CEQCTL 1536, GLINT_CEQCTL 2017); (QRX_TAIL 255 + 1, QRX_TAIL 2048 - 1)].

(** ** Reads *)

Definition r_limit (c : rcase) : Z :=
  match r_kind c with RArray a | RClear a => size_of_array a | RConst _ => 2 ^ 64 end.
Definition r_bad (c : rcase) : Z := r_lo c + r_limit c * r_div c.

Definition rcase_ok (c : rcase) : bool :=
  (0 <? r_div c) && (0 <=? r_lo c) && (r_hi c <? 2 ^ 64) && (0 <? r_limit c).

Lemma read_cases_ok : forallb rcase_ok read_cases = true.
Proof. by vm_compute. Qed.

Lemma reg_read_spec c idx regs : regs_ok regs → 0 < r_limit c → 0 <= idx < 2 ^ 64 →
  let res := match r_kind c with
    | RArray a => arr ← of_opt (regs !! a); v ← of_opt (rd arr idx); Ok (Some (v, regs))
    | RConst v => Ok (Some (v, regs))
    | RClear a => regs ← reg_store a idx 0 regs; Ok (Some (0, regs)) end in
  if idx <? r_limit c then ∃ v regs', res = Ok (Some (v, regs')) ∧ regs_ok regs' else res = Undef.
Proof.
  intros Hok Hl Hi. unfold r_limit in *. destruct (r_kind c) as [a|v|a]; cbn zeta.
  - apply array_known in Hl. destruct (Hok _ _ Hl) as (arr & -> & Hlen). cbn [of_opt mbind result_bind]. rewrite <- Hlen.
    destruct (Z.ltb_spec idx (Z.of_nat (length arr))) as [Hlt|Hge].
    + destruct (rd_in_range arr idx) as [v ->]; [lia|]. by exists v, regs.
    + unfold rd. rewrite (proj2 (Z.leb_le 0 idx)) by lia. by rewrite lookup_ge_None_2 by lia.
  - rewrite (proj2 (Z.ltb_lt _ _)) by lia. by exists v, regs.
  - pose proof (reg_store_spec a idx 0 regs Hok Hl (proj1 Hi)) as Hs. destruct (idx <? size_of_array a).
    + destruct Hs as (regs' & -> & Hok'). by exists 0, regs'.
    + by rewrite Hs.
Qed.

Lemma read_leaves addr regs : regs_ok regs →
  if leaves r_lo r_hi r_bad read_cases addr then reg_array_read addr regs = Undef
  else reg_array_read addr regs = Ok None ∨
    ∃ v regs', reg_array_read addr regs = Ok (Some (v, regs')) ∧ regs_ok regs'.
Proof.
  intros Hok. unfold leaves, reg_array_read. change (takes r_lo r_hi addr) with (in_rcase addr).
  destruct (List.find (in_rcase addr) read_cases) as [c|] eqn:E; [|by left].
  apply List.find_some in E as [Hin [H1%Z.leb_le H2%Z.leb_le]%andb_true_iff].
  pose proof (proj1 (List.forallb_forall _ _) read_cases_ok c Hin) as Hc. unfold rcase_ok in Hc.
  rewrite !andb_true_iff, !Z.ltb_lt, Z.leb_le in Hc. destruct Hc as [[[Hd H0] Hhi] Hli].
  pose proof (index_range addr (r_lo c) (r_hi c) (r_div c) H0 H1 H2 Hhi Hd) as Hidx.
  unfold r_bad. rewrite index_bad by done.
  pose proof (reg_read_spec c _ regs Hok Hli Hidx) as Hr. cbv zeta in Hr.
  destruct (_ <? r_limit c); cbn [negb]; [|exact Hr].
  right. destruct Hr as (v & regs' & Hr & Hok'). by exists v, regs'.
Qed.

Definition bad_reads : list (Z * Z) :=
  [(QTX_COMM_HEAD 1536, QTX_COMM_HEAD 16383); (QINT_TQCTL 1536, QINT_TQCTL 2047); (QINT_RQCTL 1536, QINT_RQCTL 2047);
   (GLINT_CEQCTL 512, GLINT_CEQCTL 2048); (GLV_BPRCL 8, GLV_BPRCL 768); (GLV_BPTCL 8, GLV_BPTCL 768);
   (GLV_GORCL 768, GLV_GORCL 768); (GLV_GOTCL 768, GLV_GOTCL 768); (GLV_MPRCL 768, GLV_MPRCL 768);
   (GLV_MPTCL 768, GLV_MPTCL 768); (GLV_RDPC 768, GLV_RDPC 768); (GLV_TEPC 768, GLV_TEPC 768);
   (GLV_UPRCL 768, GLV_UPRCL 768); (GLV_UPTCL 768, GLV_UPTCL 768)].

(** The cases as numbers. *)
Definition write_spans : list (Z * Z * Z) := Eval vm_compute in (fun c => (w_lo c, w_hi c, w_bad c)) <$> write_cases.
Definition read_spans : list (Z * Z * Z) := Eval vm_compute in (fun c => (r_lo c, r_hi c, r_bad c)) <$> read_cases.

Lemma write_spans_eq : (fun c => (w_lo c, w_hi c, w_bad c)) <$> write_cases = write_spans.
Proof. by vm_compute. Qed.

Lemma read_spans_eq : (fun c => (r_lo c, r_hi c, r_bad c)) <$> read_cases = read_spans.
Proof. by vm_compute. Qed.

Lemma bad_writes_right addr : leaves w_lo w_hi w_bad write_cases addr = true ↔ within bad_writes addr.
Proof. rewrite leaves_spans, write_spans_eq. apply leaves_within; by vm_compute. Qed.

Lemma bad_reads_right addr : leaves r_lo r_hi r_bad read_cases addr = true ↔ within bad_reads addr.
Proof. rewrite leaves_spans, read_spans_eq. apply leaves_within; by vm_compute. Qed.

(** ** A guest *)

Lemma clear_regs_ok : regs_ok clear_regs.
Proof.
  intros a n Hin. exists (replicate (Z.to_nat n) 0). split.
  - apply elem_of_list_to_map_1; [|apply list_elem_of_fmap; by exists (a, n)].
    rewrite <- list_fmap_compose. apply arrays_unique.
  - rewrite length_replicate. apply list_elem_of_In in Hin.
    assert (forallb (fun x => 0 <=? x.2) reg_arrays = true) as Hf by by vm_compute.
    apply (proj1 (List.forallb_forall _ _) Hf), Z.leb_le in Hin. cbn in Hin. lia.
Qed.
