(* ===== verification/E810Rx.v ===== *)
(** * Reception

    The receive side of e810_lan.cc: [lan_queue_rx::packet_received] spreads a
    packet over posted buffers and completes their descriptors, and
    [lan::packet_received] chooses the queue; the switch of e810_switch.cc. *)
From S2P Require Import Prelude Bytes E810Base E810Rss.
Local Open Scope Z_scope.

(** ** One descriptor *)

(** A time stamp: the fields [time] and [ts_l] of [e810_timestamp_t]. *)
Record timestamp := mkTs { ts_time : Z; ts_l : Z }.

Definition ICE_RX_FLEX_DESC_STATUS0_DD_S : Z := 0.
Definition ICE_RX_FLEX_DESC_STATUS0_EOF_S : Z := 1.
Definition ICE_RX_FLEX_DESC_STATUS0_L3L4P_S : Z := 3.

(** [wb.qword1.status_error_len |= v] *)
Definition or_status (desc : list Z) (v : Z) : option (list Z) :=
  s ← load 8 desc 8; store 8 desc 8 (s .| v).

(** [rx_desc_ctx::packet_received]: the descriptor, and the address at which the
    data is written. *)
Definition rx_complete (desc data : list Z) (ts : timestamp) (last : bool) : option (list Z * Z) :=
  let pktlen := Z.of_nat (length data) in
  addr ← load 8 desc 0;
  desc ← store 2 desc 4 pktlen;
  desc ← or_status desc (1 .<< ICE_RX_FLEX_DESC_STATUS0_DD_S);
  desc ← or_status desc (u64 (pktlen .<< 38));
  desc ← (if nz (ts_l ts) then
            desc ← store 2 desc 28 (u16 (ts_time ts) .& 0xFFFF);
            desc ← store 2 desc 30 ((ts_time ts .>> 16) .& 0xFFFF);
            store 1 desc 19 (u8 (ts_l ts))
          else Some desc);
  desc ← (if last then
            desc ← or_status desc (1 .<< ICE_RX_FLEX_DESC_STATUS0_EOF_S);
            or_status desc (1 .<< ICE_RX_FLEX_DESC_STATUS0_L3L4P_S)
          else Some desc);
  Some (desc, addr).

(** ** A queue *)

(** A posted context, by its place, and its descriptor. *)
Record rx_desc_ctx := mkRxDesc { rx_pos : Z; rx_desc : list Z }.
#[export] Instance rx_desc_settable : Settable rx_desc_ctx := fun r => mkRxDesc (rx_pos r) (rx_desc r).

Record lan_queue_rx := mkRxq { rx_enabled : bool; dbuff_size : Z; dcache : list rx_desc_ctx }.
#[export] Instance rxq_settable : Settable lan_queue_rx := fun r =>
  mkRxq (rx_enabled r) (dbuff_size r) (dcache r).

Definition PTP_UDP_1 : Z := 319.
Definition PTP_UDP_2 : Z := 320.
Definition ETH_TYPE_PTP : Z := 0x88F7.

(** [ena] are the two registers [REG_GLTSYN_ENA]. *)
Definition ptp_should_sample_rx (ena : Z * Z) (data : list Z) : option bool :=
  if negb (nz (ena.1 .& 1)) || negb (nz (ena.2 .& 1)) then Some false
  else
    ty ← eth_type data;
    udp ← (if ty =? bswap16 ETH_TYPE_IP
           then proto ← ip_proto data; Some (proto =? IP_PROTO_UDP) else Some false);
    if udp : bool then
      p ← l4_dest data;
      let port := bswap16 p in Some ((port =? PTP_UDP_1) || (port =? PTP_UDP_2))
    else Some (ty =? bswap16 ETH_TYPE_PTP).

(** A completed context and the data written to memory for it. *)
Record rx_write := mkRxWrite { w_ctx : rx_desc_ctx; w_addr : Z; w_data : list Z }.

(** The loop over the parts of the packet, [i] being the next one. *)
Fixpoint rx_parts (n : nat) (i num_descs dbuff : Z) (data : list Z) (ts : timestamp)
    (cache : list rx_desc_ctx) : result (list rx_write * list rx_desc_ctx) :=
  match n with
  | O => Ok ([], cache)
  | S n' =>
      match cache with
      | [] => Undef
      | ctx :: cache =>
          let last := i =? num_descs - 1 in
          let len := if last then Z.of_nat (length data) - dbuff * i else dbuff in
          part ← of_opt (bytes_at (Z.to_nat len) data (dbuff * i));
          '(desc, addr) ← of_opt (rx_complete (rx_desc ctx) part ts last);
          '(ws, cache) ← rx_parts n' (i + 1) num_descs dbuff data ts cache;
          Ok (mkRxWrite (ctx <| rx_desc := desc |>) addr part :: ws, cache)
      end
  end.

(** [sample] is the time stamp that [phc_sample_rx] would return. *)
Definition rx_packet_received (ena : Z * Z) (sample : Z) (data : list Z) (q : lan_queue_rx)
    : result (list rx_write * lan_queue_rx) :=
  let pktlen := Z.of_nat (length data) in
  if dbuff_size q =? 0 then Undef
  else
    let num_descs := (pktlen + dbuff_size q - 1) / dbuff_size q in
    if negb (rx_enabled q) then Ok ([], q)
    else if Z.of_nat (length (dcache q)) <? num_descs then Ok ([], q)
    else
      ptp ← of_opt (ptp_should_sample_rx ena data);
      let ts := if ptp : bool then mkTs sample 1 else mkTs 0 0 in
      '(ws, cache) ← rx_parts (Z.to_nat num_descs) 0 num_descs (dbuff_size q) data ts (dcache q);
      Ok (ws, q <| dcache := cache |>).

(** ** The switch *)

(** [struct ice_aqc_sw_rules_elem] with a look-up rule. *)
Record sw_rules_elem := mkSwRule { sw_type : Z; recipe_id : Z; act : Z; hdr_len : Z; hdr : list Z }.

Definition ICE_AQC_SW_RULES_T_LKUP_RX : Z := 0.
Definition ICE_SINGLE_ACT_TO_Q : Z := 1.
Definition act_type (e : sw_rules_elem) : Z := act e .& 3.
Definition act_queue (e : sw_rules_elem) : Z := (act e .& (0x7FF .<< 4)) .>> 4.

(** Rules: the masked bytes, the recipe and the queue. *)
Record e810_switch := mkSwitch {
  mac_rules : list (Z * Z); rules : list (list Z * Z * Z); recipies : list (list Z)
}.
#[export] Instance switch_settable : Settable e810_switch := fun r =>
  mkSwitch (mac_rules r) (rules r) (recipies r).

(** Match the type of the frame only. *)
Definition recipe1 : list Z := replicate 12 0 ++ [0xFF; 0xFF] ++ replicate 42 0.

Definition new_switch : e810_switch := mkSwitch [] [] [recipe1].

(** [E810EmulatedDevice::add_switch_etype_rule]: the variable that is returned is
    not the one that gets the answer [installed] of the driver. *)
Definition add_switch_etype_rule (installed : bool) : bool :=
  let rule_installed := false in
  let policy_accepts := true in
  let _ := if policy_accepts then let rule_installed := installed in rule_installed else false in
  rule_installed.

Definition add_rule (installed : bool) (e : sw_rules_elem) (sw : e810_switch) : result (bool * e810_switch) :=
  recipe ← of_opt (rd (recipies sw) 0);
  if negb (sw_type e =? ICE_AQC_SW_RULES_T_LKUP_RX) || negb (act_type e =? ICE_SINGLE_ACT_TO_Q) ||
     negb (recipe_id e =? 0) || negb (hdr_len e =? Z.of_nat (length recipe))
  then Ok (false, sw)
  else
    bytes ← of_opt (bytes_at (length recipe) (hdr e) 0);
    let rule := zip_with Z.land recipe bytes in
    Ok (add_switch_etype_rule installed,
        sw <| rules := rules sw ++ [(rule, 0, u16 (act_queue e))] |>).

(** The inner loop of [select_queue]: the packet is read up to the first byte that
    differs. *)
Fixpoint rule_matches (recipe rule data : list Z) : result bool :=
  match recipe with
  | [] => Ok true
  | mask :: recipe' =>
      match data, rule with
      | b :: data', r :: rule' =>
          if mask .& b =? r then rule_matches recipe' rule' data' else Ok false
      | _, _ => Undef
      end
  end.

Fixpoint select_rule (rs : list (list Z * Z * Z)) (recipes : list (list Z)) (data : list Z) (queue : Z) : result Z :=
  match rs with
  | [] => Ok queue
  | (rule, recipe_idx, dst) :: rs' =>
      recipe ← of_opt (rd recipes recipe_idx);
      m ← rule_matches recipe rule data;
      if m : bool then Ok dst else select_rule rs' recipes data queue
  end.

Definition select_queue (sw : e810_switch) (data : list Z) (queue : Z) : result Z :=
  if Z.of_nat (length data) <? 14 then Ok queue
  else
    w ← of_opt (load 8 data 0);
    let dst_mac := 0xFFFFFFFFFFFF .& w in
    match List.find (fun '(mac, _) => mac =? dst_mac) (mac_rules sw) with
    | Some (_, q) => Ok q
    | None => select_rule (rules sw) (recipies sw) data queue
    end.

(** [lan::packet_received] *)
Definition lan_packet_received (vsi0_first_queue : Z) (hint : option Z) (sw : e810_switch)
    (ena : Z * Z) (sample : Z) (data : list Z) (rxqs : list lan_queue_rx)
    : result (list rx_write * list lan_queue_rx) :=
  queue ← match hint with
          | Some h => Ok (u16 (vsi0_first_queue + h))
          | None => select_queue sw data (u16 vsi0_first_queue)
          end;
  q ← of_opt (rd rxqs queue);
  if negb (rx_enabled q) then Ok ([], rxqs)
  else
    '(ws, q) ← rx_packet_received ena sample data q;
    rxqs ← of_opt (wr rxqs queue q);
    Ok (ws, rxqs).
