(* ===== verification/E810RxSpec.v ===== *)
(** * Reception: what the guest sees

    The parts of a packet and the completed descriptors, and the queue that the
    switch selects. *)
From S2P Require Import Prelude Bytes E810Base E810Rss E810Rx.
Local Open Scope Z_scope.

(** ** Descriptors *)

Definition field (n o : nat) (desc : list Z) : Z := le (take n (drop o desc)).

(** A posted descriptor: 32 bytes, no header buffer. *)
Definition posted_desc (desc : list Z) : Prop :=
  length desc = 32%nat ∧ bytes_ok desc ∧ field 8 8 desc = 0.

(** The second quad word of a completed descriptor. *)
Definition status_of (len : Z) (last : bool) : Z := 1 .| (len .<< 38) .| (if last then 10 else 0).

(** Storing [n] bytes at [o]. *)
Lemma store_field n o d v : (o + n <= length d)%nat → ∃ d', store n d (Z.of_nat o) v = Some d' ∧
  length d' = length d ∧ (bytes_ok d → bytes_ok d') ∧ field n o d' = wrap (8 * Z.of_nat n) v ∧
  ∀ m k, (k + m <= o ∨ o + n <= k)%nat → field m k d' = field m k d.
Proof.
  intros Hl. rewrite store_in by lia. rewrite Nat2Z.id. eexists. split; [done|].
  pose proof (length_le_bytes n v) as Hb. split; [apply length_put; lia|].
  split; [intros; by apply put_ok, le_bytes_ok|]. unfold field. split.
  - rewrite sub_put_eq by lia. apply le_le_bytes.
  - intros m k Hk. by rewrite sub_put_out by lia.
Qed.

Lemma or_status_field d s v : length d = 32%nat → field 8 8 d = s → in_width 64 s → in_width 64 v →
  ∃ d', or_status d v = Some d' ∧ length d' = 32%nat ∧ (bytes_ok d → bytes_ok d') ∧ field 8 8 d' = s .| v ∧
    ∀ m k, (k + m <= 8 ∨ 16 <= k)%nat → field m k d' = field m k d.
Proof.
  intros Hl Hs Hw Hv. unfold or_status. rewrite load_take by lia. cbn [mbind option_bind].
  change (le (take 8 (drop (Z.to_nat 8) d))) with (field 8 8 d). rewrite Hs.
  destruct (store_field 8 8 d (s .| v)) as (d' & Hd & Hl' & Hok & Hf & Ho); [lia|].
  exists d'. split; [exact Hd|]. split; [lia|]. split; [done|]. split; [|intros; apply Ho; lia].
  rewrite Hf. by apply wrap_small, in_width_lor.
Qed.

Lemma ts_fields d ts : length d = 32%nat →
  ∃ d', (if nz (ts_l ts) then
      desc ← store 2 d 28 (u16 (ts_time ts) .& 0xFFFF);
      desc ← store 2 desc 30 ((ts_time ts .>> 16) .& 0xFFFF);
      store 1 desc 19 (u8 (ts_l ts)) else Some d) = Some d' ∧
    length d' = 32%nat ∧ (bytes_ok d → bytes_ok d') ∧ field 2 4 d' = field 2 4 d ∧ field 8 8 d' = field 8 8 d ∧
    (nz (ts_l ts) = true → field 1 19 d' = u8 (ts_l ts) ∧ field 2 28 d' = u16 (ts_time ts) ∧
       field 2 30 d' = u16 (ts_time ts .>> 16)).
Proof.
  intros Hl. destruct (nz (ts_l ts)); [|by exists d].
  assert (∀ x, u16 (x .& 0xFFFF) = u16 x) as Hm
    by (intros; change 0xFFFF with (Z.ones 16); rewrite Z.land_ones by done; apply wrap_wrap).
  destruct (store_field 2 28 d (u16 (ts_time ts) .& 0xFFFF)) as (d1 & H1 & L1 & K1 & F1 & O1); [lia|].
  change (Z.of_nat 28) with 28 in H1. rewrite H1. cbn [mbind option_bind].
  destruct (store_field 2 30 d1 ((ts_time ts .>> 16) .& 0xFFFF)) as (d2 & H2 & L2 & K2 & F2 & O2); [lia|].
  change (Z.of_nat 30) with 30 in H2. rewrite H2. cbn [mbind option_bind].
  destruct (store_field 1 19 d2 (u8 (ts_l ts))) as (d3 & H3 & L3 & K3 & F3 & O3); [lia|].
  change (Z.of_nat 19) with 19 in H3. rewrite H3. exists d3. split; [done|]. split; [lia|]. split; [tauto|].
  split; [by rewrite O3, O2, O1 by lia|]. split; [by rewrite O3, O2, O1 by lia|]. intros _.
  change (8 * Z.of_nat 1) with 8 in F3. change (8 * Z.of_nat 2) with 16 in F1, F2.
  split; [rewrite F3; apply wrap_wrap|]. split; [rewrite O3, O2, F1 by lia|rewrite O3, F2 by lia].
  - by rewrite Hm, wrap_wrap.
  - by rewrite Hm.
Qed.

Lemma shl38_width len : 0 <= len < 2 ^ 16 → in_width 64 (len .<< 38) ∧ u64 (len .<< 38) = len .<< 38.
Proof.
  intros Hlen. assert (in_width 64 (len .<< 38)) as Hw.
  { unfold in_width. rewrite Z.shiftl_mul_pow2 by lia. lia. }
  split; [done|]. by apply wrap_small.
Qed.

Lemma rx_complete_spec desc data ts last : posted_desc desc → Z.of_nat (length data) < 2 ^ 16 →
  let len := Z.of_nat (length data) in
  ∃ desc', rx_complete desc data ts last = Some (desc', field 8 0 desc) ∧ length desc' = 32%nat ∧
    field 2 4 desc' = len ∧ field 8 8 desc' = status_of len last ∧
    (nz (ts_l ts) = true → field 1 19 desc' = u8 (ts_l ts) ∧ field 2 28 desc' = u16 (ts_time ts) ∧
       field 2 30 desc' = u16 (ts_time ts .>> 16)).
Proof.
  intros (Hl & Hok & H0) Hlen len. unfold rx_complete. fold len. rewrite load_take by lia. cbn [mbind option_bind].
  change (le (take 8 (drop (Z.to_nat 0) desc))) with (field 8 0 desc).
  destruct (shl38_width len) as [Hw38 E38]; [lia|].
  destruct (store_field 2 4 desc len) as (d1 & H1 & L1 & K1 & F1 & O1); [lia|].
  change (Z.of_nat 4) with 4 in H1. rewrite H1. cbn [mbind option_bind].
  change (8 * Z.of_nat 2) with 16 in F1. rewrite wrap_small in F1 by (unfold in_width; lia).
  destruct (or_status_field d1 0 1) as (d2 & H2 & L2 & K2 & F2 & O2); [lia|by rewrite O1 by lia|done|done|].
  change (1 .<< ICE_RX_FLEX_DESC_STATUS0_DD_S) with 1. rewrite H2. cbn [mbind option_bind]. rewrite E38.
  change (0 .| 1) with 1 in F2.
  destruct (or_status_field d2 1 (len .<< 38)) as (d3 & H3 & L3 & K3 & F3 & O3); [done|done|done|done|].
  rewrite H3. cbn [mbind option_bind].
  destruct (ts_fields d3 ts L3) as (d4 & -> & L4 & K4 & F4 & F4' & Hts). cbn [mbind option_bind].
  rewrite F3 in F4'. assert (in_width 64 (1 .| (len .<< 38))) as Hw by by apply in_width_lor.
  assert (field 2 4 d4 = len) as Flen by (rewrite F4, O3, O2 by lia; done).
  destruct last; [|exists d4; unfold status_of; rewrite Z.lor_0_r; by split_and!].
  destruct (or_status_field d4 _ 2 L4 F4' Hw ltac:(done)) as (d5 & H5 & L5 & K5 & F5 & O5).
  change (1 .<< ICE_RX_FLEX_DESC_STATUS0_EOF_S) with 2. rewrite H5. cbn [mbind option_bind].
  destruct (or_status_field d5 _ 8 L5 F5) as (d6 & H6 & L6 & K6 & F6 & O6); [by apply in_width_lor|done|].
  change (1 .<< ICE_RX_FLEX_DESC_STATUS0_L3L4P_S) with 8. rewrite H6. cbn [mbind option_bind].
  exists d6. split; [done|]. split; [done|]. split; [by rewrite O6, O5 by lia|]. split; [|intros Hn; destruct (Hts Hn) as (<- & <- & <-); by rewrite !O6, !O5 by lia].
  rewrite F6. unfold status_of. by rewrite <- Z.lor_assoc.
Qed.

(** ** Packets *)

(** The context [ctx] completed with the part [w] of a packet. *)
Record rx_done (dbuff : Z) (ts : timestamp) (last : bool) (ctx : rx_desc_ctx) (w : rx_write) : Prop := {
  done_pos : rx_pos (w_ctx w) = rx_pos ctx;
  done_addr : w_addr w = field 8 0 (rx_desc ctx);
  done_len : 0 < Z.of_nat (length (w_data w)) <= dbuff ∧ (last = false → Z.of_nat (length (w_data w)) = dbuff);
  done_pkt_len : field 2 4 (rx_desc (w_ctx w)) = Z.of_nat (length (w_data w));
  done_status : field 8 8 (rx_desc (w_ctx w)) = status_of (Z.of_nat (length (w_data w))) last;
  done_ts : nz (ts_l ts) = true → field 1 19 (rx_desc (w_ctx w)) = u8 (ts_l ts) ∧
    field 2 28 (rx_desc (w_ctx w)) = u16 (ts_time ts) ∧ field 2 30 (rx_desc (w_ctx w)) = u16 (ts_time ts .>> 16)
}.

Lemma rx_parts_spec n i num dbuff data ts cache : 0 < dbuff < 2 ^ 14 → 0 <= i → i + Z.of_nat n = num →
  dbuff * (num - 1) < Z.of_nat (length data) <= dbuff * num → (n <= length cache)%nat →
  Forall (fun ctx => posted_desc (rx_desc ctx)) cache →
  ∃ ws, rx_parts n i num dbuff data ts cache = Ok (ws, drop n cache) ∧ length ws = n ∧
    concat (w_data <$> ws) = drop (Z.to_nat (dbuff * i)) data ∧
    ∀ j w ctx, ws !! j = Some w → cache !! j = Some ctx → rx_done dbuff ts (bool_decide (S j = n)) ctx w.
Proof.
  intros Hd. revert i cache. induction n as [|n IH]; intros i cache Hi Hn Hlen Hc Hp.
  { exists []. split_and!; try done. cbn. rewrite drop_ge; [done|]. replace i with num by lia. lia. }
  destruct cache as [|ctx cache]; [simpl in Hc; lia|]. apply Forall_cons_1 in Hp as [Hp Hps].
  cbn [rx_parts drop]. set (last := i =? num - 1).
  assert (last = bool_decide (S 0 = S n)) as Elast
    by (unfold last; destruct (Z.eqb_spec i (num - 1)); case_bool_decide; done || lia).
  set (len := if last then Z.of_nat (length data) - dbuff * i else dbuff).
  assert (0 < len <= dbuff ∧ (last = false → len = dbuff) ∧ dbuff * i + len <= Z.of_nat (length data)) as (Hl1 & Hl2 & Hl3).
  { unfold len, last. destruct (Z.eqb_spec i (num - 1)) as [->|]; [split_and!; [lia|lia|done|lia]|].
    split_and!; [lia|lia|done|]. assert (dbuff * i + dbuff <= dbuff * (num - 1)) by nia. lia. }
  assert (bytes_at (Z.to_nat len) data (dbuff * i) = Some (take (Z.to_nat len) (drop (Z.to_nat (dbuff * i)) data))) as ->.
  { unfold bytes_at. rewrite (proj2 (Z.leb_le 0 _)), (proj2 (Z.leb_le _ _)) by lia. done. }
  cbn [of_opt mbind result_bind]. set (part := take (Z.to_nat len) _).
  assert (length part = Z.to_nat len) as Lp by (apply length_sub; lia).
  destruct (rx_complete_spec (rx_desc ctx) part ts last Hp) as (desc' & -> & _ & F1 & F2 & F3); [lia|].
  cbn [of_opt mbind result_bind].
  destruct (IH (i + 1) cache) as (ws & -> & Lws & Hcat & Hws); [lia|lia|done|simpl in Hc; lia|done|].
  cbn [mbind result_bind]. eexists. split; [done|]. split; [simpl; lia|]. split.
  - cbn [fmap list_fmap concat w_data]. rewrite Hcat. rewrite <- (take_drop (Z.to_nat len) (drop (Z.to_nat (dbuff * i)) data)).
    f_equal. rewrite drop_drop. destruct last eqn:El.
    + rewrite !drop_ge; [done| |]; unfold last in El; apply Z.eqb_eq in El; nia.
    + f_equal. rewrite Hl2 by done. lia.
  - intros [|j] w c Hw Hcx.
    + injection Hw as <-. injection Hcx as <-. rewrite <- Elast.
      split; cbn [w_ctx w_addr w_data rx_desc rx_pos set_field]; try done. split; [lia|]. intros E. specialize (Hl2 E). lia.
    + cbn in Hw, Hcx. specialize (Hws j w c Hw Hcx).
      replace (bool_decide (S (S j) = S n)) with (bool_decide (S j = n)); [done|].
      apply bool_decide_ext. lia.
Qed.

Lemma ceil_bounds len d : 0 < len → 0 < d → let num := (len + d - 1) / d in
  1 <= num ∧ d * (num - 1) < len <= d * num.
Proof.
  intros Hl Hd num. pose proof (Z.div_mod (len + d - 1) d ltac:(lia)). fold num in H.
  pose proof (Z.mod_pos_bound (len + d - 1) d ltac:(lia)).
  assert (1 <= num) by (apply Z.div_le_lower_bound; lia). split; [done|]. lia.
Qed.

(** C10. Reception: a packet that finds enough posted descriptors is written to
    their buffers, in order and completely, every buffer but the last one full;
    each descriptor is completed with the length of its part, only the last one
    ends the packet, and with a time stamp where one was sampled.  With too few
    descriptors the packet is dropped. *)
Theorem rx_packet_parts ena sample data q b : let len := Z.of_nat (length data) in
  let num := (len + dbuff_size q - 1) / dbuff_size q in
  rx_enabled q = true → 0 < dbuff_size q < 2 ^ 14 → 0 < len →
  Forall (fun ctx => posted_desc (rx_desc ctx)) (dcache q) → ptp_should_sample_rx ena data = Some b →
  if Z.of_nat (length (dcache q)) <? num then rx_packet_received ena sample data q = Ok ([], q)
  else ∃ ws, rx_packet_received ena sample data q = Ok (ws, q <| dcache := drop (Z.to_nat num) (dcache q) |>) ∧
    Z.of_nat (length ws) = num ∧ concat (w_data <$> ws) = data ∧
    ∀ j w ctx, ws !! j = Some w → dcache q !! j = Some ctx →
      rx_done (dbuff_size q) (if b then mkTs sample 1 else mkTs 0 0) (bool_decide (S j = length ws)) ctx w.
Proof.
  intros len num Hen Hd Hlen Hp Hb. unfold rx_packet_received. fold len num.
  rewrite (proj2 (Z.eqb_neq _ 0)), Hen by lia. cbn [negb].
  destruct (ceil_bounds len (dbuff_size q) Hlen ltac:(lia)) as [Hn1 Hn]. fold num in Hn1, Hn.
  destruct (Z.ltb_spec (Z.of_nat (length (dcache q))) num) as [|Hge]; [done|].
  rewrite Hb. cbn [of_opt mbind result_bind].
  destruct (rx_parts_spec (Z.to_nat num) 0 num (dbuff_size q) data (if b then mkTs sample 1 else mkTs 0 0) (dcache q))
    as (ws & -> & Lws & Hcat & Hws); [done|done|lia|done|lia|done|].
  cbn [mbind result_bind]. exists ws. split; [done|]. split; [lia|]. rewrite Z.mul_0_r in Hcat.
  split; [done|]. intros j w ctx Hw Hc. rewrite Lws. by apply Hws.
Qed.

(** ** The switch *)

Definition etype (bs : list Z) : list Z := take 2 (drop 12 bs).

(** A rule of the one supported form. *)
Definition simple_rule (e : sw_rules_elem) : Prop :=
  sw_type e = ICE_AQC_SW_RULES_T_LKUP_RX ∧ act_type e = ICE_SINGLE_ACT_TO_Q ∧ recipe_id e = 0 ∧
  hdr_len e = 56 ∧ length (hdr e) = 56%nat ∧ bytes_ok (hdr e).

(** The switch after adding the rules [es], in order. *)
Fixpoint add_rules (installed : bool) (es : list sw_rules_elem) (sw : e810_switch) : result (list bool * e810_switch) :=
  match es with
  | [] => Ok ([], sw)
  | e :: es' =>
      '(r, sw) ← add_rule installed e sw;
      '(rs, sw) ← add_rules installed es' sw;
      Ok (r :: rs, sw)
  end.

Definition rule_of (e : sw_rules_elem) : list Z * Z * Z := (zip_with Z.land recipe1 (hdr e), 0, u16 (act_queue e)).

Lemma add_rules_spec installed es sw : Forall simple_rule es → recipies sw = [recipe1] →
  add_rules installed es sw = Ok (replicate (length es) false, sw <| rules := rules sw ++ (rule_of <$> es) |>).
Proof.
  intros Hes. revert sw. induction Hes as [|e es (H1 & H2 & H3 & H4 & H5 & _) _ IH]; intros sw Hsw.
  { destruct sw. cbn. by rewrite app_nil_r. }
  cbn [add_rules]. unfold add_rule. rewrite Hsw. change (rd [recipe1] 0) with (Some recipe1).
  cbn [of_opt mbind result_bind]. rewrite H1, H2, H3, H4. change (length recipe1) with 56%nat.
  change (_ || _ || _ || _) with false.
  assert (bytes_at 56 (hdr e) 0 = Some (hdr e)) as ->.
  { unfold bytes_at. rewrite H5. change (_ && _) with true. change (Z.to_nat 0) with 0%nat. by rewrite drop_0, take_ge by lia. }
  cbn [of_opt mbind result_bind]. rewrite IH by done. cbn. rewrite <- app_assoc. done.
Qed.

Lemma land_ff b : byte_ok b → 0xFF .& b = b.
Proof. intros Hb. rewrite Z.land_comm. change 0xFF with (Z.ones 8). rewrite Z.land_ones by done. by apply Z.mod_small. Qed.

(** Bytes with an empty mask only have to exist. *)
Lemma zero_mask_skip n r d tl tlr : length r = n → (n <= length d)%nat →
  rule_matches (replicate n 0 ++ tl) (zip_with Z.land (replicate n 0) r ++ tlr) d = rule_matches tl tlr (drop n d).
Proof.
  revert r d. induction n as [|n IH]; intros r d Hr Hd; [by rewrite drop_0|].
  destruct r as [|x r], d as [|y d]; try (simpl in *; lia). cbn [replicate app zip_with rule_matches drop].
  rewrite !Z.land_0_l. cbn [Z.eqb]. apply IH; simpl in *; lia.
Qed.

Lemma zero_mask_end n r d : length r = n → rule_matches (replicate n 0) (zip_with Z.land (replicate n 0) r) d =
  if (Z.of_nat n <=? Z.of_nat (length d)) then Ok true else Undef.
Proof.
  revert r d. induction n as [|n IH]; intros r d Hr; [by rewrite (proj2 (Z.leb_le _ _)) by lia|].
  destruct r as [|x r]; [done|]. destruct d as [|y d]; cbn [replicate zip_with rule_matches]; [done|].
  rewrite !Z.land_0_l. cbn [Z.eqb length]. rewrite IH by (simpl in Hr; lia).
  destruct (Z.leb_spec (Z.of_nat n) (Z.of_nat (length d))), (Z.leb_spec (Z.of_nat (S n)) (Z.of_nat (S (length d)))); done || lia.
Qed.

(** The recipe compares the two bytes of the type, if the packet is long enough. *)
Lemma recipe1_matches h data : length h = 56%nat → bytes_ok h → bytes_ok data → (14 <= length data)%nat →
  rule_matches recipe1 (zip_with Z.land recipe1 h) data =
  if bool_decide (etype data = etype h)
  then if (56 <=? Z.of_nat (length data)) then Ok true else Undef
  else Ok false.
Proof.
  intros Hh Hok Hdok Hlen.
  assert (h = take 12 h ++ etype h ++ drop 14 h) as Eh
    by (unfold etype; rewrite <- (take_drop 12 h) at 1; f_equal; by rewrite <- (take_drop 2 (drop 12 h)) at 1; rewrite drop_drop).
  assert (∃ a b, etype h = [a; b] ∧ byte_ok a ∧ byte_ok b) as (a & b & Eab & Ha & Hb).
  { assert (length (etype h) = 2%nat) as L2 by (apply length_sub; lia). pose proof (bytes_ok_sub 2 12 h Hok) as K.
    fold (etype h) in K. destruct (etype h) as [|a [|b [|]]]; try done. exists a, b.
    apply Forall_cons_1 in K as [? K]. apply Forall_cons_1 in K as [? _]. done. }
  assert (∃ c d, drop 12 data = c :: d :: drop 14 data ∧ etype data = [c; d] ∧ byte_ok c ∧ byte_ok d) as (c & d & Ed & Ecd & Hc & Hd).
  { assert (length (etype data) = 2%nat) as L2 by (apply length_sub; lia). pose proof (bytes_ok_sub 2 12 data Hdok) as K.
    fold (etype data) in K. pose proof (take_drop 2 (drop 12 data)) as T. rewrite drop_drop in T. fold (etype data) in T.
    destruct (etype data) as [|c [|d [|]]]; try done. exists c, d.
    apply Forall_cons_1 in K as [? K]. apply Forall_cons_1 in K as [? _]. done. }
  rewrite Ecd, Eab. rewrite Eab in Eh. rewrite Eh. unfold recipe1.
  rewrite zip_with_app by (rewrite length_replicate, length_take; lia). rewrite zero_mask_skip by (rewrite ?length_take; lia).
  rewrite Ed. cbn [app zip_with rule_matches]. rewrite !land_ff by done.
  destruct (Z.eqb_spec c a) as [->|], (Z.eqb_spec d b) as [->|];
    try (rewrite bool_decide_false by congruence; done).
  rewrite bool_decide_true by done. rewrite zero_mask_end by (rewrite length_drop; lia). rewrite length_drop.
  destruct (Z.leb_spec 56 (Z.of_nat (length data))), (Z.leb_spec (Z.of_nat 42) (Z.of_nat (length data - 14))); done || lia.
Qed.

(** The switch: whatever the driver answers, [add_rule] reports a failure, and
    the rule is active all the same: a packet goes to the queue of the first rule
    with its type of frame, or to the default queue; a packet shorter than the
    recipe that has the type of a rule is read past its end. *)
Theorem switch_first_match installed es data queue : Forall simple_rule es → bytes_ok data → (14 <= length data)%nat →
  ∃ sw, add_rules installed es new_switch = Ok (replicate (length es) false, sw) ∧
  select_queue sw data queue =
    match List.find (fun e => bool_decide (etype data = etype (hdr e))) es with
    | Some e => if (56 <=? Z.of_nat (length data)) then Ok (act_queue e) else Undef
    | None => Ok queue
    end.
Proof.
  intros Hes Hok Hlen. eexists. split; [by apply add_rules_spec|].
  unfold select_queue. rewrite (proj2 (Z.ltb_ge _ _)), load_take by lia. cbn [of_opt mbind result_bind].
  cbn [mac_rules new_switch set_field List.find rules recipies app]. induction Hes as [|e es (_ & _ & _ & _ & Hl & Hh) _ IH]; [done|].
  cbn [fmap list_fmap select_rule rule_of List.find]. change (rd [recipe1] 0) with (Some recipe1).
  cbn [of_opt mbind result_bind].
  rewrite recipe1_matches by done. case_bool_decide; [|exact IH].
  assert (u16 (act_queue e) = act_queue e) as ->.
  { apply wrap_small. unfold act_queue, in_width. rewrite Z.shiftr_land. change ((0x7FF .<< 4) .>> 4) with (Z.ones 11).
    rewrite Z.land_ones by done. pose proof (Z.mod_pos_bound (act e .>> 4) (2 ^ 11)). lia. }
  by destruct (56 <=? _).
Qed.

(** ** A concrete packet *)

Definition demo_rx_desc (pos addr : Z) : rx_desc_ctx := mkRxDesc pos (le_bytes 8 addr ++ replicate 24 0).
Definition demo_rxq : lan_queue_rx :=
  mkRxq true 2 [demo_rx_desc 0 0x1000; demo_rx_desc 1 0x2000; demo_rx_desc 2 0x3000; demo_rx_desc 3 0x4000].

Lemma rx_packet_parts_witness : ∃ ws,
  rx_packet_received (0, 0) 0 [1; 2; 3; 4; 5] demo_rxq = Ok (ws, demo_rxq <| dcache := [demo_rx_desc 3 0x4000] |>) ∧
  concat (w_data <$> ws) = [1; 2; 3; 4; 5] ∧ length ws = 3%nat.
Proof.
  pose proof (rx_packet_parts (0, 0) 0 [1; 2; 3; 4; 5] demo_rxq false) as H.
  destruct H as (ws & Hr & Hl & Hc & _); [done|cbn; lia|cbn; lia| |done|].
  { repeat constructor; try by vm_compute. }
  exists ws. split; [exact Hr|]. split; [exact Hc|]. assert (Z.of_nat (length ws) = 3) by exact Hl. lia.
Defined.

(** Frames of type 0x88F7 to queue 3. *)
Definition demo_rule : sw_rules_elem :=
  mkSwRule 0 0 (1 + 2 ^ 4 * 3) 56 (replicate 12 7 ++ [0x88; 0xF7] ++ replicate 42 9).

Lemma switch_first_match_witness : ∃ sw, add_rules true [demo_rule] new_switch = Ok ([false], sw) ∧
  select_queue sw (replicate 12 1 ++ [0x88; 0xF7] ++ replicate 50 0) 1 = Ok 3.
Proof.
  destruct (switch_first_match true [demo_rule] (replicate 12 1 ++ [0x88; 0xF7] ++ replicate 50 0) 1)
    as (sw & Ha & Hs); [|by apply bytes_ok_check|simpl; lia|].
  - constructor; [|constructor]. split_and!; try done. by apply bytes_ok_check.
  - exists sw. split; [exact Ha|]. rewrite Hs. by vm_compute.
Defined.
