(* ===== verification/E810Adminq.v ===== *)
(** * The admin queue of the device model

    e810_adminq.cc: how the device completes the commands of the driver.  A context
    of the queue keeps the buffer of the last indirect command it held; the buffers
    are blocks of a store, because [add_sched_elems] keeps pointers into them.
    Local variables that the code does not initialise have the content [junk] of the
    stack.  Of the output for debugging only the accesses to the buffer are kept. *)
From S2P Require Import E810Queue E810Lan IceCtlq IceStatus Prelude Bytes E810Base IceAq E810Rx.
Local Open Scope Z_scope.

(** ** State *)

Definition NUM_VSIS : Z := 383.
Definition MAX_MTU : Z := 2048.
Definition NUM_FD_GUAR : Z := 8192.
Definition NUM_FD_BEST_EFFORT : Z := 8192.
Definition E810_STATIC_NODES : Z := 59.
Definition CAP_1588_FLAGS : Z := 1 .| 2 .| 4 .| 1 .<< 28 .| 1 .<< 25 .| 8 .| 1 .<< 26 .| 1 .<< 7.

(** [ctx_data] is the pointer [data] of a context, [sched_nodes] points at an element
    in a buffer. *)
Record adm := mkAdm {
  bufs : gmap Z (list Z); next_buf : Z; ctx_data : gmap Z Z;
  sched_nodes : gmap Z (Z * Z); last_returned_node : Z; last_used_parent_node : Z;
  ctx_addr : list (list Z); qtx_ena : list Z; txqs : list lan_queue_base; topo_elem : list Z;
  vsi0_first_queue : Z; gllan_rctl_0 : Z; bcam : e810_switch
}.
#[export] Instance adm_settable : Settable adm := fun r =>
  mkAdm (bufs r) (next_buf r) (ctx_data r) (sched_nodes r) (last_returned_node r) (last_used_parent_node r)
    (ctx_addr r) (qtx_ena r) (txqs r) (topo_elem r) (vsi0_first_queue r) (gllan_rctl_0 r) (bcam r).

(** Local variables of [n] bytes. *)
Definition stack (junk : Z → Z) (n : nat) : list Z := (fun i => u8 (junk (Z.of_nat i))) <$> seq 0 n.

(** ** Buffers *)

(** [data_fetch] with the [datalen] bytes that the transfer brings. *)
Definition data_fetch (pos : Z) (bytes : list Z) (s : adm) : result adm :=
  let cap := match ctx_data s !! pos with
             | Some b => length (default [] (bufs s !! b))
             | None => O
             end in
  let s := if (cap <? length bytes)%nat then
             s <| bufs ::= fun m => <[next_buf s := replicate (length bytes) 0]>
                    (match ctx_data s !! pos with Some b => delete b m | None => m end) |>
               <| ctx_data ::= <[pos := next_buf s]> |> <| next_buf ::= Z.succ |>
           else s in
  match ctx_data s !! pos with
  | None => if (0 <? length bytes)%nat then Undef else Ok s
  | Some b =>
      bs ← of_opt (bufs s !! b);
      bs ← of_opt (put_bytes bs 0 bytes);
      Ok (s <| bufs ::= <[b := bs]> |>)
  end.

(** The buffer of a context; a null pointer is not readable. *)
Definition get_data (pos : Z) (s : adm) : result (list Z) :=
  b ← of_opt (ctx_data s !! pos); of_opt (bufs s !! b).

Definition put_data (pos : Z) (bs : list Z) (s : adm) : result adm :=
  b ← of_opt (ctx_data s !! pos); Ok (s <| bufs ::= <[b := bs]> |>).

(** [v->field = x], a field of [n] bytes at offset [off] of the buffer. *)
Definition set_data (pos : Z) (n : nat) (off v : Z) (s : adm) : result adm :=
  bs ← get_data pos s; bs ← of_opt (store n bs off v); put_data pos bs s.

Definition data_field (pos : Z) (n : nat) (off : Z) (s : adm) : result Z :=
  bs ← get_data pos s; of_opt (load n bs off).

(** [__builtin_dump_struct] and the like: [n] bytes from [off] on are read. *)
Definition shown (pos : Z) (n : nat) (off : Z) (s : adm) : result unit :=
  bs ← get_data pos s; _ ← of_opt (bytes_at n bs off); Ok tt.

(** [d->datalen] bytes of the buffer; none of them when the length is 0. *)
Definition data_prefix (pos : Z) (len : Z) (s : adm) : result (list Z) :=
  if len =? 0 then Ok [] else bs ← get_data pos s; of_opt (bytes_at (Z.to_nat len) bs 0).

(** ** Completion *)

(** The completed descriptor and the bytes that go to the buffer of the driver. *)
Definition completion : Type := ice_aq_desc * option (list Z).

Definition desc_compl_prepare (retval : Z) (d : ice_aq_desc) : ice_aq_desc :=
  let f := (flags d .& cnot 16 0x1ff) .| 0x1 .| 0x2 in
  d <| flags := if nz retval then f .| ICE_AQ_FLAG_ERR else f |> <| IceCtlq.retval := retval |>.

Definition desc_complete (retval : Z) (d : ice_aq_desc) : completion := (desc_compl_prepare retval d, None).

Definition desc_complete_indir (retval : Z) (bytes : list Z) (d : ice_aq_desc) : result completion :=
  if datalen d <? Z.of_nat (length bytes) then Abort
  else Ok (desc_compl_prepare retval (d <| datalen := Z.of_nat (length bytes) |>), Some bytes).

(** The response is the buffer of the command. *)
Definition complete_data (pos : Z) (d : ice_aq_desc) (s : adm) : result completion :=
  bytes ← data_prefix pos (datalen d) s; desc_complete_indir 0 bytes d.

(** ** Commands *)

Definition caps_elem (cap major minor number logical_id phys_id : Z) : list Z :=
  le_bytes 2 cap ++ [major; minor] ++ le_bytes 4 number ++ le_bytes 4 logical_id ++ le_bytes 4 phys_id ++ replicate 16 0.

Definition caps : list (list Z) :=
  [ caps_elem 0x0005 1 0 2 1 0; caps_elem 0x0040 1 0 2048 4 0; caps_elem 0x0041 1 0 NUM_QUEUES 0 0;
    caps_elem 0x0042 1 0 NUM_QUEUES 0 0; caps_elem 0x0043 1 0 NUM_PFINTS 0 0; caps_elem 0x0017 1 0 NUM_VSIS 0 0;
    caps_elem 0x0018 1 0 1 4 1; caps_elem 0x0051 1 0 1 1 1; caps_elem 0x0045 1 0 NUM_FD_GUAR NUM_FD_BEST_EFFORT 0;
    caps_elem 0x0046 1 1 CAP_1588_FLAGS 1 1 ].

Definition list_caps (d : ice_aq_desc) : result completion :=
  if 320 <=? datalen d then desc_complete_indir 0 (concat caps) (pset 4 4 10 d)
  else Ok (desc_complete 9 (d <| datalen := 320 |>)).

(** Assignments to fields of a local variable. *)
Definition fields (bs : list Z) (fs : list (nat * list Z)) : list Z :=
  foldl (fun bs f => put bs f.1 f.2) bs fs.

Definition link_status (junk : Z → Z) : list Z :=
  fields (stack junk 32) [(16%nat, le_bytes 8 (1 .<< 30)); (10%nat, le_bytes 2 0x100); (2%nat, [0xE1]); (3%nat, [3]);
    (4%nat, [0]); (6%nat, le_bytes 2 MAX_MTU)].

Definition phy_caps (junk : Z → Z) : list Z :=
  fields (stack junk 560) [(0%nat, le_bytes 8 (1 .<< 30)); (8%nat, le_bytes 8 2); (16%nat, [0x18]); (18%nat, le_bytes 2 0x40)].

(** The element that is reported is the uninitialised header, the element of the
    port follows it. *)
Definition sw_cfg (junk : Z → Z) : list Z := stack junk 6 ++ le_bytes 2 1 ++ le_bytes 2 0 ++ le_bytes 2 0.

(** ["ICE OS Default Package"] *)
Definition pkg_name : list Z :=
  [73; 67; 69; 32; 79; 83; 32; 68; 101; 102; 97; 117; 108; 116; 32; 80; 97; 99; 107; 97; 103; 101; 0; 0; 0; 0; 0; 0].

Definition pkg_info (junk : Z → Z) : list Z :=
  le_bytes 4 1 ++ fields (stack junk 40) [(37%nat, [1]); (0%nat, [1; 3; 30; 0]); (4%nat, pkg_name)].

Definition vsi_props (junk : Z → Z) : list Z :=
  let pd := stack junk 128 in put pd 0 (le_bytes 2 (le (take 2 pd) .| 0x1 .| 0x40 .| 0x80)).

Definition sched_res (junk : Z → Z) : list Z :=
  fields (stack junk 320) [(2%nat, le_bytes 2 4); (0%nat, le_bytes 2 3); (42%nat, le_bytes 2 1); (74%nat, le_bytes 2 2);
    (106%nat, le_bytes 2 32); (138%nat, le_bytes 2 8)].

(** Parent and type of the nodes of the default topology. *)
Definition topo_nodes : list (Z * Z) :=
  [(0xFFFFFFFF, 1); (0, 4); (0, 3); (1, 2); (1, 2); (2, 2); (2, 2)].

Definition topology (bs : list Z) : list Z :=
  let bs := put bs 4 (le_bytes 2 7) in
  fields bs (concat (imap (fun i (p : Z * Z) => let g := (8 + 24 * i)%nat in
    [((g + 4)%nat, le_bytes 4 (Z.of_nat i)); (g, le_bytes 4 p.1); ((g + 8)%nat, [p.2])]) topo_nodes)).

(** *** Resources *)

(** The types for which a resource is allocated. *)
Definition res_types : list Z := [0x04; 0x21; 0x22; 0x23; 0x58; 0x59; 0x60; 0x61].

Definition alloc_res (pos : Z) (d : ice_aq_desc) (s : adm) : result adm :=
  _ ← shown pos 2 0 s;
  for_res (Z.to_nat (pget 2 0 d)) 0 (fun i s =>
    _ ← shown pos 2 (4 + 2 * i) s;
    ty ← data_field pos 2 0 s;
    if existsb (Z.eqb (ty .& 0x7F)) res_types then set_data pos 2 (4 + 2 * i) i s else Ok s) s.

(** *** The scheduling tree *)

(** The parent and the type that the cases of the switch set; the last five cases
    fall through. *)
Definition static_node (teid : Z) : option (Z * Z) :=
  if teid =? 0 then Some (0xFFFFFFFF, 1)
  else if teid =? 1 then Some (0, 2)
  else if teid =? 2 then Some (1, 4)
  else if teid =? 3 then Some (2, 3)
  else if teid =? 4 then Some (3, 3)
  else if teid =? 5 then Some (4, 3)
  else if existsb (Z.eqb teid) [6; 22; 38; 54] then Some (5, 3)
  else if existsb (Z.eqb teid) [55; 56; 57; 58; 59] then Some (55, 3)
  else None.

Definition set_node (pos : Z) (p : Z * Z) (s : adm) : result adm :=
  s ← set_data pos 4 0 p.1 s; set_data pos 1 8 p.2 s.

(** The element that a pointer of [sched_nodes] leads to. *)
Definition pointed (p : Z * Z) (s : adm) : result (list Z) :=
  bs ← of_opt (bufs s !! p.1); of_opt (bytes_at 24 bs p.2).

Definition get_sched_elems (pos : Z) (s : adm) : result adm :=
  teid ← data_field pos 4 4 s;
  s ← (match static_node teid with Some p => set_node pos p s | None => Ok s end);
  if bool_decide (static_node teid = None) || (55 <=? teid) && (teid <=? 59) then
    match sched_nodes s !! teid with
    | Some p =>
        elem ← pointed p s;
        bs ← get_data pos s;
        bs ← of_opt (put_bytes bs 0 elem);
        put_data pos bs s
    | None => Ok s
    end
  else Ok s.

Definition add_sched_elems (pos : Z) (s : adm) : result adm :=
  _ ← shown pos 8 0 s;
  n ← data_field pos 2 4 s;
  for_res (Z.to_nat n) 0 (fun i s =>
    s ← set_data pos 4 (8 + 24 * i + 4) (last_returned_node s) s;
    b ← of_opt (ctx_data s !! pos);
    _ ← shown pos 24 (8 + 24 * i) s;
    Ok (s <| sched_nodes ::= <[last_returned_node s := (b, 8 + 24 * i)]> |> <| last_returned_node ::= Z.succ |>)) s.

(** *** Transmit queues *)

(** The queue that is added is enabled at once: what [lanmgr.qena_updated] starts is the
    second component. *)
Definition add_txqs (pos : Z) (s : adm) : result (adm * option started) :=
  idx ← data_field pos 2 8 s;
  _ ← shown pos 48 8 s;
  s ← set_data pos 4 0 (last_used_parent_node s) s;
  s ← set_data pos 1 4 1 s;
  s ← set_data pos 4 12 (last_returned_node s) s;
  s ← set_data pos 1 40 5 s;
  s ← set_data pos 2 46 100 s;
  s ← set_data pos 2 50 100 s;
  bs ← get_data pos s;
  ctx ← of_opt (bytes_at 22 bs 16);
  ctxs ← E810Lan.add_txqs idx ctx (ctx_addr s);
  ena ← of_opt (wr (qtx_ena s) idx QRX_CTRL_QENA_REQ_M);
  '(ena, qs, eff) ← qena_updated (tx_queue ctxs) idx ena (txqs s);
  Ok (s <| ctx_addr := ctxs |> <| qtx_ena := ena |> <| txqs := qs |>, eff).

(** *** Switch rules *)

Definition rule_of (bs : list Z) : option sw_rules_elem :=
  type ← load 2 bs 0; recipe ← load 2 bs 4; act ← load 4 bs 8; hlen ← load 2 bs 14;
  Some (mkSwRule type recipe act hlen (drop 16 bs)).

(** What [e810_switch::print_sw_rule] reads behind the fields of the rule. *)
Definition print_sw_rule (rule : sw_rules_elem) : result unit :=
  if ((sw_type rule =? 0) || (sw_type rule =? 1)) && (act_type rule =? ICE_SINGLE_ACT_TO_Q)
  then _ ← of_opt (bytes_at (Z.to_nat (hdr_len rule)) (hdr rule) 0); Ok tt else Ok tt.

Definition add_sw_rules (installed : bool) (pos : Z) (s : adm) : result adm :=
  bs ← get_data pos s;
  rule ← of_opt (rule_of bs);
  _ ← print_sw_rule rule;
  '(_, sw) ← add_rule installed rule (bcam s);
  s ← set_data pos 2 0 1 (s <| bcam := sw |>);
  s ← set_data pos 2 6 1 s;
  set_data pos 2 12 0 s.

Definition remove_sw_rules (pos : Z) (s : adm) : result adm :=
  ty ← data_field pos 2 0 s;
  if (ty =? 0) || (ty =? 1) then set_data pos 2 12 0 s else Ok s.

(** *** Flash *)

(** The answer to a read at an offset: the return value and the bytes. *)
Definition nvm_answer (offset : Z) : Z * list Z :=
  if offset =? 0 then (0, le_bytes 2 0x78)
  else if offset =? 0x84 then (0, le_bytes 2 0x8020)
  else if offset =? 0x86 then (0, le_bytes 2 0x41a)
  else if offset =? 0x88 then (0, le_bytes 2 0x8854)
  else if offset =? 0x8a then (0, le_bytes 2 0x7d)
  else if offset =? 0x8c then (0, le_bytes 2 0x894e)
  else if offset =? 0x8a then (0, le_bytes 2 0x7)
  else if offset =? 0x43a004 then (0, le_bytes 2 0xa1)
  else if offset =? 0x43a006 then (0, le_bytes 2 0x0)
  else if offset <? 0xc00000 then (0, [0x40])
  else (14, [0x40]).

Definition nvm_read (d : ice_aq_desc) : result completion :=
  let '(ret, bytes) := nvm_answer (pget 2 0 d .| pget 1 2 d .<< 16) in desc_complete_indir ret bytes d.

(** ** Dispatch *)

(** The last component is what a transmit queue that the command enables has started. *)
Definition processed : Type := adm * completion * option started.

Definition no_effect (s : adm) (c : result completion) : result processed := c ← c; Ok (s, c, None).

(** [params] change, then the buffer goes back. *)
Definition with_data (pos : Z) (d : ice_aq_desc) (s : result adm) : result processed :=
  s ← s; c ← complete_data pos d s; Ok (s, c, None).

Definition process (junk : Z → Z) (mac : Z) (installed : bool) (pos : Z) (d : ice_aq_desc) (s : adm) : result processed :=
  let op := opcode d in
  if op =? 0x0001 then
    no_effect s (Ok (desc_complete 0 (pset 1 14 5 (pset 1 13 1 (pset 1 10 0 (pset 1 9 6 (pset 4 4 0 (pset 4 0 0 d))))))))
  else if op =? 0x0008 then no_effect s (Ok (desc_complete 0 (pset 4 4 180000 d)))
  else if op =? 0x0009 then no_effect s (Ok (desc_complete 0 d))
  else if op =? 0x0110 then no_effect (s <| gllan_rctl_0 := gllan_rctl_0 s .& 0 |>) (Ok (desc_complete 0 d))
  else if (op =? 0x000B) || (op =? 0x000A) then no_effect s (list_caps d)
  else if op =? 0x0A05 then no_effect s (Ok (desc_complete 0 d))
  else if op =? 0x0107 then
    no_effect s (desc_complete_indir 0 (put (put (stack junk 8) 1 [0]) 2 (le_bytes 6 mac)) (pset 2 0 0x50 (pset 1 4 1 d)))
  else if op =? 0x0600 then no_effect s (desc_complete_indir 0 (phy_caps junk) (pset 4 4 0 (pset 4 0 0 d)))
  else if op =? 0x0607 then no_effect s (desc_complete_indir 0 (link_status junk) (pset 2 2 (pget 2 2 d .& 1) d))
  else if op =? 0x0200 then no_effect s (desc_complete_indir 0 (sw_cfg junk) (pset 2 4 1 d))
  else if op =? 0x0C43 then no_effect s (desc_complete_indir 0 (pkg_info junk) d)
  else if op =? 0x0B02 then with_data pos d (Ok s)
  else if op =? 0x0B03 then
    with_data pos d (Ok (if (pget 2 2 d .& 0xC) .>> 2 =? 1 then s <| vsi0_first_queue := 1 |> else s))
  else if op =? 0x0208 then with_data pos d (alloc_res pos d s)
  else if op =? 0x0210 then no_effect s (desc_complete_indir 0 (vsi_props junk) (pset 2 0 1 d))
  else if op =? 0x0211 then no_effect s (Ok (desc_complete 0 d))
  else if op =? 0x0292 then
    _ ← shown pos 44 0 s;
    no_effect s (Ok (desc_complete 0 d))
  else if op =? 0x02A2 then
    s ← remove_sw_rules pos s;
    bytes ← data_prefix pos (Z.min 102 (datalen d)) s;
    no_effect s (desc_complete_indir 0 bytes d)
  else if op =? 0x0400 then
    let s := s <| topo_elem ::= topology |> in no_effect s (desc_complete_indir 0 (topo_elem s) (pset 1 1 2 (pset 1 0 1 d)))
  else if op =? 0x0404 then
    s ← get_sched_elems pos s;
    bytes ← data_prefix pos 24 s;
    no_effect s (desc_complete_indir 0 bytes (pset 2 2 1 d))
  else if op =? 0x0401 then with_data pos (pset 2 2 1 d) (add_sched_elems pos s)
  else if op =? 0x040F then with_data pos (pset 2 2 1 d) (Ok s)
  else if op =? 0x0412 then no_effect s (desc_complete_indir 0 (sched_res junk) (pset 2 2 1 d))
  else if op =? 0x0C30 then
    '(s, eff) ← add_txqs pos s;
    c ← complete_data pos d s;
    Ok (s, c, eff)
  else if op =? 0x0C31 then with_data pos d (set_data pos 1 4 1 s)
  else if op =? 0x0C40 then with_data pos (pset 4 0 0 (pset 4 4 0 d)) (Ok s)
  else if op =? 0x02A0 then with_data pos d (add_sw_rules installed pos s)
  else if op =? 0x0701 then no_effect s (nvm_read d)
  else no_effect s (Ok (desc_complete 0 d)).

(** [prepare] and [process] of one descriptor; [bytes] is what the driver's buffer
    holds. *)
Definition command (junk : Z → Z) (mac : Z) (installed : bool) (pos : Z) (d : ice_aq_desc) (bytes : list Z) (s : adm)
    : result processed :=
  s ← (if nz (flags d .& ICE_AQ_FLAG_RD) then data_fetch pos (take (Z.to_nat (datalen d)) bytes) s else Ok s);
  process junk mac installed pos d s.

(** ** Registers of the queue *)

(** [queue_admin_tx::reg_updated]: base and length come from the registers, and the
    enable bit switches the queue. *)
Definition admin_reg_updated (reg_base reg_len : Z) (q : queue_base) : result (queue_base * option dma * list Z * option dma) :=
  let ena := nz (reg_len .& 0x80000000) in
  let q := q <| E810Queue.base := reg_base |> <| E810Queue.len := reg_len .& 0x3FF |> in
  let q := if negb (enabled q) && ena then q <| enabled := true |>
           else if enabled q && negb ena then q <| enabled := false |> else q in
  reg_updated q.
