(* ===== verification/E810AdminqSpec.v ===== *)
(** * The admin queue of the device model: theorems *)
From S2P Require Import E810Queue IceCtlq IceStatus Prelude Bytes E810Base E810Lan IceAq E810Rx E810Adminq.
Local Open Scope Z_scope.

(** ** Results *)

Lemma bind_ok {A B} (m : result A) (f : A → result B) b : (m ≫= f) = Ok b → ∃ a, m = Ok a ∧ f a = Ok b.
Proof. destruct m; cbn; intros; try done. eauto. Qed.

Lemma of_opt_ok {A} (o : option A) a : of_opt o = Ok a → o = Some a.
Proof. destruct o; cbn; congruence. Qed.

(** ** Completion *)

Definition completed (d : ice_aq_desc) (ret : Z) (c : completion) : Prop :=
  opcode c.1 = opcode d ∧ cookie_high c.1 = cookie_high d ∧ cookie_low c.1 = cookie_low d ∧
  IceCtlq.retval c.1 = ret ∧ flags c.1 = (flags d .& cnot 16 0x1ff) .| (if nz ret then 7 else 3) ∧
  match c.2 with
  | Some bytes => addr_high c.1 = addr_high d ∧ addr_low c.1 = addr_low d ∧
      datalen c.1 = Z.of_nat (length bytes) ∧ datalen c.1 <= datalen d
  | None => True
  end.

(** Parameters in the first eight bytes leave the address alone. *)
Lemma addr_pset n off v d : (off + n <= 8)%nat → in_width 32 (addr_high d) → in_width 32 (addr_low d) →
  addr_high (pset n off v d) = addr_high d ∧ addr_low (pset n off v d) = addr_low d.
Proof.
  intros Hn Hh Hl. change (addr_high (pset n off v d)) with (le (take 4 (drop 8 (put (params d) off (le_bytes n v))))).
  change (addr_low (pset n off v d)) with (le (take 4 (drop 12 (put (params d) off (le_bytes n v))))).
  rewrite !sub_put_out by (rewrite ?length_params, ?length_le_bytes; lia).
  unfold params. split.
  - rewrite app_assoc, drop_app_length' by (rewrite length_app, !length_le_bytes; done).
    rewrite take_app_length' by (symmetry; apply length_le_bytes). rewrite le_le_bytes. by apply wrap_small.
  - rewrite !app_assoc, drop_app_length' by (rewrite !length_app, !length_le_bytes; done).
    rewrite take_ge by (rewrite length_le_bytes; lia). rewrite le_le_bytes. by apply wrap_small.
Qed.

(** What a command may change in the descriptor before its completion. *)
Definition same_head (d d' : ice_aq_desc) : Prop :=
  opcode d' = opcode d ∧ cookie_high d' = cookie_high d ∧ cookie_low d' = cookie_low d ∧ flags d' = flags d.

Definition same_addr (d d' : ice_aq_desc) : Prop := addr_high d' = addr_high d ∧ addr_low d' = addr_low d.

Definition addr_ok (d : ice_aq_desc) : Prop := in_width 32 (addr_high d) ∧ in_width 32 (addr_low d).

Lemma same_head_refl d : same_head d d.
Proof. done. Qed.

Lemma same_head_pset n off v d d' : same_head d d' → same_head d (pset n off v d').
Proof. done. Qed.

Lemma same_addr_refl d : same_addr d d.
Proof. done. Qed.

Lemma same_addr_pset n off v d d' : addr_ok d → (off + n <= 8)%nat → same_addr d d' → same_addr d (pset n off v d').
Proof.
  intros [Hh Hl] Hn (H1 & H2). destruct (addr_pset n off v d') as [E1 E2]; [done|by rewrite H1|by rewrite H2|].
  split; congruence.
Qed.

Lemma complete_direct ret d d' : same_head d d' → completed d ret (desc_complete ret d').
Proof.
  intros (H1 & H2 & H3 & H6). split_and!; try done. cbn. rewrite H6. destruct (nz ret).
  - by rewrite <- !Z.lor_assoc.
  - by rewrite <- Z.lor_assoc.
Qed.

Lemma complete_indir ret bytes d d' c : desc_complete_indir ret bytes d' = Ok c →
  same_head d d' → same_addr d d' → datalen d' = datalen d → completed d ret c.
Proof.
  unfold desc_complete_indir. destruct (Z.ltb_spec (datalen d') (Z.of_nat (length bytes))); [done|].
  intros [= <-] Hh [Ha1 Ha2] Hl. destruct (complete_direct ret d (d' <| datalen := Z.of_nat (length bytes) |>)) as (? & ? & ? & ? & ? & _); [done|].
  split_and!; try done; cbn; lia.
Qed.

Create HintDb adm.
#[export] Hint Resolve same_head_refl same_head_pset same_addr_refl complete_direct complete_indir : adm.
#[export] Hint Extern 2 (same_addr _ (pset _ _ _ _)) => apply same_addr_pset; [done|lia|] : adm.
#[export] Hint Extern 1 (datalen _ = datalen _) => reflexivity : adm.

(** The return value of a command. *)
Definition ret_of (d : ice_aq_desc) : Z :=
  if (opcode d =? 0x000B) || (opcode d =? 0x000A) then (if 320 <=? datalen d then 0 else 9)
  else if opcode d =? 0x0701 then (nvm_answer (pget 2 0 d .| pget 1 2 d .<< 16)).1
  else 0.

Lemma list_caps_completed d c : addr_ok d → list_caps d = Ok c →
  completed d (if 320 <=? datalen d then 0 else 9) c.
Proof.
  intros Ha. unfold list_caps. destruct (320 <=? datalen d); intros Hc.
  - eapply complete_indir; [exact Hc|..]; auto with adm.
  - injection Hc as <-. by apply complete_direct.
Qed.

Lemma nvm_read_completed d c : nvm_read d = Ok c →
  completed d (nvm_answer (pget 2 0 d .| pget 1 2 d .<< 16)).1 c.
Proof. unfold nvm_read. destruct (nvm_answer _) as [ret bytes]. intros. eapply complete_indir; eauto with adm. Qed.

Lemma complete_data_completed pos d d' s c : complete_data pos d' s = Ok c → same_head d d' → same_addr d d' →
  datalen d' = datalen d → completed d 0 c.
Proof. intros Hc. apply bind_ok in Hc as (bytes & _ & Hc). by eapply complete_indir. Qed.
#[export] Hint Resolve complete_data_completed : adm.

Lemma ret_zero d k : opcode d = k → (k =? 0x000B) || (k =? 0x000A) || (k =? 0x0701) = false → ret_of d = 0.
Proof. intros <- [[E1 E2]%orb_false_iff E3]%orb_false_iff. unfold ret_of. by rewrite E1, E2, E3. Qed.

(** Follow the dispatch to the branch of one opcode. *)
Ltac next_cmd Ho :=
  match goal with |- (if ?b then _ else _) = Ok _ → _ => destruct b eqn:Ho; [|let Hn := fresh "Hn" in rename Ho into Hn; next_cmd Ho]
  | _ => idtac end.

Lemma no_effect_ok s r s' c eff : no_effect s r = Ok (s', c, eff) → r = Ok c ∧ s' = s ∧ eff = None.
Proof. unfold no_effect. destruct r; [|done..]. cbn. by intros [= -> -> ->]. Qed.

Lemma no_effect_direct s x s' c eff : no_effect s (Ok x) = Ok (s', c, eff) → c = x.
Proof. by intros (E & _ & _)%no_effect_ok; injection E. Qed.

Lemma with_data_ok pos d m s' c eff : with_data pos d m = Ok (s', c, eff) →
  m = Ok s' ∧ complete_data pos d s' = Ok c ∧ eff = None.
Proof.
  unfold with_data. destruct m as [s| |]; [|done..]. cbn. destruct (complete_data pos d s) eqn:E; [|done..].
  cbn. by intros [= <- <- <-].
Qed.

(** Close a branch: a direct completion, an indirect one, or the buffer. *)
Ltac completes :=
  lazymatch goal with
  | |- with_data _ _ _ = _ → _ => intros (_ & Hc & _)%with_data_ok; eapply complete_data_completed; [exact Hc|done| |reflexivity]
  | |- no_effect _ (Ok (desc_complete _ _)) = _ → _ =>
      intros ->%no_effect_direct; apply complete_direct; done
  | |- no_effect _ _ = _ → _ => intros (Hc & _ & _)%no_effect_ok; eapply complete_indir; [exact Hc|done| |reflexivity]
  | |- (_ ≫= _) = _ → _ => intros (? & _ & Hp)%bind_ok; revert Hp; completes
  | |- (let '(_, _) := ?p in _) = _ → _ => destruct p; completes
  end.

(** C19. What the driver's completion check relies on: whenever the device processes an
    admin command, the completed descriptor keeps the opcode and the cookies, has [DD] and
    [CMP] set and [ERR] exactly for a return value other than 0, and carries the return
    value of the command ([ENOMEM] for capabilities that do not fit, [EINVAL] for a flash
    offset past the end, 0 for everything else, unknown opcodes included); a response
    keeps the driver's buffer address and is no longer than the buffer. *)
Theorem admin_completion junk mac inst pos d s s' c eff : addr_ok d →
  process junk mac inst pos d s = Ok (s', c, eff) → completed d (ret_of d) c.
Proof.
  intros Ha. unfold process. cbv zeta. next_cmd Ho.
  all: try (apply Z.eqb_eq in Ho; rewrite (ret_zero d _ Ho) by reflexivity).
  all: try (completes; repeat (apply same_addr_pset; [assumption|lia|]); apply same_addr_refl).
  - intros (Hc & _ & _)%no_effect_ok. unfold ret_of. rewrite Ho. by apply list_caps_completed.
  - intros ([s1 idx] & _ & Hp)%bind_ok. apply bind_ok in Hp as (c' & Hc & [= _ <- _]).
    by eapply complete_data_completed.
  - intros (Hc & _ & _)%no_effect_ok. apply Z.eqb_eq in Ho. unfold ret_of. rewrite Ho. by apply nvm_read_completed.
  - intros ->%no_effect_direct. rewrite (ret_zero d _ eq_refl) by (by apply orb_false_iff). by apply complete_direct.
Qed.

(** ** Aborts *)

Definition no_abort {A} (m : result A) : Prop := m ≠ Abort.

Lemma no_abort_ok {A} (a : A) : no_abort (Ok a).
Proof. done. Qed.
Lemma no_abort_undef {A} : no_abort (@Undef A).
Proof. done. Qed.
Lemma no_abort_opt {A} (o : option A) : no_abort (of_opt o).
Proof. by destruct o. Qed.
Lemma no_abort_bind {A B} (m : result A) (f : A → result B) : no_abort m → (∀ a, m = Ok a → no_abort (f a)) → no_abort (m ≫= f).
Proof. destruct m; cbn; try done. intros _ Hf. by apply Hf. Qed.
Lemma no_abort_for {S} n i (body : Z → S → result S) s : (∀ j s, no_abort (body j s)) → no_abort (for_res n i body s).
Proof. intros Hb. revert i s. induction n as [|n IH]; intros i s; cbn; [done|]. apply no_abort_bind; auto. Qed.

Create HintDb no_abort.
#[export] Hint Resolve no_abort_ok no_abort_undef no_abort_opt : no_abort.
#[export] Hint Extern 3 (no_abort (_ ≫= _)) => apply no_abort_bind; [|intros ? _] : no_abort.
#[export] Hint Extern 3 (no_abort (if ?b then _ else _)) => destruct b : no_abort.
#[export] Hint Extern 3 (no_abort (match ?b with _ => _ end)) => destruct b : no_abort.
#[export] Hint Extern 3 (no_abort (for_res _ _ _ _)) => apply no_abort_for; intros : no_abort.

Lemma no_abort_field pos n off s : no_abort (data_field pos n off s).
Proof. unfold data_field, get_data. auto 10 with no_abort. Qed.
Lemma no_abort_set pos n off v s : no_abort (set_data pos n off v s).
Proof. unfold set_data, get_data, put_data. auto 12 with no_abort. Qed.
Lemma no_abort_shown pos n off s : no_abort (shown pos n off s).
Proof. unfold shown, get_data. auto 12 with no_abort. Qed.
#[export] Hint Resolve no_abort_field no_abort_set no_abort_shown : no_abort.

Lemma no_abort_data pos s : no_abort (get_data pos s) ∧ ∀ bs, no_abort (put_data pos bs s).
Proof. unfold get_data, put_data. split; [|intros]; auto 10 with no_abort. Qed.

Lemma no_abort_prefix pos n s : no_abort (data_prefix pos n s).
Proof. unfold data_prefix, get_data. auto 12 with no_abort. Qed.

Lemma no_abort_alloc pos d s : no_abort (alloc_res pos d s).
Proof. unfold alloc_res. auto 12 with no_abort. Qed.
Lemma no_abort_add_sched pos s : no_abort (add_sched_elems pos s).
Proof. unfold add_sched_elems. auto 14 with no_abort. Qed.
Lemma no_abort_get_sched pos s : no_abort (get_sched_elems pos s).
Proof. unfold get_sched_elems, set_node, pointed, get_data, put_data. auto 25 with no_abort. Qed.
Lemma no_abort_remove pos s : no_abort (remove_sw_rules pos s).
Proof. unfold remove_sw_rules. auto 14 with no_abort. Qed.
Lemma no_abort_add_rules inst pos s : no_abort (add_sw_rules inst pos s).
Proof. unfold add_sw_rules, add_rule, print_sw_rule, get_data. auto 30 with no_abort. Qed.
#[export] Hint Resolve no_abort_prefix no_abort_alloc no_abort_add_sched no_abort_get_sched no_abort_remove
  no_abort_add_rules : no_abort.

Lemma prefix_length pos n s bs : 0 <= n → data_prefix pos n s = Ok bs → Z.of_nat (length bs) = n.
Proof.
  intros Hn. unfold data_prefix. destruct (Z.eqb_spec n 0) as [->|]; [by intros [= <-]|].
  intros (b & _ & Hb)%bind_ok. apply of_opt_ok in Hb. unfold bytes_at in Hb. case_match eqn:E; [|done].
  injection Hb as <-. bool_to_prop. rewrite drop_0, length_take. lia.
Qed.

(** The length of a response that does not depend on the command's buffer. *)
Definition response_size (d : ice_aq_desc) : option Z :=
  let op := opcode d in
  if op =? 0x0107 then Some 8
  else if op =? 0x0600 then Some 560
  else if op =? 0x0607 then Some 32
  else if op =? 0x0200 then Some 12
  else if op =? 0x0C43 then Some 44
  else if op =? 0x0210 then Some 128
  else if op =? 0x0400 then Some 224
  else if op =? 0x0412 then Some 320
  else if op =? 0x0701 then Some (Z.of_nat (length (nvm_answer (pget 2 0 d .| pget 1 2 d .<< 16)).2))
  else None.

Lemma indir_abort ret bytes d s n : Z.of_nat (length bytes) = n →
  no_effect s (desc_complete_indir ret bytes d) = Abort ↔ datalen d < n.
Proof.
  intros <-. unfold no_effect, desc_complete_indir. destruct (Z.ltb_spec (datalen d) (Z.of_nat (length bytes))); cbn; split; done || lia.
Qed.

Lemma no_abort_complete_data pos d s : 0 <= datalen d → no_abort (complete_data pos d s).
Proof.
  intros. unfold complete_data. apply no_abort_bind; [auto with no_abort|]. intros bs Hb.
  apply prefix_length in Hb; [|done]. unfold desc_complete_indir. by rewrite Hb, Z.ltb_irrefl.
Qed.

Lemma no_abort_with_data pos d m : 0 <= datalen d → no_abort m → no_abort (with_data pos d m).
Proof.
  intros. unfold with_data. apply no_abort_bind; [done|]. intros s _. apply no_abort_bind; [by apply no_abort_complete_data|done].
Qed.

Lemma no_abort_direct s ret d : no_abort (no_effect s (Ok (desc_complete ret d))).
Proof. done. Qed.

Lemma no_abort_list_caps s d : no_abort (no_effect s (list_caps d)).
Proof.
  unfold list_caps. destruct (Z.leb_spec 320 (datalen d)); [|done]. intros Ha.
  apply (indir_abort 0 (concat caps) (pset 4 4 10 d) s 320) in Ha; [|done]. cbn in Ha. lia.
Qed.

Lemma length_fields bs fs n : length bs = n → forallb (fun f => f.1 + length f.2 <=? n)%nat fs = true →
  length (fields bs fs) = n.
Proof.
  revert bs. induction fs as [|[o x] fs IH]; intros bs Hl Hf; [done|]. cbn in Hf. apply andb_true_iff in Hf as [Ho Hf].
  apply Nat.leb_le in Ho. apply IH; [|done]. cbn [fst snd]. rewrite length_put; lia.
Qed.

Lemma length_stack junk n : length (stack junk n) = n.
Proof. unfold stack. by rewrite length_fmap, length_seq. Qed.

Lemma length_topology bs : length bs = 224%nat → length (topology bs) = 224%nat.
Proof.
  intros. unfold topology. apply length_fields; [|by vm_compute]. rewrite length_put; [done|]. rewrite length_le_bytes. lia.
Qed.

#[export] Hint Resolve no_abort_with_data no_abort_direct no_abort_list_caps : no_abort.

(** A branch of the dispatch with a response of fixed size, or with another end. *)
Lemma aborts_fixed d ret bytes d' s n : response_size d = Some n → Z.of_nat (length bytes) = n → datalen d' = datalen d →
  no_effect s (desc_complete_indir ret bytes d') = Abort ↔ ∃ n, response_size d = Some n ∧ datalen d < n.
Proof.
  intros Hs Hn Hl. rewrite (indir_abort ret bytes d' s n Hn), Hl, Hs. split; [by eauto|]. by intros (k & [= <-] & Hk).
Qed.

Lemma aborts_never d (m : result processed) : response_size d = None → no_abort m →
  m = Abort ↔ ∃ n, response_size d = Some n ∧ datalen d < n.
Proof. intros Hs Hm. rewrite Hs. split; [done|]. by intros (k & Hk & _). Qed.

Ltac next_abort Ho :=
  match goal with |- (if ?b then _ else _) = Abort ↔ _ =>
    destruct b eqn:Ho; [|let Hn := fresh "Hn" in rename Ho into Hn; next_abort Ho]
  | _ => idtac end.

(** ** Uninitialised memory *)

Definition outside (fs : list (nat * list Z)) (i : nat) : bool :=
  forallb (fun f => (i <? f.1) || (f.1 + length f.2 <=? i))%nat fs.

Lemma lookup_fields fs bs i n : length bs = n → forallb (fun f => f.1 + length f.2 <=? n)%nat fs = true →
  outside fs i = true → fields bs fs !! i = bs !! i.
Proof.
  revert bs. induction fs as [|[o x] fs IH]; intros bs Hl Hf Ho; [done|]. cbn in Hf, Ho.
  apply andb_true_iff in Hf as [H1 Hf]. apply andb_true_iff in Ho as [H2 Ho]. apply Nat.leb_le in H1. cbn [fields foldl fst snd].
  change (fields (put bs o x) fs !! i = bs !! i). rewrite IH by (done || (rewrite length_put; lia)).
  apply lookup_put_ne; [lia|]. apply orb_true_iff in H2 as [H2|H2]; [apply Nat.ltb_lt in H2|apply Nat.leb_le in H2]; lia.
Qed.

(** The responses built from a variable on the stack: its size, the fields that the
    code assigns (offset and length), and its offset in the response. *)
Definition stack_response (op : Z) : option (nat * list (nat * nat) * nat) :=
  if op =? 0x0107 then Some (8, [(1, 1); (2, 6)], 0)%nat
  else if op =? 0x0600 then Some (560, [(0, 8); (8, 8); (16, 1); (18, 2)], 0)%nat
  else if op =? 0x0607 then Some (32, [(16, 8); (10, 2); (2, 1); (3, 1); (4, 1); (6, 2)], 0)%nat
  else if op =? 0x0200 then Some (6, [], 0)%nat
  else if op =? 0x0C43 then Some (40, [(37, 1); (0, 4); (4, 28)], 4)%nat
  else if op =? 0x0210 then Some (128, [(0, 2)], 0)%nat
  else if op =? 0x0412 then Some (320, [(2, 2); (0, 2); (42, 2); (74, 2); (106, 2); (138, 2)], 0)%nat
  else None.

Definition unassigned (rs : list (nat * nat)) (i : nat) : bool :=
  forallb (fun r => (i <? r.1) || (r.1 + r.2 <=? i))%nat rs.

Lemma indir_bytes ret bytes d s s' d' resp eff : no_effect s (desc_complete_indir ret bytes d) = Ok (s', (d', resp), eff) →
  resp = Some bytes.
Proof.
  intros (Hc & _ & _)%no_effect_ok. unfold desc_complete_indir in Hc. case_match; [done|]. by injection Hc.
Qed.

Lemma stack_byte junk n fs i : (i < n)%nat → forallb (fun f => f.1 + length f.2 <=? n)%nat fs = true →
  outside fs i = true → fields (stack junk n) fs !! i = Some (u8 (junk (Z.of_nat i))).
Proof.
  intros Hi Hf Ho. rewrite (lookup_fields _ _ _ n) by (done || apply length_stack). unfold stack.
  rewrite list_lookup_fmap, lookup_seq_lt by done. done.
Qed.

(** The response to such a command. *)
Definition stack_bytes (junk : Z → Z) (mac op : Z) : list Z :=
  if op =? 0x0107 then put (put (stack junk 8) 1 [0]) 2 (le_bytes 6 mac)
  else if op =? 0x0600 then phy_caps junk
  else if op =? 0x0607 then link_status junk
  else if op =? 0x0200 then sw_cfg junk
  else if op =? 0x0C43 then pkg_info junk
  else if op =? 0x0210 then vsi_props junk
  else sched_res junk.

Lemma process_stack junk mac inst pos d s op r : opcode d = op → stack_response op = Some r →
  ∃ d', process junk mac inst pos d s = no_effect s (desc_complete_indir 0 (stack_bytes junk mac op) d').
Proof.
  intros Ho Hs. unfold stack_response in Hs.
  repeat match type of Hs with (if op =? ?v then _ else _) = _ =>
    destruct (Z.eqb_spec op v) as [->|_]; [eexists; unfold process; rewrite Ho; reflexivity|] end. done.
Qed.

Lemma stack_bytes_leak junk mac op n rs k i : stack_response op = Some (n, rs, k) → (i < n)%nat → unassigned rs i = true →
  stack_bytes junk mac op !! (k + i)%nat = Some (u8 (junk (Z.of_nat i))).
Proof.
  intros Hs Hi Hu. unfold stack_response in Hs.
  repeat match type of Hs with (if ?op =? ?v then _ else _) = _ =>
    destruct (Z.eqb_spec op v) as [->|_]; [injection Hs as <- <- <-|] end; [..|done].
  - apply (stack_byte junk 8 [(1%nat, [0]); (2%nat, le_bytes 6 mac)]); [done|reflexivity|exact Hu].
  - change (stack_bytes junk mac 0x0600) with (phy_caps junk). apply stack_byte; [done|reflexivity|exact Hu].
  - change (stack_bytes junk mac 0x0607) with (link_status junk). apply stack_byte; [done|reflexivity|exact Hu].
  - change (stack_bytes junk mac 0x0200) with (sw_cfg junk). unfold sw_cfg. rewrite lookup_app_l by (rewrite length_stack; lia).
    apply (stack_byte junk 6 []); [done|reflexivity|exact Hu].
  - change (stack_bytes junk mac 0x0C43) with (pkg_info junk). unfold pkg_info.
    rewrite lookup_app_r by (rewrite length_le_bytes; lia). rewrite length_le_bytes, Nat.add_comm, Nat.add_sub.
    apply stack_byte; [done|reflexivity|exact Hu].
  - change (stack_bytes junk mac 0x0210) with (vsi_props junk). apply (stack_byte junk 128 [(0%nat, _)]); [done|reflexivity|exact Hu].
  - change (stack_bytes junk mac 0x0412) with (sched_res junk). apply stack_byte; [done|reflexivity|exact Hu].
Qed.

(** The responses that are built in a variable on the stack disclose vMux memory to the
    driver: every byte of the variable that the code does not assign reaches the driver's
    buffer as it was found on the stack. *)
Theorem admin_leaks junk mac inst pos d s s' d' resp eff n rs k i :
  process junk mac inst pos d s = Ok (s', (d', resp), eff) → stack_response (opcode d) = Some (n, rs, k) →
  (i < n)%nat → unassigned rs i = true →
  ∃ bytes, resp = Some bytes ∧ bytes !! (k + i)%nat = Some (u8 (junk (Z.of_nat i))).
Proof.
  intros Hp Hs Hi Hu. destruct (process_stack junk mac inst pos d s _ _ eq_refl Hs) as [d1 E]. rewrite E in Hp.
  apply indir_bytes in Hp as ->. eexists. split; [done|]. by eapply stack_bytes_leak.
Qed.

(** ** Buffers of the commands *)

(** The context at [pos] has the buffer [b] with content [bs]. *)
Definition has_data (s : adm) (pos b : Z) (bs : list Z) : Prop := ctx_data s !! pos = Some b ∧ bufs s !! b = Some bs.

Lemma data_field_ok s pos b bs n off : has_data s pos b bs → data_field pos n off s = of_opt (load n bs off).
Proof. intros [H1 H2]. unfold data_field, get_data. rewrite H1. cbn. by rewrite H2. Qed.

Lemma get_data_ok s pos b bs : has_data s pos b bs → get_data pos s = Ok bs.
Proof. intros [H1 H2]. unfold get_data. rewrite H1. cbn. by rewrite H2. Qed.

Lemma bytes_at_inside n bs off : 0 <= off → off + Z.of_nat n <= Z.of_nat (length bs) → bytes_at n bs off = Some (take n (drop (Z.to_nat off) bs)).
Proof. intros. unfold bytes_at. by rewrite (proj2 (Z.leb_le _ _)), (proj2 (Z.leb_le _ _)) by lia. Qed.

Lemma shown_ok s pos b bs n off : has_data s pos b bs → 0 <= off → off + Z.of_nat n <= Z.of_nat (length bs) → shown pos n off s = Ok tt.
Proof. intros Hd ? ?. unfold shown. rewrite (get_data_ok _ _ _ _ Hd). cbn [mbind result_bind]. by rewrite bytes_at_inside by lia. Qed.

(** An assignment to a field of the buffer. *)
Lemma set_data_ok s pos b bs n off v : has_data s pos b bs → 0 <= off → off + Z.of_nat n <= Z.of_nat (length bs) →
  let bs' := put bs (Z.to_nat off) (le_bytes n v) in let s' := s <| bufs ::= <[b := bs']> |> in
  set_data pos n off v s = Ok s' ∧ has_data s' pos b bs' ∧ length bs' = length bs.
Proof.
  intros Hd ? ? bs' s'. split; [|split].
  - unfold set_data. rewrite (get_data_ok _ _ _ _ Hd). cbn [mbind result_bind]. rewrite store_in by lia. cbn.
    unfold put_data. by rewrite (proj1 Hd).
  - split; [exact (proj1 Hd)|]. apply lookup_insert_eq.
  - subst bs'. rewrite length_put; [done|]. rewrite length_le_bytes. lia.
Qed.

(** The transfer of a buffer into a new block, if the context has none that is large
    enough, and into the block that it has otherwise. *)
Definition regrown (pos : Z) (bytes : list Z) (s : adm) : adm :=
  s <| bufs ::= fun m => <[next_buf s := bytes]> (match ctx_data s !! pos with Some b => delete b m | None => m end) |>
    <| ctx_data ::= <[pos := next_buf s]> |> <| next_buf ::= Z.succ |>.

Lemma put_all bs bytes : (length bytes <= length bs)%nat → put_bytes bs 0 bytes = Some (bytes ++ drop (length bytes) bs).
Proof. intros. by rewrite put_bytes_in by lia. Qed.

Lemma data_fetch_grow pos bytes s : (∀ b bs, has_data s pos b bs → (length bs < length bytes)%nat) →
  (∀ b, ctx_data s !! pos = Some b → is_Some (bufs s !! b)) → bytes ≠ [] → data_fetch pos bytes s = Ok (regrown pos bytes s).
Proof.
  intros Hc Hl Hne. unfold data_fetch. rewrite (proj2 (Nat.ltb_lt _ _)).
  2: { destruct (ctx_data s !! pos) as [b|] eqn:E; [|destruct bytes; [done|cbn; lia]]. destruct (Hl b eq_refl) as [bs Eb]. rewrite Eb. by apply (Hc b bs). }
  cbn -[Z.succ put_bytes]. rewrite lookup_insert_eq. cbn -[Z.succ put_bytes]. rewrite lookup_insert_eq. cbn -[Z.succ put_bytes].
  rewrite put_all by (rewrite length_replicate; lia). cbn -[Z.succ]. rewrite drop_ge, app_nil_r, insert_insert_eq by (rewrite length_replicate; lia). done.
Qed.

Lemma data_fetch_keep pos bytes s b bs : has_data s pos b bs → (length bytes <= length bs)%nat →
  data_fetch pos bytes s = Ok (s <| bufs ::= <[b := bytes ++ drop (length bytes) bs]> |>).
Proof.
  intros [E1 E2] Hl. unfold data_fetch. rewrite E1, E2. cbn [default from_option id]. rewrite (proj2 (Nat.ltb_ge _ _)), E1, E2 by lia.
  cbn [of_opt mbind result_bind]. by rewrite put_all by lia.
Qed.

(** ** Transmit queues *)

(** The arrays of the device that the command for the transmit queues uses. *)
Record queues_ok (s : adm) : Prop := {
  qs_ctx : length (ctx_addr s) = Z.to_nat 2048;
  qs_ctxs : Forall (fun c => length c = 22%nat) (ctx_addr s);
  qs_ena : length (qtx_ena s) = Z.to_nat 2048;
  qs_len : length (txqs s) = Z.to_nat NUM_QUEUES;
  qs_txqs : Forall txq_ok (txqs s)
}.

(** The number of descriptors in the context of a queue. *)
Definition ctx_qlen (ctx : list Z) : Z := (le (take 4 (drop 16 ctx)) .>> 7) .& Z.ones 14.

(** Storing a context and enabling its queue. *)
Definition enable_txq (idx : Z) (ctx : list Z) (s : adm) : result (adm * option started) :=
  ctxs ← E810Lan.add_txqs idx ctx (ctx_addr s);
  ena ← of_opt (wr (qtx_ena s) idx QRX_CTRL_QENA_REQ_M);
  '(ena, qs, eff) ← qena_updated (tx_queue ctxs) idx ena (txqs s);
  Ok (s <| ctx_addr := ctxs |> <| qtx_ena := ena |> <| txqs := qs |>, eff).

(** A queue that the device does not have, or one without descriptors. *)
Definition bad_txq (idx : Z) (ctx : list Z) (s : adm) : Prop :=
  NUM_QUEUES <= idx ∨ ∃ l, rd (txqs s) idx = Some l ∧ enabled (lq l) = false ∧ ctx_qlen ctx = 0.

Lemma tx_queue_qlen ctxs idx ctx q : rd ctxs idx = Some ctx → length ctx = 22%nat →
  ∃ q', tx_queue ctxs idx q = Ok q' ∧ E810Queue.len q' = ctx_qlen ctx.
Proof.
  intros E Hl. unfold tx_queue. rewrite E. cbn [of_opt mbind result_bind]. unfold tx_initialize. rewrite !load_take by lia. by eexists.
Qed.

Lemma tx_queue_abort ctxs idx q : tx_queue ctxs idx q ≠ Abort.
Proof. unfold tx_queue, tx_initialize, of_opt, mbind, result_bind. repeat case_match; simplify_eq; done. Qed.

Lemma impl_iff (P Q : Prop) : P → (P → Q) ↔ Q.
Proof. tauto. Qed.

Lemma enable_txq_ok idx ctx s : queues_ok s → length ctx = 22%nat →
  (0 <= idx → enable_txq idx ctx s = Undef ↔ bad_txq idx ctx s) ∧ enable_txq idx ctx s ≠ Abort ∧
  ∀ s' eff, enable_txq idx ctx s = Ok (s', eff) → queues_ok s' ∧ ctx_addr s' = <[Z.to_nat idx := ctx]> (ctx_addr s) ∧
    ∃ l', rd (txqs s') idx = Some l' ∧ enabled (lq l') = true.
Proof.
  intros [Q1 Q2 Q3 Q4 Q5] Hc. unfold enable_txq, E810Lan.add_txqs, bad_txq, NUM_QUEUES in *. rewrite bytes_at_inside by lia. rewrite drop_0, take_ge by lia. cbn [of_opt mbind result_bind].
  destruct (Z.leb_spec 0 idx) as [Hi|Hi].
  2: { assert (wr (ctx_addr s) idx ctx = None) as -> by (unfold wr; by rewrite (proj2 (Z.leb_gt 0 idx))). cbn. split; [lia|split; [congruence|by intros]]. }
  rewrite (impl_iff _ _ Hi). destruct (Z.ltb_spec idx 2048) as [Hlt|Hge].
  2: { rewrite (wr_out (ctx_addr s)) by lia. cbn. split; [split; [intros _; left; lia|by intros]|split; [congruence|by intros]]. }
  pose proof (wr_in_range (ctx_addr s) idx ctx ltac:(lia)) as Hw. rewrite Hw, wr_in_range by lia. cbn [of_opt mbind result_bind].
  set (ctxs := <[_ := ctx]> _) in *. set (ena := <[_ := _]> _).
  assert (u16 idx = idx) as Hu by (apply wrap_small; unfold in_width; lia). assert (Forall (fun c => length c = 22%nat) ctxs) as Hcs by (by apply Forall_insert).
  assert (rd ctxs idx = Some ctx) as Hr by (by apply (rd_wr_eq _ _ _ _ Hw)).
  assert (rd ena idx = Some 1) as He by (eapply rd_wr_eq, wr_in_range; lia).
  assert (∀ i, 0 <= i < Z.of_nat (length (txqs s)) → init_ok (tx_queue ctxs i)) as Hinit.
  { intros i Hb. apply tx_queue_ok; [done|]. unfold ctxs. rewrite length_insert. lia. }
  destruct (qena_updated_ok (tx_queue ctxs) idx ena (txqs s)) as [H1 H2]; [by eapply list.Forall_impl; [exact Q5|]; intros ? []|done|unfold ena; rewrite length_insert; lia|].
  destruct (qena_request (tx_queue ctxs) idx ena (txqs s) 1 Q5) as [H3 H4]; [intros; apply tx_queue_abort|done|unfold ena; rewrite length_insert; lia|by rewrite Hu|done|].
  assert (qena_updated (tx_queue ctxs) idx ena (txqs s) = Undef ↔ 1536 <= idx ∨ ∃ l, rd (txqs s) idx = Some l ∧ enabled (lq l) = false ∧ ctx_qlen ctx = 0) as HU.
  { rewrite H1, Hu. unfold no_descriptors. rewrite Hu, He. replace (Z.of_nat (length (txqs s))) with 1536 by lia. apply or_iff_compat_l. split.
    - intros (reg & l & q & _ & El & _ & Een & Eq & E0). exists l. split_and!; [done..|]. destruct (tx_queue_qlen ctxs idx ctx (lq l) Hr Hc) as (q' & Eq' & El'). congruence.
    - intros (l & El & Een & E0). destruct (tx_queue_qlen ctxs idx ctx (lq l) Hr Hc) as (q' & Eq' & El'). exists 1, l, q'. split_and!; try done. congruence. }
  destruct (qena_updated _ _ _ _) as [[[ena' qs'] eff']| |]; cbn [mbind result_bind]; [|done|].
  - split; [split; [done|intros H; by apply HU in H]|]. split; [done|]. intros s' eff [= <- _]. destruct (H2 _ _ _ eq_refl) as (_ & L1 & L2). destruct (H4 _ _ _ eq_refl) as (F1 & l' & F2 & F3).
    rewrite Hu in F2. split; [|split; [done|by exists l']]. split; cbn; [unfold ctxs; by rewrite length_insert|done|rewrite L2; unfold ena; by rewrite length_insert|by rewrite L1|done].
  - split; [|done]. split; [intros _; by apply HU|done].
Qed.

(** ** Scheduling nodes *)

(** Element [i] of the command. *)
Definition elem (bs : list Z) (i : Z) : list Z := take 24 (drop (Z.to_nat (8 + 24 * i)) bs).
Definition named (bs : list Z) (i teid : Z) : list Z := put (elem bs i) 4 (le_bytes 4 teid).

(** After [j] elements. *)
Definition adding (s : adm) (pos b : Z) (bs : list Z) (j : Z) (s' : adm) : Prop :=
  ctx_data s' = ctx_data s ∧ next_buf s' = next_buf s ∧ last_returned_node s' = last_returned_node s + j ∧
  (∀ b', b' ≠ b → bufs s' !! b' = bufs s !! b') ∧
  (∀ k, 0 <= k < j → sched_nodes s' !! (last_returned_node s + k) = Some (b, 8 + 24 * k)) ∧
  ∃ bs', bufs s' !! b = Some bs' ∧ length bs' = length bs ∧
    (∀ k, 0 <= k < j → elem bs' k = named bs k (last_returned_node s + k)) ∧
    (∀ k, j <= k → elem bs' k = elem bs k).

Lemma elem_put_ne bs i k v : 0 <= i → 0 <= k → i ≠ k → 8 + 24 * i + 24 <= Z.of_nat (length bs) →
  elem (put bs (Z.to_nat (8 + 24 * i + 4)) (le_bytes 4 v)) k = elem bs k.
Proof. intros. apply sub_put_out; rewrite length_le_bytes; lia. Qed.

Lemma elem_put_eq bs i v : 0 <= i → 8 + 24 * i + 24 <= Z.of_nat (length bs) →
  elem (put bs (Z.to_nat (8 + 24 * i + 4)) (le_bytes 4 v)) i = named bs i v.
Proof.
  intros. unfold elem, named. rewrite sub_put_in by (rewrite ?length_le_bytes; lia). f_equal. lia.
Qed.

Lemma adding_step s pos b bs j s1 : ctx_data s !! pos = Some b → 0 <= j → 8 + 24 * j + 24 <= Z.of_nat (length bs) →
  adding s pos b bs j s1 → ∃ s2,
    (s ← set_data pos 4 (8 + 24 * j + 4) (last_returned_node s1) s1;
     b ← of_opt (ctx_data s !! pos);
     _ ← shown pos 24 (8 + 24 * j) s;
     Ok (s <| sched_nodes ::= <[last_returned_node s := (b, 8 + 24 * j)]> |> <| last_returned_node ::= Z.succ |>)) = Ok s2 ∧
    adding s pos b bs (j + 1) s2.
Proof.
  intros Hb Hj Hlen (Hc & Hx & Hr & Ho & Hn & bs1 & Hb1 & Hl1 & Hd & Hrest).
  destruct (set_data_ok s1 pos b bs1 4 (8 + 24 * j + 4) (last_returned_node s1)) as (E & [Hc' Hb'] & Hl');
    [by split; [rewrite Hc|]|lia..|]. rewrite E. cbn [mbind result_bind]. rewrite Hc'. cbn [of_opt mbind result_bind].
  rewrite (shown_ok _ pos b _ 24 (8 + 24 * j) (conj Hc' Hb')) by lia. cbn [mbind result_bind].
  eexists. split; [done|]. unfold adding. cbn -[le_bytes Z.add Z.mul]. rewrite Hr. split_and!; [done|done|lia| | |].
  - intros b' Hne. rewrite lookup_insert_ne by done. by apply Ho.
  - intros k Hk. destruct (decide (k = j)) as [->|]; [apply lookup_insert_eq|].
    rewrite lookup_insert_ne by lia. apply Hn. lia.
  - eexists. rewrite Hr in Hb', Hl'. split; [exact Hb'|]. split; [lia|]. split; intros k Hk.
    + destruct (decide (k = j)) as [->|].
      * rewrite elem_put_eq by lia. unfold named. by rewrite Hrest by lia.
      * rewrite elem_put_ne by lia. apply Hd. lia.
    + rewrite elem_put_ne by lia. apply Hrest. lia.
Qed.

Lemma add_sched_elems_ok s pos b bs n : has_data s pos b bs → load 2 bs 4 = Some n → 0 <= n →
  8 + 24 * n <= Z.of_nat (length bs) → ∃ s', add_sched_elems pos s = Ok s' ∧ adding s pos b bs n s'.
Proof.
  intros Hd Hn Hn0 Hl. unfold add_sched_elems. rewrite (shown_ok _ _ _ _ _ _ Hd) by lia. cbn [of_opt mbind result_bind].
  rewrite (data_field_ok _ _ _ _ _ _ Hd), Hn. cbn [of_opt mbind result_bind].
  destruct Hd as [Hc Hb].
  destruct (for_res_total (adding s pos b bs) (Z.to_nat n) 0 (fun i s =>
    s ← set_data pos 4 (8 + 24 * i + 4) (last_returned_node s) s;
    b ← of_opt (ctx_data s !! pos);
    _ ← shown pos 24 (8 + 24 * i) s;
    Ok (s <| sched_nodes ::= <[last_returned_node s := (b, 8 + 24 * i)]> |> <| last_returned_node ::= Z.succ |>)) s)
    as (s' & E & Hs').
  - split_and!; [done|done|lia|done|lia|]. exists bs. split_and!; try done. lia.
  - intros j s1 Hj. apply adding_step; [done|lia..].
  - exists s'. split; [exact E|]. by replace (0 + Z.of_nat (Z.to_nat n)) with n in Hs' by lia.
Qed.

Lemma dynamic_node teid : 60 <= teid → static_node teid = None.
Proof. intros. unfold static_node. cbn [existsb]. repeat rewrite (proj2 (Z.eqb_neq _ _)) by lia. done. Qed.

(** [get_sched_elems] for a node that is not one of the static tree. *)
Lemma get_dynamic s pos b bs teid : has_data s pos b bs → load 4 bs 4 = Some teid → 60 <= teid →
  get_sched_elems pos s =
  match sched_nodes s !! teid with
  | Some p => elem ← pointed p s; bs ← of_opt (put_bytes bs 0 elem); put_data pos bs s
  | None => Ok s
  end.
Proof.
  intros Hd Ht Hge. unfold get_sched_elems. rewrite (data_field_ok _ _ _ _ _ _ Hd), Ht. cbn [of_opt mbind result_bind].
  rewrite (dynamic_node teid Hge). cbn [mbind result_bind]. rewrite bool_decide_true by done. cbn [orb].
  destruct (sched_nodes s !! teid); [|done]. by rewrite (get_data_ok _ _ _ _ Hd).
Qed.

Section sched.
Context (s : adm) (pos pos' b b' : Z) (bs bs' : list Z) (n i : Z).
Context (Hb : has_data s pos b bs) (Hb' : has_data s pos' b' bs') (Hne : b ≠ b').
Context (Hn : load 2 bs 4 = Some n) (Hlen : 8 + 24 * n <= Z.of_nat (length bs)) (Hi : 0 <= i < n).
Context (Hlast : 60 <= last_returned_node s).
Context (Ht : load 4 bs' 4 = Some (last_returned_node s + i)) (Hlen' : 24 <= Z.of_nat (length bs')).

(** Round trip of the scheduling tree: after [add_sched_elems] has added [n] elements,
    [get_sched_elems] for the identifier that it returned for element [i] answers with that
    element, its identifier filled in, as long as the buffer is still there. *)
Theorem sched_elem_roundtrip : ∃ s1 s2,
  add_sched_elems pos s = Ok s1 ∧ get_sched_elems pos' s1 = Ok s2 ∧
  data_prefix pos' 24 s2 = Ok (named bs i (last_returned_node s + i)).
Proof using All.
  destruct (add_sched_elems_ok s pos b bs n) as (s1 & E1 & Hc & _ & Hr & Ho & Hs & bs1 & Hb1 & Hl1 & Hd & _); [done..|lia|lia|].
  assert (has_data s1 pos' b' bs') as Hd1.
  { split; [rewrite Hc; apply Hb'|]. rewrite Ho by done. apply Hb'. }
  exists s1. rewrite (get_dynamic s1 pos' b' bs' _ Hd1 Ht) by lia. rewrite Hs by lia. unfold pointed. cbn [fst snd].
  rewrite Hb1. cbn [of_opt mbind result_bind]. unfold bytes_at. rewrite (proj2 (Z.leb_le _ _)), (proj2 (Z.leb_le _ _)) by lia.
  cbn [andb of_opt mbind result_bind]. fold (elem bs1 i). rewrite Hd by done.
  assert (length (named bs i (last_returned_node s + i)) = 24%nat) as Hln.
  { unfold named, elem. rewrite length_put by (rewrite length_le_bytes, length_sub; lia). apply length_sub. lia. }
  rewrite put_bytes_in by lia. cbn [of_opt mbind result_bind]. unfold put_data. rewrite (proj1 Hd1). cbn [of_opt mbind result_bind].
  eexists. split; [exact E1|]. split; [done|]. unfold data_prefix. change (24 =? 0) with false. cbv iota.
  erewrite get_data_ok by (split; [exact (proj1 Hd1)|apply lookup_insert_eq]). cbn [mbind result_bind].
  unfold bytes_at. rewrite (proj2 (Z.leb_le _ _)), (proj2 (Z.leb_le _ _)) by (rewrite ?length_put; lia).
  cbn [andb of_opt]. do 2 f_equal. rewrite drop_0. unfold put.
  change (Z.to_nat 0) with O. rewrite take_0. cbn [app]. rewrite take_app_le, take_ge by lia. done.
Qed.

(** The tree keeps pointers into the buffer of the command: once the context receives a
    command with a longer buffer, a query for a node that was added through the old one
    reads freed memory. *)
Theorem sched_elem_dangling bytes : (length bs < length bytes)%nat → bufs s !! next_buf s = None → pos ≠ pos' →
  ∃ s1 s2, add_sched_elems pos s = Ok s1 ∧ data_fetch pos bytes s1 = Ok s2 ∧ get_sched_elems pos' s2 = Undef.
Proof using All.
  intros Hlong Hfresh Hpos.
  destruct (add_sched_elems_ok s pos b bs n) as (s1 & E1 & Hc & Hx & Hr & Ho & Hs & bs1 & Hb1 & Hl1 & _ & _); [done..|lia|lia|].
  assert (ctx_data s1 !! pos = Some b) as Hc1 by (rewrite Hc; apply Hb).
  assert (next_buf s ≠ b ∧ next_buf s ≠ b') as [Hnb Hnb'].
  { split; intros E; rewrite E in Hfresh; [rewrite (proj2 Hb) in Hfresh|rewrite (proj2 Hb') in Hfresh]; done. }
  exists s1, (regrown pos bytes s1). split; [done|]. split.
  { apply data_fetch_grow; [|intros ? [= <-]%(eq_trans (eq_sym Hc1)); by eexists|by destruct bytes; cbn in *; [lia|]].
    intros b1 bs2 [[= <-]%(eq_trans (eq_sym Hc1)) [= <-]%(eq_trans (eq_sym Hb1))]. lia. }
  unfold regrown. rewrite Hc1, Hx. match goal with |- get_sched_elems _ ?t = _ => assert (has_data t pos' b' bs') as Hd2 end.
  { split; cbn [ctx_data bufs set_field].
    - rewrite lookup_insert_ne by done. rewrite Hc. apply Hb'.
    - rewrite !lookup_insert_ne, lookup_delete_ne by done. rewrite Ho by done. apply Hb'. }
  rewrite (get_dynamic _ _ _ _ _ Hd2 Ht) by lia. cbn [sched_nodes set_field]. rewrite Hs by lia. unfold pointed. cbn [bufs fst set_field].
  rewrite !lookup_insert_ne, lookup_delete_eq by done. done.
Qed.
End sched.

(** ** Well-formed states *)

(** The store: blocks are numbered in the order of their allocation; a pointer of the
    scheduling tree leads into a block that was allocated once, and to a whole element of it
    as long as the block has not been freed. *)
Definition store_ok (s : adm) : Prop :=
  (∀ b, is_Some (bufs s !! b) → b < next_buf s) ∧
  (∀ teid b off, sched_nodes s !! teid = Some (b, off) → b < next_buf s ∧ 0 <= off ∧
     ∀ bs, bufs s !! b = Some bs → off + 24 <= Z.of_nat (length bs)).

(** Every context has a buffer of its own that exists, and the arrays have their sizes. *)
Record adm_wf (s : adm) : Prop := {
  wf_live pos b : ctx_data s !! pos = Some b → is_Some (bufs s !! b);
  wf_own pos pos' b : ctx_data s !! pos = Some b → ctx_data s !! pos' = Some b → pos = pos';
  wf_store : store_ok s;
  wf_queues : queues_ok s;
  wf_topo : length (topo_elem s) = 224%nat
}.

(** What processing a command keeps. *)
Definition same_shape (s s' : adm) : Prop :=
  ctx_data s' = ctx_data s ∧ next_buf s' = next_buf s ∧ (∀ b, length <$> bufs s' !! b = length <$> bufs s !! b) ∧
  (store_ok s → store_ok s') ∧ (queues_ok s → queues_ok s') ∧
  (length (topo_elem s) = 224%nat → length (topo_elem s') = 224%nat).

#[export] Instance same_shape_preorder : PreOrder same_shape.
Proof.
  split.
  - intros s. by split_and!.
  - intros s1 s2 s3 (A1 & A2 & A3 & A4 & A5 & A6) (B1 & B2 & B3 & B4 & B5 & B6). split_and!; try congruence; auto.
Qed.

(** The blocks of [s'] are those of [s]. *)
Lemma same_blocks s s' b : (length <$> bufs s' !! b = length <$> bufs s !! b) →
  (is_Some (bufs s' !! b) ↔ is_Some (bufs s !! b)) ∧
  ∀ bs, bufs s' !! b = Some bs → ∃ bs0, bufs s !! b = Some bs0 ∧ length bs0 = length bs.
Proof.
  intros E. destruct (bufs s' !! b) as [x|], (bufs s !! b) as [y|]; try done. split; [by split; intros; eexists|].
  intros bs [= <-]. exists y. split; [done|]. by injection E.
Qed.

Lemma store_same s s' : next_buf s' = next_buf s → (∀ b, length <$> bufs s' !! b = length <$> bufs s !! b) →
  (∀ teid b off, sched_nodes s' !! teid = Some (b, off) → sched_nodes s !! teid = Some (b, off) ∨
     0 <= off ∧ ∃ bs, bufs s !! b = Some bs ∧ off + 24 <= Z.of_nat (length bs)) → store_ok s → store_ok s'.
Proof.
  intros E1 E2 E3 [H1 H2]. split; rewrite E1.
  - intros b Hb. apply H1. by apply (same_blocks s s' b (E2 b)).
  - intros teid b off Hn. destruct (E3 teid b off Hn) as [Hn'|(Ho & bs & Hbs & Hl)].
    + destruct (H2 teid b off Hn') as (H3 & H4 & H5). split_and!; [done..|]. intros bs Hbs. destruct (proj2 (same_blocks s s' b (E2 b)) bs Hbs) as (bs0 & Hb0 & <-). by apply H5.
    + split_and!; [apply H1; by eexists|done|]. intros bs' Hbs'. destruct (proj2 (same_blocks s s' b (E2 b)) bs' Hbs') as (bs0 & Hb0 & <-). congruence.
Qed.

Lemma same_shape_wf s s' : same_shape s s' → adm_wf s → adm_wf s'.
Proof.
  intros (E1 & E2 & E3 & E4 & E5 & E6) []. split; rewrite ?E1; auto.
  intros pos b Hb. apply (same_blocks s s' b (E3 b)). eauto.
Qed.

(** A new content for a block. *)
Lemma shape_block s b x bs : bufs s !! b = Some x → length bs = length x → same_shape s (s <| bufs ::= <[b := bs]> |>).
Proof.
  intros Hx Hl. assert (∀ b', length <$> bufs (s <| bufs ::= <[b := bs]> |>) !! b' = length <$> bufs s !! b') as Hb.
  { intros b'. cbn. destruct (decide (b' = b)) as [->|]; [rewrite lookup_insert_eq, Hx; cbn; by rewrite Hl|]. by rewrite lookup_insert_ne by done. }
  split_and!; try done; [|by intros []]. apply store_same; [done|done|]. by left.
Qed.

Lemma shape_put pos bs s s' x : put_data pos bs s = Ok s' → get_data pos s = Ok x → length bs = length x → same_shape s s'.
Proof.
  unfold put_data, get_data. intros Hp Hx Hl. destruct (ctx_data s !! pos) as [b|]; [|done]. cbn in *.
  injection Hp as <-. apply of_opt_ok in Hx. by eapply shape_block.
Qed.

Lemma length_put_bytes bs off x bs' : put_bytes bs off x = Some bs' → length bs' = length bs.
Proof. unfold put_bytes. case_match eqn:E; [|done]. bool_to_prop. intros [= <-]. rewrite length_put; lia. Qed.

Lemma shape_set pos n off v s s' : set_data pos n off v s = Ok s' → same_shape s s'.
Proof.
  unfold set_data. intros (bs & Hg & Hb)%bind_ok. apply bind_ok in Hb as (bs' & Hs & Hp).
  apply of_opt_ok, length_put_bytes in Hs. by eapply shape_put.
Qed.

Lemma shape_for n i (body : Z → adm → result adm) s s' : (∀ j s s', body j s = Ok s' → same_shape s s') →
  for_res n i body s = Ok s' → same_shape s s'.
Proof.
  intros Hb. revert i s. induction n as [|n IH]; intros i s; cbn; [by intros [= <-]|].
  intros (s1 & H1 & H2)%bind_ok. etransitivity; [by eapply Hb|by eapply IH].
Qed.

(** Follow the operations that return. *)
Ltac shape_step :=
  match goal with
  | |- same_shape ?s ?s => reflexivity
  | Hb : (_ ≫= _) = Ok _ |- _ => let x := fresh "x" in let H1 := fresh "H1" in let H2 := fresh "H2" in
      apply bind_ok in Hb as (x & H1 & H2)
  | Hs : set_data _ _ _ _ ?s = Ok ?s1 |- same_shape ?s ?s2 => transitivity s1; [exact (shape_set _ _ _ _ _ _ Hs)|clear Hs]
  | Hs : Ok _ = Ok _ |- _ => injection Hs as Hs
  | Hs : ?s = ?s' |- same_shape ?s ?s' => rewrite Hs; reflexivity
  | Hs : ?s = ?s' |- same_shape _ ?s' => is_var s'; subst s'
  end.

Lemma shape_alloc pos d s s' : alloc_res pos d s = Ok s' → same_shape s s'.
Proof.
  unfold alloc_res. intros (_ & _ & Hf)%bind_ok. revert Hf. apply shape_for. intros j s1 s2 Hb. do 2 shape_step. case_match; repeat shape_step.
Qed.

Lemma shown_in pos n off s u : shown pos n off s = Ok u → ∃ b bs, has_data s pos b bs ∧ 0 <= off ∧ off + Z.of_nat n <= Z.of_nat (length bs).
Proof.
  unfold shown, get_data. intros (bs & Hg & Hb)%bind_ok. apply bind_ok in Hg as (b & Hc & Hg). apply of_opt_ok in Hc, Hg.
  apply bind_ok in Hb as (x & Hx & _). apply of_opt_ok in Hx. unfold bytes_at in Hx. case_match eqn:E; [|done]. bool_to_prop. by exists b, bs.
Qed.

Lemma shape_add_sched pos s s' : add_sched_elems pos s = Ok s' → same_shape s s'.
Proof.
  unfold add_sched_elems. intros (_ & _ & Hf)%bind_ok. apply bind_ok in Hf as (n & _ & Hf). revert Hf. apply shape_for. intros j s1 s2 Hb.
  apply bind_ok in Hb as (s3 & Hs & Hb). transitivity s3; [by eapply shape_set|]. apply bind_ok in Hb as (b & Hc & Hb). apply of_opt_ok in Hc.
  apply bind_ok in Hb as (u & (b' & bs & [Hc' Hbs] & Ho & Hl)%shown_in & Hb). injection Hb as <-. split_and!; try done; [|by intros []].
  apply store_same; [done|done|]. cbn [sched_nodes set_field]. intros teid b1 off. destruct (decide (teid = last_returned_node s3)) as [->|].
  - rewrite lookup_insert_eq. intros [= <- <-]. right. split; [done|]. exists bs. split; [congruence|]. lia.
  - rewrite lookup_insert_ne by done. by left.
Qed.

Lemma shape_get_sched pos s s' : get_sched_elems pos s = Ok s' → same_shape s s'.
Proof.
  unfold get_sched_elems. intros (teid & _ & Hb)%bind_ok. apply bind_ok in Hb as (s1 & Hn & Hb). transitivity s1.
  - destruct (static_node teid); [|by injection Hn as ->]. unfold set_node in Hn. repeat shape_step.
  - case_match; [|by injection Hb as ->]. destruct (sched_nodes s1 !! teid); [|by injection Hb as ->].
    apply bind_ok in Hb as (elem & _ & Hb). apply bind_ok in Hb as (bs & Hg & Hb). apply bind_ok in Hb as (bs' & Hs & Hp).
    apply of_opt_ok, length_put_bytes in Hs. by eapply shape_put.
Qed.

Lemma shape_remove pos s s' : remove_sw_rules pos s = Ok s' → same_shape s s'.
Proof. unfold remove_sw_rules. intros Hb. shape_step. case_match; repeat shape_step. Qed.

(** A change outside the buffers. *)
Lemma shape_set_after pos n off v s0 s s' : same_shape s0 s → set_data pos n off v s = Ok s' → same_shape s0 s'.
Proof. intros. etransitivity; [done|]. by eapply shape_set. Qed.

Lemma shape_add_rules inst pos s s' : add_sw_rules inst pos s = Ok s' → same_shape s s'.
Proof.
  unfold add_sw_rules. intros (bs & _ & Hb)%bind_ok. apply bind_ok in Hb as (rule & _ & Hb).
  apply bind_ok in Hb as (? & _ & Hb). apply bind_ok in Hb as ([? sw] & _ & Hb). apply bind_ok in Hb as (s1 & H1 & Hb). apply bind_ok in Hb as (s2 & H2 & H3).
  eapply shape_set_after; [|exact H3]. eapply shape_set_after; [|exact H2]. eapply shape_set_after; [|exact H1]. by split_and!; try done; intros [].
Qed.

(** [add_txqs] up to the queue. *)
Definition txq_buffer (pos : Z) (s : adm) : result (adm * list Z * Z) :=
  idx ← data_field pos 2 8 s;
  _ ← shown pos 48 8 s;
  s ← set_data pos 4 0 (last_used_parent_node s) s;
  s ← set_data pos 1 4 1 s;
  s ← set_data pos 4 12 (last_returned_node s) s;
  s ← set_data pos 1 40 5 s;
  s ← set_data pos 2 46 100 s;
  s ← set_data pos 2 50 100 s;
  bs ← get_data pos s;
  ctx ← of_opt (bytes_at 22 bs 16);
  Ok (s, ctx, idx).

Lemma bind_assoc {A B C} (m : result A) (f : A → result B) (g : B → result C) : (m ≫= f) ≫= g = m ≫= (fun a => f a ≫= g).
Proof. by destruct m. Qed.

Lemma bind_ext {A B} (m : result A) (f g : A → result B) : (∀ a, f a = g a) → m ≫= f = m ≫= g.
Proof. destruct m; cbn; auto. Qed.

Lemma add_txqs_eq pos s : add_txqs pos s = ('(s1, ctx, idx) ← txq_buffer pos s; enable_txq idx ctx s1).
Proof. unfold add_txqs, txq_buffer. repeat (rewrite bind_assoc; apply bind_ext; intros ?). done. Qed.

Lemma set_data_bufs pos n off v s s' : set_data pos n off v s = Ok s' → ∃ m, s' = s <| bufs := m |>.
Proof.
  unfold set_data, put_data. intros (? & _ & Hb)%bind_ok. apply bind_ok in Hb as (? & _ & Hb). apply bind_ok in Hb as (b & _ & [= <-]). by eexists.
Qed.

Lemma txq_buffer_shape pos s s1 ctx idx : txq_buffer pos s = Ok (s1, ctx, idx) →
  same_shape s s1 ∧ (∃ m, s1 = s <| bufs := m |>) ∧ length ctx = 22%nat ∧ data_field pos 2 8 s = Ok idx.
Proof.
  unfold txq_buffer. intros (i & Hi & Hb)%bind_ok. apply bind_ok in Hb as (u & _ & Hb).
  do 6 (let s1 := fresh "s" in let Hs := fresh "Hs" in apply bind_ok in Hb as (s1 & Hs & Hb)).
  apply bind_ok in Hb as (bs & _ & Hb). apply bind_ok in Hb as (c & Hc & [= <- <- <-]). split; [|split; [|split; [|done]]].
  - repeat (etransitivity; [by eapply shape_set|]). reflexivity.
  - repeat match goal with H : set_data _ _ _ _ _ = Ok _ |- _ => apply set_data_bufs in H as [? ->] end. by eexists.
  - apply of_opt_ok in Hc. unfold bytes_at in Hc. case_match eqn:E; [|done]. bool_to_prop. injection Hc as <-. apply length_sub. lia.
Qed.

Lemma no_abort_txq_buffer pos s : no_abort (txq_buffer pos s).
Proof. unfold txq_buffer, get_data. auto 40 with no_abort. Qed.

Lemma shape_txqs pos s s' eff : add_txqs pos s = Ok (s', eff) → same_shape s s'.
Proof.
  rewrite add_txqs_eq. intros ([[s1 ctx] idx] & (Hs & _ & Hc & _)%txq_buffer_shape & He)%bind_ok. transitivity s1; [done|].
  unfold enable_txq in He. pose proof He as He'. apply bind_ok in He as (ctxs & _ & He). apply bind_ok in He as (ena & _ & He). apply bind_ok in He as ([[ena' qs] e] & _ & [= <- _]).
  split_and!; try done. intros Hq. by apply (enable_txq_ok idx ctx s1 Hq Hc) in He' as [? _].
Qed.

Lemma shape_no_effect s m s' c eff : no_effect s m = Ok (s', c, eff) → s' = s.
Proof. by intros (_ & ? & _)%no_effect_ok. Qed.

Lemma shape_with_data pos d m s s' c eff : (∀ s1, m = Ok s1 → same_shape s s1) → with_data pos d m = Ok (s', c, eff) → same_shape s s'.
Proof. intros Hm (Hs & _ & _)%with_data_ok. by apply Hm. Qed.

Lemma ok_inj {A} (a b : A) : Ok a = Ok b → a = b.
Proof. congruence. Qed.

Ltac same_state := lazymatch goal with |- same_shape ?a ?b => tryif constr_eq a b then exact (PreOrder_Reflexive a) else idtac end.

Lemma process_shape junk mac inst pos d s s' c eff : process junk mac inst pos d s = Ok (s', c, eff) → same_shape s s'.
Proof.
  unfold process. cbv zeta. next_cmd Ho.
  all: lazymatch goal with
  | |- no_effect ?s0 _ = _ → _ => intros ->%shape_no_effect
  | |- with_data _ _ _ = _ → _ => apply shape_with_data; intros s1 Hs1
  | |- _ => intros (x & Hx & Hb)%bind_ok; try apply bind_ok in Hb as (y & _ & Hb)
  end.
  all: try same_state; lazymatch goal with
  | Hs : Ok _ = Ok _ |- _ => apply ok_inj in Hs as <-; same_state
  | Hs : alloc_res _ _ _ = _ |- _ => exact (shape_alloc _ _ _ _ Hs)
  | Hs : add_sched_elems _ _ = _ |- _ => exact (shape_add_sched _ _ _ Hs)
  | Hs : set_data _ _ _ _ _ = _ |- _ => exact (shape_set _ _ _ _ _ _ Hs)
  | Hs : add_sw_rules _ _ _ = _ |- _ => exact (shape_add_rules _ _ _ _ Hs)
  | Hs : shown _ _ _ _ = _ |- _ => apply shape_no_effect in Hb as ->; same_state
  | Hs : remove_sw_rules _ _ = _ |- _ => apply shape_no_effect in Hb as ->; exact (shape_remove _ _ _ Hs)
  | Hs : get_sched_elems _ _ = _ |- _ => apply shape_no_effect in Hb as ->; exact (shape_get_sched _ _ _ Hs)
  | |- _ => same_state
  end.
  - split_and!; try done. by intros [].
  - case_match; [|reflexivity]. split_and!; try done. by intros [].
  - split_and!; try done; [by intros []|]. apply length_topology.
  - destruct x as [s1 idx]. apply bind_ok in Hb as (c' & _ & Hb). injection Hb as <- _ _. by eapply shape_txqs.
Qed.

Lemma regrown_wf pos bytes s : adm_wf s → adm_wf (regrown pos bytes s).
Proof.
  intros [Hlive Hown [Hnext Hnodes] Hq Ht]. unfold regrown.
  assert (∀ q, ctx_data s !! q = Some (next_buf s) → False) as Hfr by (intros q Hq'; apply Hlive, Hnext in Hq'; lia).
  assert (∀ b bs, (match ctx_data s !! pos with Some b => delete b (bufs s) | None => bufs s end) !! b = Some bs → bufs s !! b = Some bs) as Hold.
  { intros b bs. destruct (ctx_data s !! pos); [|done]. by intros [_ ?]%lookup_delete_Some. }
  split; cbn [ctx_data bufs set_field topo_elem]; [| |split; cbn [bufs next_buf sched_nodes set_field]|by destruct Hq|done].
  - intros p b. destruct (decide (p = pos)) as [->|].
    + rewrite lookup_insert_eq. intros [= <-]. by rewrite lookup_insert_eq.
    + rewrite lookup_insert_ne by done. intros Hp. destruct (decide (b = next_buf s)) as [->|]; [by rewrite lookup_insert_eq|].
      rewrite lookup_insert_ne by done. destruct (ctx_data s !! pos) as [b'|] eqn:Eb; [|by eauto].
      rewrite lookup_delete_ne; [by eauto|]. intros ->. eauto.
  - intros p p' b. destruct (decide (p = pos)) as [->|], (decide (p' = pos)) as [->|]; rewrite ?lookup_insert_eq, ?lookup_insert_ne by done; try done.
    + intros [= <-] Hp. exfalso. eauto.
    + intros Hp [= <-]. exfalso. eauto.
    + eauto.
  - intros b. destruct (decide (b = next_buf s)) as [->|]; [lia|]. rewrite lookup_insert_ne by done. intros [bs Hb%Hold].
    assert (b < next_buf s) by (apply Hnext; by eexists). lia.
  - intros teid b off Hn. destruct (Hnodes teid b off Hn) as (H1 & H2 & H3). split_and!; [lia|done|]. intros bs. rewrite lookup_insert_ne by lia. intros Hb%Hold. auto.
Qed.

(** The bytes of the transfer are in the buffer, those of other contexts stay. *)
Definition arrived (pos : Z) (bytes : list Z) (s s' : adm) : Prop :=
  (bytes ≠ [] → ∃ b bs, has_data s' pos b bs ∧ take (length bytes) bs = bytes) ∧
  ∀ pos' b bs, pos' ≠ pos → has_data s pos' b bs → has_data s' pos' b bs.

Lemma data_fetch_ok pos bytes s : adm_wf s → ∃ s', data_fetch pos bytes s = Ok s' ∧ adm_wf s' ∧ arrived pos bytes s s'.
Proof.
  intros Hwf. pose proof Hwf as [Hlive Hown [Hnext _] _ _]. destruct (ctx_data s !! pos) as [b|] eqn:Ec; [destruct (Hlive pos b Ec) as [bs Eb]; destruct (Nat.leb_spec (length bytes) (length bs)) as [Hl|Hl]|].
  - rewrite (data_fetch_keep pos bytes s b bs) by (by split || done). eexists. split; [done|]. split.
    { eapply same_shape_wf; [|done]. eapply shape_block; [done|]. rewrite length_app, length_drop. lia. }
    split.
    + intros _. exists b, (bytes ++ drop (length bytes) bs). split; [|apply take_app_length]. split; [done|apply lookup_insert_eq].
    + intros pos' b' bs' Hne [H1 H2]. split; [done|]. cbn. rewrite lookup_insert_ne; [done|]. intros <-. eauto.
  - assert (bytes ≠ []) by (intros ->; cbn in Hl; lia). exists (regrown pos bytes s). split; [apply data_fetch_grow|split; [by apply regrown_wf|]]; [|naive_solver|done|].
    { intros b1 bs1 [E1 E2]. by simplify_eq. }
    unfold regrown. split; cbn [ctx_data bufs set_field].
    + intros _. exists (next_buf s), bytes. split; [split; apply lookup_insert_eq|]. by rewrite firstn_all.
    + intros pos' b' bs' Hne [H1 H2]. assert (b' < next_buf s) by (apply Hnext; by eexists). split; cbn [ctx_data bufs set_field].
      * by rewrite lookup_insert_ne.
      * rewrite lookup_insert_ne by lia. rewrite Ec, lookup_delete_ne; [done|]. intros <-. eauto.
  - destruct bytes as [|x bytes].
    { exists s. split; [unfold data_fetch; rewrite Ec; cbn; by rewrite Ec|]. by split; [|split]. }
    exists (regrown pos (x :: bytes) s). split; [apply data_fetch_grow|split; [by apply regrown_wf|]]; [|naive_solver|done|].
    { intros b1 bs1 [E1 E2]. by simplify_eq. }
    unfold regrown. split; cbn [ctx_data bufs set_field].
    + intros _. exists (next_buf s), (x :: bytes). split; [split; apply lookup_insert_eq|]. by rewrite firstn_all.
    + intros pos' b' bs' Hne [H1 H2]. assert (b' < next_buf s) by (apply Hnext; by eexists). split; cbn [ctx_data bufs set_field].
      * by rewrite lookup_insert_ne.
      * rewrite lookup_insert_ne by lia. by rewrite Ec.
Qed.

Lemma command_wf junk mac inst pos d bytes s s' c eff : adm_wf s →
  E810Adminq.command junk mac inst pos d bytes s = Ok (s', c, eff) → adm_wf s'.
Proof.
  intros Hwf (s1 & Hf & Hp)%bind_ok. eapply same_shape_wf; [by eapply process_shape|].
  destruct (nz (flags d .& ICE_AQ_FLAG_RD)); [|by injection Hf as <-].
  destruct (data_fetch_ok pos (take (Z.to_nat (datalen d)) bytes) s Hwf) as (s2 & E & Hwf2 & _). congruence.
Qed.

(** C18. The memory of the admin queue, whatever commands the driver sends: from every
    well-formed state the buffer of a command arrives in full, without leaving the block of its
    context, and without a change to the buffer of another one; a command that completes
    leads to a well-formed state again (every context that has a buffer owns one that exists
    and that no other context has, new blocks are fresh, the pointers of the scheduling tree
    stay inside of their blocks, the arrays keep their sizes and every enabled transmit queue
    has descriptors); and following a pointer of the scheduling tree is undefined exactly if
    its block has been freed. *)
Theorem admin_invariant s : adm_wf s →
  (∀ pos bytes, ∃ s', data_fetch pos bytes s = Ok s' ∧ adm_wf s' ∧ arrived pos bytes s s') ∧
  (∀ junk mac inst pos d bytes s' c eff, E810Adminq.command junk mac inst pos d bytes s = Ok (s', c, eff) → adm_wf s') ∧
  (∀ teid p, sched_nodes s !! teid = Some p → pointed p s = Undef ↔ bufs s !! p.1 = None).
Proof.
  intros Hwf. split; [|split].
  - intros. by apply data_fetch_ok.
  - intros. by eapply command_wf.
  - intros teid [b off] Hn. destruct (proj2 (wf_store s Hwf) teid b off Hn) as (_ & Ho & Hl). unfold pointed. cbn [fst snd].
    destruct (bufs s !! b) as [bs|]; cbn [of_opt mbind result_bind]; [|done]. by rewrite bytes_at_inside by (auto; apply Hl; done).
Qed.

(** ** Commands that fail *)

Lemma no_abort_txqs pos s : queues_ok s → no_abort (add_txqs pos s).
Proof.
  intros Hq. rewrite add_txqs_eq. apply no_abort_bind; [apply no_abort_txq_buffer|]. intros [[s1 ctx] idx] (Hs & _ & Hc & _)%txq_buffer_shape.
  apply (enable_txq_ok idx ctx s1); [by apply Hs|done].
Qed.

Lemma process_abort junk mac inst pos d s : 0 <= datalen d → adm_wf s → opcode d ≠ 0x0404 →
  process junk mac inst pos d s = Abort ↔ ∃ n, response_size d = Some n ∧ datalen d < n.
Proof.
  intros Hd Hwf Hop. unfold process. cbv zeta. next_abort Ho.
  all: try (apply Z.eqb_eq in Ho).
  all: try (eapply aborts_fixed; [unfold response_size; rewrite Ho; reflexivity| |reflexivity];
    rewrite ?length_put, ?length_stack, ?length_le_bytes; cbn [length]; rewrite ?length_stack; done || lia).
  all: try (apply aborts_never; [unfold response_size; rewrite Ho; reflexivity|auto with no_abort]; fail).
  - apply aborts_never; [|auto with no_abort]. apply orb_true_iff in Ho as [Ho|Ho]; apply Z.eqb_eq in Ho;
      unfold response_size; by rewrite Ho.
  - apply aborts_never; [unfold response_size; by rewrite Ho|]. apply no_abort_bind; [auto with no_abort|]. intros s1 _.
    apply no_abort_bind; [auto with no_abort|]. intros bs Hb. apply prefix_length in Hb; [|lia].
    unfold no_effect, desc_complete_indir. by rewrite (proj2 (Z.ltb_ge _ _)) by lia.
  - eapply (aborts_fixed d 0 (topology (topo_elem s))); [unfold response_size; by rewrite Ho| |done].
    by rewrite length_topology by apply (wf_topo s Hwf).
  - done.
  - apply aborts_never; [unfold response_size; by rewrite Ho|]. apply no_abort_bind; [apply no_abort_txqs, (wf_queues s Hwf)|].
    intros [s1 idx] _. apply no_abort_bind; [by apply no_abort_complete_data|done].
  - assert (response_size d = Some (Z.of_nat (length (nvm_answer (pget 2 0 d .| pget 1 2 d .<< 16)).2))) as Hs
      by (unfold response_size; by rewrite Ho).
    unfold nvm_read. destruct (nvm_answer _) as [ret bytes]. by eapply aborts_fixed.
  - apply aborts_never; [|done]. unfold response_size. repeat match goal with Hn : (opcode d =? _) = false |- _ => rewrite ?Hn; clear Hn end. done.
Qed.

(** The commands that use the buffer of their context; the last four only copy it. *)
Definition uses_data (d : ice_aq_desc) : bool :=
  existsb (Z.eqb (opcode d)) [0x0208; 0x0292; 0x02A0; 0x02A2; 0x0401; 0x0404; 0x0C30; 0x0C31] ||
  existsb (Z.eqb (opcode d)) [0x0B02; 0x0B03; 0x040F; 0x0C40] && negb (datalen d =? 0).

Lemma null_get pos s : ctx_data s !! pos = None → get_data pos s = Undef.
Proof. intros E. unfold get_data. by rewrite E. Qed.

Lemma null_complete pos d s : ctx_data s !! pos = None → 0 <= datalen d → complete_data pos d s = Undef ↔ negb (datalen d =? 0) = true.
Proof.
  intros E Hd. unfold complete_data, data_prefix. rewrite null_get by done. destruct (Z.eqb_spec (datalen d) 0) as [E0|]; cbn; [|done].
  unfold desc_complete_indir. by case_match.
Qed.

Lemma undef_with_data pos d s : with_data pos d (Ok s) = Undef ↔ complete_data pos d s = Undef.
Proof. unfold with_data. cbn. by destruct (complete_data pos d s). Qed.

Lemma defined_indir s ret bytes d : no_effect s (desc_complete_indir ret bytes d) ≠ Undef.
Proof. unfold no_effect, desc_complete_indir. by case_match. Qed.

Lemma defined_caps s d : no_effect s (list_caps d) ≠ Undef.
Proof. unfold list_caps. case_match; [apply defined_indir|done]. Qed.

Lemma defined_nvm s d : no_effect s (nvm_read d) ≠ Undef.
Proof. unfold nvm_read. destruct (nvm_answer _). apply defined_indir. Qed.

Ltac next_undef Ho :=
  match goal with |- (if ?b then _ else _) = Undef ↔ _ =>
    destruct b eqn:Ho; [|let Hn := fresh "Hn" in rename Ho into Hn; next_undef Ho]
  | _ => idtac end.

(** Without a buffer. *)
Lemma process_null junk mac inst pos d s : 0 <= datalen d → ctx_data s !! pos = None →
  process junk mac inst pos d s = Undef ↔ uses_data d = true.
Proof.
  intros Hd Hc. pose proof (null_get pos s Hc) as Hg. unfold process. cbv zeta. next_undef Ho.
  all: try (apply Z.eqb_eq in Ho); unfold uses_data.
  all: try (rewrite Ho; cbn [existsb Z.eqb Pos.eqb orb andb]).
  all: try (split; [|done]; intros Hu; first [by destruct (defined_indir _ _ _ _ Hu) | by destruct (defined_nvm _ _ Hu) | done]; fail).
  all: try (rewrite undef_with_data, null_complete by (done || by case_match); done).
  all: try (unfold alloc_res, remove_sw_rules, get_sched_elems, add_sched_elems, add_txqs, add_sw_rules, set_data, shown, data_field, with_data; rewrite Hg; done).
  - split; [intros Hu; by destruct (defined_caps _ _ Hu)|]. apply orb_true_iff in Ho as [Ho|Ho]; apply Z.eqb_eq in Ho; by rewrite Ho.
  - split; [done|]. repeat match goal with Hn : (opcode d =? _) = false |- _ => revert Hn end. cbn [existsb]. intros. repeat match goal with Hn : (opcode d =? _) = false |- _ => rewrite ?Hn in *; clear Hn end. done.
Qed.

(** The buffer of the command for a transmit queue. *)
Definition ctx_kept (pos b : Z) (bs : list Z) (s1 : adm) : Prop :=
  ∃ bs1, has_data s1 pos b bs1 ∧ length bs1 = length bs ∧ take 22 (drop 16 bs1) = take 22 (drop 16 bs).

Lemma set_kept pos b bs s1 n off v : ctx_kept pos b bs s1 → 0 <= off → off + Z.of_nat n <= Z.of_nat (length bs) →
  off + Z.of_nat n <= 16 ∨ 38 <= off → ∃ s2, set_data pos n off v s1 = Ok s2 ∧ ctx_kept pos b bs s2.
Proof.
  intros (bs1 & Hd & Hl & Hs) ? ? ?. destruct (set_data_ok s1 pos b bs1 n off v Hd) as (E & Hd' & Hl'); [lia..|].
  eexists. split; [exact E|]. eexists. split; [exact Hd'|]. split; [lia|].
  rewrite <- Hs. apply sub_put_out; rewrite length_le_bytes; lia.
Qed.

Lemma txq_buffer_ok pos s b bs idx : has_data s pos b bs → 56 <= Z.of_nat (length bs) → load 2 bs 8 = Some idx →
  ∃ s1, txq_buffer pos s = Ok (s1, take 22 (drop 16 bs), idx) ∧ ∃ bs1, has_data s1 pos b bs1 ∧ length bs1 = length bs.
Proof.
  intros Hd Hl Hi. unfold txq_buffer. rewrite (data_field_ok _ _ _ _ _ _ Hd), Hi. cbn [of_opt mbind result_bind].
  rewrite (shown_ok _ _ _ _ _ _ Hd) by lia. cbn [mbind result_bind]. assert (ctx_kept pos b bs s) as Hk by by exists bs.
  do 6 (match goal with |- context [set_data pos ?n ?o ?v ?s1] =>
    destruct (set_kept pos b bs s1 n o v Hk) as (? & E & Hk'); [lia..|]; rewrite E; clear E Hk;
    rename Hk' into Hk; cbn [mbind result_bind] end).
  destruct Hk as (bs1 & Hd1 & Hl1 & Hs). rewrite (get_data_ok _ _ _ _ Hd1). cbn [mbind result_bind]. rewrite bytes_at_inside by lia.
  cbn [of_opt mbind result_bind]. change (Z.to_nat 16) with 16%nat. rewrite Hs. eexists. split; [done|]. by exists bs1.
Qed.

Lemma enable_txq_data idx ctx s s' eff pos b bs : enable_txq idx ctx s = Ok (s', eff) → has_data s pos b bs → has_data s' pos b bs.
Proof. unfold enable_txq. intros (? & _ & H)%bind_ok. apply bind_ok in H as (? & _ & H). by apply bind_ok in H as ([[? ?] ?] & _ & [= <- _]). Qed.

(** With a buffer that is large enough. *)
Lemma process_txqs junk mac inst pos d s b bs idx : queues_ok s → opcode d = 0x0C30 → has_data s pos b bs →
  56 <= Z.of_nat (length bs) → 0 <= datalen d <= Z.of_nat (length bs) → load 2 bs 8 = Some idx → 0 <= idx →
  process junk mac inst pos d s = Undef ↔ bad_txq idx (take 22 (drop 16 bs)) s.
Proof.
  intros Hq Ho Hd Hl Hlen Hi H0. unfold process. rewrite Ho. cbn [Z.eqb Pos.eqb orb]. destruct (txq_buffer_ok pos s b bs idx Hd Hl Hi) as (s1 & E & bs1 & Hd1 & Hl1).
  destruct (txq_buffer_shape _ _ _ _ _ E) as (Hs & [m Hm] & Hc & _). rewrite add_txqs_eq, E. cbn [mbind result_bind].
  destruct (enable_txq_ok idx (take 22 (drop 16 bs)) s1) as (Hu & Ha & _); [by apply Hs|done|].
  assert (bad_txq idx (take 22 (drop 16 bs)) s ↔ bad_txq idx (take 22 (drop 16 bs)) s1) as -> by (by rewrite Hm). rewrite <- (Hu H0).
  destruct (enable_txq _ _ s1) as [[s2 eff]| |] eqn:Ee; cbn [mbind result_bind]; [|done..]. pose proof (enable_txq_data _ _ _ _ _ _ _ _ Ee Hd1) as Hd2.
  split; [|done]. unfold complete_data, data_prefix. destruct (datalen d =? 0); [|rewrite (get_data_ok _ _ _ _ Hd2); cbn [mbind result_bind]; rewrite bytes_at_inside by lia];
    cbn [of_opt mbind result_bind]; unfold desc_complete_indir; by case_match.
Qed.


(** ** Instances *)

Module Cases.
Definition cmd (op len : Z) : ice_aq_desc :=
  (ice_fill_dflt_direct_cmd_desc op) <| datalen := len |>.

(** Contexts 0 and 1 with the buffers 10 and 11: two new elements, and a query for the
    second of them. *)
Definition two : list Z := le_bytes 4 5 ++ le_bytes 2 2 ++ [0; 0] ++ replicate 48 7.
Definition query : list Z := le_bytes 4 0 ++ le_bytes 4 61 ++ replicate 16 0.
(** A transmit queue that was never enabled. *)
Definition idle_queue : lan_queue_base :=
  mkLanq (mkQueue (replicate 128 (mkCtx DESC_EMPTY 0 [])) 0 0 0 0 0 0 0 false 16) false 0.
Definition s0 : adm :=
  mkAdm {[10 := two; 11 := query]} 12 {[0 := 10; 1 := 11]} ∅ 60 3
    (replicate (Z.to_nat 2048) (replicate 22 0)) (replicate (Z.to_nat 2048) 0) (replicate (Z.to_nat 1536) idle_queue)
    (replicate 224 0) 0 0 new_switch.

Lemma s0_wf : adm_wf s0.
Proof.
  assert (∀ pos b, ctx_data s0 !! pos = Some b → pos = 0 ∧ b = 10 ∨ pos = 1 ∧ b = 11) as Hc.
  { intros pos b Hb. unfold s0 in Hb. cbn [ctx_data] in Hb. apply lookup_insert_Some in Hb as [[<- <-]|[_ Hb]]; [by left|]. apply lookup_singleton_Some in Hb as [<- <-]. by right. }
  split; [| |split| |apply length_replicate].
  - intros pos b [[-> ->]|[-> ->]]%Hc; by eexists.
  - intros pos pos' b [[-> ->]|[-> ->]]%Hc [[-> ?]|[-> ?]]%Hc; done.
  - intros b [bs Hb]. unfold s0 in Hb. cbn [bufs] in Hb. apply lookup_insert_Some in Hb as [[<- _]|[_ Hb]]; [done|].
    by apply lookup_singleton_Some in Hb as [<- _].
  - intros teid b off. unfold s0. cbn [sched_nodes]. by rewrite lookup_empty.
  - split; [apply length_replicate|by apply Forall_replicate|apply length_replicate|apply length_replicate|]. apply Forall_replicate.
    split; [split; [done|split; [apply length_replicate|done]]|]. intros _. split_and!; [done..|]. by apply Forall_replicate.
Qed.
End Cases.

Lemma admin_completion_witness :
  ∃ s' c, process (fun i => i) 0x123456 false 0 (Cases.cmd 0x0607 100) Cases.s0 = Ok (s', c, None) ∧
    completed (Cases.cmd 0x0607 100) 0 c.
Proof.
  eexists _, _. split; [reflexivity|].
  refine (admin_completion (fun i => i) 0x123456 false 0 (Cases.cmd 0x0607 100) Cases.s0 _ _ None _ eq_refl).
  repeat split; done.
Defined.


(** The first byte of the link status. *)
Lemma admin_leaks_witness :
  ∃ s' d' resp, process (fun i => 77 + i) 0x123456 false 0 (Cases.cmd 0x0607 32) Cases.s0 = Ok (s', (d', resp), None) ∧
    ∃ bytes, resp = Some bytes ∧ bytes !! 0%nat = Some 77.
Proof.
  eexists _, _, _. split; [reflexivity|].
  exact (admin_leaks (fun i => 77 + i) 0x123456 false 0 (Cases.cmd 0x0607 32) Cases.s0 _ _ _ None 32
    [(16, 8); (10, 2); (2, 1); (3, 1); (4, 1); (6, 2)]%nat 0 0 eq_refl eq_refl ltac:(lia) eq_refl).
Defined.

Lemma sched_elem_roundtrip_witness : ∃ s1 s2,
  add_sched_elems 0 Cases.s0 = Ok s1 ∧ get_sched_elems 1 s1 = Ok s2 ∧
  data_prefix 1 24 s2 = Ok ([7; 7; 7; 7; 61; 0; 0; 0] ++ replicate 16 7).
Proof.
  apply (sched_elem_roundtrip Cases.s0 0 1 10 11 Cases.two Cases.query 2 1); first [by split | vm_compute; done].
Defined.

Lemma sched_elem_dangling_witness : ∃ s1 s2,
  add_sched_elems 0 Cases.s0 = Ok s1 ∧ data_fetch 0 (replicate 57 0) s1 = Ok s2 ∧ get_sched_elems 1 s2 = E810Base.Undef.
Proof.
  apply (sched_elem_dangling Cases.s0 0 1 10 11 Cases.two Cases.query 2 1); first [by split | vm_compute; done].
Defined.

(** A key of 52 bytes arrives in context 1, whose buffer is too small for it. *)
Lemma admin_invariant_witness :
  ∃ s' c, E810Adminq.command (fun i => i) 0x123456 false 1 ((Cases.cmd 0x0B02 52) <| flags := 0x400 |>) (replicate 52 1) Cases.s0 = Ok (s', c, None) ∧
    adm_wf s'.
Proof.
  eexists _, _. split; [reflexivity|].
  exact (proj1 (proj2 (admin_invariant Cases.s0 Cases.s0_wf)) (fun i => i) 0x123456 false 1 ((Cases.cmd 0x0B02 52) <| flags := 0x400 |>) (replicate 52 1) _ _ None eq_refl).
Defined.
