(* ===== verification/IceWire.v ===== *)
(** * The admin queue between driver and device

    A device that answers commands, seen through the ring of the control queue: when
    the driver moves the tail, the device takes the descriptors up to it in order,
    reads the buffer of a command that has one ([ICE_AQ_FLAG_RD]), writes the response
    to the buffer and the completed descriptor to the ring, and moves the head.  The
    theorem on [ice_sq_send_cmd] says what the caller gets for an answer. *)
From S2P Require Import IceCtlq IceStatus Prelude Bytes IceAq IceCtlqSpec.
Local Open Scope Z_scope.
#[local] Existing Instances M_ret M_bind.

(** [w_phys] is the memory behind physical addresses, [w_ring] the block with the
    descriptors, [w_ctx] the number of the next context; [w_down] when the device has
    stopped. *)
Record wire (S : Type) := mkWire {
  w_dev : S; w_head : Z; w_tail : Z; w_ctx : Z; w_down : bool; w_ring : Z; w_phys : gmap Z Z
}.
Arguments mkWire {S} _ _ _ _ _ _ _.
Arguments w_dev {S} _.
Arguments w_head {S} _.
Arguments w_tail {S} _.
Arguments w_ctx {S} _.
Arguments w_down {S} _.
Arguments w_ring {S} _.
Arguments w_phys {S} _.
#[export] Instance wire_settable S : Settable (wire S) := fun r =>
  mkWire (w_dev r) (w_head r) (w_tail r) (w_ctx r) (w_down r) (w_ring r) (w_phys r).

(** A device: what it does with a command in a context, given the bytes of its buffer;
    [None] when it stops. *)
Class Answers (S : Type) := answer : Z → ice_aq_desc → list Z → S → option (S * ice_aq_desc * option (list Z)).

(** [addr_low | addr_high << 32] *)
Definition buf_addr (d : ice_aq_desc) : Z := addr_low d .| (addr_high d .<< 32).

Section wire.
Context {S : Type} `{Answers S} (regs : Z → Z) (n hr tr : Z).

(** The [datalen] bytes at the address of the command. *)
Definition fetch (phys : gmap Z Z) (h : heap_t) (d : ice_aq_desc) : option (list Z) :=
  if nz (flags d .& ICE_AQ_FLAG_RD) then
    p ← phys !! buf_addr d;
    match h !! p with Some (Data bs) => bytes_at (Z.to_nat (datalen d)) bs 0 | _ => None end
  else Some [].

Definition respond (phys : gmap Z Z) (d : ice_aq_desc) (resp : option (list Z)) (h : heap_t) : option heap_t :=
  match resp with
  | None => Some h
  | Some r =>
      p ← phys !! buf_addr d;
      match h !! p with Some (Data bs) => bs ← put_bytes bs 0 r; Some (<[p := Data bs]> h) | _ => None end
  end.

(** One command. *)
Definition serve (h : heap_t) (e : wire S) : option (heap_t * wire S) :=
  match h !! w_ring e with
  | Some (Descs ds) =>
      d ← rd ds (w_head e);
      bytes ← fetch (w_phys e) h d;
      '(s, d', resp) ← answer (w_ctx e) d bytes (w_dev e);
      h ← respond (w_phys e) d resp h;
      ds ← wr ds (w_head e) d';
      Some (<[w_ring e := Descs ds]> h,
        e <| w_dev := s |> <| w_head ::= next_idx n |> <| w_ctx ::= fun c => (c + 1) mod 128 |>)
  | _ => None
  end.

Fixpoint serve_all (k : nat) (h : heap_t) (e : wire S) : heap_t * wire S :=
  match k with
  | O => (h, e)
  | Datatypes.S k => match serve h e with Some (h, e) => serve_all k h e | None => (h, e <| w_down := true |>) end
  end.

(** Allocations succeed; [regs] are the registers besides those of the queue. *)
#[export] Instance wire_env : Env (wire S) := {
  env_rd32 reg h e := (if reg =? hr then w_head e else regs reg, h, e);
  env_wr32 reg v h e :=
    if reg =? tr then
      let e := e <| w_tail := v |> in
      if negb (w_down e) && (0 <=? v) && (v <? n) then serve_all (Z.to_nat (dist n (w_head e) v)) h e else (h, e)
    else (h, e);
  env_malloc e := (true, e);
  env_dma e := (Some 0, e);
  aq_send_cmd_fn := None
}.

(** ** The ring laws *)

Lemma respond_dma phys d resp h h' : respond phys d resp h = Some h' → dma_only h h'.
Proof.
  unfold respond. destruct resp as [r|]; [|intros [= <-]; apply dma_only_refl].
  destruct (phys !! buf_addr d) as [p|]; [|done]. cbn. destruct (h !! p) as [[|bs| |]|] eqn:E; try done.
  destruct (put_bytes bs 0 r) as [bs'|] eqn:Ep; [|done]. cbn. intros [= <-] q. destruct (decide (q = p)) as [->|].
  - rewrite E, lookup_insert_eq. unfold put_bytes in Ep. case_match eqn:Eb; [|done]. injection Ep as <-. bool_to_prop.
    rewrite length_put; lia.
  - rewrite lookup_insert_ne by done. apply dma_only_refl.
Qed.

Lemma dma_only_descs h p ds ds' : h !! p = Some (Descs ds) → length ds' = length ds → dma_only h (<[p := Descs ds']> h).
Proof.
  intros E Hl q. destruct (decide (q = p)) as [->|]; [by rewrite E, lookup_insert_eq|].
  rewrite lookup_insert_ne by done. apply dma_only_refl.
Qed.

Lemma serve_spec h e h' e' : serve h e = Some (h', e') →
  dma_only h h' ∧ w_head e' = next_idx n (w_head e) ∧ w_tail e' = w_tail e ∧ w_ring e' = w_ring e ∧ w_phys e' = w_phys e.
Proof.
  unfold serve. destruct (h !! w_ring e) as [[ds| | |]|] eqn:Er; try done.
  destruct (rd ds (w_head e)) as [d|]; [|done]. cbn. destruct (fetch _ _ _) as [bytes|]; [|done]. cbn.
  destruct (answer _ _ _ _) as [[[s d'] resp]|]; [|done]. cbn.
  destruct (respond _ _ _ _) as [h1|] eqn:Eh; [|done]. cbn. destruct (wr ds _ d') as [ds'|] eqn:Ew; [|done]. cbn.
  intros [= <- <-]. split; [|done]. apply respond_dma in Eh. eapply dma_only_trans; [exact Eh|].
  pose proof (Eh (w_ring e)) as Hr. rewrite Er in Hr. destruct (h1 !! w_ring e) as [[ds1| | |]|] eqn:E1; try done.
  eapply dma_only_descs; [exact E1|]. rewrite (wr_length _ _ _ _ Ew). congruence.
Qed.

Context (Hn : 0 < n < 65536).

Lemma serve_all_spec k h e h' e' : 0 <= w_head e < n → 0 <= w_tail e < n → Z.of_nat k <= dist n (w_head e) (w_tail e) →
  serve_all k h e = (h', e') →
  dma_only h h' ∧ 0 <= w_head e' < n ∧ w_tail e' = w_tail e ∧ dist n (w_head e') (w_tail e) <= dist n (w_head e) (w_tail e).
Proof using Hn.
  revert h e. induction k as [|k IH]; intros h e Hh Ht Hk; cbn [serve_all].
  { intros [= <- <-]. split_and!; try done; try lia. apply dma_only_refl. }
  destruct (serve h e) as [[h1 e1]|] eqn:Es; cycle 1.
  { intros [= <- <-]. cbn. split_and!; try done; try lia. apply dma_only_refl. }
  apply serve_spec in Es as (Hd & Hhd & Htl & _ & _). intros Eq.
  destruct (next_idx_spec n (w_head e)) as [_ Hnx]; [lia..|].
  assert (w_head e ≠ w_tail e) as Hne by (intros E'; rewrite E' in Hk; unfold dist in Hk; rewrite Z.sub_diag, Z.mod_0_l in Hk; lia).
  pose proof (dist_next n (w_head e) (w_tail e) Hh Ht ltac:(lia) Hne) as Hdn.
  specialize (IH h1 e1). rewrite Hhd, Htl in IH. destruct IH as (Hd' & Hh' & Ht' & Hdist); [done|done|lia|done|].
  split_and!; [by eapply dma_only_trans|lia|lia|congruence|lia].
Qed.

#[export] Instance wire_ring : RingDev (wire S) n hr tr.
Proof using Hn.
  refine {| pos := w_head; goal := w_tail |}.
  - intros reg h e v h' e' Er Hp. injection Er as <- <- <-. split_and!; try done; try lia; [apply dma_only_refl|].
    intros ->. by rewrite Z.eqb_refl.
  - intros reg v h e h' e' Ew Hp. cbn in Ew. destruct (reg =? tr); [|injection Ew as <- <-; split_and!; try done; try lia; apply dma_only_refl].
    destruct (negb _ && _ && _) eqn:Ec; [|injection Ew as <- <-; cbn; split_and!; try done; try lia; apply dma_only_refl].
    bool_to_prop. apply serve_all_spec in Ew as (Hd & Hh & Ht & Hdist); cbn in *; try done; try lia.
    + rewrite Ht. split_and!; done || lia.
    + rewrite Z2Nat.id; [done|]. apply dist_bound. lia.
Defined.

(** ** One command *)

Implicit Types (w : world (wire S)) (cq : ice_ctl_q_info).
#[local] Existing Instance wire_env.

(** What goes out: the descriptor with flags, length and address of the buffer [m]. *)
Definition outgoing (desc : ice_aq_desc) (buf : option (list Z)) (size : Z) (m : ice_dma_mem) : ice_aq_desc :=
  match buf with
  | None => desc
  | Some _ => buf_flags size desc <| datalen := size |> <| addr_high := ICE_HI_DWORD (pa m) |> <| addr_low := ICE_LO_DWORD (pa m) |>
  end.

Definition fetched (d : ice_aq_desc) (buf : option (list Z)) (size : Z) : list Z :=
  if nz (flags d .& ICE_AQ_FLAG_RD) then match buf with Some b => take (Z.to_nat size) b | None => [] end else [].

Definition filled (resp : option (list Z)) (b : list Z) : list Z :=
  match resp with Some r => put b 0 r | None => b end.

(** What comes back: the status, before the return value is looked at, and the
    caller's buffer. *)
Definition incoming (buf : option (list Z)) (size : Z) (d' : ice_aq_desc) (resp : option (list Z))
    : ice_status * option (list Z) :=
  match buf with
  | None => (ICE_SUCCESS, None)
  | Some b =>
      if size <? datalen d' then (ICE_ERR_AQ_ERROR, Some b)
      else (ICE_SUCCESS, Some (take (Z.to_nat (datalen d')) (filled resp b) ++ drop (Z.to_nat (datalen d')) b))
  end.

Definition rc_of (d' : ice_aq_desc) : Z := if nz (retval d') then retval d' .& 0xff else retval d'.

Definition status_of (st : ice_status) (d' : ice_aq_desc) : ice_status :=
  if is_ok st && negb (rc_of d' =? ICE_AQ_RC_OK) then ICE_ERR_AQ_ERROR else st.

(** The driver waits for nothing, the device for the next command. *)
Record idle (w : world (wire S)) (cq : ice_ctl_q_info) : Prop := {
  id_inv : sq_inv n hr tr w cq;
  id_head : w_head (env w) = next_to_use (sq cq);
  id_up : w_down (env w) = false;
  id_ring : w_ring (env w) = va (desc_buf (sq cq));
  id_phys l m : heap w !! bi (sq cq) = Some (DmaInfo l) → m ∈ l →
    w_phys (env w) !! pa m = Some (va m) ∧ 0 <= pa m < 2 ^ 64;
  id_cmds : ∃ l, heap w !! cmd_buf (sq cq) = Some (CmdBuf l) ∧ Forall (eq cd_zero) l
}.

Lemma buf_addr_split d x : 0 <= x < 2 ^ 64 →
  buf_addr (d <| addr_high := ICE_HI_DWORD x |> <| addr_low := ICE_LO_DWORD x |>) = x.
Proof using.
  intros Hx. unfold buf_addr, ICE_HI_DWORD, ICE_LO_DWORD. cbn [addr_low addr_high set_field].
  change 0xFFFFFFFF with (Z.ones 32). rewrite !Z.land_ones by lia. unfold wrap. rewrite !Zmod_mod.
  rewrite Z.shiftr_shiftr by lia. change (16 + 16) with 32. apply Z.bits_inj'. intros k Hk.
  rewrite Z.lor_spec, Z.shiftl_spec by lia. destruct (Z.lt_ge_cases k 32).
  - rewrite Z.mod_pow2_bits_low, (Z.testbit_neg_r _ (k - 32)), orb_false_r by lia. done.
  - rewrite Z.mod_pow2_bits_high by lia. destruct (Z.lt_ge_cases k 64).
    + rewrite Z.mod_pow2_bits_low, Z.shiftr_spec by lia. cbn. f_equal. lia.
    + rewrite Z.mod_pow2_bits_high by lia. symmetry. cbn. rewrite <- (Z.mod_small x (2 ^ 64)) by lia.
      apply Z.mod_pow2_bits_high. lia.
Qed.

(** Serving the command that was posted last. *)
Lemma serve_posted h r desc buf size h1 e ds l m s' d' resp :
  let slot := next_to_use r in let d1 := outgoing desc buf size m in
  posted h r (match buf with Some _ => buf_flags size desc | None => desc end) buf size h1 →
  h !! va (desc_buf r) = Some (Descs ds) → 0 <= slot < Z.of_nat (length ds) →
  h !! bi r = Some (DmaInfo l) → l !! Z.to_nat slot = Some m →
  w_ring e = va (desc_buf r) → w_head e = slot → w_phys e !! pa m = Some (va m) → 0 <= pa m < 2 ^ 64 →
  match buf with
  | Some b => ∃ bs, h !! va m = Some (Data bs) ∧ 0 <= size <= Z.of_nat (length b) ∧ size <= Z.of_nat (length bs) ∧
      match resp with Some x => Z.of_nat (length x) <= size | None => True end
  | None => nz (flags desc .& ICE_AQ_FLAG_RD) = false ∧ resp = None
  end →
  answer (w_ctx e) d1 (fetched d1 buf size) (w_dev e) = Some (s', d', resp) →
  ∃ h2, serve h1 e = Some (h2, e <| w_dev := s' |> <| w_head ::= next_idx n |> <| w_ctx ::= fun c => (c + 1) mod 128 |>) ∧
    h2 !! va (desc_buf r) = Some (Descs (<[Z.to_nat slot := d']> ds)) ∧
    (∀ p, p ≠ va (desc_buf r) → p ≠ va m → h2 !! p = h !! p) ∧
    match buf with
    | Some b => ∃ bs, h !! va m = Some (Data bs) ∧
        h2 !! va m = Some (Data (filled resp (take (Z.to_nat size) b ++ drop (Z.to_nat size) bs)))
    | None => True
    end.
Proof using.
  intros slot d1 (ds' & l' & m' & Hds' & Hl' & Hm' & Hp) Hds Hslot Hl Hm Hring Hhead Hphys Hpa Hbuf Hans.
  assert (ds' = ds) as -> by congruence. assert (l' = l) as -> by congruence. subst slot. assert (m' = m) as -> by congruence.
  assert (∀ d, rd (<[Z.to_nat (next_to_use r) := d]> ds) (next_to_use r) = Some d) as Hrd.
  { intros d. unfold rd. rewrite (proj2 (Z.leb_le _ _)) by lia. apply list_lookup_insert_eq. lia. }
  unfold serve. rewrite Hring, Hhead. destruct buf as [b|].
  - destruct Hp as (bs & Hbs & ->). destruct Hbuf as (bs' & Hbs' & Hsz & Hsz' & Hresp). assert (bs' = bs) as -> by congruence.
    assert (va (desc_buf r) ≠ va m) as Hne by congruence.
    rewrite lookup_insert_eq, Hrd. cbn [mbind option_bind].
    match goal with |- context [fetch _ _ ?d] => change d with d1 end.
    assert (buf_addr d1 = pa m) as Ha by (by apply buf_addr_split).
    set (h1 := <[va (desc_buf r) := _]> _).
    set (blk := take (Z.to_nat size) b ++ drop (Z.to_nat size) bs) in *.
    assert (h1 !! va m = Some (Data blk)) as Hblk by (unfold h1; by rewrite lookup_insert_ne, lookup_insert_eq by done).
    assert (length blk = length bs) as Hlb by (unfold blk; rewrite length_app, length_take, length_drop; lia).
    assert (fetch (w_phys e) h1 d1 = Some (fetched d1 (Some b) size)) as ->.
    { unfold fetch, fetched. destruct (nz (flags d1 .& ICE_AQ_FLAG_RD)); [|done]. rewrite Ha, Hphys. cbn. rewrite Hblk. unfold bytes_at.
      rewrite (proj2 (Z.leb_le _ _)), (proj2 (Z.leb_le _ _)) by (cbn; lia). cbn [andb]. f_equal. rewrite drop_0.
      change (datalen d1) with size. unfold blk. rewrite take_app_le by (rewrite length_take; lia). rewrite take_ge; [done|].
      rewrite length_take. lia. }
    cbn [mbind option_bind]. rewrite Hans. cbn [mbind option_bind].
    assert (respond (w_phys e) d1 resp h1 = Some (match resp with None => h1 | Some x => <[va m := Data (put blk 0 x)]> h1 end)) as ->.
    { unfold respond. destruct resp as [x|]; [|done]. rewrite Ha, Hphys. cbn. rewrite Hblk. rewrite put_bytes_in by lia. done. }
    cbn [mbind option_bind]. rewrite wr_in_range by (rewrite length_insert; lia). cbn [mbind option_bind].
    eexists. split; [done|]. rewrite lookup_insert_eq, list_insert_insert_eq. split; [done|]. split.
    + intros p Hp1 Hp2. rewrite lookup_insert_ne by done. destruct resp; unfold h1; rewrite ?lookup_insert_ne by done; done.
    + exists bs. split; [done|]. rewrite lookup_insert_ne by done. destruct resp; [by rewrite lookup_insert_eq|]. done.
  - subst h1. destruct Hbuf as [Hf ->]. rewrite lookup_insert_eq, Hrd. cbn [mbind option_bind].
    change (outgoing desc None size m) with desc in d1. subst d1. unfold fetch. unfold fetched in Hans. rewrite Hf in *.
    cbn [mbind option_bind]. rewrite Hans. cbn [mbind option_bind respond]. rewrite wr_in_range by (rewrite length_insert; lia).
    cbn [mbind option_bind]. eexists. split; [done|]. rewrite lookup_insert_eq, list_insert_insert_eq. split; [done|].
    split; [|done]. intros p Hp1 Hp2. by rewrite !lookup_insert_ne by done.
Qed.

(** ** Cleaning an idle queue *)

(** The device state is [e] and no command has asked for its descriptor. *)
Definition quiet (p : Z) (e : wire S) (w : world (wire S)) : Prop :=
  env w = e ∧ ∃ l, heap w !! p = Some (CmdBuf l) ∧ Forall (eq cd_zero) l.

Definition keeps {A} (I : world (wire S) → Prop) (m : M (wire S) A) : Prop := ∀ w a w', I w → m w = Ret (a, w') → I w'.

Lemma keeps_bind {A B} I (m : M (wire S) A) (f : A → M (wire S) B) : keeps I m → (∀ a, keeps I (f a)) → keeps I (m ≫= f).
Proof using.
  intros Hm Hf w a w' HI. unfold mbind, M_bind. destruct (m w) as [[x w1]| |] eqn:E; intros E'; try discriminate E'.
  exact (Hf x w1 a w' (Hm w x w1 HI E) E').
Qed.

Lemma keeps_ret {A} I (a : A) : keeps I (mret a).
Proof using. by intros w x w' HI [= _ <-]. Qed.

Lemma keeps_rd32 p e reg : keeps (quiet p e) (rd32 reg).
Proof using. intros w x w' HI E. unfold rd32 in E. cbn in E. injection E as _ <-. by destruct w. Qed.

Lemma keeps_block I p : keeps I (get_block (E := wire S) p).
Proof using. intros w b w' HI. unfold get_block. destruct (heap w !! p); [|done]. by intros [= _ <-]. Qed.

Lemma keeps_opt {A} I (o : option A) : keeps I (of_option (E := wire S) o).
Proof using. destruct o; [apply keeps_ret|]. by intros w a w' _. Qed.

Lemma keeps_wr_desc p e q i d : keeps (quiet p e) (wr_desc q i d).
Proof using.
  intros w a w' [He (l & Hl & Hf)]. unfold wr_desc, get_block, mbind, M_bind.
  destruct (heap w !! q) as [[ds| | |]|] eqn:Eq; try done. destruct (wr ds i d) as [ds'|]; [|done].
  cbn. unfold put_block. rewrite Eq. intros [= _ <-]. split; [done|]. exists l. cbn. rewrite lookup_insert_ne by congruence. done.
Qed.

Lemma keeps_wr_cd p e q i : keeps (quiet p e) (wr_cd q i cd_zero).
Proof using.
  intros w a w' [He (l & Hl & Hf)]. unfold wr_cd, get_block, mbind, M_bind.
  destruct (heap w !! q) as [[| | |l']|] eqn:Eq; try done. destruct (wr l' i cd_zero) as [l1|] eqn:Ew; [|done].
  cbn. unfold put_block. rewrite Eq. intros [= _ <-]. split; [done|]. cbn. destruct (decide (q = p)) as [->|].
  - rewrite lookup_insert_eq. exists l1. split; [done|]. unfold wr in Ew. case_match; [|done]. injection Ew as <-.
    assert (l' = l) as -> by congruence. by apply Forall_insert.
  - exists l. by rewrite lookup_insert_ne by congruence.
Qed.

Lemma keeps_clean_loop p e fuel r ntc : keeps (quiet p e) (clean_sq_loop fuel r ntc).
Proof using.
  revert ntc. induction fuel as [|fuel IH]; intros ntc; [by intros w a w' _|]. cbn [clean_sq_loop].
  apply keeps_bind; [apply keeps_rd32|]. intros h. destruct (h =? ntc); [apply keeps_ret|].
  apply keeps_bind; [|intros; apply IH]. apply keeps_bind; [apply keeps_wr_desc|intros; apply keeps_wr_cd].
Qed.

Lemma wp_keeps {A} (m : M (wire S) A) w (P : A → world (wire S) → Prop) I : wp m w P → I w → keeps I m →
  wp m w (fun a w' => P a w' ∧ I w').
Proof using. unfold wp. destruct (m w) as [[a w']| |] eqn:E; [|done..]. intros HP HI Hk. split; [done|]. by eapply Hk. Qed.

(** ** Sending *)

Lemma take_filled resp b bs size k : 0 <= size <= Z.of_nat (length b) → size <= Z.of_nat (length bs) → k <= size →
  match resp with Some x => Z.of_nat (length x) <= size | None => True end →
  take (Z.to_nat k) (filled resp (take (Z.to_nat size) b ++ drop (Z.to_nat size) bs)) = take (Z.to_nat k) (filled resp b) ∧
  length (filled resp (take (Z.to_nat size) b ++ drop (Z.to_nat size) bs)) = length bs.
Proof using.
  intros Hs Hs' Hk Hr. assert (length (take (Z.to_nat size) b ++ drop (Z.to_nat size) bs) = length bs) as Hl
    by (rewrite length_app, length_take, length_drop; lia).
  split; [|destruct resp; [cbn; rewrite length_put; lia|done]].
  assert (∀ t, take (Z.to_nat k) (filled resp (take (Z.to_nat size) b ++ t)) = take (Z.to_nat k) (filled resp (take (Z.to_nat size) b))) as Ht.
  { intros t. destruct resp as [x|]; cbn [filled].
    - unfold put. rewrite !take_0. cbn [Nat.add app]. rewrite drop_app_le by (rewrite length_take; lia). rewrite app_assoc.
      apply take_app_le. rewrite length_app, length_drop, length_take. lia.
    - apply take_app_le. rewrite length_take. lia. }
  rewrite Ht, <- (Ht (drop (Z.to_nat size) b)). by rewrite take_drop.
Qed.

Lemma wp_and {A} (m : M (wire S) A) w (P Q : A → world (wire S) → Prop) : wp m w P → wp m w Q → wp m w (fun a w' => P a w' ∧ Q a w').
Proof using. unfold wp. by destruct (m w) as [[a w']| |]. Qed.

Lemma wp_rd_head reg w (Q : Z → world (wire S) → Prop) : Q (if reg =? hr then w_head (env w) else regs reg) w → wp (rd32 reg) w Q.
Proof using. intros HQ. unfold wp, rd32. cbn. by destruct w. Qed.

(** The driver sees the head at the tail. *)
Lemma wp_done cq w (Q : bool → world (wire S) → Prop) : IceCtlq.head (sq cq) = hr → w_head (env w) = next_to_use (sq cq) →
  Q true w → wp (ice_sq_done cq) w Q.
Proof using. intros Hh Hd HQ. apply wp_bind, wp_rd_head. rewrite Hh, Z.eqb_refl, Hd. apply wp_ret. by rewrite Z.eqb_refl. Qed.

(** The conditions on a command: a buffer that the queue has room for, and a response
    that fits. *)
Definition cmd_ok cq (desc : ice_aq_desc) (buf : option (list Z)) (size : Z) (resp : option (list Z)) : Prop :=
  match buf with
  | Some b => 0 < size <= Z.of_nat (length b) ∧ size <= sq_buf_size cq ∧
      match resp with Some x => Z.of_nat (length x) <= size | None => True end
  | None => size = 0 ∧ nz (flags desc .& ICE_AQ_FLAG_RD) = false ∧ resp = None
  end.

Definition after cq (d' : ice_aq_desc) : ice_ctl_q_info :=
  cq <| sq ::= fun r => r <| next_to_clean := next_to_use r |> <| next_to_use := next_idx n (next_to_use r) |> |>
     <| sq_last_status := rc_of d' |>.

(** From the completed descriptor to the caller. *)
Lemma wp_collect_exact cq slot ds d' buf size resp desc w l m : heap w !! va (desc_buf (sq cq)) = Some (Descs ds) →
  rd ds slot = Some d' → heap w !! bi (sq cq) = Some (DmaInfo l) → rd l slot = Some m → cmd_ok cq desc buf size resp →
  match buf with
  | Some b => ∃ bs, Z.of_nat (length bs) = sq_buf_size cq ∧
      heap w !! va m = Some (Data (filled resp (take (Z.to_nat size) b ++ drop (Z.to_nat size) bs)))
  | None => True
  end →
  wp (sq_collect cq slot buf size) w (fun '(st, dr, br, cq') w' => w' = w ∧ dr = d' ∧ br = (incoming buf size d' resp).2 ∧
    st = status_of (incoming buf size d' resp).1 d' ∧ cq' = cq <| sq_last_status := rc_of d' |>).
Proof using.
  intros Hds Hd Hl Hm Hok Hblk. eapply wp_bind, wp_rd_desc; [done..|]. destruct buf as [b|].
  - destruct Hok as (Hs1 & Hs2 & Hr). destruct Hblk as (bs & Hbl & Hblk). unfold incoming. cbn zeta.
    destruct (Z.ltb_spec size (datalen d')); [by apply wp_bind, wp_ret, wp_ret|].
    destruct (take_filled resp b bs size (datalen d')) as [Ht Hlf]; [lia..|done|].
    apply wp_bind. eapply wp_bind, wp_rd_info; [done..|]. eapply wp_bind, wp_rd_data; [exact Hblk|lia|]. apply wp_ret, wp_ret.
    split_and!; try done. rewrite length_take, Hlf, Ht. cbn [snd]. do 3 f_equal. lia.
  - apply wp_bind, wp_ret, wp_ret. done.
Qed.

(** Completion: the head is at the tail already. *)
Lemma wp_finish_exact cq slot ds d' buf size resp desc0 desc w l m cs : IceCtlq.head (sq cq) = hr → w_head (env w) = next_to_use (sq cq) →
  heap w !! va (desc_buf (sq cq)) = Some (Descs ds) → rd ds slot = Some d' →
  heap w !! bi (sq cq) = Some (DmaInfo l) → rd l slot = Some m → cmd_ok cq desc buf size resp →
  match buf with
  | Some b => ∃ bs, Z.of_nat (length bs) = sq_buf_size cq ∧
      heap w !! va m = Some (Data (filled resp (take (Z.to_nat size) b ++ drop (Z.to_nat size) bs)))
  | None => True
  end →
  heap w !! cmd_buf (sq cq) = Some (CmdBuf cs) → rd cs slot = Some cd_zero →
  wp (sq_finish cq slot desc0 buf size) w (fun '(st, dr, br, cq') w' => w' = w ∧ dr = d' ∧ br = (incoming buf size d' resp).2 ∧
    st = status_of (incoming buf size d' resp).1 d' ∧ cq' = cq <| sq_last_status := rc_of d' |>).
Proof using.
  intros Hh Hd Hds Hrd Hl Hm Hok Hblk Hcs Hcd. unfold sq_finish. apply wp_bind.
  destruct (Z.to_nat (Z.max 1 (sq_cmd_timeout cq))) as [|k] eqn:Ek; [lia|]. cbn [wait_done].
  apply wp_bind, wp_done; [done..|]. apply wp_ret. apply wp_bind, wp_done; [done..|].
  eapply wp_bind, wp_mono; [by eapply wp_collect_exact|]. intros [[[st dr] br] cq'] w' (-> & -> & -> & -> & ->).
  apply wp_bind. eapply wp_bind, wp_rd_cd; [done..|]. by apply wp_ret, wp_bind, wp_ret, wp_ret.
Qed.

(** Up to the point where the command is posted. *)
Lemma wp_ready fuel cq w : idle w cq → n <= Z.of_nat fuel →
  wp (_ ← wr_cd (cmd_buf (sq cq)) (next_to_use (sq cq)) cd_zero; ice_clean_sq fuel cq) w (fun '(unused, cq') w' =>
    later n hr tr w w' ∧ sq_inv n hr tr w' cq' ∧ cq' = cq <| sq ::= fun r => r <| next_to_clean := next_to_use r |> |> ∧
    unused = n - 1 ∧ quiet (cmd_buf (sq cq)) (env w) w').
Proof using Hn.
  intros Hid Hf. pose proof (id_inv _ _ Hid) as Hinv. pose proof (si_ring _ _ _ _ _ Hinv) as Hr.
  destruct (id_cmds _ _ Hid) as (cs & Hcs & Hz).
  assert (quiet (cmd_buf (sq cq)) (env w) w) as Hq by (split; [done|by exists cs]).
  eapply wp_mono.
  { apply (wp_keeps _ _ (fun '(unused, cq') w' => later n hr tr w w' ∧ sq_inv n hr tr w' cq' ∧
      cq' = cq <| sq ::= fun r => r <| next_to_clean := w_head (env w') |> |> ∧
      unused = n - 1 - dist n (w_head (env w')) (next_to_use (sq cq))) (quiet (cmd_buf (sq cq)) (env w))); [|done|].
    - destruct (sm_cmd _ _ _ _ (si_mem _ _ _ _ _ Hinv)) as (l & Hl & Hll & Hlf).
      eapply wp_bind, wp_wr_cd; [exact Hl|rewrite Hll; apply Hr|].
      match goal with |- wp _ ?w2 _ => assert (later n hr tr w w2) as Hl2 end.
      { apply later_heap; [|apply Hr]. eapply compat_insert; [done|]. split; [by rewrite length_insert|].
        intros c [->|?]%elem_insert_inv; [right; by left|by left]. }
      eapply wp_mono; [apply wp_clean_sq; [by eapply sq_inv_later|done]|].
      intros [unused cq'] w' (Hl3 & -> & Hinv3 & ->). split_and!; try done. by eapply later_trans.
    - apply keeps_bind; [apply keeps_wr_cd|]. intros _. apply keeps_bind; [apply keeps_clean_loop|]. intros ntc. apply keeps_ret. }
  intros [unused cq'] w' [(Hl & Hinv' & -> & ->) Hq']. pose proof (proj1 Hq') as He. rewrite He in *. rewrite (id_head _ _ Hid) in *.
  split_and!; try done. unfold dist. rewrite Z.sub_diag, Z.mod_0_l by lia. lia.
Qed.

Lemma wp_assoc {A B C} (m : M (wire S) A) (g : A → M (wire S) B) (f : B → M (wire S) C) w Q :
  wp ((m ≫= g) ≫= f) w Q → wp (m ≫= fun a => g a ≫= f) w Q.
Proof using. unfold wp, mbind, M_bind. by destruct (m w) as [[a w']| |]. Qed.

Lemma idle_same w cq cq' : sq cq' = sq cq → num_sq_entries cq' = num_sq_entries cq → sq_buf_size cq' = sq_buf_size cq →
  idle w cq → idle w cq'.
Proof using.
  intros E1 E2 E3 [[] ? ? ? ? ?]. split; [split|..]; rewrite ?E1, ?E2, ?E3; done.
Qed.

(** The environment after one command. *)
Definition stepped (e : wire S) (tail : Z) (s' : S) : wire S :=
  e <| w_tail := tail |> <| w_dev := s' |> <| w_head ::= next_idx n |> <| w_ctx ::= fun c => (c + 1) mod 128 |>.

Lemma wr_tail v h e : w_down e = false → 0 <= v < n →
  env_wr32 tr v h e = serve_all (Z.to_nat (dist n (w_head e) v)) h (e <| w_tail := v |>).
Proof using.
  intros Hd Hv. cbn [env_wr32 wire_env]. rewrite Z.eqb_refl. cbv zeta.
  change (w_down (e <| w_tail := v |>)) with (w_down e). by rewrite Hd, (proj2 (Z.leb_le _ _)), (proj2 (Z.ltb_lt _ _)) by lia.
Qed.

(** Posting a command on an idle queue runs the device. *)
Lemma wp_post_exact cq desc buf size w e s' d' resp l m : sq_inv n hr tr w cq → 1 < n → env w = e →
  w_head e = next_to_use (sq cq) → w_down e = false → w_ring e = va (desc_buf (sq cq)) →
  w_phys e !! pa m = Some (va m) → 0 <= pa m < 2 ^ 64 →
  heap w !! bi (sq cq) = Some (DmaInfo l) → l !! Z.to_nat (next_to_use (sq cq)) = Some m → cmd_ok cq desc buf size resp →
  answer (w_ctx e) (outgoing desc buf size m) (fetched (outgoing desc buf size m) buf size) (w_dev e) = Some (s', d', resp) →
  wp (sq_post cq (match buf with Some _ => buf_flags size desc | None => desc end) buf size) w (fun cq' w' =>
    cq' = advanced n cq ∧ env w' = stepped e (next_idx n (next_to_use (sq cq))) s' ∧
    (∃ ds, heap w' !! va (desc_buf (sq cq)) = Some (Descs ds) ∧ rd ds (next_to_use (sq cq)) = Some d') ∧
    (∀ p, p ≠ va (desc_buf (sq cq)) → p ≠ va m → heap w' !! p = heap w !! p) ∧
    match buf with
    | Some b => ∃ bs, Z.of_nat (length bs) = sq_buf_size cq ∧
        heap w' !! va m = Some (Data (filled resp (take (Z.to_nat size) b ++ drop (Z.to_nat size) bs)))
    | None => True
    end).
Proof using Hn.
  intros Hinv Hn1 He Hh Hdown Hring Hphys Hpa Hl Hm Hok Hans. pose proof (si_ring _ _ _ _ _ Hinv) as Hr.
  pose proof (si_mem _ _ _ _ _ Hinv) as Hmem. destruct (sm_desc _ _ _ _ Hmem) as (ds & Hds & Hdl).
  destruct (sm_bi _ _ _ _ Hmem) as (l' & Hl' & _ & Hlf). assert (l' = l) as -> by congruence.
  destruct (Forall_lookup_1 _ _ _ _ Hlf Hm) as (bs & Hbs & Hbl). pose proof (sr_ntu _ _ _ _ _ Hr) as Hu.
  eapply wp_mono; [apply (sq_post_exact n hr tr); [exact Hinv|]|].
  { destruct buf; [|done]. unfold cmd_ok in Hok. split; lia. }
  intros cq' w' (-> & _ & h1 & Hp & Ew). destruct (next_idx_spec n (next_to_use (sq cq))) as [_ Hnx]; [lia..|].
  rewrite He, wr_tail, Hh in Ew by done.
  assert (dist n (next_to_use (sq cq)) (next_to_use (sq cq)) = 0) as H0 by (unfold dist; rewrite Z.sub_diag; by apply Z.mod_0_l; lia).
  rewrite dist_succ, H0 in Ew by (done || lia). change (Z.to_nat (0 + 1)) with 1%nat in Ew. cbn [serve_all] in Ew.
  destruct (serve_posted (heap w) (sq cq) desc buf size h1 (e <| w_tail := next_idx n (next_to_use (sq cq)) |>) ds l m s' d' resp)
    as (h2 & Es & Hd2 & Ho & Hb); try done; try lia.
  { destruct buf as [b|]; [|by destruct Hok as (_ & ? & ?)]. exists bs. destruct Hok as (? & ? & ?). split_and!; done || lia. }
  rewrite Es in Ew. injection Ew as E1 E2. rewrite <- E1, <- E2. split_and!; try done.
  - eexists. split; [exact Hd2|]. unfold rd. rewrite (proj2 (Z.leb_le _ _)) by lia. apply list_lookup_insert_eq. lia.
  - destruct buf; [|done]. destruct Hb as (bs' & Hbs' & Hb). exists bs'. split; [|done]. congruence.
Qed.

Lemma compat_info h h' p l : compat h h' → h !! p = Some (DmaInfo l) → h' !! p = Some (DmaInfo l).
Proof using. intros Hc Hp. destruct (compat_lookup _ _ _ _ Hc Hp) as ([] & E & Hb); try done. cbn in Hb. by subst. Qed.

Lemma wp_send_exact fuel cq desc buf size w s' d' resp l m : idle w cq → 1 < n → n <= Z.of_nat fuel →
  heap w !! bi (sq cq) = Some (DmaInfo l) → l !! Z.to_nat (next_to_use (sq cq)) = Some m → cmd_ok cq desc buf size resp →
  answer (w_ctx (env w)) (outgoing desc buf size m) (fetched (outgoing desc buf size m) buf size) (w_dev (env w)) = Some (s', d', resp) →
  wp (ice_sq_send_cmd_nolock fuel false cq desc buf size None) w (fun '(st, dr, br, cq') w' =>
    st = status_of (incoming buf size d' resp).1 d' ∧ dr = d' ∧ br = (incoming buf size d' resp).2 ∧ cq' = after cq d' ∧
    env w' = stepped (env w) (next_idx n (next_to_use (sq cq))) s' ∧
    ∃ l, heap w' !! cmd_buf (sq cq) = Some (CmdBuf l) ∧ Forall (eq cd_zero) l).
Proof using Hn.
  intros Hid Hn1 Hf Hl Hm Hok Hans. unfold ice_sq_send_cmd_nolock. cbn zeta.
  set (cq0 := cq <| sq_last_status := ICE_AQ_RC_OK |>) in *.
  assert (idle w cq0) as Hid0 by (by apply (idle_same w cq cq0)).
  pose proof (si_ring _ _ _ _ _ (id_inv _ _ Hid)) as Hr. pose proof (sr_ntu _ _ _ _ _ Hr) as Hu.
  rewrite (proj2 (Z.eqb_neq (count (sq cq0)) 0)) by (simpl; rewrite (sr_count _ _ _ _ _ Hr); lia).
  replace (_ || _) with false; cycle 1.
  { symmetry. destruct buf; cbn; [rewrite orb_false_r; apply Z.eqb_neq; unfold cmd_ok in Hok; lia|]. destruct Hok as [-> _]. done. }
  replace (bool_decide (is_Some buf) && _) with false; cycle 1.
  { symmetry. destruct buf; cbn; [|done]. apply Z.ltb_ge. destruct Hok as (_ & ? & _). done. }
  apply wp_bind, wp_rd_head. replace (IceCtlq.head (sq cq0) =? hr) with true by (symmetry; apply Z.eqb_eq, Hr).
  rewrite (proj2 (Z.leb_gt _ _)) by (rewrite (id_head _ _ Hid); cbn; rewrite (si_num _ _ _ _ _ (id_inv _ _ Hid)); lia).
  cbn [default from_option]. apply wp_assoc, wp_bind. eapply wp_mono; [by apply wp_ready|].
  intros [unused cq1] w1 (Hl1 & Hinv1 & Ecq & -> & He & cs & Hcs & Hz). rewrite (proj2 (Z.eqb_neq (n - 1) 0)) by lia.
  destruct (id_phys _ _ Hid l m Hl) as [Hph Hpa]; [by eapply list_elem_of_lookup_2|].
  assert (heap w1 !! bi (sq cq) = Some (DmaInfo l)) as Hl' by (eapply compat_info; [apply Hl1|done]).
  assert (sq cq1 = (sq cq) <| next_to_clean := next_to_use (sq cq) |>) as Esq by (by rewrite Ecq).
  destruct (sm_cmd _ _ _ _ (si_mem _ _ _ _ _ Hinv1)) as (cs' & Hcs' & Hcl & _). rewrite Esq in Hcs'. cbn in Hcs'.
  assert (cs' = cs) as -> by (cbn in Hcs; congruence).
  eapply wp_bind, wp_mono.
  { eapply (wp_post_exact cq1 desc buf size w1 (env w) s' d' resp l m); rewrite ?Esq; try done; [apply Hid..|].
    by rewrite Ecq. }
  intros cq2 w2 (-> & He2 & (ds & Hds & Hrd) & Ho & Hb).
  destruct (sm_bi _ _ _ _ (si_mem _ _ _ _ _ Hinv1)) as (l' & Hl2 & _ & Hlf). rewrite Esq in Hl2. cbn in Hl2.
  assert (l' = l) as -> by congruence. destruct (Forall_lookup_1 _ _ _ _ Hlf Hm) as (bs & Hbs & _).
  destruct (sm_desc _ _ _ _ (si_mem _ _ _ _ _ Hinv1)) as (ds1 & Hds1 & _). rewrite Esq in *. cbn in Hds1.
  assert (heap w2 !! bi (sq cq) = Some (DmaInfo l)) as Hbi by (cbn in Ho; rewrite Ho; congruence).
  assert (heap w2 !! cmd_buf (sq cq) = Some (CmdBuf cs)) as Hcb by (cbn in Ho; rewrite Ho; congruence).
  eapply wp_mono.
  { eapply (wp_finish_exact (advanced n cq1) (next_to_use (sq cq)) ds d' buf size resp _ desc w2 l m cs); unfold advanced; cbn; rewrite ?Esq;
      try done.
    - apply Hr.
    - rewrite He2. cbn. by rewrite (id_head _ _ Hid).
    - unfold rd. by rewrite (proj2 (Z.leb_le _ _)) by lia.
    - by rewrite Ecq.
    - destruct (rd_in_range cs (next_to_use (sq cq))) as [c Ec]; [lia|]. rewrite Ec. f_equal. symmetry. by eapply rd_Forall in Ec. }
  intros [[[st dr] br] cq'] w' (-> & -> & -> & -> & ->). split_and!; try done; [by rewrite Ecq|by exists cs].
Qed.

Lemma send_answer fuel cq desc buf size w s' d' resp l m : idle w cq → sq_lock cq = false → 1 < n → n <= Z.of_nat fuel →
  heap w !! bi (sq cq) = Some (DmaInfo l) → l !! Z.to_nat (next_to_use (sq cq)) = Some m → cmd_ok cq desc buf size resp →
  answer (w_ctx (env w)) (outgoing desc buf size m) (fetched (outgoing desc buf size m) buf size) (w_dev (env w)) = Some (s', d', resp) →
  let '(st, buf') := incoming buf size d' resp in
  ∃ w', ice_sq_send_cmd fuel false cq desc buf size None w = Ret ((status_of st d', d', buf', after cq d'), w') ∧
    idle w' (after cq d') ∧ env w' = stepped (env w) (next_idx n (next_to_use (sq cq))) s'.
Proof using Hn.
  intros Hid Hlock Hn1 Hf Hl Hm Hok Hans.
  destruct (send_cmd_ok n hr tr fuel false cq desc buf size None w) as (st & dr & br & cq' & w' & E & Hs & Hlk); try done; [apply Hid|..].
  { destruct buf; cbn in Hok |- *; split_and!; try done; lia. }
  assert (idle w (cq <| sq_lock := true |>)) as Hid' by (by apply (idle_same w cq)).
  destruct (incoming buf size d' resp) as [st0 buf0] eqn:Ei.
  pose proof (wp_send_exact fuel (cq <| sq_lock := true |>) desc buf size w s' d' resp l m Hid' Hn1 Hf Hl Hm Hok Hans) as Hw.
  rewrite Ei in Hw. apply wp_inv in Hw as ([[[st1 d1] b1] cq1] & w1 & E1 & -> & -> & -> & -> & He & Hc).
  assert (ice_sq_send_cmd fuel false cq desc buf size None w = Ret ((status_of st0 d', d', buf0, after cq d'), w1)) as E2.
  { unfold ice_sq_send_cmd. rewrite Hlock. unfold mbind, M_bind. cbn [acquire]. unfold mret, M_ret. rewrite E1. cbn [fst snd].
    do 3 f_equal. unfold after. cbn. by rewrite <- Hlock. }
  rewrite E2 in E. injection E as <- <- <- <- <-. exists w1. split_and!; try done.
  destruct Hs as (Hinv & Hcomp & _). split; try done.
  - rewrite He. cbn. by rewrite (id_head _ _ Hid).
  - rewrite He. cbn. apply Hid.
  - rewrite He. cbn. apply Hid.
  - intros l0 m0 Hl0 Hm0. rewrite He. cbn in *. pose proof (compat_info _ _ _ _ Hcomp Hl). assert (l0 = l) as -> by congruence.
    by eapply (id_phys _ _ Hid).
Qed.

(** C21. A command through the ring: when nothing is in flight, [ice_sq_send_cmd] with a
    device that answers returns exactly that answer.  The device is given the caller's
    descriptor with the flags, the length and the address of the DMA buffer, and the
    caller's bytes; the caller gets the completed descriptor, the part of the response
    that the descriptor announces, and an error for a return value other than 0 or a
    length beyond its buffer.  Afterwards the queue is idle again. *)
Theorem send_cmd_answer fuel cq desc buf size w s' d' resp l m : idle w cq → sq_lock cq = false → 1 < n → n <= Z.of_nat fuel →
  heap w !! bi (sq cq) = Some (DmaInfo l) → l !! Z.to_nat (next_to_use (sq cq)) = Some m → cmd_ok cq desc buf size resp →
  answer (w_ctx (env w)) (outgoing desc buf size m) (fetched (outgoing desc buf size m) buf size) (w_dev (env w)) = Some (s', d', resp) →
  let '(st, buf') := incoming buf size d' resp in
  ∃ w', ice_sq_send_cmd fuel false cq desc buf size None w = Ret ((status_of st d', d', buf', after cq d'), w') ∧
    idle w' (after cq d') ∧ env w' = stepped (env w) (next_idx n (next_to_use (sq cq))) s'.
Proof using Hn. exact (send_answer fuel cq desc buf size w s' d' resp l m). Qed.
End wire.

(** ** A device that reverses the buffer

    A queue of four entries with nothing in flight. *)
Module Echo.
Definition echo : Answers Z := fun _ d bytes count => Some (count + 1, d, Some (reverse bytes)).

Definition ring : ice_ctl_q_ring :=
  ring_regs (mkRing 0 (mkDma 1 0x10000 128) 2 3 4 1 3 0 0 0 0 0 0 0 0 0)
    (r_ATQH PF_FW) (r_ATQT PF_FW) (r_ATQLEN PF_FW) (r_ATQBAH PF_FW) (r_ATQBAL PF_FW).
Definition bufs : list ice_dma_mem := [mkDma 10 0x1000 4096; mkDma 11 0x2000 4096; mkDma 12 0x3000 4096; mkDma 13 0x4000 4096].
(** [size] is the size of the buffers. *)
Definition cq (size : Z) : ice_ctl_q_info := mkCq ICE_CTL_Q_ADMIN ring ring 10 4 4 size size 0 false false.
Definition mem (size : nat) : heap_t :=
  {[ 1 := Descs (replicate 4 desc_zero); 2 := CmdBuf (replicate 4 cd_zero); 3 := DmaInfo bufs;
     10 := Data (replicate size 0); 11 := Data (replicate size 0); 12 := Data (replicate size 0); 13 := Data (replicate size 0) ]}.
Definition phys : gmap Z Z := {[ 0x1000 := 10; 0x2000 := 11; 0x3000 := 12; 0x4000 := 13 ]}.
Definition start {S} (size : nat) (s : S) : world (wire S) := mkWorld (mem size) 14 (mkWire s 1 1 0 false 1 phys).

Lemma four : 0 < 4 < 65536.
Proof. lia. Qed.

Lemma start_idle {S} `{Answers S} regs size s : Z.of_nat size < 65536 →
  idle regs 4 (r_ATQH PF_FW) (r_ATQT PF_FW) four (start size s) (cq (Z.of_nat size)).
Proof.
  intros Hs. split; try done.
  - split; [split|split|..]; try done; try (cbn; lia).
    + by eexists.
    + eexists. split_and!; [done..|]. repeat constructor; by left.
    + eexists. split_and!; [done..|]. repeat constructor; eexists; (split; [reflexivity|]); by rewrite length_replicate.
  - intros l m Hl Hm. injection Hl as <-. unfold bufs in Hm. repeat (apply elem_of_cons in Hm as [-> |Hm]; [done|]). by apply elem_of_nil in Hm.
  - eexists. split; [done|]. by repeat constructor.
Qed.
End Echo.

Lemma send_cmd_answer_witness :
  let desc := (ice_fill_dflt_direct_cmd_desc 0x0C40) <| flags := ICE_AQ_FLAG_SI .| ICE_AQ_FLAG_RD |> in
  ∃ d' w', ice_sq_send_cmd (H := wire_env (H := Echo.echo) (fun _ => 0) 4 (r_ATQH PF_FW) (r_ATQT PF_FW)) 4 false (Echo.cq 16) desc
    (Some [1; 2; 3; 4]) 3 None (Echo.start 16 0) = Ret ((ICE_SUCCESS, d', Some [3; 2; 1; 4], after 4 (Echo.cq 16) d'), w') ∧ w_dev (env w') = 1.
Proof.
  intros desc. set (d' := outgoing desc (Some [1; 2; 3; 4]) 3 (mkDma 11 0x2000 4096)).
  pose proof (send_cmd_answer (H := Echo.echo) (fun _ => 0) 4 (r_ATQH PF_FW) (r_ATQT PF_FW) Echo.four 4 (Echo.cq 16) desc
    (Some [1; 2; 3; 4]) 3 (Echo.start 16 0) 1 d' (Some [3; 2; 1]) Echo.bufs (mkDma 11 0x2000 4096)
    (Echo.start_idle (H := Echo.echo) (fun _ => 0) 16 0 ltac:(lia)) eq_refl ltac:(lia) ltac:(lia) ltac:(vm_compute; reflexivity)
    ltac:(vm_compute; reflexivity) ltac:(cbn; lia) ltac:(vm_compute; reflexivity)) as X.
  change (incoming (Some [1; 2; 3; 4]) 3 d' (Some [3; 2; 1])) with (ICE_SUCCESS, Some [3; 2; 1; 4]) in X. destruct X as (w' & E & _ & He).
  exists d', w'. split; [exact E|]. rewrite He. reflexivity.
Defined.
