(* ===== verification/E810Driver.v ===== *)
(** * The driver on the device model

    The base code of the driver on one side of the admin queue and the device model on
    the other: what the driver finds when it initialises the flash. *)
From S2P Require Import E810Base E810Rx E810Adminq E810AdminqSpec IceCtlq IceStatus Prelude Bytes IceAq IceNvm IceCtlqSpec IceNvmSpec IceWire IceCaps.
Local Open Scope Z_scope.

(** The registers that the functions below read. *)
Definition e810_regs (reg : Z) : Z :=
  if reg =? GLNVM_GENS then 6 .<< 5 else if reg =? GLNVM_FLA then 0xE0
  else if reg =? GLQF_FD_SIZE then 0 .| ((NUM_FD_GUAR .<< 0) .& 0x7FFF) .| ((NUM_FD_BEST_EFFORT .<< 16) .& 0x7FFF0000) else 0.

(** Parameters in the first eight bytes are those of the caller. *)
Lemma pget_outgoing k off desc buf size m : (off + k <= 8)%nat → pget k off (outgoing desc buf size m) = pget k off desc.
Proof.
  intros Hk. destruct buf; [|done]. unfold pget, params. f_equal. cbn [outgoing param0 param1 addr_high addr_low set_field buf_flags].
  rewrite !app_assoc, <- !(app_assoc (le_bytes 4 _ ++ le_bytes 4 _)).
  rewrite !(drop_app_le (le_bytes 4 _ ++ le_bytes 4 _)), !take_app_le by
    (rewrite ?length_drop, ?length_app, ?length_le_bytes; lia). done.
Qed.

Lemma split_offset_lor offset : 0 <= offset < 2 ^ 24 →
  u16 (offset .& 0xFFFF) .| u8 ((offset .>> 16) .& 0xFF) .<< 16 = offset.
Proof.
  intros Ho. rewrite Z.lor_comm, lor_shift_add; [by apply split_offset|lia|]. by apply wrap_width.
Qed.

Section driver.
Context (junk : Z → Z) (mac : Z) (inst : bool).

(** A device that aborts or leaves its arrays does not answer any more. *)
Definition e810_answer : Answers adm := fun pos d bytes s =>
  match E810Adminq.command junk mac inst pos d bytes s with Ok (s', (d', resp), _) => Some (s', d', resp) | _ => None end.
#[local] Existing Instance e810_answer.

(** A read of the flash. *)
Lemma nvm_read_answer desc data size m c a : opcode desc = ice_aqc_opc_nvm_read → flags desc = ICE_AQ_FLAG_SI →
  let '(ret, bytes) := nvm_answer (pget 2 0 desc .| pget 1 2 desc .<< 16) in
  Z.of_nat (length bytes) <= size →
  ∃ d', answer c (outgoing desc (Some data) size m) (fetched (outgoing desc (Some data) size m) (Some data) size) a = Some (a, d', Some bytes) ∧
    retval d' = ret ∧ datalen d' = Z.of_nat (length bytes).
Proof.
  intros Hop Hfl. destruct (nvm_answer _) as [ret bytes] eqn:En. intros Hl.
  unfold answer, e810_answer, E810Adminq.command.
  assert (nz (flags (outgoing desc (Some data) size m) .& ICE_AQ_FLAG_RD) = false) as ->.
  { cbn. rewrite Hfl. by destruct (ICE_AQ_LG_BUF <? size). }
  cbn [mbind result_bind]. unfold process. change (opcode (outgoing desc (Some data) size m)) with (opcode desc). rewrite Hop.
  cbn [Z.eqb Pos.eqb orb ice_aqc_opc_nvm_read]. unfold no_effect, nvm_read. rewrite !pget_outgoing, En by lia.
  unfold desc_complete_indir. change (datalen (outgoing desc (Some data) size m)) with size. rewrite (proj2 (Z.ltb_ge _ _)) by lia.
  cbn [mbind result_bind]. eexists. split_and!; done.
Qed.
Context (n hr tr : Z) (Hn : 0 < n < 65536) (fuel : nat) (uninit : nat → ice_hw * world (wire adm) → list Z).

Definition e810_env : Env (wire adm) := wire_env e810_regs n hr tr.
#[local] Existing Instance e810_env.

(** The driver with its control queue and the device. *)
Definition e810_dev : AqDev (ice_hw * world (wire adm)) := ctlq_dev fuel uninit.
#[local] Existing Instance e810_dev.

Context (H1 : 1 < n) (Hf : n <= Z.of_nat fuel) (Hu : ∀ k s, length (uninit k s) = k).

(** The admin queue is initialised and idle. *)
Record up (s : ice_hw * world (wire adm)) : Prop := {
  up_reset : reset_ongoing s.1 = false;
  up_idle : idle e810_regs n hr tr Hn s.2 (adminq s.1);
  up_lock : sq_lock (adminq s.1) = false;
  up_size : ICE_AQ_MAX_BUF_LEN <= sq_buf_size (adminq s.1);
  up_wf : adm_wf (w_dev (env s.2))
}.

(** ** Commands *)

Lemma send_once cq desc buf size w r w' : ice_should_retry_sq_send_cmd (opcode desc) = false →
  ice_sq_send_cmd fuel false cq desc buf size None w = Ret (r, w') →
  ice_aq_send_cmd fuel false cq desc buf size None w = Ret (r, w').
Proof using.
  intros Hr E. unfold ice_aq_send_cmd. cbn [aq_send_cmd_fn e810_env wire_env]. unfold ice_sq_send_cmd_retry. rewrite Hr.
  cbn [andb]. unfold mbind, M_bind, mret, M_ret. cbn [Z.eqb negb]. unfold retry_loop. cbn [Nat.sub ICE_SQ_SEND_MAX_EXECUTE].
  unfold mbind, M_bind. destruct r as [[[st d] b] cq']. by rewrite E.
Qed.

(** The answer of the device to a command with buffer [m]. *)
Lemma dwp_cmd desc buf size s (Q : ice_status * ice_aq_desc * option (list Z) → _ → Prop) : up s →
  ice_should_retry_sq_send_cmd (opcode desc) = false →
  (∀ m, ∃ a d' resp,
     answer (w_ctx (env s.2)) (outgoing desc buf size m) (fetched (outgoing desc buf size m) buf size) (w_dev (env s.2)) = Some (a, d', resp) ∧
     cmd_ok (adminq s.1) desc buf size resp ∧
     ∀ s', up s' → dev_last_status s' = rc_of d' → w_dev (env s'.2) = a →
       Q (status_of (incoming buf size d' resp).1 d', d', (incoming buf size d' resp).2) s') →
  dwp (d_send desc buf size) s Q.
Proof using H1 Hf.
  intros [Hr Hid Hlk Hsz Hwf] Hop Hans. destruct s as [hw w]. cbn [fst snd] in *.
  destruct (sm_bi _ _ _ _ (si_mem _ _ _ _ _ (id_inv _ _ _ _ _ _ _ Hid))) as (l & Hl & Hll & _).
  pose proof (sr_ntu _ _ _ _ _ (si_ring _ _ _ _ _ (id_inv _ _ _ _ _ _ _ Hid))).
  destruct (lookup_lt_is_Some_2 l (Z.to_nat (next_to_use (sq (adminq hw))))) as [m Hm]; [lia|].
  destruct (Hans m) as (a & d' & resp & Ha & Hok & HQ).
  pose proof (send_answer e810_regs n hr tr Hn fuel (adminq hw) desc buf size w a d' resp l m Hid Hlk H1 Hf Hl Hm Hok Ha) as Hs.
  destruct (incoming buf size d' resp) as [st b]. destruct Hs as (w' & E & Hid' & He). cbn [fst snd] in HQ.
  eexists _, (set_cq hw ICE_CTL_Q_ADMIN (after n (adminq hw) d'), w'). split.
  - unfold d_send. cbn [dev_send e810_dev ctlq_dev]. unfold ctlq_send. cbn [fst snd]. rewrite Hr.
    by rewrite (send_once _ _ _ _ _ _ _ Hop E).
  - apply HQ; [|done|change (w_dev (env w') = a); by rewrite He]. split; try done. cbn [snd]. rewrite He. cbn [stepped w_dev set_field].
    unfold answer, e810_answer in Ha. case_match eqn:Ec; [|done..]. repeat case_match. injection Ha as -> -> ->.
    by eapply command_wf.
Qed.

#[local] Instance up_grants : Grants _ up.
Proof using H1 Hf Hu.
  split; [intros; apply Hu|]. intros desc s Hs Hfl Hop.
  assert (dwp (d_send desc None 0) s (fun r s' => r.1.1 = ICE_SUCCESS ∧ up s')) as ([[st d] b] & s' & E & Hst & Hup).
  { apply dwp_cmd; [done|by destruct Hop as [-> | ->]|]. intros m.
    assert (∃ d', answer (w_ctx (env s.2)) desc [] (w_dev (env s.2)) = Some (w_dev (env s.2), d', None) ∧ retval d' = 0) as (d' & Ha & Hrv).
    { unfold answer, e810_answer, E810Adminq.command. rewrite Hfl. unfold process.
      destruct Hop as [-> | ->]; eexists; split; reflexivity. }
    exists (w_dev (env s.2)), d', None. split; [unfold fetched; cbn [outgoing]; by rewrite Hfl|].
    split; [split_and!; try done; by rewrite Hfl|]. intros s' Hs' _ _. split; [|done]. cbn. unfold status_of, rc_of. by rewrite Hrv. }
  cbn in Hst. subst st. by eexists _, _, _.
Qed.

(** ** Reading the flash *)


(** One admin command of a read. *)
Lemma dwp_dev_read offset k data last rsr s ret bytes : up s → 0 <= offset < 2 ^ 24 → 0 < k <= 4096 → length data = Z.to_nat k →
  nvm_answer offset = (ret, bytes) → Z.of_nat (length bytes) <= k →
  dwp (ice_aq_read_nvm ICE_AQC_NVM_START_POINT offset k data last rsr) s (fun r s' => up s' ∧
    r = (if ret =? 0 then ICE_SUCCESS else ICE_ERR_AQ_ERROR, bytes ++ drop (length bytes) data) ∧ dev_last_status s' = ret).
Proof using H1 Hf.
  intros Hs Ho Hk Hl En Hb. unfold ice_aq_read_nvm. rewrite (proj2 (Z.ltb_ge _ _)) by (unfold ICE_AQC_NVM_MAX_OFFSET; lia).
  set (desc := pset 2 6 k _). apply dwp_bind, dwp_cmd; [done|done|]. intros m.
  assert (pget 2 0 desc .| pget 1 2 desc .<< 16 = offset) as Hoff by (unfold desc; pfields; by apply split_offset_lor).
  pose proof (nvm_read_answer desc data k m (w_ctx (env s.2)) (w_dev (env s.2)) eq_refl eq_refl) as Ha. rewrite Hoff, En in Ha.
  destruct (Ha Hb) as (d' & Ha' & Hr & Hd). exists (w_dev (env s.2)), d', (Some bytes). split; [done|].
  split; [cbn; pose proof (up_size _ Hs); unfold ICE_AQ_MAX_BUF_LEN in *; split_and!; lia|].
  intros s' Hs' Hlast _. unfold incoming. rewrite Hd, (proj2 (Z.ltb_ge _ _)) by lia. cbn [fst snd]. apply dwp_ret.
  assert (ret = 0 ∨ ret = 14) as Hret by (unfold nvm_answer in En; repeat case_match; injection En as <- _; auto).
  cbn [default from_option]. rewrite Hlast. unfold status_of, rc_of. rewrite Hr. split; [done|].
  rewrite Nat2Z.id. cbn [filled]. unfold put. cbn [Nat.add]. rewrite take_0. cbn [app].
  rewrite take_app_le, take_ge by lia. split; by destruct Hret as [-> | ->].
Qed.

Definition outcome_of (ret : Z) : ice_status := if ret =? 0 then ICE_SUCCESS else ICE_ERR_AQ_ERROR.

(** A read inside one sector. *)
Lemma dwp_dev_flat flash offset k data rsr s ret bytes : up s → 0 <= offset < 2 ^ 24 → 0 < k → offset mod 4096 + k <= 4096 →
  length data = Z.to_nat k → (rsr = true → offset + k <= sr_words flash * 2) →
  nvm_answer offset = (ret, bytes) → Z.of_nat (length bytes) <= k →
  dwp (ice_read_flat_nvm flash offset k data rsr) s (fun r s' => up s' ∧
    r.1.1 = outcome_of ret ∧ r.2 = bytes ++ drop (length bytes) data ∧ dev_last_status s' = ret).
Proof using H1 Hf.
  intros Hs Ho Hk Hsec Hl Hsr En Hb. pose proof (Z.mod_pos_bound offset 4096 ltac:(lia)). unfold ice_read_flat_nvm.
  replace (rsr && _) with false; cycle 1.
  { destruct rsr; [|done]. cbn. rewrite wrap_small by (split; lia). symmetry. apply Z.ltb_ge. auto. }
  pose proof (Z.div_pos k ICE_AQ_MAX_BUF_LEN ltac:(lia) ltac:(done)).
  destruct (Z.to_nat (k / ICE_AQ_MAX_BUF_LEN + 2)) as [|f] eqn:Ef; [lia|]. cbn [flat_loop].
  unfold ICE_AQ_MAX_BUF_LEN. rewrite Z.sub_0_r, (wrap_small 32 k), (Z.min_r _ k), (wrap_small 16 k), Z.add_0_l, (wrap_small 32 k), Z.ltb_irrefl by (split; lia) || lia.
  cbn [negb]. apply dwp_bind. unfold bytes_at. rewrite (proj2 (Z.leb_le _ _)), (proj2 (Z.leb_le _ _)) by lia. cbn [andb d_option].
  apply dwp_ret, dwp_bind. rewrite drop_0, take_ge by lia.
  eapply dwp_mono; [apply (dwp_dev_read offset k data true rsr s ret bytes); done || lia|].
  intros [st part] s' (Hs' & [= -> ->] & Hlast). apply dwp_bind. rewrite put_bytes_in by (rewrite ?length_app, ?length_drop; lia).
  cbn [d_option]. apply dwp_ret. change (Z.to_nat 0) with 0%nat. unfold put. rewrite take_0. cbn [app Nat.add].
  rewrite (drop_ge data (length (bytes ++ drop (length bytes) data))) by (rewrite length_app, length_drop; lia). rewrite app_nil_r. fold (outcome_of ret).
  destruct (is_ok (outcome_of ret)) eqn:Eok; cbn [negb]; by apply dwp_ret.
Qed.

(** A word, whose upper byte is left as it was when the device answers with one byte. *)
Definition answered_word (bytes : list Z) (v : Z) : Prop :=
  ∃ stale, length stale = (2 - length bytes)%nat ∧ v = le (bytes ++ stale).

Lemma dwp_dev_word flash w s bytes : up s → 0 <= w < sr_words flash → w < 2 ^ 23 - 1 →
  nvm_answer (w * 2) = (0, bytes) → (length bytes <= 2)%nat →
  dwp (ice_read_sr_word flash w) s (fun r s' => up s' ∧ r.1 = ICE_SUCCESS ∧ answered_word bytes r.2).
Proof using H1 Hf Hu.
  intros Hs Hw Hw' En Hb. apply dwp_bind. eapply dwp_mono; [by apply (dwp_acquire up)|]. intros st s1 [-> Hs1]. on_ok.
  apply dwp_bind, dwp_bind. eapply dwp_mono; [by apply (dwp_uninit up)|]. intros bs s' [Hl ->]. apply dwp_bind.
  assert ((w * 2) mod 4096 + 2 <= 4096).
  { change 4096 with (2048 * 2). rewrite Z.mul_mod_distr_r by lia. pose proof (Z.mod_pos_bound w 2048). lia. }
  eapply dwp_mono; [apply (dwp_dev_flat flash (w * 2) 2 bs true s1 0 bytes); done || lia|].
  intros [[st k] data] s2 (Hs2 & Hst & Hd & _). cbn in Hst, Hd. subst st data. apply dwp_ret, dwp_bind.
  eapply dwp_mono; [by apply (dwp_release up)|]. intros ? s3 Hs3. apply dwp_ret. split; [done|]. split; [done|].
  exists (drop (length bytes) bs). by rewrite length_drop, Hl.
Qed.

Lemma answer_high offset : 0x43a006 < offset → nvm_answer offset = (if offset <? 0xc00000 then 0 else 14, [0x40]).
Proof using.
  clear. intros. unfold nvm_answer. repeat rewrite (proj2 (Z.eqb_neq offset _)) by lia. by destruct (offset <? 0xc00000).
Qed.

(** *** The size of the flash *)

Lemma dwp_probe flash offset s data : up s → 0x43a006 < offset < 2 ^ 24 → length data = 1%nat →
  dwp (ice_read_flat_nvm flash offset 1 data false) s (fun r s' => up s' ∧
    if offset <? 0xc00000 then r.1.1 = ICE_SUCCESS else r.1.1 = ICE_ERR_AQ_ERROR ∧ dev_last_status s' = ICE_AQ_RC_EINVAL).
Proof using H1 Hf.
  intros Hs Ho Hl. pose proof (Z.mod_pos_bound offset 4096 ltac:(lia)).
  eapply dwp_mono; [apply (dwp_dev_flat flash offset 1 data false s (if offset <? 0xc00000 then 0 else 14) [0x40]); try done; try lia|].
  - apply answer_high. lia.
  - intros [[st k] d] s' (Hs' & Hst & _ & Hlast). split; [done|]. cbn in Hst |- *. subst st. by destruct (offset <? 0xc00000).
Qed.

Lemma bisect_probe k flash lo hi st : (1 <? hi - lo) = true → bisect (Datatypes.S k) flash lo hi st = (
  data ← d_uninit 1;
  '(status, _, _) ← ice_read_flat_nvm flash ((hi + lo) / 2) 1 data false;
  last ← d_last_status;
  if bool_decide (status = ICE_ERR_AQ_ERROR) && (last =? ICE_AQ_RC_EINVAL) then bisect k flash lo ((hi + lo) / 2) ICE_SUCCESS
  else if is_ok status then bisect k flash ((hi + lo) / 2) hi status else mret (status, hi)).
Proof using. intros E. cbn [bisect]. by rewrite E. Qed.

Lemma dwp_size flash s : up s →
  dwp (ice_discover_flash_size flash) s (fun r s' => r = (ICE_SUCCESS, flash <| flash_size := 0xc00000 |>) ∧ up s').
Proof using H1 Hf Hu.
  intros Hs. apply (dwp_discover up); [done|]. clear s Hs. intros s Hs.
  rewrite bisect_probe by done. change ((2 ^ 24 + 0) / 2) with 0x800000.
  apply dwp_bind. eapply dwp_mono; [by apply (dwp_uninit up)|]. intros bs s' [Hl ->].
  apply dwp_bind. eapply dwp_mono; [apply dwp_probe; [done|lia|done]|]. intros [[st k] d] s1 [Hs1 Hst]. cbn in Hst. subst st.
  apply dwp_bind, dwp_get. rewrite (bool_decide_eq_false_2 (ICE_SUCCESS = _)) by done. cbn [andb is_ok].
  apply (dwp_bisect up); [done| |lia..]. intros offset data s2 Hs2 Ho Hd. apply dwp_probe; [done|lia|done].
Qed.

(** *** The banks *)

Lemma dwp_bank_word read offset get upd st flash s (v : Z) (Q : ice_status * ice_flash_info → _ → Prop) : st = ICE_SUCCESS →
  dwp (read flash offset (get (banks flash))) s (fun r s' => up s' ∧ r.1 = ICE_SUCCESS ∧ r.2 = v) →
  (∀ s', up s' → Q (ICE_SUCCESS, flash <| banks ::= upd v |>) s') →
  dwp (bank_word read offset get upd (st, flash)) s Q.
Proof using.
  intros -> Hr HQ. unfold bank_word. on_ok. apply dwp_bind. eapply dwp_mono; [exact Hr|].
  intros [st v'] s' (Hs' & Est & Ev). cbn in Est, Ev. subst. apply dwp_ret. by apply HQ.
Qed.

(** A word for which the device has two bytes. *)
Lemma dwp_full_word flash w v s : up s → 0 <= w < sr_words flash → w < 2 ^ 23 - 1 → nvm_answer (w * 2) = (0, le_bytes 2 v) → 0 <= v < 2 ^ 16 →
  dwp (ice_read_sr_word flash w) s (fun r s' => r = (ICE_SUCCESS, v) ∧ up s').
Proof using H1 Hf Hu.
  intros Hs Hw Hw' En Hv. eapply dwp_mono; [by apply (dwp_dev_word flash w s (le_bytes 2 v))|].
  intros [st v'] s' (Hs' & Est & stale & Hl & Ev). cbn [fst snd] in Est, Ev. split; [|done]. f_equal; [done|]. rewrite Ev.
  destruct stale; [|done]. rewrite app_nil_r, le_le_bytes. by apply wrap_small.
Qed.

Lemma dwp_pointer flash w v old s : up s → 0 <= w < sr_words flash → w < 2 ^ 23 - 1 → nvm_answer (w * 2) = (0, le_bytes 2 v) → 0 <= v < 2 ^ 16 →
  dwp (ice_read_sr_pointer flash w old) s (fun r s' => up s' ∧ r.1 = ICE_SUCCESS ∧ r.2 = sr_pointer v).
Proof using H1 Hf Hu.
  intros. apply dwp_bind. eapply dwp_mono; [by apply (dwp_full_word flash w v)|]. intros ? s' [-> Hs']. on_ok. by apply dwp_ret.
Qed.

Lemma dwp_area flash w v old s : up s → 0 <= w < sr_words flash → w < 2 ^ 23 - 1 → nvm_answer (w * 2) = (0, le_bytes 2 v) → 0 <= v < 2 ^ 16 →
  dwp (ice_read_sr_area_size flash w old) s (fun r s' => up s' ∧ r.1 = ICE_SUCCESS ∧ r.2 = v * 4 * 1024).
Proof using H1 Hf Hu.
  intros. apply dwp_bind. eapply dwp_mono; [by apply (dwp_full_word flash w v)|]. intros ? s' [-> Hs']. on_ok. by apply dwp_ret.
Qed.

(** The banks that the device announces; [x] is the byte that was not read. *)
Definition e810_banks (x : Z) : ice_bank_info :=
  mkBanks 0x20000 0x41a000 0x854000 0x7d000 0x94e000 ((0x40 + 256 * x) * 4 * 1024)
    ICE_2ND_FLASH_BANK ICE_2ND_FLASH_BANK ICE_2ND_FLASH_BANK.

(** A word of the shadow RAM, whatever has been stored in [flash]. *)
Ltac in_sr flash := lazymatch goal with |- 0 <= ?w < _ =>
  let v := eval vm_compute in w in change (0 <= v < sr_words flash); lia end.

Lemma dwp_banks flash s : up s → 0x48 <= sr_words flash →
  dwp (ice_determine_active_flash_banks flash) s (fun r s' => up s' ∧ ∃ x, r = (ICE_SUCCESS, flash <| banks := e810_banks x |>)).
Proof using H1 Hf Hu.
  intros Hs Hw. apply dwp_bind. eapply dwp_mono; [apply (dwp_full_word flash 0 0x78); [done|lia|lia|done|lia]|].
  intros ? s1 [-> Hs1]. on_ok. change (negb _) with false. cbv iota. cbv zeta.
  apply dwp_bind. eapply dwp_bank_word; [done|apply (dwp_pointer _ ICE_SR_1ST_NVM_BANK_PTR 0x8020); [done|in_sr flash|done|done|lia]|].
  intros s2 Hs2. apply dwp_bind. eapply dwp_bank_word; [done|apply (dwp_area _ ICE_SR_NVM_BANK_SIZE 0x41a); [done|in_sr flash|done|done|lia]|].
  intros s3 Hs3. apply dwp_bind. eapply dwp_bank_word; [done|apply (dwp_pointer _ ICE_SR_1ST_OROM_BANK_PTR 0x8854); [done|in_sr flash|done|done|lia]|].
  intros s4 Hs4. apply dwp_bind. eapply dwp_bank_word; [done|apply (dwp_area _ ICE_SR_OROM_BANK_SIZE 0x7d); [done|in_sr flash|done|done|lia]|].
  intros s5 Hs5. apply dwp_bind. eapply dwp_bank_word; [done|apply (dwp_pointer _ ICE_SR_NETLIST_BANK_PTR 0x894e); [done|in_sr flash|done|done|lia]|].
  intros s6 Hs6. unfold bank_word. on_ok. apply dwp_bind, dwp_bind.
  eapply dwp_mono; [apply (dwp_dev_word _ ICE_SR_NETLIST_BANK_SIZE s6 [0x40]); [done|in_sr flash|done|done|cbn; lia]|].
  intros [st v] s7 (Hs7 & Est & [|x [|]] & Hl & Ev); try done. cbn in Est, Ev. subst st v. on_ok. apply dwp_ret, dwp_ret.
  split; [done|]. exists x. replace (64 + 2 ^ 8 * (x + 2 ^ 8 * 0)) with (0x40 + 256 * x) by lia. reflexivity.
Qed.

(** *** Versions *)

(** A word of the active NVM bank, which starts at 0x43a000. *)
Lemma dwp_module flash x w s bytes : up s → banks flash = e810_banks x → 0 <= w < 0x10000 →
  nvm_answer (0x43a000 + w * 2) = (0, bytes) → (length bytes <= 2)%nat →
  dwp (ice_read_nvm_module flash ICE_ACTIVE_FLASH_BANK w) s (fun r s' => up s' ∧ r.1 = ICE_SUCCESS ∧ answered_word bytes r.2).
Proof using H1 Hf Hu.
  intros Hs Hbk Hw En Hb. apply dwp_bind. eapply dwp_mono; [by apply (dwp_uninit up)|]. intros bs s' [Hl ->].
  unfold ice_read_flash_module, ice_get_flash_bank_offset. rewrite Hbk. cbn [e810_banks nvm_ptr nvm_size nvm_bank].
  change (ICE_SR_1ST_NVM_BANK_PTR =? ICE_SR_1ST_NVM_BANK_PTR) with true. cbv iota.
  change (u32 (0x20000 + 0x41a000)) with 0x43a000. change (0x43a000 =? 0) with false. cbv iota zeta.
  apply dwp_bind, dwp_bind. eapply dwp_mono; [by apply (dwp_acquire up)|]. intros st s1 [-> Hs1]. on_ok.
  rewrite (wrap_small 32 (w * 2)), wrap_small by (split; lia).
  assert ((0x43a000 + w * 2) mod 4096 + 2 <= 4096).
  { replace (0x43a000 + w * 2) with ((0x21d000 + w) * 2) by lia. change 4096 with (2048 * 2). rewrite Z.mul_mod_distr_r by lia.
    pose proof (Z.mod_pos_bound (0x21d000 + w) 2048). lia. }
  apply dwp_bind. eapply dwp_mono; [apply (dwp_dev_flat flash (0x43a000 + w * 2) 2 bs false s1 0 bytes); done || lia|].
  intros [[st k] data] s2 (Hs2 & Hst & Hd & _). cbn [fst snd] in Hst, Hd. subst st data. apply dwp_bind.
  eapply dwp_mono; [by apply (dwp_release up)|]. intros ? s3 Hs3. apply dwp_ret, dwp_ret. split; [done|]. split; [done|].
  exists (drop (length bytes) bs). by rewrite length_drop, Hl.
Qed.

Lemma dwp_hdr_len flash x s : up s → banks flash = e810_banks x →
  dwp (ice_get_nvm_css_hdr_len flash ICE_ACTIVE_FLASH_BANK) s (fun r s' => up s' ∧ r = (ICE_SUCCESS, 330)).
Proof using H1 Hf Hu.
  intros Hs Hbk. apply dwp_bind. eapply dwp_mono; [by apply (dwp_module flash x ICE_NVM_CSS_HDR_LEN_L s (le_bytes 2 0xa1))|].
  intros [st v] s1 (Hs1 & Est & [|] & Hl & Ev); [|done]. cbn [fst snd] in Est, Ev. subst. on_ok.
  apply dwp_bind. eapply dwp_mono; [by apply (dwp_module flash x ICE_NVM_CSS_HDR_LEN_H s1 (le_bytes 2 0))|].
  intros [st v] s2 (Hs2 & Est & [|] & Hl2 & Ev); [|done]. cbn [fst snd] in Est, Ev. subst. on_ok. by apply dwp_ret.
Qed.

(** A word of the shadow RAM copy: the device answers with one byte. *)
Lemma dwp_sr_copy flash x w s : up s → banks flash = e810_banks x → 0 <= w < 0x1000 →
  dwp (ice_read_nvm_sr_copy flash ICE_ACTIVE_FLASH_BANK w) s (fun r s' => up s' ∧ r.1 = ICE_SUCCESS ∧ answered_word [0x40] r.2).
Proof using H1 Hf Hu.
  intros Hs Hbk Hw. apply dwp_bind. eapply dwp_mono; [by eapply dwp_hdr_len|]. intros ? s1 [Hs1 ->]. on_ok.
  change (ROUND_UP 330 32) with 352. rewrite wrap_small by (split; lia).
  apply (dwp_module flash x); [done|done|lia| |cbn; lia]. rewrite answer_high by lia. by rewrite (proj2 (Z.ltb_lt _ _)) by lia.
Qed.

Lemma dwp_nvm_ver flash x info s : up s → banks flash = e810_banks x →
  dwp (ice_get_nvm_ver_info flash ICE_ACTIVE_FLASH_BANK info) s (fun r s' => up s' ∧ r.1 = ICE_SUCCESS ∧ minor r.2 = 0x40).
Proof using H1 Hf Hu.
  intros Hs Hbk. apply dwp_bind. eapply dwp_mono; [by apply (dwp_sr_copy flash x ICE_SR_NVM_DEV_STARTER_VER)|].
  intros [st v] s1 (Hs1 & Est & [|y [|]] & Hl & Ev); try done. cbn [fst snd] in Est, Ev. subst st. on_ok. cbv zeta.
  apply dwp_bind. eapply dwp_mono; [by apply (dwp_sr_copy flash x ICE_SR_NVM_EETRACK_LO)|].
  intros [st v1] s2 (Hs2 & Est & _). cbn [fst snd] in Est. subst st. on_ok.
  apply dwp_bind. eapply dwp_mono; [by apply (dwp_sr_copy flash x ICE_SR_NVM_EETRACK_HI)|].
  intros [st v2] s3 (Hs3 & Est & _). cbn [fst snd] in Est. subst st. on_ok. cbv zeta.
  apply dwp_bind. unfold ice_get_nvm_srev. apply dwp_bind.
  eapply dwp_mono; [apply (dwp_module flash x ICE_NVM_CSS_SREV_L s3 [0x40]); done || (cbn; lia)|].
  intros [st v3] s4 (Hs4 & Est & _). cbn [fst snd] in Est. subst st. on_ok. apply dwp_bind.
  eapply dwp_mono; [apply (dwp_module flash x ICE_NVM_CSS_SREV_H s4 [0x40]); done || (cbn; lia)|].
  intros [st v4] s5 (Hs5 & Est & _). cbn [fst snd] in Est. subst st. on_ok. apply dwp_ret, dwp_ret. split; [done|]. split; [done|].
  cbn [is_ok snd minor set_field]. change (is_ok ICE_SUCCESS) with true. cbv iota. cbn -[Z.land Z.shiftr].
  rewrite Z.shiftr_0_r. change 0xff with (Z.ones 8). rewrite Z.land_ones by lia. unfold wrap. rewrite Zmod_mod.
  rewrite Ev. cbn [le app]. replace (64 + 2 ^ 8 * (y + 2 ^ 8 * 0)) with (64 + y * 2 ^ 8) by lia. by rewrite Z.mod_add by lia.
Qed.

(** The option ROM: every sector gives one byte 0x40 and leaves the cleared rest of the
    buffer, so there is no section with version information. *)
Definition empty_rom (data : list Z) : Prop := Forall (fun b => b = 0 ∨ b = 0x40) data.

Lemma dwp_rom_loop k offset len br data s : up s → 0x43a006 < offset → offset mod 4096 = 0 → 0 <= br < len → len < 2 ^ 31 →
  offset + (len - br) <= 0xc00000 → Z.of_nat (length data) = len → empty_rom data → (len - br - 1) / 4096 < Z.of_nat k →
  dwp (flat_loop k offset len br data false) s (fun r s' => up s' ∧ r.1.1 = ICE_SUCCESS ∧ empty_rom r.2 ∧ length r.2 = length data).
Proof using H1 Hf.
  revert offset br data s. induction k as [|k IH]; intros offset br data s Hs Ho Hal Hbr Hlen Hend Hd Hrom Hk; cbn [flat_loop].
  { pose proof (Z.div_pos (len - br - 1) 4096). lia. }
  unfold ICE_AQ_MAX_BUF_LEN. rewrite Hal, Z.sub_0_r, (wrap_small 32 (len - br)) by (split; lia).
  set (rs := Z.min 4096 (len - br)). assert (0 < rs <= 4096 ∧ rs <= len - br) as Hrs by (unfold rs; lia).
  rewrite (wrap_small 16 rs), (wrap_small 32 (br + rs)), (wrap_small 32 (offset + rs)) by (split; lia).
  apply dwp_bind. unfold bytes_at. rewrite (proj2 (Z.leb_le _ _)), (proj2 (Z.leb_le _ _)) by lia. cbn [andb d_option].
  apply dwp_ret, dwp_bind. set (part := take _ _). assert (length part = Z.to_nat rs) as Hlp by (unfold part; rewrite length_take, length_drop; lia).
  eapply dwp_mono; [apply (dwp_dev_read offset rs part _ false s 0 [0x40]); try done; try lia;
    [rewrite answer_high by lia; by rewrite (proj2 (Z.ltb_lt _ _)) by lia|cbn; lia]|].
  intros [st got] s1 (Hs1 & [= -> ->] & _). cbn [Z.eqb]. apply dwp_bind.
  set (new := 64 :: drop 1 part). assert (length new = Z.to_nat rs) as Hlg by (unfold new; cbn [length]; rewrite length_drop; lia).
  rewrite put_bytes_in by lia. cbn [d_option]. apply dwp_ret. set (data' := put data _ _). on_ok.
  assert (length data' = length data) as Hl' by (apply length_put; lia).
  assert (empty_rom data') as Hrom'.
  { unfold data', put. repeat (apply Forall_app; split); try (apply Forall_take, Hrom); try (apply Forall_drop, Hrom).
    constructor; [by right|]. apply Forall_drop, Forall_take, Forall_drop, Hrom. }
  destruct (Z.ltb_spec (br + rs) len) as [Hlt|]; cbn [negb].
  - assert (rs = 4096) as Ers by (unfold rs in *; lia). rewrite Ers in *. eapply dwp_mono; [apply IH; try done; try lia|].
    + rewrite <- (Z.mul_1_l 4096) at 1. by rewrite Z.mod_add by lia.
    + replace (len - (br + 4096) - 1) with (len - br - 1 + (-1) * 4096) by lia. rewrite Z.div_add by lia. lia.
    + intros r s' (? & ? & ? & ?). split_and!; try done. lia.
  - apply dwp_ret. by split_and!.
Qed.

Lemma civd_none k offset data : 0 <= offset → offset + 512 * Z.of_nat k <= Z.of_nat (length data) → empty_rom data →
  civd_scan k offset data = Some (ICE_ERR_NVM, []).
Proof using.
  clear. revert offset. induction k as [|k IH]; intros offset Ho Hl Hr; [done|]. cbn [civd_scan]. unfold bytes_at.
  rewrite (proj2 (Z.leb_le 0 offset)), (proj2 (Z.leb_le (offset + Z.of_nat 4) _)) by lia. cbn [andb mbind option_bind].
  rewrite bool_decide_false; [cbn [negb]; apply IH; done || lia|]. intros E.
  assert (empty_rom civd_signature) as Hc by (rewrite <- E; by apply Forall_take, Forall_drop).
  inversion Hc as [|? ? [Hb|Hb]]; done.
Qed.

Lemma up_malloc s : up s → dwp d_malloc s (fun ok s' => ok = true ∧ up s').
Proof using.
  intros Hs. exists true, s. split; [|done]. unfold d_malloc. cbn. by destruct s as [hw [h f e]].
Qed.

Lemma dwp_orom_ver flash x info s : up s → banks flash = e810_banks x →
  dwp (ice_get_orom_ver_info flash ICE_ACTIVE_FLASH_BANK info) s (fun r s' => up s' ∧ r = (ICE_ERR_NVM, info)).
Proof using H1 Hf Hu.
  intros Hs Hbk. apply dwp_bind. unfold ice_get_orom_civd_data. rewrite Hbk. cbn [e810_banks orom_size].
  change (0x7d000 =? 0) with false. cbv iota zeta. apply dwp_bind. eapply dwp_mono; [by apply up_malloc|]. intros ? s1 [-> Hs1].
  cbn [negb]. apply dwp_bind. unfold ice_read_flash_module, ice_get_flash_bank_offset. rewrite Hbk.
  change (ICE_SR_1ST_OROM_BANK_PTR =? ICE_SR_1ST_NVM_BANK_PTR) with false. cbn [e810_banks orom_ptr orom_size orom_bank].
  change (ICE_SR_1ST_OROM_BANK_PTR =? ICE_SR_1ST_OROM_BANK_PTR) with true. cbv iota.
  change (u32 (0x854000 + 0x7d000)) with 0x8d1000. change (0x8d1000 =? 0) with false. cbv iota zeta.
  apply dwp_bind. eapply dwp_mono; [by apply (dwp_acquire up)|]. intros st s2 [-> Hs2]. on_ok.
  change (u32 (0x8d1000 + 0)) with 0x8d1000. apply dwp_bind. unfold ice_read_flat_nvm. cbn [andb].
  eapply dwp_mono; [apply dwp_rom_loop; [done|lia|done|lia|lia|lia|rewrite length_replicate; lia| |vm_compute; done]|].
  { apply Forall_replicate. by left. }
  intros [[st k] data] s3 (Hs3 & Est & Hrom & Hl). cbn [fst snd] in *. subst st. rewrite length_replicate in Hl.
  apply dwp_bind. eapply dwp_mono; [by apply (dwp_release up)|]. intros ? s4 Hs4. apply dwp_ret. on_ok.
  rewrite civd_none; [|lia| |done]; [|rewrite Hl; change (0x7d000 / 512) with 1000; lia].
  apply dwp_ret. cbn [is_ok negb]. by apply dwp_ret.
Qed.

(** The driver's [ice_init_nvm] on the device model, through the control queue of the
    driver and the admin queue of the device: it returns with success from every idle
    state and finds a flash of 0xc00000 bytes, a shadow RAM of 32768 words, and the three
    modules in their second banks at the offsets the model answers with; the minor
    version is 0x40, and the option ROM is left without version information.  The size of
    the netlist module depends on a byte [x] of uninitialised driver memory, because the
    model has no answer of its own for that word. *)
Theorem init_nvm_e810 flash s : up s → hr ≠ GLNVM_GENS → hr ≠ GLNVM_FLA →
  dwp (ice_init_nvm flash) s (fun r s' => up s' ∧ ∃ x info, minor info = 0x40 ∧
    r = (ICE_SUCCESS, mkFlash (orom flash) info (e810_banks x) 32768 0xc00000 false)).
Proof using H1 Hf Hu.
  intros Hs Hg Hfl.
  assert (∀ reg, hr ≠ reg → d_rd32 reg s = Ret (e810_regs reg, s)) as Hrd.
  { intros reg Hne. unfold d_rd32. cbn. rewrite (proj2 (Z.eqb_neq reg hr)) by done. by destruct s as [hw [h f e]]. }
  apply dwp_bind. eexists _, s. split; [by apply Hrd|]. apply dwp_bind. eexists _, s. split; [by apply Hrd|].
  change (negb (nz (e810_regs GLNVM_FLA .& 0x40))) with false. cbv iota.
  apply dwp_bind. eapply dwp_mono; [by apply dwp_size|]. intros ? s1 [-> Hs1]. on_ok.
  apply dwp_bind. eapply dwp_mono; [by apply dwp_banks|]. intros ? s2 (Hs2 & x & ->). on_ok.
  apply dwp_bind. eapply dwp_mono; [by apply (dwp_nvm_ver _ x)|]. intros [st info] s3 (Hs3 & Est & Hmin). cbn [fst snd] in Est, Hmin.
  subst st. on_ok. apply dwp_bind. eapply dwp_mono; [by apply (dwp_orom_ver _ x)|]. intros ? s4 [Hs4 ->]. apply dwp_ret.
  split; [done|]. exists x, info. split; [done|]. reflexivity.
Qed.

(** ** Capabilities *)

(** The capabilities that the device lists, as the driver reads them. *)
Definition e810_caps : list ice_aqc_list_caps_elem :=
  [ mkCap 0x0005 2 1 0; mkCap 0x0040 2048 4 0; mkCap 0x0041 1536 0 0; mkCap 0x0042 1536 0 0; mkCap 0x0043 2048 0 0;
    mkCap 0x0017 383 0 0; mkCap 0x0018 1 4 1; mkCap 0x0051 1 1 1; mkCap 0x0045 8192 8192 0; mkCap 0x0046 0x1600008f 1 1 ].

Lemma cap_at_app buf rest i e : cap_at buf i = Some e → cap_at (buf ++ rest) i = Some e.
Proof using.
  clear. unfold cap_at. intros E.
  assert (∀ k o v, load k buf o = Some v → load k (buf ++ rest) o = Some v) as Hl.
  { intros k o v. unfold load, bytes_at. case_match eqn:Eb; [|done]. bool_to_prop.
    rewrite (proj2 (Z.leb_le _ _)), (proj2 (Z.leb_le _ _)) by (rewrite ?length_app; lia). cbn [andb fmap option_fmap option_map].
    rewrite drop_app_le, take_app_le by (rewrite ?length_drop; lia). done. }
  repeat match type of E with (?m ≫= _) = _ => destruct m eqn:?; [|done]; cbn [mbind option_bind] in E;
    match goal with H : load _ buf _ = Some _ |- _ => rewrite (Hl _ _ _ H); cbn [mbind option_bind]; clear H end end. done.
Qed.

(** The loop over a list of elements. *)
Fixpoint parse_list (parse : ice_aqc_list_caps_elem → hw_caps → DM (ice_hw * world (wire adm)) hw_caps)
    (es : list ice_aqc_list_caps_elem) (hw : hw_caps) : DM (ice_hw * world (wire adm)) hw_caps :=
  match es with [] => mret hw | e :: es => hw ← parse e hw; parse_list parse es hw end.

Lemma parse_caps_list parse es i buf hw s Q : (∀ j e, es !! j = Some e → cap_at buf (i + Z.of_nat j) = Some e) →
  dwp (parse_list parse es hw) s Q → dwp (parse_caps parse (length es) i buf hw) s Q.
Proof using.
  clear H1 Hf Hu. revert i hw s. induction es as [|e es IH]; intros i hw s He Hq; [done|]. cbn [length parse_caps].
  pose proof (He 0%nat e eq_refl) as E0. rewrite Z.add_0_r in E0. rewrite E0. cbn [d_option]. apply dwp_bind, dwp_ret, dwp_bind.
  cbn [parse_list] in Hq. destruct Hq as (a & s' & E & HQ). unfold mbind, DM_bind in E.
  destruct (parse e hw s) as [[hw1 s1]| |] eqn:Ep; [|done..]. eexists hw1, s1. split; [done|]. apply IH; [|by exists a, s'].
  intros j e' Hj. replace (i + 1 + Z.of_nat j) with (i + Z.of_nat (Datatypes.S j)) by lia. by apply He.
Qed.

Lemma concat_caps j e : e810_caps !! j = Some e → cap_at (concat caps) (Z.of_nat j) = Some e.
Proof using.
  clear. intros Hj. do 10 (destruct j as [|j]; [injection Hj as <-; vm_compute; done|]). done.
Qed.

(** The command: ten capabilities in the first 320 bytes of the buffer. *)
Lemma dwp_list_caps opc s n0 : up s → opc = ice_aqc_opc_list_func_caps ∨ opc = ice_aqc_opc_list_dev_caps →
  dwp (ice_aq_list_caps (replicate (Z.to_nat CAPS_BUF_LEN) 0) CAPS_BUF_LEN opc n0) s (fun r s' =>
    up s' ∧ ∃ rest, r = (ICE_SUCCESS, 10, concat caps ++ rest)).
Proof using H1 Hf.
  intros Hs Ho. unfold ice_aq_list_caps. replace (_ && _) with false by (by destruct Ho as [-> | ->]).
  apply dwp_bind, dwp_cmd; [done|by destruct Ho as [-> | ->]|]. intros m. set (buf := replicate _ 0).
  set (d1 := outgoing _ _ _ m).
  assert (answer (w_ctx (env s.2)) d1 (fetched d1 (Some buf) CAPS_BUF_LEN) (w_dev (env s.2)) =
    Some (w_dev (env s.2), desc_compl_prepare 0 ((pset 4 4 10 d1) <| datalen := 320 |>), Some (concat caps))) as Ha.
  { unfold answer, e810_answer, E810Adminq.command. change (nz (flags d1 .& ICE_AQ_FLAG_RD)) with false. cbn [mbind result_bind].
    assert (process junk mac inst (w_ctx (env s.2)) d1 (w_dev (env s.2)) = no_effect (w_dev (env s.2)) (list_caps d1)) as ->.
    { unfold process. replace (opcode d1) with opc by (by destruct Ho as [-> | ->]). by destruct Ho as [-> | ->]. }
    unfold list_caps, no_effect, desc_complete_indir. change (datalen d1) with CAPS_BUF_LEN. change (datalen (pset 4 4 10 d1)) with CAPS_BUF_LEN.
    change (320 <=? CAPS_BUF_LEN) with true. cbv iota. assert (Z.of_nat (length (concat caps)) = 320) as -> by (vm_compute; done).
    change (CAPS_BUF_LEN <? 320) with false. cbv iota. done. }
  eexists _, _, _. split; [exact Ha|]. split.
  { cbn. pose proof (up_size _ Hs). unfold ICE_AQ_MAX_BUF_LEN, CAPS_BUF_LEN in *. unfold buf. rewrite length_replicate. cbn. lia. }
  intros s' Hs' _ _. unfold incoming. change (CAPS_BUF_LEN <? _) with false. cbv iota. cbn [fst snd default from_option].
  apply dwp_ret. split; [done|]. exists (drop 320 buf).
  change (datalen (desc_compl_prepare 0 ((pset 4 4 10 d1) <| datalen := 320 |>))) with 320. change (Z.to_nat 320) with 320%nat.
  unfold filled, put. rewrite take_0. cbn [app Nat.add]. rewrite take_app_le, take_ge by (vm_compute; lia).
  change (pget 4 4 (desc_compl_prepare 0 _)) with (pget 4 4 (pset 4 4 10 d1)). by rewrite pget_pset by lia.
Qed.

(** What the driver knows afterwards. *)
Definition e810_common (ieee : bool) : ice_hw_common_caps :=
  common_zero <| valid_functions := 2 |> <| dcb := true |> <| active_tc_bitmap := 4 |> <| maxtc := 1 |>
    <| rss_table_size := 2048 |> <| rss_table_entry_width := 4 |> <| num_rxq := 1536 |> <| num_txq := 1536 |>
    <| num_msix_vectors := 2048 |> <| ieee_1588 := ieee |>.
Definition e810_dev_caps : ice_hw_dev_caps :=
  mkDevCaps (e810_common false) 383 8192 (mkTsDev 1 7 0 true true false true true true) 1 0 0.
Definition e810_func_caps : ice_hw_func_caps :=
  mkFuncCaps (e810_common true) 768 8192 8192 (mkTsFunc 0 false false true false true true).

Lemma dwp_read_reg reg s (Q : Z → _ → Prop) : hr ≠ reg → Q (e810_regs reg) s → dwp (d_rd32 reg) s Q.
Proof using.
  intros Hne HQ. eexists _, s. split; [|exact HQ]. unfold d_rd32. cbn. rewrite (proj2 (Z.eqb_neq reg hr)) by done.
  by destruct s as [hw [h f e]].
Qed.

Lemma dwp_discover_caps opc parse hw s Q : up s → opc = ice_aqc_opc_list_func_caps ∨ opc = ice_aqc_opc_list_dev_caps →
  (∀ rest s', up s' → dwp (parse (concat caps ++ rest) 10 hw) s' (fun hw' s'' => Q (ICE_SUCCESS, hw') s'')) →
  dwp (discover opc parse hw) s Q.
Proof using H1 Hf.
  intros Hs Ho Hp. apply dwp_bind. eapply dwp_mono; [by apply up_malloc|]. intros ? s1 [-> Hs1]. cbn [negb].
  apply dwp_bind. eapply dwp_mono; [by apply dwp_list_caps|]. intros ? s2 (Hs2 & rest & ->). on_ok.
  apply dwp_bind. eapply dwp_mono; [by apply Hp|]. intros hw' s3 HQ. by apply dwp_ret.
Qed.

Lemma dwp_parse_ten parse rest hw s Q : dwp (parse_list parse e810_caps hw) s Q →
  dwp (parse_caps parse (Z.to_nat 10) 0 (concat caps ++ rest) hw) s Q.
Proof using.
  intros HQ. change (Z.to_nat 10) with (length e810_caps). apply parse_caps_list; [|done].
  intros j e Hj. by apply cap_at_app, concat_caps.
Qed.

Lemma dev_parsed fc pf lpf s : parse_list parse_dev_cap e810_caps (mkHwCaps dev_zero fc pf lpf false) s =
  Ret (mkHwCaps e810_dev_caps fc pf (ice_func_id_to_logical_id 2 pf) false, s).
Proof using. vm_compute. reflexivity. Qed.

(** The function capabilities before and after the flow director. *)
Definition func_part (guar best : Z) : ice_hw_func_caps :=
  mkFuncCaps (e810_common false) 768 guar best ts_func_zero.

Lemma func_parsed dc pf lpf s : dc = e810_dev_caps → hr ≠ GLQF_FD_SIZE →
  parse_list parse_func_cap e810_caps (mkHwCaps dc func_zero pf lpf false) s =
  Ret (mkHwCaps dc e810_func_caps pf lpf false, s).
Proof using.
  intros -> Hfd. change e810_caps with (take 8 e810_caps ++ [mkCap 0x0045 8192 8192 0; mkCap 0x0046 0x1600008f 1 1]).
  assert (∀ xs ys hw hw' s', parse_list parse_func_cap xs hw s = Ret (hw', s') →
    parse_list parse_func_cap (xs ++ ys) hw s = parse_list parse_func_cap ys hw' s') as Happ.
  { clear. intros xs. revert s. induction xs as [|e xs IH]; intros s ys hw hw' s' E; [by injection E as <- <-|].
    cbn [app parse_list] in *. unfold mbind, DM_bind in *. destruct (parse_func_cap e hw s) as [[hw1 s1]| |]; [|done..]. by apply IH. }
  rewrite (Happ _ _ _ (mkHwCaps e810_dev_caps (func_part 0 0) pf lpf false) s) by (vm_compute; reflexivity).
  cbn [parse_list]. change (parse_func_cap (mkCap 0x0045 8192 8192 0)) with (fun hw : hw_caps => ice_parse_fdir_func_caps
    (hw <| func_caps ::= fun f => f <| f_common ::= fun c => (ice_parse_common_caps (mkCap 0x0045 8192 8192 0) c).1 |> |>)).
  cbv beta. unfold ice_parse_fdir_func_caps. match goal with |- context [if ?b then mret _ else _] => change b with false end. cbv iota.
  unfold mbind, DM_bind. destruct (dwp_read_reg GLQF_FD_SIZE s (fun v s' => v = e810_regs GLQF_FD_SIZE ∧ s' = s)) as (v & s' & -> & -> & ->);
    [done|done|]. vm_compute. reflexivity.
Qed.


(** ** Resources *)

Lemma data_fetch_has pos bytes a : adm_wf a → (0 < length bytes)%nat →
  ∃ a1 b rest, data_fetch pos bytes a = Ok a1 ∧ has_data a1 pos b (bytes ++ rest).
Proof using.
  clear. intros Hwf Hb. destruct (data_fetch_ok pos bytes a Hwf) as (a1 & E & _ & Harr & _).
  destruct Harr as (b & bs & Hd & Ht); [by destruct bytes; cbn in *; [lia|]|]. exists a1, b, (drop (length bytes) bs). split; [done|]. by rewrite <- Ht at 1; rewrite take_drop.
Qed.

(** The buffer of an allocation: type and number, then the cleared elements. *)
Definition res_buf (hdr : list Z) (num : Z) : list Z := hdr ++ replicate (Z.to_nat (2 * num)) 0.

(** Writing the number 0 to the first element changes nothing. *)
Lemma put_zero hdr num rest : length hdr = 4%nat → 1 <= num →
  put (res_buf hdr num ++ rest) 4 (le_bytes 2 0) = res_buf hdr num ++ rest.
Proof using.
  clear. intros Hh Hn. unfold res_buf. replace (Z.to_nat (2 * num)) with (2 + Z.to_nat (2 * num - 2))%nat by lia.
  rewrite replicate_add. cbn [replicate]. unfold put. rewrite <- !app_assoc.
  rewrite take_app_length' by done. change (4 + length (le_bytes 2 0))%nat with (4 + 2)%nat. rewrite <- drop_drop, drop_app_length' by done. done.
Qed.

Lemma alloc_answer desc hdr num c a m : adm_wf a → opcode desc = ice_aqc_opc_alloc_res → flags desc = ICE_AQ_FLAG_SI .| ICE_AQ_FLAG_RD →
  pget 2 0 desc = 1 → length hdr = 4%nat → 1 <= num → 4 + 2 * num <= 4096 →
  let buf := res_buf hdr num in let d1 := outgoing desc (Some buf) (4 + 2 * num) m in
  ∃ a' d', answer c d1 (fetched d1 (Some buf) (4 + 2 * num)) a = Some (a', d', Some buf) ∧ retval d' = 0 ∧ datalen d' = 4 + 2 * num.
Proof using.
  intros Hwf Hop Hfl Hne Hh Hnum Hmax buf d1. clear H1 Hf Hu Hn.
  assert (length buf = Z.to_nat (4 + 2 * num)) as Hlb by (unfold buf, res_buf; rewrite length_app, length_replicate; lia).
  assert (nz (flags d1 .& ICE_AQ_FLAG_RD) = true) as Hrd by (cbn; rewrite Hfl; by destruct (ICE_AQ_LG_BUF <? 4 + 2 * num)).
  assert (fetched d1 (Some buf) (4 + 2 * num) = buf) as -> by (unfold fetched; rewrite Hrd; apply take_ge; lia).
  destruct (data_fetch_has c buf a Hwf) as (a1 & b & rest & Ef & Hd); [lia|].
  unfold answer, e810_answer, E810Adminq.command. rewrite Hrd. change (datalen d1) with (4 + 2 * num). rewrite take_ge by lia. rewrite Ef.
  cbn [mbind result_bind].
  assert (process junk mac inst c d1 a1 = with_data c d1 (alloc_res c d1 a1)) as ->
    by (unfold process; change (opcode d1) with (opcode desc); by rewrite Hop).
  assert (∃ a2, alloc_res c d1 a1 = Ok a2 ∧ has_data a2 c b (buf ++ rest)) as (a2 & -> & Hd2).
  { unfold alloc_res. unfold d1. rewrite (shown_ok _ _ _ _ _ _ Hd) by (rewrite ?length_app; lia). cbn [mbind result_bind]. rewrite pget_outgoing, Hne by lia. change (Z.to_nat 1) with 1%nat. cbn [for_res].
    assert (∃ ty, load 2 (buf ++ rest) 0 = Some ty) as [ty Hty].
    { unfold load, bytes_at. rewrite (proj2 (Z.leb_le _ _)), (proj2 (Z.leb_le _ _)) by (rewrite ?length_app; lia). by eexists. }
    rewrite (shown_ok _ _ _ _ _ _ Hd) by (rewrite ?length_app; lia). cbn [mbind result_bind].
    rewrite (data_field_ok _ _ _ _ _ _ Hd), Hty. cbn [of_opt mbind result_bind]. case_match; [|by eexists].
    destruct (set_data_ok a1 c b (buf ++ rest) 2 (4 + 2 * 0) 0 Hd) as (Es & Hd' & _); [lia|rewrite length_app; lia|].
    rewrite Es. eexists. split; [done|]. split; [exact (proj1 Hd')|]. etrans; [exact (proj2 Hd')|]. f_equal. by apply put_zero. }
  unfold with_data, complete_data. cbn [mbind result_bind]. change (datalen d1) with (4 + 2 * num).
  assert (data_prefix c (4 + 2 * num) a2 = Ok buf) as ->.
  { unfold data_prefix. rewrite (proj2 (Z.eqb_neq _ _)) by lia. rewrite (get_data_ok _ _ _ _ Hd2). cbn [mbind result_bind]. unfold bytes_at.
    rewrite (proj2 (Z.leb_le _ _)), (proj2 (Z.leb_le _ _)) by (rewrite ?length_app; lia). cbn [andb of_opt]. f_equal.
    rewrite drop_0, take_app_length' by lia. done. }
  cbn [mbind result_bind]. unfold desc_complete_indir. change (datalen d1) with (4 + 2 * num). rewrite (proj2 (Z.ltb_ge _ _)) by lia.
  cbn [mbind result_bind]. eexists _, _. split; [done|]. split; [done|]. cbn. lia.
Qed.

(** [ice_alloc_hw_res] on the device model always succeeds, and always with the same
    resources: whatever type and number the driver asks for, every identifier that it gets
    is 0, so that no two resources of the driver are distinct. *)
Theorem alloc_hw_res_e810 type num btm s : up s → 1 <= num → 4 + 2 * num <= 4096 →
  dwp (ice_alloc_hw_res type num btm) s (fun r s' => up s' ∧ r = (ICE_SUCCESS, Some (replicate (Z.to_nat (2 * num)) 0))).
Proof using H1 Hf.
  intros Hs Hnum Hmax. unfold ice_alloc_hw_res, res_buf_len. rewrite wrap_small by (split; lia).
  rewrite (proj2 (Z.eqb_neq _ _)) by lia. apply dwp_bind. eapply dwp_mono; [by apply up_malloc|]. intros ? s1 [-> Hs1]. cbn [negb]. cbv zeta.
  set (ty := if btm then _ else _).
  assert (∃ hdr, length hdr = 4%nat ∧ (b ← store 2 (replicate (Z.to_nat (4 + 2 * num)) 0) 2 num; store 2 b 0 ty) = Some (res_buf hdr num)) as (hdr & Hh & ->).
  { exists (le_bytes 2 ty ++ le_bytes 2 num). split; [done|]. rewrite store_in by (rewrite ?length_replicate; lia). cbn [mbind option_bind].
    rewrite store_in by (lia || (rewrite length_put, length_replicate; [lia|rewrite length_replicate, length_le_bytes; lia])). f_equal. unfold res_buf.
    replace (Z.to_nat (4 + 2 * num)) with (4 + Z.to_nat (2 * num))%nat by lia. rewrite replicate_add. done. }
  cbn [d_option]. apply dwp_bind, dwp_ret, dwp_bind. unfold ice_aq_alloc_free_res. rewrite (proj2 (Z.ltb_ge _ _)) by lia.
  apply dwp_bind, dwp_cmd; [done|done|]. intros m.
  destruct (alloc_answer (pset 2 0 1 ((ice_fill_dflt_direct_cmd_desc ice_aqc_opc_alloc_res) <| flags := ICE_AQ_FLAG_SI .| ICE_AQ_FLAG_RD |>)) hdr num
    (w_ctx (env s1.2)) (w_dev (env s1.2)) m (up_wf _ Hs1)) as (a' & d' & Ha & Hr & Hd); [done|done|by rewrite pget_pset by lia|done|lia|lia|].
  exists a', d', (Some (res_buf hdr num)). split; [exact Ha|].
  assert (length (res_buf hdr num) = Z.to_nat (4 + 2 * num)) as Hl by (unfold res_buf; rewrite length_app, length_replicate; lia).
  split; [cbn; pose proof (up_size _ Hs1); unfold ICE_AQ_MAX_BUF_LEN in *; split_and!; lia|].
  intros s2 Hs2 _ _. unfold incoming. rewrite Hd, Z.ltb_irrefl. cbn [fst snd]. apply dwp_ret. unfold status_of, rc_of. rewrite Hr.
  cbn [filled]. unfold put. rewrite take_0. cbn [app Nat.add]. rewrite take_app_length', drop_ge, app_nil_r by lia.
  change (negb _) with false. cbv iota. cbn [mbind option_bind]. apply dwp_bind. unfold bytes_at.
  rewrite (proj2 (Z.leb_le _ _)), (proj2 (Z.leb_le _ _)) by lia. cbn [andb d_option]. apply dwp_ret, dwp_ret. split; [done|]. do 2 f_equal.
  unfold res_buf. rewrite drop_app_length' by lia. apply take_ge. rewrite length_replicate. lia.
Qed.
End driver.

(** ** An initial state

    A queue of four entries with buffers of 4096 bytes, and a device without any
    commands so far; uninitialised memory holds 0xEE. *)
Module Start.
Definition adm0 : adm :=
  mkAdm ∅ 0 ∅ ∅ 60 3 (replicate (Z.to_nat 2048) (replicate 22 0)) (replicate (Z.to_nat 2048) 0) (replicate (Z.to_nat 1536) Cases.idle_queue)
    (replicate 224 0) 0 0 new_switch.
Definition cq : ice_ctl_q_info := Echo.cq (Z.of_nat (Z.to_nat 4096)).
Definition hw : ice_hw := mkCtlHw cq cq cq false ICE_MAC_E810 0 0 0 0 0 0 0 0 0.
Definition junk (i : Z) : Z := 0xAA.
Definition uninit (k : nat) (s : ice_hw * world (wire adm)) : list Z := replicate k 0xEE.
Definition s0 : ice_hw * world (wire adm) := (hw, Echo.start (Z.to_nat 4096) adm0).
Definition flash0 : ice_flash_info :=
  mkFlash (mkOromInfo 0 0 0 0) (mkNvmInfo 0 0 0 0)
    (mkBanks 0 0 0 0 0 0 ICE_INVALID_FLASH_BANK ICE_INVALID_FLASH_BANK ICE_INVALID_FLASH_BANK) 0 0 false.

Lemma s0_up : up junk 0x123456 false 4 (r_ATQH PF_FW) (r_ATQT PF_FW) Echo.four s0.
Proof.
  split; [done| |done|done|].
  2: { change (adm_wf adm0). split; [done|done|split; [by intros b [bs Hb]|done]| |apply length_replicate]. by destruct (wf_queues _ Cases.s0_wf). }
  apply (Echo.start_idle (H := e810_answer junk 0x123456 false) e810_regs (Z.to_nat 4096) adm0). lia.
Qed.
End Start.

Lemma init_nvm_e810_witness :
  dwp (ice_init_nvm (H := e810_dev Start.junk 0x123456 false 4 (r_ATQH PF_FW) (r_ATQT PF_FW) 4 Start.uninit) Start.flash0) Start.s0
    (fun r s' => up Start.junk 0x123456 false 4 (r_ATQH PF_FW) (r_ATQT PF_FW) Echo.four s' ∧ ∃ x info, minor info = 0x40 ∧
      r = (ICE_SUCCESS, mkFlash (mkOromInfo 0 0 0 0) info (e810_banks x) 32768 0xc00000 false)).
Proof.
  exact (init_nvm_e810 Start.junk 0x123456 false 4 (r_ATQH PF_FW) (r_ATQT PF_FW) Echo.four 4 Start.uninit ltac:(lia) ltac:(lia)
    (fun k s => length_replicate k 0xEE) Start.flash0 Start.s0 Start.s0_up ltac:(done) ltac:(done)).
Defined.


Lemma alloc_hw_res_e810_witness :
  dwp (ice_alloc_hw_res (H := e810_dev Start.junk 0x123456 false 4 (r_ATQH PF_FW) (r_ATQT PF_FW) 4 Start.uninit) 0x58 1 true) Start.s0
    (fun r s' => up Start.junk 0x123456 false 4 (r_ATQH PF_FW) (r_ATQT PF_FW) Echo.four s' ∧ r = (ICE_SUCCESS, Some [0; 0])).
Proof.
  exact (alloc_hw_res_e810 Start.junk 0x123456 false 4 (r_ATQH PF_FW) (r_ATQT PF_FW) Echo.four 4 Start.uninit ltac:(lia) ltac:(lia)
    0x58 1 true Start.s0 Start.s0_up ltac:(lia) ltac:(lia)).
Defined.
