(* ===== verification/E810Ptp.v ===== *)
(** * The PTP clock

    [PTPManager] of e810_ptp.cc.  A time stamp is a 128-bit integer whose bits 32 to
    95 are the field [time].  With mediation the clock is that of the card; without
    it, it is advanced by the time that has passed since the last reading. *)
From S2P Require Import Prelude.
Local Open Scope Z_scope.

Definition E810_TIMESTAMP_MASK : Z := Z.ones 96.

(** The field [time], and its assignment. *)
Definition time (value : Z) : Z := (value .>> 32) .& Z.ones 64.
Definition set_time (value t : Z) : Z :=
  (value .& Z.ones 32) .| (u64 t .<< 32) .| ((value .>> 96) .<< 96).

(** [(uint64_t)((double) x)]: rounding to 53 significant bits, ties to even. *)
Definition via_double (x : Z) : Z :=
  if x <? 2 ^ 53 then x
  else
    let k := Z.log2 x - 52 in
    let q := x .>> k in
    let r := x mod 2 ^ k in
    let up := (2 ^ (k - 1) <? r) || ((r =? 2 ^ (k - 1)) && Z.odd q) in
    u64 ((if up then q + 1 else q) .<< k).

Record PTPManager := mkPtp { last_updated : Z; last_val : Z; offset : Z; inc_val : Z }.
#[export] Instance ptp_settable : Settable PTPManager := fun r =>
  mkPtp (last_updated r) (last_val r) (offset r) (inc_val r).

Definition new_ptp : PTPManager := mkPtp 0 0 0 0x100000000.

(** The clock behind the reading: the card's, or [CLOCK_MONOTONIC], in ns; [None]
    when [clock_gettime] fails. *)
Inductive clock :=
| Mediated (nanos : Z)
| Emulated (nanos : option Z).

Definition phc_read (c : clock) (m : PTPManager) : Z * PTPManager :=
  let adjusted m :=
    let m := if nz (offset m)
             then m <| last_val := wrap 128 (last_val m + (offset m .& E810_TIMESTAMP_MASK)) |> else m in
    (last_val m, m) in
  match c with
  | Mediated ns => adjusted (m <| last_val := u64 ns .<< 32 |>)
  | Emulated None => (0, m)
  | Emulated (Some now) =>
      let cycles_passed := u64 (now - last_updated m) in
      adjusted (m <| last_updated := now |>
                  <| last_val := set_time (last_val m) (time (last_val m) + via_double cycles_passed) |>)
  end.

Definition phc_write (val : Z) (m : PTPManager) : PTPManager :=
  m <| offset := wrap 128 (offset m + (val - last_val m)) |>.
Definition adjust (val : Z) (m : PTPManager) : PTPManager := m <| offset := wrap 128 (offset m + val) |>.
Definition set_incval (inc : Z) (m : PTPManager) : PTPManager := m <| inc_val := inc |>.
Definition get_incval (m : PTPManager) : Z := inc_val m.

(** ** Readings *)

(** [n] more readings at the same instant. *)
Fixpoint reads (n : nat) (c : clock) (m : PTPManager) : Z * PTPManager :=
  match n with
  | O => (last_val m, m)
  | S n' => reads n' c (phc_read c m).2
  end.

Lemma time_spec v : time v = slice v 32 64.
Proof. unfold time, slice, wrap. by rewrite Z.land_ones. Qed.

Lemma time_shift x : time (x .<< 32) = u64 x.
Proof.
  rewrite time_spec. unfold slice. f_equal. rewrite Z.shiftr_shiftl_l by done. by rewrite Z.shiftl_0_r.
Qed.

(** The field is unaffected by what happens above bit 95. *)
Lemma time_wrap v : time (wrap 128 v) = time v.
Proof.
  rewrite !time_spec. apply Z.bits_inj'. intros i Hi. rewrite !slice_bit, testbit_wrap by lia.
  destruct (Z.ltb_spec i 64); [|done]. by rewrite (proj2 (Z.ltb_lt _ _)) by lia.
Qed.

Lemma time_add_mask a b : time (a + (b .& E810_TIMESTAMP_MASK)) = time (a + b).
Proof.
  rewrite !time_spec. unfold slice, wrap, E810_TIMESTAMP_MASK. rewrite Z.land_ones by done.
  rewrite !Z.shiftr_div_pow2 by done. rewrite (Z.div_mod b (2 ^ 96)) at 2 by done.
  replace (a + (2 ^ 96 * (b / 2 ^ 96) + b mod 2 ^ 96)) with (a + b mod 2 ^ 96 + (2 ^ 64 * (b / 2 ^ 96)) * 2 ^ 32) by ring.
  rewrite Z.div_add by done. rewrite (Z.mul_comm (2 ^ 64)), Z_mod_plus_full. done.
Qed.

Lemma set_time_self v : in_width 128 v → set_time v (time v) = v.
Proof.
  intros Hv. apply Z.bits_inj'. intros i Hi. unfold set_time.
  rewrite !Z.lor_spec, Z.land_spec, Z.testbit_ones, !Z.shiftl_spec by lia.
  rewrite (proj2 (Z.leb_le 0 i)) by lia. cbn [andb].
  assert (∀ j, Z.testbit (u64 (time v)) j = (0 <=? j) && (j <? 64) && Z.testbit v (32 + j)) as Ht.
  { intros j. destruct (Z.leb_spec 0 j); [|by rewrite Z.testbit_neg_r by lia].
    rewrite testbit_wrap, time_spec, slice_bit by lia. by destruct (Z.ltb_spec j 64). }
  rewrite Ht. destruct (Z.ltb_spec i 32) as [H32|H32].
  - rewrite (proj2 (Z.leb_gt 0 (i - 32))) by lia. rewrite (Z.testbit_neg_r _ (i - 96)) by lia.
    by rewrite andb_true_r, !orb_false_r.
  - rewrite (proj2 (Z.leb_le 0 (i - 32))), andb_false_r by lia. cbn [orb andb].
    replace (32 + (i - 32)) with i by lia. destruct (Z.ltb_spec (i - 32) 64).
    + rewrite (Z.testbit_neg_r _ (i - 96)) by lia. by rewrite orb_false_r.
    + cbn. rewrite Z.shiftr_spec by lia. f_equal. lia.
Qed.

(** A second reading at the instant of the first one. *)
Lemma read_again now m : in_width 128 (last_val m) → nz (offset m) = true → last_updated m = now →
  phc_read (Emulated (Some now)) m =
  let v := wrap 128 (last_val m + (offset m .& E810_TIMESTAMP_MASK)) in (v, m <| last_val := v |>).
Proof.
  intros Hw Ho <-. unfold phc_read. rewrite Z.sub_diag.
  change (via_double (u64 0)) with 0. rewrite Z.add_0_r, set_time_self by done. cbn. rewrite Ho. by destruct m.
Qed.

Lemma reads_drift n now m : in_width 128 (last_val m) → nz (offset m) = true → last_updated m = now →
  (reads n (Emulated (Some now)) m).1 = wrap 128 (last_val m + Z.of_nat n * (offset m .& E810_TIMESTAMP_MASK)).
Proof.
  revert m. induction n as [|n IH]; intros m Hw Ho Hu; cbn [reads].
  { cbn. rewrite Z.add_0_r. by rewrite wrap_small. }
  rewrite read_again by done. cbn [snd]. rewrite IH by (done || by apply wrap_width). cbn [last_val offset set_field].
  unfold wrap. rewrite Zplus_mod_idemp_l. f_equal. lia.
Qed.

(** Setting the clock.  With mediation, after the guest has set the clock to
    [x] at the instant [t0] of the card, a reading at [t] is [x + (t - t0)].  In
    emulation, a correction is added again at every reading: [n] more readings at
    the same instant are off by [n] times the correction. *)
Theorem ptp_set_clock m x t0 t n now : 0 <= x < 2 ^ 62 → 0 <= t0 <= t → t < 2 ^ 62 →
  offset m = 0 → in_width 128 (last_val m) →
  let m0 := (phc_read (Mediated t0) m).2 in
  let m1 := (phc_read (Emulated (Some now)) (phc_write (x .<< 32) m0)).2 in
  time (phc_read (Mediated t) (phc_write (x .<< 32) m0)).1 = x + (t - t0) ∧
  (x ≠ t0 → (reads n (Emulated (Some now)) m1).1 =
    wrap 128 (last_val m1 + Z.of_nat n * (((x - t0) .<< 32) .& E810_TIMESTAMP_MASK))).
Proof.
  intros Hx Ht0 Ht Ho Hw m0 m1.
  assert (m0 = m <| last_val := t0 .<< 32 |>) as E0.
  { unfold m0, phc_read. rewrite wrap_small by (unfold in_width; lia). cbn. by rewrite Ho. }
  assert (phc_write (x .<< 32) m0 = m0 <| offset := wrap 128 ((x - t0) .<< 32) |>) as Ew.
  { unfold phc_write. rewrite E0. cbn. rewrite Ho, Z.add_0_l, !Z.shiftl_mul_pow2, <- Z.mul_sub_distr_r by done. done. }
  assert (∀ v, v .& E810_TIMESTAMP_MASK = wrap 128 v .& E810_TIMESTAMP_MASK) as Hm.
  { intros v. unfold E810_TIMESTAMP_MASK, wrap. rewrite !Z.land_ones by done.
    symmetry. apply Z.mod_mod_divide. by exists (2 ^ 32). }
  split.
  - rewrite Ew. unfold phc_read. cbn [offset set_field last_val]. rewrite (wrap_small 64 t) by (unfold in_width; lia).
    assert (time (t .<< 32 + ((x - t0) .<< 32)) = x + (t - t0)) as Et.
    { rewrite !Z.shiftl_mul_pow2, <- Z.mul_add_distr_r, <- Z.shiftl_mul_pow2 by done.
      rewrite time_shift, wrap_small by (unfold in_width; lia). lia. }
    destruct (nz _) eqn:En; cbn [fst last_val].
    + by rewrite time_wrap, <- Hm, time_add_mask.
    + unfold nz in En. apply negb_false_iff, Z.eqb_eq in En. rewrite <- Et.
      rewrite <- (time_add_mask _ ((x - t0) .<< 32)), Hm, En. cbn. by rewrite Z.add_0_r.
  - intros Hne.
    assert (nz (wrap 128 ((x - t0) .<< 32)) = true) as Hnz.
    { unfold nz. apply negb_true_iff, Z.eqb_neq. unfold wrap. rewrite Z.shiftl_mul_pow2 by done. intros E.
      apply Z.mod_divide in E as [k E]; [|done]. change (2 ^ 128) with (2 ^ 96 * 2 ^ 32) in E. lia. }
    unfold m1. rewrite Ew. set (o := wrap 128 ((x - t0) .<< 32)) in *.
    rewrite Hm. fold o.
    assert (offset (phc_read (Emulated (Some now)) (m0 <| offset := o |>)).2 = o ∧
      last_updated (phc_read (Emulated (Some now)) (m0 <| offset := o |>)).2 = now ∧
      in_width 128 (last_val (phc_read (Emulated (Some now)) (m0 <| offset := o |>)).2)) as (H1 & H2 & H3).
    { unfold phc_read. cbn. rewrite Hnz. cbn. split_and!; try done. by apply wrap_width. }
    rewrite reads_drift by (rewrite ?H1; done). by rewrite H1.
Qed.

Lemma ptp_set_clock_witness :
  let m0 := (phc_read (Mediated 1000) new_ptp).2 in
  time (phc_read (Mediated 1500) (phc_write (900 .<< 32) m0)).1 = 900 + (1500 - 1000).
Proof.
  by apply (ptp_set_clock new_ptp 900 1000 1500 2 77).
Defined.
