(* ===== verification/VmuxDma.v ===== *)
(** * Access to guest memory

    The table of guest memory regions of vfio-server.hpp ([map_dma_here],
    [unmap_dma_here], [dma_local_addr]) and the transfers of the device model,
    [CallbackAdaptor::IssueDma] of nicbm.h. *)
From S2P Require Import Prelude Bytes E810Base.
Local Open Scope Z_scope.

Record iovec := mkIovec { iov_base : Z; iov_len : Z }.

(** [std::map<void *, iovec *>], in the order of its keys. *)
Definition mappings := list (Z * iovec).

(** [mappings[iova] = seg] *)
Fixpoint map_insert (iova : Z) (seg : iovec) (ms : mappings) : mappings :=
  match ms with
  | [] => [(iova, seg)]
  | (k, s) :: ms' =>
      if iova <? k then (iova, seg) :: ms
      else if iova =? k then (iova, seg) :: ms'
      else (k, s) :: map_insert iova seg ms'
  end.

(** [mappings.erase(iova)] *)
Definition map_erase (iova : Z) (ms : list (Z * iovec)) : list (Z * iovec) :=
  filter (fun m => m.1 ≠ iova) ms.

(** The region to map as the server library reports it: its address in the guest,
    [vaddr] (zero if it cannot be mapped), and the local mapping, which is what
    [vfu_sgl_get] returns. *)
Record dma_info := mkDmaInfo { di_iova : Z; di_vaddr : Z; di_mapping : iovec }.

Definition map_dma_here (info : dma_info) (ms : mappings) : bool * mappings :=
  if di_vaddr info =? 0 then (false, ms)
  else (true, map_insert (di_iova info) (di_mapping info) ms).

Definition unmap_dma_here (info : dma_info) (ms : mappings) : bool * mappings :=
  if iov_base (di_mapping info) =? 0 then (false, ms)
  else (false, map_erase (di_iova info) ms).

(** The search from the highest region down. *)
Fixpoint translate (ms : mappings) (dma_address len : Z) : result (option Z) :=
  match ms with
  | [] => Ok None
  | (iova_start, seg) :: ms' =>
      let iova_end := u64 (iova_start + iov_len seg) in
      if (iova_start <=? dma_address) && (dma_address <? iova_end) then
        if iova_end <? u64 (dma_address + len) then Abort
        else Ok (Some (u64 (iov_base seg + u64 (dma_address - iova_start))))
      else translate ms' dma_address len
  end.

Definition dma_local_addr (ms : mappings) (dma_address len : Z) : result (option Z) :=
  translate (rev ms) dma_address len.

(** ** Transfers *)

Definition memory := Z → Z.

Definition read_mem (mem : memory) (a : Z) (n : Z) : list Z := (fun i => mem (a + i)) <$> seqZ 0 n.
Definition write_mem (mem : memory) (a : Z) (bs : list Z) : memory := fun x =>
  if (a <=? x) && (x <? a + Z.of_nat (length bs)) then default 0 (bs !! Z.to_nat (x - a)) else mem x.

Inductive dma_op :=
| DmaWrite (addr : Z) (data : list Z)
| DmaRead (addr len : Z).

(** The memory and the data read. *)
Definition IssueDma (ms : mappings) (op : dma_op) (mem : memory) : result (memory * list Z) :=
  match op with
  | DmaWrite addr data =>
      a ← dma_local_addr ms addr (Z.of_nat (length data));
      match a with Some a => Ok (write_mem mem a data, []) | None => Abort end
  | DmaRead addr len =>
      a ← dma_local_addr ms addr len;
      match a with Some a => Ok (mem, read_mem mem a len) | None => Abort end
  end.

(** ** The table *)

(** The regions do not wrap, and no two of them overlap in the guest. *)
Definition region_ok (m : Z * iovec) : Prop :=
  0 <= m.1 ∧ 0 < iov_len m.2 ∧ m.1 + iov_len m.2 < 2 ^ 64 ∧
  0 <= iov_base m.2 ∧ iov_base m.2 + iov_len m.2 < 2 ^ 64.

Definition inside (addr : Z) (m : Z * iovec) : Prop := m.1 <= addr < m.1 + iov_len m.2.

Definition apart (m n : Z * iovec) : Prop := m.1 + iov_len m.2 <= n.1.

Inductive table_ok : mappings → Prop :=
| table_nil : table_ok []
| table_cons m ms : region_ok m → Forall (apart m) ms → table_ok ms → table_ok (m :: ms).

(** What a translation should return. *)
Definition translation (ms : mappings) (addr len : Z) : result (option Z) :=
  match List.find (fun m => bool_decide (m.1 <= addr < m.1 + iov_len m.2)) ms with
  | Some m => if m.1 + iov_len m.2 <? addr + len then Abort else Ok (Some (iov_base m.2 + (addr - m.1)))
  | None => Ok None
  end.

Lemma table_ok_regions ms : table_ok ms → Forall region_ok ms.
Proof. induction 1; by constructor. Qed.

Lemma translate_skip ms addr len : Forall region_ok ms → (∀ m, m ∈ ms → ¬ inside addr m) →
  translate ms addr len = Ok None.
Proof.
  induction 1 as [|[k s] ms (H0 & H1 & H2 & _) _ IH]; intros Hn; [done|]. cbn in H0, H1, H2. cbn [translate].
  rewrite wrap_small by (unfold in_width; lia).
  destruct (Z.leb_spec k addr), (Z.ltb_spec addr (k + iov_len s)); cbn;
    try (apply IH; intros m Hm; apply Hn; by right).
  destruct (Hn (k, s)); [by left|]. unfold inside. cbn. lia.
Qed.

Lemma translate_app xs ys addr len : Forall region_ok xs → (∀ m, m ∈ xs → ¬ inside addr m) →
  translate (xs ++ ys) addr len = translate ys addr len.
Proof.
  induction 1 as [|[k s] xs (H0 & H1 & H2 & _) _ IH]; intros Hn; [done|]. cbn in H0, H1, H2. cbn [app translate].
  rewrite wrap_small by (unfold in_width; lia).
  destruct (Z.leb_spec k addr), (Z.ltb_spec addr (k + iov_len s)); cbn;
    try (apply IH; intros m Hm; apply Hn; by right).
  destruct (Hn (k, s)); [by left|]. unfold inside. cbn. lia.
Qed.

Lemma elem_of_rev (ms : mappings) m : m ∈ rev ms ↔ m ∈ ms.
Proof. rewrite !list_elem_of_In. symmetry. apply in_rev. Qed.

Lemma dma_local_addr_spec ms addr len : table_ok ms → 0 <= len → 0 <= addr → addr + len < 2 ^ 64 →
  dma_local_addr ms addr len = translation ms addr len.
Proof.
  intros Hok Hl Ha Hw. unfold dma_local_addr, translation.
  induction Hok as [|m ms Hm Hap Hok IH]; [done|]. cbn [rev List.find].
  assert (Forall region_ok (rev ms)) as Hr by (apply Forall_rev; by apply table_ok_regions).
  case_bool_decide as Hin.
  - rewrite translate_app; [|done|].
    + destruct m as [k s], Hm as (H0 & H1 & H2 & H3 & H4). cbn in *. rewrite (wrap_small 64 (k + iov_len s)) by (unfold in_width; lia).
      rewrite (proj2 (Z.leb_le k addr)), (proj2 (Z.ltb_lt addr _)) by lia. cbn.
      rewrite (wrap_small 64 (addr + len)) by (unfold in_width; lia). destruct (_ <? _); [done|].
      rewrite (wrap_small 64 (addr - k)) by (unfold in_width; lia). by rewrite wrap_small by (unfold in_width; lia).
    + intros n Hn. pose proof (proj1 (elem_of_rev ms n) Hn) as Hn'. rewrite list.Forall_forall in Hap. specialize (Hap n Hn'). unfold apart, inside in *. lia.
  - assert (∀ xs, translate (xs ++ [m]) addr len = translate xs addr len) as E; [|by rewrite E].
    induction xs as [|[k s] xs IHx]; cbn [app translate]; [|by rewrite IHx].
    apply (translate_skip [m]); [by constructor|]. by intros n ->%list_elem_of_singleton.
Qed.

(** *** Changes of the table *)

Lemma table_ok_key m ms n : table_ok (m :: ms) → n ∈ ms → m.1 < n.1.
Proof.
  inversion 1 as [|? ? (_ & ? & _) Hap]; subst. intros Hn. rewrite list.Forall_forall in Hap.
  specialize (Hap n Hn). unfold apart in Hap. lia.
Qed.

Lemma elem_of_map_insert iova seg ms m : table_ok ms →
  m ∈ map_insert iova seg ms ↔ m = (iova, seg) ∨ (m ∈ ms ∧ m.1 ≠ iova).
Proof.
  intros Hok. induction Hok as [|[k s] ms Hk Hap Hok IH]; cbn [map_insert].
  { rewrite list_elem_of_singleton, elem_of_nil. tauto. }
  pose proof (table_cons _ _ Hk Hap Hok) as Hall.
  assert (∀ n, n ∈ ms → k < n.1) as Hlt by (intros n Hn; apply (table_ok_key (k, s) ms n Hall Hn)).
  destruct (Z.ltb_spec iova k); [|destruct (Z.eqb_spec iova k) as [->|]]; rewrite !elem_of_cons.
  - split; [|tauto]. intros [?|[->|Hm]]; [tauto|right; split; [tauto|cbn; lia]|].
    right. split; [tauto|]. specialize (Hlt m Hm). lia.
  - split; [intros [?|Hm]; [tauto|]; specialize (Hlt m Hm); right; split; [tauto|lia]|].
    intros [?|[[->|?] Hne]]; [tauto| |tauto]. by destruct Hne.
  - rewrite IH. split; [|tauto]. intros [->|?]; [right; split; [tauto|cbn; lia]|tauto].
Qed.

Lemma map_insert_ok iova seg ms : table_ok ms → region_ok (iova, seg) →
  Forall (fun m => m.1 ≠ iova → apart m (iova, seg) ∨ apart (iova, seg) m) ms → table_ok (map_insert iova seg ms).
Proof.
  intros Hok Hr. induction Hok as [|[k s] ms Hk Hap Hok IH]; intros Hd; cbn [map_insert].
  { apply table_cons; [done|by apply Forall_nil|apply table_nil]. }
  apply Forall_cons_1 in Hd as [Hd Hds]. pose proof Hr as (_ & Hpos & _). pose proof Hk as (_ & Hkpos & _). cbn in Hpos, Hkpos, Hd.
  assert (iova <= k → Forall (apart (iova, seg)) ms) as Hrest.
  { intros Hle. pose proof (table_ok_regions ms Hok) as Hreg. rewrite list.Forall_forall in *. intros n Hn.
    specialize (Hap n Hn). specialize (Hds n Hn). destruct (Hreg n Hn) as (_ & Hnpos & _).
    unfold apart in *. cbn in *. destruct Hds; lia. }
  destruct (Z.ltb_spec iova k); [|destruct (Z.eqb_spec iova k) as [->|]].
  - constructor; [done|constructor; [|apply Hrest; lia]|by constructor]. unfold apart in *. cbn in *. lia.
  - constructor; [done|apply Hrest; lia|done].
  - constructor; [done| |by apply IH]. rewrite list.Forall_forall in *. intros m Hm.
    apply elem_of_map_insert in Hm as [->|[Hm _]]; [|by apply Hap|done]. unfold apart in *. cbn in *. lia.
Qed.

Lemma map_erase_ok iova ms : table_ok ms → table_ok (map_erase iova ms).
Proof.
  unfold map_erase. induction 1 as [|m ms Hm Hap Hok IH]; [constructor|].
  rewrite filter_cons. destruct (decide _); [|done]. constructor; [done| |done].
  rewrite list.Forall_forall in *. intros m' [_ Hm']%list_elem_of_filter. by apply Hap.
Qed.

(** At most one region contains an address. *)
Lemma find_inside ms addr m : table_ok ms → m ∈ ms → inside addr m →
  List.find (fun m => bool_decide (m.1 <= addr < m.1 + iov_len m.2)) ms = Some m.
Proof.
  intros Hok. induction Hok as [|n ms Hn Hap Hok IH]; intros Hm Hin; [by apply not_elem_of_nil in Hm|].
  cbn [List.find]. apply elem_of_cons in Hm as [->|Hm]; [by rewrite bool_decide_true|].
  rewrite bool_decide_false; [by apply IH|]. rewrite list.Forall_forall in Hap. specialize (Hap m Hm).
  unfold apart, inside in *. lia.
Qed.

Lemma find_outside ms addr : (∀ m, m ∈ ms → ¬ inside addr m) →
  List.find (fun m => bool_decide (m.1 <= addr < m.1 + iov_len m.2)) ms = None.
Proof.
  induction ms as [|n ms IH]; intros Hm; [done|]. cbn [List.find].
  rewrite bool_decide_false by (apply (Hm n); by left). apply IH. intros m Hin. apply Hm. by right.
Qed.

Lemma translation_insert iova seg ms addr len : table_ok ms → table_ok (map_insert iova seg ms) →
  translation (map_insert iova seg ms) addr len =
  if bool_decide (inside addr (iova, seg)) then translation [(iova, seg)] addr len
  else translation (map_erase iova ms) addr len.
Proof.
  intros Hok Hok'. unfold translation. case_bool_decide as Hin.
  - rewrite (find_inside _ _ (iova, seg)) by (try done; by apply elem_of_map_insert; [|left]).
    cbn [List.find]. unfold inside in Hin. by rewrite bool_decide_true.
  - destruct (List.find _ (map_erase iova ms)) as [m|] eqn:E.
    + apply List.find_some in E as [Hm Hi]. apply bool_decide_eq_true in Hi. apply list_elem_of_In in Hm.
      apply list_elem_of_filter in Hm as [Hne Hm]. rewrite (find_inside _ _ m); [done|done| |done].
      apply elem_of_map_insert; tauto.
    + rewrite find_outside; [done|]. intros m Hm Hi. apply elem_of_map_insert in Hm as [->|[Hm Hne]]; [done| |done].
      eapply List.find_none in E; [|apply list_elem_of_In; by apply list_elem_of_filter].
      apply bool_decide_eq_false in E. done.
Qed.

(** The table of guest memory: as long as the regions that are added do not
    overlap present ones, mapping and unmapping keep the table well formed, and a
    translation finds the region of the address, whatever the order of the
    changes: it returns the corresponding local address, refuses a transfer that
    leaves the region, and reports an address that no region contains. *)
Theorem dma_table ms info addr len : table_ok ms → region_ok (di_iova info, di_mapping info) → di_vaddr info ≠ 0 →
  Forall (fun m => m.1 ≠ di_iova info → apart m (di_iova info, di_mapping info) ∨ apart (di_iova info, di_mapping info) m) ms →
  0 <= len → 0 <= addr → addr + len < 2 ^ 64 →
  let ms' := (map_dma_here info ms).2 in
  table_ok ms' ∧ table_ok (unmap_dma_here info ms).2 ∧
  dma_local_addr ms' addr len =
    (if bool_decide (inside addr (di_iova info, di_mapping info))
     then translation [(di_iova info, di_mapping info)] addr len
     else translation (map_erase (di_iova info) ms) addr len).
Proof.
  intros Hok Hr Hv Hd Hl Ha Hw ms'. unfold ms', map_dma_here, unmap_dma_here. rewrite (proj2 (Z.eqb_neq _ _) Hv). cbn [snd].
  pose proof (map_insert_ok _ _ _ Hok Hr Hd) as Hok'. split; [done|]. split.
  - destruct (_ =? _); [done|]. by apply map_erase_ok.
  - rewrite dma_local_addr_spec by done. by apply translation_insert.
Qed.

(** ** Transfers *)

(** A translated transfer stays inside one region. *)
Lemma translation_inside ms addr len a : table_ok ms → 0 <= len → translation ms addr len = Ok (Some a) →
  ∃ m, m ∈ ms ∧ iov_base m.2 <= a ∧ a + len <= iov_base m.2 + iov_len m.2 ∧ a - iov_base m.2 = addr - m.1.
Proof.
  intros Hok Hl. unfold translation. destruct (List.find _ ms) as [m|] eqn:E; [|done].
  apply List.find_some in E as [Hm Hi]. apply bool_decide_eq_true in Hi. apply list_elem_of_In in Hm.
  destruct (Z.ltb_spec (m.1 + iov_len m.2) (addr + len)); [done|]. intros [= <-]. exists m. split; [done|]. lia.
Qed.

Lemma read_write mem a bs : read_mem (write_mem mem a bs) a (Z.of_nat (length bs)) = bs.
Proof.
  unfold read_mem, write_mem. apply list_eq. intros i. rewrite list_lookup_fmap.
  destruct (decide (i < length bs)%nat) as [Hi|Hi].
  - rewrite lookup_seqZ_lt by lia. cbn.
    rewrite (proj2 (Z.leb_le _ _)), (proj2 (Z.ltb_lt _ _)) by lia. cbn.
    replace (Z.to_nat (a + (0 + Z.of_nat i) - a)) with i by lia. destruct (lookup_lt_is_Some_2 bs i Hi) as [x E]. by rewrite E.
  - rewrite lookup_seqZ_ge by lia. cbn. by rewrite lookup_ge_None_2 by lia.
Qed.

(** A transfer whose last address passes the end of the address space is not checked: its
    end, taken modulo [2^64], lies before the end of every region that holds its start. *)
Lemma dma_local_addr_wrapping ms addr len : table_ok ms → 0 <= addr < 2 ^ 64 → 0 <= len < 2 ^ 64 → 2 ^ 64 <= addr + len →
  dma_local_addr ms addr len = dma_local_addr ms addr 0.
Proof.
  intros Hok Ha Hl Hw. unfold dma_local_addr.
  assert (Forall region_ok (rev ms)) as Hr by (apply Forall_rev; by apply table_ok_regions).
  induction Hr as [|[k sg] xs (H0 & H1 & H2 & _) _ IH]; [done|]. cbn in H0, H1, H2. cbn [translate]. rewrite IH.
  rewrite (wrap_small 64 (k + iov_len sg)) by (unfold in_width; lia).
  destruct (Z.leb_spec k addr), (Z.ltb_spec addr (k + iov_len sg)); cbn [andb]; try done.
  assert (u64 (addr + len) = addr + len - 2 ^ 64) as -> by (unfold wrap; rewrite <- (Z_mod_plus_full _ (-1)); apply Z.mod_small; lia).
  rewrite Z.add_0_r, (wrap_small 64 addr) by (unfold in_width; lia).
  by rewrite !(proj2 (Z.ltb_ge _ _)) by lia.
Qed.

(** The outcome of a translation for every address and length of 64 bits. *)
Lemma dma_local_addr_all ms addr len : table_ok ms → 0 <= addr < 2 ^ 64 → 0 <= len < 2 ^ 64 →
  dma_local_addr ms addr len = translation ms addr (if addr + len <? 2 ^ 64 then len else 0).
Proof.
  intros Hok Ha Hl. destruct (Z.ltb_spec (addr + len) (2 ^ 64)).
  - by apply dma_local_addr_spec; [|lia..].
  - rewrite dma_local_addr_wrapping by done. apply dma_local_addr_spec; [done|lia..].
Qed.

Lemma translation_Some ms addr len a : table_ok ms → translation ms addr len = Ok (Some a) ↔
  ∃ m, m ∈ ms ∧ inside addr m ∧ addr + len <= m.1 + iov_len m.2 ∧ a = iov_base m.2 + (addr - m.1).
Proof.
  intros Hok. unfold translation. split.
  - destruct (List.find _ ms) as [m|] eqn:E; [|done].
    apply List.find_some in E as [Hm Hi]. apply bool_decide_eq_true in Hi. apply list_elem_of_In in Hm.
    destruct (Z.ltb_spec (m.1 + iov_len m.2) (addr + len)); [done|]. intros [= <-]. by exists m.
  - intros (m & Hm & Hin & Hle & ->). rewrite (find_inside _ _ m) by done. by rewrite (proj2 (Z.ltb_ge _ _)) by lia.
Qed.

(** C11. Device writes to guest memory, for every 64-bit address and length.  A write succeeds
    exactly if its first byte lies in a region of the guest and either the whole transfer lies in
    that region or the transfer passes the end of the 64-bit address space, where the check
    overflows.  A write that succeeds puts the data at the address that corresponds to its first
    byte, and a read of the same range returns the data.  Unless it passes the end of the
    address space, it changes no memory outside the regions of the guest. *)
Theorem dma_write_read ms addr data mem : let len := Z.of_nat (length data) in
  table_ok ms → 0 <= addr < 2 ^ 64 → len < 2 ^ 64 →
  ((∃ r, IssueDma ms (DmaWrite addr data) mem = Ok r) ↔
     ∃ m, m ∈ ms ∧ inside addr m ∧ (addr + len <= m.1 + iov_len m.2 ∨ 2 ^ 64 <= addr + len)) ∧
  (∀ mem' out, IssueDma ms (DmaWrite addr data) mem = Ok (mem', out) →
     IssueDma ms (DmaRead addr len) mem' = Ok (mem', data) ∧
     (∃ m, m ∈ ms ∧ inside addr m ∧ mem' = write_mem mem (iov_base m.2 + (addr - m.1)) data) ∧
     (addr + len < 2 ^ 64 →
      ∀ x, (∀ m, m ∈ ms → ¬ (iov_base m.2 <= x < iov_base m.2 + iov_len m.2)) → mem' x = mem x)).
Proof.
  intros len Hok Ha Hl. unfold IssueDma. fold len. assert (0 <= len) as Hl0 by (unfold len; lia).
  rewrite dma_local_addr_all by (done || lia). set (n := if _ <? _ then len else 0).
  assert (∀ m, inside addr m → region_ok m → addr + n <= m.1 + iov_len m.2 ↔
    addr + len <= m.1 + iov_len m.2 ∨ 2 ^ 64 <= addr + len) as Hn.
  { intros m Hin (_ & _ & Hr & _). unfold inside, n in *. destruct (Z.ltb_spec (addr + len) (2 ^ 64)); lia. }
  pose proof (table_ok_regions _ Hok) as Hreg. rewrite list.Forall_forall in Hreg. split.
  - split.
    + destruct (translation ms addr n) as [[a|]| |] eqn:E; intros [r Hr]; try done.
      apply translation_Some in E as (m & Hm & Hin & Hle & _); [|done]. exists m. split; [done|]. split; [done|]. apply Hn; auto.
    + intros (m & Hm & Hin & Hle). rewrite (proj2 (translation_Some ms addr n (iov_base m.2 + (addr - m.1)) Hok)); [by eexists|].
      exists m. split_and!; try done. apply Hn; auto.
  - intros mem' out. destruct (translation ms addr n) as [[a|]| |] eqn:E; try done. cbn [mbind result_bind]. intros [= <- <-].
    split; [by rewrite read_write|]. apply translation_Some in E as (m & Hm & Hin & Hle & ->); [|done]. split; [by exists m|].
    intros Hw x Hx. specialize (Hx m Hm). apply Hn in Hle; [|done|by apply Hreg]. unfold inside in Hin.
    unfold write_mem. fold len.
    destruct (Z.leb_spec (iov_base m.2 + (addr - m.1)) x), (Z.ltb_spec x (iov_base m.2 + (addr - m.1) + len)); cbn; done || lia.
Qed.

(** ** Concrete regions *)

Definition demo_table : mappings := [(0, mkIovec 0x7f0000000000 0x10000); (0x100000, mkIovec 0x7e0000000000 0x1000)].
Definition demo_info : dma_info := mkDmaInfo 0x20000 0x1234 (mkIovec 0x7d0000000000 0x2000).

Lemma demo_table_ok : table_ok demo_table.
Proof.
  constructor; [by vm_compute|constructor; [by vm_compute|constructor]|].
  constructor; [by vm_compute|constructor|constructor].
Qed.

Lemma dma_table_witness :
  dma_local_addr (map_dma_here demo_info demo_table).2 0x20010 16 = Ok (Some 0x7d0000000010) ∧
  dma_local_addr (map_dma_here demo_info demo_table).2 0x100ff8 16 = Abort.
Proof.
  split.
  - destruct (dma_table demo_table demo_info 0x20010 16 demo_table_ok) as (_ & _ & ->); try by vm_compute.
    repeat (constructor; [intros _; by vm_compute; (left; by vm_compute) || (right; by vm_compute)|]). constructor.
  - destruct (dma_table demo_table demo_info 0x100ff8 16 demo_table_ok) as (_ & _ & ->); try by vm_compute.
    repeat (constructor; [intros _; by vm_compute; (left; by vm_compute) || (right; by vm_compute)|]). constructor.
Defined.

Lemma dma_write_read_witness : ∃ mem',
  IssueDma demo_table (DmaWrite 0x100010 [1; 2; 3]) (fun _ => 0) = Ok (mem', []) ∧
  IssueDma demo_table (DmaRead 0x100010 3) mem' = Ok (mem', [1; 2; 3]).
Proof.
  eexists. split; [reflexivity|].
  by apply (dma_write_read demo_table 0x100010 [1; 2; 3] (fun _ => 0)) with (out := []); [apply demo_table_ok|..].
Defined.
