(* ===== verification/VdpdkThreads.v ===== *)
(** * The polling threads of the vDPDK device

    vdpdk.cpp: the threads that poll the queues of the guests hold the shared side of
    [dma_mutex] of their devices all the time; the thread of the vfio-user server that
    changes the guest memory of a device takes the exclusive side, and [dma_flag] asks
    the pollers to make way.  [start] is [VdpdkThreads::start]; a polling thread goes
    through its devices, one ([*_poll_thread_single]) or two ([*_poll_thread_double]);
    the steps of the threads interleave. *)
From S2P Require Import Prelude.
From stdpp Require Import relations.
Local Open Scope nat_scope.

(** ** Threads *)

Inductive kind := Rx | Tx.
#[export] Instance kind_eq_dec : EqDecision kind.
Proof. solve_decision. Defined.

(** Which thread polls which devices: above the threshold two devices share their
    threads, the first with the last and so on. *)
Definition start (sharing_thresh count : nat) : list (kind * list nat) :=
  if decide (sharing_thresh < count) then
    let mid := count / 2 in
    concat ((fun i => [(Rx, [i; count - i - 1]); (Tx, [i; count - i - 1])]) <$> seq 0 mid) ++
    (if decide (count mod 2 ≠ 0) then [(Rx, [mid]); (Tx, [mid])] else [])
  else concat ((fun i => [(Rx, [i]); (Tx, [i])]) <$> seq 0 count).

(** Where a polling thread is, for the device number [k] of its list. *)
Inductive pc :=
| Init (k : nat)                        (* about to take the lock, at the beginning *)
| Test (k : nat)                        (* about to test [dma_flag] *)
| Spin (k : nat)                        (* without the lock, until [dma_flag] is clear *)
| Lock (k : nat)                        (* about to take the lock again *)
| Poll (k : nat) (invalidated : bool)   (* about to look up addresses *)
| Use (k : nat) (v : nat)               (* about to use addresses of the mapping [v] *)
| Stopped.

Record thread := mkThread { knd : kind; devs : list nat; at_ : pc }.

(** The locks that a thread holds. *)
Definition holding (t : thread) : list nat :=
  match at_ t with
  | Init k => take k (devs t)
  | Spin k | Lock k => delete k (devs t)
  | Test _ | Poll _ _ | Use _ _ => devs t
  | Stopped => []
  end.

(** The vfio-user thread of a device in [dma_register_cb] or [dma_unregister_cb]. *)
Inductive writer :=
| WIdle
| WWant     (* has set the flag, waits for the lock *)
| WHold     (* has the lock *)
| WClear    (* has cleared the flag *)
| WMapped.  (* has changed the mapping *)

Definition exclusive (w : writer) : bool := match w with WHold | WClear | WMapped => true | _ => false end.

(** [version] counts the changes of the mapping.  [queue] is the transmit queue and
    the mapping under which the address of its ring was looked up, if it was. *)
Record device := mkDevice { dma_flag : bool; wtr : writer; version : nat; queue : option (option nat) }.
#[export] Instance device_settable : Settable device := fun r => mkDevice (dma_flag r) (wtr r) (version r) (queue r).
#[export] Instance thread_settable : Settable thread := fun r => mkThread (knd r) (devs r) (at_ r).

Record sys := mkSys { device_of : nat → device; threads : list thread }.

Definition dev0 : device := mkDevice false WIdle 0 None.
Definition init (ts : list (kind * list nat)) : sys :=
  mkSys (fun _ => dev0) ((fun t => mkThread t.1 t.2 (Init 0)) <$> ts).

Definition set_dev (d : nat) (x : device) (s : sys) : sys :=
  mkSys (fun e => if decide (e = d) then x else device_of s e) (threads s).
Definition set_pc (i : nat) (t : thread) (p : pc) (s : sys) : sys :=
  mkSys (device_of s) (<[i := t <| at_ := p |>]> (threads s)).

(** The next device of the thread, or the next round. *)
Definition next (t : thread) (k : nat) : pc := if decide (S k < length (devs t)) then Test (S k) else Test 0.

(** The lookup of [tx_poll]: at an invalidation, and when there is no address yet. *)
Definition lookup_ring (invalidated : bool) (r : option nat) (version : nat) : nat :=
  match r with Some v => if invalidated then version else v | None => version end.

Lemma set_dev_eq d x s : device_of (set_dev d x s) d = x.
Proof. cbn. by rewrite decide_True. Qed.
Lemma set_dev_ne d e x s : e ≠ d → device_of (set_dev d x s) e = device_of s e.
Proof. intros. cbn. by rewrite decide_False. Qed.

Inductive step (s : sys) : sys → Prop :=
(* polling threads *)
| step_init i t k d :
    threads s !! i = Some t → at_ t = Init k → devs t !! k = Some d → exclusive (wtr (device_of s d)) = false →
    step s (set_pc i t (if decide (S k < length (devs t)) then Init (S k) else Test 0) s)
| step_stop i t :
    threads s !! i = Some t → at_ t = Test 0 → step s (set_pc i t Stopped s)
| step_test i t k d :
    threads s !! i = Some t → at_ t = Test k → devs t !! k = Some d →
    step s (set_pc i t (if dma_flag (device_of s d) then Spin k else Poll k false) s)
| step_spin i t k d :
    threads s !! i = Some t → at_ t = Spin k → devs t !! k = Some d → dma_flag (device_of s d) = false →
    step s (set_pc i t (Lock k) s)
| step_lock i t k d :
    threads s !! i = Some t → at_ t = Lock k → devs t !! k = Some d → exclusive (wtr (device_of s d)) = false →
    step s (set_pc i t (Poll k true) s)
| step_poll_rx i t k d inv :
    threads s !! i = Some t → knd t = Rx → at_ t = Poll k inv → devs t !! k = Some d →
    step s (set_pc i t (Use k (version (device_of s d))) s)
| step_poll_none i t k d inv :
    threads s !! i = Some t → knd t = Tx → at_ t = Poll k inv → devs t !! k = Some d → queue (device_of s d) = None →
    step s (set_pc i t (next t k) s)
| step_poll_tx i t k d inv r :
    threads s !! i = Some t → knd t = Tx → at_ t = Poll k inv → devs t !! k = Some d → queue (device_of s d) = Some r →
    let v := lookup_ring inv r (version (device_of s d)) in
    step s (set_pc i t (Use k v) (set_dev d ((device_of s d) <| queue := Some (Some v) |>) s))
| step_poll_fail i t k d inv r :          (* no mapping for the ring *)
    threads s !! i = Some t → knd t = Tx → at_ t = Poll k inv → devs t !! k = Some d → queue (device_of s d) = Some r →
    inv = true ∨ r = None →
    step s (set_pc i t (next t k) (set_dev d ((device_of s d) <| queue := None |>) s))
| step_use i t k v :
    threads s !! i = Some t → at_ t = Use k v → step s (set_pc i t (next t k) s)
| step_use_fail i t k d v :               (* no mapping for a packet *)
    threads s !! i = Some t → knd t = Tx → at_ t = Use k v → devs t !! k = Some d →
    step s (set_pc i t (next t k) (set_dev d ((device_of s d) <| queue := None |>) s))
(* the vfio-user thread of a device *)
| step_want d :
    wtr (device_of s d) = WIdle →
    step s (set_dev d ((device_of s d) <| dma_flag := true |> <| wtr := WWant |>) s)
| step_hold d :
    wtr (device_of s d) = WWant → (∀ t, t ∈ threads s → d ∉ holding t) →
    step s (set_dev d ((device_of s d) <| wtr := WHold |>) s)
| step_clear d :
    wtr (device_of s d) = WHold → step s (set_dev d ((device_of s d) <| dma_flag := false |> <| wtr := WClear |>) s)
| step_map d :
    wtr (device_of s d) = WClear → step s (set_dev d ((device_of s d) <| version ::= S |> <| wtr := WMapped |>) s)
| step_unlock d :
    wtr (device_of s d) = WMapped → step s (set_dev d ((device_of s d) <| wtr := WIdle |>) s)
| step_queue_start d :
    wtr (device_of s d) = WIdle → step s (set_dev d ((device_of s d) <| queue := Some None |>) s)
| step_queue_stop d :
    wtr (device_of s d) = WIdle → step s (set_dev d ((device_of s d) <| queue := None |>) s).

Definition reachable (ts : list (kind * list nat)) (s : sys) : Prop := rtc step (init ts) s.

(** ** The assignment of devices to threads *)

(** The devices that the threads of a kind poll. *)
Definition polled (K : kind) (ts : list (kind * list nat)) : list nat := concat (snd <$> filter (fun t => t.1 = K) ts).

Lemma polled_app K ts us : polled K (ts ++ us) = polled K ts ++ polled K us.
Proof. unfold polled. by rewrite filter_app, fmap_app, concat_app. Qed.

Lemma polled_pairs K (g : nat → list nat) l :
  polled K (concat ((fun i => [(Rx, g i); (Tx, g i)]) <$> l)) = concat (g <$> l).
Proof.
  induction l as [|i l IH]; [done|]. rewrite !fmap_cons. cbn [concat]. rewrite polled_app, IH. f_equal.
  destruct K; (change (polled _ _) with (g i ++ []); apply app_nil_r).
Qed.

Lemma seq_mirror m c : m <= c → (fun i => c - i - 1) <$> seq 0 m = reverse (seq (c - m) m).
Proof.
  induction m as [|m IH]; intros Hm; [done|]. rewrite seq_S, fmap_app, IH by lia.
  replace (seq (c - S m) (S m)) with ((c - S m) :: seq (c - m) m) by (cbn; f_equal; f_equal; lia).
  rewrite reverse_cons. cbn. do 2 f_equal. lia.
Qed.

Lemma concat_two {A} (f g : nat → A) l : concat ((fun i => [f i; g i]) <$> l) ≡ₚ (f <$> l) ++ (g <$> l).
Proof. induction l as [|i l IH]; [done|]. cbn. rewrite IH. by rewrite Permutation_middle. Qed.

(** Every device is polled by exactly one thread for reception and exactly one for
    transmission, whatever the threshold and the number of devices. *)
Theorem start_partition K sharing_thresh count : polled K (start sharing_thresh count) ≡ₚ seq 0 count.
Proof.
  unfold start. case_decide as Hc.
  - rewrite polled_app, polled_pairs, concat_two, list_fmap_id, seq_mirror by (apply Nat.Div0.div_le_upper_bound; lia).
    rewrite (reverse_Permutation (seq (count - count / 2) _)).
    pose proof (Nat.div_mod_eq count 2) as Hd. pose proof (Nat.mod_upper_bound count 2 ltac:(lia)) as Hm.
    set (mid := count / 2) in *. case_decide as Ho.
    + assert (polled K [(Rx, [mid]); (Tx, [mid])] = [mid]) as -> by (by destruct K).
      rewrite <- app_assoc, (Permutation_app_comm (seq (count - mid) mid)).
      replace (seq 0 count) with (seq 0 (mid + (1 + mid))) by (f_equal; lia). rewrite !seq_app. cbn [seq app].
      by replace (count - mid) with (0 + mid + 1) by lia.
    + change (polled K []) with (@nil nat). rewrite app_nil_r.
      replace (seq 0 count) with (seq 0 (mid + mid)) by (f_equal; lia). rewrite seq_app.
      by replace (count - mid) with (0 + mid) by lia.
  - rewrite polled_pairs. clear Hc. induction (seq 0 count) as [|i l IH]; [done|]. cbn. by rewrite IH.
Qed.

(** No device is polled twice by a thread, and every thread has a device. *)
Definition assignment (ts : list (kind * list nat)) : Prop :=
  NoDup (polled Tx ts) ∧ ∀ t, t ∈ ts → t.2 ≠ [].

Lemma start_assignment sharing_thresh count : assignment (start sharing_thresh count).
Proof.
  split; [rewrite start_partition; apply NoDup_seq|]. intros t. unfold start.
  assert (∀ (g : nat → list nat) l, (∀ i, g i ≠ []) → t ∈ concat ((fun i => [(Rx, g i); (Tx, g i)]) <$> l) → t.2 ≠ []) as Hg.
  { intros g l Hne. induction l as [|i l IH]; [intros Ht; by apply not_elem_of_nil in Ht|]. cbn.
    rewrite !elem_of_cons. intros [-> |[-> |?]]; [apply Hne|apply Hne|by apply IH]. }
  case_decide; [rewrite elem_of_app; intros [Ht|Ht]|].
  - by eapply (Hg (fun i => [i; count - i - 1])).
  - case_decide; [|by apply not_elem_of_nil in Ht]. apply elem_of_cons in Ht as [-> |Ht]; [done|].
    by apply list_elem_of_singleton in Ht as ->.
  - by apply (Hg (fun i => [i])).
Qed.

Lemma polled_unique ts i j a b d : NoDup (polled Tx ts) → ts !! i = Some (Tx, a) → ts !! j = Some (Tx, b) →
  d ∈ a → d ∈ b → i = j.
Proof.
  revert i j. induction ts as [|[K l] ts IH]; intros i j Hn Hi Hj Ha Hb; [done|].
  assert (∀ j b, ts !! j = Some (Tx, b) → d ∈ b → d ∈ polled Tx ts) as Hin.
  { clear. intros j b Hj Hb. apply list_elem_of_In, in_concat. exists b. rewrite <- !list_elem_of_In. split; [|done].
    apply list_elem_of_fmap. exists (Tx, b). split; [done|]. apply list_elem_of_filter. split; [done|]. by eapply list_elem_of_lookup_2. }
  change ((K, l) :: ts) with ([(K, l)] ++ ts) in Hn. rewrite polled_app in Hn. apply NoDup_app in Hn as (_ & Hd & Hn).
  assert (K = Tx → d ∈ l → d ∈ polled Tx [(K, l)]) as Hl by (intros -> ?; change (polled _ _) with (l ++ []); by rewrite app_nil_r).
  destruct i as [|i], j as [|j]; cbn in Hi, Hj; [done| | |f_equal; by eapply IH].
  - injection Hi as -> ->. exfalso. eapply Hd; [by apply Hl|by eapply Hin].
  - injection Hj as -> ->. exfalso. eapply Hd; [by apply Hl|by eapply Hin].
Qed.

(** ** The invariant *)

(** The position is one of the devices of the thread. *)
Definition pc_ok (t : thread) : Prop :=
  match at_ t with Init k | Test k | Spin k | Lock k | Poll k _ | Use k _ => k < length (devs t) | Stopped => True end.

(** The thread will look up the address of the ring of [d] before it uses it. *)
Definition will_look_up (t : thread) (d : nat) : Prop :=
  match at_ t with
  | Spin k | Lock k | Poll k true => devs t !! k = Some d
  | Stopped => True
  | _ => False
  end.

Definition is_init (p : pc) : bool := match p with Init _ => true | _ => false end.

Record thread_ok (s : sys) (t : thread) : Prop := {
  ok_pc : pc_ok t;
  ok_lock d : exclusive (wtr (device_of s d)) = true → d ∉ holding t;
  ok_use k v d : at_ t = Use k v → devs t !! k = Some d → v = version (device_of s d);
  ok_init d : knd t = Tx → is_init (at_ t) = true → d ∈ devs t → ∀ v, queue (device_of s d) ≠ Some (Some v);
  ok_ring d v : knd t = Tx → d ∈ devs t → queue (device_of s d) = Some (Some v) → will_look_up t d ∨ v = version (device_of s d)
}.

Record inv (ts : list (kind * list nat)) (s : sys) : Prop := {
  inv_static : (fun t => (knd t, devs t)) <$> threads s = ts;
  inv_flag d : dma_flag (device_of s d) = match wtr (device_of s d) with WWant | WHold => true | _ => false end;
  inv_thread i t : threads s !! i = Some t → thread_ok s t
}.

Lemma elem_of_delete {A} (l : list A) k x y : x ∈ l → l !! k = Some y → x ≠ y → x ∈ delete k l.
Proof.
  intros Hx Hk Hne. pose proof (delete_take_drop l k) as ->. apply list_elem_of_lookup in Hx as [j Hj].
  apply elem_of_app. destruct (decide (j < k)) as [Hlt|].
  - left. apply list_elem_of_lookup. exists j. by rewrite lookup_take_lt.
  - right. assert (j ≠ k) by congruence. apply list_elem_of_lookup. exists (j - S k).
    rewrite lookup_drop. replace (S k + (j - S k)) with j by lia. done.
Qed.

Lemma holding_devs t d : d ∈ holding t → d ∈ devs t.
Proof.
  unfold holding. destruct (at_ t); try done; try apply list_elem_of_delete_inv; [|intros []%not_elem_of_nil].
  intros (j & Hj & _)%elem_of_take. by eapply list_elem_of_lookup_2.
Qed.

(** A thread that polls [d] and does not look up again holds its lock. *)
Lemma holds_or_looks_up t d : pc_ok t → d ∈ devs t → will_look_up t d ∨ is_init (at_ t) = true ∨ d ∈ holding t.
Proof.
  unfold pc_ok, will_look_up, holding. intros Hp Hd. destruct (at_ t) as [k|k|k|k|k b|k v|]; cbn; auto.
  all: destruct (lookup_lt_is_Some_2 (devs t) k Hp) as [e He]; destruct (decide (d = e)) as [->|]; auto.
  all: right; right; by eapply elem_of_delete.
Qed.

(** A device changes; what the threads know of it stays true. *)
Lemma inv_set_dev ts s d x : inv ts s →
  dma_flag x = match wtr x with WWant | WHold => true | _ => false end →
  (∀ i t, threads s !! i = Some t → thread_ok s t → thread_ok (set_dev d x s) t) → inv ts (set_dev d x s).
Proof.
  intros Hi Hf Ht. split; [apply Hi| |].
  - intros e. cbn. destruct (decide _); [done|apply Hi].
  - intros i t E. apply (Ht i t E). by eapply inv_thread.
Qed.

Lemma thread_ok_ext s s' t : device_of s' = device_of s → thread_ok s t → thread_ok s' t.
Proof. intros E []. split; rewrite ?E; auto. Qed.

(** A thread moves. *)
Lemma inv_set_pc ts s i t p : inv ts s → threads s !! i = Some t → thread_ok s (t <| at_ := p |>) → inv ts (set_pc i t p s).
Proof.
  intros Hi Ht Hok. split.
  - cbn. rewrite list_fmap_insert. rewrite (inv_static _ _ Hi). apply list_insert_id.
    rewrite <- (inv_static _ _ Hi), list_lookup_fmap, Ht. done.
  - apply Hi.
  - intros j u Hj. cbn in Hj. destruct (decide (i = j)) as [<-|].
    + rewrite list_lookup_insert_eq in Hj by (by eapply lookup_lt_Some). injection Hj as <-. by apply (thread_ok_ext s).
    + rewrite list_lookup_insert_ne in Hj by done. apply (thread_ok_ext s); [done|]. by apply (inv_thread _ _ Hi j).
Qed.

Lemma inv_init ts : assignment ts → inv ts (init ts).
Proof.
  intros [_ Hne]. split; cbn; [|done|].
  - rewrite <- list_fmap_compose. etrans; [|apply list_fmap_id]. apply list_fmap_ext. by intros ? [].
  - intros i t Hi. rewrite list_lookup_fmap in Hi. destruct (ts !! i) as [u|] eqn:E; [|done]. injection Hi as <-.
    split; try done. unfold pc_ok. cbn. destruct u as [K l]. apply list_elem_of_lookup_2 in E. apply Hne in E. destruct l; [done|cbn; lia].
Qed.

Lemma at_set t p : at_ (t <| at_ := p |>) = p. Proof. done. Qed.

Lemma next_ok t k : k < length (devs t) → pc_ok (t <| at_ := next t k |>).
Proof. unfold pc_ok, next. cbn. intros. case_decide; cbn; lia. Qed.

(** A thread that moves between positions at which it holds all its locks. *)
Lemma thread_ok_move s t p : thread_ok s t → pc_ok (t <| at_ := p |>) →
  (∀ d, d ∈ holding (t <| at_ := p |>) → d ∈ holding t ∨ exclusive (wtr (device_of s d)) = false) →
  (∀ k v d, p = Use k v → devs t !! k = Some d → v = version (device_of s d)) →
  (is_init p = true → is_init (at_ t) = true) →
  (∀ d, knd t = Tx → d ∈ devs t → will_look_up t d → will_look_up (t <| at_ := p |>) d ∨
    ∀ v, queue (device_of s d) = Some (Some v) → v = version (device_of s d)) →
  thread_ok s (t <| at_ := p |>).
Proof.
  intros Hok Hp Hl Hu Hi Hr. split; cbn; try done.
  - intros d Hd Hin. destruct (Hl d Hin) as [?|?]; [|congruence]. by eapply ok_lock.
  - intros d HK Hp' Hd v. apply (ok_init _ _ Hok d HK (Hi Hp') Hd).
  - intros d v HK Hd Hq. destruct (ok_ring _ _ Hok d v HK Hd Hq) as [Hw|]; [|by right].
    destruct (Hr d HK Hd Hw) as [|Hv]; [by left|right; by apply Hv].
Qed.

(** The fields of a device on which a thread depends. *)
Lemma thread_ok_dev s t d x : thread_ok s t →
  (exclusive (wtr x) = true → d ∉ holding t) →
  (version x = version (device_of s d) ∨ d ∉ holding t) →
  (queue x = queue (device_of s d) ∨ queue x = None ∨ queue x = Some None ∨
   queue x = Some (Some (version x)) ∧ (knd t = Tx → d ∈ devs t → is_init (at_ t) = false)) →
  thread_ok (set_dev d x s) t.
Proof.
  intros Hok He Hv Hq. split; cbn.
  - apply Hok.
  - intros e. case_decide as E; [subst; by apply He|]. by apply (ok_lock _ _ Hok).
  - intros k v e Hat Hk. pose proof (ok_use _ _ Hok k v e Hat Hk) as ->. case_decide as E; [|done]. subst e.
    destruct Hv as [->|Hn]; [done|]. destruct Hn. unfold holding. rewrite Hat. by eapply list_elem_of_lookup_2.
  - intros e HK Hi He'. case_decide as E; [subst e|by apply (ok_init _ _ Hok)].
    intros v. destruct Hq as [->|[->|[->|[_ Hn]]]]; try done; [by apply (ok_init _ _ Hok)|]. rewrite Hn in Hi; done.
  - intros e v HK He'. case_decide as E; [subst e|by apply (ok_ring _ _ Hok)]. intros Hx.
    destruct Hq as [Hs|[Hs|[Hs|[Hs _]]]]; rewrite Hs in Hx; try done; [|right; congruence].
    destruct (ok_ring _ _ Hok d v HK He' Hx) as [?|Hvv]; [by left|]. destruct Hv as [->|Hn]; [by right|].
    destruct (holds_or_looks_up t d (ok_pc _ _ Hok) He') as [?|[Hi|?]]; [by left| |done].
    destruct (ok_init _ _ Hok d HK Hi He' v Hx).
Qed.

(** At [Poll], [Use] and [Test] a thread holds all its locks, and after polling it knows
    the ring. *)
Lemma thread_ok_next s t k : thread_ok s t → k < length (devs t) →
  (at_ t = Test k ∨ (∃ b, at_ t = Poll k b) ∨ ∃ v, at_ t = Use k v) →
  (∀ d v, knd t = Tx → devs t !! k = Some d → queue (device_of s d) = Some (Some v) → at_ t = Poll k true → v = version (device_of s d)) →
  thread_ok s (t <| at_ := next t k |>).
Proof.
  intros Hok Hk Hat Hq. assert (holding t = devs t) as Hh.
  { unfold holding. destruct Hat as [->|[[b ->]|[v ->]]]; done. }
  apply thread_ok_move; [done|by apply next_ok| | | |].
  - intros d. rewrite Hh. unfold holding, next. cbn. case_decide; cbn; auto.
  - unfold next. by case_decide.
  - unfold next. by case_decide.
  - intros d HK Hd Hw. right. intros v Hv. unfold will_look_up in Hw.
    destruct Hat as [E|[[b E]|[v' E]]]; rewrite E in Hw; try done. destruct b; [|done]. by eapply Hq.
Qed.

(** The queue of a device is stopped, or started without an address. *)
Lemma inv_queue ts s d q : inv ts s → q = None ∨ q = Some None → inv ts (set_dev d ((device_of s d) <| queue := q |>) s).
Proof.
  intros Hi Hq. apply inv_set_dev; [done|apply Hi|]. intros i t Ht Hok. apply thread_ok_dev; [done|apply Hok|by left|].
  right. destruct Hq; auto.
Qed.

(** The vfio-user thread moves without changing the mapping. *)
Lemma inv_writer ts s d f w : inv ts s → f = match w with WWant | WHold => true | _ => false end →
  (exclusive w = true → ∀ t, t ∈ threads s → d ∉ holding t) →
  inv ts (set_dev d ((device_of s d) <| dma_flag := f |> <| wtr := w |>) s).
Proof.
  intros Hi Hf Hw. apply inv_set_dev; [done|done|]. intros i t Ht Hok.
  apply thread_ok_dev; [done| |by left|by left]. intros He. apply Hw; [done|]. by eapply list_elem_of_lookup_2.
Qed.

Lemma inv_poll_tx ts s i t k d b r : assignment ts → inv ts s →
  threads s !! i = Some t → knd t = Tx → at_ t = Poll k b → devs t !! k = Some d → queue (device_of s d) = Some r →
  let v := lookup_ring b r (version (device_of s d)) in
  inv ts (set_pc i t (Use k v) (set_dev d ((device_of s d) <| queue := Some (Some v) |>) s)).
Proof.
  intros Ha Hi Ht HK Hat Hd Hq. pose proof (inv_thread _ _ Hi i t Ht) as Hok.
  assert (lookup_ring b r (version (device_of s d)) = version (device_of s d)) as ->.
  { unfold lookup_ring. destruct r as [v|]; [|done]. destruct b; [done|].
    destruct (ok_ring _ _ Hok d v HK) as [Hw|]; try done; [by eapply list_elem_of_lookup_2|]. unfold will_look_up in Hw. by rewrite Hat in Hw. }
  cbv zeta. set (s1 := set_dev d _ s).
  assert (inv ts s1) as Hi1.
  { apply inv_set_dev; [done|apply Hi|]. intros j u Hu Hok'. apply thread_ok_dev; [done|apply Hok'|by left|].
    right. right. right. split; [done|]. intros HKu Hdu.
    assert (i = j) as ->; [|assert (u = t) as -> by congruence; by rewrite Hat]. destruct Ha as [Hn _]. rewrite <- (inv_static _ _ Hi) in Hn.
    eapply (polled_unique _ _ _ (devs t) (devs u) d Hn); rewrite ?list_lookup_fmap, ?Ht, ?Hu; cbn; rewrite ?HK, ?HKu; try done.
    by eapply list_elem_of_lookup_2. }
  apply inv_set_pc; [done|done|]. pose proof (inv_thread _ _ Hi1 i t Ht) as Hok1.
  pose proof (ok_pc _ _ Hok) as Hp. unfold pc_ok in Hp. rewrite Hat in Hp.
  apply thread_ok_move; [done|done| |..].
  - intros e. unfold holding. rewrite Hat. cbn. auto.
  - intros k' v e [= <- <-] He. assert (e = d) as -> by congruence. cbn. by rewrite decide_True.
  - done.
  - intros e _ _ Hw. right. unfold will_look_up in Hw. rewrite Hat in Hw. destruct b; [|done].
    assert (e = d) as -> by congruence. cbn. rewrite decide_True by done. cbn. intros v. congruence.
Qed.

Lemma inv_step ts s s' : assignment ts → inv ts s → step s s' → inv ts s'.
Proof.
  intros Ha Hi Hs. destruct Hs as [i t k d Ht Hat Hd Hw|i t Ht Hat|i t k d Ht Hat Hd|i t k d Ht Hat Hd Hf|i t k d Ht Hat Hd Hw|
    i t k d b Ht HK Hat Hd|i t k d b Ht HK Hat Hd Hq|i t k d b r Ht HK Hat Hd Hq v|i t k d b r Ht HK Hat Hd Hq Hr|
    i t k v Ht Hat|i t k d v Ht HK Hat Hd|d Hw|d Hw Hfree|d Hw|d Hw|d Hw|d Hw|d Hw].
  all: try (pose proof (inv_thread _ _ Hi i t Ht) as Hok; pose proof (ok_pc _ _ Hok) as Hp; unfold pc_ok in Hp; rewrite Hat in Hp).
  - apply inv_set_pc; [done|done|]. apply thread_ok_move; [done| | | | |].
    + unfold pc_ok. cbn. case_decide; cbn; lia.
    + intros e. unfold holding. rewrite Hat. cbn.
      assert (e ∈ take (S k) (devs t) → e ∈ take k (devs t) ∨ exclusive (wtr (device_of s e)) = false) as Hin.
      { rewrite (take_S_r _ _ _ Hd), elem_of_app, list_elem_of_singleton. intros [?| ->]; auto. }
      case_decide; cbn; [done|]. by rewrite (take_ge (devs t) (S k)) in Hin by lia.
    + by case_decide.
    + by rewrite Hat.
    + intros e _ _. unfold will_look_up. by rewrite Hat.
  - apply inv_set_pc; [done|done|]. apply thread_ok_move; try done; [intros e; cbn; intros []%not_elem_of_nil|]. intros e _ _ _. by left.
  - apply inv_set_pc; [done|done|]. apply thread_ok_move; [done|by unfold pc_ok; cbn; destruct (dma_flag _)| |by destruct (dma_flag _)..|].
    + intros e. unfold holding. rewrite Hat. cbn. destruct (dma_flag _); cbn; [|auto]. intros He. left. by eapply list_elem_of_delete_inv.
    + intros e _ _. unfold will_look_up. by rewrite Hat.
  - apply inv_set_pc; [done|done|]. apply thread_ok_move; try done; [|intros e _ _; unfold will_look_up; rewrite Hat; cbn; auto].
    intros e. unfold holding. rewrite Hat. cbn. auto.
  - apply inv_set_pc; [done|done|]. apply thread_ok_move; try done; [|intros e _ _; unfold will_look_up; rewrite Hat; cbn; auto].
    intros e. unfold holding. rewrite Hat. cbn. intros He. destruct (decide (e = d)) as [->|]; [by right|left; by eapply elem_of_delete].
  - apply inv_set_pc; [done|done|]. apply thread_ok_move; try done.
    + intros e. unfold holding. rewrite Hat. cbn. auto.
    + intros k' v e [= <- <-] He. congruence.
    + intros e HK'. congruence.
  - apply inv_set_pc; [done|done|]. apply thread_ok_next; [done|done|eauto|]. intros e v _ He. congruence.
  - by eapply inv_poll_tx.
  - pose proof (inv_queue ts s d None Hi (or_introl eq_refl)) as Hi1.
    apply inv_set_pc; [done|done|]. apply thread_ok_next; [by apply (inv_thread _ _ Hi1 i)|done|eauto|].
    intros e v _ He. cbn. assert (e = d) as -> by congruence. by rewrite decide_True.
  - apply inv_set_pc; [done|done|]. apply thread_ok_next; [done|done|eauto|]. congruence.
  - pose proof (inv_queue ts s d None Hi (or_introl eq_refl)) as Hi1.
    apply inv_set_pc; [done|done|]. apply thread_ok_next; [by apply (inv_thread _ _ Hi1 i)|done|eauto|]. congruence.
  - by apply inv_writer.
  - pose proof (inv_flag _ _ Hi d) as Hf. rewrite Hw in Hf.
    replace ((device_of s d) <| wtr := WHold |>) with ((device_of s d) <| dma_flag := true |> <| wtr := WHold |>).
    + by apply inv_writer.
    + destruct (device_of s d). cbn in *. congruence.
  - apply inv_writer; [done|done|]. intros _ t [i Ht]%list_elem_of_lookup. apply (inv_thread _ _ Hi i t Ht). by rewrite Hw.
  - apply inv_set_dev; [done|cbn; rewrite (inv_flag _ _ Hi), Hw; done|]. intros i t Ht Hok.
    assert (d ∉ holding t) by (apply Hok; by rewrite Hw). apply thread_ok_dev; try done; [by right|by left].
  - pose proof (inv_flag _ _ Hi d) as Hf. rewrite Hw in Hf.
    replace ((device_of s d) <| wtr := WIdle |>) with ((device_of s d) <| dma_flag := false |> <| wtr := WIdle |>).
    + by apply inv_writer.
    + destruct (device_of s d). cbn in *. congruence.
  - apply inv_queue; auto.
  - apply inv_queue; auto.
Qed.

Lemma inv_reachable ts s : assignment ts → reachable ts s → inv ts s.
Proof.
  intros Ha Hr. unfold reachable in Hr. remember (init ts) as s0 eqn:E. assert (inv ts s0) as Hi by (subst; by apply inv_init).
  clear E. induction Hr as [|s1 s2 s3 Hs _ IH]; [done|]. apply IH. by eapply inv_step.
Qed.

(** ** Safety *)

(** C33. The mapping does not change under a poller: whenever a thread uses addresses, they
    are those of the present mapping, and the vfio-user thread is not changing it; for
    any number of devices, with or without shared threads. *)
Theorem mapping_stable sharing_thresh count s i t k v d : reachable (start sharing_thresh count) s →
  threads s !! i = Some t → at_ t = Use k v → devs t !! k = Some d →
  v = version (device_of s d) ∧ exclusive (wtr (device_of s d)) = false.
Proof.
  intros Hr Ht Hat Hd. apply inv_reachable in Hr; [|apply start_assignment].
  pose proof (inv_thread _ _ Hr i t Ht) as Hok. split; [by eapply ok_use|].
  destruct (exclusive _) eqn:E; [|done]. destruct (ok_lock _ _ Hok d E). unfold holding. rewrite Hat. by eapply list_elem_of_lookup_2.
Qed.

(** ** Progress with a thread per device *)

Section progress.
Context (ts : list (kind * list nat)) (Ha : assignment ts) (Hsingle : ∀ t, t ∈ ts → ∃ d, t.2 = [d]).
Context (d : nat).

(** The state after some steps of the polling thread [i]. *)
Record after (i : nat) (s s' : sys) : Prop := {
  af_steps : rtc step s s';
  af_inv : inv ts s';
  af_others j : j ≠ i → threads s' !! j = threads s !! j;
  af_wtr : wtr (device_of s' d) = wtr (device_of s d);
  af_version : version (device_of s' d) = version (device_of s d)
}.

Lemma after_refl i s : inv ts s → after i s s.
Proof. by split. Qed.

Lemma after_step i s s1 s2 : step s s1 → inv ts s → (∀ j, j ≠ i → threads s1 !! j = threads s !! j) →
  wtr (device_of s1 d) = wtr (device_of s d) → version (device_of s1 d) = version (device_of s d) → after i s1 s2 → after i s s2.
Proof.
  intros Hs Hi Ho Hw Hv []. split; [by eapply rtc_l|done|..]; try congruence. intros j Hj. rewrite <- Ho by done. auto.
Qed.

(** What a thread without the lock of [d] has given up. *)
Definition released (i : nat) (s : sys) : Prop := ∀ t, threads s !! i = Some t → d ∉ holding t.

Lemma set_pc_lookup i t p s : threads s !! i = Some t → threads (set_pc i t p s) !! i = Some (t <| at_ := p |>).
Proof. intros Ht. cbn. rewrite list_lookup_insert_eq; [done|by eapply lookup_lt_Some]. Qed.
Lemma set_pc_others i t p s j : j ≠ i → threads (set_pc i t p s) !! j = threads s !! j.
Proof. intros. cbn. by rewrite list_lookup_insert_ne. Qed.

Lemma release_test i s t : inv ts s → wtr (device_of s d) = WWant → threads s !! i = Some t → devs t = [d] → at_ t = Test 0 →
  ∃ s', after i s s' ∧ released i s'.
Proof using Ha.
  intros Hi Hw Ht Hd Hat. assert (step s (set_pc i t (Spin 0) s)) as Hs.
  { pose proof (step_test s i t 0 d Ht Hat) as H. rewrite (inv_flag _ _ Hi), Hw in H. apply H. by rewrite Hd. }
  eexists. split; [eapply after_step; [exact Hs|done|by apply set_pc_others|done|done|]|].
  - apply after_refl. by eapply inv_step.
  - intros u Hu. rewrite (set_pc_lookup _ _ _ _ Ht) in Hu. injection Hu as <-. unfold holding. cbn. rewrite Hd. cbn. apply not_elem_of_nil.
Qed.

Lemma next_single t : devs t = [d] → next t 0 = Test 0.
Proof. intros Hd. unfold next. by rewrite Hd. Qed.

Lemma release_use i s t v : inv ts s → wtr (device_of s d) = WWant → threads s !! i = Some t → devs t = [d] → at_ t = Use 0 v →
  ∃ s', after i s s' ∧ released i s'.
Proof using Ha.
  intros Hi Hw Ht Hd Hat. pose proof (step_use s i t 0 v Ht Hat) as Hs. rewrite next_single in Hs by done.
  destruct (release_test i (set_pc i t (Test 0) s) (t <| at_ := Test 0 |>)) as (s' & Haf & Hr); [by eapply inv_step|done| |done|done|].
  { by apply set_pc_lookup. }
  exists s'. split; [|done]. eapply after_step; [exact Hs|done|by apply set_pc_others|done..].
Qed.

Lemma release_poll i s t b : inv ts s → wtr (device_of s d) = WWant → threads s !! i = Some t → devs t = [d] → at_ t = Poll 0 b →
  ∃ s', after i s s' ∧ released i s'.
Proof using Ha.
  intros Hi Hw Ht Hd Hat. assert (devs t !! 0 = Some d) as Hd0 by (by rewrite Hd). destruct (knd t) eqn:HK.
  - pose proof (step_poll_rx s i t 0 d b Ht HK Hat Hd0) as Hs.
    destruct (release_use i (set_pc i t (Use 0 (version (device_of s d))) s)
      (t <| at_ := Use 0 (version (device_of s d)) |>) (version (device_of s d))) as (s' & Haf & Hr);
      [by eapply inv_step|done|by apply set_pc_lookup|done|done|].
    exists s'. split; [|done]. eapply after_step; [exact Hs|done|by apply set_pc_others|done..].
  - destruct (queue (device_of s d)) as [r|] eqn:Hq.
    + pose proof (step_poll_tx s i t 0 d b r Ht HK Hat Hd0 Hq) as Hs. cbv zeta in Hs. set (v := lookup_ring _ _ _) in Hs.
      set (s1 := set_pc i t (Use 0 v) _) in Hs.
      assert (wtr (device_of s1 d) = wtr (device_of s d) ∧ version (device_of s1 d) = version (device_of s d)) as [E1 E2]
        by (cbn; by rewrite decide_True).
      destruct (release_use i s1 (t <| at_ := Use 0 v |>) v) as (s' & Haf & Hr);
        [by eapply inv_step|congruence|by apply set_pc_lookup|done|done|].
      exists s'. split; [|done]. eapply after_step; [exact Hs|done|intros j Hj; cbn; by rewrite list_lookup_insert_ne|done..].
    + pose proof (step_poll_none s i t 0 d b Ht HK Hat Hd0 Hq) as Hs. rewrite next_single in Hs by done.
      destruct (release_test i (set_pc i t (Test 0) s) (t <| at_ := Test 0 |>)) as (s' & Haf & Hr);
        [by eapply inv_step|done|by apply set_pc_lookup|done|done|].
      exists s'. split; [|done]. eapply after_step; [exact Hs|done|by apply set_pc_others|done..].
Qed.

Lemma release i s : inv ts s → wtr (device_of s d) = WWant → ∃ s', after i s s' ∧ released i s'.
Proof using Ha Hsingle.
  intros Hi Hw. destruct (threads s !! i) as [t|] eqn:Ht.
  2: { exists s. split; [by apply after_refl|]. intros t Ht'. congruence. }
  destruct (decide (d ∈ holding t)) as [Hin|].
  2: { exists s. split; [by apply after_refl|]. intros t' Ht'. congruence. }
  destruct (Hsingle (knd t, devs t)) as [e He].
  { rewrite <- (inv_static _ _ Hi). apply list_elem_of_fmap. exists t. split; [done|]. by eapply list_elem_of_lookup_2. }
  cbn in He. pose proof (ok_pc _ _ (inv_thread _ _ Hi i t Ht)) as Hp. unfold pc_ok in Hp.
  assert (d = e) as <-.
  { apply holding_devs in Hin. rewrite He in Hin. by apply list_elem_of_singleton in Hin. }
  rewrite He in Hp. cbn in Hp. unfold holding in Hin. rewrite He in Hin.
  destruct (at_ t) as [k|k|k|k|k b|k v|] eqn:Hat; try (assert (k = 0) as -> by lia); cbn in Hin; try by apply not_elem_of_nil in Hin.
  - by eapply release_test.
  - by eapply release_poll.
  - by eapply release_use.
Qed.

Lemma release_all n s : inv ts s → wtr (device_of s d) = WWant →
  ∃ s', rtc step s s' ∧ inv ts s' ∧ wtr (device_of s' d) = WWant ∧ version (device_of s' d) = version (device_of s d) ∧
    ∀ i, i < n → released i s'.
Proof using Ha Hsingle.
  intros Hi Hw. induction n as [|n (s1 & Hr & Hi1 & Hw1 & Hv1 & Hn)]; [exists s; split_and!; try done; lia|].
  destruct (release n s1 Hi1 Hw1) as (s2 & [Hr2 Hi2 Ho Hw2 Hv2] & Hrel). exists s2. split_and!; [by etrans|done|congruence|congruence|].
  intros i Hlt. destruct (decide (i = n)) as [->|]; [done|]. intros t. rewrite Ho by done. apply Hn. lia.
Qed.
End progress.

Lemma start_single sharing_thresh count t : count <= sharing_thresh → t ∈ start sharing_thresh count → ∃ d, t.2 = [d].
Proof.
  intros Hc. unfold start. rewrite decide_False by lia. induction (seq 0 count) as [|i l IH]; [intros []%not_elem_of_nil|].
  cbn. rewrite !elem_of_cons. intros [-> |[-> |?]]; eauto.
Qed.

(** Without shared threads a change of the mapping can always be completed: from every
    reachable state in which the vfio-user thread of a device waits for the lock, the
    pollers can make way and the mapping changes. *)
Theorem mapping_change_possible sharing_thresh count s d : count <= sharing_thresh →
  reachable (start sharing_thresh count) s → wtr (device_of s d) = WWant →
  ∃ s', rtc step s s' ∧ version (device_of s' d) = S (version (device_of s d)) ∧ wtr (device_of s' d) = WIdle.
Proof.
  intros Hc Hr Hw. pose proof (start_assignment sharing_thresh count) as Ha. pose proof (inv_reachable _ _ Ha Hr) as Hi.
  destruct (release_all _ Ha (fun t => start_single _ _ t Hc) d (length (threads s)) s Hi Hw) as (s1 & Hs & Hi1 & Hw1 & Hv & Hrel).
  assert (length (threads s1) = length (threads s)) as Hl.
  { rewrite <- (length_fmap (fun t => (knd t, devs t)) (threads s1)), (inv_static _ _ Hi1), <- (inv_static _ _ Hi). apply length_fmap. }
  assert (∀ t, t ∈ threads s1 → d ∉ holding t) as Hfree.
  { intros t [i Ht]%list_elem_of_lookup. apply (Hrel i); [|done]. rewrite <- Hl. by eapply lookup_lt_Some. }
  eexists. split; [etrans; [exact Hs|]|].
  - eapply rtc_l; [by apply step_hold with (d := d)|]. eapply rtc_l; [apply step_clear with (d := d); cbn; by rewrite decide_True|].
    eapply rtc_l; [apply step_map with (d := d); cbn; by rewrite !decide_True|].
    eapply rtc_l; [apply step_unlock with (d := d); cbn; by rewrite !decide_True|]. apply rtc_refl.
  - cbn. rewrite !decide_True by done. cbn. by rewrite Hv.
Qed.

(** ** Deadlock of shared threads *)

Section deadlock.
Context (l : nat) (Hl : l ≠ 0) (rest : list thread).

(** The two threads that poll device 0 and device [l], at [p] and [q]. *)
Definition pair (D : nat → device) (p q : pc) : sys := mkSys D (mkThread Rx [0; l] p :: mkThread Tx [0; l] q :: rest).

(** Each of them waits for the writer of one device with the lock of the other. *)
Record stuck (s : sys) : Prop := {
  st_rx : threads s !! 0 = Some (mkThread Rx [0; l] (Spin 1));
  st_tx : threads s !! 1 = Some (mkThread Tx [0; l] (Spin 0));
  st_first : wtr (device_of s 0) = WWant ∧ dma_flag (device_of s 0) = true;
  st_last : wtr (device_of s l) = WWant ∧ dma_flag (device_of s l) = true
}.

(** What a step does not touch. *)
Lemma stuck_pc s i t p : stuck s → threads s !! i = Some t → (∀ k, at_ t ≠ Spin k) → stuck (set_pc i t p s).
Proof.
  intros Hst Ht Hn. assert (i ≠ 0) by (intros ->; rewrite (st_rx _ Hst) in Ht; injection Ht as <-; by apply (Hn 1)).
  assert (i ≠ 1) by (intros ->; rewrite (st_tx _ Hst) in Ht; injection Ht as <-; by apply (Hn 0)).
  split; cbn; rewrite ?list_lookup_insert_ne by done; apply Hst.
Qed.

Lemma stuck_dev s d x : stuck s → (wtr (device_of s d) = WWant → wtr x = WWant ∧ dma_flag x = dma_flag (device_of s d)) → stuck (set_dev d x s).
Proof.
  intros Hst Hx. split; cbn; try apply Hst; case_decide as E; try apply Hst; subst d.
  - destruct (st_first _ Hst) as [Hw Hf]. destruct (Hx Hw) as [-> ->]. done.
  - destruct (st_last _ Hst) as [Hw Hf]. destruct (Hx Hw) as [-> ->]. done.
Qed.

Lemma stuck_step s s' : stuck s → step s s' → stuck s'.
Proof using Hl.
  intros Hst Hs. destruct Hs as [i t k d Ht Hat Hd Hw|i t Ht Hat|i t k d Ht Hat Hd|i t k d Ht Hat Hd Hf|i t k d Ht Hat Hd Hw|
    i t k d b Ht HK Hat Hd|i t k d b Ht HK Hat Hd Hq|i t k d b r Ht HK Hat Hd Hq v|i t k d b r Ht HK Hat Hd Hq Hr|
    i t k v Ht Hat|i t k d v Ht HK Hat Hd|d Hw|d Hw Hfree|d Hw|d Hw|d Hw|d Hw|d Hw].
  all: try (apply stuck_pc; [|done|by rewrite Hat]).
  all: try (first [done | apply stuck_dev; [done|]; try congruence; done]).
  - pose proof (st_first _ Hst) as [_ H0]. pose proof (st_last _ Hst) as [_ H1].
    assert (i ≠ 0).
    { intros ->. rewrite (st_rx _ Hst) in Ht. injection Ht as <-. injection Hat as <-. injection Hd as <-. congruence. }
    assert (i ≠ 1).
    { intros ->. rewrite (st_tx _ Hst) in Ht. injection Ht as <-. injection Hat as <-. injection Hd as <-. congruence. }
    split; cbn; rewrite ?list_lookup_insert_ne by done; apply Hst.
  - assert (d ≠ 0).
    { intros ->. apply (Hfree (mkThread Rx [0; l] (Spin 1))); [eapply list_elem_of_lookup_2, (st_rx _ Hst)|]. by left. }
    assert (d ≠ l).
    { intros ->. apply (Hfree (mkThread Tx [0; l] (Spin 0))); [eapply list_elem_of_lookup_2, (st_tx _ Hst)|]. by left. }
    split; cbn; rewrite ?decide_False by done; apply Hst.
Qed.

Lemma stuck_forever s s' : stuck s → rtc step s s' → stuck s'.
Proof using Hl. intros Hst Hs. induction Hs; [done|]. eauto using stuck_step. Qed.

(** Both threads start and the one for reception polls device 0; then both writers ask
    for their locks. *)
Lemma stuck_reachable : ∃ s, rtc step (pair (fun _ => dev0) (Init 0) (Init 0)) s ∧ stuck s.
Proof using Hl.
  set (D0 := fun _ : nat => dev0). set (D2 := device_of (set_dev l (mkDevice true WWant 0 None) (set_dev 0 (mkDevice true WWant 0 None) (pair D0 (Test 1) (Test 0))))).
  assert (D2 0 = mkDevice true WWant 0 None) as E0 by (unfold D2; cbn; by rewrite decide_False).
  assert (D2 l = mkDevice true WWant 0 None) as El by (unfold D2; cbn; by rewrite decide_True).
  exists (pair D2 (Spin 1) (Spin 0)). split; [|split; [done|done|change (device_of _ 0) with (D2 0); by rewrite E0|change (device_of _ l) with (D2 l); by rewrite El]].
  eapply rtc_l; [exact (step_init (pair D0 (Init 0) (Init 0)) 0 _ 0 0 eq_refl eq_refl eq_refl eq_refl)|].
  eapply rtc_l; [exact (step_init (pair D0 (Init 1) (Init 0)) 0 _ 1 l eq_refl eq_refl eq_refl eq_refl)|].
  eapply rtc_l; [exact (step_init (pair D0 (Test 0) (Init 0)) 1 _ 0 0 eq_refl eq_refl eq_refl eq_refl)|].
  eapply rtc_l; [exact (step_init (pair D0 (Test 0) (Init 1)) 1 _ 1 l eq_refl eq_refl eq_refl eq_refl)|].
  eapply rtc_l; [exact (step_test (pair D0 (Test 0) (Test 0)) 0 _ 0 0 eq_refl eq_refl eq_refl)|].
  eapply rtc_l; [exact (step_poll_rx (pair D0 (Poll 0 false) (Test 0)) 0 _ 0 0 false eq_refl eq_refl eq_refl eq_refl)|].
  eapply rtc_l; [exact (step_use (pair D0 (Use 0 0) (Test 0)) 0 _ 0 0 eq_refl eq_refl)|].
  eapply rtc_l; [exact (step_want (pair D0 (Test 1) (Test 0)) 0 eq_refl)|].
  eapply rtc_l; [apply step_want with (d := l); by rewrite set_dev_ne|]. rewrite set_dev_ne by done.
  match goal with |- rtc step ?s _ => assert (s = pair D2 (Test 1) (Test 0)) as -> end.
  { reflexivity. }
  eapply rtc_l; [apply (step_test (pair D2 (Test 1) (Test 0)) 0 _ 1 l eq_refl eq_refl eq_refl)|].
  change (device_of _ l) with (D2 l). rewrite El. eapply rtc_l; [apply (step_test (pair D2 (Spin 1) (Test 0)) 1 _ 0 0 eq_refl eq_refl eq_refl)|].
  change (device_of _ 0) with (D2 0). rewrite E0. apply rtc_refl.
Qed.
End deadlock.

(** C34. With shared threads two virtual machines can block each other for good: whenever
    there are more devices than the threshold, and at least two, a state is reachable
    in which the vfio-user threads of the first and the last device wait for their
    locks, and after any further steps they still wait. *)
Theorem shared_threads_deadlock sharing_thresh count : sharing_thresh < count → 2 <= count →
  ∃ s, reachable (start sharing_thresh count) s ∧
    ∀ s', rtc step s s' → wtr (device_of s' 0) = WWant ∧ wtr (device_of s' (count - 1)) = WWant.
Proof.
  intros Hc H2. assert (count - 1 ≠ 0) as Hl by lia.
  assert (∃ ts, start sharing_thresh count = (Rx, [0; count - 1]) :: (Tx, [0; count - 1]) :: ts) as [ts Hs].
  { unfold start. rewrite decide_True by done. destruct (count / 2) as [|mid] eqn:E; [apply Nat.div_small_iff in E; lia|].
    cbn [seq fmap list_fmap concat app]. rewrite Nat.sub_0_r. eauto. }
  destruct (stuck_reachable (count - 1) Hl ((fun t => mkThread t.1 t.2 (Init 0)) <$> ts)) as (s & Hr & Hst).
  exists s. split; [unfold reachable; by rewrite Hs|]. intros s' Hs'. pose proof (stuck_forever _ Hl s s' Hst Hs') as Hst'.
  split; [apply (st_first _ _ Hst')|apply (st_last _ _ Hst')].
Qed.

(** ** Instances *)

(** One device: the thread for reception polls it. *)
Lemma mapping_stable_witness : ∃ s t, reachable (start 2 1) s ∧ threads s !! 0 = Some t ∧ at_ t = Use 0 0 ∧
  0 = version (device_of s 0) ∧ exclusive (wtr (device_of s 0)) = false.
Proof.
  set (S0 := init (start 2 1)). set (T := mkThread Rx [0] (Init 0)).
  set (s1 := set_pc 0 T (Test 0) S0). set (s2 := set_pc 0 (T <| at_ := Test 0 |>) (Poll 0 false) s1).
  set (s3 := set_pc 0 (T <| at_ := Poll 0 false |>) (Use 0 0) s2).
  assert (reachable (start 2 1) s3) as Hr.
  { eapply rtc_l; [exact (step_init S0 0 T 0 0 eq_refl eq_refl eq_refl eq_refl)|].
    eapply rtc_l; [exact (step_test s1 0 _ 0 0 eq_refl eq_refl eq_refl)|].
    eapply rtc_l; [exact (step_poll_rx s2 0 _ 0 0 false eq_refl eq_refl eq_refl eq_refl)|]. apply rtc_refl. }
  exists s3, (T <| at_ := Use 0 0 |>). split; [exact Hr|]. split; [reflexivity|]. split; [reflexivity|].
  exact (mapping_stable 2 1 s3 0 (T <| at_ := Use 0 0 |>) 0 0 0 Hr eq_refl eq_refl eq_refl).
Defined.

Lemma mapping_change_possible_witness : ∃ s s', reachable (start 2 1) s ∧ wtr (device_of s 0) = WWant ∧
  rtc step s s' ∧ version (device_of s' 0) = 1 ∧ wtr (device_of s' 0) = WIdle.
Proof.
  set (s1 := set_dev 0 (mkDevice true WWant 0 None) (init (start 2 1))).
  assert (reachable (start 2 1) s1) as Hr by (eapply rtc_l; [exact (step_want (init (start 2 1)) 0 eq_refl)|apply rtc_refl]).
  destruct (mapping_change_possible 2 1 s1 0 ltac:(lia) Hr eq_refl) as (s' & H1 & H2 & H3). exists s1, s'. split_and!; done.
Defined.

(** Three virtual machines with the threshold of main.cpp. *)
Lemma shared_threads_deadlock_witness : ∃ s, reachable (start 2 3) s ∧
  ∀ s', rtc step s s' → wtr (device_of s' 0) = WWant ∧ wtr (device_of s' 2) = WWant.
Proof. exact (shared_threads_deadlock 2 3 ltac:(lia) ltac:(lia)). Defined.
