(* ===== verification/Vdpdk.v ===== *)
(** * The vDPDK device

    vdpdk.cpp: the registers of the device ([region_access_cb]), the transmission of the
    packets of a guest ([tx_poll], the variant that copies) and the delivery of received
    packets to it ([rx_callback_fn]).  The rings and the packets are in guest memory,
    which is reached through [dma_local_addr].  DPDK is the class [Dpdk]. *)
From S2P Require Import Prelude Bytes E810Base VmuxDma.
Local Open Scope Z_scope.

Definition TX_DESC_SIZE : Z := 0x20.
Definition TX_FLAG_AVAIL : Z := 1.
Definition RX_DESC_SIZE : Z := 0x20.
Definition RX_FLAG_AVAIL : Z := 1.
Definition MAX_RX_QUEUES : Z := 4.
Definition MAX_QUEUES_PER_VM : Z := 4.
Definition burst_size : nat := 128.

(** ** State *)

Record RxQueue := mkRxq { rx_ring_iova : Z; rx_idx_mask : Z; rx_idx : Z }.
#[export] Instance rxq_settable : Settable RxQueue := fun r => mkRxq (rx_ring_iova r) (rx_idx_mask r) (rx_idx r).

(** [ring] is 0 for a null pointer. *)
Record TxQueue := mkTxq { tx_ring_iova : Z; ring : Z; tx_idx_mask : Z; front_idx : Z; back_idx : Z }.
#[export] Instance txq_settable : Settable TxQueue := fun r =>
  mkTxq (tx_ring_iova r) (ring r) (tx_idx_mask r) (front_idx r) (back_idx r).

(** The regions [txCtl], [rxCtl] and [flowbuf] are shared with the guest. *)
Record VdpdkDevice := mkVdpdk {
  device_id : Z; mac_addr : list Z; dbg_string : list Z; txCtl : list Z; rxCtl : list Z; flowbuf : list Z;
  rx_queues : list (option RxQueue); tx_queue : option TxQueue
}.
#[export] Instance vdpdk_settable : Settable VdpdkDevice := fun r =>
  mkVdpdk (device_id r) (mac_addr r) (dbg_string r) (txCtl r) (rxCtl r) (flowbuf r) (rx_queues r) (tx_queue r).

(** DPDK: an mbuf of the pool of a queue with its tailroom, freeing of mbufs, a burst of
    mbufs with their packets, of which a number is accepted, and switch rules. *)
Class Dpdk (D : Type) := {
  pktmbuf_alloc : Z → D → option (Z * Z) * D;
  pktmbuf_free : list Z → D → D;
  tx_done_cleanup : Z → D → D;
  eth_tx_burst : Z → list (Z * list Z) → D → nat * D;
  driver_add_switch_rule : Z → list Z → Z → Z → D → bool * D
}.

(** The layout of the structs of DPDK that the guest writes to [flowbuf]. *)
Record rte_flow := mkFlow {
  sizeof_attr : nat; sizeof_item_eth : nat; item_eth_type : nat; sizeof_action_queue : nat; action_queue_index : nat
}.

(** ** Memory *)

Definition rd16 (mem : memory) (a : Z) : Z := le (read_mem mem a 2).
Definition rd64 (mem : memory) (a : Z) : Z := le (read_mem mem a 8).
Definition wr16 (mem : memory) (a v : Z) : memory := write_mem mem a (le_bytes 2 v).

(** A descriptor: address, length and flags. *)
Definition desc_addr (ring idx mask size : Z) : Z := ring + (idx .& mask) * size.
Definition buf_iova (mem : memory) (desc : Z) : Z := rd64 mem desc.
Definition buf_len (mem : memory) (desc : Z) : Z := rd16 mem (desc + 8).
Definition desc_flags (mem : memory) (desc : Z) : Z := rd16 mem (desc + 8 + 2).

(** ** Transmission *)

Definition get_tx_queue_id (vm queue : Z) : Z := u16 (vm * MAX_QUEUES_PER_VM + queue).

(** How the loop over the ring ends: with [break], with [return] for a packet that is
    not mapped, or (in the model only) for lack of fuel. *)
Inductive tx_end := TxBreak | TxReturn | TxFuel.

Section tx.
Context {D : Type} `{Dpdk D}.

Fixpoint tx_loop (fuel : nat) (ms : mappings) (queue_id : Z) (q : TxQueue) (mbufs : list (Z * list Z)) (mem : memory) (d : D)
    : result (tx_end * TxQueue * list (Z * list Z) * memory * D) :=
  match fuel with
  | O => Ok (TxFuel, q, mbufs, mem, d)
  | S fuel' =>
      if (length mbufs <? burst_size)%nat then
        let desc := desc_addr (ring q) (back_idx q) (tx_idx_mask q) TX_DESC_SIZE in
        let flags := desc_flags mem desc in
        if negb (nz (flags .& TX_FLAG_AVAIL)) then Ok (TxBreak, q, mbufs, mem, d)
        else
          a ← dma_local_addr ms (buf_iova mem desc) (buf_len mem desc);
          match a with
          | None => Ok (TxReturn, q, mbufs, mem, d)
          | Some buf_addr =>
              let len := buf_len mem desc in
              match pktmbuf_alloc queue_id d with
              | (None, d) => Ok (TxBreak, q, mbufs, mem, tx_done_cleanup queue_id d)
              | (Some (mbuf, tailroom), d) =>
                  let '(mbufs, d) := if tailroom <? len then (mbufs, pktmbuf_free [mbuf] d)
                                     else (mbufs ++ [(mbuf, read_mem mem buf_addr len)], d) in
                  let mem := wr16 mem (desc + 8 + 2) (flags .& cnot 16 TX_FLAG_AVAIL) in
                  tx_loop fuel' ms queue_id (q <| back_idx := u16 (back_idx q + 1) |>) mbufs mem d
              end
          end
      else Ok (TxBreak, q, mbufs, mem, d)
  end.

(** The burst after the loop; packets that are not accepted are dropped. *)
Definition tx_send (queue_id : Z) (mbufs : list (Z * list Z)) (d : D) : D :=
  match mbufs with
  | [] => d
  | _ => let '(nb_tx, d) := eth_tx_burst queue_id mbufs d in
         if (nb_tx <? length mbufs)%nat then pktmbuf_free (fst <$> drop nb_tx mbufs) d else d
  end.

Definition tx_ring_size (q : TxQueue) : Z := (tx_idx_mask q + 1) * TX_DESC_SIZE.

(** The address of the ring is looked up after a change of the mapping and when there is
    none yet. *)
Definition tx_ring (dma_invalidated : bool) (ms : mappings) (q : TxQueue) : result (option TxQueue) :=
  if dma_invalidated || (ring q =? 0) then
    a ← dma_local_addr ms (tx_ring_iova q) (tx_ring_size q);
    match a with Some a => Ok (Some (q <| ring := a |>)) | None => Ok None end
  else Ok (Some q).

Definition tx_poll (fuel : nat) (dma_invalidated : bool) (ms : mappings) (dev : VdpdkDevice) (mem : memory) (d : D)
    : result (tx_end * VdpdkDevice * memory * D) :=
  match tx_queue dev with
  | None => Ok (TxBreak, dev, mem, d)
  | Some q =>
      r ← tx_ring dma_invalidated ms q;
      match r with
      | None => Ok (TxBreak, dev <| tx_queue := None |>, mem, d)
      | Some q =>
          let queue_id := get_tx_queue_id (device_id dev) 0 in
          r ← tx_loop fuel ms queue_id q [] mem d;
          match r with
          | (TxReturn, _, _, mem, d) => Ok (TxReturn, dev <| tx_queue := None |>, mem, d)
          | (e, q, mbufs, mem, d) => Ok (e, dev <| tx_queue := Some q |>, mem, tx_send queue_id mbufs d)
          end
      end
  end.
End tx.

(** ** Reception *)

(** The queue for the packets of the queue [q_idx] of the driver, and its number. *)
Definition rx_queue_for (q_idx : Z) (queues : list (option RxQueue)) : option (Z * RxQueue) :=
  match rd queues (q_idx mod MAX_RX_QUEUES) with
  | Some (Some q) => Some (q_idx mod MAX_RX_QUEUES, q)
  | _ => match rd queues 0 with Some (Some q) => Some (0, q) | _ => None end
  end.

Definition rx_ring_size (q : RxQueue) : Z := (rx_idx_mask q + 1) * RX_DESC_SIZE.

(** One packet into the ring at [ring]; [None] is the [break] of the loop. *)
Definition rx_packet (ms : mappings) (ring : Z) (pkt : list Z) (q : RxQueue) (mem : memory)
    : result (option (RxQueue * memory)) :=
  let desc := desc_addr ring (rx_idx q) (rx_idx_mask q) RX_DESC_SIZE in
  let flags := desc_flags mem desc in
  if negb (nz (flags .& RX_FLAG_AVAIL)) then Ok None
  else
    let blen := buf_len mem desc in
    a ← dma_local_addr ms (buf_iova mem desc) blen;
    match a with
    | None => Ok None
    | Some buf_addr =>
        let pkt_len := Z.of_nat (length pkt) in
        if (blen <? pkt_len) || (u16 pkt_len <? pkt_len) then Ok None
        else
          let mem := write_mem mem buf_addr pkt in
          let mem := wr16 mem (desc + 8) (u16 pkt_len) in
          let mem := wr16 mem (desc + 8 + 2) (flags .& cnot 16 RX_FLAG_AVAIL) in
          Ok (Some (q <| rx_idx := u16 (rx_idx q + 1) |>, mem))
    end.

Fixpoint rx_packets (ms : mappings) (ring : Z) (pkts : list (list Z)) (q : RxQueue) (mem : memory) : result (RxQueue * memory) :=
  match pkts with
  | [] => Ok (q, mem)
  | pkt :: pkts' =>
      r ← rx_packet ms ring pkt q mem;
      match r with None => Ok (q, mem) | Some (q, mem) => rx_packets ms ring pkts' q mem end
  end.

(** The packets of one queue of the driver.  The queue of the guest is loaded for the
    first packet. *)
Definition rx_queue (ms : mappings) (q_idx : Z) (pkts : list (list Z)) (queues : list (option RxQueue)) (mem : memory)
    : result (list (option RxQueue) * memory) :=
  match pkts with
  | [] => Ok (queues, mem)
  | _ =>
      match rx_queue_for q_idx queues with
      | None => Ok (queues, mem)
      | Some (k, q) =>
          a ← dma_local_addr ms (rx_ring_iova q) (rx_ring_size q);
          match a with
          | None => Ok (queues, mem)
          | Some ring =>
              '(q, mem) ← rx_packets ms ring pkts q mem;
              queues ← of_opt (wr queues k (Some q));
              Ok (queues, mem)
          end
      end
  end.

(** [rx_callback_fn] with the packets that [recv] brings, by queue of the driver. *)
Fixpoint rx_queues_from (ms : mappings) (q_idx : Z) (bursts : list (list (list Z))) (queues : list (option RxQueue)) (mem : memory)
    : result (list (option RxQueue) * memory) :=
  match bursts with
  | [] => Ok (queues, mem)
  | pkts :: bursts' =>
      '(queues, mem) ← rx_queue ms q_idx pkts queues mem;
      rx_queues_from ms (q_idx + 1) bursts' queues mem
  end.

Definition rx_callback_fn (ms : mappings) (bursts : list (list (list Z))) (dev : VdpdkDevice) (mem : memory)
    : result (VdpdkDevice * memory) :=
  '(queues, mem) ← rx_queues_from ms 0 bursts (rx_queues dev) mem;
  Ok (dev <| rx_queues := queues |>, mem).

(** ** Registers *)

Definition DEBUG_STRING : Z := 0x0.
Definition TX_QUEUE_START : Z := 0x40.
Definition TX_QUEUE_STOP : Z := 0x80.
Definition RX_QUEUE_START : Z := 0x140.
Definition RX_QUEUE_STOP : Z := 0x180.
Definition FLOW_CREATE : Z := 0x200.
Definition FLOW_DESTROY : Z := 0x240.

(** ["Hello from vmux"] with its terminator. *)
Definition hello : list Z := [72; 101; 108; 108; 111; 32; 102; 114; 111; 109; 32; 118; 109; 117; 120; 0].

(** [strncpy] of the string at [src]: up to the terminator, then zeros. *)
Fixpoint strncpy (src : list Z) (n : nat) : list Z :=
  match n with
  | O => []
  | S n' => match src with
            | c :: src' => if c =? 0 then replicate n 0 else c :: strncpy src' n'
            | [] => replicate n 0
            end
  end.

(** A write of [count] bytes [buf]: the value returned and the device. *)
Definition region_access_write (buf : list Z) (count offset : Z) (dev : VdpdkDevice) : result (Z * VdpdkDevice) :=
  if offset =? DEBUG_STRING then
    bs ← of_opt (bytes_at (Z.to_nat count) buf 0);
    Ok (count, dev <| dbg_string ::= fun s => s ++ bs |>)
  else if offset =? TX_QUEUE_STOP then
    if negb (count =? 2) then Ok (-1, dev)
    else
      queue_idx ← of_opt (load 2 buf 0);
      if negb (queue_idx =? 0) then Ok (count, dev) else Ok (count, dev <| tx_queue := None |>)
  else if offset =? RX_QUEUE_STOP then
    if negb (count =? 2) then Ok (-1, dev)
    else
      queue_idx ← of_opt (load 2 buf 0);
      if MAX_RX_QUEUES <=? queue_idx then Ok (count, dev)
      else
        queues ← of_opt (wr (rx_queues dev) queue_idx None);
        Ok (count, dev <| rx_queues := queues |>)
  else if offset =? FLOW_DESTROY then
    if negb (count =? 8) then Ok (-1, dev) else _ ← of_opt (load 8 buf 0); Ok (count, dev)
  else Ok (-1, dev).

Section registers.
Context {D : Type} `{Dpdk D} (F : rte_flow).

(** [memcpy] of a struct at [src] if it is present, and the next position. *)
Definition flow_struct (present : bool) (n : nat) (dev : VdpdkDevice) (src : Z) : result (list Z * Z) :=
  if present then bs ← of_opt (bytes_at n (flowbuf dev) src); Ok (bs, src + Z.of_nat n) else Ok (replicate n 0, src).

(** The rule that the guest asks for; the eight bytes of the answer. *)
Definition flow_create (dev : VdpdkDevice) (d : D) : result (list Z * D) :=
  let src := Z.of_nat (sizeof_attr F) in
  null_flags ← of_opt (load 1 (flowbuf dev) src);
  '(spec, src) ← flow_struct (nz (null_flags .& 1)) (sizeof_item_eth F) dev (src + 1);
  '(last, src) ← flow_struct (nz (null_flags .& 2)) (sizeof_item_eth F) dev src;
  '(mask, src) ← flow_struct (nz (null_flags .& 4)) (sizeof_item_eth F) dev src;
  null_flags ← of_opt (load 1 (flowbuf dev) src);
  '(action, src) ← flow_struct (nz null_flags) (sizeof_action_queue F) dev (src + 1);
  mask_type ← of_opt (load 2 mask (Z.of_nat (item_eth_type F)));
  index ← of_opt (load 2 action (Z.of_nat (action_queue_index F)));
  type ← of_opt (load 2 spec (Z.of_nat (item_eth_type F)));
  if negb (mask_type =? 0xFFFF) then Ok (le_bytes 8 (u64 (-1)), d)
  else if 4 <=? index then Ok (le_bytes 8 (u64 (-1)), d)
  else
    let '(ok, d) := driver_add_switch_rule (device_id dev) (mac_addr dev) (bswap16 type) index d in
    Ok (le_bytes 8 (if ok then 0 else u64 (-1)), d).

(** A read of [count] bytes: the value returned, the bytes read (none if the access is
    refused), the device and DPDK. *)
Definition region_access_read (count offset : Z) (dev : VdpdkDevice) (d : D) : result (Z * list Z * VdpdkDevice * D) :=
  if count =? 0 then Ok (-1, [], dev, d)
  else if offset <? 0x40 then
    let bs := if Z.of_nat (length hello) <=? offset then replicate (Z.to_nat count) 0
              else strncpy (drop (Z.to_nat offset) hello) (Z.to_nat count) in
    Ok (count, bs, dev, d)
  else if offset =? TX_QUEUE_START then
    if negb (count =? 1) then Ok (-1, [], dev, d)
    else
      queue_idx ← of_opt (load 2 (txCtl dev) 10);
      if negb (queue_idx =? 0) then Ok (count, [1], dev, d)
      else
        ring_addr ← of_opt (load 8 (txCtl dev) 0);
        idx_mask ← of_opt (load 2 (txCtl dev) 8);
        Ok (count, [0], dev <| tx_queue := Some (mkTxq ring_addr 0 idx_mask 0 0) |>, d)
  else if offset =? RX_QUEUE_START then
    if negb (count =? 1) then Ok (-1, [], dev, d)
    else
      queue_idx ← of_opt (load 2 (rxCtl dev) 10);
      if MAX_RX_QUEUES <=? queue_idx then Ok (count, [1], dev, d)
      else
        ring_addr ← of_opt (load 8 (rxCtl dev) 0);
        idx_mask ← of_opt (load 2 (rxCtl dev) 8);
        queues ← of_opt (wr (rx_queues dev) queue_idx (Some (mkRxq ring_addr idx_mask 0)));
        Ok (count, [0], dev <| rx_queues := queues |>, d)
  else if offset =? FLOW_CREATE then
    if negb (count =? 8) then Ok (-1, [], dev, d)
    else '(bs, d) ← flow_create dev d; Ok (count, bs, dev, d)
  else Ok (-1, [], dev, d).

(** [buf] holds [count] bytes to write, or gets the bytes read. *)
Definition region_access_cb (buf : list Z) (count offset : Z) (is_write : bool) (dev : VdpdkDevice) (d : D)
    : result (Z * list Z * VdpdkDevice * D) :=
  if (offset <? 0) || (0x1000 <? offset) then Ok (-1, buf, dev, d)
  else if u64 (0x1000 - offset) <? count then Ok (-1, buf, dev, d)
  else if is_write then '(r, dev) ← region_access_write buf count offset dev; Ok (r, buf, dev, d)
  else
    '(r, bs, dev, d) ← region_access_read count offset dev d;
    buf ← of_opt (put_bytes buf 0 bs);
    Ok (r, buf, dev, d).
End registers.
