(* ===== verification/VdpdkSpec.v ===== *)
(** * The vDPDK device: theorems

    Guest memory is all that the device reads and writes; transmission ends, sends the
    packets of the ring in order and returns its mbufs except on one path; received
    packets reach the buffers of the guest. *)
From S2P Require Import Prelude Bytes E810Base VmuxDma Vdpdk.
Local Open Scope Z_scope.

(** ** Memory *)

Lemma read_mem_ext m1 m2 a n : (∀ i, 0 <= i < n → m1 (a + i) = m2 (a + i)) → read_mem m1 a n = read_mem m2 a n.
Proof.
  intros He. unfold read_mem. apply list_fmap_ext. intros i x Hx. apply lookup_seqZ in Hx as [-> Hi]. apply He. lia.
Qed.

Lemma write_mem_out mem a bs x : ¬ (a <= x < a + Z.of_nat (length bs)) → write_mem mem a bs x = mem x.
Proof. intros Hx. unfold write_mem. destruct (Z.leb_spec a x), (Z.ltb_spec x (a + Z.of_nat (length bs))); cbn; done || lia. Qed.

Lemma write_mem_in mem a bs x : a <= x < a + Z.of_nat (length bs) → write_mem mem a bs x = default 0 (bs !! Z.to_nat (x - a)).
Proof. intros Hx. unfold write_mem. rewrite (proj2 (Z.leb_le _ _)), (proj2 (Z.ltb_lt _ _)) by lia. done. Qed.

Lemma read_write_out mem a bs b n : b + n <= a ∨ a + Z.of_nat (length bs) <= b → read_mem (write_mem mem a bs) b n = read_mem mem b n.
Proof. intros Ho. apply read_mem_ext. intros i Hi. apply write_mem_out. lia. Qed.

Lemma rd16_wr16 mem a v : rd16 (wr16 mem a v) a = u16 v.
Proof. unfold rd16, wr16. rewrite <- (length_le_bytes 2 v) at 1. change 2 with (Z.of_nat 2). rewrite <- (length_le_bytes 2 v) at 2.
  rewrite read_write. apply le_le_bytes. Qed.

Lemma length_read_mem mem a n : length (read_mem mem a n) = Z.to_nat n.
Proof. unfold read_mem. by rewrite length_fmap, length_seqZ. Qed.

(** ** Translation *)

(** A byte of guest memory. *)
Definition guest_byte (ms : mappings) (x : Z) : Prop := ∃ m, m ∈ ms ∧ iov_base m.2 <= x < iov_base m.2 + iov_len m.2.

(** No region is at the top of the address space, where the end of a transfer would wrap
    around. *)
Definition table_low (ms : mappings) : Prop := Forall (fun m => m.1 + iov_len m.2 + 2 ^ 21 <= 2 ^ 64) ms.

(** A range of guest memory. *)
Definition guest_range (ms : mappings) (a n : Z) : Prop := ∀ i, 0 <= i < n → guest_byte ms (a + i).

Lemma local_inside ms addr len a : table_ok ms → table_low ms → 0 <= len <= 2 ^ 21 → 0 <= addr →
  dma_local_addr ms addr len = Ok (Some a) → guest_range ms a len.
Proof.
  intros Hok Hlow Hl Ha E.
  destruct (decide (Exists (inside addr) ms)) as [Hex|Hno].
  - apply list.Exists_exists in Hex as (m & Hm & Hin). unfold table_low in Hlow. rewrite list.Forall_forall in Hlow. specialize (Hlow m Hm).
    unfold inside in Hin. rewrite dma_local_addr_spec in E by (done || lia).
    apply translation_inside in E as (m' & Hm' & H1 & H2 & _); [|done|lia]. intros i Hi. exists m'. split; [done|]. lia.
  - unfold dma_local_addr in E. rewrite translate_skip in E; [done|apply Forall_rev; by apply table_ok_regions|].
    intros m Hm Hin. apply Hno, list.Exists_exists. exists m. split; [by apply elem_of_rev|done].
Qed.

(** *** Ring slots *)

Lemma land_le a m : 0 <= m → 0 <= a .& m <= m.
Proof.
  intros Hm. split; [apply Z.land_nonneg; by right|].
  assert (Z.ldiff (a .& m) m = 0) as H0.
  { apply Z.bits_inj'. intros i Hi. rewrite Z.ldiff_spec, Z.land_spec, Z.bits_0. by destruct (Z.testbit a i), (Z.testbit m i). }
  pose proof (Z.sub_nocarry_ldiff m (a .& m) H0) as E. assert (0 <= Z.ldiff m (a .& m)) by (apply Z.ldiff_nonneg; by left). lia.
Qed.

Lemma flag_cleared f : nz (u16 (f .& cnot 16 1) .& 1) = false.
Proof.
  unfold nz. replace (u16 (f .& cnot 16 1) .& 1) with 0; [done|]. symmetry. apply Z.bits_inj'. intros i Hi.
  rewrite Z.bits_0, Z.land_spec, testbit_wrap, Z.land_spec by lia. destruct (decide (i = 0)) as [->|].
  - replace (Z.testbit (cnot 16 1) 0) with false by done. by rewrite andb_false_r.
  - replace (Z.testbit 1 i) with false; [by rewrite !andb_false_r|]. symmetry. apply (testbit_above 1); [done|lia].
Qed.

(** The ring of a queue is in guest memory. *)
Definition ring_ok (ms : mappings) (a mask : Z) : Prop := 0 <= mask < 2 ^ 16 ∧ guest_range ms a ((mask + 1) * 0x20).

Lemma slot_inside ms a idx mask k : ring_ok ms a mask → 0 <= k < 0x20 → guest_byte ms (desc_addr a idx mask 0x20 + k).
Proof.
  intros [Hm Hr] Hk. unfold desc_addr. pose proof (land_le idx mask ltac:(lia)).
  replace (a + (idx .& mask) * 0x20 + k) with (a + ((idx .& mask) * 0x20 + k)) by lia. apply Hr. lia.
Qed.

(** ** Isolation *)

(** Memories with the same guest memory, and memories that differ in it only. *)
Definition agree (ms : mappings) (m1 m2 : memory) : Prop := ∀ x, guest_byte ms x → m1 x = m2 x.
Definition frame (ms : mappings) (m1 m2 : memory) : Prop := ∀ x, ¬ guest_byte ms x → m2 x = m1 x.

#[export] Instance frame_refl ms : Reflexive (frame ms). Proof. done. Qed.
#[export] Instance frame_trans ms : Transitive (frame ms). Proof. intros m1 m2 m3 H1 H2 x Hx. by rewrite (H2 x Hx), (H1 x Hx). Qed.

Lemma agree_read ms m1 m2 a n : agree ms m1 m2 → guest_range ms a n → read_mem m1 a n = read_mem m2 a n.
Proof. intros Ha Hr. apply read_mem_ext. intros i Hi. apply Ha, Hr. done. Qed.

Lemma agree_write ms m1 m2 a bs : agree ms m1 m2 → agree ms (write_mem m1 a bs) (write_mem m2 a bs).
Proof.
  intros Ha x Hx. destruct (decide (a <= x < a + Z.of_nat (length bs))); [by rewrite !write_mem_in|].
  rewrite !write_mem_out by done. by apply Ha.
Qed.

Lemma frame_write ms m a bs : guest_range ms a (Z.of_nat (length bs)) → frame ms m (write_mem m a bs).
Proof.
  intros Hr x Hx. destruct (decide (a <= x < a + Z.of_nat (length bs))); [|by apply write_mem_out].
  destruct Hx. replace x with (a + (x - a)) by lia. apply Hr. lia.
Qed.

Lemma slot_range ms a idx mask k n : ring_ok ms a mask → 0 <= k → 0 <= n → k + n <= 0x20 → guest_range ms (desc_addr a idx mask 0x20 + k) n.
Proof. intros Hr Hk Hn Hkn i Hi. rewrite <- Z.add_assoc. apply slot_inside; [done|lia]. Qed.

(** The fields of a descriptor. *)
Lemma agree_desc ms m1 m2 a idx mask : agree ms m1 m2 → ring_ok ms a mask →
  let desc := desc_addr a idx mask 0x20 in
  buf_iova m1 desc = buf_iova m2 desc ∧ buf_len m1 desc = buf_len m2 desc ∧ desc_flags m1 desc = desc_flags m2 desc.
Proof.
  intros Ha Hr desc. unfold buf_iova, buf_len, desc_flags, rd64, rd16.
  rewrite (agree_read ms m1 m2 desc 8), (agree_read ms m1 m2 (desc + 8) 2), (agree_read ms m1 m2 (desc + 8 + 2) 2); try done.
  - rewrite <- Z.add_assoc. by apply slot_range.
  - by apply slot_range.
  - rewrite <- (Z.add_0_r desc). by apply slot_range.
Qed.

(** Bytes are bytes. *)
Definition mem_ok (m : memory) : Prop := ∀ x, byte_ok (m x).

Lemma read_mem_ok m a n : mem_ok m → bytes_ok (read_mem m a n).
Proof. intros Hm. unfold read_mem. apply Forall_fmap, Forall_true. intros i. apply Hm. Qed.

Lemma write_mem_ok m a bs : mem_ok m → bytes_ok bs → mem_ok (write_mem m a bs).
Proof.
  intros Hm Hb x. unfold write_mem. case_match; [|apply Hm]. destruct (bs !! _) as [b|] eqn:E; [|done]. cbn. by eapply Forall_lookup_1 in Hb.
Qed.

Lemma rd16_bound m a : mem_ok m → in_width 16 (rd16 m a).
Proof. intros Hm. apply (le_nonneg_bound (read_mem m a 2)). by apply read_mem_ok. Qed.
Lemma rd64_bound m a : mem_ok m → in_width 64 (rd64 m a).
Proof. intros Hm. apply (le_nonneg_bound (read_mem m a 8)). by apply read_mem_ok. Qed.

Section tx.
Context {D : Type} `{Dpdk D} (ms : mappings) (Hok : table_ok ms) (Hlow : table_low ms).

Lemma wr16_ok m a v : mem_ok m → mem_ok (wr16 m a v).
Proof. intros. apply write_mem_ok; [done|apply le_bytes_ok]. Qed.

(** The buffer of a descriptor is in guest memory. *)
Lemma buf_inside m desc a : mem_ok m → dma_local_addr ms (buf_iova m desc) (buf_len m desc) = Ok (Some a) →
  guest_range ms a (buf_len m desc).
Proof using Hok Hlow.
  intros Hm. destruct (rd16_bound m (desc + 8) Hm) as [H1 H2]. destruct (rd64_bound m desc Hm) as [H3 H4].
  apply local_inside; [done|done| |done]. change (buf_len m desc) with (rd16 m (desc + 8)). lia.
Qed.

(** What is found in the memories of two runs that agree on guest memory. *)
Definition same_run (r1 r2 : result (tx_end * TxQueue * list (Z * list Z) * memory * D)) (m1 : memory) : Prop :=
  match r1, r2 with
  | Ok (e1, q1, b1, m1', d1), Ok (e2, q2, b2, m2', d2) =>
      e1 = e2 ∧ q1 = q2 ∧ b1 = b2 ∧ d1 = d2 ∧ agree ms m1' m2' ∧ frame ms m1 m1'
  | Abort, Abort => True
  | Undef, Undef => True
  | _, _ => False
  end.

Lemma same_run_frame r1 r2 m0 m1 : frame ms m0 m1 → same_run r1 r2 m1 → same_run r1 r2 m0.
Proof.
  unfold same_run. intros Hf. destruct r1 as [[[[[]]]]| |], r2 as [[[[[]]]]| |]; try done.
  intros (?&?&?&?&?&Hf'). split_and!; try done. by etrans.
Qed.

Lemma tx_loop_isolated fuel qid q mbufs m1 m2 d : mem_ok m1 → mem_ok m2 → agree ms m1 m2 → ring_ok ms (ring q) (tx_idx_mask q) →
  same_run (tx_loop fuel ms qid q mbufs m1 d) (tx_loop fuel ms qid q mbufs m2 d) m1.
Proof using Hok Hlow.
  revert q mbufs m1 m2 d. induction fuel as [|fuel IH]; intros q mbufs m1 m2 d H1 H2 Ha Hr; cbn [tx_loop]; [done|].
  case_match; [|done]. cbv zeta. set (desc := desc_addr _ _ _ _).
  destruct (agree_desc ms m1 m2 (ring q) (back_idx q) (tx_idx_mask q) Ha Hr) as (Ei & El & Ef).
  fold TX_DESC_SIZE in Ei, El, Ef. fold desc in Ei, El, Ef. rewrite <- Ei, <- El, <- Ef. case_match; [done|].
  destruct (dma_local_addr ms (buf_iova m1 desc) (buf_len m1 desc)) as [[a|]| |] eqn:Et; try done. cbn [mbind result_bind].
  destruct (pktmbuf_alloc qid d) as [[[mbuf room]|] d']; [|done].
  pose proof (buf_inside m1 desc a H1 Et) as Hg.
  rewrite (agree_read ms m1 m2 a _ Ha Hg).
  set (flags := desc_flags m1 desc .& cnot 16 TX_FLAG_AVAIL).
  assert (frame ms m1 (wr16 m1 (desc + 8 + 2) flags)) as Hf.
  { apply frame_write. rewrite length_le_bytes. rewrite <- Z.add_assoc. by apply slot_range. }
  destruct (room <? buf_len m1 desc); (eapply same_run_frame; [exact Hf|]; apply IH; auto using wr16_ok, agree_write).
  all: by apply agree_write.
Qed.
End tx.

(** The queue of a device: the address of its ring, if it is kept, belongs to the present
    mapping. *)
Definition txq_ok (ms : mappings) (q : TxQueue) : Prop :=
  0 <= tx_idx_mask q < 2 ^ 16 ∧ 0 <= tx_ring_iova q ∧ (ring q = 0 ∨ ring_ok ms (ring q) (tx_idx_mask q)).

Lemma tx_ring_ok ms inv q q' : table_ok ms → table_low ms → txq_ok ms q → tx_ring inv ms q = Ok (Some q') →
  ring_ok ms (ring q') (tx_idx_mask q') ∧ tx_idx_mask q' = tx_idx_mask q ∧ back_idx q' = back_idx q.
Proof.
  intros Hok Hlow (Hm & Hi & Hr). unfold tx_ring. destruct (inv || (ring q =? 0)) eqn:E.
  - destruct (dma_local_addr _ _ _) as [[a|]| |] eqn:Ea; try done. cbn. intros [= <-]. split; [|done].
    split; [done|]. eapply local_inside; [done|done| |exact Hi|exact Ea]. change (tx_idx_mask _) with (tx_idx_mask q). lia.
  - intros [= <-]. apply orb_false_iff in E as [_ E%Z.eqb_neq]. by destruct Hr.
Qed.

Section isolation.
Context (ms : mappings) (Hok : table_ok ms) (Hlow : table_low ms).

Lemma tx_poll_isolated {D} `{Dpdk D} fuel inv dev m1 m2 (d : D) e dev' m1' d' :
  (∀ q, tx_queue dev = Some q → txq_ok ms q) → mem_ok m1 → mem_ok m2 → agree ms m1 m2 →
  tx_poll fuel inv ms dev m1 d = Ok (e, dev', m1', d') →
  frame ms m1 m1' ∧ ∃ m2', tx_poll fuel inv ms dev m2 d = Ok (e, dev', m2', d') ∧ agree ms m1' m2'.
Proof using Hok Hlow.
  intros Hq H1 H2 Ha. unfold tx_poll. destruct (tx_queue dev) as [q|]; [|intros [= <- <- <- <-]; split; [done|by exists m2]].
  destruct (tx_ring inv ms q) as [[q1|]| |] eqn:Er; try done; cbn [mbind result_bind]; [|intros [= <- <- <- <-]; split; [done|by exists m2]].
  destruct (tx_ring_ok ms inv q q1 Hok Hlow (Hq q eq_refl) Er) as (Hr & _ & _).
  pose proof (tx_loop_isolated ms Hok Hlow fuel (get_tx_queue_id (device_id dev) 0) q1 [] m1 m2 d H1 H2 Ha Hr) as Hs.
  destruct (tx_loop fuel ms _ q1 [] m1 d) as [[[[[e1 qa] ba] ma] da]| |] eqn:E1; try done.
  destruct (tx_loop fuel ms _ q1 [] m2 d) as [[[[[e2 qb] bb] mb] db]| |] eqn:E2; try done.
  destruct Hs as (<- & <- & <- & <- & Hag & Hf). cbn [mbind result_bind].
  destruct e1; intros [= <- <- <- <-]; (split; [done|]); exists mb; done.
Qed.

(** *** Reception *)

Definition rxq_ok (q : RxQueue) : Prop := 0 <= rx_idx_mask q < 2 ^ 16 ∧ 0 <= rx_ring_iova q.
Definition rxqs_ok (qs : list (option RxQueue)) : Prop := Forall (from_option rxq_ok True) qs.

Lemma rx_packet_isolated a pkt q m q' m' : ring_ok ms a (rx_idx_mask q) → mem_ok m → bytes_ok pkt →
  rx_packet ms a pkt q m = Ok (Some (q', m')) →
  frame ms m m' ∧ mem_ok m' ∧ rx_idx_mask q' = rx_idx_mask q ∧ rx_ring_iova q' = rx_ring_iova q.
Proof using Hok Hlow.
  intros Hr Hm Hp. unfold rx_packet. cbv zeta. set (desc := desc_addr _ _ _ _). case_match; [done|].
  destruct (dma_local_addr _ _ _) as [[b|]| |] eqn:Et; try done. cbn [mbind result_bind].
  destruct (_ || _) eqn:El; [done|]. intros [= <- <-]. pose proof (buf_inside ms Hok Hlow m desc b Hm Et) as Hg.
  apply orb_false_iff in El as [El%Z.ltb_ge _].
  assert (∀ k v m, 0 <= k → k + 2 <= 0x20 → frame ms m (wr16 m (desc + k) v)) as Hw.
  { intros k v m0 Hk Hk2. apply frame_write. rewrite length_le_bytes. by apply slot_range. }
  split; [|split; [|done]].
  - etrans; [apply (frame_write ms m b pkt)|]; [intros i Hi; apply Hg; lia|].
    etrans; [by apply (Hw 8)|]. rewrite <- Z.add_assoc. by apply (Hw (8 + 2)).
  - by repeat apply wr16_ok; apply write_mem_ok.
Qed.

Lemma rx_packets_isolated a pkts q m q' m' : ring_ok ms a (rx_idx_mask q) → mem_ok m → Forall bytes_ok pkts →
  rx_packets ms a pkts q m = Ok (q', m') →
  frame ms m m' ∧ mem_ok m' ∧ rx_idx_mask q' = rx_idx_mask q ∧ rx_ring_iova q' = rx_ring_iova q.
Proof using Hok Hlow.
  intros Hr Hm Hp. revert q m Hr Hm. induction Hp as [|pkt pkts Hp Hps IH]; intros q m Hr Hm; cbn [rx_packets].
  { by intros [= <- <-]. }
  destruct (rx_packet ms a pkt q m) as [[[q1 m1]|]| |] eqn:E; try done; cbn [mbind result_bind]; [|by intros [= <- <-]].
  destruct (rx_packet_isolated a pkt q m q1 m1 Hr Hm Hp E) as (Hf & Hm1 & Ek & Ei). intros Hrest.
  destruct (IH q1 m1) as (Hf2 & Hm2 & Ek2 & Ei2); [by rewrite Ek|done|done|]. split_and!; [by etrans|done|congruence..].
Qed.

Lemma rx_queue_for_ok k qs i q : rxqs_ok qs → rx_queue_for k qs = Some (i, q) → rxq_ok q.
Proof.
  intros Hqs. unfold rx_queue_for. destruct (rd qs (k mod MAX_RX_QUEUES)) as [[q1|]|] eqn:E.
  - intros [= _ <-]. by eapply (rd_Forall _ _ _ (Some q1)) in Hqs.
  - destruct (rd qs 0) as [[q1|]|] eqn:E0; [|done..]. intros [= _ <-]. by eapply (rd_Forall _ _ _ (Some q1)) in Hqs.
  - destruct (rd qs 0) as [[q1|]|] eqn:E0; [|done..]. intros [= _ <-]. by eapply (rd_Forall _ _ _ (Some q1)) in Hqs.
Qed.

Lemma rx_queue_isolated k pkts qs m qs' m' : rxqs_ok qs → mem_ok m → Forall bytes_ok pkts →
  rx_queue ms k pkts qs m = Ok (qs', m') → frame ms m m' ∧ mem_ok m' ∧ rxqs_ok qs'.
Proof using Hok Hlow.
  intros Hqs Hm Hp. unfold rx_queue. destruct pkts as [|pkt pkts]; [by intros [= <- <-]|].
  destruct (rx_queue_for k qs) as [[i q]|] eqn:Eq; [|by intros [= <- <-]].
  pose proof (rx_queue_for_ok k qs i q Hqs Eq) as [Hq Hv].
  destruct (dma_local_addr _ _ _) as [[a|]| |] eqn:Ea; try done; cbn [mbind result_bind]; [|by intros [= <- <-]].
  assert (ring_ok ms a (rx_idx_mask q)) as Hr.
  { split; [done|]. eapply local_inside; [done|done| |done|exact Ea]. unfold rx_ring_size, RX_DESC_SIZE. lia. }
  destruct (rx_packets ms a (pkt :: pkts) q m) as [[q1 m1]| |] eqn:E; try done. cbn [mbind result_bind].
  destruct (rx_packets_isolated _ _ _ _ _ _ Hr Hm Hp E) as (Hf & Hm1 & Ek & Ei).
  destruct (wr qs i (Some q1)) as [qs1|] eqn:Ew; [|done]. cbn. intros [= <- <-]. split_and!; [done|done|].
  eapply wr_Forall; [exact Hqs| |exact Ew]. cbn. unfold rxq_ok. by rewrite Ek, Ei.
Qed.

Lemma rx_callback_isolated bursts dev m dev' m' : rxqs_ok (rx_queues dev) → mem_ok m → Forall (Forall bytes_ok) bursts →
  rx_callback_fn ms bursts dev m = Ok (dev', m') → frame ms m m'.
Proof using Hok Hlow.
  intros Hqs Hm Hb. unfold rx_callback_fn. generalize 0. revert Hqs Hm. generalize (rx_queues dev).
  revert m. induction Hb as [|pkts bursts Hp Hb IH]; intros m qs Hqs Hm k; cbn [rx_queues_from].
  { by intros [= _ <-]. }
  destruct (rx_queue ms k pkts qs m) as [[qs1 m1]| |] eqn:E; try done. cbn [mbind result_bind].
  destruct (rx_queue_isolated _ _ _ _ _ _ Hqs Hm Hp E) as (Hf & Hm1 & Hq1). intros Hrest. etrans; [exact Hf|]. by eapply IH.
Qed.

End isolation.

(** C29. Isolation: as long as no region of the guest ends within 2 MB of the top of the 64-bit
    address space ([table_low]; [isolation_needs_room] shows that this is needed), whatever is
    in the rings, the device changes no memory outside the regions of the guest, neither for
    transmission nor for reception, and what it sends and does depends on guest memory only:
    with another content of the rest of the memory the same packets are handed to DPDK. *)
Theorem vdpdk_isolated {D} `{Dpdk D} ms fuel inv bursts dev m1 m2 (d : D) : table_ok ms → table_low ms →
  (∀ q, tx_queue dev = Some q → txq_ok ms q) → rxqs_ok (rx_queues dev) → Forall (Forall bytes_ok) bursts →
  mem_ok m1 → mem_ok m2 → agree ms m1 m2 →
  (∀ e dev' m1' d', tx_poll fuel inv ms dev m1 d = Ok (e, dev', m1', d') →
     frame ms m1 m1' ∧ ∃ m2', tx_poll fuel inv ms dev m2 d = Ok (e, dev', m2', d') ∧ agree ms m1' m2') ∧
  (∀ dev' m1', rx_callback_fn ms bursts dev m1 = Ok (dev', m1') → frame ms m1 m1').
Proof.
  intros Hok Hlow Hq Hqs Hb H1 H2 Ha. split.
  - intros e dev' m1' d'. by apply tx_poll_isolated.
  - intros dev' m1'. by apply (rx_callback_isolated ms).
Qed.

(** ** Transmission returns *)

Definition avail (m : memory) (desc : Z) : bool := nz (desc_flags m desc .& 1).

(** The number of available descriptors of a ring. *)
Definition n_avail (m : memory) (a mask : Z) : nat := length (filter (fun k => avail m (a + k * 0x20) = true) (seqZ 0 (mask + 1))).

Lemma filter_shrinks {A} (P Q : A → Prop) `{!∀ x, Decision (P x), !∀ x, Decision (Q x)} (l : list A) x :
  (∀ y, Q y → P y) → x ∈ l → P x → ¬ Q x → (length (filter Q l) < length (filter P l))%nat.
Proof.
  intros HQ Hx HP Hn.
  assert (∀ l, (length (filter Q l) <= length (filter P l))%nat) as Hle.
  { clear l Hx. intros l. induction l as [|y l IH]; [done|]. rewrite !filter_cons. repeat case_decide; cbn; try lia. exfalso. auto. }
  induction l as [|y l IH]; [by apply not_elem_of_nil in Hx|]. rewrite !filter_cons. apply elem_of_cons in Hx as [<-|Hx].
  - rewrite (decide_True _ _ HP), (decide_False _ _ Hn). cbn. specialize (Hle l). lia.
  - specialize (IH Hx). repeat case_decide; cbn; try lia. exfalso. auto.
Qed.

(** Clearing the flag of a descriptor. *)
Lemma clear_slot m a k v : let m' := wr16 m (a + k * 0x20 + 8 + 2) v in
  avail m' (a + k * 0x20) = nz (u16 v .& 1) ∧ (∀ j, j ≠ k → avail m' (a + j * 0x20) = avail m (a + j * 0x20)) ∧
  ∀ j, buf_iova m' (a + j * 0x20) = buf_iova m (a + j * 0x20) ∧ buf_len m' (a + j * 0x20) = buf_len m (a + j * 0x20).
Proof.
  unfold avail, desc_flags, buf_iova, buf_len. split_and!.
  - by rewrite rd16_wr16.
  - intros j Hj. unfold rd16, wr16. rewrite read_write_out; [done|]. rewrite length_le_bytes. lia.
  - intros j. unfold rd64, rd16, wr16. rewrite !read_write_out; [done|rewrite length_le_bytes; lia..].
Qed.

Lemma clear_shrinks m a mask idx : 0 <= mask → avail m (desc_addr a idx mask 0x20) = true →
  (n_avail (wr16 m (desc_addr a idx mask 0x20 + 8 + 2) (desc_flags m (desc_addr a idx mask 0x20) .& cnot 16 1)) a mask < n_avail m a mask)%nat.
Proof.
  intros Hm Hav. unfold desc_addr in *. set (k := idx .& mask) in *. pose proof (land_le idx mask Hm) as Hk. fold k in Hk.
  set (v := desc_flags m _ .& _). destruct (clear_slot m a k v) as (Hc & Ho & _).
  assert (avail (wr16 m (a + k * 0x20 + 8 + 2) v) (a + k * 0x20) = false) as Hf by (rewrite Hc; apply flag_cleared).
  apply (filter_shrinks _ _ _ k); [|apply elem_of_seqZ; lia|done|congruence].
  intros j Hj. destruct (decide (j = k)) as [->|Hne]; [congruence|]. by rewrite <- Ho.
Qed.

Lemma tx_loop_returns {D} `{Dpdk D} fuel ms qid q mbufs m (d : D) : 0 <= tx_idx_mask q →
  (n_avail m (ring q) (tx_idx_mask q) < fuel)%nat →
  ∀ q' mbufs' m' d', tx_loop fuel ms qid q mbufs m d ≠ Ok (TxFuel, q', mbufs', m', d').
Proof.
  intros Hm. revert q mbufs m d Hm. induction fuel as [|fuel IH]; intros q mbufs m d Hm Hn; [lia|]. cbn [tx_loop]. cbv zeta.
  intros q' mbufs' m' d'. case_match; [|done]. set (desc := desc_addr _ _ _ _). destruct (nz (_ .& TX_FLAG_AVAIL)) eqn:Ea; [|done]. cbn [negb].
  destruct (dma_local_addr _ _ _) as [[b|]| |]; try done. cbn [mbind result_bind].
  destruct (pktmbuf_alloc qid d) as [[[mbuf room]|] d1]; [|done].
  pose proof (clear_shrinks m (ring q) (tx_idx_mask q) (back_idx q) Hm Ea) as Hs. fold TX_DESC_SIZE in Hs. fold desc in Hs.
  case_match; apply IH; try done; eapply Nat.lt_le_trans; try exact Hs; lia.
Qed.

Lemma n_avail_le m a mask : 0 <= mask → (n_avail m a mask <= Z.to_nat (mask + 1))%nat.
Proof. intros Hm. unfold n_avail. etrans; [apply length_filter|]. by rewrite length_seqZ. Qed.

(** ** Mbufs *)

(** DPDK keeps track of the mbufs that are in use. *)
Class Pool (D : Type) `{Dpdk D} (held : D → list Z) : Prop := {
  pool_alloc q d m room d' : pktmbuf_alloc q d = (Some (m, room), d') → held d' ≡ₚ m :: held d;
  pool_empty q d d' : pktmbuf_alloc q d = (None, d') → held d' ≡ₚ held d;
  pool_free l rest d : held d ≡ₚ l ++ rest → held (pktmbuf_free l d) ≡ₚ rest;
  pool_cleanup q d : held (tx_done_cleanup q d) ≡ₚ held d;
  pool_burst q mbufs rest d n d' : eth_tx_burst q mbufs d = (n, d') → held d ≡ₚ (fst <$> mbufs) ++ rest →
    (n <= length mbufs)%nat ∧ held d' ≡ₚ (fst <$> drop n mbufs) ++ rest
}.

Section pool.
Context {D : Type} `{Dpdk D} (held : D → list Z) `{!Pool D held}.

Lemma tx_loop_held fuel ms qid q mbufs m (d : D) rest e q' mbufs' m' d' :
  held d ≡ₚ (fst <$> mbufs) ++ rest → tx_loop fuel ms qid q mbufs m d = Ok (e, q', mbufs', m', d') →
  held d' ≡ₚ (fst <$> mbufs') ++ rest ∧ (e = TxReturn → length mbufs' < 128)%nat.
Proof using Type*.
  revert q mbufs m d. induction fuel as [|fuel IH]; intros q mbufs m d Hh; cbn [tx_loop]; [by intros [= <- <- <- <- <-]|]. cbv zeta.
  destruct (Nat.ltb_spec (length mbufs) burst_size) as [Hlt|]; [|by intros [= <- <- <- <- <-]]. case_match; [by intros [= <- <- <- <- <-]|].
  destruct (dma_local_addr _ _ _) as [[b|]| |]; try done; cbn [mbind result_bind]; [|by intros [= <- <- <- <- <-]].
  destruct (pktmbuf_alloc qid d) as [[[mbuf room]|] d1] eqn:Ep.
  2: { intros [= <- <- <- <- <-]. split; [|done]. rewrite pool_cleanup. by rewrite (pool_empty _ _ _ Ep). }
  pose proof (pool_alloc _ _ _ _ _ Ep) as Hp. destruct (room <? _); apply IH.
  - apply pool_free. rewrite Hp, Hh. done.
  - rewrite Hp, Hh, fmap_app. cbn. rewrite <- app_assoc. cbn. by rewrite Permutation_middle.
Qed.

Lemma tx_send_held qid mbufs (d : D) rest : held d ≡ₚ (fst <$> mbufs) ++ rest → held (tx_send qid mbufs d) ≡ₚ rest.
Proof using Type*.
  intros Hh. unfold tx_send. destruct mbufs as [|b bs]; [done|]. destruct (eth_tx_burst qid (b :: bs) d) as [n d'] eqn:E.
  destruct (pool_burst _ _ _ _ _ _ E Hh) as [Hn Hd]. destruct (Nat.ltb_spec n (length (b :: bs))); [by apply pool_free|].
  rewrite drop_ge in Hd by lia. done.
Qed.

(** C30. Transmission returns within one pass over the ring, and it gives back all mbufs it takes
    (the packets that DPDK accepts apart), unless it meets a packet that is not mapped: on that
    path the mbufs of the packets before it, up to 127, are lost. *)
Theorem tx_poll_mbufs fuel inv ms dev m (d : D) e dev' m' d' :
  (∀ q, tx_queue dev = Some q → 0 <= tx_idx_mask q ∧ (Z.to_nat (tx_idx_mask q + 1) < fuel)%nat) →
  tx_poll fuel inv ms dev m d = Ok (e, dev', m', d') →
  match e with
  | TxBreak => held d' ≡ₚ held d
  | TxReturn => tx_queue dev' = None ∧ ∃ lost, held d' ≡ₚ lost ++ held d ∧ (length lost < 128)%nat
  | TxFuel => False
  end.
Proof using Type*.
  intros Hq. unfold tx_poll. destruct (tx_queue dev) as [q|] eqn:Eq; [|by intros [= <- <- <- <-]].
  destruct (Hq q eq_refl) as [Hm Hfuel]. destruct (tx_ring inv ms q) as [[q1|]| |] eqn:Er; try done; cbn [mbind result_bind].
  2: { by intros [= <- <- <- <-]. }
  assert (tx_idx_mask q1 = tx_idx_mask q) as Em.
  { unfold tx_ring in Er. case_match; [|congruence]. destruct (dma_local_addr _ _ _) as [[a|]| |]; try done. by injection Er as <-. }
  destruct (tx_loop fuel ms _ q1 [] m d) as [[[[[e1 qa] ba] ma] da]| |] eqn:E1; try done. cbn [mbind result_bind].
  destruct (tx_loop_held fuel ms _ q1 [] m d (held d) _ _ _ _ _ (Permutation_refl _) E1) as [Hh Hl].
  destruct e1; intros [= <- <- <- <-].
  - by apply (tx_send_held _ ba da).
  - split; [done|]. exists (fst <$> ba). rewrite length_fmap. auto.
  - eapply tx_loop_returns; [| |exact E1]; [by rewrite Em|]. rewrite Em. eapply Nat.le_lt_trans; [by apply n_avail_le|done].
Qed.
End pool.

(** ** What is sent *)

(** A ring of [2 ^ b] descriptors at [a]. *)
Section ring.
Context (ms : mappings) (a b : Z) (Hb : 0 <= b <= 16).

Definition desc_at (i : Z) : Z := a + (i mod 2 ^ b) * 0x20.

Lemma slot_desc i : desc_addr a i (2 ^ b - 1) 0x20 = desc_at i.
Proof using Hb.
  unfold desc_addr, desc_at. replace (2 ^ b - 1) with (Z.ones b) by (rewrite Z.ones_equiv; lia). by rewrite Z.land_ones by lia.
Qed.

Lemma slot_u16 i : desc_at (u16 i) = desc_at i.
Proof using Hb.
  unfold desc_at, wrap. do 2 f_equal. replace 16 with (b + (16 - b)) by lia. rewrite Z.pow_add_r by lia.
  pose proof (Z.pow_pos_nonneg 2 b). pose proof (Z.pow_pos_nonneg 2 (16 - b)). rewrite Z.rem_mul_r by lia.
  rewrite Z.mul_comm, Z.mod_add by lia. by apply Z.mod_mod; lia.
Qed.

Lemma ring_slot_ne i j : 0 < j < 2 ^ b → (i + j) mod 2 ^ b ≠ i mod 2 ^ b.
Proof using Hb.
  intros Hj E. assert (0 < 2 ^ b) as Hp by lia.
  pose proof (Z.div_mod i (2 ^ b) ltac:(lia)) as E1. pose proof (Z.div_mod (i + j) (2 ^ b) ltac:(lia)) as E2. rewrite E in E2.
  assert (j = 2 ^ b * ((i + j) / 2 ^ b - i / 2 ^ b)) as Ej by lia. destruct (Z.le_gt_cases ((i + j) / 2 ^ b - i / 2 ^ b) 0); nia.
Qed.

(** The first available descriptors of the ring, at most [n] of them, from position [i]. *)
Fixpoint pending (n : nat) (m : memory) (i : Z) : list Z :=
  match n with
  | O => []
  | S n' => if avail m (desc_at i) then desc_at i :: pending n' m (i + 1) else []
  end.

(** The packet of a descriptor. *)
Definition payload (m : memory) (desc : Z) : list Z :=
  match dma_local_addr ms (buf_iova m desc) (buf_len m desc) with
  | Ok (Some p) => read_mem m p (buf_len m desc)
  | _ => []
  end.

(** The buffer is mapped, and it is not in the ring. *)
Definition packet_ok (m : memory) (desc : Z) : Prop := ∃ p, dma_local_addr ms (buf_iova m desc) (buf_len m desc) = Ok (Some p) ∧
  (p + buf_len m desc <= a ∨ a + 2 ^ b * 0x20 <= p).

(** Memories that differ in the flags of descriptors only. *)
Definition flags_only (m m' : memory) : Prop :=
  ∀ x, (∀ j, 0 <= j < 2 ^ b → ¬ (a + j * 0x20 + 10 <= x < a + j * 0x20 + 12)) → m' x = m x.

Lemma flags_only_desc m m' i : flags_only m m' → buf_iova m' (desc_at i) = buf_iova m (desc_at i) ∧ buf_len m' (desc_at i) = buf_len m (desc_at i).
Proof using Hb.
  intros Hf. pose proof (Z.mod_pos_bound i (2 ^ b) ltac:(apply Z.pow_pos_nonneg; lia)). unfold buf_iova, buf_len, rd64, rd16, desc_at.
  split; f_equal; apply read_mem_ext; intros k Hk; apply Hf; intros j Hj; lia.
Qed.

Lemma flags_only_packet m m' i : flags_only m m' → packet_ok m (desc_at i) →
  packet_ok m' (desc_at i) ∧ payload m' (desc_at i) = payload m (desc_at i).
Proof using Hb.
  intros Hf (p & E & Ho). destruct (flags_only_desc m m' i Hf) as [Ei El]. unfold packet_ok, payload. rewrite Ei, El. split; [by exists p|].
  rewrite E. apply read_mem_ext. intros k Hk. apply Hf. intros j Hj. assert (j * 0x20 + 0x20 <= 2 ^ b * 0x20) by nia. lia.
Qed.

(** Releasing the descriptor at [i]. *)
Definition release (m : memory) (i : Z) : memory := wr16 m (desc_at i + 8 + 2) (desc_flags m (desc_at i) .& cnot 16 1).

Lemma release_flags m i : flags_only m (release m i).
Proof using Hb.
  intros x Hx. apply write_mem_out. rewrite length_le_bytes. specialize (Hx (i mod 2 ^ b)). unfold desc_at. change (Z.of_nat 2) with 2.
  intros Hin. apply Hx; [apply Z.mod_pos_bound, Z.pow_pos_nonneg; lia|lia].
Qed.

Lemma release_avail m i j : 0 <= j < 2 ^ b → avail (release m i) (desc_at (i + j)) = if j =? 0 then false else avail m (desc_at (i + j)).
Proof using Hb.
  intros Hj. unfold release, desc_at. destruct (clear_slot m a (i mod 2 ^ b) (desc_flags m (desc_at i) .& cnot 16 1)) as (Hc & Ho & _).
  destruct (Z.eqb_spec j 0) as [->|]; [rewrite Z.add_0_r; etrans; [exact Hc|apply flag_cleared]|].
  apply Ho. apply ring_slot_ne. lia.
Qed.

Lemma flags_only_trans m1 m2 m3 : flags_only m1 m2 → flags_only m2 m3 → flags_only m1 m3.
Proof. intros H1 H2 x Hx. by rewrite (H2 x Hx), (H1 x Hx). Qed.

Lemma pending_release n m i : (Z.of_nat n < 2 ^ b) → pending n (release m i) (i + 1) = pending n m (i + 1).
Proof using Hb.
  intros Hn. assert (∀ n j, 0 < j → j + Z.of_nat n <= 2 ^ b → pending n (release m i) (i + j) = pending n m (i + j)) as Hp.
  { clear n Hn. induction n as [|n IH]; intros j Hj Hn; [done|]. cbn [pending]. rewrite release_avail by lia. rewrite (proj2 (Z.eqb_neq j 0)) by lia.
    rewrite <- Z.add_assoc. by rewrite IH by lia. }
  apply Hp; lia.
Qed.

Lemma pending_slots n m i x : x ∈ pending n m i → ∃ j, x = desc_at j.
Proof.
  revert i. induction n as [|n IH]; intros i; cbn [pending]; [by intros ?%not_elem_of_nil|].
  destruct (avail _ _); [|by intros ?%not_elem_of_nil]. intros [->|?]%elem_of_cons; eauto.
Qed.

Lemma map_payload m m' n i l : flags_only m m' → Forall (packet_ok m) (pending n l i) → payload m' <$> pending n l i = payload m <$> pending n l i.
Proof using Hb.
  intros Hf Hp. apply list_fmap_ext. intros k x Hx. pose proof (list_elem_of_lookup_2 _ _ _ Hx) as Hin.
  destruct (pending_slots _ _ _ _ Hin) as [j ->]. rewrite list.Forall_forall in Hp. by apply flags_only_packet, Hp.
Qed.
End ring.

Section sends.
Context (ms : mappings) (a b : Z) (Hb : 0 <= b <= 16).
Context {D : Type} `{Dpdk D} (qid room : Z) (Halloc : ∀ d : D, ∃ mb d', pktmbuf_alloc qid d = (Some (mb, room), d')).

Lemma release_mono m i j : avail (release a b m i) (desc_at a b j) = true → avail m (desc_at a b j) = true.
Proof using Hb.
  unfold release, desc_at. destruct (clear_slot m a (i mod 2 ^ b) (desc_flags m (desc_at a b i) .& cnot 16 1)) as (Hc & Ho & _).
  destruct (decide (j mod 2 ^ b = i mod 2 ^ b)) as [E|E]; [|by rewrite <- Ho].
  rewrite E. unfold desc_at in Hc. rewrite Hc. by rewrite flag_cleared.
Qed.

(** Packets that fit into an mbuf. *)
Definition fits (bs : list Z) : Prop := Z.of_nat (length bs) <= room.
#[local] Instance fits_dec bs : Decision (fits bs).
Proof. unfold fits. apply _. Defined.

(** What a run over the first [k] of the pending descriptors leaves. *)
Record sent (n : nat) (m : memory) (i : Z) (k : nat) (new : list (Z * list Z)) (m' : memory) : Prop := {
  sent_le : (k <= length (pending a b n m i))%nat;
  sent_packets : snd <$> new = filter fits (payload ms m <$> take k (pending a b n m i));
  sent_flags : flags_only a b m m';
  sent_released j : 0 <= j < Z.of_nat k → avail m' (desc_at a b (i + j)) = false;
  sent_mono j : avail m' (desc_at a b j) = true → avail m (desc_at a b j) = true
}.

Lemma payload_step m i p : dma_local_addr ms (buf_iova m (desc_at a b i)) (buf_len m (desc_at a b i)) = Ok (Some p) →
  payload ms m (desc_at a b i) = read_mem m p (buf_len m (desc_at a b i)).
Proof. intros E. unfold payload. by rewrite E. Qed.

Lemma sent_nil n m i : sent n m i 0 [] m.
Proof. split; try done; lia. Qed.

(** The first pending descriptor, then the others. *)
Lemma sent_cons n m i k l new m' : Z.of_nat (S n) <= 2 ^ b → avail m (desc_at a b i) = true →
  Forall (packet_ok ms a b m) (pending a b (S n) m i) →
  snd <$> l = filter fits [payload ms m (desc_at a b i)] →
  sent n (release a b m i) (i + 1) k new m' → sent (S n) m i (S k) (l ++ new) m'.
Proof using Hb.
  intros Hn Ha Hp Hl [Hle Hps Hf Hr Hmono]. rewrite pending_release in Hle, Hps by (done || lia).
  assert (pending a b (S n) m i = desc_at a b i :: pending a b n m (i + 1)) as Ep by (cbn; by rewrite Ha). rewrite Ep in Hp.
  apply Forall_cons_1 in Hp as [Hp0 Hp]. pose proof (release_flags a b Hb m i) as Hrf.
  assert (∀ x, x ∈ pending a b n m (i + 1) → payload ms (release a b m i) x = payload ms m x) as Hpay.
  { intros x Hx. destruct (pending_slots _ _ _ _ _ _ Hx) as [j ->]. apply (flags_only_packet ms a b Hb); [done|].
    rewrite list.Forall_forall in Hp. by apply Hp. }
  split.
  - rewrite Ep. cbn. lia.
  - rewrite Ep, fmap_app, Hl, Hps. cbn [take fmap list_fmap].
    assert (payload ms (release a b m i) <$> take k (pending a b n m (i + 1)) = payload ms m <$> take k (pending a b n m (i + 1))) as ->.
    { apply list_fmap_ext. intros j x Hx. apply Hpay. apply list_elem_of_lookup_2 in Hx. by eapply subseteq_take. }
    rewrite !filter_cons, filter_nil. by case_decide.
  - by eapply flags_only_trans.
  - intros j Hj. destruct (decide (j = 0)) as [->|].
    + rewrite Z.add_0_r. destruct (avail m' (desc_at a b i)) eqn:E; [|done]. apply Hmono in E.
      pose proof (release_avail a b Hb m i 0 ltac:(lia)) as E0. rewrite Z.add_0_r in E0. rewrite E0 in E. done.
    + replace (i + j) with (i + 1 + (j - 1)) by lia. apply Hr. lia.
  - intros j Hj. eapply release_mono. by apply Hmono.
Qed.

Lemma u16_mod i j : (u16 i + j) mod 2 ^ b = (i + j) mod 2 ^ b.
Proof using Hb a.
  pose proof (slot_u16 a b Hb i) as E. unfold desc_at in E. rewrite <- (Zplus_mod_idemp_l (u16 i)), <- (Zplus_mod_idemp_l i).
  by replace (u16 i mod 2 ^ b) with (i mod 2 ^ b) by lia.
Qed.

Lemma pending_mod n m i j : i mod 2 ^ b = j mod 2 ^ b → pending a b n m i = pending a b n m j.
Proof.
  revert i j. induction n as [|n IH]; intros i j E; [done|]. cbn [pending]. unfold desc_at. rewrite E. case_match; [|done]. f_equal. apply IH.
  by rewrite <- (Zplus_mod_idemp_l i), E, Zplus_mod_idemp_l.
Qed.

Lemma pending_u16 n m i : pending a b n m (u16 (i + 1)) = pending a b n m (i + 1).
Proof using Hb. apply pending_mod. pose proof (u16_mod (i + 1) 0) as E. by rewrite !Z.add_0_r in E. Qed.

(** The descriptors that are not pending stay unavailable. *)
Lemma prev_release n m i : Z.of_nat (S n) <= 2 ^ b → (∀ j, Z.of_nat (S n) <= j < 2 ^ b → avail m (desc_at a b (i + j)) = false) →
  ∀ j, Z.of_nat n <= j < 2 ^ b → avail (release a b m i) (desc_at a b (u16 (i + 1) + j)) = false.
Proof using Hb.
  intros Hn Hprev j Hj. unfold desc_at at 1. rewrite u16_mod. fold (desc_at a b (i + 1 + j)). destruct (decide (j = 2 ^ b - 1)) as [->|].
  - assert (desc_at a b (i + 1 + (2 ^ b - 1)) = desc_at a b (i + 0)) as ->; [|by rewrite release_avail by lia].
    unfold desc_at. do 2 f_equal. replace (i + 1 + (2 ^ b - 1)) with (i + 0 + 1 * 2 ^ b) by lia. apply Z.mod_add. lia.
  - rewrite <- Z.add_assoc, release_avail by lia. rewrite (proj2 (Z.eqb_neq _ _)) by lia. apply Hprev. lia.
Qed.

Lemma packets_release n m i : Forall (packet_ok ms a b m) (pending a b n m (i + 1)) →
  Z.of_nat (S n) <= 2 ^ b → Forall (packet_ok ms a b (release a b m i)) (pending a b n (release a b m i) (u16 (i + 1))).
Proof using Hb.
  intros Hp Hn. rewrite pending_u16, pending_release by (done || lia). rewrite list.Forall_forall in *. intros x Hx.
  destruct (pending_slots _ _ _ _ _ _ Hx) as [j ->]. apply (flags_only_packet ms a b Hb m); [by apply release_flags|]. by apply Hp.
Qed.

(** The positions of two runs in sequence. *)
Lemma sent_u16 n m i k new m' : sent n m (u16 (i + 1)) k new m' → sent n m (i + 1) k new m'.
Proof using Hb.
  intros [Hle Hps Hf Hr Hmono]. rewrite pending_u16 in *. split; try done. intros j Hj.
  specialize (Hr j Hj). unfold desc_at in *. by rewrite u16_mod in Hr.
Qed.

(** One descriptor: the packet goes to an mbuf if it fits. *)
Lemma tx_loop_step fuel q mbufs m (d : D) : ring q = a → tx_idx_mask q = 2 ^ b - 1 → mem_ok m → (length mbufs < 128)%nat →
  avail m (desc_at a b (back_idx q)) = true → packet_ok ms a b m (desc_at a b (back_idx q)) →
  ∃ l d2, tx_loop (S fuel) ms qid q mbufs m d =
    tx_loop fuel ms qid (q <| back_idx := u16 (back_idx q + 1) |>) (mbufs ++ l) (release a b m (back_idx q)) d2 ∧
    snd <$> l = filter fits [payload ms m (desc_at a b (back_idx q))] ∧ (length l <= 1)%nat.
Proof using Hb Halloc.
  intros Hra Hmask Hm Hlt Eav (p & Ep & Hdis). cbn [tx_loop]. cbv zeta. rewrite (proj2 (Nat.ltb_lt _ _)) by done.
  rewrite Hra, Hmask. change TX_DESC_SIZE with 0x20. rewrite (slot_desc a b Hb).
  change (nz (desc_flags m (desc_at a b (back_idx q)) .& TX_FLAG_AVAIL)) with (avail m (desc_at a b (back_idx q))). rewrite Eav. cbn [negb].
  rewrite Ep. cbn [mbind result_bind]. destruct (Halloc d) as (mb & d1 & ->).
  destruct (rd16_bound m (desc_at a b (back_idx q) + 8) Hm) as [Hlen _].
  assert (Z.of_nat (length (payload ms m (desc_at a b (back_idx q)))) = buf_len m (desc_at a b (back_idx q))) as El.
  { rewrite (payload_step m (back_idx q) p Ep), length_read_mem, Z2Nat.id by done. done. }
  destruct (Z.ltb_spec room (buf_len m (desc_at a b (back_idx q)))); rewrite filter_cons, filter_nil.
  - exists [], (pktmbuf_free [mb] d1). rewrite app_nil_r, decide_False by (unfold fits; lia). split_and!; [reflexivity|reflexivity|cbn; lia].
  - exists [(mb, read_mem m p (buf_len m (desc_at a b (back_idx q))))], d1. rewrite decide_True by (unfold fits; lia).
    rewrite (payload_step m (back_idx q) p Ep). split_and!; [reflexivity|reflexivity|cbn; lia].
Qed.

Lemma tx_loop_sends fuel n q mbufs m (d : D) : ring q = a → tx_idx_mask q = 2 ^ b - 1 → in_width 16 (back_idx q) → mem_ok m →
  (n < fuel)%nat → Z.of_nat n <= 2 ^ b →
  (∀ j, Z.of_nat n <= j < 2 ^ b → avail m (desc_at a b (back_idx q + j)) = false) →
  Forall (packet_ok ms a b m) (pending a b n m (back_idx q)) → (length mbufs <= 128)%nat →
  ∃ k new m' d', tx_loop fuel ms qid q mbufs m d = Ok (TxBreak, q <| back_idx := u16 (back_idx q + Z.of_nat k) |>, mbufs ++ new, m', d') ∧
    sent n m (back_idx q) k new m' ∧ (k = length (pending a b n m (back_idx q)) ∨ length (mbufs ++ new) = 128%nat).
Proof using Hb Halloc.
  revert n q mbufs m d. induction fuel as [|fuel IH]; intros n q mbufs m d Hra Hmask Hi Hm Hfuel Hn Hprev Hok Hl; [lia|].
  match goal with |- ?G => assert (tx_loop (S fuel) ms qid q mbufs m d = Ok (TxBreak, q, mbufs, m, d) →
    O = length (pending a b n m (back_idx q)) ∨ length mbufs = 128%nat → G) as Hstop end.
  { intros E Hend. exists O, [], m, d. rewrite E, !app_nil_r. split; [|split; [apply sent_nil|exact Hend]].
    destruct q. cbn in *. rewrite Z.add_0_r, wrap_small by done. done. }
  destruct (decide (length mbufs = 128%nat)) as [E128|].
  { apply Hstop; [|auto]. cbn [tx_loop]. by rewrite E128. }
  destruct (avail m (desc_at a b (back_idx q))) eqn:Eav.
  2: { apply Hstop; [|left; destruct n; [done|]; cbn [pending]; by rewrite Eav]. cbn [tx_loop]. cbv zeta.
    rewrite (proj2 (Nat.ltb_lt _ _)) by (unfold burst_size; lia). rewrite Hra, Hmask. change TX_DESC_SIZE with 0x20. rewrite (slot_desc a b Hb).
    change (nz (desc_flags m (desc_at a b (back_idx q)) .& TX_FLAG_AVAIL)) with (avail m (desc_at a b (back_idx q))). by rewrite Eav. }
  destruct n as [|n].
  { specialize (Hprev 0). rewrite Z.add_0_r in Hprev. rewrite Hprev in Eav; [done|]. split; [done|apply Z.pow_pos_nonneg; lia]. }
  pose proof Hok as Hrest. cbn [pending] in Hrest. rewrite Eav in Hrest. apply Forall_cons_1 in Hrest as [Hp Hrest].
  destruct (tx_loop_step fuel q mbufs m d) as (l & d2 & -> & Hsl & Hll); [done|done|done|lia|done|done|].
  destruct (IH n (q <| back_idx := u16 (back_idx q + 1) |>) (mbufs ++ l) (release a b m (back_idx q)) d2) as (k & new & m' & d' & E & Hs & Hend);
    [done|done|by apply wrap_width|by apply wr16_ok|lia|lia|by apply prev_release|by apply packets_release|rewrite length_app; lia|].
  exists (S k), (l ++ new), m', d'. rewrite app_assoc. cbn [back_idx] in *. split; [|split].
  - rewrite E. do 5 f_equal. destruct q. cbn. f_equal. unfold wrap. rewrite Zplus_mod_idemp_l. f_equal. lia.
  - apply sent_cons; [lia|done|done|done|by apply sent_u16].
  - cbn [pending]. rewrite Eav. destruct Hend as [->|?]; [|by right]. left. cbn. f_equal. cbn [set_field]. cbn. by rewrite pending_u16, pending_release by (done || lia).
Qed.
End sends.

(** C31. What a guest gets sent: the packets of the available descriptors from the position of the
    queue on, in order and with their bytes, until a descriptor is not available or the burst
    of 128 packets is full; packets that do not fit into an mbuf are left out.  The
    descriptors are released, nothing else in memory changes, and the position moves
    behind them.  The ring has a power of two of descriptors, the buffers are mapped and
    apart from the ring, and DPDK has mbufs. *)
Theorem tx_poll_sends {D} `{Dpdk D} ms a b room fuel inv dev q m (d : D) :
  0 <= b <= 16 → tx_queue dev = Some q → tx_idx_mask q = 2 ^ b - 1 → in_width 16 (back_idx q) →
  tx_ring inv ms q = Ok (Some (q <| ring := a |>)) → mem_ok m → 2 ^ b < Z.of_nat fuel →
  (∀ d : D, ∃ mb d', pktmbuf_alloc (get_tx_queue_id (device_id dev) 0) d = (Some (mb, room), d')) →
  Forall (packet_ok ms a b m) (pending a b (Z.to_nat (2 ^ b)) m (back_idx q)) →
  ∃ k new m' d1,
    tx_poll fuel inv ms dev m d = Ok (TxBreak, dev <| tx_queue := Some (q <| ring := a |> <| back_idx := u16 (back_idx q + Z.of_nat k) |>) |>, m',
      tx_send (get_tx_queue_id (device_id dev) 0) new d1) ∧
    sent ms a b room (Z.to_nat (2 ^ b)) m (back_idx q) k new m' ∧
    (k = length (pending a b (Z.to_nat (2 ^ b)) m (back_idx q)) ∨ length new = 128%nat).
Proof.
  intros Hb Hq Hmask Hi Hr Hm Hfuel Halloc Hp. pose proof (Z.pow_pos_nonneg 2 b ltac:(lia) ltac:(lia)).
  unfold tx_poll. rewrite Hq, Hr. cbn [mbind result_bind].
  destruct (tx_loop_sends ms a b Hb (get_tx_queue_id (device_id dev) 0) room Halloc fuel (Z.to_nat (2 ^ b)) (q <| ring := a |>) [] m d)
    as (k & new & m' & d1 & E & Hs & Hend); try done; try lia.
  { cbn. lia. }
  rewrite E. cbn [mbind result_bind]. exists k, new, m', d1. done.
Qed.

(** ** What is received *)

Section receives.
Context (ms : mappings) (a b : Z) (Hb : 0 <= b <= 16).

(** Packets with the addresses of their buffers, for the descriptors from [i] on: the
    descriptors are available, the buffers are mapped, large enough and apart from the ring. *)
Definition ready (m : memory) (i : Z) (ps : list (Z * list Z)) : Prop := ∀ j p pkt, ps !! j = Some (p, pkt) →
  let desc := desc_at a b (i + Z.of_nat j) in
  avail m desc = true ∧ dma_local_addr ms (buf_iova m desc) (buf_len m desc) = Ok (Some p) ∧
  Z.of_nat (length pkt) <= buf_len m desc ∧ Z.of_nat (length pkt) < 2 ^ 16 ∧
  (p + Z.of_nat (length pkt) <= a ∨ a + 2 ^ b * 0x20 <= p).

Definition disjoint (p : Z * list Z) (q : Z * list Z) : Prop :=
  p.1 + Z.of_nat (length p.2) <= q.1 ∨ q.1 + Z.of_nat (length q.2) <= p.1.

(** The bytes that a delivery writes. *)
Definition touches (i : Z) (p : Z * list Z) (x : Z) : Prop :=
  p.1 <= x < p.1 + Z.of_nat (length p.2) ∨ desc_at a b i + 8 <= x < desc_at a b i + 12.

Record delivered (i : Z) (p : Z * list Z) (m : memory) : Prop := {
  del_data : read_mem m p.1 (Z.of_nat (length p.2)) = p.2;
  del_len : buf_len m (desc_at a b i) = Z.of_nat (length p.2);
  del_avail : avail m (desc_at a b i) = false
}.

(** A delivery stays as it is when its bytes do. *)
Lemma delivered_ext i p m m' : (∀ x, touches i p x → m' x = m x) → delivered i p m → delivered i p m'.
Proof.
  intros Hx [Hd Hl Ha]. split.
  - etrans; [|exact Hd]. apply read_mem_ext. intros k Hk. apply Hx. left. lia.
  - etrans; [|exact Hl]. unfold buf_len, rd16. f_equal. apply read_mem_ext. intros k Hk. apply Hx. right. lia.
  - etrans; [|exact Ha]. unfold avail, desc_flags, rd16. do 3 f_equal. apply read_mem_ext. intros k Hk. apply Hx. right. lia.
Qed.

Lemma slot_range_ring i : a <= desc_at a b i ∧ desc_at a b i + 0x20 <= a + 2 ^ b * 0x20.
Proof using Hb. unfold desc_at. pose proof (Z.mod_pos_bound i (2 ^ b) ltac:(apply Z.pow_pos_nonneg; lia)). nia. Qed.

Lemma slots_apart i j : 0 < j < 2 ^ b → desc_at a b (i + j) + 0x20 <= desc_at a b i ∨ desc_at a b i + 0x20 <= desc_at a b (i + j).
Proof using Hb. intros Hj. unfold desc_at. pose proof (ring_slot_ne b Hb i j Hj). lia. Qed.

(** One packet. *)
Lemma rx_packet_delivers q m p pkt : rx_idx_mask q = 2 ^ b - 1 → ready m (rx_idx q) [(p, pkt)] →
  ∃ m', rx_packet ms a pkt q m = Ok (Some (q <| rx_idx := u16 (rx_idx q + 1) |>, m')) ∧
    delivered (rx_idx q) (p, pkt) m' ∧ ∀ x, ¬ touches (rx_idx q) (p, pkt) x → m' x = m x.
Proof using Hb.
  intros Hmask Hr. specialize (Hr 0%nat p pkt eq_refl). rewrite Z.add_0_r in Hr. destruct Hr as (Ha & Et & Hl & H16 & Ho).
  unfold rx_packet. cbv zeta. rewrite Hmask. change RX_DESC_SIZE with 0x20. rewrite (slot_desc a b Hb).
  change (nz (desc_flags m (desc_at a b (rx_idx q)) .& RX_FLAG_AVAIL)) with (avail m (desc_at a b (rx_idx q))). rewrite Ha. cbn [negb].
  rewrite Et. cbn [mbind result_bind]. rewrite wrap_small by (split; lia). rewrite (proj2 (Z.ltb_ge _ _)), (proj2 (Z.ltb_ge _ _)) by lia. cbn [orb].
  eexists. split; [done|]. pose proof (slot_range_ring (rx_idx q)) as Hs. set (s := desc_at a b (rx_idx q)) in *.
  set (f := desc_flags m s .& cnot 16 RX_FLAG_AVAIL). split; [split|]; cbn [fst snd].
  - unfold wr16. rewrite !read_write_out by (rewrite ?length_le_bytes; lia). apply read_write.
  - unfold buf_len. fold s. unfold rd16, wr16. rewrite read_write_out by (rewrite length_le_bytes; lia).
    fold (wr16 (write_mem m p pkt) (s + 8) (Z.of_nat (length pkt))) (rd16 (wr16 (write_mem m p pkt) (s + 8) (Z.of_nat (length pkt))) (s + 8)).
    rewrite rd16_wr16. apply wrap_small. split; lia.
  - unfold avail, desc_flags. fold s. rewrite rd16_wr16. apply flag_cleared.
  - intros x Hx. unfold touches in Hx. cbn [fst snd] in Hx. fold s in Hx. unfold wr16. rewrite !write_mem_out; [done|rewrite ?length_le_bytes; lia..].
Qed.

(** What the descriptors behind say is not touched. *)
Lemma slot_unchanged i m m' p pkt j : 0 < j < 2 ^ b → p + Z.of_nat (length pkt) <= a ∨ a + 2 ^ b * 0x20 <= p →
  (∀ x, ¬ touches i (p, pkt) x → m' x = m x) →
  let s := desc_at a b (i + j) in buf_iova m' s = buf_iova m s ∧ buf_len m' s = buf_len m s ∧ avail m' s = avail m s.
Proof using Hb.
  intros Hj Ho Hx s. pose proof (slots_apart i j Hj) as Hap. pose proof (slot_range_ring (i + j)) as Hs. pose proof (slot_range_ring i) as Hs0.
  assert (∀ k, 0 <= k < 0x20 → m' (s + k) = m (s + k)) as Hsame.
  { intros k Hk. apply Hx. unfold touches. cbn [fst snd]. unfold s. lia. }
  split_and!.
  - unfold buf_iova, rd64. f_equal. apply read_mem_ext. intros k Hk. apply Hsame. lia.
  - unfold buf_len, rd16. f_equal. apply read_mem_ext. intros k Hk. rewrite <- !Z.add_assoc. apply Hsame. lia.
  - unfold avail, desc_flags, rd16. do 3 f_equal. apply read_mem_ext. intros k Hk. rewrite <- !Z.add_assoc. apply Hsame. lia.
Qed.

Lemma slot_next i j : desc_at a b (u16 (i + 1) + Z.of_nat j) = desc_at a b (i + Z.of_nat (S j)).
Proof using Hb. unfold desc_at. rewrite (u16_mod a b Hb). do 3 f_equal. lia. Qed.

Lemma ready_step i m m' p pkt ps : ready m i ((p, pkt) :: ps) → Z.of_nat (S (length ps)) <= 2 ^ b →
  (∀ x, ¬ touches i (p, pkt) x → m' x = m x) → ready m' (u16 (i + 1)) ps.
Proof using Hb.
  intros Hr Hn Hx j p' pkt' Hj. pose proof (lookup_lt_Some _ _ _ Hj) as Hlt. rewrite slot_next.
  destruct (Hr 0%nat p pkt eq_refl) as (_ & _ & _ & _ & Ho).
  destruct (slot_unchanged i m m' p pkt (Z.of_nat (S j)) ltac:(lia) Ho Hx) as (E1 & E2 & E3). cbv zeta. rewrite E1, E2, E3.
  exact (Hr (S j) p' pkt' Hj).
Qed.

(** Two deliveries write different bytes. *)
Lemma touches_apart m i p pkt ps j p' x : ready m i ((p, pkt) :: ps) → Z.of_nat (S (length ps)) <= 2 ^ b →
  ps !! j = Some p' → disjoint (p, pkt) p' → touches i (p, pkt) x → ¬ touches (i + Z.of_nat (S j)) p' x.
Proof using Hb.
  intros Hr Hn Hj Hd. pose proof (lookup_lt_Some _ _ _ Hj) as Hlt. destruct p' as [p' pkt'].
  destruct (Hr 0%nat p pkt eq_refl) as (_ & _ & _ & _ & Ho). destruct (Hr (S j) p' pkt' Hj) as (_ & _ & _ & _ & Ho').
  pose proof (slots_apart i (Z.of_nat (S j)) ltac:(lia)). pose proof (slot_range_ring i). pose proof (slot_range_ring (i + Z.of_nat (S j))).
  unfold touches, disjoint in *. cbn [fst snd] in *. lia.
Qed.

Lemma delivered_slot i i' p m : desc_at a b i = desc_at a b i' → delivered i p m → delivered i' p m.
Proof. intros E [H1 H2 H3]. split; [done|by rewrite <- E..]. Qed.

(** The packets that find a descriptor; [rest] are those that do not. *)
Lemma rx_packets_deliver ps rest q m : rx_idx_mask q = 2 ^ b - 1 → in_width 16 (rx_idx q) →
  ready m (rx_idx q) ps → Z.of_nat (length ps) <= 2 ^ b →
  (∀ j k p p', j ≠ k → ps !! j = Some p → ps !! k = Some p' → disjoint p p') →
  rest = [] ∨ Z.of_nat (length ps) < 2 ^ b ∧ avail m (desc_at a b (rx_idx q + Z.of_nat (length ps))) = false →
  ∃ m', rx_packets ms a ((snd <$> ps) ++ rest) q m = Ok (q <| rx_idx := u16 (rx_idx q + Z.of_nat (length ps)) |>, m') ∧
    (∀ j p, ps !! j = Some p → delivered (rx_idx q + Z.of_nat j) p m') ∧
    ∀ x, (∀ j p, ps !! j = Some p → ¬ touches (rx_idx q + Z.of_nat j) p x) → m' x = m x.
Proof using Hb.
  revert q m. induction ps as [|[p pkt] ps IH]; intros q m Hmask Hi Hr Hn Hd Hrest.
  - exists m. cbn [length fmap list_fmap app]. split; [|done].
    assert (q <| rx_idx := u16 (rx_idx q + Z.of_nat 0) |> = q) as -> by (destruct q; cbn in *; rewrite Z.add_0_r, wrap_small by done; done).
    destruct Hrest as [->|[_ Ha]]; [done|]. destruct rest as [|pkt rest]; [done|]. cbn [rx_packets]. unfold rx_packet. cbv zeta.
    rewrite Hmask. change RX_DESC_SIZE with 0x20. rewrite (slot_desc a b Hb). cbn [length] in Ha. rewrite Z.add_0_r in Ha.
    change (nz (desc_flags m (desc_at a b (rx_idx q)) .& RX_FLAG_AVAIL)) with (avail m (desc_at a b (rx_idx q))). by rewrite Ha.
  - assert (ready m (rx_idx q) [(p, pkt)]) as Hr1 by (intros [|j] ? ? [= <- <-]; by apply (Hr 0%nat)).
    destruct (rx_packet_delivers q m p pkt Hmask Hr1) as (m1 & E1 & Hdel & Hfr).
    destruct (Hr 0%nat p pkt eq_refl) as (_ & _ & _ & _ & Ho). cbn [length] in Hn, Hrest |- *.
    destruct (IH (q <| rx_idx := u16 (rx_idx q + 1) |>) m1) as (m' & E & Hdels & Hfr'); [done|by apply wrap_width|by eapply ready_step|lia| | |].
    { intros j k x y Hjk Hj Hk. apply (Hd (S j) (S k)); [lia|done..]. }
    { destruct Hrest as [->|[Hlt Ha]]; [by left|right]. split; [lia|]. cbn. rewrite slot_next.
      by destruct (slot_unchanged (rx_idx q) m m1 p pkt (Z.of_nat (S (length ps))) ltac:(lia) Ho Hfr) as (_ & _ & ->). }
    cbn [rx_idx set_field] in E, Hdels, Hfr'.
    assert (∀ j p' x, ps !! j = Some p' → touches (u16 (rx_idx q + 1) + Z.of_nat j) p' x ↔ touches (rx_idx q + Z.of_nat (S j)) p' x) as Ht.
    { intros j p' x _. cbn. unfold touches. by rewrite slot_next. }
    exists m'. cbn [fmap list_fmap snd app rx_packets]. rewrite E1. cbn [mbind result_bind]. split; [|split].
    + etrans; [exact E|]. do 3 f_equal. destruct q. cbn. f_equal. unfold wrap. rewrite Zplus_mod_idemp_l. f_equal. lia.
    + intros [|j] p' Hj.
      * injection Hj as <-. rewrite Z.add_0_r. eapply delivered_ext; [|exact Hdel]. intros x Hx. apply Hfr'. intros k pk Hk Hk'. apply (Ht k pk x Hk) in Hk'.
        eapply (touches_apart m (rx_idx q) p pkt ps k pk x); try done. by apply (Hd 0%nat (S k)).
      * eapply delivered_slot; [|by apply (Hdels j p')]. apply slot_next.
    + intros x Hx. rewrite Hfr'; [|intros j p' Hj; rewrite (Ht j p' x Hj); by apply (Hx (S j))].
      apply Hfr. specialize (Hx 0%nat (p, pkt) eq_refl). by rewrite Z.add_0_r in Hx.
Qed.
End receives.

(** C32. What a guest receives: the packets of a queue of the driver go in order to the buffers of
    the next descriptors of the guest's queue, with their bytes and lengths, and the
    descriptors are handed back; packets for which no descriptor is available are dropped.
    Nothing else in memory changes, and the position moves behind the descriptors.  The
    ring has a power of two of descriptors; the buffers are mapped, large enough, apart
    from each other and from the ring. *)
Theorem rx_queue_delivers ms a b q_idx k q queues ps rest m :
  0 <= b <= 16 → rx_queue_for q_idx queues = Some (k, q) → rx_idx_mask q = 2 ^ b - 1 → in_width 16 (rx_idx q) →
  dma_local_addr ms (rx_ring_iova q) (rx_ring_size q) = Ok (Some a) → ps ≠ [] →
  ready ms a b m (rx_idx q) ps → Z.of_nat (length ps) <= 2 ^ b →
  (∀ j k p p', j ≠ k → ps !! j = Some p → ps !! k = Some p' → disjoint p p') →
  rest = [] ∨ Z.of_nat (length ps) < 2 ^ b ∧ avail m (desc_at a b (rx_idx q + Z.of_nat (length ps))) = false →
  ∃ m', rx_queue ms q_idx ((snd <$> ps) ++ rest) queues m =
      Ok (<[Z.to_nat k := Some (q <| rx_idx := u16 (rx_idx q + Z.of_nat (length ps)) |>)]> queues, m') ∧
    (∀ j p, ps !! j = Some p → delivered a b (rx_idx q + Z.of_nat j) p m') ∧
    ∀ x, (∀ j p, ps !! j = Some p → ¬ touches a b (rx_idx q + Z.of_nat j) p x) → m' x = m x.
Proof.
  intros Hb Hq Hmask Hi Hr Hne Hready Hn Hd Hrest.
  destruct (rx_packets_deliver ms a b Hb ps rest q m Hmask Hi Hready Hn Hd Hrest) as (m' & E & Hdel & Hfr).
  exists m'. split; [|done]. unfold rx_queue. rewrite Hq, Hr. cbn [mbind result_bind]. rewrite E. cbn [mbind result_bind].
  assert (0 <= k < Z.of_nat (length queues)) as Hk.
  { unfold rx_queue_for in Hq. destruct (rd queues (q_idx mod _)) as [[q1|]|] eqn:E1; [injection Hq as <- _; by eapply rd_Some|..];
      (destruct (rd queues 0) as [[q1|]|] eqn:E2; [injection Hq as <- _; by eapply rd_Some|done..]). }
  rewrite wr_in_range by done. destruct ps as [|p ps]; [done|]. done.
Qed.

(** ** Instances *)

Module Demo.
(** A pool that counts its mbufs, with a room of 2048 bytes. *)
Record pool := mkPool { next : Z; in_use : list Z; out : list (list Z) }.

#[global] Instance dpdk : Dpdk pool := {
  pktmbuf_alloc _ d := (Some (next d, 2048), mkPool (next d + 1) (next d :: in_use d) (out d));
  pktmbuf_free l d := mkPool (next d) (remove_all l (in_use d)) (out d);
  tx_done_cleanup _ d := d;
  eth_tx_burst _ l d := (length l, mkPool (next d) (remove_all (fst <$> l) (in_use d)) (out d ++ (snd <$> l)));
  driver_add_switch_rule _ _ _ _ d := (true, d)
}.

#[global] Instance dpdk_pool : Pool pool in_use.
Proof.
  split.
  - by intros q d m room d' [= <- <- <-].
  - by intros q d d' [=].
  - intros l rest d. apply remove_all_perm.
  - done.
  - intros q mbufs rest d n d' [= <- <-] Hh. split; [done|]. rewrite drop_all. cbn. by apply remove_all_perm.
Qed.

(** Two descriptors at the guest address 0x1000; the first has a packet of three bytes, and a
    second packet has an address that is not mapped. *)
Definition desc (iova len flags : Z) : list Z := le_bytes 8 iova ++ le_bytes 2 len ++ le_bytes 2 flags ++ replicate 20 0.
Definition base : Z := 0x7f0000000000.
Definition mem (d0 d1 : list Z) : memory := write_mem (write_mem (write_mem (fun _ => 0) (base + 0x1000) d0) (base + 0x1020) d1) (base + 0x2000) [1; 2; 3].
Definition txq : TxQueue := mkTxq 0x1000 0 1 0 0.
Definition rxq : RxQueue := mkRxq 0x1000 1 0.
Definition dev : VdpdkDevice := mkVdpdk 0 [0; 0; 0; 0; 0; 1] [] (replicate 4096 0) (replicate 4096 0) (replicate 4096 0) [Some rxq; None; None; None] (Some txq).
Definition p0 : pool := mkPool 0 [] [].

Lemma mem_bytes d0 d1 : bytes_ok d0 → bytes_ok d1 → mem_ok (mem d0 d1).
Proof. intros H0 H1. repeat apply write_mem_ok; try done. by apply bytes_ok_check. Qed.

Lemma desc_bytes iova len flags : bytes_ok (desc iova len flags).
Proof. unfold desc. rewrite !Forall_app. split_and!; try apply le_bytes_ok. by apply bytes_ok_check. Qed.

Definition m1 : memory := mem (desc 0x2000 3 1) (desc 0 0 0).
Definition m2 : memory := mem (desc 0x2000 3 1) (desc 0x900000 3 1).

Lemma low : table_low demo_table.
Proof. repeat (constructor; [by vm_compute|]). constructor. Qed.
End Demo.

Lemma vdpdk_isolated_witness : agree demo_table Demo.m1 Demo.m1 ∧
  (∀ dev' m', rx_callback_fn demo_table [[[5; 6]]] Demo.dev Demo.m1 = Ok (dev', m') → frame demo_table Demo.m1 m').
Proof.
  assert (mem_ok Demo.m1) as Hm by (apply Demo.mem_bytes; apply Demo.desc_bytes).
  assert (agree demo_table Demo.m1 Demo.m1) as Ha by done. split; [exact Ha|].
  assert (∀ q, tx_queue Demo.dev = Some q → txq_ok demo_table q) as Hq.
  { intros q [= <-]. split; [done|]. split; [done|]. by left. }
  assert (rxqs_ok (rx_queues Demo.dev)) as Hqs by (repeat (constructor; [by vm_compute|]); constructor).
  assert (Forall (Forall bytes_ok) [[[5; 6]]]) as Hb by (repeat constructor; by vm_compute).
  exact (proj2 (vdpdk_isolated demo_table 4 false [[[5; 6]]] Demo.dev Demo.m1 Demo.m1 Demo.p0 demo_table_ok Demo.low Hq Hqs Hb Hm Hm Ha)).
Defined.

(** A guest with a region at the top of the address space gives a buffer that begins two bytes
    before the end of the region: the end of the transfer wraps around, the check of the region
    passes, and the packet is written behind the region. *)
Definition top_table : mappings := [(0, mkIovec Demo.base 0x10000); (2 ^ 64 - 0x2000, mkIovec 0x7e0000000000 0x1ffe)].

Lemma isolation_needs_room : table_ok top_table ∧ ¬ table_low top_table ∧
  let m := Demo.mem (Demo.desc (2 ^ 64 - 4) 0x100 1) (Demo.desc 0 0 0) in
  ∃ dev' m', rx_callback_fn top_table [[[5; 6; 7; 8]]] Demo.dev m = Ok (dev', m') ∧ ¬ frame top_table m m'.
Proof.
  split; [|split].
  - constructor; [by vm_compute|constructor; [by vm_compute|constructor]|]. constructor; [by vm_compute|constructor|constructor].
  - intros H. apply Forall_cons_1 in H as [_ H]. apply Forall_cons_1 in H as [H _]. by apply H.
  - intros m. set (x := 0x7e0000000000 + 0x1ffe).
    assert (match rx_callback_fn top_table [[[5; 6; 7; 8]]] Demo.dev m with Ok (_, m') => m' x = 7 | _ => False end) as H by (vm_compute; done).
    destruct (rx_callback_fn _ _ _ _) as [[dev' m']| |]; try (exfalso; exact H). exists dev', m'. split; [done|]. intros Hf. specialize (Hf x).
    assert (¬ guest_byte top_table x) as Hn.
    { intros (r & Hm & Hi). unfold x in Hi. apply elem_of_cons in Hm as [->|Hm]; [|apply list_elem_of_singleton in Hm as ->]; cbn in Hi; unfold Demo.base in Hi; lia. }
    specialize (Hf Hn). rewrite H in Hf. vm_compute in Hf. discriminate.
Qed.

(** The mbuf of the first packet is lost at the second. *)
Lemma tx_poll_mbufs_witness : ∃ dev' m' d', tx_poll 4 false demo_table Demo.dev Demo.m2 Demo.p0 = Ok (TxReturn, dev', m', d') ∧
  Demo.in_use d' = [0] ∧ tx_queue dev' = None ∧ ∃ lost, Demo.in_use d' ≡ₚ lost ++ [] ∧ (length lost < 128)%nat.
Proof.
  assert (match tx_poll 4 false demo_table Demo.dev Demo.m2 Demo.p0 with
    | Ok (TxReturn, dev', _, d') => Demo.in_use d' = [0] ∧ tx_queue dev' = None
    | _ => False
    end) as H by (vm_compute; done).
  destruct (tx_poll 4 false demo_table Demo.dev Demo.m2 Demo.p0) as [[[[[] dev'] m'] d']| |] eqn:E; try (exfalso; exact H).
  destruct H as [Hu Hq]. exists dev', m', d'. split; [exact eq_refl|]. split; [exact Hu|].
  apply (tx_poll_mbufs Demo.in_use 4 false demo_table Demo.dev Demo.m2 Demo.p0 TxReturn dev' m' d'); [|exact E].
  intros q [= <-]. cbn. lia.
Defined.

Lemma tx_poll_sends_witness : ∃ k new m' d1,
  tx_poll 4 false demo_table Demo.dev Demo.m1 Demo.p0 =
    Ok (TxBreak, Demo.dev <| tx_queue := Some (Demo.txq <| ring := Demo.base + 0x1000 |> <| back_idx := u16 (0 + Z.of_nat k) |>) |>, m', tx_send 0 new d1) ∧
  sent demo_table (Demo.base + 0x1000) 1 2048 2 Demo.m1 0 k new m' ∧ (k = 1%nat ∨ length new = 128%nat).
Proof.
  apply (tx_poll_sends demo_table (Demo.base + 0x1000) 1 2048 4 false Demo.dev Demo.txq Demo.m1 Demo.p0); try done.
  - apply Demo.mem_bytes; apply Demo.desc_bytes.
  - intros d. eexists _, _. reflexivity.
  - assert (pending (Demo.base + 0x1000) 1 (Z.to_nat (2 ^ 1)) Demo.m1 (back_idx Demo.txq) = [Demo.base + 0x1000]) as -> by (vm_compute; reflexivity).
    constructor; [|constructor]. exists (Demo.base + 0x2000). split; [vm_compute; reflexivity|]. right. vm_compute. done.
Defined.

Lemma rx_queue_delivers_witness : ∃ m',
  rx_queue demo_table 2 [[5; 6]; [7]] (rx_queues Demo.dev) Demo.m1 = Ok ([Some (Demo.rxq <| rx_idx := 1 |>); None; None; None], m') ∧
  delivered (Demo.base + 0x1000) 1 0 (Demo.base + 0x2000, [5; 6]) m'.
Proof.
  destruct (rx_queue_delivers demo_table (Demo.base + 0x1000) 1 2 0 Demo.rxq (rx_queues Demo.dev) [(Demo.base + 0x2000, [5; 6])] [[7]] Demo.m1)
    as (m' & E & Hdel & _); try done.
  - intros [|j] p pkt [= <- <-]. split_and!; try (by vm_compute). right. by vm_compute.
  - intros [|j] [|k] p p' Hne Hj Hk; done.
  - right. split; by vm_compute.
  - exists m'. split; [exact E|]. exact (Hdel 0%nat _ eq_refl).
Defined.
