(* ===== verification/VmuxDriver.v ===== *)
(** * Network drivers

    driver.hpp and dpdk.hpp: the queues in which a driver hands packets to a device, and
    the driver over DPDK: sending, sending with segmentation by the hardware, receiving,
    flow rules; tap.hpp: the driver over a tap interface.  DPDK is the class [Nic]. *)
From S2P Require Import Prelude Bytes E810Base.
Local Open Scope Z_scope.

Definition BURST_SIZE : Z := 32.
Definition MAX_BUF : Z := 9000.
Definition QUEUES_PER_VM : Z := 4.

(** ** Packets *)

(** An mbuf: its memory behind the headroom and how much of it is data. *)
Record mbuf := mkMbuf { m_id : Z; m_buf : list Z; data_len : Z }.
#[export] Instance mbuf_settable : Settable mbuf := fun r => mkMbuf (m_id r) (m_buf r) (data_len r).

(** A packet to send: the chain of its mbufs and the fields of the first one; the lengths
    of the headers have 7, 9 and 8 bits there. *)
Record pkt := mkPkt {
  segs : list mbuf; nb_segs : Z; pkt_len : Z; ol_flags : Z; l2_len : Z; l3_len : Z; l4_len : Z; segsz : Z
}.
#[export] Instance pkt_settable : Settable pkt := fun r =>
  mkPkt (segs r) (nb_segs r) (pkt_len r) (ol_flags r) (l2_len r) (l3_len r) (l4_len r) (segsz r).

(** A packet that was received. *)
Record rx_mbuf := mkRxMbuf { rx_id : Z; rx_segs : Z; rx_len : Z; rx_bytes : list Z }.

(** A rule: packets with the given addresses and type go to a queue. *)
Record eth_flow := mkFlow {
  flow_port : Z; spec_dst : list Z; mask_dst : list Z; spec_src : list Z; mask_src : list Z;
  spec_type : Z; mask_type : Z; flow_queue : Z
}.

(** DPDK: the ports, mbufs of a pool (their number and the content of their memory), the
    release of a list of mbufs, sending of one packet, a burst of at most [n] received
    packets, validation and creation of a rule, and the constants and the checksum of its
    headers. *)
Class Nic (D : Type) := {
  eth_ports : list Z;
  mbuf_alloc : Z → D → option (Z * list Z) * D;
  mbuf_free : list Z → D → D;
  tx_burst : Z → Z → pkt → D → bool * D;
  rx_burst : Z → Z → nat → D → list rx_mbuf * D;
  flow_validate : eth_flow → D → bool;
  flow_create : eth_flow → D → bool * D;
  TX_IEEE1588_TMST : Z; TX_TCP_SEG : Z; TX_IPV4 : Z; TX_IP_CKSUM : Z;
  ipv4_phdr_cksum : list Z → Z → Z
}.

(** ** State *)

(** [data] is the packet that the pointer refers to, in the mbuf [owner]. *)
Record RxBuf := mkRxBuf { owner : Z; data : list Z; used : Z; hint : option Z }.
Record DrvQueue := mkDrvQueue { rxBufs : list RxBuf; nb_bufs_used : Z }.
#[export] Instance drvqueue_settable : Settable DrvQueue := fun r => mkDrvQueue (rxBufs r) (nb_bufs_used r).

Record dpdk := mkDpdk {
  rxQueues : list DrvQueue; bufs : list rx_mbuf; mediate : list bool;
  tx_mbuf_pools : list Z; tso_supported : bool; tso_seg : list (option pkt); port_id : Z
}.
#[export] Instance dpdk_settable : Settable dpdk := fun r =>
  mkDpdk (rxQueues r) (bufs r) (mediate r) (tx_mbuf_pools r) (tso_supported r) (tso_seg r) (port_id r).

Definition rx_queue_id (vm queue : Z) : Z := u16 (vm * QUEUES_PER_VM + queue).
Definition tx_queue_id (vm queue : Z) : Z := u16 (vm * QUEUES_PER_VM + queue).
(** The queue [queue] of a machine among all queues ([vm_queue_stride] is 4). *)
Definition queue_index (vm queue : Z) : Z := u32 (vm * QUEUES_PER_VM + queue).

Definition no_rx : RxBuf := mkRxBuf 0 [] 0 None.
Definition alloc_rx_lists (global_queues per_queue_bursts : nat) : list DrvQueue :=
  replicate global_queues (mkDrvQueue (replicate per_queue_bursts no_rx) 0).

(** ** Copying into a chain *)

Fixpoint skip_segs (offset : Z) (ss : list mbuf) : result (list mbuf * Z * list mbuf) :=
  match ss with
  | [] => Undef
  | s :: ss' =>
      if data_len s <=? offset then
        '(before, o, ss') ← skip_segs (offset - data_len s) ss';
        Ok (s :: before, o, ss')
      else Ok ([], offset, ss)
  end.

(** The copying loop; [copy_len] stays that of the first segment. *)
Fixpoint copy_segs (buf : list Z) (copy_len offset : Z) (ss : list mbuf) : result (list mbuf) :=
  match ss with
  | [] => Undef
  | s :: ss' =>
      if copy_len <? Z.of_nat (length buf) then
        b ← of_opt (put_bytes (m_buf s) offset (take (Z.to_nat copy_len) buf));
        ss' ← copy_segs (drop (Z.to_nat copy_len) buf) copy_len 0 ss';
        Ok (s <| m_buf := b |> :: ss')
      else
        b ← of_opt (put_bytes (m_buf s) offset buf);
        Ok (s <| m_buf := b |> :: ss')
  end.

Definition copy_buf_to_pkt_segs (buf : list Z) (ss : list mbuf) (offset : Z) : result (list mbuf) :=
  '(before, offset, ss) ← skip_segs offset ss;
  match ss with
  | [] => Undef
  | s :: _ => ss ← copy_segs buf (data_len s - offset) offset ss; Ok (before ++ ss)
  end.

Definition copy_buf_to_pkt (buf : list Z) (ss : list mbuf) (offset : Z) : result (list mbuf) :=
  match ss with
  | [] => Undef
  | s :: ss' =>
      if u32 (offset + Z.of_nat (length buf)) <=? data_len s then
        b ← of_opt (put_bytes (m_buf s) offset buf);
        Ok (s <| m_buf := b |> :: ss')
      else copy_buf_to_pkt_segs buf ss offset
  end.

Section driver.
Context {D : Type} `{Nic D}.

(** ** Sending *)

(** [rte_pktmbuf_alloc]: an mbuf without data. *)
Definition pktmbuf_alloc (pool : Z) (d : D) : option mbuf * D :=
  match mbuf_alloc pool d with
  | (Some (id, buf), d) => (Some (mkMbuf id buf 0), d)
  | (None, d) => (None, d)
  end.

(** [rte_pktmbuf_free]: all mbufs of the chain. *)
Definition pktmbuf_free (p : pkt) (d : D) : D := mbuf_free (m_id <$> segs p) d.

Definition new_pkt (s : mbuf) (len flags : Z) : pkt := mkPkt [s] 1 (u32 len) flags 0 0 0 0.

(** The packet goes out on every port, with a copy for each. *)
Fixpoint send_ports (ports : list Z) (queue : Z) (buf : list Z) (s : dpdk) (d : D) : result D :=
  match ports with
  | [] => Ok d
  | port :: ports' =>
      pool ← of_opt (rd (tx_mbuf_pools s) queue);
      match pktmbuf_alloc pool d with
      | (None, d) => Ok d
      | (Some m, d) =>
          let len := Z.of_nat (length buf) in
          let m := m <| data_len := u16 len |> in
          ss ← copy_buf_to_pkt buf [m] 0;
          let p := (new_pkt m len TX_IEEE1588_TMST) <| segs := ss |> in
          let '(ok, d) := tx_burst port queue p d in
          send_ports ports' queue buf s (if ok : bool then d else pktmbuf_free p d)
      end
  end.

Definition send (vm_id : Z) (buf : list Z) (s : dpdk) (d : D) : result D :=
  send_ports eth_ports (tx_queue_id vm_id 0) buf s d.

(** *** Segmentation by the hardware *)

Definition tailroom (m : mbuf) : Z := u16 (Z.of_nat (length (m_buf m)) - data_len m).

(** [rte_pktmbuf_lastseg], and the mbufs before it. *)
Definition lastseg (ss : list mbuf) : option (list mbuf * mbuf) :=
  match reverse ss with [] => None | m :: r => Some (reverse r, m) end.

(** How the loop that copies into the chain ends. *)
Inductive copy_end := Copied | NoMbuf | OutOfFuel.

(** One iteration puts bytes behind the data of the last mbuf of the chain. *)
Definition fill_last (bytes : list Z) (p : pkt) (m : mbuf) (before : list mbuf) : result (nat * pkt) :=
  let n := Nat.min (Z.to_nat (tailroom m)) (length bytes) in
  b ← of_opt (put_bytes (m_buf m) (data_len m) (take n bytes));
  let m := m <| m_buf := b |> <| data_len := u16 (data_len m + Z.of_nat n) |> in
  Ok (n, p <| segs := before ++ [m] |> <| pkt_len := u32 (pkt_len p + Z.of_nat n) |>).

Fixpoint tso_copy (fuel : nat) (pool : Z) (bytes : list Z) (p : pkt) (d : D) : result (copy_end * pkt * D) :=
  match bytes, fuel with
  | [], _ => Ok (Copied, p, d)
  | _, O => Ok (OutOfFuel, p, d)
  | _, S fuel' =>
      '(before, last) ← of_opt (lastseg (segs p));
      if tailroom last =? 0 then
        match pktmbuf_alloc pool d with
        | (None, d) => Ok (NoMbuf, p, d)
        | (Some m, d) =>
            let p := p <| nb_segs := u16 (nb_segs p + 1) |> in
            '(n, p) ← fill_last bytes p m (segs p);
            tso_copy fuel' pool (drop n bytes) p d
        end
      else
        '(n, p) ← fill_last bytes p last before;
        tso_copy fuel' pool (drop n bytes) p d
  end.

(** The headers of the first mbuf for the hardware: no IP checksum, the checksum of the
    pseudo header for TCP. *)
Definition tso_headers (p : pkt) (l2 l3 l4 sz : Z) : result pkt :=
  match segs p with
  | [] => Undef
  | m :: ss =>
      let flags := TX_IEEE1588_TMST .| TX_TCP_SEG .| (TX_IPV4 .| TX_IP_CKSUM) in
      b ← of_opt (store 2 (m_buf m) (l2 + 10) 0);
      ip ← of_opt (bytes_at 20 b l2);
      b ← of_opt (store 2 b (l2 + l3 + 16) (ipv4_phdr_cksum ip flags));
      Ok (p <| segs := m <| m_buf := b |> :: ss |> <| ol_flags := flags |>
            <| l2_len := wrap 7 l2 |> <| l3_len := wrap 9 l3 |> <| l4_len := wrap 8 l4 |> <| segsz := u16 sz |>)
  end.

Fixpoint tso_ports (ports : list Z) (queue : Z) (p : pkt) (d : D) : bool * D :=
  match ports with
  | [] => (true, d)
  | port :: ports' =>
      let '(ok, d) := tx_burst port queue p d in
      if ok : bool then tso_ports ports' queue p d else (false, pktmbuf_free p d)
  end.

Definition send_tso (fuel : nat) (vm_id : Z) (bytes : list Z) (end_of_packet : bool) (l2 l3 l4 sz : Z) (s : dpdk) (d : D)
    : result (bool * dpdk * D) :=
  if negb (tso_supported s) then Ok (false, s, d)
  else
    let queue := tx_queue_id vm_id 0 in
    tso_first ← of_opt (rd (tso_seg s) queue);
    pool ← of_opt (rd (tx_mbuf_pools s) queue);
    none ← of_opt (wr (tso_seg s) queue None);
    let '(first, d) := match tso_first with
                       | Some p => (Some p, d)
                       | None => let '(m, d) := pktmbuf_alloc pool d in ((fun m => new_pkt m 0 0) <$> m, d)
                       end in
    match first with
    | None => Ok (false, s, d)
    | Some p =>
        '(e, p, d) ← tso_copy fuel pool bytes p d;
        match e with
        | OutOfFuel => Undef
        | NoMbuf => Ok (false, s <| tso_seg := none |>, pktmbuf_free p d)
        | Copied =>
            if negb end_of_packet then
              kept ← of_opt (wr (tso_seg s) queue (Some p));
              Ok (true, s <| tso_seg := kept |>, d)
            else
              first ← of_opt (head (segs p));
              if data_len first <? u64 (l2 + l3 + l4) then Ok (false, s <| tso_seg := none |>, pktmbuf_free p d)
              else
                p ← tso_headers p l2 l3 l4 sz;
                let '(ok, d) := tso_ports eth_ports queue p d in
                Ok (ok, s <| tso_seg := none |>, d)
        end
    end.

(** ** Receiving *)

(** The packets of a burst into the buffers for the device, from the index [i] on. *)
Fixpoint pass_bufs (i : Z) (h : option Z) (ms : list rx_mbuf) (rbs : list RxBuf) : result (list RxBuf) :=
  match ms with
  | [] => Ok rbs
  | m :: ms' =>
      if negb (rx_segs m =? 1) then Abort
      else if MAX_BUF <=? rx_len m then Abort
      else
        rbs ← of_opt (wr rbs i (mkRxBuf (rx_id m) (rx_bytes m) (rx_len m) h));
        pass_bufs (i + 1) h ms' rbs
  end.

(** [rte_eth_rx_burst] stores the pointers into [bufs]. *)
Fixpoint store_bufs (i : Z) (ms : list rx_mbuf) (bs : list rx_mbuf) : result (list rx_mbuf) :=
  match ms with
  | [] => Ok bs
  | m :: ms' => bs ← of_opt (wr bs i m); store_bufs (i + 1) ms' bs
  end.

Definition recv_queue (vm_id q_idx : Z) (s : dpdk) (d : D) : result (dpdk * D) :=
  let queue_id := rx_queue_id vm_id q_idx in
  let '(ms, d) := rx_burst 0 queue_id (Z.to_nat BURST_SIZE) d in
  bs ← store_bufs (queue_id * BURST_SIZE) ms (bufs s);
  let s := s <| bufs := bs |> in
  match ms with
  | [] => Ok (s, d)
  | _ =>
      med ← of_opt (rd (mediate s) vm_id);
      rxq ← of_opt (rd (rxQueues s) (queue_index vm_id q_idx));
      rbs ← pass_bufs 0 (if med : bool then Some q_idx else None) ms (rxBufs rxq);
      qs ← of_opt (wr (rxQueues s) (queue_index vm_id q_idx) (mkDrvQueue rbs (Z.of_nat (length ms))));
      Ok (s <| rxQueues := qs |>, d)
  end.

Definition recv (vm_id : Z) (s : dpdk) (d : D) : result (dpdk * D) :=
  for_res (Z.to_nat QUEUES_PER_VM) 0 (fun q_idx '(s, d) => recv_queue vm_id q_idx s d) (s, d).

(** [for (uint16_t i = ...; i < bound; i++)]: the index has 16 bits, the bound has more. *)
Fixpoint free_bufs (fuel : nat) (i bound : Z) (bs : list rx_mbuf) (d : D) : result (option D) :=
  if i <? bound then
    match fuel with
    | O => Ok None
    | S fuel' =>
        m ← of_opt (rd bs i);
        free_bufs fuel' (u16 (i + 1)) bound bs (mbuf_free [rx_id m] d)
    end
  else Ok (Some d).

(** [None] if the loop does not end within [fuel] iterations. *)
Definition consume_queue (fuel : nat) (vm_id q_idx : Z) (s : dpdk) (d : D) : result (option (dpdk * D)) :=
  let first := rx_queue_id vm_id q_idx * BURST_SIZE in
  rxq ← of_opt (rd (rxQueues s) (queue_index vm_id q_idx));
  r ← free_bufs fuel (u16 first) (first + nb_bufs_used rxq) (bufs s) d;
  match r with
  | None => Ok None
  | Some d =>
      qs ← of_opt (wr (rxQueues s) (queue_index vm_id q_idx) (rxq <| nb_bufs_used := 0 |>));
      Ok (Some (s <| rxQueues := qs |>, d))
  end.

Definition recv_consumed (fuel : nat) (vm_id : Z) (s : dpdk) (d : D) : result (option (dpdk * D)) :=
  for_res (Z.to_nat QUEUES_PER_VM) 0
    (fun q_idx r => match r with Some (s, d) => consume_queue fuel vm_id q_idx s d | None => Ok None end) (Some (s, d)).

(** ** Flow rules *)

Definition htobe16 (x : Z) : Z := bswap16 x.

(** Whether the rule was created. *)
Definition generate_eth_flow (port rx_q : Z) (src_mac src_mask dest_mac dest_mask : list Z) (etype etype_mask : Z) (d : D) : bool * D :=
  let f := mkFlow port dest_mac dest_mask src_mac src_mask (htobe16 etype) etype_mask rx_q in
  if flow_validate f d then flow_create f d else (false, d).

Definition mac_none : list Z := replicate 6 0.
Definition mac_full : list Z := replicate 6 0xFF.

Definition add_mac_rule (vm_id : Z) (dst_addr : list Z) (dst_queue : Z) (s : dpdk) (d : D) : result (bool * D) :=
  med ← of_opt (rd (mediate s) vm_id);
  if negb med then Ok (true, d)
  else Ok (generate_eth_flow (port_id s) (rx_queue_id vm_id dst_queue) mac_none mac_none dst_addr mac_full 0 0 d).

Definition add_etype_rule (vm_id : Z) (dst_addr : list Z) (etype dst_queue : Z) (s : dpdk) (d : D) : result (bool * D) :=
  med ← of_opt (rd (mediate s) vm_id);
  if negb med then Ok (true, d)
  else Ok (generate_eth_flow (port_id s) (rx_queue_id vm_id dst_queue) mac_none mac_none dst_addr mac_full etype 0xFFFF d).

(** Which value is set for a machine: [mediation_enable] and [mediation_disable]. *)
Definition set_mediate (b : bool) (vm_id : Z) (s : dpdk) : result (bool * dpdk) :=
  l ← of_opt (wr (mediate s) vm_id b); Ok (true, s <| mediate := l |>).
Definition is_mediating (vm_id : Z) (s : dpdk) : result bool := of_opt (rd (mediate s) vm_id).

(** [Util::intcrement_mac], from the last byte on. *)
Fixpoint increment_from (i : nat) (mac : list Z) (incrementValue : Z) : option (list Z) :=
  b ← rd mac (Z.of_nat i);
  let v := u64 (incrementValue + b) in
  mac ← wr mac (Z.of_nat i) (v .& 0xFF);
  let v := v .>> 8 in
  if v =? 0 then Some mac
  else match i with O => Some mac | S i' => increment_from i' mac v end.

Definition intcrement_mac (mac : list Z) (increment : Z) : option (list Z) := increment_from 5 mac increment.

(** The rules of the constructor: the packets of each machine go to its first queue.
    [Abort] if one cannot be created. *)
Fixpoint default_rules (num_vms : nat) (queue_nb : Z) (mac : list Z) (s : dpdk) (d : D) : result D :=
  match num_vms with
  | O => Ok d
  | S n =>
      dest ← of_opt (intcrement_mac mac queue_nb);
      let '(ok, d) := generate_eth_flow (port_id s) (rx_queue_id queue_nb 0) mac_none mac_none dest mac_full 0 0 d in
      if ok : bool then default_rules n (queue_nb + 1) mac s d else Abort
  end.

(** The constructor behind the set-up of DPDK, which determines the pools, the content of
    [bufs], and whether the hardware segments. *)
Definition new_dpdk (num_vms : nat) (mac : list Z) (pools : list Z) (garbage : list rx_mbuf) (tso : bool) (d : D) : result (dpdk * D) :=
  if negb (length eth_ports =? 1)%nat then Abort
  else
    let n := (Z.to_nat QUEUES_PER_VM * num_vms)%nat in
    let s := mkDpdk (alloc_rx_lists n (Z.to_nat BURST_SIZE)) garbage (replicate num_vms false) pools tso
               (if tso then replicate n None else []) 0 in
    d ← default_rules num_vms 0 mac s d;
    Ok (s, d).
End driver.

(** ** The tap driver *)

Module Tap.
Record tap := mkTap { rxBuf : list Z; rx_used : Z; nb_used : Z }.

(** [write] returns [n]. *)
Definition send (n : Z) (buf : list Z) (t : tap) : result (list Z) :=
  if MAX_BUF <? Z.of_nat (length buf) then Abort
  else if negb (n =? Z.of_nat (length buf)) then Abort
  else Ok buf.

(** [read] returns [n], the bytes are [bytes]; the test for an error is one of an
    unsigned number. *)
Definition recv (n : Z) (bytes : list Z) (t : tap) : result tap :=
  b ← of_opt (put_bytes (rxBuf t) 0 bytes);
  let n := u64 n in
  let t := mkTap b n 1 in
  if n <? 0 then Abort else Ok t.

Definition recv_consumed (t : tap) : tap := mkTap (rxBuf t) (rx_used t) 1.
End Tap.
