(* ===== verification/VmuxDriverSpec.v ===== *)
(** * The DPDK driver: theorems

    [VmuxDriver]: what is sent and which mbufs are given back, for packets that the
    hardware segments and for others; reception; the addresses of the machines. *)
From S2P Require Import Prelude Bytes E810Base VmuxDriver.
Local Open Scope Z_scope.

(** DPDK keeps track of the mbufs in use, and of the packets that it took. *)
Class NicLaws (D : Type) `{Nic D} (held : D → list Z) (wire : D → list (Z * Z * pkt)) : Prop := {
  law_alloc pool d id b d' : mbuf_alloc pool d = (Some (id, b), d') →
    held d' ≡ₚ id :: held d ∧ wire d' = wire d ∧ 1024 <= Z.of_nat (length b) < 2 ^ 16;
  law_empty pool d d' : mbuf_alloc pool d = (None, d') → held d' ≡ₚ held d ∧ wire d' = wire d;
  law_free l rest d : held d ≡ₚ l ++ rest → held (mbuf_free l d) ≡ₚ rest ∧ wire (mbuf_free l d) = wire d;
  law_taken port q p rest d d' : tx_burst port q p d = (true, d') → held d ≡ₚ (m_id <$> segs p) ++ rest →
    held d' ≡ₚ rest ∧ wire d' = wire d ++ [(port, q, p)];
  law_refused port q p d d' : tx_burst port q p d = (false, d') → held d' ≡ₚ held d ∧ wire d' = wire d;
  law_rx port q n d ms d' : rx_burst port q n d = (ms, d') →
    (length ms <= n)%nat ∧ held d' ≡ₚ (rx_id <$> ms) ++ held d ∧ wire d' = wire d
}.

(** ** Chains *)

Definition mbuf_bytes (m : mbuf) : list Z := take (Z.to_nat (data_len m)) (m_buf m).
Definition pkt_bytes (p : pkt) : list Z := concat (mbuf_bytes <$> segs p).
Definition ids (p : pkt) : list Z := m_id <$> segs p.

Definition mbuf_ok (m : mbuf) : Prop := 0 <= data_len m <= Z.of_nat (length (m_buf m)) ∧ 1024 <= Z.of_nat (length (m_buf m)) < 2 ^ 16.

Record chain_ok (p : pkt) : Prop := {
  chain_ne : segs p ≠ [];
  chain_mbufs : Forall mbuf_ok (segs p);
  chain_segs : nb_segs p = u16 (Z.of_nat (length (segs p)));
  chain_len : pkt_len p = u32 (Z.of_nat (length (pkt_bytes p)))
}.

Lemma lastseg_snoc l m : lastseg (l ++ [m]) = Some (l, m).
Proof. unfold lastseg. by rewrite reverse_snoc, reverse_involutive. Qed.

Lemma tailroom_ok m : mbuf_ok m → tailroom m = Z.of_nat (length (m_buf m)) - data_len m.
Proof. intros [H1 H2]. unfold tailroom. apply wrap_small. unfold in_width. lia. Qed.

Lemma wrap_add_l w x y : wrap w (wrap w x + y) = wrap w (x + y).
Proof. unfold wrap. by rewrite Zplus_mod_idemp_l. Qed.

(** Putting bytes behind the data of an mbuf. *)
Lemma fill_last_ok bytes p m before : mbuf_ok m → Forall mbuf_ok before → bytes ≠ [] → 0 < tailroom m →
  nb_segs p = u16 (Z.of_nat (S (length before))) → pkt_len p = u32 (Z.of_nat (length (concat (mbuf_bytes <$> before ++ [m])))) →
  ∃ n p' m', fill_last bytes p m before = Ok (n, p') ∧ (0 < n <= length bytes)%nat ∧ chain_ok p' ∧
    segs p' = before ++ [m'] ∧ m_id m' = m_id m ∧
    pkt_bytes p' = concat (mbuf_bytes <$> before ++ [m]) ++ take n bytes.
Proof.
  intros Hm Hb Hne Ht Hs Hl. pose proof (tailroom_ok m Hm) as Et. destruct Hm as [H1 H2]. unfold fill_last.
  set (n := Nat.min _ _). assert (0 < length bytes)%nat by (destruct bytes; [done|cbn; lia]).
  assert ((0 < n <= length bytes)%nat ∧ Z.of_nat n <= tailroom m) as [Hn Hnt] by (unfold n; lia). clearbody n.
  assert (length (take n bytes) = n) as Hln by (rewrite length_take; lia).
  rewrite put_bytes_in by lia. cbn [of_opt mbind result_bind]. rewrite (wrap_small 16 (data_len m + _)) by (unfold in_width; lia).
  eexists n, _, _. split; [reflexivity|]. split; [done|].
  set (m' := _ <| data_len := _ |>).
  assert (mbuf_bytes m' = mbuf_bytes m ++ take n bytes) as Eb.
  { unfold mbuf_bytes, m'. cbn. unfold put. rewrite take_app_ge by (rewrite length_take; lia).
    f_equal. apply take_app_length'. rewrite length_take, Hln. lia. }
  assert (concat (mbuf_bytes <$> before ++ [m']) = concat (mbuf_bytes <$> before ++ [m]) ++ take n bytes) as Ec.
  { rewrite !fmap_app, !concat_app. cbn. by rewrite Eb, !app_nil_r, app_assoc. }
  assert (mbuf_ok m') as Hm'.
  { unfold mbuf_ok, m'. cbn. rewrite length_put by lia. lia. }
  split; [|split; [reflexivity|split; [done|exact Ec]]]. split; unfold pkt_bytes; cbn.
  - by destruct before.
  - apply Forall_app. split; [done|]. by apply Forall_singleton.
  - rewrite Hs, length_app. cbn. do 2 f_equal. lia.
  - rewrite Hl, wrap_add_l, Ec, length_app, Hln. f_equal. lia.
Qed.

Lemma take_put k buf o bs : (o + length bs <= k)%nat → (k <= length buf)%nat → take k (put buf o bs) = put (take k buf) o bs.
Proof.
  intros Ho Hk. unfold put. rewrite take_app_ge by (rewrite length_take; lia). rewrite take_app_ge by (rewrite length_take; lia).
  rewrite length_take, take_take, Nat.min_l by lia. rewrite Nat.min_l by lia. do 2 f_equal.
  rewrite skipn_firstn_comm. f_equal. lia.
Qed.

Lemma put_app_l xs ys o bs : (o + length bs <= length xs)%nat → put xs o bs ++ ys = put (xs ++ ys) o bs.
Proof. intros Ho. unfold put. rewrite take_app_le, drop_app_le by lia. by rewrite <- !app_assoc. Qed.

Lemma bytes_at_in n buf off : 0 <= off → off + Z.of_nat n <= Z.of_nat (length buf) →
  bytes_at n buf off = Some (take n (drop (Z.to_nat off) buf)).
Proof. intros H1 H2. unfold bytes_at. by rewrite (proj2 (Z.leb_le 0 off)), (proj2 (Z.leb_le _ _)) by lia. Qed.

(** ** Arrays written in a row *)

Lemma store_bufs_ok ms bs i : 0 <= i → i + Z.of_nat (length ms) <= Z.of_nat (length bs) →
  store_bufs i ms bs = Ok (list_inserts (Z.to_nat i) ms bs).
Proof.
  revert bs i. induction ms as [|m ms IH]; intros bs i Hi Hl; [done|]. cbn [store_bufs list_inserts]. cbn [length] in Hl.
  rewrite wr_in_range by lia. cbn [of_opt mbind result_bind]. rewrite IH by (rewrite ?length_insert; lia).
  replace (Z.to_nat (i + 1)) with (S (Z.to_nat i)) by lia.
  by rewrite <- list_insert_inserts_lt by lia.
Qed.

(** Packets that the driver can take. *)
Definition plain (m : rx_mbuf) : Prop := rx_segs m = 1 ∧ rx_len m < MAX_BUF.
Definition rx_conv (h : option Z) (m : rx_mbuf) : RxBuf := mkRxBuf (rx_id m) (rx_bytes m) (rx_len m) h.

Lemma pass_bufs_ok h ms rbs i : Forall plain ms → 0 <= i → i + Z.of_nat (length ms) <= Z.of_nat (length rbs) →
  pass_bufs i h ms rbs = Ok (list_inserts (Z.to_nat i) (rx_conv h <$> ms) rbs).
Proof.
  intros Hp. revert rbs i. induction Hp as [|m ms [H1 H2] Hp IH]; intros rbs i Hi Hl; [done|]. cbn [pass_bufs list_inserts fmap list_fmap]. cbn [length] in Hl.
  rewrite H1, (proj2 (Z.leb_gt _ _)) by done. cbn [Z.eqb negb]. change (negb (1 =? 1)) with false. cbn match.
  rewrite wr_in_range by lia. cbn [of_opt mbind result_bind]. rewrite IH by (rewrite ?length_insert; lia).
  replace (Z.to_nat (i + 1)) with (S (Z.to_nat i)) by lia.
  by rewrite <- list_insert_inserts_lt by lia.
Qed.

Lemma lookup_inserts_in {A} (l k : list A) i j x : (i + length l <= length k)%nat → l !! j = Some x → list_inserts i l k !! (i + j)%nat = Some x.
Proof.
  intros Hl Hj. apply lookup_lt_Some in Hj as Hlt. rewrite list_lookup_inserts by lia. by replace (i + j - i)%nat with j by lia.
Qed.

Section laws.
Context {D : Type} `{NicLaws D held wire}.

Lemma alloc_mbuf pool (d : D) m d' : pktmbuf_alloc pool d = (Some m, d') →
  held d' ≡ₚ m_id m :: held d ∧ wire d' = wire d ∧ mbuf_ok m ∧ data_len m = 0.
Proof using Type*.
  unfold pktmbuf_alloc. destruct (mbuf_alloc pool d) as [[[id b]|] d1] eqn:E; [|done]. intros [= <- <-]. cbn.
  destruct (law_alloc _ _ _ _ _ E) as (Hh & Hw & Hl). split; [done|]. split; [done|]. unfold mbuf_ok. cbn. lia.
Qed.

Lemma alloc_none pool (d : D) d' : pktmbuf_alloc pool d = (None, d') → held d' ≡ₚ held d ∧ wire d' = wire d.
Proof using Type*.
  unfold pktmbuf_alloc. destruct (mbuf_alloc pool d) as [[[id b]|] d1] eqn:E; [done|]. intros [= <-]. by eapply law_empty.
Qed.

Lemma free_pkt p (d : D) rest : held d ≡ₚ ids p ++ rest → held (pktmbuf_free p d) ≡ₚ rest ∧ wire (pktmbuf_free p d) = wire d.
Proof using Type*. apply law_free. Qed.

(** Copying ends; all bytes are behind those of the chain, unless the pool is empty. *)
Lemma tso_copy_ok pool fuel bytes p (d : D) rest : chain_ok p → (length bytes <= fuel)%nat → held d ≡ₚ ids p ++ rest →
  ∃ e p' d', tso_copy fuel pool bytes p d = Ok (e, p', d') ∧ held d' ≡ₚ ids p' ++ rest ∧ wire d' = wire d ∧ chain_ok p' ∧
    match e with Copied => pkt_bytes p' = pkt_bytes p ++ bytes | NoMbuf => True | OutOfFuel => False end.
Proof using Type*.
  revert bytes p d. induction fuel as [|fuel IH]; intros bytes p d Hp Hf Hh.
  { destruct bytes; [|cbn in Hf; lia]. exists Copied, p, d. rewrite app_nil_r. done. }
  destruct bytes as [|b bs] eqn:Eb. { exists Copied, p, d. rewrite app_nil_r. done. }
  rewrite <- Eb in Hf |- *. assert (bytes ≠ []) as Hne by congruence.
  replace (tso_copy (S fuel) pool bytes p d) with
    ('(before, last) ← of_opt (lastseg (segs p));
      if tailroom last =? 0 then
        match pktmbuf_alloc pool d with
        | (None, d) => Ok (NoMbuf, p, d)
        | (Some m, d) =>
            let p := p <| nb_segs := u16 (nb_segs p + 1) |> in
            '(n, p) ← fill_last bytes p m (segs p);
            tso_copy fuel pool (drop n bytes) p d
        end
      else
        '(n, p) ← fill_last bytes p last before;
        tso_copy fuel pool (drop n bytes) p d) by (by rewrite Eb).
  clear b bs Eb. destruct (exists_last (chain_ne p Hp)) as (before & last & El).
  rewrite El, lastseg_snoc. cbn [of_opt mbind result_bind]. pose proof (chain_mbufs p Hp) as Hms. rewrite El in Hms.
  apply Forall_app in Hms as [Hbef Hlast]. rewrite Forall_singleton in Hlast.
  destruct (Z.eqb_spec (tailroom last) 0) as [Ht|Ht].
  - destruct (pktmbuf_alloc pool d) as [[m|] d1] eqn:Ea.
    2: { destruct (alloc_none _ _ _ Ea) as [H1 H2]. exists NoMbuf, p, d1. rewrite H1. done. }
    destruct (alloc_mbuf _ _ _ _ Ea) as (Hh1 & Hw1 & Hm & Hz). cbv zeta.
    assert (mbuf_bytes m = []) as Em by (unfold mbuf_bytes; by rewrite Hz).
    assert (concat (mbuf_bytes <$> segs p ++ [m]) = pkt_bytes p) as Ecat.
    { rewrite fmap_app, concat_app. cbn. by rewrite Em, !app_nil_r. }
    set (p1 := p <| nb_segs := _ |>).
    destruct (fill_last_ok bytes p1 m (segs p)) as (n & p' & m' & Ef & Hn & Hp' & Es & Eid & Eby); try done.
    { apply Hp. } { rewrite tailroom_ok by done. destruct Hm. lia. }
    { unfold p1. cbn. rewrite (chain_segs p Hp), wrap_add_l. f_equal. lia. }
    { unfold p1. cbn. rewrite Ecat. apply Hp. }
    change (segs p1) with (segs p). rewrite Ef. cbn [mbind result_bind].
    destruct (IH (drop n bytes) p' d1 Hp') as (e & p2 & d2 & E2 & Hh2 & Hw2 & Hp2 & He).
    { rewrite length_drop. lia. }
    { rewrite Hh1, Hh. unfold ids. rewrite Es, fmap_app. cbn. rewrite Eid. by rewrite <- app_assoc, Permutation_middle. }
    exists e, p2, d2. rewrite E2, Hw2, Hw1. split_and!; try done. destruct e; try done. rewrite He, Eby, Ecat, <- app_assoc. by rewrite take_drop.
  - destruct (fill_last_ok bytes p last before) as (n & p' & m' & Ef & Hn & Hp' & Es & Eid & Eby); try done.
    { rewrite tailroom_ok in * by done. destruct Hlast. lia. }
    { rewrite (chain_segs p Hp), El, length_app. cbn. do 2 f_equal. lia. }
    { rewrite (chain_len p Hp). unfold pkt_bytes. by rewrite El. }
    rewrite Ef. cbn [mbind result_bind].
    destruct (IH (drop n bytes) p' d Hp') as (e & p2 & d2 & E2 & Hh2 & Hw2 & Hp2 & He).
    { rewrite length_drop. lia. }
    { rewrite Hh. unfold ids. rewrite Es, El, !fmap_app. cbn. by rewrite Eid. }
    exists e, p2, d2. rewrite E2. split_and!; try done. destruct e; try done. rewrite He, Eby, <- app_assoc, take_drop.
    unfold pkt_bytes. by rewrite El.
Qed.

(** What the hardware is given: the packet with the checksum of IP cleared and that of
    the pseudo header in place of the one of TCP. *)
Definition tso_flags : Z := TX_IEEE1588_TMST .| TX_TCP_SEG .| (TX_IPV4 .| TX_IP_CKSUM).
Definition tso_bytes (bs : list Z) (l2 l3 : Z) : list Z :=
  let bs := put bs (Z.to_nat (l2 + 10)) (le_bytes 2 0) in
  put bs (Z.to_nat (l2 + l3 + 16)) (le_bytes 2 (ipv4_phdr_cksum (take 20 (drop (Z.to_nat l2) bs)) tso_flags)).

(** Lengths of headers that the descriptors of an E810 can hold. *)
Definition lens_ok (l2 l3 l4 : Z) : Prop := 0 <= l2 <= 254 ∧ 0 <= l3 <= 508 ∧ 0 <= l4 <= 60.

(** A packet for segmentation, with the bytes [bs]. *)
Record tso_pkt (p : pkt) (bs : list Z) (l2 l3 l4 sz : Z) : Prop := {
  tso_chain : chain_ok p;
  tso_fields : ol_flags p = tso_flags ∧ l2_len p = wrap 7 l2 ∧ l3_len p = wrap 9 l3 ∧ l4_len p = wrap 8 l4 ∧ segsz p = u16 sz;
  tso_length : length (pkt_bytes p) = length bs;
  tso_content : 20 <= l3 → 18 <= l4 → pkt_bytes p = tso_bytes bs l2 l3
}.

Lemma tso_headers_ok p m l2 l3 l4 sz : chain_ok p → lens_ok l2 l3 l4 → head (segs p) = Some m → l2 + l3 + l4 <= data_len m →
  ∃ p', tso_headers p l2 l3 l4 sz = Ok p' ∧ ids p' = ids p ∧ tso_pkt p' (pkt_bytes p) l2 l3 l4 sz.
Proof.
  intros Hp (H2 & H3 & H4) Hhd Hlen. unfold tso_headers. destruct (segs p) as [|m0 ss] eqn:Es; [done|]. injection Hhd as ->.
  pose proof (chain_mbufs p Hp) as Hms. rewrite Es in Hms. apply Forall_cons_1 in Hms as [[Hd Hl] Hss].
  rewrite store_in by lia. cbn [of_opt mbind result_bind].
  set (b1 := put (m_buf m) _ _). assert (length b1 = length (m_buf m)) as L1 by (apply length_put; rewrite length_le_bytes; lia).
  rewrite bytes_at_in by lia. cbn [of_opt mbind result_bind]. rewrite store_in by lia. cbn [of_opt mbind result_bind].
  set (ck := ipv4_phdr_cksum _ _). set (b2 := put b1 _ _).
  assert (length b2 = length (m_buf m)) as L2 by (unfold b2; rewrite length_put; [done|rewrite length_le_bytes; lia]).
  assert (∀ b, length b = length (m_buf m) → mbuf_ok (m <| m_buf := b |>)) as Hmb by (intros b Hb; unfold mbuf_ok; cbn; lia).
  assert (∀ b, length b = length (m_buf m) → length (mbuf_bytes (m <| m_buf := b |>)) = length (mbuf_bytes m)) as Hlb.
  { intros b Hb. unfold mbuf_bytes. cbn. rewrite !length_take. lia. }
  eexists. split; [reflexivity|]. unfold ids. cbn. split; [by rewrite Es|].
  assert (length (concat (mbuf_bytes <$> (m <| m_buf := b2 |> :: ss))) = length (pkt_bytes p)) as Hlen'.
  { unfold pkt_bytes. rewrite Es. cbn. rewrite !length_app. f_equal. by apply Hlb. }
  split; cbn; try done.
  - split; unfold pkt_bytes; cbn; [done| | |].
    + constructor; [by apply Hmb|done].
    + rewrite (chain_segs p Hp), Es. done.
    + rewrite (chain_len p Hp). do 2 f_equal. symmetry. exact Hlen'.
  - intros H20 H18. unfold pkt_bytes. rewrite Es. cbn. unfold tso_bytes. set (dl := Z.to_nat (data_len m)).
    assert (mbuf_bytes (mkMbuf (m_id m) b2 (data_len m)) = put (put (mbuf_bytes m) (Z.to_nat (l2 + 10)) (le_bytes 2 0)) (Z.to_nat (l2 + l3 + 16)) (le_bytes 2 ck)) as ->.
    { unfold mbuf_bytes. cbn. unfold b2. fold dl. rewrite take_put by (rewrite ?length_le_bytes; lia).
      unfold b1. rewrite take_put by (rewrite ?length_le_bytes; lia). done. }
    assert (length (mbuf_bytes m) = dl) as Ldl by (unfold mbuf_bytes; rewrite length_take; lia).
    rewrite put_app_l by (rewrite length_put; rewrite ?length_le_bytes; lia). rewrite put_app_l by (rewrite length_le_bytes; lia).
    f_equal. f_equal. unfold ck, tso_flags. f_equal. rewrite <- put_app_l by (rewrite length_le_bytes; lia).
    rewrite drop_app_le by (rewrite length_put; rewrite ?length_le_bytes; lia). rewrite take_app_le by (rewrite length_drop, length_put; rewrite ?length_le_bytes; lia).
    unfold mbuf_bytes. fold dl. rewrite <- take_put by (rewrite ?length_le_bytes; lia). fold b1.
    rewrite <- (take_drop dl b1) at 1. rewrite drop_app_le by (rewrite length_take; lia). rewrite take_app_le by (rewrite length_drop, length_take; lia). done.
Qed.

(** *** One call *)

(** The driver of a card with one port that segments, with a queue for the machine. *)
Record tso_ready (s : dpdk) (vm : Z) : Prop := {
  ready_tso : tso_supported s = true;
  ready_queue : 0 <= tx_queue_id vm 0 < Z.of_nat (length (tso_seg s));
  ready_pools : length (tx_mbuf_pools s) = length (tso_seg s)
}.

(** The bytes collected so far, and their mbufs. *)
Definition pending_ok (o : option pkt) : Prop := from_option chain_ok True o.
Definition pending_bytes (o : option pkt) : list Z := from_option pkt_bytes [] o.
Definition pending_ids (o : option pkt) : list Z := from_option ids [] o.

Definition set_pending (vm : Z) (o : option pkt) (s : dpdk) : dpdk :=
  s <| tso_seg := <[Z.to_nat (tx_queue_id vm 0) := o]> (tso_seg s) |>.

(** A call returns; it sends nothing and gives back all mbufs if it returns false. *)
Lemma send_tso_step port vm fuel bytes eop l2 l3 l4 sz s o (d : D) rest :
  eth_ports (D := D) = [port] → tso_ready s vm → rd (tso_seg s) (tx_queue_id vm 0) = Some o → pending_ok o →
  held d ≡ₚ pending_ids o ++ rest → (length bytes <= fuel)%nat → lens_ok l2 l3 l4 →
  ∃ ok o' d', send_tso fuel vm bytes eop l2 l3 l4 sz s d = Ok (ok, set_pending vm o' s, d') ∧
    if ok : bool then
      if eop : bool then o' = None ∧ held d' ≡ₚ rest ∧
        ∃ p, wire d' = wire d ++ [(port, tx_queue_id vm 0, p)] ∧ tso_pkt p (pending_bytes o ++ bytes) l2 l3 l4 sz
      else pending_ok o' ∧ pending_bytes o' = pending_bytes o ++ bytes ∧ held d' ≡ₚ pending_ids o' ++ rest ∧ wire d' = wire d
    else o' = None ∧ held d' ≡ₚ rest ∧ wire d' = wire d.
Proof using Type*.
  intros Hport [Htso Hq Hpools] Ho Hok Hh Hf Hl. unfold send_tso. rewrite Htso. cbn [negb]. cbv zeta. rewrite Ho. cbn [of_opt mbind result_bind].
  destruct (rd_in_range (tx_mbuf_pools s) (tx_queue_id vm 0)) as [pool ->]; [lia|]. cbn [of_opt mbind result_bind].
  rewrite !(wr_in_range (tso_seg s)) by done. cbn [of_opt mbind result_bind]. fold (set_pending vm None s).
  set (r := match o with Some p => (Some p, d) | None => _ end).
  assert (match r with
    | (Some p, d1) => chain_ok p ∧ pkt_bytes p = pending_bytes o ∧ held d1 ≡ₚ ids p ++ rest ∧ wire d1 = wire d
    | (None, d1) => o = None ∧ held d1 ≡ₚ rest ∧ wire d1 = wire d
    end) as Hr.
  { unfold r. destruct o as [p|]; [done|]. destruct (pktmbuf_alloc pool d) as [[m|] d1] eqn:Ea; cbn.
    - destruct (alloc_mbuf _ _ _ _ Ea) as (Hh1 & Hw1 & Hm & Hz). assert (mbuf_bytes m = []) as Em by (unfold mbuf_bytes; by rewrite Hz).
      cbn in Hh. split_and!; try done; unfold pkt_bytes, ids; cbn; rewrite ?Em; try done; [|by rewrite Hh1, Hh].
      split; unfold pkt_bytes; cbn; rewrite ?Em; try done. by apply Forall_singleton.
    - destruct (alloc_none _ _ _ Ea) as [Hh1 Hw1]. by rewrite Hh1, Hw1. }
  clearbody r. destruct r as [[p|] d1].
  2: { destruct Hr as (-> & H1 & H2). exists false, None, d1. split; [|done]. do 3 f_equal. destruct s. unfold set_pending. cbn in *.
       f_equal. symmetry. apply list_insert_id. unfold rd in Ho. by destruct (0 <=? _). }
  destruct Hr as (Hp & Eb & Hh1 & Hw1). clear Hh Hok.
  destruct (tso_copy_ok pool fuel bytes p d1 rest Hp Hf Hh1) as (e & p' & d2 & -> & Hh2 & Hw2 & Hp2 & He). cbn [mbind result_bind].
  destruct e; [|destruct (free_pkt p' d2 rest Hh2) as [H1 H2]; exists false, None, (pktmbuf_free p' d2); split; [done|]; by rewrite H2, Hw2|done].
  destruct eop; cbn [negb].
  2: { exists true, (Some p'), d2. rewrite wr_in_range by done. split; [done|]. cbn. rewrite He, Eb, Hw2. done. }
  destruct (segs p') as [|m ss] eqn:Es; [by destruct (chain_ne p' Hp2)|]. cbn [head of_opt mbind result_bind].
  pose proof Hl as (H2 & H3 & H4). rewrite (wrap_small 64) by (unfold in_width; lia).
  destruct (Z.ltb_spec (data_len m) (l2 + l3 + l4)) as [|Hle].
  { destruct (free_pkt p' d2 rest Hh2) as [Hf1 Hf2]. exists false, None, (pktmbuf_free p' d2). split; [done|]. by rewrite Hf2, Hw2. }
  destruct (tso_headers_ok p' m l2 l3 l4 sz Hp2 Hl) as (p3 & -> & Eid & Htp); [by rewrite Es|done|]. cbn [mbind result_bind].
  rewrite Hport. cbn [tso_ports]. rewrite <- Eid in Hh2. destruct (tx_burst port _ p3 d2) as [[] d3] eqn:Et.
  - destruct (law_taken _ _ _ _ _ _ Et Hh2) as [Hh3 Hw3]. exists true, None, d3. split; [done|]. split_and!; try done.
    exists p3. rewrite Hw3, Hw2, Hw1. split; [done|]. by rewrite <- Eb, <- He.
  - destruct (law_refused _ _ _ _ _ Et) as [Hh3 Hw3]. rewrite <- Hh3 in Hh2. destruct (free_pkt p3 d3 rest Hh2) as [Hf1 Hf2].
    exists false, None, (pktmbuf_free p3 d3). split; [done|]. by rewrite Hf2, Hw3, Hw2.
Qed.

(** ** Packets that are not segmented *)

(** A packet larger than the mbuf leaves its memory, whatever its length. *)
Lemma copy_too_long buf m : Z.of_nat (length (m_buf m)) < Z.of_nat (length buf) →
  copy_buf_to_pkt buf [m <| data_len := u16 (Z.of_nat (length buf)) |>] 0 = Undef.
Proof.
  intros Hlong. assert (∀ b, put_bytes (m_buf m) 0 b = None ∨ Z.of_nat (length b) <= Z.of_nat (length (m_buf m))) as Hput.
  { intros b. unfold put_bytes. destruct (Z.leb_spec (0 + Z.of_nat (length b)) (Z.of_nat (length (m_buf m)))); [right; lia|left; done]. }
  assert (put_bytes (m_buf m) 0 buf = None) as Hnone by (destruct (Hput buf); [done|lia]).
  unfold copy_buf_to_pkt. cbn [data_len m_buf set_field]. case_match; [by rewrite Hnone|].
  unfold copy_buf_to_pkt_segs. cbn [skip_segs data_len set_field]. case_match; [done|]. cbn [mbind result_bind app].
  cbn [copy_segs m_buf]. case_match; [|by rewrite Hnone].
  destruct (put_bytes (m_buf m) 0 (take _ _)); reflexivity.
Qed.

Lemma copy_fits buf m : mbuf_ok m → Z.of_nat (length buf) <= Z.of_nat (length (m_buf m)) →
  copy_buf_to_pkt buf [m <| data_len := u16 (Z.of_nat (length buf)) |>] 0 =
    Ok [mkMbuf (m_id m) (put (m_buf m) 0 buf) (Z.of_nat (length buf))].
Proof.
  intros [_ Hm] Hl. unfold copy_buf_to_pkt. cbn [data_len m_buf set_field].
  rewrite !wrap_small by (unfold in_width; lia). rewrite (proj2 (Z.leb_le _ _)) by lia.
  rewrite put_bytes_in by lia. done.
Qed.

Lemma send_too_long port vm buf s pool (d : D) m d1 : eth_ports (D := D) = [port] → rd (tx_mbuf_pools s) (tx_queue_id vm 0) = Some pool →
  pktmbuf_alloc pool d = (Some m, d1) → Z.of_nat (length (m_buf m)) < Z.of_nat (length buf) → send vm buf s d = Undef.
Proof.
  intros Hport Hpool Ea Hl. unfold send. rewrite Hport. cbn [send_ports]. rewrite Hpool. cbn [of_opt mbind result_bind]. rewrite Ea. cbv zeta.
  by rewrite copy_too_long.
Qed.

(** The packet is taken by the card or dropped, and its mbuf is given back. *)
Definition sent_or_dropped (port queue : Z) (buf : list Z) (d d' : D) : Prop :=
  held d' ≡ₚ held d ∧
  (wire d' = wire d ∨ ∃ p, wire d' = wire d ++ [(port, queue, p)] ∧ pkt_bytes p = buf ∧ length (segs p) = 1%nat ∧
     nb_segs p = 1 ∧ pkt_len p = Z.of_nat (length buf) ∧ ol_flags p = TX_IEEE1588_TMST).

Lemma send_fits port vm buf s pool (d : D) m d1 : eth_ports (D := D) = [port] → rd (tx_mbuf_pools s) (tx_queue_id vm 0) = Some pool →
  pktmbuf_alloc pool d = (Some m, d1) → Z.of_nat (length buf) <= Z.of_nat (length (m_buf m)) →
  ∃ d', send vm buf s d = Ok d' ∧ sent_or_dropped port (tx_queue_id vm 0) buf d d'.
Proof using Type*.
  intros Hport Hpool Ea Hl. unfold send. rewrite Hport. cbn [send_ports]. rewrite Hpool. cbn [of_opt mbind result_bind]. rewrite Ea. cbv zeta.
  destruct (alloc_mbuf _ _ _ _ Ea) as (Hh & Hw & Hm & _).
  rewrite copy_fits by done. cbn [mbind result_bind]. set (p := _ <| segs := _ |>).
  assert (held d1 ≡ₚ ids p ++ held d) as Hp by done.
  assert (pkt_bytes p = buf) as Eb.
  { unfold pkt_bytes, mbuf_bytes. cbn. rewrite app_nil_r, Nat2Z.id. unfold put. rewrite take_0. cbn [app]. apply take_app_length. }
  destruct (tx_burst port _ p d1) as [[] d2] eqn:Et.
  - destruct (law_taken _ _ _ _ _ _ Et Hp) as [H1 H2]. exists d2. split; [done|]. split; [done|]. right. exists p. rewrite H2, Hw.
    split_and!; try done. unfold p. cbn. apply wrap_small. destruct Hm. unfold in_width. lia.
  - destruct (law_refused _ _ _ _ _ Et) as [H1 H2]. rewrite <- H1 in Hp. destruct (free_pkt p d2 _ Hp) as [H3 H4].
    exists (pktmbuf_free p d2). split; [done|]. split; [done|]. left. by rewrite H4, H2.
Qed.

(** Without an mbuf the packet is dropped. *)
Lemma send_no_mbuf port vm buf s pool (d : D) d1 : eth_ports (D := D) = [port] → rd (tx_mbuf_pools s) (tx_queue_id vm 0) = Some pool →
  pktmbuf_alloc pool d = (None, d1) → send vm buf s d = Ok d1 ∧ sent_or_dropped port (tx_queue_id vm 0) buf d d1.
Proof using Type*.
  intros Hport Hpool Ea. unfold send. rewrite Hport. cbn [send_ports]. rewrite Hpool. cbn [of_opt mbind result_bind]. rewrite Ea.
  split; [done|]. destruct (alloc_none _ _ _ Ea). by split; [|left].
Qed.

(** ** Reception *)

(** The arrays of a driver for [n] machines.  The indices of [recv_consumed] have 16
    bits, which is enough for 511 machines. *)
Record rx_ok (n : Z) (s : dpdk) : Prop := {
  rx_vms : n <= 511;
  rx_queues : Z.of_nat (length (rxQueues s)) = 4 * n;
  rx_lists : Forall (fun q => length (rxBufs q) = 32%nat) (rxQueues s);
  rx_bufs : Z.of_nat (length (bufs s)) = 128 * n;
  rx_mediate : Z.of_nat (length (mediate s)) = n
}.

Definition qi (vm q : Z) : nat := Z.to_nat (vm * 4 + q).

(** The packets [ms] are handed to the device in the queue [q] of a machine. *)
Definition handed (s : dpdk) (vm q : Z) (ms : list rx_mbuf) : Prop :=
  ∃ rxq b, rxQueues s !! qi vm q = Some rxq ∧ nb_bufs_used rxq = Z.of_nat (length ms) ∧ rd (mediate s) vm = Some b ∧
    (∀ k m, ms !! k = Some m → rxBufs rxq !! k = Some (rx_conv (if b : bool then Some q else None) m)) ∧
    ∀ k m, ms !! k = Some m → bufs s !! (qi vm q * 32 + k)%nat = Some m.

(** No packets are handed over. *)
Definition drained (s : dpdk) (vm q : Z) : Prop := ∃ rxq, rxQueues s !! qi vm q = Some rxq ∧ nb_bufs_used rxq = 0.

(** Only the queues from [q] to [q + k] of a machine may differ. *)
Record rx_frame (vm q : Z) (k : nat) (s s' : dpdk) : Prop := {
  frame_queues j : ¬ (qi vm q <= j < qi vm q + k)%nat → rxQueues s' !! j = rxQueues s !! j;
  frame_bufs j : ¬ (qi vm q * 32 <= j < (qi vm q + k) * 32)%nat → bufs s' !! j = bufs s !! j;
  frame_rest : s' <| rxQueues := rxQueues s |> <| bufs := bufs s |> = s
}.

Lemma queue_ids n s vm q : rx_ok n s → 0 <= vm < n → 0 <= q < 4 →
  rx_queue_id vm q = Z.of_nat (qi vm q) ∧ queue_index vm q = Z.of_nat (qi vm q) ∧ (qi vm q < length (rxQueues s))%nat ∧
  ((qi vm q + 1) * 32 <= length (bufs s))%nat ∧ Z.of_nat (qi vm q) * 32 + 32 < 2 ^ 16.
Proof.
  intros [H1 H2 _ H3 _] Hvm Hq. unfold rx_queue_id, queue_index, qi, QUEUES_PER_VM.
  rewrite !wrap_small by (unfold in_width; lia). lia.
Qed.

Lemma recv_queue_ok n s vm q (d : D) ms d' : rx_ok n s → 0 <= vm < n → 0 <= q < 4 → drained s vm q →
  rx_burst 0 (rx_queue_id vm q) 32 d = (ms, d') → Forall plain ms →
  ∃ s', recv_queue vm q s d = Ok (s', d') ∧ rx_ok n s' ∧ handed s' vm q ms ∧ rx_frame vm q 1 s s'.
Proof using Type*.
  intros Hs Hvm Hq (rxq & Eq & Hnb) Eb Hms. destruct (queue_ids n s vm q Hs Hvm Hq) as (E1 & E2 & Hi & Hb & _).
  destruct (law_rx _ _ _ _ _ _ Eb) as (Hlen & _ & _). unfold recv_queue. change (Z.to_nat BURST_SIZE) with 32%nat. rewrite Eb.
  change BURST_SIZE with 32. rewrite E1, store_bufs_ok by lia. cbn [mbind result_bind].
  destruct (rd_in_range (mediate s) vm) as [b Hmed]; [destruct Hs; lia|].
  destruct ms as [|m0 ms0] eqn:Ems.
  { exists s. cbn [list_inserts]. split; [by destruct s|]. split; [done|]. split; [|by split; [..|destruct s]].
    exists rxq, b. by split_and!. }
  rewrite <- Ems in *. clear m0 ms0 Ems. change (mediate (s <| bufs := _ |>)) with (mediate s). rewrite Hmed. cbn [of_opt mbind result_bind].
  change (rxQueues (s <| bufs := _ |>)) with (rxQueues s). unfold rd at 1. rewrite E2, (proj2 (Z.leb_le _ _)), Nat2Z.id, Eq by lia. cbn [of_opt mbind result_bind].
  assert (length (rxBufs rxq) = 32%nat) as Hl32 by (pose proof (rx_lists n s Hs) as Hl; by eapply Forall_lookup_1 in Hl; [|exact Eq]).
  rewrite pass_bufs_ok by (try done; lia). cbn [mbind result_bind]. rewrite wr_in_range by lia. rewrite Nat2Z.id. cbn [of_opt mbind result_bind].
  replace (Z.to_nat (Z.of_nat (qi vm q) * 32)) with (qi vm q * 32)%nat by lia. change (Z.to_nat 0) with 0%nat.
  eexists. split; [reflexivity|]. split; [|split].
  - destruct Hs as [? ? HF ? ?]. split; cbn; rewrite ?length_insert, ?length_inserts; try done.
    apply Forall_insert; [done|]. cbn. by rewrite length_inserts.
  - eexists _, b. cbn. rewrite list_lookup_insert_eq by lia. split_and!; try done.
    + intros k m Hk. apply (lookup_inserts_in _ _ 0 k); [rewrite length_fmap; lia|]. by rewrite list_lookup_fmap, Hk.
    + intros k m Hk. apply lookup_inserts_in; [lia|done].
  - split; cbn.
    + intros j Hj. rewrite list_lookup_insert_ne by lia. done.
    + intros j Hj. destruct (decide (j < qi vm q * 32)%nat); [by rewrite list_lookup_inserts_lt|by rewrite list_lookup_inserts_ge by lia].
    + by destruct s.
Qed.

Lemma qi_add vm q j : 0 <= vm → 0 <= q → 0 <= j → qi vm (q + j) = (qi vm q + Z.to_nat j)%nat.
Proof. intros. unfold qi. lia. Qed.

Lemma handed_frame n vm q k j s s' ms : rx_ok n s → 0 <= vm < n → 0 <= j < 4 → 0 <= q → (length ms <= 32)%nat → j < q ∨ q + Z.of_nat k <= j →
  rx_frame vm q k s s' → handed s vm j ms → handed s' vm j ms.
Proof.
  intros Hs Hvm Hj Hq Hms Hout [F1 F2 F3] (rxq & b & Eq & Hn & Hb & H1 & H2).
  assert (mediate s' = mediate s) as Em by (by rewrite <- F3).
  exists rxq, b. rewrite Em. split_and!; try done.
  - rewrite F1; [done|]. unfold qi. lia.
  - intros i m Hi. rewrite F2; [by apply H2|]. apply lookup_lt_Some in Hi. unfold qi. lia.
Qed.

Lemma drained_frame vm q k j s s' : 0 <= vm → 0 <= q → 0 <= j → j < q ∨ q + Z.of_nat k <= j →
  rx_frame vm q k s s' → drained s vm j → drained s' vm j.
Proof.
  intros Hvm Hq Hj Hout [F1 _ _] (rxq & Eq & Hn). exists rxq. split; [|done]. rewrite F1; [done|]. unfold qi. lia.
Qed.

Lemma rx_frame_app vm q j k s s1 s2 : 0 <= vm → 0 <= q → rx_frame vm q j s s1 → rx_frame vm (q + Z.of_nat j) k s1 s2 → rx_frame vm q (j + k) s s2.
Proof.
  intros Hvm Hq [A1 A2 A3] [B1 B2 B3]. split.
  - intros i Hi. rewrite B1, A1; [done|lia|]. rewrite qi_add by lia. lia.
  - intros i Hi. rewrite B2, A2; [done|lia|]. rewrite qi_add by lia. lia.
  - rewrite <- A3. destruct s, s1, s2. cbn in *. congruence.
Qed.

(** The mbufs of bursts. *)
Definition burst_ids (bursts : list (list rx_mbuf)) : list Z := concat (map (map rx_id) bursts).

(** The bursts that the card delivers for [k] queues from [q] on. *)
Fixpoint nic_bursts (k : nat) (vm q : Z) (d : D) : list (list rx_mbuf) * D :=
  match k with
  | O => ([], d)
  | S k' =>
      let '(ms, d) := rx_burst 0 (rx_queue_id vm q) 32 d in
      let '(rest, d) := nic_bursts k' vm (q + 1) d in
      (ms :: rest, d)
  end.

Lemma nic_bursts_held k vm q (d : D) bursts d' : nic_bursts k vm q d = (bursts, d') →
  held d' ≡ₚ burst_ids bursts ++ held d ∧ wire d' = wire d ∧ Forall (fun ms => length ms <= 32)%nat bursts ∧ length bursts = k.
Proof using Type*.
  revert q d bursts. induction k as [|k IH]; intros q d bursts; cbn [nic_bursts]; [by intros [= <- <-]|].
  destruct (rx_burst 0 _ 32 d) as [ms d1] eqn:E1. destruct (nic_bursts k vm (q + 1) d1) as [rest d2] eqn:E2. intros [= <- <-].
  destruct (law_rx _ _ _ _ _ _ E1) as (H1 & H2 & H3). destruct (IH _ _ _ E2) as (H4 & H5 & H6 & H7). cbn. split_and!; try (cbn; lia); [|congruence|by constructor].
  rewrite H4, H2. change (burst_ids (ms :: rest)) with ((rx_id <$> ms) ++ burst_ids rest). rewrite !app_assoc. by rewrite (Permutation_app_comm (burst_ids rest)).
Qed.

Lemma recv_from n k vm q s (d : D) bursts d' : rx_ok n s → 0 <= vm < n → 0 <= q → q + Z.of_nat k <= 4 →
  (∀ j, q <= j < q + Z.of_nat k → drained s vm j) → nic_bursts k vm q d = (bursts, d') → Forall (Forall plain) bursts →
  ∃ s', for_res k q (fun q_idx '(s, d) => recv_queue vm q_idx s d) (s, d) = Ok (s', d') ∧ rx_ok n s' ∧
    (∀ j ms, bursts !! j = Some ms → handed s' vm (q + Z.of_nat j) ms) ∧ rx_frame vm q k s s'.
Proof using Type*.
  intros Hs Hvm Hq Hk. revert q s d bursts Hs Hq Hk. induction k as [|k IH]; intros q s d bursts Hs Hq Hk Hdr; cbn [nic_bursts for_res].
  { intros [= <- <-] _. exists s. split_and!; try done. split; try done. by destruct s. }
  destruct (rx_burst 0 _ 32 d) as [ms d1] eqn:E1. destruct (nic_bursts k vm (q + 1) d1) as [rest d2] eqn:E2. intros [= <- <-] [Hpl Hplr]%Forall_cons_1.
  destruct (recv_queue_ok n s vm q d ms d1 Hs Hvm ltac:(lia) (Hdr q ltac:(lia)) E1 Hpl) as (s1 & -> & Hs1 & Hh1 & F1). cbn [mbind result_bind].
  destruct (IH (q + 1) s1 d1 rest Hs1) as (s2 & -> & Hs2 & Hh2 & F2); try done; try lia.
  { intros j Hj. eapply (drained_frame vm q 1); [..|exact F1|apply Hdr]; lia. }
  exists s2. split; [done|]. split; [done|]. split; [|by apply (rx_frame_app vm q 1 k s s1 s2); try lia].
  intros [|j] m Hj; [|replace (q + Z.of_nat (S j)) with (q + 1 + Z.of_nat j) by lia; by apply Hh2].
  injection Hj as <-. rewrite Z.add_0_r. destruct (law_rx _ _ _ _ _ _ E1) as (Hl & _ & _).
  apply (handed_frame n vm (q + 1) k q s1 s2); try done; lia.
Qed.

Lemma free_bufs_ok fuel bs ms i (d : D) rest : 0 <= i → i + Z.of_nat (length ms) < 2 ^ 16 → (length ms <= fuel)%nat →
  (∀ k m, ms !! k = Some m → bs !! (Z.to_nat i + k)%nat = Some m) → held d ≡ₚ (rx_id <$> ms) ++ rest →
  ∃ d', free_bufs fuel i (i + Z.of_nat (length ms)) bs d = Ok (Some d') ∧ held d' ≡ₚ rest ∧ wire d' = wire d.
Proof using Type*.
  revert fuel i d. induction ms as [|m ms IH]; intros fuel i d Hi Hb Hf Hbs Hh.
  { exists d. split; [|done]. destruct fuel; cbn [free_bufs length]; by rewrite (proj2 (Z.ltb_ge _ _)) by (cbn; lia). }
  destruct fuel as [|fuel]; [cbn in Hf; lia|]. cbn [free_bufs]. cbn [length] in Hb, Hf |- *. rewrite (proj2 (Z.ltb_lt _ _)) by lia.
  pose proof (Hbs 0%nat m eq_refl) as Hm. rewrite Nat.add_0_r in Hm. unfold rd. rewrite (proj2 (Z.leb_le _ _)), Hm by lia. cbn [of_opt mbind result_bind].
  rewrite wrap_small by (unfold in_width; lia). destruct (law_free [rx_id m] ((rx_id <$> ms) ++ rest) d) as [H1 H2]; [done|].
  destruct (IH fuel (i + 1) (mbuf_free [rx_id m] d)) as (d' & E & H3 & H4); try done; try lia.
  { intros k m' Hk. replace (Z.to_nat (i + 1) + k)%nat with (Z.to_nat i + S k)%nat by lia. by apply Hbs. }
  exists d'. replace (i + Z.of_nat (S (length ms))) with (i + 1 + Z.of_nat (length ms)) by lia. rewrite E, H4, H2. done.
Qed.

Lemma consume_queue_ok n vm q s ms (d : D) rest : rx_ok n s → 0 <= vm < n → 0 <= q < 4 → handed s vm q ms → (length ms <= 32)%nat →
  held d ≡ₚ (rx_id <$> ms) ++ rest →
  ∃ s' d', consume_queue 32 vm q s d = Ok (Some (s', d')) ∧ rx_ok n s' ∧ drained s' vm q ∧ rx_frame vm q 1 s s' ∧
    held d' ≡ₚ rest ∧ wire d' = wire d.
Proof using Type*.
  intros Hs Hvm Hq (rxq & b & Eq & Hn & _ & _ & Hbs) Hl Hh. destruct (queue_ids n s vm q Hs Hvm Hq) as (E1 & E2 & Hi & Hb & Hw).
  unfold consume_queue. cbv zeta. rewrite E1, E2. change BURST_SIZE with 32. unfold rd. rewrite (proj2 (Z.leb_le _ _)), Nat2Z.id, Eq by lia. cbn [of_opt mbind result_bind].
  rewrite Hn, wrap_small by (unfold in_width; lia).
  destruct (free_bufs_ok 32 (bufs s) ms (Z.of_nat (qi vm q) * 32) d rest) as (d' & -> & H1 & H2); try done; try lia.
  { intros k m Hk. replace (Z.to_nat (Z.of_nat (qi vm q) * 32)) with (qi vm q * 32)%nat by lia. by apply Hbs. }
  cbn [mbind result_bind]. rewrite wr_in_range by lia. rewrite Nat2Z.id. cbn [of_opt mbind result_bind]. eexists _, d'. split; [reflexivity|]. split_and!; try done.
  - destruct Hs as [? ? HF ? ?]. split; cbn; rewrite ?length_insert; try done. apply Forall_insert; [done|]. cbn. by eapply Forall_lookup_1 in HF; [|exact Eq].
  - eexists. cbn. rewrite list_lookup_insert_eq by lia. done.
  - split; cbn; [|done|by destruct s]. intros j Hj. by rewrite list_lookup_insert_ne by lia.
Qed.

Lemma consume_from n vm q s bursts (d : D) rest : rx_ok n s → 0 <= vm < n → 0 <= q → q + Z.of_nat (length bursts) <= 4 →
  (∀ j ms, bursts !! j = Some ms → handed s vm (q + Z.of_nat j) ms) → Forall (fun ms => length ms <= 32)%nat bursts →
  held d ≡ₚ burst_ids bursts ++ rest →
  ∃ s' d', for_res (length bursts) q (fun q_idx r => match r with Some (s, d) => consume_queue 32 vm q_idx s d | None => Ok None end) (Some (s, d)) =
      Ok (Some (s', d')) ∧ rx_ok n s' ∧ (∀ j, q <= j < q + Z.of_nat (length bursts) → drained s' vm j) ∧
    rx_frame vm q (length bursts) s s' ∧ held d' ≡ₚ rest ∧ wire d' = wire d.
Proof using Type*.
  intros Hs Hvm. revert q s d Hs. induction bursts as [|ms bursts IH]; intros q s d Hs Hq Hk Hall Hl Hh.
  { exists s, d. cbn. split_and!; try done; [intros; lia|]. split; try done. by destruct s. }
  cbn [for_res length] in *. apply Forall_cons_1 in Hl as [Hl1 Hl]. pose proof (Hall 0%nat ms eq_refl) as H0'. rewrite Z.add_0_r in H0'.
  change (burst_ids (ms :: bursts)) with ((rx_id <$> ms) ++ burst_ids bursts) in Hh. rewrite <- app_assoc in Hh.
  destruct (consume_queue_ok n vm q s ms d _ Hs Hvm ltac:(lia) H0' Hl1 Hh) as (s1 & d1 & -> & Hs1 & Hd1 & F1 & Hh1 & Hw1). cbn [mbind result_bind].
  destruct (IH (q + 1) s1 d1 Hs1) as (s2 & d2 & -> & Hs2 & Hd2 & F2 & Hh2 & Hw2); try done; try lia.
  { intros j ms' Hj. assert (length ms' <= 32)%nat by (by eapply Forall_lookup_1 in Hl; [|exact Hj]). apply lookup_lt_Some in Hj as Hlt.
    eapply (handed_frame n vm q 1); [exact Hs|..|exact F1|]; try lia. replace (q + 1 + Z.of_nat j) with (q + Z.of_nat (S j)) by lia. by apply (Hall (S j)). }
  exists s2, d2. split; [done|]. split; [done|]. split; [|split; [by apply (rx_frame_app vm q 1 _ s s1 s2); try lia|split; [done|congruence]]].
  intros j Hj. destruct (decide (j = q)) as [->|]; [|apply Hd2; lia]. eapply (drained_frame vm (q + 1)); [..|exact F2|done]; lia.
Qed.

(** Reception: a device finds the bursts of the card in its queues, packet by packet and in
    order, with the queue as a hint if it is mediated, and the queues and mbufs of
    the other machines are left alone.  [recv_consumed] gives back exactly the mbufs that
    [recv] took and leaves the queues ready for the next call. *)
Theorem recv_run n vm s (d : D) bursts d1 : rx_ok n s → 0 <= vm < n → (∀ q, 0 <= q < 4 → drained s vm q) →
  nic_bursts 4 vm 0 d = (bursts, d1) → Forall (Forall plain) bursts →
  ∃ s1 s2 d2, recv vm s d = Ok (s1, d1) ∧ (∀ q ms, bursts !! q = Some ms → handed s1 vm (Z.of_nat q) ms) ∧ rx_frame vm 0 4 s s1 ∧
    held d1 ≡ₚ burst_ids bursts ++ held d ∧
    recv_consumed 32 vm s1 d1 = Ok (Some (s2, d2)) ∧ rx_ok n s2 ∧ (∀ q, 0 <= q < 4 → drained s2 vm q) ∧ rx_frame vm 0 4 s1 s2 ∧
    held d2 ≡ₚ held d ∧ wire d2 = wire d.
Proof using Type*.
  intros Hs Hvm Hdr Eb Hpl. destruct (nic_bursts_held _ _ _ _ _ _ Eb) as (Hh & Hw & Hl & Hlen).
  destruct (recv_from n 4 vm 0 s d bursts d1 Hs Hvm ltac:(lia) ltac:(lia) ltac:(intros; apply Hdr; lia) Eb Hpl) as (s1 & E1 & Hs1 & Hh1 & F1).
  destruct (consume_from n vm 0 s1 bursts d1 (held d) Hs1 Hvm ltac:(lia)) as (s2 & d2 & E2 & Hs2 & Hd2 & F2 & Hh2 & Hw2); try done; [lia|].
  rewrite Hlen in *. exists s1, s2, d2. split_and!; try done; congruence.
Qed.
End laws.

(** ** The addresses of the machines *)

Lemma be_snoc xs b : be (xs ++ [b]) = b + 256 * be xs.
Proof. rewrite be_app. unfold be. cbn. lia. Qed.

Lemma increment_from_ok i xs ys v : length xs = S i → bytes_ok xs → 0 <= v < 2 ^ 63 →
  ∃ xs', increment_from i (xs ++ ys) v = Some (xs' ++ ys) ∧ length xs' = S i ∧ bytes_ok xs' ∧
    be xs' = (be xs + v) mod 2 ^ (8 * Z.of_nat (S i)).
Proof.
  revert xs ys v. induction i as [|i IH]; intros xs ys v Hl Hok Hv;
    (destruct (exists_last (l := xs)) as (xs0 & b & ->); [by destruct xs|]);
    rewrite length_app in Hl; cbn in Hl; apply Forall_app in Hok as [Hok Hb]; rewrite Forall_singleton in Hb.
  all: assert (∀ x, (xs0 ++ [x]) ++ ys = xs0 ++ x :: ys) as Eapp by (intros; by rewrite <- app_assoc).
  all: pose proof (Z.mod_pos_bound (v + b) 256 ltac:(lia)) as Hmod; pose proof (Z.div_mod (v + b) 256 ltac:(lia)) as Hdm;
    unfold byte_ok, in_width in Hb; change (2 ^ 8) with 256 in *.
  all: cbn [increment_from]; rewrite Eapp; unfold rd; rewrite (proj2 (Z.leb_le 0 _)), Nat2Z.id by lia.
  all: rewrite lookup_app_r by lia; rewrite (proj2 (Nat.sub_0_le _ _)) by lia; cbn [lookup list_lookup mbind option_bind].
  all: rewrite (wrap_small 64) by (unfold in_width; lia).
  all: rewrite wr_in_range by (rewrite length_app; cbn; lia); rewrite Nat2Z.id; cbn [mbind option_bind].
  all: rewrite insert_app_r_alt by lia; rewrite (proj2 (Nat.sub_0_le _ _)) by lia; cbn [insert list_insert].
  all: change 0xFF with (Z.ones 8); rewrite Z.land_ones, Z.shiftr_div_pow2 by lia; change (2 ^ 8) with 256.
  all: assert (byte_ok ((v + b) mod 256)) as Hb' by (unfold byte_ok, in_width; lia).
  - destruct xs0; [|cbn in Hl; lia]. exists [(v + b) mod 256]. split; [by destruct (_ =? 0)|]. split; [done|]. split; [by apply Forall_singleton|].
    unfold be. cbn. change (2 ^ 8) with 256. rewrite !Z.add_0_r. f_equal. lia.
  - assert (in_width (8 * Z.of_nat (S i)) (be xs0)) as Hw by (replace (S i) with (length xs0) by lia; by apply be_width). unfold in_width in Hw.
    assert (2 ^ (8 * Z.of_nat (S (S i))) = 256 * 2 ^ (8 * Z.of_nat (S i))) as Ep by (rewrite <- (Z.pow_add_r 2 8) by lia; f_equal; lia).
    assert (∀ c, 0 <= c → ((v + b) mod 256 + 256 * ((be xs0 + c) mod 2 ^ (8 * Z.of_nat (S i)))) = ((v + b) mod 256 + 256 * (be xs0 + c)) mod 2 ^ (8 * Z.of_nat (S (S i)))) as Hc.
    { intros c Hc. rewrite Ep. set (N := 2 ^ (8 * Z.of_nat (S i))) in *. apply Z.mod_unique_pos with (q := (be xs0 + c) / N).
      - pose proof (Z.mod_pos_bound (be xs0 + c) N ltac:(lia)). lia.
      - pose proof (Z.div_mod (be xs0 + c) N ltac:(lia)). lia. }
    destruct (Z.eqb_spec ((v + b) / 256) 0) as [E0|E0].
    + exists (xs0 ++ [(v + b) mod 256]). rewrite Eapp, length_app, !be_snoc. cbn. split; [done|]. split; [lia|]. split; [apply Forall_app; by split; [|apply Forall_singleton]|].
      specialize (Hc 0 ltac:(lia)). rewrite Z.add_0_r, (Z.mod_small (be xs0)) in Hc by done. rewrite Hc. f_equal. lia.
    + destruct (IH xs0 ((v + b) mod 256 :: ys) ((v + b) / 256)) as (xs1 & -> & H1 & H2 & H3); [lia|done|split; [apply Z.div_pos; lia|apply Z.div_lt_upper_bound; lia]|].
      exists (xs1 ++ [(v + b) mod 256]). rewrite <- app_assoc, length_app, !be_snoc, H3. cbn. split; [done|]. split; [lia|]. split; [apply Forall_app; by split; [|apply Forall_singleton]|].
      rewrite Hc by (apply Z.div_pos; lia). f_equal. lia.
Qed.

(** The address of a machine is the base address plus its number, modulo 2^48, so two
    machines never have the same one. *)
Theorem intcrement_mac_spec mac : length mac = 6%nat → bytes_ok mac →
  (∀ k, 0 <= k < 2 ^ 32 → ∃ mac', intcrement_mac mac k = Some mac' ∧ length mac' = 6%nat ∧ bytes_ok mac' ∧
     be mac' = (be mac + k) mod 2 ^ 48) ∧
  (∀ i j, 0 <= i < 2 ^ 32 → 0 <= j < 2 ^ 32 → intcrement_mac mac i = intcrement_mac mac j → i = j).
Proof.
  intros Hl Hok.
  assert (∀ k, 0 <= k < 2 ^ 32 → ∃ mac', intcrement_mac mac k = Some mac' ∧ length mac' = 6%nat ∧ bytes_ok mac' ∧ be mac' = (be mac + k) mod 2 ^ 48) as Hk.
  { intros k Hk. destruct (increment_from_ok 5 mac [] k Hl Hok ltac:(lia)) as (mac' & E & H1 & H2 & H3). rewrite !app_nil_r in E. by exists mac'. }
  split; [done|]. intros i j Hi Hj Eij. destruct (Hk i Hi) as (mi & Ei & _ & _ & Bi), (Hk j Hj) as (mj & Ej & _ & _ & Bj).
  rewrite Ei, Ej in Eij. injection Eij as <-. rewrite Bi in Bj. pose proof (be_width mac Hok) as Hw. rewrite Hl in Hw. change (8 * Z.of_nat 6) with 48 in Hw. unfold in_width in Hw.
  pose proof (Z.div_mod (be mac + i) (2 ^ 48) ltac:(lia)). pose proof (Z.div_mod (be mac + j) (2 ^ 48) ltac:(lia)).
  assert (0 <= (be mac + i) / 2 ^ 48 < 2) by (split; [apply Z.div_pos; lia|apply Z.div_lt_upper_bound; lia]).
  assert (0 <= (be mac + j) / 2 ^ 48 < 2) by (split; [apply Z.div_pos; lia|apply Z.div_lt_upper_bound; lia]). lia.
Qed.
