(* ===== verification/VmuxIrq.v ===== *)
(** * Interrupt throttling

    [InterruptThrottlerSimbricks] of interrupts/simbricks.hpp: interrupts that the
    device model requests are deferred by a minimal delay and sent from the polling
    loop.  The time functions are those of util.hpp. *)
From S2P Require Import Prelude E810Base.
Local Open Scope Z_scope.

Record timespec := mkTime { tv_sec : Z; tv_nsec : Z }.

Definition ts_before (a b : timespec) : bool :=
  if tv_sec b <? tv_sec a then false
  else (tv_sec a <? tv_sec b) || (tv_nsec a <? tv_nsec b).

Definition LONG_MAX : Z := 2 ^ 63 - 1.
Definition ts_diff (time1 time0 : timespec) : Z :=
  let nsec := tv_nsec time1 - tv_nsec time0 in
  if nsec <? 0 then LONG_MAX else nsec.

(** [sent] counts the interrupts delivered to the guest. *)
Record throttler := mkThrottler {
  guest_unmasked_irq : bool; time_ : timespec; armed : bool; spacing : Z; poll_timer : timespec; sent : Z
}.
#[export] Instance throttler_settable : Settable throttler := fun r =>
  mkThrottler (guest_unmasked_irq r) (time_ r) (armed r) (spacing r) (poll_timer r) (sent r).

(** The outcome of [vfu_irq_trigger]: success, [ENOENT], another error. *)
Inductive irq_result := IrqOk | IrqNoEvent | IrqFail.

Definition send_interrupt (r : irq_result) (t : throttler) : result throttler :=
  match r with
  | IrqOk => Ok (t <| sent := sent t + 1 |>)
  | IrqNoEvent => Ok (t <| guest_unmasked_irq := false |>)
  | IrqFail => Abort
  end.

Definition poll_timer_cb (r : irq_result) (t : throttler) : result throttler :=
  t ← send_interrupt r t;
  Ok (t <| poll_timer := mkTime 0 0 |> <| armed := false |>).

(** The value returned is the outer [ret], which stays zero. *)
Definition processPollTimer (now : timespec) (r : irq_result) (t : throttler) : result (Z * throttler) :=
  let ret := 0 in
  if (tv_sec (poll_timer t) =? 0) && (tv_nsec (poll_timer t) =? 0) then Ok (ret, t)
  else if ts_before (poll_timer t) now then
    t ← poll_timer_cb r t;
    Ok (ret, t)
  else Ok (ret, t).

Definition defer_interrupt_abs_polling (ts : timespec) (t : throttler) : throttler := t <| poll_timer := ts |>.

Definition try_interrupt (curtime : timespec) (mindelay : Z) (t : throttler) : Z * throttler :=
  if negb (guest_unmasked_irq t) then (0, t)
  else
    let t := t <| spacing := mindelay |> in
    let newtime := mkTime (tv_sec curtime) (tv_nsec curtime + mindelay) in
    if armed t && ts_before (time_ t) newtime then (1339, t)
    else (0, defer_interrupt_abs_polling newtime (t <| armed := true |> <| time_ := newtime |>)).

(** [irq_state_cb] for one vector. *)
Definition set_mask (mask : bool) (t : throttler) : throttler := t <| guest_unmasked_irq := negb mask |>.

(** ** Deadlines *)

Definition SEC : Z := 1000000000.
Definition ns (t : timespec) : Z := SEC * tv_sec t + tv_nsec t.
Definition normal (t : timespec) : Prop := 0 <= tv_sec t ∧ 0 <= tv_nsec t < SEC.

(** A request: the time at which it is made and its delay, less than a second. *)
Definition req_ok (r : timespec * Z) : Prop := normal r.1 ∧ 0 < ns r.1 ∧ 0 <= r.2 < SEC.
Definition deadline (r : timespec * Z) : Z := ns r.1 + r.2.
Definition target (r : timespec * Z) : timespec := mkTime (tv_sec r.1) (tv_nsec r.1 + r.2).

(** The deadline is in the second of the request. *)
Definition same_second (r : timespec * Z) : Prop := tv_nsec r.1 + r.2 < SEC.

Definition requests (rs : list (timespec * Z)) (t : throttler) : throttler :=
  foldl (fun t r => (try_interrupt r.1 r.2 t).2) t rs.

Definition no_deadline (t : throttler) : Prop := armed t = false ∧ poll_timer t = mkTime 0 0.

Lemma ts_before_trans a b c : ts_before a b = true → ts_before b c = true → ts_before a c = true.
Proof.
  unfold ts_before. intros H1 H2.
  destruct (Z.ltb_spec (tv_sec b) (tv_sec a)); [done|]. destruct (Z.ltb_spec (tv_sec c) (tv_sec b)); [done|].
  apply orb_true_iff in H1, H2. rewrite !Z.ltb_lt in H1, H2.
  rewrite (proj2 (Z.ltb_ge (tv_sec c) (tv_sec a))) by lia. apply orb_true_iff. rewrite !Z.ltb_lt. lia.
Qed.

Lemma ts_before_not a b c : ts_before a b = false → ts_before a c = true → ts_before b c = true.
Proof.
  unfold ts_before. intros H1 H2. destruct (Z.ltb_spec (tv_sec c) (tv_sec a)); [done|].
  apply orb_true_iff in H2. rewrite !Z.ltb_lt in H2. destruct (Z.ltb_spec (tv_sec b) (tv_sec a)).
  - rewrite (proj2 (Z.ltb_ge _ _)), (proj2 (Z.ltb_lt _ _)) by lia. done.
  - apply orb_false_iff in H1 as [H1 H1']. apply Z.ltb_ge in H1, H1'.
    rewrite (proj2 (Z.ltb_ge _ _)) by lia. apply orb_true_iff. rewrite !Z.ltb_lt. lia.
Qed.

Lemma target_due r now : req_ok r → normal now → deadline r < ns now → ts_before (target r) now = true.
Proof.
  unfold deadline, ns, normal, SEC. intros ((H1 & H2) & _ & H3) (H4 & H5) Hlt. unfold ts_before, target. cbn.
  unfold normal, SEC in *. destruct (Z.ltb_spec (tv_sec now) (tv_sec r.1)); [lia|].
  apply orb_true_iff. rewrite !Z.ltb_lt. lia.
Qed.

Lemma target_early r now : req_ok r → same_second r → normal now → ns now <= deadline r → ts_before (target r) now = false.
Proof.
  unfold deadline, ns, normal, same_second, SEC. intros ((H1 & H2) & _ & H3) Hs (H4 & H5) Hle.
  unfold ts_before, target. cbn. unfold normal, SEC in *. destruct (Z.ltb_spec (tv_sec now) (tv_sec r.1)); [done|].
  apply orb_false_iff. rewrite !Z.ltb_ge. lia.
Qed.

Lemma ts_before_irrefl a : ts_before a a = false.
Proof. unfold ts_before. by rewrite !Z.ltb_irrefl. Qed.

(** The throttler after the requests [rs]: no target lies before the timer. *)
Definition earliest (rs : list (timespec * Z)) (t : throttler) : Prop :=
  guest_unmasked_irq t = true ∧ armed t = true ∧ poll_timer t = time_ t ∧
  (∃ r, r ∈ rs ∧ time_ t = target r) ∧ ∀ r, r ∈ rs → ts_before (target r) (time_ t) = false.

Lemma ts_before_asym a b : ts_before a b = true → ts_before b a = false.
Proof.
  intros H. destruct (ts_before b a) eqn:E; [|done]. pose proof (ts_before_trans _ _ _ H E) as Haa.
  by rewrite ts_before_irrefl in Haa.
Qed.

Lemma requests_earliest rs t : rs ≠ [] → guest_unmasked_irq t = true → no_deadline t → earliest rs (requests rs t) ∧
  sent (requests rs t) = sent t.
Proof.
  intros Hne Hu Hi. induction rs as [|r rs IH] using rev_ind; [done|]. unfold requests. rewrite foldl_snoc. fold (requests rs t).
  destruct (decide (rs = [])) as [->|Hrs].
  { destruct Hi as [Ha Hp]. cbn. unfold try_interrupt. rewrite Hu. cbn [negb]. cbn. rewrite Ha. cbn. split; [|done].
    unfold earliest. cbn. split_and!; try done.
    - exists r. split; [by apply list_elem_of_singleton|done].
    - intros r' ->%list_elem_of_singleton. apply ts_before_irrefl. }
  destruct (IH Hrs) as [(Hu' & Ha & Hp & (r0 & Hr0 & E0) & Hall) Hs]. clear IH.
  unfold try_interrupt. rewrite Hu'. cbn [negb]. cbn. rewrite Ha. cbn [andb].
  change (mkTime (tv_sec r.1) (tv_nsec r.1 + r.2)) with (target r).
  destruct (ts_before (time_ (requests rs t)) (target r)) eqn:Eb; cbn; (split; [|done]); unfold earliest; cbn; split_and!; try done.
  - exists r0. split; [apply elem_of_app; by left|done].
  - intros r' [Hr'| ->%list_elem_of_singleton]%elem_of_app; [by apply Hall|]. by apply ts_before_asym.
  - exists r. split; [apply elem_of_app; right; by apply list_elem_of_singleton|done].
  - intros r' [Hr'| ->%list_elem_of_singleton]%elem_of_app; [|apply ts_before_irrefl].
    destruct (ts_before (target r') (target r)) eqn:E; [|done].
    pose proof (ts_before_not _ _ _ (Hall r' Hr') E) as Ht. congruence.
Qed.

(** C17. Interrupts are not lost or late: whatever the requests since the last
    interrupt, the first poll after the deadline of any of them sends exactly one
    interrupt and disarms the timer.  If no deadline lies beyond the second of its
    request, a poll before every deadline sends nothing; otherwise the interrupt
    comes as soon as the next second begins. *)
Theorem irq_deadlines rs t now : rs ≠ [] → Forall req_ok rs → normal now → guest_unmasked_irq t = true → no_deadline t →
  let t' := requests rs t in
  let fired := t' <| sent := sent t + 1 |> <| poll_timer := mkTime 0 0 |> <| armed := false |> in
  ((∃ r, r ∈ rs ∧ deadline r < ns now) → processPollTimer now IrqOk t' = Ok (0, fired)) ∧
  (Forall same_second rs → (∀ r, r ∈ rs → ns now <= deadline r) → processPollTimer now IrqOk t' = Ok (0, t')) ∧
  (∀ r, rs = [r] → ¬ same_second r → tv_sec now = tv_sec r.1 + 1 → processPollTimer now IrqOk t' = Ok (0, fired)).
Proof.
  intros Hne Hok Hn Hu Hi t' fired. destruct (requests_earliest rs t Hne Hu Hi) as [(Hu' & Ha & Hp & (r0 & Hr0 & E0) & Hall) Hs].
  fold t' in Hu', Ha, Hp, E0, Hall, Hs. rewrite list.Forall_forall in Hok.
  assert ((tv_sec (poll_timer t') =? 0) && (tv_nsec (poll_timer t') =? 0) = false) as Hnz.
  { rewrite Hp, E0. destruct (Hok r0 Hr0) as ((? & ?) & H0 & ?). unfold ns, target, SEC in *. cbn.
    apply andb_false_iff. rewrite !Z.eqb_neq. lia. }
  assert (∀ b, ts_before (time_ t') now = b → processPollTimer now IrqOk t' = Ok (0, if b then fired else t')) as Hpoll.
  { intros b Hb. unfold processPollTimer. rewrite Hnz, Hp, Hb. destruct b; [|done].
    unfold fired. by rewrite <- Hs. }
  split_and!.
  - intros (r & Hr & Hlt). apply (Hpoll true). pose proof (target_due r now (Hok r Hr) Hn Hlt) as Hd.
    by apply (ts_before_not (target r)); [apply Hall|].
  - intros Hss Hle. apply (Hpoll false). rewrite E0. rewrite list.Forall_forall in Hss.
    apply target_early; auto.
  - intros r -> Hns Hsec. apply (Hpoll true). rewrite E0. apply list_elem_of_singleton in Hr0 as ->.
    unfold ts_before, target. cbn. rewrite (proj2 (Z.ltb_ge _ _)), (proj2 (Z.ltb_lt _ _)) by lia. done.
Qed.

Definition demo_throttler : throttler := mkThrottler true (mkTime 0 0) false 0 (mkTime 0 0) 0.

(** A request 1 ns before the end of a second, with a delay of 250 us: the
    interrupt is sent 1 ns later. *)
Lemma irq_deadlines_witness :
  let t' := requests [(mkTime 5 999999999, 250000)] demo_throttler in
  processPollTimer (mkTime 6 0) IrqOk t' =
  Ok (0, t' <| sent := 1 |> <| poll_timer := mkTime 0 0 |> <| armed := false |>).
Proof.
  apply (irq_deadlines [(mkTime 5 999999999, 250000)] demo_throttler (mkTime 6 0)) with (r := (mkTime 5 999999999, 250000));
    try done.
  by repeat constructor.
Defined.
