(* ===== verification/E810Irq.v ===== *)
(** * Interrupts of the E810 model

    From a queue to the guest: [lan_queue_base::interrupt] (e810_lan.cc) determines the
    vector and the throttling from registers of the guest, [e810_bm::SignalInterrupt]
    (e810_bm.cc) the delay, and [MsiXIssue] (nicbm.h) passes the request to the throttler of
    the vector ([VmuxIrq]). *)
From S2P Require Import Prelude Bytes E810Base VmuxIrq.
Local Open Scope Z_scope.

Definition NUM_MSIX_IRQs : Z := 16.

Definition QINT_TQCTL_MSIX_INDX_S : Z := 0.
Definition QINT_TQCTL_MSIX_INDX_M : Z := 0x7FF .<< 0.
Definition QINT_TQCTL_ITR_INDX_S : Z := 11.
Definition QINT_TQCTL_ITR_INDX_M : Z := 0x3 .<< 11.
Definition QINT_RQCTL_CAUSE_ENA_M : Z := 1 .<< 30.
Definition GLINT_DYN_CTL_INTENA_M : Z := 1 .<< 0.

(** The registers. *)
Record int_regs := mkIntRegs {
  pfint_dyn_ctln : list Z; glint_ceqctl : list Z; GLINT_ITR0 : list Z; GLINT_ITR1 : list Z; GLINT_ITR2 : list Z; pfint_icr0 : Z
}.
#[export] Instance int_regs_settable : Settable int_regs := fun r =>
  mkIntRegs (pfint_dyn_ctln r) (glint_ceqctl r) (GLINT_ITR0 r) (GLINT_ITR1 r) (GLINT_ITR2 r) (pfint_icr0 r).

(** The vector has 8 bits here. *)
Definition MsiXIssue (now : timespec) (vec mindelay : Z) (ts : list throttler) : result (list throttler) :=
  let vec := u8 vec in
  t ← of_opt (rd ts vec);
  of_opt (wr ts vec (try_interrupt now mindelay t).2).

Definition SignalInterrupt (now : timespec) (vec itr : Z) (regs : int_regs) (ts : list throttler) : result (list throttler) :=
  mindelay ← (if itr =? 0 then of_opt (rd (GLINT_ITR0 regs) vec)
              else if itr =? 1 then of_opt (rd (GLINT_ITR1 regs) vec)
              else if itr =? 2 then of_opt (rd (GLINT_ITR2 regs) vec)
              else if itr =? 3 then Ok 0
              else Abort);
  MsiXIssue now vec (u64 (mindelay * 2000)) ts.

(** The interrupt of a queue with the control register [reg_intqctl]. *)
Definition queue_interrupt (now : timespec) (reg_intqctl : Z) (regs : int_regs) (ts : list throttler) : result (int_regs * list throttler) :=
  let index := reg_intqctl .& QINT_TQCTL_MSIX_INDX_M in
  gctl ← of_opt (rd (pfint_dyn_ctln regs) index);
  let msix_idx := u16 ((reg_intqctl .& QINT_TQCTL_MSIX_INDX_M) .>> QINT_TQCTL_MSIX_INDX_S) in
  let msix0_idx := u8 ((reg_intqctl .& QINT_TQCTL_MSIX_INDX_M) .>> QINT_TQCTL_MSIX_INDX_S) in
  let cause_ena := nz (reg_intqctl .& QINT_RQCTL_CAUSE_ENA_M) && nz (gctl .& GLINT_DYN_CTL_INTENA_M) in
  if negb cause_ena then Ok (regs, ts)
  else
    let regs := if msix_idx =? 0 then regs <| pfint_icr0 := pfint_icr0 regs .| (1 .| (1 .<< (2 + msix0_idx))) |> else regs in
    let itr := u8 ((reg_intqctl .& QINT_TQCTL_ITR_INDX_M) .>> QINT_TQCTL_ITR_INDX_S) in
    ts ← SignalInterrupt now msix_idx itr regs ts;
    Ok (regs, ts).

(** ** Which vectors are served *)

Record regs_ok (regs : int_regs) : Prop := {
  dyn_len : Z.of_nat (length (pfint_dyn_ctln regs)) = 2047;
  ceqctl_len : Z.of_nat (length (glint_ceqctl regs)) = 2048;
  itr0_len : Z.of_nat (length (GLINT_ITR0 regs)) = 2048;
  itr1_len : Z.of_nat (length (GLINT_ITR1 regs)) = 2048;
  itr2_len : Z.of_nat (length (GLINT_ITR2 regs)) = 2048
}.

Lemma mask_bound x k n : 0 <= k → 0 <= n → 0 <= (x .& (Z.ones n .<< k)) .>> k < 2 ^ n.
Proof.
  intros Hk Hn. rewrite Z.shiftr_land, Z.shiftr_shiftl_l, Z.sub_diag, Z.shiftl_0_r, Z.land_ones by lia.
  apply Z.mod_pos_bound. lia.
Qed.

(** The delay of a vector in nanoseconds: the register counts in units of 2 us. *)
Definition delay (itr vec : Z) (regs : int_regs) : Z :=
  2000 * default 0 (if itr =? 0 then rd (GLINT_ITR0 regs) vec else if itr =? 1 then rd (GLINT_ITR1 regs) vec
                    else if itr =? 2 then rd (GLINT_ITR2 regs) vec else Some 0).

(** Registers of 32 bits. *)
Definition itrs_ok (regs : int_regs) : Prop :=
  Forall (in_width 32) (GLINT_ITR0 regs) ∧ Forall (in_width 32) (GLINT_ITR1 regs) ∧ Forall (in_width 32) (GLINT_ITR2 regs).

Lemma signal_interrupt_ok now vec itr regs ts : regs_ok regs → itrs_ok regs → 0 <= vec < 2048 → 0 <= itr < 4 → Z.of_nat (length ts) = NUM_MSIX_IRQs →
  SignalInterrupt now vec itr regs ts =
    if u8 vec <? NUM_MSIX_IRQs then Ok (alter (fun t => (try_interrupt now (delay itr vec regs) t).2) (Z.to_nat (u8 vec)) ts) else Undef.
Proof.
  intros [_ _ H0 H1 H2] (W0 & W1 & W2) Hv Hi Ht.
  assert (∀ l, Z.of_nat (length l) = 2048 → Forall (in_width 32) l → ∃ x, rd l vec = Some x ∧ in_width 32 x) as Hrd.
  { intros l Hl Hw. destruct (rd_in_range l vec ltac:(lia)) as [x Hx]. exists x. split; [done|]. by eapply rd_Forall. }
  assert (∀ d, in_width 32 d → MsiXIssue now vec (u64 (d * 2000)) ts =
    if u8 vec <? NUM_MSIX_IRQs then Ok (alter (fun t => (try_interrupt now (2000 * d) t).2) (Z.to_nat (u8 vec)) ts) else Undef) as Hm.
  { intros d Hd. unfold in_width in Hd. unfold MsiXIssue. cbv zeta. rewrite (wrap_small 64) by (unfold in_width; lia). pose proof (wrap_width 8 vec ltac:(lia)) as Hu. unfold in_width in Hu.
    destruct (Z.ltb_spec (u8 vec) NUM_MSIX_IRQs) as [Hlt|Hge].
    - destruct (rd_in_range ts (u8 vec) ltac:(lia)) as [t Et]. rewrite Et. cbn [of_opt mbind result_bind]. rewrite wr_in_range by lia. cbn [of_opt].
      unfold rd in Et. rewrite (proj2 (Z.leb_le _ _)) in Et by lia. f_equal. rewrite (Z.mul_comm d). apply list_eq. intros i. destruct (decide (i = Z.to_nat (u8 vec))) as [->|].
      + rewrite list_lookup_insert_eq, list_lookup_alter_eq, Et by lia. done.
      + by rewrite list_lookup_insert_ne, list_lookup_alter_ne.
    - unfold rd. rewrite (proj2 (Z.leb_le _ _)) by lia. rewrite lookup_ge_None_2 by lia. done. }
  unfold SignalInterrupt, delay. destruct (Hrd _ H0 W0) as (x0 & E0 & ?), (Hrd _ H1 W1) as (x1 & E1 & ?), (Hrd _ H2 W2) as (x2 & E2 & ?).
  rewrite E0, E1, E2. assert (itr = 0 ∨ itr = 1 ∨ itr = 2 ∨ itr = 3) as [-> | [-> | [-> | ->]]] by lia; cbn [Z.eqb]; cbn -[u64 MsiXIssue Z.mul alter try_interrupt u8]; by apply Hm.
Qed.

(** The vector and the throttling register that a queue names. *)
Definition vector (qctl : Z) : Z := qctl .& 0x7FF.
Definition itr_of (qctl : Z) : Z := (qctl .& (0x3 .<< 11)) .>> 11.
Definition enabled (qctl : Z) (regs : int_regs) : bool :=
  Z.testbit qctl 30 && Z.testbit (default 0 (rd (pfint_dyn_ctln regs) (vector qctl))) 0.

(** C24. The interrupt of a queue is requested from the throttler of the vector that the guest
    wrote to the register of the queue, with the delay of the register that it chose, if the
    interrupt is enabled.  vMux has 16 throttlers and takes the vector modulo 256:
    other vectors lead to an access outside their array, and vector 2047 to one outside the
    registers. *)
Theorem queue_interrupt_spec now qctl regs ts : regs_ok regs → itrs_ok regs → 0 <= qctl → Z.of_nat (length ts) = NUM_MSIX_IRQs →
  queue_interrupt now qctl regs ts =
    if vector qctl =? 2047 then Undef
    else if negb (enabled qctl regs) then Ok (regs, ts)
    else if u8 (vector qctl) <? NUM_MSIX_IRQs then
      Ok (if vector qctl =? 0 then regs <| pfint_icr0 := pfint_icr0 regs .| 5 |> else regs,
          alter (fun t => (try_interrupt now (delay (itr_of qctl) (vector qctl) regs) t).2) (Z.to_nat (u8 (vector qctl))) ts)
    else Undef.
Proof.
  intros Hr Hi Hq Ht. assert (0 <= vector qctl < 2048) as Hv by (pose proof (mask_bound qctl 0 11 ltac:(lia) ltac:(lia)) as Hm; by rewrite Z.shiftl_0_r, Z.shiftr_0_r in Hm).
  assert (0 <= itr_of qctl < 4) as Hit by (apply (mask_bound qctl 11 2); lia).
  unfold queue_interrupt. cbv zeta. change QINT_TQCTL_MSIX_INDX_S with 0. rewrite Z.shiftr_0_r. change (qctl .& QINT_TQCTL_MSIX_INDX_M) with (vector qctl).
  change ((qctl .& QINT_TQCTL_ITR_INDX_M) .>> QINT_TQCTL_ITR_INDX_S) with (itr_of qctl).
  rewrite (wrap_small 16 (vector qctl)), (wrap_small 8 (itr_of qctl)) by (unfold in_width; lia).
  destruct (Z.eqb_spec (vector qctl) 2047) as [E|Hne].
  { unfold rd. rewrite (proj2 (Z.leb_le _ _)), lookup_ge_None_2 by (pose proof (dyn_len _ Hr); lia). done. }
  destruct (rd_in_range (pfint_dyn_ctln regs) (vector qctl)) as [g Eg]; [pose proof (dyn_len _ Hr); lia|]. unfold enabled. rewrite Eg. cbn [of_opt mbind result_bind default].
  assert (nz (qctl .& QINT_RQCTL_CAUSE_ENA_M) = Z.testbit qctl 30 ∧ nz (g .& GLINT_DYN_CTL_INTENA_M) = Z.testbit g 0) as [-> ->].
  { unfold QINT_RQCTL_CAUSE_ENA_M, GLINT_DYN_CTL_INTENA_M. rewrite !Z.shiftl_1_l. split; by apply nz_bit. }
  destruct (_ && _); cbn [negb]; [|done].
  destruct (Z.eqb_spec (vector qctl) 0) as [E|].
  - rewrite E. change (u8 0) with 0. rewrite (signal_interrupt_ok now 0); [done|by destruct Hr|done|lia|lia|done].
  - rewrite signal_interrupt_ok by done. by destruct (_ <? _).
Qed.

Definition demo_regs : int_regs := mkIntRegs (replicate 2047 1) (replicate 2048 (2 ^ 30 + 3)) (replicate 2048 25) (replicate 2048 50) (replicate 2048 100) 0.
Definition demo_throttlers : list throttler := replicate 16 (mkThrottler true (mkTime 0 0) false 0 (mkTime 0 0) 0).

Lemma demo_regs_ok : regs_ok demo_regs.
Proof. by split. Qed.

Lemma demo_itrs_ok : itrs_ok demo_regs.
Proof. repeat split; apply Forall_replicate; done. Qed.

(** Vector 3 with the second register: the deadline is 50 units of 2 us ahead.  Vector 20 has
    no throttler. *)
Lemma queue_interrupt_spec_witness :
  (∃ ts, queue_interrupt (mkTime 7 1000) (2 ^ 30 + 2 ^ 11 + 3) demo_regs demo_throttlers = Ok (demo_regs, ts) ∧
    poll_timer <$> ts !! 3%nat = Some (mkTime 7 101000)) ∧
  queue_interrupt (mkTime 7 1000) (2 ^ 30 + 20) demo_regs demo_throttlers = Undef.
Proof.
  pose proof (fun q H => queue_interrupt_spec (mkTime 7 1000) q demo_regs demo_throttlers demo_regs_ok demo_itrs_ok H eq_refl) as Hq.
  split; [eexists; split; [rewrite Hq by lia; vm_compute; reflexivity|vm_compute; reflexivity]|].
  rewrite Hq by lia. vm_compute. reflexivity.
Defined.
