(* ===== verification/E810Cqp.v ===== *)
(** * The control queue of the RDMA engine

    [control_queue_pair] (e810_cqp.cc), its registers (the [PFPE] cases of
    [e810_bm::reg_mem_write32]), and the completion event queues
    ([completion_event_manager] and [completion_event_queue], e810_ceq.cc).  Transfers are
    those of [VmuxDma], which complete at once, interrupts those of [E810Irq].

    Memory that the code does not initialise has the contents found there, which are
    arguments: [found] of type [cqp_uninit]. *)
From S2P Require Import Prelude Bytes E810Base VmuxDma VmuxIrq E810Irq.
Local Open Scope Z_scope.

(** ** Bit fields (base_linux/defs.h) *)

Definition BITS_PER_LONG : Z := 32.
Definition BITS_PER_LONG_LONG : Z := 64.

(** [unsigned long] and [unsigned long long] both have 64 bits. *)
Definition GENMASK (h l : Z) : Z := u64 (u64 (-1) - u64 (1 .<< l) + 1) .& (u64 (-1) .>> (BITS_PER_LONG - 1 - h)).
Definition GENMASK_ULL (h l : Z) : Z := u64 (u64 (-1) - u64 (1 .<< l) + 1) .& (u64 (-1) .>> (BITS_PER_LONG_LONG - 1 - h)).
Definition BIT_UL (nr : Z) : Z := u64 (1 .<< nr).

(** [__builtin_ffsll(x) - 1]: the lowest bit that is set, [-1] if there is none. *)
Definition bf_shf (x : Z) : Z := if x =? 0 then -1 else Z.log2 (x .& - x).

Definition FIELD_GET (mask reg : Z) : Z := (reg .& mask) .>> bf_shf mask.
Definition FIELD_PREP (mask val : Z) : Z := u64 (u64 val .<< bf_shf mask) .& mask.

Definition IRDMA_GLINT_CEQCTL_ITR_INDX : Z := GENMASK 12 11.
Definition IRDMA_GLINT_CEQCTL_CAUSE_ENA : Z := BIT_UL 30.
Definition IRDMA_GLINT_CEQCTL_MSIX_INDX : Z := GENMASK 10 0.
Definition IRDMA_CQ_WQEIDX : Z := GENMASK_ULL 46 32.
Definition IRDMA_CQ_VALID : Z := BIT_UL 63.
Definition IRDMA_CQPSQ_OPCODE : Z := GENMASK_ULL 37 32.
Definition IRDMA_CQPSQ_WQEVALID : Z := BIT_UL 63.
Definition IRDMA_CQPSQ_CEQ_CEQID : Z := GENMASK_ULL 9 0.
Definition IRDMA_FEATURE_CNT : Z := GENMASK_ULL 47 32.
Definition IRDMA_QUERY_FPM_MAX_QPS : Z := GENMASK_ULL 18 0.
Definition IRDMA_QUERY_FPM_MAX_CQS : Z := GENMASK_ULL 19 0.
Definition IRDMA_QUERY_FPM_MAX_PE_SDS : Z := GENMASK_ULL 45 32.
Definition IRDMA_QUERY_FPM_MAX_CEQS : Z := GENMASK_ULL 9 0.
Definition IRDMA_QUERY_FPM_XFBLOCKSIZE : Z := GENMASK_ULL 63 32.
Definition IRDMA_QUERY_FPM_Q1BLOCKSIZE : Z := GENMASK_ULL 63 32.
Definition IRDMA_QUERY_FPM_OOISCFBLOCKSIZE : Z := GENMASK_ULL 63 32.

Definition IRDMA_CQP_OP_CREATE_QP : Z := 0.
Definition IRDMA_CQP_OP_MODIFY_QP : Z := 0x1.
Definition IRDMA_CQP_OP_CREATE_CQ : Z := 0x03.
Definition IRDMA_CQP_OP_QUERY_RDMA_FEATURES : Z := 0x12.
Definition IRDMA_CQP_OP_CREATE_CEQ : Z := 0x16.
Definition IRDMA_CQP_OP_CREATE_AEQ : Z := 0x19.
Definition IRDMA_CQP_OP_QUERY_FPM_VAL : Z := 0x20.
Definition IRDMA_CQP_OP_SHMC_PAGES_ALLOCATED : Z := 0x2b.
Definition IRDMA_CQP_OP_WORK_SCHED_NODE : Z := 0x2c.
Definition IRDMA_CQP_OP_GATHER_STATS : Z := 0x2e.

(** Arrays of 64-bit words in the byte order of the host. *)
Definition get_64bit_val (words : list Z) (byte_index : Z) : result Z := of_opt (rd words (byte_index .>> 3)).
Definition set_64bit_val (words : list Z) (byte_index val : Z) : result (list Z) := of_opt (wr words (byte_index .>> 3) (u64 val)).

Fixpoint words_of (n : nat) (bs : list Z) : list Z :=
  match n with O => [] | S n' => le (take 8 bs) :: words_of n' (drop 8 bs) end.
Definition bytes_of (ws : list Z) : list Z := concat (le_bytes 8 <$> ws).

(** ** State *)

Record completion_event_queue := mkCeq { ceq_enabled : bool; ceq_base : Z; ceq_id : Z }.
#[export] Instance ceq_settable : Settable completion_event_queue := fun r => mkCeq (ceq_enabled r) (ceq_base r) (ceq_id r).

(** [cqp_base] and [cnt] are those of the only descriptor context in use. *)
Record control_queue_pair := mkCqp {
  base : Z; len : Z; cqp_enabled : bool; cqp_ctx : list Z; cqe_base : Z; host_cq_pa : Z; cqp_base : Z; cnt : Z
}.
#[export] Instance cqp_settable : Settable control_queue_pair := fun r =>
  mkCqp (base r) (len r) (cqp_enabled r) (cqp_ctx r) (cqe_base r) (host_cq_pa r) (cqp_base r) (cnt r).

Record pfpe_regs := mkPfpe {
  reg_PFPE_CCQPHIGH : Z; reg_PFPE_CCQPLOW : Z; reg_PFPE_CQPTAIL : Z; reg_PFPE_CQPDB : Z; reg_PFPE_CCQPSTATUS : Z
}.
#[export] Instance pfpe_settable : Settable pfpe_regs := fun r =>
  mkPfpe (reg_PFPE_CCQPHIGH r) (reg_PFPE_CCQPLOW r) (reg_PFPE_CQPTAIL r) (reg_PFPE_CQPDB r) (reg_PFPE_CCQPSTATUS r).

Record rdma := mkRdma {
  cqp : control_queue_pair; pfpe : pfpe_regs; ceqs : list completion_event_queue; ints : int_regs; irqs : list throttler; mem : memory
}.
#[export] Instance rdma_settable : Settable rdma := fun r => mkRdma (cqp r) (pfpe r) (ceqs r) (ints r) (irqs r) (mem r).

(** What is found in memory that is not initialised: the direction and the buffer of the
    transfer that fetches the context, and the words of the completion on the stack. *)
Record cqp_uninit := mkUninit { write_ : bool; data_ : list Z; stack : list Z }.

(** ** Completion event queues *)

Definition ceq_enable (q : completion_event_queue) : completion_event_queue :=
  if negb (ceq_enabled q) then q else q <| ceq_enabled := true |>.

Definition ceq_tail_updated (now : timespec) (msix_idx itr_idx : Z) (s : rdma) : result rdma :=
  ts ← SignalInterrupt now (u16 msix_idx) (u8 itr_idx) (ints s) (irqs s);
  Ok (s <| irqs := ts |>).

Definition qena_updated (now : timespec) (idx : Z) (s : rdma) : result rdma :=
  let idx := u16 idx in
  int_dyn_reg ← of_opt (rd (pfint_dyn_ctln (ints s)) idx);
  int_ctl_reg ← of_opt (rd (glint_ceqctl (ints s)) idx);
  let msix_idx := 0x7ff .& u32 (FIELD_GET IRDMA_GLINT_CEQCTL_MSIX_INDX int_ctl_reg) in
  let itr_index := 0x3 .& u32 (FIELD_GET IRDMA_GLINT_CEQCTL_ITR_INDX int_ctl_reg) in
  let dyn_ena := nz (0x1 .& int_dyn_reg) in
  let cause_ena := nz (FIELD_GET IRDMA_GLINT_CEQCTL_CAUSE_ENA int_ctl_reg) in
  ceq ← of_opt (rd (ceqs s) idx);
  if negb cause_ena || negb dyn_ena then Ok s
  else if negb (ceq_enabled ceq) then
    qs ← of_opt (wr (ceqs s) idx (ceq_enable ceq));
    ceq_tail_updated now msix_idx itr_index (s <| ceqs := qs |>)
  else
    let s := if msix_idx =? 0 then s <| ints ::= fun r => r <| pfint_icr0 ::= fun v => v .| (1 .| (1 .<< (2 + 0))) |> |> else s in
    ceq_tail_updated now msix_idx itr_index s.

(** ** Work queue entries *)

Section control_queue.
  (** The regions of the guest and the current time. *)
  Context (ms : mappings) (now : timespec).

Definition data_write (addr : Z) (buf : list Z) (s : rdma) : result rdma :=
  r ← IssueDma ms (DmaWrite addr buf) (mem s);
  Ok (s <| mem := r.1 |>).

Definition cqp_complete_indir (data : list Z) (buf_addr : Z) (s : rdma) : result rdma :=
  data_write buf_addr (bytes_of data) s.

(** The address of the next completion: [cqp_base + 32*cnt]. *)
Definition return_shadow_buf_addr (q : control_queue_pair) : Z := u64 (cqp_base q + u32 (32 * cnt q)).

Definition cqe_word (tail polarity : Z) : Z := FIELD_PREP IRDMA_CQ_WQEIDX tail .| FIELD_PREP IRDMA_CQ_VALID polarity.

(** The completion of an entry in the array [buffer]. *)
Definition complete_in (buffer : list Z) (polarity : Z) (s : rdma) : result rdma :=
  b ← set_64bit_val buffer 8 (host_cq_pa (cqp s));
  b ← set_64bit_val b 24 (cqe_word (reg_PFPE_CQPTAIL (pfpe s)) polarity);
  cqp_complete_indir b (return_shadow_buf_addr (cqp s)) s.

Definition count (s : rdma) : rdma := s <| cqp ::= fun q => q <| cnt := u32 (cnt q + 1) |> |>.

Definition query_fpm_buffer : result (list Z) :=
  let b := replicate 22 0 in
  b ← set_64bit_val b 0 (FIELD_PREP IRDMA_QUERY_FPM_MAX_PE_SDS 4096);
  b ← set_64bit_val b 8 ((1 .<< 32) .| FIELD_PREP IRDMA_QUERY_FPM_MAX_QPS 0x00040000);
  b ← set_64bit_val b 16 ((1 .<< 32) .| FIELD_PREP IRDMA_QUERY_FPM_MAX_CQS 0x00080000);
  b ← set_64bit_val b 64 (FIELD_PREP IRDMA_QUERY_FPM_XFBLOCKSIZE 64);
  b ← set_64bit_val b 72 0x00040000;
  b ← set_64bit_val b 80 (FIELD_PREP IRDMA_QUERY_FPM_Q1BLOCKSIZE 64);
  b ← set_64bit_val b 112 0x10000000;
  b ← set_64bit_val b 120 (FIELD_PREP IRDMA_QUERY_FPM_MAX_CEQS 768);
  b ← set_64bit_val b 136 (FIELD_PREP IRDMA_QUERY_FPM_Q1BLOCKSIZE 64);
  set_64bit_val b 168 (FIELD_PREP IRDMA_QUERY_FPM_OOISCFBLOCKSIZE 64 .| 1).

Definition op_query_fpm (desc : list Z) (s : rdma) : result rdma :=
  b ← query_fpm_buffer;
  query_buf_addr ← get_64bit_val desc 32;
  cqp_complete_indir b query_buf_addr s.

Definition op_create_cq (desc : list Z) (s : rdma) : result rdma :=
  shadow_buf_addr ← get_64bit_val desc 32;
  temp ← get_64bit_val desc 24;
  let cq_id := u32 (temp .& 0x3ffff) in
  let s := if 0 <? cq_id then s else s <| cqp ::= fun q => q <| cqp_base := shadow_buf_addr |> <| cnt := 0 |> |> in
  let polarity := u8 (FIELD_GET IRDMA_CQPSQ_WQEVALID temp) in
  let ceq_id := u32 (FIELD_GET IRDMA_CQPSQ_CEQ_CEQID temp) in
  s ← complete_in (replicate 4 0) polarity s;
  s ← (if 1 <? cq_id then qena_updated now ceq_id s else Ok s);
  Ok (count s).

Definition op_query_features (found : cqp_uninit) (desc : list Z) (s : rdma) : result rdma :=
  shadow_buf_addr ← get_64bit_val desc 32;
  b ← set_64bit_val (replicate 4 0) 0 (FIELD_PREP IRDMA_FEATURE_CNT 26);
  s ← cqp_complete_indir b shadow_buf_addr s;
  s ← complete_in (stack found) 1 s;
  Ok (count s).

Definition op_create_ceq (found : cqp_uninit) (desc : list Z) (s : rdma) : result rdma :=
  base ← get_64bit_val desc 32;
  b ← set_64bit_val (replicate 4 0) 0 0;
  s ← cqp_complete_indir b base s;
  temp ← get_64bit_val desc 24;
  let id := u32 (FIELD_GET IRDMA_CQPSQ_CEQ_CEQID temp) in
  s ← complete_in (stack found) 1 s;
  s ← qena_updated now id s;
  ceq ← of_opt (rd (ceqs s) id);
  qs ← of_opt (wr (ceqs s) id (ceq <| ceq_base := base |> <| ceq_id := id |>));
  Ok (count (s <| ceqs := qs |>)).

Definition op_create_aeq (found : cqp_uninit) (desc : list Z) (s : rdma) : result rdma :=
  aeq_base ← get_64bit_val desc 32;
  s ← cqp_complete_indir (replicate 4 0) aeq_base s;
  s ← complete_in (stack found) 1 s;
  Ok (count s).

Definition op_gather_stats (found : cqp_uninit) (s : rdma) : result rdma :=
  s ← complete_in (stack found) 1 s;
  Ok (count s).

(** [CREATE_QP], [WORK_SCHED_NODE] and [MODIFY_QP]. *)
Definition op_qp (found : cqp_uninit) (desc : list Z) (s : rdma) : result rdma :=
  temp ← get_64bit_val desc 24;
  let ceq_id := u32 (FIELD_GET IRDMA_CQPSQ_CEQ_CEQID temp) in
  s ← complete_in (stack found) 1 s;
  s ← qena_updated now ceq_id s;
  Ok (count s).

Definition cqp_process (found : cqp_uninit) (desc : list Z) (s : rdma) : result rdma :=
  temp ← get_64bit_val desc 24;
  let opcode := u16 (FIELD_GET IRDMA_CQPSQ_OPCODE temp) in
  s ← (if opcode =? IRDMA_CQP_OP_QUERY_FPM_VAL then op_query_fpm desc s
       else if opcode =? IRDMA_CQP_OP_SHMC_PAGES_ALLOCATED then Ok s
       else if opcode =? IRDMA_CQP_OP_CREATE_CQ then op_create_cq desc s
       else if opcode =? IRDMA_CQP_OP_QUERY_RDMA_FEATURES then op_query_features found desc s
       else if opcode =? IRDMA_CQP_OP_CREATE_CEQ then op_create_ceq found desc s
       else if opcode =? IRDMA_CQP_OP_CREATE_AEQ then op_create_aeq found desc s
       else if opcode =? IRDMA_CQP_OP_GATHER_STATS then op_gather_stats found s
       else if opcode =? IRDMA_CQP_OP_CREATE_QP then op_qp found desc s
       else if opcode =? IRDMA_CQP_OP_WORK_SCHED_NODE then op_qp found desc s
       else if opcode =? IRDMA_CQP_OP_MODIFY_QP then op_qp found desc s
       else Ok s);
  Ok (s <| pfpe ::= fun r => r <| reg_PFPE_CQPTAIL := u32 (reg_PFPE_CQPTAIL r + 1) |> |>).

Definition cqp_trigger_fetch (found : cqp_uninit) (s : rdma) : result rdma :=
  if negb (cqp_enabled (cqp s)) then Ok s
  else
    r ← IssueDma ms (DmaRead (u64 (cqe_base (cqp s) + u32 (reg_PFPE_CQPTAIL (pfpe s) * 64))) 64) (mem s);
    cqp_process found (words_of 8 r.2) (s <| mem := r.1 |>).

(** ** Registers *)

Definition cqp_ctx_fetched (q : control_queue_pair) : result control_queue_pair :=
  sq_pa ← get_64bit_val (cqp_ctx q) 8;
  let q := q <| cqe_base := sq_pa |> <| len := 64 |> in
  pa ← get_64bit_val (cqp_ctx q) 24;
  Ok (q <| host_cq_pa := pa |>).

Definition create_cqp (found : cqp_uninit) (s : rdma) : result rdma :=
  let high := reg_PFPE_CCQPHIGH (pfpe s) in
  let low := reg_PFPE_CCQPLOW (pfpe s) in
  if (high =? 0) && (low =? 0) then Ok s
  else
    let s := s <| cqp ::= fun q => q <| base := u64 (high .<< 32) .| low |> <| len := 64 |> |> in
    if negb (cqp_enabled (cqp s)) then
      r ← IssueDma ms (if write_ found then DmaWrite (base (cqp s)) (data_ found) else DmaRead (base (cqp s)) 64) (mem s);
      q ← cqp_ctx_fetched ((cqp s) <| cqp_ctx := words_of 8 (if write_ found then data_ found else r.2) |>);
      Ok (s <| mem := r.1 |> <| cqp := (q <| cqp_enabled := true |>) |>
            <| pfpe ::= fun r => r <| reg_PFPE_CQPTAIL := 0 |> <| reg_PFPE_CCQPSTATUS := if low =? 0 then 1 .<< 31 else 1 |> |>)
    else Ok s.

Definition cqp_reg_updated (found : cqp_uninit) (s : rdma) : result rdma :=
  if cqp_enabled (cqp s) then cqp_trigger_fetch found s else Ok s.

Definition PFPE_CQPTAIL : Z := 0x00500880.
Definition PFPE_CQPDB : Z := 0x00500800.
Definition PFPE_CCQPSTATUS : Z := 0x0050a000.
Definition PFPE_CCQPHIGH : Z := 0x0050a100.
Definition PFPE_CCQPLOW : Z := 0x0050a080.

(** The other addresses are no registers of this component. *)
Definition pfpe_write (found : cqp_uninit) (addr val : Z) (s : rdma) : result rdma :=
  if addr =? PFPE_CCQPSTATUS then Ok (s <| pfpe ::= fun r => r <| reg_PFPE_CCQPSTATUS := val |> |>)
  else if addr =? PFPE_CQPDB then
    let s := s <| pfpe ::= fun r => r <| reg_PFPE_CQPDB := val |> |> in
    if val =? 0 then Ok s
    else if reg_PFPE_CQPTAIL (pfpe s) <? (0x3ff .& val) then cqp_reg_updated found s
    else Ok s
  else if addr =? PFPE_CCQPHIGH then Ok (s <| pfpe ::= fun r => r <| reg_PFPE_CCQPHIGH := val |> |>)
  else if addr =? PFPE_CCQPLOW then create_cqp found (s <| pfpe ::= fun r => r <| reg_PFPE_CCQPLOW := val |> |>)
  else if addr =? PFPE_CQPTAIL then Ok (s <| pfpe ::= fun r => r <| reg_PFPE_CQPTAIL := val |> |>)
  else Ok s.
End control_queue.

(** The part of [e810_bm::reset] that concerns these registers: [memset(&regs, 0, sizeof(regs))].
    The control queue is not among what it resets. *)
Definition reset_regs (s : rdma) : rdma :=
  s <| pfpe := mkPfpe 0 0 0 0 0 |>
    <| ints := mkIntRegs (replicate 2047 0) (replicate 2048 0) (replicate 2048 0) (replicate 2048 0) (replicate 2048 0) 0 |>.
