(* ===== verification/E810CqpSpec.v ===== *)
(** * What the control queue of the RDMA engine does

    A doorbell processes one entry of the work queue; the entry is answered with a
    completion at the next place of the completion queue, or not at all. *)
From S2P Require Import Prelude Bytes E810Base VmuxDma VmuxIrq E810Irq E810Cqp.
Local Open Scope Z_scope.

(** ** Bit fields *)

Lemma field_get m k n x : 0 <= k → 0 <= n → m = Z.ones n .<< k → bf_shf m = k → FIELD_GET m x = slice x k n.
Proof.
  intros Hk Hn -> Es. unfold FIELD_GET, slice, wrap. rewrite Es.
  by rewrite Z.shiftr_land, Z.shiftr_shiftl_l, Z.sub_diag, Z.shiftl_0_r, Z.land_ones by lia.
Qed.

Lemma field_prep m k n v : 0 <= k → 0 <= n → k + n <= 64 → in_width 64 v → m = Z.ones n .<< k → bf_shf m = k →
  FIELD_PREP m v = 2 ^ k * slice v 0 n.
Proof.
  intros Hk Hn Hw Hv -> Es. unfold FIELD_PREP. rewrite Es, (wrap_small 64 v) by done. rewrite Z.mul_comm, <- Z.shiftl_mul_pow2 by lia.
  apply Z.bits_inj'. intros i Hi. rewrite Z.land_spec, testbit_wrap, !Z.shiftl_spec by lia.
  destruct (Z.ltb_spec i k).
  - rewrite !(Z.testbit_neg_r _ (i - k)) by lia. by rewrite !andb_false_r.
  - rewrite slice_bit, Z.testbit_ones_nonneg by lia. rewrite Z.add_0_l. destruct (Z.ltb_spec (i - k) n), (Z.ltb_spec i 64); try lia; cbn; by rewrite ?andb_true_r, ?andb_false_r.
Qed.

(** [GENMASK] does not mask as its name says, since [BITS_PER_LONG] is 32 and a [long] has 64
    bits. *)
Lemma genmask_wide : IRDMA_GLINT_CEQCTL_MSIX_INDX = Z.ones 43 ∧ IRDMA_GLINT_CEQCTL_ITR_INDX = Z.ones 34 .<< 11.
Proof. done. Qed.

Lemma ceqctl_vector x : in_width 32 x → 0x7ff .& u32 (FIELD_GET IRDMA_GLINT_CEQCTL_MSIX_INDX x) = slice x 0 11.
Proof.
  intros Hx. rewrite (field_get _ 0 43) by done. rewrite Z.land_comm, (land_ones_slice _ 11) by done.
  change (u32 (slice x 0 43)) with (wrap 32 (slice x 0 43)). rewrite <- (Z.shiftr_0_r (slice x 0 43)) at 1. fold (slice (slice x 0 43) 0 32).
  by rewrite !slice_slice by lia.
Qed.

Lemma ceqctl_itr x : in_width 32 x → 0x3 .& u32 (FIELD_GET IRDMA_GLINT_CEQCTL_ITR_INDX x) = slice x 11 2.
Proof.
  intros Hx. rewrite (field_get _ 11 34) by done. rewrite Z.land_comm, (land_ones_slice _ 2) by done.
  change (u32 (slice x 11 34)) with (wrap 32 (slice x 11 34)). rewrite <- (Z.shiftr_0_r (slice x 11 34)). fold (slice (slice x 11 34) 0 32).
  by rewrite !slice_slice by lia.
Qed.

Lemma cqe_word_spec tail pol : in_width 32 tail → pol = 0 ∨ pol = 1 →
  cqe_word tail pol = 2 ^ 63 * pol + 2 ^ 32 * slice tail 0 15.
Proof.
  intros Ht Hp. unfold cqe_word. unfold in_width in Ht. rewrite (field_prep IRDMA_CQ_WQEIDX 32 15), (field_prep IRDMA_CQ_VALID 63 1) by (done || (unfold in_width; lia)).
  pose proof (slice_width tail 0 15 ltac:(lia)) as Hs. unfold in_width in Hs.
  replace (slice pol 0 1) with pol by (by destruct Hp as [-> | ->]).
  rewrite Z.lor_comm, (Z.mul_comm (2 ^ 63)), <- (Z.shiftl_mul_pow2 pol) by lia. rewrite lor_shift_add by (unfold in_width; lia). rewrite Z.shiftl_mul_pow2 by lia. lia.
Qed.

(** ** Words and bytes *)

Lemma le_bytes_wrap n x : le_bytes n (wrap (8 * Z.of_nat n) x) = le_bytes n x.
Proof. rewrite <- le_le_bytes. apply le_bytes_le; [apply le_bytes_ok|apply length_le_bytes]. Qed.

Lemma le_bytes_u64 x : le_bytes 8 (u64 x) = le_bytes 8 x.
Proof. exact (le_bytes_wrap 8 x). Qed.

Lemma length_bytes_of ws : length (bytes_of ws) = (8 * length ws)%nat.
Proof.
  induction ws as [|w ws IH]; [done|]. unfold bytes_of in *. cbn [fmap list_fmap concat length]. rewrite length_app, length_le_bytes. cbn [fmap] in IH. lia.
Qed.

(** ** The state *)

Record rdma_ok (s : rdma) : Prop := {
  ok_regs : regs_ok (ints s);
  ok_itrs : itrs_ok (ints s);
  ok_ctl : Forall (in_width 32) (glint_ceqctl (ints s));
  ok_irqs : Z.of_nat (length (irqs s)) = NUM_MSIX_IRQs;
  ok_ceqs : Z.of_nat (length (ceqs s)) = NUM_QUEUES;
  ok_off : Forall (fun q => ceq_enabled q = false) (ceqs s);
  ok_tail : in_width 32 (reg_PFPE_CQPTAIL (pfpe s))
}.

(** The interrupt of event queue [id]. *)
Definition ceqctl (id : Z) (s : rdma) : Z := default 0 (rd (glint_ceqctl (ints s)) id).
Definition ceq_active (id : Z) (s : rdma) : bool :=
  Z.testbit (ceqctl id s) 30 && Z.testbit (default 0 (rd (pfint_dyn_ctln (ints s)) id)) 0.
Definition ceq_vector (id : Z) (s : rdma) : Z := slice (ceqctl id s) 0 11.
Definition ceq_raise (now : timespec) (id : Z) (s : rdma) : rdma :=
  if ceq_active id s then
    s <| irqs ::= alter (fun t => (try_interrupt now (delay (slice (ceqctl id s) 11 2) (ceq_vector id s) (ints s)) t).2) (Z.to_nat (u8 (ceq_vector id s))) |>
  else s.
Definition ceq_served (id : Z) (s : rdma) : Prop := ceq_active id s = true → u8 (ceq_vector id s) < NUM_MSIX_IRQs.

Lemma cause_ena_bit x : in_width 32 x → nz (FIELD_GET IRDMA_GLINT_CEQCTL_CAUSE_ENA x) = Z.testbit x 30.
Proof.
  intros Hx. rewrite (field_get _ 30 1) by done. unfold slice, wrap.
  rewrite <- Z.land_ones by lia. change (Z.ones 1) with (2 ^ 0). rewrite nz_bit by lia. by rewrite Z.shiftr_spec by lia.
Qed.

Lemma qena_updated_spec now id s : rdma_ok s → 0 <= id < 1024 → ceq_served id s → qena_updated now id s = Ok (ceq_raise now id s).
Proof.
  intros [Hr Hi Hc Ht Hq Ho _] Hid Hs. unfold qena_updated. cbv zeta. rewrite (wrap_small 16 id) by (unfold in_width; lia).
  destruct (rd_in_range (pfint_dyn_ctln (ints s)) id) as [dyn Ed]; [pose proof (dyn_len _ Hr); lia|].
  destruct (rd_in_range (glint_ceqctl (ints s)) id) as [ctl Ec]; [pose proof (ceqctl_len _ Hr); lia|].
  destruct (rd_in_range (ceqs s) id) as [q Eq]; [unfold NUM_QUEUES in Hq; lia|].
  pose proof (rd_Forall _ _ _ _ Hc Ec) as Hw. pose proof (rd_Forall _ _ _ _ Ho Eq) as Hoff. cbn in Hoff.
  unfold ceq_served, ceq_raise, ceq_vector, ceq_active, ceqctl in *. rewrite Ed, Ec in *. cbn [of_opt mbind result_bind default] in *. rewrite Eq. cbn [of_opt mbind result_bind].
  rewrite ceqctl_vector, ceqctl_itr, cause_ena_bit, (Z.land_comm 1) by done. change 1 with (2 ^ 0) at 1. rewrite nz_bit by done.
  rewrite <- negb_andb. destruct (_ && _) eqn:Ea; cbn [negb]; [|done]. rewrite Hoff. cbn [negb].
  assert (wr (ceqs s) id (ceq_enable q) = Some (ceqs s)) as ->.
  { unfold ceq_enable. rewrite Hoff. cbn [negb]. rewrite wr_in_range by (unfold NUM_QUEUES in Hq; lia). f_equal. apply list_insert_id.
    unfold rd in Eq. by rewrite (proj2 (Z.leb_le _ _)) in Eq by lia. }
  cbn [of_opt mbind result_bind]. unfold ceq_tail_updated. pose proof (slice_width ctl 0 11 ltac:(lia)) as H1. pose proof (slice_width ctl 11 2 ltac:(lia)) as H2.
  unfold in_width in H1, H2. rewrite (wrap_small 16), (wrap_small 8 (slice ctl 11 2)) by (unfold in_width; lia). cbn [ints irqs set_field].
  rewrite signal_interrupt_ok by (done || lia). rewrite (proj2 (Z.ltb_lt _ _)) by (by apply Hs). by destruct s.
Qed.

Lemma ceq_raise_ok now id s : rdma_ok s → rdma_ok (ceq_raise now id s) ∧ cqp (ceq_raise now id s) = cqp s ∧ pfpe (ceq_raise now id s) = pfpe s ∧
  mem (ceq_raise now id s) = mem s ∧ ceqs (ceq_raise now id s) = ceqs s.
Proof. intros Hok. unfold ceq_raise. destruct (ceq_active _ _); [|done]. split; [|by destruct s]. destruct Hok, s. split; cbn in *; try done. by rewrite length_alter. Qed.

(** ** Entries of the work queue *)

Definition word (d : list Z) (i : nat) : Z := default 0 (d !! i).
Definition wqe_opcode (d : list Z) : Z := slice (word d 3) 32 6.
Definition wqe_ceq (d : list Z) : Z := slice (word d 3) 0 10.
Definition wqe_cq (d : list Z) : Z := slice (word d 3) 0 18.
Definition creates_cq (d : list Z) : bool := wqe_opcode d =? IRDMA_CQP_OP_CREATE_CQ.

(** The operations that are answered with a completion. *)
Definition completes (op : Z) : bool :=
  bool_decide (op ∈ [IRDMA_CQP_OP_CREATE_CQ; IRDMA_CQP_OP_QUERY_RDMA_FEATURES; IRDMA_CQP_OP_CREATE_CEQ; IRDMA_CQP_OP_CREATE_AEQ;
                     IRDMA_CQP_OP_GATHER_STATS; IRDMA_CQP_OP_CREATE_QP; IRDMA_CQP_OP_WORK_SCHED_NODE; IRDMA_CQP_OP_MODIFY_QP]).

(** Those that interrupt the guest. *)
Definition signals (d : list Z) : bool :=
  if creates_cq d then 1 <? wqe_cq d
  else bool_decide (wqe_opcode d ∈ [IRDMA_CQP_OP_CREATE_CEQ; IRDMA_CQP_OP_CREATE_QP; IRDMA_CQP_OP_WORK_SCHED_NODE; IRDMA_CQP_OP_MODIFY_QP]).

(** The length of what is written to the address in the entry. *)
Definition buffer_len (op : Z) : option Z :=
  if op =? IRDMA_CQP_OP_QUERY_FPM_VAL then Some 176
  else if bool_decide (op ∈ [IRDMA_CQP_OP_QUERY_RDMA_FEATURES; IRDMA_CQP_OP_CREATE_CEQ; IRDMA_CQP_OP_CREATE_AEQ]) then Some 32 else None.

(** The first completion queue is the one for these completions. *)
Definition rebased (d : list Z) (q : control_queue_pair) : control_queue_pair :=
  if creates_cq d && (wqe_cq d =? 0) then q <| cqp_base := word d 4 |> <| cnt := 0 |> else q.

Definition cqe (found : cqp_uninit) (d : list Z) (q : control_queue_pair) (tail : Z) : list Z :=
  bytes_of [if creates_cq d then 0 else word (stack found) 0; host_cq_pa q; if creates_cq d then 0 else word (stack found) 2;
            2 ^ 63 * (if creates_cq d then slice (word d 3) 63 1 else 1) + 2 ^ 32 * slice tail 0 15].

Definition dma_ok (ms : mappings) (addr n : Z) : Prop := ∃ a, dma_local_addr ms addr n = Ok (Some a).

Record wqe_ok (ms : mappings) (d : list Z) (s : rdma) : Prop := {
  wqe_len : length d = 8%nat;
  wqe_buf n : buffer_len (wqe_opcode d) = Some n → dma_ok ms (word d 4) n;
  wqe_slot : completes (wqe_opcode d) = true → dma_ok ms (return_shadow_buf_addr (rebased d (cqp s))) 32;
  wqe_irq : signals d = true → ceq_served (wqe_ceq d) s
}.

(** What an operation with a completion does. *)
Record answered (ms : mappings) (now : timespec) (found : cqp_uninit) (d : list Z) (s s' : rdma) : Prop := {
  ans_ok : rdma_ok s';
  ans_pfpe : pfpe s' = pfpe s;
  ans_cqp : cqp s' = (rebased d (cqp s)) <| cnt ::= fun n => u32 (n + 1) |>;
  ans_cqe : IssueDma ms (DmaRead (return_shadow_buf_addr (rebased d (cqp s))) 32) (mem s') =
              Ok (mem s', cqe found d (cqp s) (reg_PFPE_CQPTAIL (pfpe s)));
  ans_irqs : irqs s' = if signals d then irqs (ceq_raise now (wqe_ceq d) s) else irqs s
}.

Lemma word_rd d i : length d = 8%nat → 0 <= i < 8 → rd d i = Some (word d (Z.to_nat i)).
Proof.
  intros Hl Hi. destruct (rd_in_range d i ltac:(lia)) as [x Ex]. rewrite Ex. unfold rd in Ex. rewrite (proj2 (Z.leb_le _ _)) in Ex by lia. unfold word. by rewrite Ex.
Qed.

Lemma get24 d : length d = 8%nat → get_64bit_val d 24 = Ok (word d 3).
Proof. intros. unfold get_64bit_val. by rewrite (word_rd d (24 .>> 3)). Qed.
Lemma get32 d : length d = 8%nat → get_64bit_val d 32 = Ok (word d 4).
Proof. intros. unfold get_64bit_val. by rewrite (word_rd d (32 .>> 3)). Qed.

Lemma ceq_id_bits d : u32 (FIELD_GET IRDMA_CQPSQ_CEQ_CEQID (word d 3)) = wqe_ceq d ∧ 0 <= wqe_ceq d < 1024.
Proof.
  rewrite (field_get _ 0 10) by done. unfold wqe_ceq. pose proof (slice_width (word d 3) 0 10 ltac:(lia)) as H. unfold in_width in H. split; [|lia]. apply wrap_slice. lia.
Qed.

Section operations.
  Context (ms : mappings) (now : timespec) (found : cqp_uninit) (Hstack : length (stack found) = 4%nat).

Lemma indir_ok data addr s a : dma_local_addr ms addr (8 * Z.of_nat (length data)) = Ok (Some a) →
  cqp_complete_indir ms data addr s = Ok (s <| mem := write_mem (mem s) a (bytes_of data) |>).
Proof. intros E. unfold cqp_complete_indir, data_write, IssueDma. rewrite length_bytes_of, Nat2Z.inj_mul. change (Z.of_nat 8) with 8. by rewrite E. Qed.

Lemma complete_in_ok w0 w1 w2 w3 pol s a : rdma_ok s → pol = 0 ∨ pol = 1 → dma_local_addr ms (return_shadow_buf_addr (cqp s)) 32 = Ok (Some a) →
  complete_in ms [w0; w1; w2; w3] pol s = Ok (s <| mem := write_mem (mem s) a
    (bytes_of [w0; host_cq_pa (cqp s); w2; 2 ^ 63 * pol + 2 ^ 32 * slice (reg_PFPE_CQPTAIL (pfpe s)) 0 15]) |>).
Proof.
  intros Hok Hp E. unfold complete_in, set_64bit_val. rewrite cqe_word_spec by (done || apply Hok). cbn [of_opt mbind result_bind].
  change (8 .>> 3) with 1. change (24 .>> 3) with 3. rewrite wr_in_range by (rewrite ?length_insert; cbn [length]; lia). cbn [of_opt mbind result_bind]. rewrite wr_in_range by (rewrite ?length_insert; cbn [length]; lia).
  set (w := 2 ^ 63 * pol + _). cbn [of_opt mbind result_bind]. change (<[Z.to_nat 3 := u64 w]> _) with [w0; u64 (host_cq_pa (cqp s)); w2; u64 w].
  assert (bytes_of [w0; u64 (host_cq_pa (cqp s)); w2; u64 w] = bytes_of [w0; host_cq_pa (cqp s); w2; w]) as Eb.
  { unfold bytes_of. cbn [fmap list_fmap concat]. by rewrite !le_bytes_u64. }
  rewrite (indir_ok _ _ _ a) by done. by rewrite Eb.
Qed.

Lemma read_back addr m a bs : Z.of_nat (length bs) = 32 → dma_local_addr ms addr 32 = Ok (Some a) →
  IssueDma ms (DmaRead addr 32) (write_mem m a bs) = Ok (write_mem m a bs, bs).
Proof. intros Hl E. pose proof (read_write m a bs) as Hr. rewrite Hl in Hr. unfold IssueDma. rewrite E. cbn [mbind result_bind]. by rewrite Hr. Qed.

Lemma rdma_ok_mem s m : rdma_ok s → rdma_ok (s <| mem := m |>).
Proof. intros []. by split. Qed.

Lemma stack4 : ∃ w1 w3, stack found = [word (stack found) 0; w1; word (stack found) 2; w3].
Proof. destruct (stack found) as [|w0 [|w1 [|w2 [|w3 [|]]]]]; try done. by exists w1, w3. Qed.

(** The completion of an operation other than [CREATE_CQ], after [s] was changed in memory. *)
Lemma complete_stack d s m : rdma_ok s → wqe_ok ms d s → completes (wqe_opcode d) = true → creates_cq d = false →
  ∃ m', complete_in ms (stack found) 1 (s <| mem := m |>) = Ok (s <| mem := m' |>) ∧
    IssueDma ms (DmaRead (return_shadow_buf_addr (rebased d (cqp s))) 32) m' = Ok (m', cqe found d (cqp s) (reg_PFPE_CQPTAIL (pfpe s))).
Proof.
  intros Hok Hw Hc Hn. destruct (wqe_slot _ _ _ Hw Hc) as [a Ea]. destruct stack4 as (w1 & w3 & E). unfold rebased in *. rewrite Hn in *. cbn [andb] in *.
  pose proof (complete_in_ok (word (stack found) 0) w1 (word (stack found) 2) w3 1 (s <| mem := m |>) a (rdma_ok_mem _ _ Hok) (or_intror eq_refl) Ea) as Hcomp.
  rewrite <- E in Hcomp. eexists. split; [exact Hcomp|].
  unfold cqe. rewrite Hn. apply read_back; [|done]. rewrite length_bytes_of. done.
Qed.

Lemma rdma_ok_count s : rdma_ok s → rdma_ok (count s).
Proof. intros []. by split. Qed.

Lemma ceq_raise_mem id s m : ceq_raise now id (s <| mem := m |>) = (ceq_raise now id s) <| mem := m |>.
Proof. unfold ceq_raise. change (ceq_active id (s <| mem := m |>)) with (ceq_active id s). by destruct (ceq_active id s). Qed.

Lemma answered_plain d s m : rdma_ok s → creates_cq d = false → signals d = false →
  IssueDma ms (DmaRead (return_shadow_buf_addr (rebased d (cqp s))) 32) m = Ok (m, cqe found d (cqp s) (reg_PFPE_CQPTAIL (pfpe s))) →
  answered ms now found d s (count (s <| mem := m |>)).
Proof.
  intros Hok Hn Hs Hr. split; [by apply rdma_ok_count, rdma_ok_mem|done| |exact Hr|by rewrite Hs]. unfold rebased. by rewrite Hn.
Qed.

Lemma answered_raise d s m : rdma_ok s → creates_cq d = false → signals d = true →
  IssueDma ms (DmaRead (return_shadow_buf_addr (rebased d (cqp s))) 32) m = Ok (m, cqe found d (cqp s) (reg_PFPE_CQPTAIL (pfpe s))) →
  answered ms now found d s (count (ceq_raise now (wqe_ceq d) (s <| mem := m |>))).
Proof.
  intros Hok Hn Hs Hr. rewrite ceq_raise_mem. destruct (ceq_raise_ok now (wqe_ceq d) s Hok) as (Hok' & Ec & Ep & _).
  split; [by apply rdma_ok_count, rdma_ok_mem|exact Ep| |exact Hr|by rewrite Hs]. unfold rebased. rewrite Hn. cbn [andb]. rewrite <- Ec. done.
Qed.

Lemma answered_ceqs d s s' qs : answered ms now found d s s' → Z.of_nat (length qs) = NUM_QUEUES → Forall (fun q => ceq_enabled q = false) qs →
  answered ms now found d s (s' <| ceqs := qs |>).
Proof. intros [[] ? ? ? ?] Hl Hf. split; try done. Qed.

Lemma op_gather_stats_ok d s : rdma_ok s → wqe_ok ms d s → wqe_opcode d = IRDMA_CQP_OP_GATHER_STATS →
  ∃ s', op_gather_stats ms found s = Ok s' ∧ answered ms now found d s s'.
Proof.
  intros Hok Hw Eo. assert (creates_cq d = false) as Hn by (unfold creates_cq; by rewrite Eo).
  destruct (complete_stack d s (mem s) Hok Hw ltac:(by rewrite Eo) Hn) as (m & Ec & Hr). unfold op_gather_stats.
  replace (s <| mem := mem s |>) with s in Ec by (by destruct s). rewrite Ec. cbn [mbind result_bind]. eexists. split; [done|].
  apply answered_plain; try done. unfold signals. by rewrite Hn, Eo.
Qed.

Lemma op_qp_ok d s : rdma_ok s → wqe_ok ms d s →
  wqe_opcode d ∈ [IRDMA_CQP_OP_CREATE_QP; IRDMA_CQP_OP_WORK_SCHED_NODE; IRDMA_CQP_OP_MODIFY_QP] →
  ∃ s', op_qp ms now found d s = Ok s' ∧ answered ms now found d s s'.
Proof.
  intros Hok Hw Eo. assert (creates_cq d = false ∧ completes (wqe_opcode d) = true ∧ signals d = true) as (Hn & Hc & Hs).
  { unfold signals, creates_cq. rewrite !elem_of_cons in Eo. destruct Eo as [-> | [-> | [-> | []%elem_of_nil]]]; done. }
  destruct (complete_stack d s (mem s) Hok Hw Hc Hn) as (m & Ec & Hr). unfold op_qp. rewrite get24 by apply Hw. cbn [mbind result_bind].
  replace (s <| mem := mem s |>) with s in Ec by (by destruct s). rewrite Ec. cbn [mbind result_bind]. destruct (ceq_id_bits d) as [-> Hid].
  rewrite qena_updated_spec by (done || by apply rdma_ok_mem || by apply (wqe_irq _ _ _ Hw)). cbn [mbind result_bind]. eexists. split; [done|]. by apply answered_raise.
Qed.

(** The operations that also write to an address in the entry. *)
Lemma write_buffer d s data n : wqe_ok ms d s → buffer_len (wqe_opcode d) = Some n → n = 8 * Z.of_nat (length data) →
  ∃ m, cqp_complete_indir ms data (word d 4) s = Ok (s <| mem := m |>).
Proof. intros Hw Hb ->. destruct (wqe_buf _ _ _ Hw _ Hb) as [a Ea]. eexists. by apply indir_ok. Qed.

Lemma op_query_features_ok d s : rdma_ok s → wqe_ok ms d s → wqe_opcode d = IRDMA_CQP_OP_QUERY_RDMA_FEATURES →
  ∃ s', op_query_features ms found d s = Ok s' ∧ answered ms now found d s s'.
Proof.
  intros Hok Hw Eo. assert (creates_cq d = false) as Hn by (unfold creates_cq; by rewrite Eo). unfold op_query_features. rewrite get32 by apply Hw.
  change (set_64bit_val (replicate 4 0) 0 _) with (Ok [26 * 2 ^ 32; 0; 0; 0]). cbn [mbind result_bind].
  destruct (write_buffer d s [26 * 2 ^ 32; 0; 0; 0] 32 Hw ltac:(by rewrite Eo) eq_refl) as [m ->]. cbn [mbind result_bind].
  destruct (complete_stack d s m Hok Hw ltac:(by rewrite Eo) Hn) as (m' & -> & Hr). cbn [mbind result_bind]. eexists. split; [done|].
  apply answered_plain; try done. unfold signals. by rewrite Hn, Eo.
Qed.

Lemma op_create_aeq_ok d s : rdma_ok s → wqe_ok ms d s → wqe_opcode d = IRDMA_CQP_OP_CREATE_AEQ →
  ∃ s', op_create_aeq ms found d s = Ok s' ∧ answered ms now found d s s'.
Proof.
  intros Hok Hw Eo. assert (creates_cq d = false) as Hn by (unfold creates_cq; by rewrite Eo). unfold op_create_aeq. rewrite get32 by apply Hw. cbn [mbind result_bind].
  destruct (write_buffer d s (replicate 4 0) 32 Hw ltac:(by rewrite Eo) eq_refl) as [m ->]. cbn [mbind result_bind].
  destruct (complete_stack d s m Hok Hw ltac:(by rewrite Eo) Hn) as (m' & -> & Hr). cbn [mbind result_bind]. eexists. split; [done|].
  apply answered_plain; try done. unfold signals. by rewrite Hn, Eo.
Qed.

Lemma op_create_ceq_ok d s : rdma_ok s → wqe_ok ms d s → wqe_opcode d = IRDMA_CQP_OP_CREATE_CEQ →
  ∃ s', op_create_ceq ms now found d s = Ok s' ∧ answered ms now found d s s'.
Proof.
  intros Hok Hw Eo. assert (creates_cq d = false) as Hn by (unfold creates_cq; by rewrite Eo).
  assert (signals d = true) as Hs by (unfold signals; by rewrite Hn, Eo). unfold op_create_ceq. rewrite get24, get32 by apply Hw.
  change (set_64bit_val (replicate 4 0) 0 0) with (Ok (replicate 4 0)). cbn [mbind result_bind].
  destruct (write_buffer d s (replicate 4 0) 32 Hw ltac:(by rewrite Eo) eq_refl) as [m ->]. cbn [mbind result_bind]. destruct (ceq_id_bits d) as [-> Hid].
  destruct (complete_stack d s m Hok Hw ltac:(by rewrite Eo) Hn) as (m' & -> & Hr). cbn [mbind result_bind].
  rewrite qena_updated_spec by (done || by apply rdma_ok_mem || by apply (wqe_irq _ _ _ Hw)). cbn [mbind result_bind].
  pose proof (answered_raise d s m' Hok Hn Hs Hr) as Ha. destruct (ceq_raise_ok now (wqe_ceq d) _ (rdma_ok_mem s m' Hok)) as (_ & _ & _ & _ & Eq).
  change (ceqs (s <| mem := m' |>)) with (ceqs s) in Eq. rewrite Eq. pose proof (ok_ceqs _ Hok) as Hl. unfold NUM_QUEUES in Hl.
  destruct (rd_in_range (ceqs s) (wqe_ceq d) ltac:(lia)) as [q Erd]. rewrite Erd. cbn [of_opt mbind result_bind]. rewrite wr_in_range by lia. cbn [of_opt mbind result_bind].
  eexists. split; [done|]. match goal with |- answered _ _ _ _ _ (count (?x <| ceqs := ?y |>)) => change (count (x <| ceqs := y |>)) with ((count x) <| ceqs := y |>) end.
  apply answered_ceqs; [done|by rewrite length_insert|]. apply Forall_insert; [apply Hok|]. exact (rd_Forall _ _ _ _ (ok_off _ Hok) Erd).
Qed.

Lemma op_create_cq_ok d s : rdma_ok s → wqe_ok ms d s → wqe_opcode d = IRDMA_CQP_OP_CREATE_CQ →
  ∃ s', op_create_cq ms now d s = Ok s' ∧ answered ms now found d s s'.
Proof.
  intros Hok Hw Eo. assert (creates_cq d = true) as Hn by (unfold creates_cq; by rewrite Eo). unfold op_create_cq. rewrite get24, get32 by apply Hw. cbn [mbind result_bind].
  assert (u32 (word d 3 .& 0x3ffff) = wqe_cq d) as ->.
  { rewrite (land_ones_slice _ 18) by done. apply wrap_slice. lia. }
  assert (u8 (FIELD_GET IRDMA_CQPSQ_WQEVALID (word d 3)) = slice (word d 3) 63 1) as ->.
  { rewrite (field_get _ 63 1) by done. apply wrap_slice. lia. }
  destruct (ceq_id_bits d) as [-> Hid]. pose proof (slice_width (word d 3) 0 18 ltac:(lia)) as Hcq. pose proof (slice_width (word d 3) 63 1 ltac:(lia)) as Hpol. unfold in_width in Hcq, Hpol.
  set (s1 := if 0 <? wqe_cq d then s else _). assert (s1 = s <| cqp ::= rebased d |>) as ->.
  { subst s1. unfold rebased. rewrite Hn. cbn [andb]. fold (wqe_cq d) in Hcq. destruct (Z.ltb_spec 0 (wqe_cq d)), (Z.eqb_spec (wqe_cq d) 0); try lia; by destruct s. }
  assert (completes (wqe_opcode d) = true) as Hc by (by rewrite Eo). destruct (wqe_slot _ _ _ Hw Hc) as [a Ea].
  assert (rdma_ok (s <| cqp ::= rebased d |>)) as Hok1 by (destruct Hok; by split).
  change (replicate 4 0) with [0; 0; 0; 0]. rewrite (complete_in_ok 0 0 0 0 _ (s <| cqp ::= rebased d |>) a) by (done || lia). cbn [mbind result_bind].
  set (m := write_mem _ a _).
  assert (IssueDma ms (DmaRead (return_shadow_buf_addr (rebased d (cqp s))) 32) m = Ok (m, cqe found d (cqp s) (reg_PFPE_CQPTAIL (pfpe s)))) as Hr.
  { assert (cqe found d (cqp s) (reg_PFPE_CQPTAIL (pfpe s)) = cqe found d (rebased d (cqp s)) (reg_PFPE_CQPTAIL (pfpe s))) as ->.
    { unfold cqe, rebased. by destruct (_ && _). }
    unfold cqe. rewrite Hn. apply read_back; [by rewrite length_bytes_of|done]. }
  assert (signals d = (1 <? wqe_cq d)) as Hs by (unfold signals; by rewrite Hn).
  destruct (1 <? wqe_cq d) eqn:E1; cbn [mbind result_bind].
  - rewrite qena_updated_spec by (done || by apply rdma_ok_mem || by apply (wqe_irq _ _ _ Hw)). cbn [mbind result_bind]. eexists. split; [done|].
    rewrite ceq_raise_mem. destruct (ceq_raise_ok now (wqe_ceq d) _ Hok1) as (Hok2 & Ec & Ep & _).
    split; [by apply rdma_ok_count, rdma_ok_mem|exact Ep| |exact Hr|].
    + transitivity ((cqp (ceq_raise now (wqe_ceq d) (s <| cqp ::= rebased d |>))) <| cnt ::= fun n => u32 (n + 1) |>); [done|by rewrite Ec].
    + rewrite Hs. unfold ceq_raise. change (ceq_active (wqe_ceq d) (s <| cqp ::= rebased d |>)) with (ceq_active (wqe_ceq d) s). by destruct (ceq_active _ _).
  - eexists. split; [done|]. split; [by apply rdma_ok_count, rdma_ok_mem|done|done|exact Hr|by rewrite Hs].
Qed.

Lemma op_query_fpm_ok d s : rdma_ok s → wqe_ok ms d s → wqe_opcode d = IRDMA_CQP_OP_QUERY_FPM_VAL →
  ∃ m, op_query_fpm ms d s = Ok (s <| mem := m |>).
Proof.
  intros Hok Hw Eo. unfold op_query_fpm. assert (∃ b, query_fpm_buffer = Ok b ∧ length b = 22%nat) as (b & -> & Hb) by (by eexists).
  rewrite get32 by apply Hw. cbn [mbind result_bind]. apply write_buffer with (n := 176); [done|by rewrite Eo|by rewrite Hb].
Qed.
End operations.

(** ** The doorbell *)

Lemma opcode_bits d : u16 (FIELD_GET IRDMA_CQPSQ_OPCODE (word d 3)) = wqe_opcode d.
Proof. rewrite (field_get _ 32 6) by done. apply wrap_slice. lia. Qed.

Lemma process_ok ms now found d s : length (stack found) = 4%nat → rdma_ok s → wqe_ok ms d s → ∃ s1,
  cqp_process ms now found d s = Ok (s1 <| pfpe ::= fun r => r <| reg_PFPE_CQPTAIL := u32 (reg_PFPE_CQPTAIL r + 1) |> |>) ∧
  if completes (wqe_opcode d) then answered ms now found d s s1
  else if wqe_opcode d =? IRDMA_CQP_OP_QUERY_FPM_VAL then ∃ m, s1 = s <| mem := m |> else s1 = s.
Proof.
  intros Hst Hok Hw. unfold cqp_process. rewrite get24 by apply Hw. cbn [mbind result_bind]. rewrite opcode_bits.
  destruct (Z.eqb_spec (wqe_opcode d) IRDMA_CQP_OP_QUERY_FPM_VAL) as [E|N1].
  { destruct (op_query_fpm_ok ms d s Hok Hw E) as [m ->]. eexists. split; [done|]. rewrite E. cbn. by exists m. }
  destruct (Z.eqb_spec (wqe_opcode d) IRDMA_CQP_OP_SHMC_PAGES_ALLOCATED) as [E|N2]; [exists s; by rewrite E|].
  assert (∀ (r : result rdma) s', r = Ok s' → completes (wqe_opcode d) = true → answered ms now found d s s' → ∃ s1,
    (s ← r; Ok (s <| pfpe ::= fun r => r <| reg_PFPE_CQPTAIL := u32 (reg_PFPE_CQPTAIL r + 1) |> |>)) =
      Ok (s1 <| pfpe ::= fun r => r <| reg_PFPE_CQPTAIL := u32 (reg_PFPE_CQPTAIL r + 1) |> |>) ∧
    if completes (wqe_opcode d) then answered ms now found d s s1 else s1 = s) as Hans.
  { intros r s' -> -> Ha. by exists s'. }
  destruct (Z.eqb_spec (wqe_opcode d) IRDMA_CQP_OP_CREATE_CQ) as [E|N3].
  { destruct (op_create_cq_ok ms now found Hst d s Hok Hw E) as (s' & E' & Ha). apply (Hans _ s' E'); [by rewrite E|done]. }
  destruct (Z.eqb_spec (wqe_opcode d) IRDMA_CQP_OP_QUERY_RDMA_FEATURES) as [E|N4].
  { destruct (op_query_features_ok ms now found Hst d s Hok Hw E) as (s' & E' & Ha). apply (Hans _ s' E'); [by rewrite E|done]. }
  destruct (Z.eqb_spec (wqe_opcode d) IRDMA_CQP_OP_CREATE_CEQ) as [E|N5].
  { destruct (op_create_ceq_ok ms now found Hst d s Hok Hw E) as (s' & E' & Ha). apply (Hans _ s' E'); [by rewrite E|done]. }
  destruct (Z.eqb_spec (wqe_opcode d) IRDMA_CQP_OP_CREATE_AEQ) as [E|N6].
  { destruct (op_create_aeq_ok ms now found Hst d s Hok Hw E) as (s' & E' & Ha). apply (Hans _ s' E'); [by rewrite E|done]. }
  destruct (Z.eqb_spec (wqe_opcode d) IRDMA_CQP_OP_GATHER_STATS) as [E|N7].
  { destruct (op_gather_stats_ok ms now found Hst d s Hok Hw E) as (s' & E' & Ha). apply (Hans _ s' E'); [by rewrite E|done]. }
  assert (∀ op, op ∈ [IRDMA_CQP_OP_CREATE_QP; IRDMA_CQP_OP_WORK_SCHED_NODE; IRDMA_CQP_OP_MODIFY_QP] → wqe_opcode d = op → ∃ s',
    op_qp ms now found d s = Ok s' ∧ answered ms now found d s s' ∧ completes (wqe_opcode d) = true) as Hqp.
  { intros op Hin <-. destruct (op_qp_ok ms now found Hst d s Hok Hw Hin) as (s' & E' & Ha). exists s'. split_and!; [done|done|].
    rewrite !elem_of_cons in Hin. by destruct Hin as [-> | [-> | [-> | []%elem_of_nil]]]. }
  destruct (Z.eqb_spec (wqe_opcode d) IRDMA_CQP_OP_CREATE_QP) as [E|N8]; [destruct (Hqp IRDMA_CQP_OP_CREATE_QP ltac:(rewrite !elem_of_cons; tauto) E) as (s' & E' & Ha & Hc); by apply (Hans _ s' E')|].
  destruct (Z.eqb_spec (wqe_opcode d) IRDMA_CQP_OP_WORK_SCHED_NODE) as [E|N9]; [destruct (Hqp IRDMA_CQP_OP_WORK_SCHED_NODE ltac:(rewrite !elem_of_cons; tauto) E) as (s' & E' & Ha & Hc); by apply (Hans _ s' E')|].
  destruct (Z.eqb_spec (wqe_opcode d) IRDMA_CQP_OP_MODIFY_QP) as [E|N10]; [destruct (Hqp IRDMA_CQP_OP_MODIFY_QP ltac:(rewrite !elem_of_cons; tauto) E) as (s' & E' & Ha & Hc); by apply (Hans _ s' E')|].
  exists s. split; [done|]. assert (completes (wqe_opcode d) = false) as ->; [|done]. apply bool_decide_eq_false. rewrite !elem_of_cons, elem_of_nil. tauto.
Qed.

Lemma rdma_ok_pfpe s f : rdma_ok s → in_width 32 (reg_PFPE_CQPTAIL (f (pfpe s))) → rdma_ok (s <| pfpe ::= f |>).
Proof. intros [] ?. by split. Qed.

Lemma length_words_of n bs : length (words_of n bs) = n.
Proof. revert bs. induction n; intros; cbn; auto. Qed.

(** C23. A doorbell makes the control queue process one entry, the one at the tail: the tail is
    advanced; if the operation has a completion, it is at the next place of the completion
    queue, names the entry and is valid, and the place is used up; the event queue of the entry
    is signalled if the operation does that.  Two words of the completion are what was on the
    stack.  Other entries are passed over without an answer. *)
Theorem cqp_doorbell ms now found val s bs : length (stack found) = 4%nat → rdma_ok s → cqp_enabled (cqp s) = true →
  reg_PFPE_CQPTAIL (pfpe s) < 0x3ff .& val →
  IssueDma ms (DmaRead (u64 (cqe_base (cqp s) + 64 * reg_PFPE_CQPTAIL (pfpe s))) 64) (mem s) = Ok (mem s, bs) →
  let d := words_of 8 bs in
  wqe_ok ms d s →
  ∃ s', pfpe_write ms now found PFPE_CQPDB val s = Ok s' ∧ rdma_ok s' ∧
    reg_PFPE_CQPTAIL (pfpe s') = reg_PFPE_CQPTAIL (pfpe s) + 1 ∧
    if completes (wqe_opcode d) then
      cqp s' = (rebased d (cqp s)) <| cnt ::= fun n => u32 (n + 1) |> ∧
      IssueDma ms (DmaRead (return_shadow_buf_addr (rebased d (cqp s))) 32) (mem s') =
        Ok (mem s', cqe found d (cqp s) (reg_PFPE_CQPTAIL (pfpe s))) ∧
      irqs s' = if signals d then irqs (ceq_raise now (wqe_ceq d) s) else irqs s
    else cqp s' = cqp s ∧ irqs s' = irqs s ∧ (wqe_opcode d ≠ IRDMA_CQP_OP_QUERY_FPM_VAL → mem s' = mem s).
Proof.
  intros Hst Hok Hen Hdb Hrd d Hw. pose proof (ok_tail _ Hok) as [Ht _]. pose proof (mask_bound val 0 10 ltac:(lia) ltac:(lia)) as Hm. rewrite Z.shiftl_0_r, Z.shiftr_0_r, Z.land_comm in Hm.
  change (Z.ones 10) with 0x3ff in Hm. unfold pfpe_write. change (PFPE_CQPDB =? PFPE_CCQPSTATUS) with false. change (PFPE_CQPDB =? PFPE_CQPDB) with true.
  destruct (Z.eqb_spec val 0) as [->|_]; [rewrite Z.land_0_r in Hdb; lia|]. set (s0 := s <| pfpe ::= _ |>). change (reg_PFPE_CQPTAIL (pfpe s0)) with (reg_PFPE_CQPTAIL (pfpe s)). rewrite (proj2 (Z.ltb_lt _ _)) by done.
  assert (rdma_ok s0) as Hok0 by (apply rdma_ok_pfpe; [done|apply Hok]).
  unfold cqp_reg_updated, cqp_trigger_fetch. change (cqp s0) with (cqp s). change (mem s0) with (mem s). change (reg_PFPE_CQPTAIL (pfpe s0)) with (reg_PFPE_CQPTAIL (pfpe s)).
  rewrite Hen. cbn [negb]. rewrite Z.mul_comm, (wrap_small 32) by (unfold in_width; lia). rewrite Hrd. cbn [mbind result_bind fst snd].
  match goal with |- context [cqp_process ms now found ?x ?y] => change x with d; replace y with s0 by (by destruct s) end. assert (wqe_ok ms d s0) as Hw0 by (by destruct Hw).
  destruct (process_ok ms now found d s0 Hst Hok0 Hw0) as (s1 & -> & Hs1). eexists. split; [done|]. destruct (completes _) eqn:Ec.
  - destruct Hs1 as [H1 H2 H3 H4 H5]. assert (reg_PFPE_CQPTAIL (pfpe s1) = reg_PFPE_CQPTAIL (pfpe s)) as Et by (by rewrite H2).
    split; [apply rdma_ok_pfpe; [done|by apply wrap_width]|]. split; [cbn; rewrite Et; apply wrap_small; unfold in_width; lia|]. split_and!; try done.
    transitivity (irqs s1); [done|]. rewrite H5. destruct (signals d); [|done]. unfold ceq_raise. change (ceq_active (wqe_ceq d) s0) with (ceq_active (wqe_ceq d) s). by destruct (ceq_active _ _).
  - assert (∃ m, s1 = s0 <| mem := m |> ∧ (wqe_opcode d ≠ IRDMA_CQP_OP_QUERY_FPM_VAL → m = mem s)) as (m & -> & Hmem).
    { destruct (Z.eqb_spec (wqe_opcode d) IRDMA_CQP_OP_QUERY_FPM_VAL); [destruct Hs1 as [m ->]; by exists m|]. exists (mem s). split; [|done]. rewrite Hs1. by destruct s. }
    split; [apply (rdma_ok_pfpe (s0 <| mem := m |>)); [exact (rdma_ok_mem s0 m Hok0)|exact (wrap_width 32 _ ltac:(lia))]|].
    split; [apply (wrap_small 32 (reg_PFPE_CQPTAIL (pfpe s) + 1)); unfold in_width; lia|]. split; [exact eq_refl|]. split; [exact eq_refl|exact Hmem].
Qed.

(** The doorbell has 10 bits and the tail is never wrapped: after 1023 entries it does nothing. *)
Lemma cqp_stalls ms now found val s : 0x3ff <= reg_PFPE_CQPTAIL (pfpe s) →
  pfpe_write ms now found PFPE_CQPDB val s = Ok (s <| pfpe ::= fun r => r <| reg_PFPE_CQPDB := val |> |>).
Proof.
  intros Ht. unfold pfpe_write. change (PFPE_CQPDB =? PFPE_CCQPSTATUS) with false. change (PFPE_CQPDB =? PFPE_CQPDB) with true. destruct (val =? 0); [done|].
  pose proof (mask_bound val 0 10 ltac:(lia) ltac:(lia)) as Hm. rewrite Z.shiftl_0_r, Z.shiftr_0_r, Z.land_comm in Hm. change (Z.ones 10) with 0x3ff in Hm.
  rewrite (proj2 (Z.ltb_ge _ _)); [done|]. cbn. lia.
Qed.

(** A reset of the device leaves the control queue enabled: a new one is not created, its
    status stays zero and the next doorbell reads from the old queue. *)
Lemma reset_keeps_queue ms now found high low s : cqp_enabled (cqp s) = true → ∃ s',
  (s ← pfpe_write ms now found PFPE_CCQPHIGH high (reset_regs s); pfpe_write ms now found PFPE_CCQPLOW low s) = Ok s' ∧
  cqe_base (cqp s') = cqe_base (cqp s) ∧ reg_PFPE_CCQPSTATUS (pfpe s') = 0 ∧ reg_PFPE_CQPTAIL (pfpe s') = 0.
Proof.
  intros Hen. unfold pfpe_write. cbn [Z.eqb Pos.eqb PFPE_CCQPHIGH PFPE_CCQPLOW PFPE_CCQPSTATUS PFPE_CQPDB PFPE_CQPTAIL mbind result_bind]. unfold create_cqp. cbn. rewrite Hen.
  destruct (_ && _); eexists; by split.
Qed.

(** ** A run *)

(** The work queue at 0x1000 holds zeros, which is [CREATE_QP]. *)
Definition demo_rdma : rdma :=
  mkRdma (mkCqp 0 64 true (replicate 8 0) 0x1000 0xabc 0x2000 5) (mkPfpe 0 1 2 0 1) (replicate 1536 (mkCeq false 0 0)) demo_regs demo_throttlers (fun _ => 0).
Definition demo_found : cqp_uninit := mkUninit false [] [0xdead; 1; 0xbeef; 2].

Lemma demo_rdma_ok : rdma_ok demo_rdma.
Proof. split; [apply demo_regs_ok|apply demo_itrs_ok|by apply Forall_replicate|done|done|by apply Forall_replicate|done]. Qed.

Lemma cqp_doorbell_witness : ∃ s', pfpe_write demo_table (mkTime 7 1000) demo_found PFPE_CQPDB 3 demo_rdma = Ok s' ∧
  reg_PFPE_CQPTAIL (pfpe s') = 3 ∧ cnt (cqp s') = 6 ∧
  IssueDma demo_table (DmaRead (0x2000 + 5 * 32) 32) (mem s') = Ok (mem s', bytes_of [0xdead; 0xabc; 0xbeef; 2 ^ 63 + 2 ^ 32 * 2]) ∧
  poll_timer <$> irqs s' !! 3%nat = Some (mkTime 7 51000).
Proof.
  destruct (cqp_doorbell demo_table (mkTime 7 1000) demo_found 3 demo_rdma (replicate 64 0)) as (s' & E & _ & Et & Eq & Ec & Ei);
    [done|apply demo_rdma_ok|done|done|reflexivity| |].
  { split; [done| |intros _; by eexists|intros _ _; done]. intros n Hn. vm_compute in Hn. done. }
  exists s'. split; [exact E|]. split; [exact Et|]. rewrite Eq. split; [done|]. split; [exact Ec|]. rewrite Ei. vm_compute. reflexivity.
Defined.
