(* ===== verification/E810RegSwitch.v ===== *)
(** * Single registers

    The switch statements of [reg_mem_read32] and [reg_mem_write32] (e810_bm.cc), which take
    the addresses that are not those of register arrays ([E810Regs]), with the commands to
    the clock ([E810Ptp]); [RegRead] and [RegWrite].  [E810Mem] puts the parts together.  The registers
    of the RDMA control queue are written in [E810Cqp]. *)
From stdpp Require Import strings gmap.
From S2P Require Import Prelude Bytes E810Base IceNvm IceCaps E810Ptp E810Regs VmuxIrq E810Irq E810Cqp.
Local Open Scope Z_scope.

(** ** Addresses *)

Definition GLINT_CTL : Z := 0x0016CC54.
Definition PFGEN_CTRL : Z := 0x00091000.
Definition GLPE_CPUSTATUS0 : Z := 0x0050BA5C.
Definition GLPE_CPUSTATUS1 : Z := 0x0050BA60.
Definition GLPE_CPUSTATUS2 : Z := 0x0050BA64.
Definition GLPCI_LBARCTRL : Z := 0x0009DE74.
Definition GLNVM_ULD : Z := 0x000B6008.
Definition GLGEN_RSTCTL : Z := 0x000B8180.
Definition GLGEN_STAT : Z := 0x000B612C.
Definition PFINT_OICR_ENA : Z := 0x0016C900.
Definition PFINT_OICR : Z := 0x0016CA00.
Definition PF_VT_PFALLOC_HIF : Z := 0x0009DD80.
Definition GLLAN_RCTL_0 : Z := 0x002941F8.
Definition PFHMC_ERRORINFO : Z := 0x00520400.
Definition PFHMC_ERRORDATA : Z := 0x00520500.
Definition PF_FW_ATQBAL : Z := 0x00080000.
Definition PF_FW_ATQBAH : Z := 0x00080100.
Definition PF_FW_ATQLEN : Z := 0x00080200.
Definition PF_FW_ATQH : Z := 0x00080300.
Definition PF_FW_ATQT : Z := 0x00080400.
Definition PF_FW_ARQBAL : Z := 0x00080080.
Definition PF_FW_ARQBAH : Z := 0x00080180.
Definition PF_FW_ARQLEN : Z := 0x00080280.
Definition PF_FW_ARQH : Z := 0x00080380.
Definition PF_FW_ARQT : Z := 0x00080480.
Definition PFLAN_RX_QALLOC : Z := 0x001D2500.
Definition PF_MBX_ATQBAL : Z := 0x0022E100.
Definition PF_MBX_ATQBAH : Z := 0x0022E180.
Definition PF_MBX_ATQLEN : Z := 0x0022E200.
Definition PF_MBX_ATQH : Z := 0x0022E280.
Definition PF_MBX_ATQT : Z := 0x0022E300.
Definition PF_MBX_ARQBAL : Z := 0x0022E380.
Definition PF_MBX_ARQBAH : Z := 0x0022E400.
Definition PF_MBX_ARQLEN : Z := 0x0022E480.
Definition PF_MBX_ARQH : Z := 0x0022E500.
Definition PF_MBX_ARQT : Z := 0x0022E580.
Definition PF_FUNC_RID : Z := 0x0009E880.
Definition PF_SB_ATQBAL : Z := 0x0022FC00.
Definition PF_SB_ATQBAH : Z := 0x0022FC80.
Definition PFTSYN_SEM : Z := 0x00088880.
Definition PTP_GLTSYN_ENA (i : Z) : Z := 0x00088808 + i * 4.
Definition PTP_GLTSYN_CMD : Z := 0x00088810.
Definition PTP_GLTSYN_CMD_SYNC : Z := 0x00088814.
Definition PTP_GLTSYN_SYNC_DLAY : Z := 0x00088818.
Definition PTP_GLTSYN_HH_DLAY : Z := 0x0008881C.
Definition PTP_GLTSYN_TIME (i : Z) : Z := 0x000888C8 + i * 4.
Definition PTP_GLTSYN_SHTIME (i : Z) : Z := 0x000888E0 + i * 4.
Definition PTP_GLTSYN_SHADJ (i : Z) : Z := 0x00088908 + i * 4.
Definition PTP_GLTSYN_INCVAL (i : Z) : Z := 0x00088918 + i * 4.

(** ** State *)

(** The scalar registers by the names of their fields, the arrays of the clock. *)
Record reg_state := mkRegs {
  scalars : gmap string Z; REG_GLTSYN_ENA : list Z; REG_GLTSYN_SHTIME : list Z; REG_GLTSYN_SHADJ : list Z; REG_GLTSYN_INCVAL : list Z;
  rs_pfpe : pfpe_regs; rs_ptp : PTPManager
}.
#[export] Instance reg_state_settable : Settable reg_state := fun r =>
  mkRegs (scalars r) (REG_GLTSYN_ENA r) (REG_GLTSYN_SHTIME r) (REG_GLTSYN_SHADJ r) (REG_GLTSYN_INCVAL r) (rs_pfpe r) (rs_ptp r).

Definition get (r : string) (s : reg_state) : Z := default 0 (scalars s !! r).
Definition put_reg (r : string) (v : Z) (s : reg_state) : reg_state := s <| scalars ::= <[r := v]> |>.

(** [memset(&regs, 0, sizeof(regs))]; the clock is not part of [regs]. *)
Definition clear_single (s : reg_state) : reg_state :=
  mkRegs ∅ (replicate 2 0) (replicate 6 0) (replicate 4 0) (replicate 4 0) (mkPfpe 0 0 0 0 0) (rs_ptp s).

(** ** Reading *)

Definition GLINT_CTL_VALUE : Z :=
  let gran := BIT_UL 1 in
  u32 (((gran .<< 16) .& (0xF .<< 16)) .| ((gran .<< 20) .& (0xF .<< 20)) .| ((gran .<< 24) .& (0xF .<< 24)) .| ((gran .<< 28) .& (0xF .<< 28))).
Definition GLQF_FD_SIZE_VALUE : Z := (u32 (8192 .<< 0) .& (0x7FFF .<< 0)) .| (u32 (8192 .<< 16) .& (0x7FFF .<< 16)).
Definition PFLAN_RX_QALLOC_VALUE : Z :=
  ((0 .<< 0) .& (0x7FF .<< 0)) .| (u32 (NUM_QUEUES .<< 16) .& (0x7FF .<< 16)) .| (u32 (NUM_QUEUES .<< 31) .& BIT_UL 31).

(** A field, its upper half, a constant, a field that is cleared. *)
Inductive sread := SVal (r : string) | SHigh (r : string) | SConst (v : Z) | SClear (r : string).

Definition read_switch : list (Z * sread) :=
  [(GLINT_CTL, SConst GLINT_CTL_VALUE); (PFGEN_CTRL, SConst 0); (GLQF_FD_SIZE, SConst GLQF_FD_SIZE_VALUE);
   (GLPE_CPUSTATUS0, SConst 0x80); (GLPE_CPUSTATUS1, SConst 0x80); (GLPE_CPUSTATUS2, SConst 0x80); (GLPCI_LBARCTRL, SConst (1 .<< 4));
   (GLNVM_ULD, SConst 0xffffffff); (GLNVM_GENS, SConst (6 .<< 5)); (GLNVM_FLA, SConst (0x7 .<< 5));
   (GLGEN_RSTCTL, SVal "glgen_rstctl"); (GLGEN_STAT, SVal "glgen_stat"); (PFINT_OICR_ENA, SVal "pfint_icr0_ena"); (PFINT_OICR, SClear "pfint_icr0");
   (PF_VT_PFALLOC_HIF, SConst 0); (GLLAN_RCTL_0, SVal "gllan_rctl_0"); (PFHMC_ERRORINFO, SVal "pfhmc_errorinfo"); (PFHMC_ERRORDATA, SVal "pfhmc_errordata");
   (PF_FW_ATQBAL, SVal "pf_atqba"); (PF_FW_ATQBAH, SHigh "pf_atqba"); (PF_FW_ATQLEN, SVal "pf_atqlen"); (PF_FW_ATQH, SVal "pf_atqh"); (PF_FW_ATQT, SVal "pf_atqt");
   (PF_FW_ARQBAL, SVal "pf_arqba"); (PF_FW_ARQBAH, SHigh "pf_arqba"); (PF_FW_ARQLEN, SVal "pf_arqlen"); (PF_FW_ARQH, SVal "pf_arqh"); (PF_FW_ARQT, SVal "pf_arqt");
   (PFLAN_RX_QALLOC, SConst PFLAN_RX_QALLOC_VALUE);
   (PF_MBX_ATQBAL, SVal "pf_mbx_atqba"); (PF_MBX_ATQBAH, SHigh "pf_mbx_atqba"); (PF_MBX_ATQLEN, SVal "pf_mbx_atqlen"); (PF_MBX_ATQH, SVal "pf_mbx_atqh"); (PF_MBX_ATQT, SVal "pf_mbx_atqt");
   (PF_MBX_ARQBAL, SVal "pf_mbx_arqba"); (PF_MBX_ARQBAH, SHigh "pf_mbx_arqba"); (PF_MBX_ARQLEN, SVal "pf_mbx_arqlen"); (PF_MBX_ARQH, SVal "pf_mbx_arqh"); (PF_MBX_ARQT, SVal "pf_mbx_arqt");
   (PF_FUNC_RID, SConst 0); (GLGEN_RSTAT, SConst 0); (PF_SB_ATQBAL, SVal "REG_PF_SB_ATQBAL"); (PF_SB_ATQBAH, SVal "REG_PF_SB_ATQBAH");
   (PTP_GLTSYN_CMD, SVal "REG_GLTSYN_CMD"); (PTP_GLTSYN_CMD_SYNC, SVal "REG_GLTSYN_CMD_SYNC"); (PTP_GLTSYN_SYNC_DLAY, SVal "REG_GLTSYN_SYNC_DLAY");
   (PTP_GLTSYN_HH_DLAY, SVal "REG_GLTSYN_HH_DLAY"); (PFTSYN_SEM, SVal "REG_PFTSYN_SEM")].

Definition lookup_addr {A} (addr : Z) (l : list (Z * A)) : option A := snd <$> List.find (fun x => addr =? x.1) l.

Definition pfpe_read (addr : Z) (r : pfpe_regs) : option Z :=
  if addr =? PFPE_CQPDB then Some (reg_PFPE_CQPDB r)
  else if addr =? PFPE_CCQPHIGH then Some (reg_PFPE_CCQPHIGH r)
  else if addr =? PFPE_CCQPSTATUS then Some (reg_PFPE_CCQPSTATUS r)
  else if addr =? PFPE_CCQPLOW then Some (reg_PFPE_CCQPLOW r)
  else if addr =? PFPE_CQPTAIL then Some (reg_PFPE_CQPTAIL r)
  else None.

(** [case PTP_GLTSYN_TIME(0) ... PTP_GLTSYN_TIME(5)] *)
Definition read_time (c : clock) (addr : Z) (s : reg_state) : Z * reg_state :=
  let index := (addr - PTP_GLTSYN_TIME 0) .>> 2 in
  let '(ts, m) := phc_read c (rs_ptp s) in
  let s := s <| rs_ptp := m |> in
  if index <=? 1 then (u32 (ts .>> 96), s)
  else if index <=? 3 then (u32 (time ts .& 0xffffffff), s)
  else (u32 ((time ts .>> 32) .& 0xffffffff), s).

Definition in_range (lo hi addr : Z) : bool := (lo <=? addr) && (addr <=? hi).

Definition reg_switch_read (c : clock) (addr : Z) (s : reg_state) : result (Z * reg_state) :=
  match lookup_addr addr read_switch with
  | Some (SVal r) => Ok (u32 (get r s), s)
  | Some (SHigh r) => Ok (u32 (get r s .>> 32), s)
  | Some (SConst v) => Ok (u32 v, s)
  | Some (SClear r) => Ok (u32 (get r s), put_reg r 0 s)
  | None =>
      match pfpe_read addr (rs_pfpe s) with
      | Some v => Ok (v, s)
      | None =>
          if addr =? PTP_GLTSYN_ENA 0 then v ← of_opt (rd (REG_GLTSYN_ENA s) 0); Ok (v, s)
          else if addr =? PTP_GLTSYN_ENA 1 then v ← of_opt (rd (REG_GLTSYN_ENA s) 1); Ok (v, s)
          else if in_range (PTP_GLTSYN_TIME 0) (PTP_GLTSYN_TIME 5) addr then Ok (read_time c addr s)
          else if in_range (PTP_GLTSYN_SHTIME 0) (PTP_GLTSYN_SHTIME 5) addr then
            v ← of_opt (rd (REG_GLTSYN_SHTIME s) (addr - PTP_GLTSYN_SHTIME 0)); Ok (v, s)
          else if addr =? PTP_GLTSYN_INCVAL 0 then Ok (u32 (get_incval (rs_ptp s)), s)
          else Ok (0, s)
      end
  end.

(** ** Writing *)

(** A field, the lower half of [r] with the upper half of [from], the upper half of [r]. *)
Inductive swrite := WVal (r : string) | WLow (r from : string) | WHigh (r : string).

(** What is to be called after the assignment; [E810Mem] calls it. *)
Inductive sact := SNone | SAtq | SShram | SReset | SEnable.

Definition write_switch : list (Z * (swrite * sact)) :=
  [(GLGEN_STAT, (WVal "glgen_stat", SNone)); (GLINT_CTL, (WVal "glint_ctl", SNone)); (GLGEN_RSTCTL, (WVal "glgen_rstctl", SNone));
   (GLNVM_GENS, (WVal "glnvm_srctl", SShram)); (PFINT_OICR_ENA, (WVal "pfint_icr0_ena", SNone)); (PFINT_OICR, (WVal "pfint_icr0", SNone));
   (PF_FW_ATQBAL, (WLow "pf_atqba" "pf_atqba", SAtq)); (PF_FW_ATQBAH, (WHigh "pf_atqba", SAtq)); (PF_FW_ATQLEN, (WVal "pf_atqlen", SAtq));
   (PF_FW_ATQH, (WVal "pf_atqh", SAtq)); (PF_FW_ATQT, (WVal "pf_atqt", SAtq));
   (PF_FW_ARQBAL, (WLow "pf_arqba" "pf_atqba", SNone)); (PF_FW_ARQBAH, (WHigh "pf_arqba", SNone)); (PF_FW_ARQLEN, (WVal "pf_arqlen", SNone));
   (PF_FW_ARQH, (WVal "pf_arqh", SNone)); (PF_FW_ARQT, (WVal "pf_arqt", SNone));
   (PF_MBX_ATQBAL, (WLow "pf_mbx_atqba" "pf_mbx_atqba", SAtq)); (PF_MBX_ATQBAH, (WHigh "pf_mbx_atqba", SAtq)); (PF_MBX_ATQLEN, (WVal "pf_mbx_atqlen", SAtq));
   (PF_MBX_ATQH, (WVal "pf_mbx_atqh", SAtq)); (PF_MBX_ATQT, (WVal "pf_mbx_atqt", SAtq));
   (PF_MBX_ARQBAL, (WLow "pf_mbx_arqba" "pf_mbx_atqba", SNone)); (PF_MBX_ARQBAH, (WHigh "pf_mbx_arqba", SNone)); (PF_MBX_ARQLEN, (WVal "pf_mbx_arqlen", SNone));
   (PF_MBX_ARQH, (WVal "pf_mbx_arqh", SNone)); (PF_MBX_ARQT, (WVal "pf_mbx_arqt", SNone));
   (PF_SB_ATQBAH, (WVal "REG_PF_SB_ATQBAH", SNone)); (PTP_GLTSYN_CMD, (WVal "REG_GLTSYN_CMD", SNone))].

Definition assign (w : swrite) (val : Z) (s : reg_state) : reg_state :=
  match w with
  | WVal r => put_reg r val s
  | WLow r from => put_reg r (val .| (get from s .& 0xffffffff00000000)) s
  | WHigh r => put_reg r (u64 (val .<< 32) .| (get r s .& 0xffffffff)) s
  end.

(** The time stamp of a transmission: from the card with mediation ([tx]), otherwise the
    clock.  The result is the field [time]. *)
Definition phc_sample_tx (c : clock) (tx : Z) (m : PTPManager) : Z * PTPManager :=
  match c with
  | Mediated _ => (u64 tx, m)
  | Emulated _ => let '(ts, m) := phc_read c m in (time ts, m)
  end.

Definition PTP_ATQBAL_SET_TS (ts : Z) : Z := u32 ((ts .& 0xff00000000) .>> 16).
Definition PTP_ATQBAH_SET_TS (ts : Z) : Z := ts .& 0xffffffff.

Definition write_sb_atqbal (c : clock) (tx : Z → Z) (val : Z) (s : reg_state) : reg_state :=
  let s := put_reg "REG_PF_SB_ATQBAL" val s in
  if nz (val .& 0x80000000) then
    let reg_index := (val .>> 24) .& 0xf in
    let '(t, m) := phc_sample_tx c (tx reg_index) (rs_ptp s) in
    let s := s <| rs_ptp := m |> in
    put_reg "REG_PF_SB_ATQBAH" (PTP_ATQBAH_SET_TS (u64 (t .<< 8))) (put_reg "REG_PF_SB_ATQBAL" (PTP_ATQBAL_SET_TS (u64 (t .<< 8))) s)
  else s.

Definition PTP_GLTSYN_CMD_INIT_TIME_INCVAL : Z := 0x03.
Definition PTP_GLTSYN_CMD_ADJ_TIME : Z := 0x04.
Definition PTP_GLTSYN_CMD_SYNC_EXEC : Z := 3.

Definition s64 (x : Z) : Z := if u64 x <? 2 ^ 63 then u64 x else u64 x - 2 ^ 64.

(** The adjustment of the timer that the command selects. *)
Definition shadj (sel_master : Z) (s : reg_state) : result Z :=
  a ← of_opt (rd (REG_GLTSYN_SHADJ s) (2 * sel_master));
  b ← of_opt (rd (REG_GLTSYN_SHADJ s) (2 * sel_master + 1));
  Ok (s64 (u64 (a .<< 32) .| b)).

(** [here] is the address of [REG_GLTSYN_SHTIME]: the cast of the second and third word lacks
    an index and takes the address of the array. *)
Definition exec_cmd (here : Z) (s : reg_state) : result reg_state :=
  let sel_master := ((get "REG_GLTSYN_CMD" s) .& 0x100) .>> 8 in
  let cmd := get "REG_GLTSYN_CMD" s .& 0xff in
  if cmd =? PTP_GLTSYN_CMD_INIT_TIME_INCVAL then
    t0 ← of_opt (rd (REG_GLTSYN_SHTIME s) 0);
    let new_time := wrap 128 (t0 .| (here .<< 32) .| (here .<< 64)) in
    let s := s <| rs_ptp ::= phc_write new_time |> <| REG_GLTSYN_INCVAL := REG_GLTSYN_SHADJ s |> in
    a ← of_opt (rd (REG_GLTSYN_SHADJ s) 0);
    b ← of_opt (rd (REG_GLTSYN_SHADJ s) 1);
    let s := s <| rs_ptp ::= set_incval (a .| u64 (b .<< 32)) |> in
    adj ← shadj sel_master s;
    Ok (s <| rs_ptp ::= adjust adj |>)
  else if cmd =? PTP_GLTSYN_CMD_ADJ_TIME then
    adj ← shadj sel_master s;
    Ok (s <| rs_ptp ::= adjust adj |>)
  else Ok s.

Definition store_at (addr base val : Z) (a : list Z) : result (list Z) := of_opt (wr a ((addr - base) .>> 2) val).

Definition reg_switch_write (c : clock) (tx : Z → Z) (here addr val : Z) (s : reg_state) : result (reg_state * sact) :=
  match lookup_addr addr write_switch with
  | Some (w, a) => Ok (assign w val s, a)
  | None =>
      if addr =? PFGEN_CTRL then
        if (val .& 1) =? 1 then Ok (clear_single s, SReset) else Ok (s, SNone)
      else if addr =? PF_SB_ATQBAL then Ok (write_sb_atqbal c tx val s, SNone)
      else if addr =? PTP_GLTSYN_CMD_SYNC then
        if val =? PTP_GLTSYN_CMD_SYNC_EXEC then s ← exec_cmd here s; Ok (s, SNone) else Ok (s, SNone)
      else if in_range (PTP_GLTSYN_SHTIME 0) (PTP_GLTSYN_SHTIME 5) addr then
        a ← store_at addr (PTP_GLTSYN_SHTIME 0) val (REG_GLTSYN_SHTIME s); Ok (s <| REG_GLTSYN_SHTIME := a |>, SNone)
      else if in_range (PTP_GLTSYN_SHADJ 0) (PTP_GLTSYN_SHADJ 3) addr then
        a ← store_at addr (PTP_GLTSYN_SHADJ 0) val (REG_GLTSYN_SHADJ s); Ok (s <| REG_GLTSYN_SHADJ := a |>, SNone)
      else if addr =? PTP_GLTSYN_ENA 0 then
        a ← of_opt (wr (REG_GLTSYN_ENA s) 0 (val .& 1)); Ok (s <| REG_GLTSYN_ENA := a |>, SEnable)
      else if addr =? PTP_GLTSYN_ENA 1 then
        a ← of_opt (wr (REG_GLTSYN_ENA s) 1 (val .& 1)); Ok (s <| REG_GLTSYN_ENA := a |>, SEnable)
      else Ok (s, SNone)
  end.

(** ** Accesses of the guest *)

(** 4 or 8 bytes of the register region, 0 in the I/O region; [read32] is [reg_mem_read32]. *)
Definition BAR_REGS : Z := 0.
Definition BAR_IO : Z := 2.

Section access.
  Context {S : Type} (read32 : Z → S → result (Z * S)) (write32 : Z → Z → S → result S).

Definition RegRead32 (bar addr : Z) (s : S) : result (Z * S) :=
  if bar =? BAR_REGS then read32 addr s else if bar =? BAR_IO then Ok (0, s) else Abort.

Definition RegRead (bar addr len : Z) (s : S) : result (list Z * S) :=
  if len =? 4 then r ← RegRead32 bar addr s; Ok (le_bytes 4 r.1, r.2)
  else if len =? 8 then
    r ← RegRead32 bar addr s;
    q ← RegRead32 bar (u64 (addr + 4)) r.2;
    Ok (le_bytes 4 r.1 ++ le_bytes 4 q.1, q.2)
  else Abort.

Definition RegWrite32 (bar addr val : Z) (s : S) : result S :=
  if bar =? BAR_REGS then write32 addr val s else if bar =? BAR_IO then Ok s else Abort.

Definition RegWrite (bar addr : Z) (src : list Z) (s : S) : result S :=
  let len := Z.of_nat (length src) in
  if len =? 4 then RegWrite32 bar addr (le (take 4 src)) s
  else if len =? 8 then
    s ← RegWrite32 bar addr (le (take 4 src)) s;
    RegWrite32 bar (u64 (addr + 4)) (le (drop 4 src)) s
  else Abort.
End access.

(** ** What is read back *)

Lemma get_put r v s : get r (put_reg r v s) = v.
Proof. unfold get, put_reg. cbn. by rewrite lookup_insert_eq. Qed.
Lemma get_put_ne r r' v s : r ≠ r' → get r (put_reg r' v s) = get r s.
Proof. intros H. unfold get, put_reg. cbn. by rewrite lookup_insert_ne by done. Qed.

(** The base addresses of the queues: the halves can be written in any order, except for the
    receive queues, whose lower half takes the upper half of the other queue along. *)
Lemma atq_base c tx here lo hi s : in_width 32 lo → in_width 32 hi →
  (∃ s1 s2, reg_switch_write c tx here PF_FW_ATQBAL lo s = Ok (s1, SAtq) ∧ reg_switch_write c tx here PF_FW_ATQBAH hi s1 = Ok (s2, SAtq) ∧ get "pf_atqba" s2 .& Z.ones 32 = lo ∧ get "pf_atqba" s2 .>> 32 = hi) ∧
  (∃ s1 s2, reg_switch_write c tx here PF_FW_ARQBAH hi s = Ok (s1, SNone) ∧ reg_switch_write c tx here PF_FW_ARQBAL lo s1 = Ok (s2, SNone) ∧
     get "pf_arqba" s2 = lo .| (get "pf_atqba" s .& 0xffffffff00000000)).
Proof.
  intros Hlo Hhi. split.
  - eexists _, _. split; [reflexivity|]. split; [reflexivity|]. cbn [assign]. rewrite !get_put.
    assert (u64 (hi .<< 32) = hi .<< 32) as -> by (apply wrap_small; rewrite Z.shiftl_mul_pow2 by lia; unfold in_width in *; lia).
    set (x := lo .| _). assert (x .& 0xffffffff = lo) as Ex.
    { unfold x. apply Z.bits_inj'. intros j Hj. change 0xffffffff with (Z.ones 32). rewrite Z.land_spec, Z.lor_spec, Z.land_spec, Z.testbit_ones_nonneg by lia.
      change 0xffffffff00000000 with (Z.ones 32 .<< 32). rewrite Z.shiftl_spec by lia. destruct (Z.ltb_spec j 32).
      - rewrite (Z.testbit_neg_r _ (j - 32)) by lia. by rewrite andb_false_r, orb_false_r, andb_true_r.
      - rewrite andb_false_r. symmetry. apply (testbit_above 32 lo); [done|lia]. }
    rewrite Ex. rewrite Z.shiftl_mul_pow2 by lia. split.
    + rewrite Z.land_ones by lia. assert (hi * 2 ^ 32 .| lo = lo + hi * 2 ^ 32) as ->.
      { rewrite <- (Z.shiftl_mul_pow2 hi 32) at 1 by lia. rewrite lor_shift_add by (done || lia). lia. }
      rewrite Z_mod_plus_full. apply Z.mod_small. exact Hlo.
    + rewrite <- Z.shiftl_mul_pow2, Z.shiftr_lor, Z.shiftr_shiftl_l by lia. replace (lo .>> 32) with 0; [by rewrite Z.lor_0_r|].
      rewrite Z.shiftr_div_pow2 by lia. symmetry. apply Z.div_small. exact Hlo.
  - eexists _, _. split; [reflexivity|]. split; [reflexivity|]. cbn [assign]. rewrite get_put. by rewrite get_put_ne by done.
Qed.

(** The time of a transmission as the driver reads it: 40 bits in two registers, of which bit
    31 of the first is zero. *)
Lemma sb_timestamp c tx here val s ns : c = Mediated ns → Z.testbit val 31 = true → ∃ s',
  reg_switch_write c tx here PF_SB_ATQBAL val s = Ok (s', SNone) ∧
  let t := u64 (tx ((val .>> 24) .& 0xf)) in
  get "REG_PF_SB_ATQBAL" s' = 2 ^ 16 * slice (256 * t) 32 8 ∧ get "REG_PF_SB_ATQBAH" s' = slice (256 * t) 0 32.
Proof.
  intros -> Hb. unfold reg_switch_write. change (lookup_addr PF_SB_ATQBAL write_switch) with (@None (swrite * sact)). change (PF_SB_ATQBAL =? PFGEN_CTRL) with false. change (PF_SB_ATQBAL =? PF_SB_ATQBAL) with true.
  eexists. split; [done|]. cbn zeta. unfold write_sb_atqbal. change 0x80000000 with (2 ^ 31). rewrite nz_bit, Hb by lia. cbn [phc_sample_tx].
  set (t := u64 (tx _)). rewrite get_put_ne, !get_put by done. rewrite Z.shiftl_mul_pow2, (Z.mul_comm t) by lia. change (2 ^ 8) with 256.
  assert (∀ i n, 0 <= i → 0 <= n → i + n <= 64 → slice (u64 (256 * t)) i n = slice (256 * t) i n) as Hs.
  { intros i n Hi Hn Hin. apply Z.bits_inj'. intros j Hj. rewrite !slice_bit by lia. destruct (Z.ltb_spec j n); [|done]. rewrite testbit_wrap by lia. by rewrite (proj2 (Z.ltb_lt _ _)) by lia. }
  split.
  - unfold PTP_ATQBAL_SET_TS. rewrite <- (Hs 32 8) by lia. set (x := u64 (256 * t)). rewrite (Z.mul_comm (2 ^ 16)), <- Z.shiftl_mul_pow2 by lia. apply Z.bits_inj'. intros j Hj.
    rewrite testbit_wrap, Z.shiftr_spec, Z.land_spec, Z.shiftl_spec by lia. change 0xff00000000 with (Z.ones 8 .<< 32). rewrite Z.shiftl_spec by lia. destruct (Z.ltb_spec j 16).
    + rewrite (Z.testbit_neg_r _ (j - 16)), (Z.testbit_neg_r _ (j + 16 - 32)) by lia. by rewrite !andb_false_r.
    + rewrite slice_bit, Z.testbit_ones_nonneg by lia. replace (32 + (j - 16)) with (j + 16) by lia. destruct (Z.ltb_spec (j - 16) 8), (Z.ltb_spec (j + 16 - 32) 8), (Z.ltb_spec j 32); try lia; by rewrite ?andb_true_r, ?andb_false_r.
  - unfold PTP_ATQBAH_SET_TS. rewrite <- (Hs 0 32) by lia. apply (land_ones_slice _ 32); [lia|done].
Qed.

(** The shadow time is read at the byte offset: its third to last word are outside of the
    array. *)
Lemma shtime_out_of_bounds c i s : length (REG_GLTSYN_SHTIME s) = 6%nat → 2 <= i <= 5 → reg_switch_read c (PTP_GLTSYN_SHTIME i) s = Undef.
Proof.
  intros Hl Hi. destruct s as [sc ena sh adj inc pe ptp]. cbn in Hl. do 6 (destruct sh as [|? sh]; [done|]). destruct sh; [|done].
  assert (i = 2 ∨ i = 3 ∨ i = 4 ∨ i = 5) as [-> | [-> | [-> | ->]]] by lia; reflexivity.
Qed.

Definition demo_regs_state : reg_state := clear_single (mkRegs ∅ [] [] [] [] (mkPfpe 0 0 0 0 0) new_ptp).
