(* ===== verification/E810Mem.v ===== *)
(** * Register accesses

    [reg_mem_read32] and [reg_mem_write32] of e810_bm.cc as a whole: the cases for the arrays
    ([E810Regs]), the switch behind them ([E810RegSwitch]), and the calls into the other
    components that follow a write ([E810Lan], [E810Adminq], [E810Cqp]).  Which accesses are
    undefined. *)
From stdpp Require Import strings gmap.
From S2P Require Import Prelude E810Base VmuxDma E810Queue IceCtx E810Lan E810Regs E810RegsSpec E810Adminq E810Ptp VmuxIrq E810Irq E810Cqp E810RegSwitch.
Local Open Scope Z_scope.

(** ** State *)

(** The arrays of [regs] and its other registers; [qtx_ena], which no guest can access; the
    contexts of the transmit queues; the queues; the parts of the RDMA function; the interrupt
    throttlers; guest memory; whether the clock was enabled in the driver. *)
Record e810_bm := mkDev {
  arrs : reg_file; singles : reg_state; qtx_enas : list Z; tx_ctxs : list (list Z);
  rx_queues : list lan_queue_base; tx_queues : list lan_queue_base; pf_atq : queue_base;
  dev_cqp : control_queue_pair; cem : list completion_event_queue; throttlers : list throttler; guest : memory; timesync : bool
}.
#[export] Instance dev_settable : Settable e810_bm := fun r =>
  mkDev (arrs r) (singles r) (qtx_enas r) (tx_ctxs r) (rx_queues r) (tx_queues r) (pf_atq r) (dev_cqp r) (cem r) (throttlers r) (guest r) (timesync r).

Definition arr (a : string) (d : e810_bm) : list Z := default [] (arrs d !! a).

(** The registers of the interrupts and of the RDMA function as their components see them.
    These components change no array of registers. *)
Definition rdma_of (d : e810_bm) : rdma :=
  mkRdma (dev_cqp d) (rs_pfpe (singles d)) (cem d)
    (mkIntRegs (arr "pfint_dyn_ctln" d) (arr "glint_ceqctl" d) (arr "GLINT_ITR0" d) (arr "GLINT_ITR1" d) (arr "GLINT_ITR2" d) (get "pfint_icr0" (singles d)))
    (throttlers d) (guest d).

Definition with_rdma (r : rdma) (d : e810_bm) : e810_bm :=
  d <| dev_cqp := cqp r |> <| cem := ceqs r |> <| throttlers := irqs r |> <| guest := mem r |>
    <| singles ::= fun s => put_reg "pfint_icr0" (pfint_icr0 (ints r)) (s <| rs_pfpe := pfpe r |>) |>.

(** [reg_tail] of queue [idx] is a reference to an element of [tails]. *)
Definition see_tail (tails : list Z) (idx : Z) (qs : list lan_queue_base) : list lan_queue_base :=
  match rd qs idx, rd tails idx with
  | Some l, Some t => <[Z.to_nat idx := l <| lq ::= fun q => q <| reg_tail := t |> |>]> qs
  | _, _ => qs
  end.

(** ** Calls after a write *)

(** The size of the buffers and the other settings of a receive queue are those of [E810Rx]. *)
Definition rx_queue_init (ctx_regs : list Z) (idx : Z) (q : queue_base) : result queue_base :=
  r ← rx_initialize ctx_regs idx q; Ok r.1.

Definition rx_tail_updated (idx : Z) (d : e810_bm) : result (e810_bm * list started) :=
  '(qs, st) ← tail_updated idx (see_tail (arr "qrx_tail" d) (u16 idx) (rx_queues d));
  Ok (d <| rx_queues := qs |>, [st]).

Definition tx_tail_updated (idx : Z) (d : e810_bm) : result (e810_bm * list started) :=
  '(qs, st) ← tail_updated idx (see_tail (arr "QTX_COMM_DBELL" d) (u16 idx) (tx_queues d));
  Ok (d <| tx_queues := qs |>, [st]).

(** [lanmgr.qena_updated(idx, true)]: what is passed to [tail_updated] is the content of the
    tail register. *)
Definition rx_qena_updated (idx : Z) (d : e810_bm) : result (e810_bm * list started) :=
  '(ena, qs, eff) ← E810Lan.qena_updated (rx_queue_init (arr "QRX_CONTEXT" d)) idx (arr "qrx_ena" d)
      (see_tail (arr "qrx_tail" d) (u16 idx) (rx_queues d));
  let d := d <| arrs ::= <["qrx_ena" := ena]> |> <| rx_queues := qs |> in
  match eff with
  | None => Ok (d, [])
  | Some st =>
      tail ← of_opt (rd (arr "qrx_tail" d) (u16 idx));
      '(d, sts) ← rx_tail_updated tail d;
      Ok (d, st :: sts)
  end.

Definition tx_qena_updated (idx : Z) (d : e810_bm) : result (e810_bm * list started) :=
  '(ena, qs, eff) ← E810Lan.qena_updated (tx_queue (tx_ctxs d)) idx (qtx_enas d)
      (see_tail (arr "QTX_COMM_DBELL" d) (u16 idx) (tx_queues d));
  Ok (d <| qtx_enas := ena |> <| tx_queues := qs |>, from_option (fun st => [st]) [] eff).

(** [pf_atq.reg_updated()]; base, length, head and tail of the queue are references to
    registers. *)
Definition atq_reg_updated (d : e810_bm) : result (e810_bm * list started) :=
  let s := singles d in
  '(q, f, ps, w) ← admin_reg_updated (get "pf_atqba" s) (get "pf_atqlen" s)
      ((pf_atq d) <| reg_head := get "pf_atqh" s |> <| reg_tail := get "pf_atqt" s |>);
  Ok (d <| pf_atq := q |> <| singles := put_reg "pf_atqh" (reg_head q) s |>, [(f, ps, w)]).

Definition reset_queue (l : lan_queue_base) : lan_queue_base := l <| lq ::= reset |>.

(** [reset(true)]: the queues, then [memset(&regs, 0, sizeof(regs))].  The contexts of the
    transmit queues and the RDMA function are not reset.  The packets that a receive queue
    holds back ([E810Rx]), the state of a segmentation ([E810Tx]) and the hash key ([E810Rss])
    are not part of [e810_bm]. *)
Definition dev_reset (d : e810_bm) : e810_bm :=
  d <| pf_atq ::= reset |> <| rx_queues ::= fmap reset_queue |> <| tx_queues ::= fmap reset_queue |>
    <| arrs := clear_regs |> <| singles ::= clear_single |> <| qtx_enas ::= fmap (fun _ => 0) |>.

Section calls.
Context (ms : mappings) (now : timespec) (found : cqp_uninit).

Definition perform (a : act) (idx : Z) (d : e810_bm) : result (e810_bm * list started) :=
  match a with
  | ANone => Ok (d, [])
  | ATail true => rx_tail_updated idx d
  | ATail false => tx_tail_updated idx d
  | AQena true => rx_qena_updated idx d
  | AQena false => tx_qena_updated idx d
  | ACeq => r ← E810Cqp.qena_updated now idx (rdma_of d); Ok (with_rdma r d, [])
  end.

(** [shram.reg_updated] returns at once. *)
Definition perform_switch (a : sact) (d : e810_bm) : result (e810_bm * list started) :=
  match a with
  | SNone | SShram => Ok (d, [])
  | SAtq => atq_reg_updated d
  | SReset => Ok (dev_reset d, [])
  | SEnable => Ok (d <| timesync := true |>, [])
  end.

Definition pfpe_addr (addr : Z) : bool := existsb (Z.eqb addr) [PFPE_CCQPSTATUS; PFPE_CQPDB; PFPE_CCQPHIGH; PFPE_CCQPLOW; PFPE_CQPTAIL].

(** ** Accesses *)

Definition reg_mem_write32 (c : clock) (tx : Z → Z) (here addr val : Z) (d : e810_bm) : result (e810_bm * list started) :=
  w ← reg_array_write addr val (arrs d);
  match w with
  | Some (regs, a, idx) => perform a idx (d <| arrs := regs |>)
  | None =>
      if pfpe_addr addr then r ← pfpe_write ms now found addr val (rdma_of d); Ok (with_rdma r d, [])
      else '(s, a) ← reg_switch_write c tx here addr val (singles d); perform_switch a (d <| singles := s |>)
  end.

Definition reg_mem_read32 (c : clock) (addr : Z) (d : e810_bm) : result (Z * e810_bm) :=
  r ← reg_array_read addr (arrs d);
  match r with
  | Some (v, regs) => Ok (v, d <| arrs := regs |>)
  | None => '(v, s) ← reg_switch_read c addr (singles d); Ok (v, d <| singles := s |>)
  end.
End calls.

(** ** Well-formed states *)

Record dev_ok (d : e810_bm) : Prop := {
  dev_arrs : E810RegsSpec.regs_ok (arrs d);
  dev_ena : length (REG_GLTSYN_ENA (singles d)) = 2%nat;
  dev_shtime : length (REG_GLTSYN_SHTIME (singles d)) = 6%nat;
  dev_shadj : length (REG_GLTSYN_SHADJ (singles d)) = 4%nat;
  dev_qtx : length (qtx_enas d) = Z.to_nat 2048;
  dev_ctxs : length (tx_ctxs d) = Z.to_nat 2048;
  dev_ctx : Forall (fun c => length c = 22%nat) (tx_ctxs d);
  dev_rx : length (rx_queues d) = Z.to_nat 1536;
  dev_rxqs : Forall lanq_ok (rx_queues d);
  dev_tx : length (tx_queues d) = Z.to_nat 1536;
  dev_txqs : Forall lanq_ok (tx_queues d);
  dev_atq : length (desc_ctxs (pf_atq d)) = 128%nat;
  dev_cem : length (cem d) = Z.to_nat 1536;
  dev_irqs : length (throttlers d) = 16%nat
}.

(** A call is undefined exactly in the case [F], and otherwise keeps the state well-formed. *)
Definition outcome (m : result (e810_bm * list started)) (F : Prop) : Prop :=
  (m = Undef ↔ F) ∧ ∀ d' st, m = Ok (d', st) → dev_ok d'.

Lemma outcome_safe m : safe (fun r => dev_ok r.1) m → outcome m False.
Proof. destruct m as [[d st]| |]; cbn; [|done..]. intros Hd. split; [done|]. by intros d' st' [= <- _]. Qed.

Lemma outcome_undef (F : Prop) : F → outcome Undef F.
Proof. by split. Qed.

#[export] Instance outcome_proper : Proper (eq ==> iff ==> iff) outcome.
Proof. intros m ? <- F G E. unfold outcome. by rewrite E. Qed.

Lemma outcome_iff m (F G : Prop) : F ↔ G → outcome m F → outcome m G.
Proof. by intros ->. Qed.

Lemma arr_length a n d : dev_ok d → (a, n) ∈ reg_arrays → Z.of_nat (length (arr a d)) = n.
Proof. intros Hd Ha. destruct (dev_arrs d Hd a n Ha) as (l & E & Hl). unfold arr. by rewrite E. Qed.

Ltac array_in := unfold reg_arrays; repeat (first [left; reflexivity | right]).

Lemma see_tail_ok tails i qs : Forall lanq_ok qs → Forall lanq_ok (see_tail tails i qs) ∧ length (see_tail tails i qs) = length qs.
Proof.
  intros Hq. unfold see_tail. destruct (rd qs i) as [l|] eqn:E; [|done]. destruct (rd tails i); [|done]. rewrite length_insert. split; [|done].
  apply Forall_insert; [done|]. destruct (rd_Forall _ _ _ _ Hq E) as (? & ? & ?). by split_and!.
Qed.

(** ** The queues *)

Lemma rx_tail_spec idx d : dev_ok d → outcome (rx_tail_updated idx d) (1536 <= u16 idx).
Proof.
  intros Hd. unfold rx_tail_updated. destruct (see_tail_ok (arr "qrx_tail" d) (u16 idx) (rx_queues d) (dev_rxqs d Hd)) as [H1 H2].
  pose proof (tail_updated_ok idx _ H1) as Ht. rewrite H2, (dev_rx d Hd) in Ht. destruct (Z.ltb_spec (u16 idx) (Z.of_nat (Z.to_nat 1536))).
  - eapply (outcome_iff _ False); [split; [done|lia]|]. apply outcome_safe. eapply safe_bind; [exact Ht|]. intros [qs st] [H3 H4]. cbn [fst] in *.
    destruct Hd; split; try done; cbn; lia.
  - rewrite Ht. apply outcome_undef. lia.
Qed.

Lemma tx_tail_spec idx d : dev_ok d → outcome (tx_tail_updated idx d) (1536 <= u16 idx).
Proof.
  intros Hd. unfold tx_tail_updated. destruct (see_tail_ok (arr "QTX_COMM_DBELL" d) (u16 idx) (tx_queues d) (dev_txqs d Hd)) as [H1 H2].
  pose proof (tail_updated_ok idx _ H1) as Ht. rewrite H2, (dev_tx d Hd) in Ht. destruct (Z.ltb_spec (u16 idx) (Z.of_nat (Z.to_nat 1536))).
  - eapply (outcome_iff _ False); [split; [done|lia]|]. apply outcome_safe. eapply safe_bind; [exact Ht|]. intros [qs st] [H3 H4]. cbn [fst] in *.
    destruct Hd; split; try done; cbn; lia.
  - rewrite Ht. apply outcome_undef. lia.
Qed.

(** Enabling a transmit queue: its context gives it no descriptors. *)
Definition tx_fault (idx : Z) (d : e810_bm) : Prop :=
  no_descriptors (tx_queue (tx_ctxs d)) idx (qtx_enas d) (see_tail (arr "QTX_COMM_DBELL" d) (u16 idx) (tx_queues d)).

Lemma tx_qena_spec idx d : dev_ok d → outcome (tx_qena_updated idx d) (1536 <= u16 idx ∨ tx_fault idx d).
Proof.
  intros Hd. unfold tx_qena_updated, tx_fault. destruct (see_tail_ok (arr "QTX_COMM_DBELL" d) (u16 idx) (tx_queues d) (dev_txqs d Hd)) as [H1 H2].
  set (qs := see_tail _ _ _) in *. rewrite (dev_tx d Hd) in H2. pose proof (dev_qtx d Hd) as H3. pose proof (dev_ctxs d Hd) as H4.
  destruct (qena_updated_ok (tx_queue (tx_ctxs d)) idx (qtx_enas d) qs H1) as [HU HK]; [intros i Hi; apply tx_queue_ok; [apply (dev_ctx d Hd)|lia]|lia|].
  replace (Z.of_nat (length qs)) with 1536 in HU by lia. rewrite <- HU.
  destruct (E810Lan.qena_updated _ _ _ _) as [[[ena qs'] eff]| |]; cbn [mbind result_bind]; [|done..].
  split; [done|]. intros d' st [= <- _]. destruct (HK _ _ _ eq_refl) as (K1 & K2 & K3). destruct Hd. split; try done; cbn; lia.
Qed.

(** Enabling a receive queue: its context gives it no descriptors, or it is started and its
    tail register does not hold the number of a queue. *)
Definition rx_fault (idx : Z) (d : e810_bm) : Prop :=
  let qs := see_tail (arr "qrx_tail" d) (u16 idx) (rx_queues d) in
  no_descriptors (rx_queue_init (arr "QRX_CONTEXT" d)) idx (arr "qrx_ena" d) qs ∨
  queue_starts (rx_queue_init (arr "QRX_CONTEXT" d)) idx (arr "qrx_ena" d) qs ∧
    ∃ tail, rd (arr "qrx_tail" d) (u16 idx) = Some tail ∧ 1536 <= u16 tail.

Lemma dev_ok_ena ena qs d : dev_ok d → Z.of_nat (length ena) = 2048 → Forall lanq_ok qs → length qs = Z.to_nat 1536 →
  dev_ok (d <| arrs ::= <["qrx_ena" := ena]> |> <| rx_queues := qs |>).
Proof.
  intros [] He Hq Hl. split; try done. cbn. intros a n Ha. destruct (decide (a = "qrx_ena")) as [->|].
  - rewrite lookup_insert_eq. exists ena. split; [done|]. rewrite He. eapply array_size; [|exact Ha]. array_in.
  - rewrite lookup_insert_ne by done. by apply dev_arrs0.
Qed.

Lemma rx_qena_spec idx d : dev_ok d → outcome (rx_qena_updated idx d) (1536 <= u16 idx ∨ rx_fault idx d).
Proof.
  intros Hd. unfold rx_qena_updated, rx_fault. destruct (see_tail_ok (arr "qrx_tail" d) (u16 idx) (rx_queues d) (dev_rxqs d Hd)) as [H1 H2].
  set (qs := see_tail _ _ _) in *. rewrite (dev_rx d Hd) in H2.
  assert (Z.of_nat (length (arr "qrx_ena" d)) = 2048) as H3 by (apply arr_length; [done|array_in]).
  assert (Z.of_nat (length (arr "QRX_CONTEXT" d)) = 16384) as H4 by (apply arr_length; [done|array_in]).
  destruct (qena_updated_ok (rx_queue_init (arr "QRX_CONTEXT" d)) idx (arr "qrx_ena" d) qs H1) as [HU HK]; [intros i Hi; apply rx_initialize_ok; [done|lia]|lia|].
  replace (Z.of_nat (length qs)) with 1536 in HU by lia. pose proof (qena_started (rx_queue_init (arr "QRX_CONTEXT" d)) idx (arr "qrx_ena" d) qs) as HS.
  destruct (E810Lan.qena_updated _ _ _ _) as [[[ena qs'] eff]| |]; cbn [mbind result_bind].
  2: { split; [|done]. split; [done|]. intros [H|[H|[H _]]]; [discriminate (proj2 HU (or_introl H))|discriminate (proj2 HU (or_intror H))|]. apply HS in H as (? & ? & ? & H). done. }
  2: { apply outcome_undef. destruct (proj1 HU eq_refl); auto. }
  destruct (HK _ _ _ eq_refl) as (K1 & K2 & K3). assert (¬ (1536 <= u16 idx ∨ no_descriptors (rx_queue_init (arr "QRX_CONTEXT" d)) idx (arr "qrx_ena" d) qs)) as HN by (intros H; by apply HU in H).
  set (d1 := d <| arrs ::= _ |> <| rx_queues := _ |>). assert (dev_ok d1) as Hd1 by (apply dev_ok_ena; [done|lia|done|lia]).
  assert (arr "qrx_tail" d1 = arr "qrx_tail" d) as Et by (unfold arr, d1; cbn; by rewrite lookup_insert_ne by done).
  destruct eff as [st|]; cbn [mbind result_bind].
  - rewrite Et. assert (Z.of_nat (length (arr "qrx_tail" d)) = 2048) as H5 by (apply arr_length; [done|array_in]).
    pose proof (wrap_width 16 idx ltac:(lia)) as [Hi _]. destruct (rd_in_range (arr "qrx_tail" d) (u16 idx)) as [t Er]; [lia|]. rewrite Er. cbn [of_opt mbind result_bind].
    destruct (rx_tail_spec t d1 Hd1) as [R1 R2]. assert (queue_starts (rx_queue_init (arr "QRX_CONTEXT" d)) idx (arr "qrx_ena" d) qs) as Hst by (apply HS; by eexists _, _, _).
    split.
    + destruct (rx_tail_updated t d1) as [[d2 sts]| |]; cbn [mbind result_bind]; split; try done.
      * intros [H|[H|(_ & t' & [= <-] & H)]]; [tauto..|]. by apply R1 in H.
      * intros [H|[H|(_ & t' & [= <-] & H)]]; [tauto..|]. by apply R1 in H.
      * intros _. right. right. split; [done|]. exists t. split; [done|]. by apply R1.
    + intros d' sts'. destruct (rx_tail_updated t d1) as [[d2 sts]| |]; cbn [mbind result_bind]; [|done..]. intros [= <- _]. by eapply R2.
  - split; [|by intros d' st [= <- _]]. split; [done|]. intros [H|[H|[H _]]]; [tauto..|]. by apply HS in H as (? & ? & ? & [= _ _ ?]).
Qed.

(** ** The RDMA function *)

Definition sizes (r r' : rdma) : Prop := length (ceqs r') = length (ceqs r) ∧ length (irqs r') = length (irqs r).
Definition keeps (r : rdma) (m : result rdma) : Prop := ∀ r', m = Ok r' → sizes r r'.

Lemma with_rdma_ok r d : dev_ok d → sizes (rdma_of d) r → dev_ok (with_rdma r d).
Proof. intros [] [H1 H2]. cbn in H1, H2. split; try done; cbn; lia. Qed.

Lemma keeps_ok r s : sizes r s → keeps r (Ok s).
Proof. by intros H r' [= <-]. Qed.
Lemma keeps_value {A} r (m : result A) f : (∀ a, keeps r (f a)) → keeps r (m ≫= f).
Proof. intros H r'. destruct m; [apply H|done..]. Qed.
Lemma keeps_then r m f : keeps r m → (∀ s, sizes r s → keeps r (f s)) → keeps r (m ≫= f).
Proof. intros H1 H2 r'. destruct m as [s| |]; [|done..]. cbn. by apply H2, H1. Qed.

Create HintDb keeps.
#[export] Hint Resolve keeps_ok : keeps.
#[export] Hint Extern 1 (sizes _ _) => assumption : keeps.
#[export] Hint Extern 4 (keeps _ (if ?b then _ else _)) => destruct b : keeps.
#[export] Hint Extern 4 (keeps _ (_ ≫= _)) => first [apply keeps_then; [|intros ? ?] | apply keeps_value; intros ?] : keeps.

Section rdma.
Context (ms : mappings) (now : timespec) (found : cqp_uninit) (r : rdma).

Lemma keeps_write a b s : sizes r s → keeps r (data_write ms a b s).
Proof. intros Hs. unfold data_write. apply keeps_value. intros x. by apply keeps_ok. Qed.
Lemma keeps_complete b p s : sizes r s → keeps r (complete_in ms b p s).
Proof. intros Hs. unfold complete_in, cqp_complete_indir. do 2 (apply keeps_value; intros ?). by apply keeps_write. Qed.
Lemma keeps_signal v i s : sizes r s → keeps r (ceq_tail_updated now v i s).
Proof.
  intros [H1 H2]. unfold ceq_tail_updated, SignalInterrupt. intros r' Hr. destruct (_ : result Z) as [m| |] in Hr; [|done..]. cbn in Hr. unfold MsiXIssue in Hr.
  destruct (rd (irqs s) _); [|done]. cbn in Hr. destruct (wr _ _ _) as [ts|] eqn:E in Hr; [|done]. cbn in Hr. injection Hr as <-. apply wr_length in E. split; cbn; congruence.
Qed.
Lemma keeps_qena i s : sizes r s → keeps r (E810Cqp.qena_updated now i s).
Proof.
  intros [H1 H2]. unfold E810Cqp.qena_updated. cbv zeta. do 3 (apply keeps_value; intros ?). destruct (_ || _); [by apply keeps_ok|].
  destruct (negb _).
  - intros r'. destruct (wr (ceqs s) _ _) as [qs|] eqn:E; [|done]. apply wr_length in E. apply keeps_signal. split; cbn; congruence.
  - apply keeps_signal. by destruct (_ =? _).
Qed.
#[local] Hint Resolve keeps_write keeps_complete keeps_qena : keeps.

Lemma keeps_process desc s : sizes r s → keeps r (cqp_process ms now found desc s).
Proof.
  intros Hs. unfold cqp_process. apply keeps_value. intros temp. cbv zeta. apply keeps_then; [|intros s1 Hs1; by apply keeps_ok].
  unfold op_query_fpm, op_create_cq, op_query_features, op_create_ceq, op_create_aeq, op_gather_stats, op_qp, cqp_complete_indir, count.
  repeat match goal with |- keeps _ (if _ then _ else _) => destruct (_ =? _) end; auto 12 with keeps.
  - do 2 (apply keeps_value; intros ?). apply keeps_then; [apply keeps_complete; by destruct (_ <? _)|intros s1 Hs1]. auto with keeps.
  - do 2 (apply keeps_value; intros ?). apply keeps_then; [by apply keeps_write|intros s1 Hs1]. apply keeps_value. intros ?.
    apply keeps_then; [by apply keeps_complete|intros s2 Hs2]. apply keeps_then; [by apply keeps_qena|intros s3 [H1 H2]]. apply keeps_value. intros ceq.
    intros r'. destruct (wr (ceqs s3) _ _) as [qs|] eqn:E; [|done]. apply wr_length in E. intros [= <-]. split; cbn; congruence.
Qed.

Lemma keeps_pfpe addr val s : sizes r s → keeps r (pfpe_write ms now found addr val s).
Proof.
  intros Hs. unfold pfpe_write, cqp_reg_updated, cqp_trigger_fetch, create_cqp. cbv zeta.
  repeat match goal with |- keeps _ (if _ then _ else _) => case_match end; try (by apply keeps_ok).
  - apply keeps_value. intros x. by apply keeps_process.
  - apply keeps_value. intros x. apply keeps_value. intros q. by apply keeps_ok.
Qed.
End rdma.

(** A completion event queue raises its interrupt: the vector has no throttler. *)
Definition ceq_fault (idx : Z) (d : e810_bm) : Prop :=
  ∃ dyn ctl, rd (arr "pfint_dyn_ctln" d) (u16 idx) = Some dyn ∧ rd (arr "glint_ceqctl" d) (u16 idx) = Some ctl ∧
    nz (FIELD_GET IRDMA_GLINT_CEQCTL_CAUSE_ENA ctl) = true ∧ nz (0x1 .& dyn) = true ∧
    NUM_MSIX_IRQs <= u8 (0x7ff .& u32 (FIELD_GET IRDMA_GLINT_CEQCTL_MSIX_INDX ctl)).

Lemma land_low k x : 0 <= k → 0 <= Z.ones k .& x < 2 ^ k.
Proof. intros. rewrite Z.land_comm, Z.land_ones by done. apply Z.mod_pos_bound. lia. Qed.

Lemma signal_undef now v i s : E810Irq.regs_ok (ints s) → length (irqs s) = 16%nat → 0 <= v < 2048 → 0 <= i < 4 →
  ceq_tail_updated now v i s = Undef ↔ NUM_MSIX_IRQs <= u8 v.
Proof.
  intros [_ _ L0 L1 L2] Ht Hv Hi. unfold ceq_tail_updated, SignalInterrupt. rewrite (wrap_small 16 v), (wrap_small 8 i) by (unfold in_width; lia).
  assert (∀ l : list Z, Z.of_nat (length l) = 2048 → ∃ x, rd l v = Some x) as Hrd by (intros l Hl; destruct (rd_in_range l v ltac:(lia)); eauto).
  destruct (Hrd _ L0) as [x0 ->], (Hrd _ L1) as [x1 ->], (Hrd _ L2) as [x2 ->].
  assert (∀ m, (MsiXIssue now v m (irqs s) ≫= fun ts => Ok (s <| irqs := ts |>)) = Undef ↔ NUM_MSIX_IRQs <= u8 v) as Hm.
  { intros m. unfold MsiXIssue, NUM_MSIX_IRQs. pose proof (wrap_width 8 v ltac:(lia)) as [Hw _]. destruct (Z.ltb_spec (u8 v) 16).
    - destruct (rd_in_range (irqs s) (u8 v)) as [t ->]; [lia|]. cbn [of_opt mbind result_bind]. rewrite wr_in_range by lia. cbn. split; [done|lia].
    - rewrite rd_out by lia. cbn. split; [lia|done]. }
  assert (i = 0 ∨ i = 1 ∨ i = 2 ∨ i = 3) as [-> | [-> | [-> | ->]]] by lia; apply Hm.
Qed.

Lemma ceq_spec now idx d : dev_ok d →
  outcome (r ← E810Cqp.qena_updated now idx (rdma_of d); Ok (with_rdma r d, [])) (1536 <= u16 idx ∨ ceq_fault idx d).
Proof.
  intros Hd. pose proof (keeps_qena now (rdma_of d) idx (rdma_of d) (conj eq_refl eq_refl)) as Hk.
  assert (E810Cqp.qena_updated now idx (rdma_of d) = Undef ↔ 1536 <= u16 idx ∨ ceq_fault idx d) as HU.
  2: { destruct (E810Cqp.qena_updated _ _ _) as [r| |]; cbn [mbind result_bind]; [|by rewrite <- HU|by apply outcome_undef, HU].
       rewrite <- HU. split; [done|]. intros d' st [= <- _]. apply with_rdma_ok; [done|]. by apply Hk. }
  assert (Z.of_nat (length (arr "pfint_dyn_ctln" d)) = 2047) as L1 by (apply arr_length; [done|array_in]).
  assert (Z.of_nat (length (arr "glint_ceqctl" d)) = 2048) as L2 by (apply arr_length; [done|array_in]).
  assert (E810Irq.regs_ok (ints (rdma_of d))) as Hr by (split; cbn; apply arr_length; (done || array_in)).
  unfold E810Cqp.qena_updated, ceq_fault. cbv zeta. cbn [rdma_of ints pfint_dyn_ctln glint_ceqctl ceqs].
  pose proof (wrap_width 16 idx ltac:(lia)) as [H0 _]. set (i := u16 idx) in *. pose proof (dev_cem d Hd) as L3.
  destruct (Z.ltb_spec i 1536) as [Hlt|Hge].
  2: { split; [by left|]. intros _. destruct (rd (arr "pfint_dyn_ctln" d) i); [|done]. destruct (rd (arr "glint_ceqctl" d) i); [|done]. cbn [of_opt mbind result_bind]. by rewrite rd_out by lia. }
  destruct (rd_in_range (arr "pfint_dyn_ctln" d) i) as [dyn ->]; [lia|]. destruct (rd_in_range (arr "glint_ceqctl" d) i) as [ctl ->]; [lia|].
  destruct (rd_in_range (cem d) i) as [q Eq]; [lia|]. rewrite Eq. cbn [of_opt mbind result_bind].
  set (v := 0x7ff .& _). set (t := 0x3 .& _). assert (0 <= v < 2048) as Hv by (apply (land_low 11); lia). assert (0 <= t < 4) as Ht by (apply (land_low 2); lia).
  destruct (nz (FIELD_GET _ ctl)) eqn:E1; [|split; [done|intros [?|(? & ? & [= <-] & [= <-] & ? & _)]; [lia|congruence]]].
  destruct (nz (1 .& dyn)) eqn:E2; [|split; [done|intros [?|(? & ? & [= <-] & [= <-] & _ & ? & _)]; [lia|congruence]]]. cbn [negb orb].
  assert (NUM_MSIX_IRQs <= u8 v ↔ 1536 <= i ∨ ∃ dyn' ctl', Some dyn = Some dyn' ∧ Some ctl = Some ctl' ∧ nz (FIELD_GET IRDMA_GLINT_CEQCTL_CAUSE_ENA ctl') = true ∧ nz (0x1 .& dyn') = true ∧
    NUM_MSIX_IRQs <= u8 (0x7ff .& u32 (FIELD_GET IRDMA_GLINT_CEQCTL_MSIX_INDX ctl'))) as <-.
  { split; [intros H; right; by exists dyn, ctl|]. intros [?|(? & ? & [= <-] & [= <-] & _ & _ & H)]; [lia|done]. }
  destruct (negb (ceq_enabled q)).
  - rewrite wr_in_range by lia. cbn [of_opt mbind result_bind]. apply signal_undef; [exact Hr|exact (dev_irqs d Hd)|done|done].
  - destruct (v =? 0) eqn:Ev; (apply signal_undef; [by destruct Hr|exact (dev_irqs d Hd)|done|done]).
Qed.

(** ** The admin queue *)

(** The queue is enabled without descriptors. *)
Definition atq_fault (s : reg_state) : Prop := nz (get "pf_atqlen" s .& 0x80000000) = true ∧ get "pf_atqlen" s .& 0x3FF = 0.

Lemma atq_spec d : dev_ok d → outcome (atq_reg_updated d) (atq_fault (singles d)).
Proof.
  intros Hd. unfold atq_reg_updated, admin_reg_updated, atq_fault. cbv zeta. set (ena := nz _). set (n := get "pf_atqlen" (singles d) .& 0x3FF).
  match goal with |- context [E810Queue.reg_updated ?x] => set (q := x) end. assert (length (desc_ctxs q) = 128%nat ∧ E810Queue.enabled q = ena ∧ E810Queue.len q = n) as (Hl & He & Hn).
  { unfold q. cbn. pose proof (dev_atq d Hd). destruct (E810Queue.enabled (pf_atq d)) eqn:E, ena; cbn; by rewrite ?E. }
  pose proof (reg_updated_safe q Hl) as Hs. rewrite He, Hn in Hs. destruct ena; cbn [andb] in Hs; [destruct (Z.eqb_spec n 0)|].
  - rewrite Hs. by apply outcome_undef.
  - eapply (outcome_iff _ False); [tauto|]. apply outcome_safe. eapply safe_bind; [exact Hs|]. intros [[[q' f] ps] w] (K & _ & _). cbn [fst] in *. destruct Hd. by split.
  - eapply (outcome_iff _ False); [split; [done|by intros [? _]]|]. apply outcome_safe. eapply safe_bind; [exact Hs|]. intros [[[q' f] ps] w] (K & _ & _). cbn [fst] in *. destruct Hd. by split.
Qed.

(** ** The switch *)

Definition singles_ok (s : reg_state) : Prop :=
  length (REG_GLTSYN_ENA s) = 2%nat ∧ length (REG_GLTSYN_SHTIME s) = 6%nat ∧ length (REG_GLTSYN_SHADJ s) = 4%nat.

Lemma dev_singles s d : dev_ok d → singles_ok s → dev_ok (d <| singles := s |>).
Proof. intros [] (? & ? & ?). by split. Qed.

Lemma shadj_ok m s : length (REG_GLTSYN_SHADJ s) = 4%nat → 0 <= m <= 1 → ∃ v, shadj m s = Ok v.
Proof.
  intros Hl Hm. unfold shadj. destruct (rd_in_range (REG_GLTSYN_SHADJ s) (2 * m)) as [a ->]; [lia|].
  destruct (rd_in_range (REG_GLTSYN_SHADJ s) (2 * m + 1)) as [b ->]; [lia|]. by eexists.
Qed.

Lemma exec_cmd_ok here s : singles_ok s → safe singles_ok (exec_cmd here s).
Proof.
  intros (H1 & H2 & H3). unfold exec_cmd. set (m := _ .>> 8). assert (0 <= m <= 1) as Hm.
  { pose proof (mask_bound (get "REG_GLTSYN_CMD" s) 8 1 ltac:(lia) ltac:(lia)) as Hb. change (Z.ones 1 .<< 8) with 0x100 in Hb. unfold m. lia. }
  case_match.
  - destruct (rd_in_range (REG_GLTSYN_SHTIME s) 0) as [t ->]; [lia|]. cbn [of_opt mbind result_bind].
    destruct (rd_in_range (REG_GLTSYN_SHADJ s) 0) as [a Ea]; [lia|]. destruct (rd_in_range (REG_GLTSYN_SHADJ s) 1) as [b Eb]; [lia|].
    cbn [REG_GLTSYN_SHADJ set_field]. rewrite Ea, Eb. cbn [of_opt mbind result_bind].
    match goal with |- context [shadj m ?s1] => destruct (shadj_ok m s1) as [v ->]; [done..|] end. by cbn.
  - case_match; [|done]. destruct (shadj_ok m s H3 Hm) as [v ->]. by cbn.
Qed.

Lemma store_at_ok addr base k val (a : list Z) : base <= addr <= base + k * 4 → Z.of_nat (length a) = k + 1 →
  safe (fun a' => length a' = length a) (store_at addr base val a).
Proof.
  intros Ha Hl. unfold store_at. rewrite Z.shiftr_div_pow2 by lia. change (2 ^ 2) with 4.
  assert (0 <= (addr - base) / 4 < k + 1) by (split; [apply Z.div_pos; lia|apply Z.div_lt_upper_bound; lia]).
  rewrite wr_in_range by lia. cbn. apply length_insert.
Qed.

Lemma switch_write_ok c tx here addr val s : singles_ok s → safe (fun r => singles_ok r.1) (reg_switch_write c tx here addr val s).
Proof.
  intros Hs. pose proof Hs as (H1 & H2 & H3). unfold reg_switch_write. destruct (lookup_addr addr write_switch) as [[[] a]|]; [done..|].
  case_match; [case_match; cbn; [by split_and!|done]|].
  case_match; [cbn; unfold write_sb_atqbal; case_match; [|done]; by destruct (phc_sample_tx c _ _)|].
  case_match; [case_match; [|done]; eapply safe_bind; [by apply exec_cmd_ok|done]|].
  case_match eqn:E1; [unfold in_range in E1; bool_to_prop; eapply safe_bind; [apply (store_at_ok _ _ 5); [unfold PTP_GLTSYN_SHTIME in *; lia|lia]|]; intros a Ha; by split_and!; cbn; rewrite ?Ha|].
  case_match eqn:E2; [unfold in_range in E2; bool_to_prop; eapply safe_bind; [apply (store_at_ok _ _ 3); [unfold PTP_GLTSYN_SHADJ in *; lia|lia]|]; intros a Ha; by split_and!; cbn; rewrite ?Ha|].
  case_match; [rewrite wr_in_range by lia; cbn [of_opt mbind result_bind safe fst]; split_and!; [cbn [REG_GLTSYN_ENA set_field]; by rewrite length_insert|done..]|].
  case_match; [rewrite wr_in_range by lia; cbn [of_opt mbind result_bind safe fst]; split_and!; [cbn [REG_GLTSYN_ENA set_field]; by rewrite length_insert|done..]|]. done.
Qed.

(** The shadow time is read at the byte offset. *)
Definition bad_shtime (addr : Z) : Prop := PTP_GLTSYN_SHTIME 0 + 6 <= addr <= PTP_GLTSYN_SHTIME 5.

Lemma bad_shtime_values addr : bad_shtime addr →
  lookup_addr addr read_switch = None ∧ (∀ r, pfpe_read addr r = None) ∧ reg_array_read addr = (fun _ => Ok None) ∧ 
  (addr =? PTP_GLTSYN_ENA 0) = false ∧ (addr =? PTP_GLTSYN_ENA 1) = false ∧ in_range (PTP_GLTSYN_TIME 0) (PTP_GLTSYN_TIME 5) addr = false.
Proof.
  intros H. assert (∃ k, (k < 15)%nat ∧ addr = PTP_GLTSYN_SHTIME 0 + 6 + Z.of_nat k) as (k & Hk & ->).
  { exists (Z.to_nat (addr - (PTP_GLTSYN_SHTIME 0 + 6))). unfold bad_shtime, PTP_GLTSYN_SHTIME in *. lia. }
  do 15 (destruct k as [|k]; [by vm_compute|]). lia.
Qed.

Lemma switch_read_ok c addr s : singles_ok s →
  (reg_switch_read c addr s = Undef ↔ bad_shtime addr) ∧ ∀ v s', reg_switch_read c addr s = Ok (v, s') → singles_ok s'.
Proof.
  intros Hs. pose proof Hs as (H1 & H2 & H3). assert (bad_shtime addr → reg_switch_read c addr s = Undef) as Hbad.
  { intros Hb. destruct (bad_shtime_values addr Hb) as (E1 & E2 & _ & E3 & E4 & E5). unfold reg_switch_read. rewrite E1, E2, E3, E4, E5.
    assert (in_range (PTP_GLTSYN_SHTIME 0) (PTP_GLTSYN_SHTIME 5) addr = true) as -> by (unfold in_range, bad_shtime in *; apply andb_true_iff; rewrite !Z.leb_le; lia).
    rewrite rd_out; [done|]. unfold bad_shtime in Hb. lia. }
  assert (¬ bad_shtime addr → safe (fun r => singles_ok r.2) (reg_switch_read c addr s)) as Hgood.
  { intros Hb. unfold reg_switch_read. destruct (lookup_addr addr read_switch) as [[]|]; [done..|]. destruct (pfpe_read addr _); [done|].
    case_match; [destruct (rd_in_range (REG_GLTSYN_ENA s) 0) as [v ->]; [lia|done]|].
    case_match; [destruct (rd_in_range (REG_GLTSYN_ENA s) 1) as [v ->]; [lia|done]|].
    case_match; [cbn; unfold read_time; destruct (phc_read c _); by repeat case_match|].
    case_match eqn:E; [|by case_match]. unfold in_range, bad_shtime in *. bool_to_prop. destruct (rd_in_range (REG_GLTSYN_SHTIME s) (addr - PTP_GLTSYN_SHTIME 0)) as [v ->]; [lia|done]. }
  assert (bad_shtime addr ∨ ¬ bad_shtime addr) as [Hb|Hb] by (unfold bad_shtime; lia).
  - rewrite (Hbad Hb). by split.
  - specialize (Hgood Hb). destruct (reg_switch_read c addr s) as [[v s']| |]; cbn in Hgood; [|done..]. split; [done|]. by intros v' s1 [= _ <-].
Qed.

(** ** Accesses *)

Section accesses.
Context (ms : mappings) (now : timespec) (found : cqp_uninit).

(** The calls that are undefined for a queue that exists. *)
Definition act_fault (a : act) (idx : Z) (d : e810_bm) : Prop :=
  match a with
  | AQena true => rx_fault idx d
  | AQena false => tx_fault idx d
  | ACeq => ceq_fault idx d
  | ANone | ATail _ => False
  end.

Lemma perform_spec a idx d : dev_ok d → (a ≠ ANone → in_width 16 idx) →
  outcome (perform now a idx d) (act_ok a idx = false ∨ act_fault a idx d).
Proof.
  intros Hd Hi. assert (a ≠ ANone → act_ok a idx = false ↔ 1536 <= u16 idx) as Ha.
  { intros Hn. rewrite wrap_small by auto. destruct a; [done|apply Z.ltb_ge..]. }
  destruct a as [|[]|[]|]; cbn [perform act_fault].
  - split; [split; [done|by intros []]|]. by intros d' st [= <- _].
  - rewrite Ha by done. eapply outcome_iff; [|by apply rx_tail_spec]. tauto.
  - rewrite Ha by done. eapply outcome_iff; [|by apply tx_tail_spec]. tauto.
  - rewrite Ha by done. by apply rx_qena_spec.
  - rewrite Ha by done. by apply tx_qena_spec.
  - rewrite Ha by done. by apply ceq_spec.
Qed.

Lemma reset_length q : length (desc_ctxs (reset q)) = length (desc_ctxs q).
Proof. unfold reset. cbn [desc_ctxs set_field]. by rewrite length_fmap. Qed.

Lemma reset_lanq l : lanq_ok l → lanq_ok (reset_queue l).
Proof. intros (H1 & H2 & H3). split; [done|]. split; [|done]. unfold reset_queue. cbn [lq set_field]. by rewrite reset_length. Qed.

Lemma perform_switch_spec a d : dev_ok d → outcome (perform_switch a d) (a = SAtq ∧ atq_fault (singles d)).
Proof.
  intros Hd. destruct a; cbn [perform_switch].
  - split; [naive_solver|]. by intros d' st [= <- _].
  - eapply outcome_iff; [|by apply atq_spec]. tauto.
  - split; [naive_solver|]. by intros d' st [= <- _].
  - split; [naive_solver|]. intros d' st [= <- _]. destruct Hd. split; try done; unfold dev_reset; cbn [arrs rx_queues tx_queues pf_atq qtx_enas set_field]; rewrite ?length_fmap, ?reset_length; try done.
    + apply clear_regs_ok.
    + apply Forall_fmap. eapply list.Forall_impl; [done|]. exact reset_lanq.
    + apply Forall_fmap. eapply list.Forall_impl; [done|]. exact reset_lanq.
  - split; [naive_solver|]. intros d' st [= <- _]. by destruct Hd.
Qed.

(** A write to an address that is in no bad range is undefined: after the assignment, the
    function that it calls is. *)
Definition write_fault (c : clock) (tx : Z → Z) (here addr val : Z) (d : e810_bm) : Prop :=
  match reg_array_write addr val (arrs d) with
  | Ok (Some (regs, a, idx)) => act_fault a idx (d <| arrs := regs |>)
  | Ok None =>
      if pfpe_addr addr then pfpe_write ms now found addr val (rdma_of d) = Undef
      else ∃ s, reg_switch_write c tx here addr val (singles d) = Ok (s, SAtq) ∧ atq_fault s
  | _ => False
  end.

Lemma switch_spec c tx here addr val d : dev_ok d →
  outcome ('(s, a) ← reg_switch_write c tx here addr val (singles d); perform_switch a (d <| singles := s |>))
    (∃ s, reg_switch_write c tx here addr val (singles d) = Ok (s, SAtq) ∧ atq_fault s).
Proof.
  intros Hd. pose proof (switch_write_ok c tx here addr val (singles d)) as Hs.
  assert (singles_ok (singles d)) as Hok by (destruct Hd; by split_and!). specialize (Hs Hok).
  destruct (reg_switch_write c tx here addr val (singles d)) as [[s a]| |]; cbn in Hs; [|split; naive_solver|done]. cbn [mbind result_bind].
  eapply outcome_iff; [|apply perform_switch_spec; by apply dev_singles]. cbn [singles set_field]. naive_solver.
Qed.

Lemma pfpe_spec addr val d : dev_ok d →
  outcome (r ← pfpe_write ms now found addr val (rdma_of d); Ok (with_rdma r d, [])) (pfpe_write ms now found addr val (rdma_of d) = Undef).
Proof.
  intros Hd. pose proof (keeps_pfpe ms now found (rdma_of d) addr val (rdma_of d) (conj eq_refl eq_refl)) as Hk.
  destruct (pfpe_write _ _ _ _ _ _) as [r| |]; cbn [mbind result_bind]; [|done..]. split; [done|]. intros d' st [= <- _]. apply with_rdma_ok; [done|]. by apply Hk.
Qed.

Lemma write_spec c tx here addr val d : dev_ok d →
  outcome (reg_mem_write32 ms now found c tx here addr val d) (within bad_writes addr ∨ write_fault c tx here addr val d).
Proof.
  intros Hd. pose proof (write_leaves addr val (arrs d) (dev_arrs d Hd)) as Hw. rewrite <- bad_writes_right. unfold reg_mem_write32, write_fault.
  destruct (List.find (in_wcase addr) write_cases) as [w|].
  - cbv zeta in Hw. destruct Hw as (_ & Hi & -> & Hw). destruct (forallb _ (w_stores w)); cbn [andb].
    + destruct Hw as (regs & _ & -> & Hok). cbn [mbind result_bind]. eapply outcome_iff; [|apply perform_spec; [by destruct Hd|done]].
      by rewrite negb_true_iff.
    + rewrite Hw. apply outcome_undef. by left.
  - destruct Hw as [-> ->]. cbn [mbind result_bind]. destruct (pfpe_addr addr).
    + eapply outcome_iff; [|by apply pfpe_spec]. naive_solver.
    + eapply outcome_iff; [|by apply switch_spec]. naive_solver.
Qed.

Lemma read_spec c addr d : dev_ok d →
  (reg_mem_read32 c addr d = Undef ↔ within bad_reads addr ∨ bad_shtime addr) ∧ ∀ v d', reg_mem_read32 c addr d = Ok (v, d') → dev_ok d'.
Proof.
  intros Hd. pose proof (read_leaves addr (arrs d) (dev_arrs d Hd)) as Hr. rewrite <- bad_reads_right. unfold reg_mem_read32.
  destruct (leaves r_lo r_hi r_bad read_cases addr); [rewrite Hr; cbn; by split; [split; [by left|]|]|].
  destruct Hr as [->|(v & regs & Hr & Hok)]; cbn [mbind result_bind].
  - destruct (switch_read_ok c addr (singles d)) as [H1 H2]; [destruct Hd; by split_and!|].
    destruct (reg_switch_read c addr (singles d)) as [[v s]| |]; cbn [mbind result_bind].
    + split; [rewrite <- H1; naive_solver|]. intros v' d' [= _ <-]. apply dev_singles; [done|by eapply H2].
    + split; [rewrite <- H1; naive_solver|done].
    + split; [rewrite <- H1; naive_solver|done].
  - rewrite Hr. cbn [mbind result_bind]. split.
    + split; [done|]. intros [?|Hb]; [done|]. destruct (bad_shtime_values addr Hb) as (_ & _ & E & _). rewrite E in Hr. done.
    + intros v' d' [= _ <-]. destruct Hd. by split.
Qed.

End accesses.

(** ** A guest *)

Definition new_queue : queue_base := mkQueue (replicate 128 (mkCtx DESC_EMPTY 0 [])) 0 0 0 0 0 0 0 false 32.
Definition new_dev : e810_bm :=
  mkDev clear_regs demo_regs_state (replicate (Z.to_nat 2048) 0) (replicate (Z.to_nat 2048) (replicate 22 0))
    (replicate (Z.to_nat 1536) (mkLanq new_queue false 0)) (replicate (Z.to_nat 1536) (mkLanq new_queue false 0)) new_queue
    (mkCqp 0 0 false [] 0 0 0 0) (replicate (Z.to_nat 1536) (mkCeq false 0 0)) demo_throttlers (fun _ => 0) false.

Lemma new_dev_ok : dev_ok new_dev.
Proof.
  assert (lanq_ok (mkLanq new_queue false 0)) as Hq by (by split_and!).
  split; try done; try apply length_replicate; [apply clear_regs_ok|by apply Forall_replicate..].
Qed.

