(* ===== verification/VmuxE810.v ===== *)
(** * The E810 device in vMux

    Where the device model meets the driver and the interrupts of vMux: the calls that the
    model makes for sending (nicbm.h, [CallbackAdaptor]), the polling of the device with the
    delivery of received packets (devices/e810.hpp, [driver_cb]), and the policy that moves
    PTP packets from machine to machine (policies/ptp.hpp). *)
From S2P Require Import Prelude Bytes E810Base E810Tx VmuxIrq VmuxDriver.
Local Open Scope Z_scope.

(** ** Sending *)

Section send.
Context {D : Type} `{Nic D} (device_id : Z).

(** Once the driver has failed, its state stays a failure. *)
Definition EthSend (pkt : list Z) (r : result (dpdk * D)) : result (dpdk * D) :=
  '(s, d) ← r; d ← send device_id pkt s d; Ok (s, d).

Definition EthSendTso (bytes : list Z) (end_of_packet : bool) (a : tso_args) (r : result (dpdk * D)) : bool * result (dpdk * D) :=
  match r with
  | Ok (s, d) =>
      match send_tso (length bytes) device_id bytes end_of_packet (tso_l2 a) (tso_l3 a) (tso_l4 a) (tso_segsz a) s d with
      | Ok (ok, s, d) => (ok, Ok (s, d))
      | Abort => (false, Abort)
      | Undef => (false, Undef)
      end
  | _ => (false, r)
  end.

(** The driver below the transmit queues of the model. *)
Definition dpdk_tx : TxDriver (result (dpdk * D)) := {| eth_send := EthSend; eth_send_tso := EthSendTso |}.
End send.

(** ** Receiving *)

(** The throttlers of the device, the queues of injected packets of all devices, and the
    machine that gets PTP packets, or -1. *)
Record mux := mkMux { irqThrottle : list throttler; inject_packets : list (list (list Z)); ptp_target_vm_idx : Z }.
#[export] Instance mux_settable : Settable mux := fun r => mkMux (irqThrottle r) (inject_packets r) (ptp_target_vm_idx r).

(** [clock] gives the time and the outcome of an interrupt for each vector. *)
Fixpoint processAllPollTimers (clock : Z → timespec * irq_result) (i : Z) (ts : list throttler) : result (list throttler) :=
  match ts with
  | [] => Ok []
  | t :: ts' =>
      '(_, t) ← processPollTimer (clock i).1 (clock i).2 t;
      ts' ← processAllPollTimers clock (i + 1) ts';
      Ok (t :: ts')
  end.

Definition SIZEOF_ETHER_HEADER : Z := 14.
Definition PTP_MAC : Z := 0x000000191b01.

(** Whether the packet goes to the address 01:1b:19:00:00:00. *)
Definition is_ptp (packet : list Z) : result bool :=
  if SIZEOF_ETHER_HEADER <=? Z.of_nat (length packet) then
    w ← of_opt (load 8 packet 0);
    Ok (0xFFFFFFFFFFFF .& w =? PTP_MAC)
  else Ok false.

Section rx.
(** The model, and whether a queue has room for one more packet. *)
Context {D : Type} `{Nic D} {E : Type} (EthRx : option Z → list Z → E → result E) (can_push : list (list Z) → bool).

(** The packet is put into the queue of another device; whether that was possible. *)
Definition divert (target : Z) (packet : list Z) (m : mux) : result (bool * mux) :=
  if target =? -1 then Ok (false, m)
  else
    ptp ← is_ptp packet;
    if negb ptp then Ok (false, m)
    else
      q ← of_opt (rd (inject_packets m) target);
      if can_push q then
        qs ← of_opt (wr (inject_packets m) target (q ++ [packet]));
        Ok (true, m <| inject_packets := qs |>)
      else Ok (false, m).

Fixpoint deliver (target : Z) (bs : list RxBuf) (m : mux) (e : E) : result (mux * E) :=
  match bs with
  | [] => Ok (m, e)
  | b :: bs' =>
      packet ← of_opt (bytes_at (Z.to_nat (used b)) (data b) 0);
      '(gone, m) ← divert target packet m;
      e ← (if gone : bool then Ok e else EthRx (hint b) packet e);
      deliver target bs' m e
  end.

(** The buffers in use of a queue. *)
Definition used_bufs (rxq : DrvQueue) : option (list RxBuf) :=
  if nb_bufs_used rxq <=? Z.of_nat (length (rxBufs rxq)) then Some (take (Z.to_nat (nb_bufs_used rxq)) (rxBufs rxq)) else None.

Definition deliver_queue (vm_number target q_idx : Z) (s : dpdk) (m : mux) (e : E) : result (mux * E) :=
  rxq ← of_opt (rd (rxQueues s) (queue_index vm_number q_idx));
  bs ← of_opt (used_bufs rxq);
  deliver target bs m e.

(** One packet that another device has injected. *)
Definition pop_injected (vm_number : Z) (m : mux) (e : E) : result (mux * E) :=
  q ← of_opt (rd (inject_packets m) vm_number);
  match q with
  | [] => Ok (m, e)
  | packet :: q' =>
      e ← EthRx None packet e;
      qs ← of_opt (wr (inject_packets m) vm_number q');
      Ok (m <| inject_packets := qs |>, e)
  end.

(** [None] if the loop of [recv_consumed] does not end. *)
Definition driver_cb (clock : Z → timespec * irq_result) (vm_number : Z) (s : dpdk) (d : D) (m : mux) (e : E)
    : result (option (dpdk * D * mux * E)) :=
  ts ← processAllPollTimers clock 0 (irqThrottle m);
  let m := m <| irqThrottle := ts |> in
  let target := ptp_target_vm_idx m in
  '(s, d) ← recv vm_number s d;
  '(m, e) ← for_res (Z.to_nat QUEUES_PER_VM) 0 (fun q_idx '(m, e) => deliver_queue vm_number target q_idx s m e) (m, e);
  r ← recv_consumed (Z.to_nat BURST_SIZE) vm_number s d;
  match r with
  | None => Ok None
  | Some (s, d) =>
      '(m, e) ← pop_injected vm_number m e;
      Ok (Some (s, d, m, e))
  end.
End rx.

(** ** The PTP policy *)

(** The timer of the policy, with the number of machines that can get packets. *)
Definition ptp_timer_cb (destinations : Z) (m : mux) : result mux :=
  let old_id := ptp_target_vm_idx m in
  if old_id =? -1 then Ok m
  else if destinations =? 0 then Undef
  else Ok (m <| ptp_target_vm_idx := u64 (old_id + 1) mod destinations |>).
