(* ===== verification/VmuxE810Spec.v ===== *)
(** * The E810 device in vMux: theorems

    [VmuxE810] with the driver of [VmuxDriver]: what becomes of the packets that the model
    sends, and of those that the card receives. *)
From S2P Require Import Prelude Bytes E810Base E810Xsum E810Tx E810TxSpec E810Tso VmuxIrq VmuxDriver VmuxDriverSpec VmuxE810.
Local Open Scope Z_scope.

Section e810.
Context {D : Type} `{NicLaws D held wire} (port vm : Z).
Context (Hport : eth_ports (D := D) = [port]).
#[local] Instance e810_tx : TxDriver (result (dpdk * D)) := dpdk_tx vm.

Let queue := tx_queue_id vm 0.

(** ** Segmentation *)

Definition no_pending (s : dpdk) : Prop := rd (tso_seg s) queue = Some None.

Lemma set_pending_ready o s : tso_ready s vm → tso_ready (set_pending vm o s) vm ∧ rd (tso_seg (set_pending vm o s)) queue = Some o.
Proof.
  intros [H1 H2 H3]. split; [split; cbn; rewrite ?length_insert; done|]. unfold rd, queue. rewrite (proj2 (Z.leb_le _ _)) by lia.
  cbn. apply list_lookup_insert_eq. lia.
Qed.

(** The buffers of a unit, one call for each. *)
Lemma hw_tso_dpdk segs a s (d : D) o rest : segs ≠ [] → Forall data_desc segs → lens_ok (tso_l2 a) (tso_l3 a) (tso_l4 a) →
  tso_ready s vm → rd (tso_seg s) queue = Some o → pending_ok o → held d ≡ₚ pending_ids o ++ rest →
  ∃ ok s' d', hw_tso segs a (Ok (s, d)) = Ok (ok, Ok (s', d')) ∧ held d' ≡ₚ rest ∧ no_pending s' ∧ tso_ready s' vm ∧
    tx_mbuf_pools s' = tx_mbuf_pools s ∧
    if ok : bool then ∃ p, wire d' = wire d ++ [(port, queue, p)] ∧
        tso_pkt p (pending_bytes o ++ seg_bytes segs) (tso_l2 a) (tso_l3 a) (tso_l4 a) (tso_segsz a)
    else wire d' = wire d.
Proof using Type*.
  intros Hne Hd Hl. revert s d o Hne. induction segs as [|r segs IH]; intros s d o Hne Hs Ho Hok Hh; [done|].
  apply Forall_cons_1 in Hd as [(_ & _ & Hsz) Hd]. cbn [hw_tso]. rewrite Hsz, Nat2Z.id, bytes_at_in by lia.
  change (Z.to_nat 0) with 0%nat. rewrite drop_0, take_ge by lia. cbn [of_opt mbind result_bind].
  unfold eth_send_tso, e810_tx, dpdk_tx, EthSendTso.
  destruct (send_tso_step port vm (length (E810Tx.data r)) (E810Tx.data r) (bool_decide (segs = [])) (tso_l2 a) (tso_l3 a) (tso_l4 a) (tso_segsz a) s o d rest)
    as (ok & o' & d1 & -> & Hres); try done.
  destruct (set_pending_ready o' s Hs) as [Hs' Ho'].
  destruct ok; [|destruct Hres as (-> & H1 & H2); by exists false, (set_pending vm None s), d1].
  case_bool_decide as Ee.
  - subst segs. destruct Hres as (-> & H1 & p & H2 & H3). exists true, (set_pending vm None s), d1. split_and!; try done.
    exists p. split; [done|]. unfold seg_bytes. cbn. by rewrite app_nil_r.
  - destruct Hres as (H1 & H2 & H3 & H4). destruct (IH Hd (set_pending vm o' s) d1 o' Ee Hs' Ho' H1 H3) as (ok & s2 & d2 & E2 & H5 & H6 & H7 & H8 & H9).
    exists ok, s2, d2. split_and!; try done. rewrite H4, H2 in H9. by rewrite seg_bytes_cons, app_assoc.
Qed.

(** C27. A packet that the guest wants segmented reaches a card that can do so as a whole: the
    card is given one chain of mbufs with all bytes of the descriptors, the checksums of
    the headers prepared, and the unit is finished; or it is given nothing, all mbufs are
    returned, and the model segments the packet itself: it goes on to send, through the
    driver, packets whose payloads of at most [mss] bytes make up the payload of the unit,
    with the headers of their place ([job_sends]), and finishes the unit.  (A segment size
    of zero is excluded there: the loop does not end, [trigger_tx_hangs].) *)
Theorem tso_offload cd segs l mss q rest s (d : D) :
  tso_unit cd segs l mss → idle q → ready_segments q = cd :: segs ++ rest → tso_ready s vm → no_pending s →
  ∃ ok s' d', hw_tso segs (mkTso (maclen l) (iplen l) (l4len l) mss) (Ok (s, d)) = Ok (ok, Ok (s', d')) ∧
    held d' ≡ₚ held d ∧ no_pending s' ∧
    if ok : bool then
      (∃ p, wire d' = wire d ++ [(port, queue, p)] ∧ chain_ok p ∧ pkt_bytes p = tso_bytes (seg_bytes segs) (maclen l) (iplen l) ∧
         l2_len p = wrap 7 (maclen l) ∧ l3_len p = wrap 9 (iplen l) ∧ l4_len p = wrap 8 (l4len l) ∧ segsz p = u16 mss) ∧
      ∃ q', trigger_tx_packet q (Ok (s, d)) = Ok (true, pos <$> cd :: segs, q', Ok (s', d')) ∧ idle q' ∧ ready_segments q' = rest
    else wire d' = wire d ∧
      (0 < mss → ∃ pkts n q', tx_steps q (Ok (s, d)) n (pos <$> cd :: segs) q' (send_all pkts (Ok (s', d'))) ∧
         job_sends (Tso cd segs l mss) pkts ∧ idle q' ∧ ready_segments q' = rest).
Proof using Type*.
  intros Hu Hq Hr Hs Hnone. pose proof (tso_data _ _ _ _ Hu) as Hd. pose proof (unit_lens _ _ Hd) as Hl. pose proof (E810Tso.tso_lens _ _ _ _ Hu) as Htl.
  assert (segs ≠ []) as Hne by (destruct Hd as [_ (init & lst & -> & _) _ _]; by destruct init).
  destruct (hw_tso_dpdk segs (mkTso (maclen l) (iplen l) (l4len l) mss) s d None (held d)) as (ok & s' & d' & E & H1 & H2 & H3 & H4 & H5);
    [done|by eapply unit_data|done..|].
  exists ok, s', d'. split; [done|]. split; [done|]. split; [done|].
  destruct ok; cbv iota; [|split; [done|]; intros Hm; by apply (tso_run cd segs l mss rest q (Ok (s, d)) (Ok (s', d')))]. split.
  - destruct H5 as (p & Hw & [Hc Hf _ Hb]). exists p. cbn in *. destruct Htl as (? & ? & ?). split_and!; try done; try apply Hf. apply Hb; lia.
  - destruct q as [buf o0 l0 rs]. destruct Hq as (Eo & El & Hbuf & Hok). cbn in *. subst o0 l0 rs.
    destruct (tso_ctx_desc _ _ _ _ Hu) as (Hdt & Hts & Hms).
    unfold trigger_tx_packet. cbn [ready_segments]. cbn [drop]. rewrite Hdt, Z.eqb_refl. cbn [andb]. rewrite Hts, Hms.
    cbn [negb andb]. change (drop 1 (cd :: segs ++ rest)) with (segs ++ rest). rewrite (find_eop_unit segs l rest 1 Hd). cbn [mbind result_bind tso_len tso_off].
    rewrite Z.eqb_refl. replace (1 + length segs - 1)%nat with (length segs) by lia. rewrite take_app_length. cbn [andb]. rewrite E. cbn [mbind result_bind].
    unfold finish_unit. cbn [ready_segments set_field]. cbn [take drop fmap list_fmap Nat.add].
    rewrite take_app_length, drop_app_length. eexists. split; [reflexivity|]. done.
Qed.

(** ** Other packets *)

(** C28. A packet of the guest that is not segmented is sent or dropped if it fits into an
    mbuf of the pool.  The model sends packets of up to 9024 bytes and nothing compares
    their length with the mbuf: a larger one is written over the end of its memory. *)
Theorem plain_sent segs l q rest s pool (d : D) pkt :
  tx_unit segs l → idle q → ready_segments q = segs ++ rest → Z.of_nat (length (seg_bytes segs)) <= MTU →
  packet_of l (seg_bytes segs) = Some pkt → rd (tx_mbuf_pools s) queue = Some pool →
  ∃ q' r, trigger_tx_packet q (Ok (s, d)) = Ok (true, pos <$> segs, q', r) ∧ idle q' ∧ ready_segments q' = rest ∧
    match (pktmbuf_alloc pool d).1 with
    | Some m =>
        if Z.of_nat (length (seg_bytes segs)) <=? Z.of_nat (length (m_buf m))
        then ∃ d', r = Ok (s, d') ∧ sent_or_dropped (held := held) (wire := wire) port queue pkt d d'
        else r = Undef
    | None => ∃ d', r = Ok (s, d') ∧ sent_or_dropped (held := held) (wire := wire) port queue pkt d d'
    end.
Proof using Type*.
  intros Hu Hq Hr Hmtu Hp Hpool. destruct (plain_packet segs l rest q (Ok (s, d)) pkt Hu Hq Hr Hmtu Hp) as (q' & E & Hq' & Hr').
  exists q', (EthSend vm pkt (Ok (s, d))). split; [exact E|]. split; [done|]. split; [done|].
  rewrite <- (length_packet_of _ _ _ Hp). unfold EthSend. cbn [mbind result_bind].
  destruct (pktmbuf_alloc pool d) as [[m|] d1] eqn:Ea; cbn [fst].
  - destruct (Z.leb_spec (Z.of_nat (length pkt)) (Z.of_nat (length (m_buf m)))) as [Hle|Hgt].
    + destruct (send_fits port vm pkt s pool d m d1 Hport Hpool Ea Hle) as (d' & -> & Hs). by exists d'.
    + by rewrite (send_too_long port vm pkt s pool d m d1 Hport Hpool Ea Hgt).
  - destruct (send_no_mbuf port vm pkt s pool d d1 Hport Hpool Ea) as [-> Hs]. by exists d1.
Qed.

(** ** Reception *)

Section rx.
Context {E : Type} (EthRx : option Z → list Z → E → result E).

(** The packets reach the model one after the other. *)
Fixpoint rx_all (ps : list (option Z * list Z)) (e : E) : result E :=
  match ps with [] => Ok e | (h, p) :: ps' => e ← EthRx h p e; rx_all ps' e end.

Lemma rx_all_app ps qs e : rx_all (ps ++ qs) e = (e ← rx_all ps e; rx_all qs e).
Proof.
  revert e. induction ps as [|[h p] ps IH]; intros e; [done|]. cbn. destruct (EthRx h p e); cbn; [apply IH|done..].
Qed.

(** A PTP packet that is diverted when the target is a machine. *)
Definition ptp (p : list Z) : bool := match is_ptp p with Ok b => b | _ => false end.
Definition diverted (target : Z) (p : list Z) : bool := negb (target =? -1) && ptp p.

Lemma is_ptp_total p : is_ptp p = Ok (ptp p).
Proof.
  unfold ptp, is_ptp. case_match eqn:El; [|done]. unfold SIZEOF_ETHER_HEADER in El.
  destruct (load 8 p 0) as [w|] eqn:Ew; [done|]. unfold load, bytes_at in Ew. rewrite (proj2 (Z.leb_le _ _)), (proj2 (Z.leb_le _ _)) in Ew by lia. done.
Qed.

(** A queue always takes one more packet. *)
Definition unbounded : list (list Z) → bool := fun _ => true.

(** The queues of injected packets after the packets [ps]. *)
Definition injected (target : Z) (ps : list (list Z)) (qs : list (list (list Z))) : list (list (list Z)) :=
  if target =? -1 then qs else alter (fun q => q ++ filter (fun p => ptp p = true) ps) (Z.to_nat target) qs.

Lemma injected_app target ps ps' qs : injected target (ps ++ ps') qs = injected target ps' (injected target ps qs).
Proof.
  unfold injected. destruct (target =? -1); [done|]. rewrite list_alter_alter_eq. apply list_alter_ext; [|done].
  intros x _. cbn. by rewrite list.filter_app, app_assoc.
Qed.

Lemma injected_cons_other target p qs : diverted target p = false → injected target [p] qs = qs.
Proof.
  unfold injected, diverted. destruct (target =? -1); [done|]. cbn [negb andb]. intros Hp. rewrite filter_cons_False by (by rewrite Hp).
  rewrite filter_nil. apply list_alter_id. intros x. by rewrite app_nil_r.
Qed.

(** A buffer whose length is that of its data. *)
Definition buf_ok (b : RxBuf) : Prop := used b = Z.of_nat (length (data b)).
Definition kept (target : Z) (bs : list RxBuf) : list (option Z * list Z) :=
  (fun b => (hint b, data b)) <$> filter (fun b => diverted target (data b) = false) bs.

Lemma kept_app target bs cs : kept target (bs ++ cs) = kept target bs ++ kept target cs.
Proof. unfold kept. by rewrite list.filter_app, fmap_app. Qed.

Definition target_ok (target : Z) (m : mux) : Prop := target = -1 ∨ 0 <= target < Z.of_nat (length (inject_packets m)).

Lemma deliver_ok target bs m e : Forall buf_ok bs → target_ok target m →
  deliver EthRx unbounded target bs m e =
  (e ← rx_all (kept target bs) e; Ok (m <| inject_packets := injected target (data <$> bs) (inject_packets m) |>, e)).
Proof.
  intros Hb. revert m e. induction Hb as [|b bs Hb Hbs IH]; intros m e Ht.
  { cbn. unfold injected. destruct (target =? -1); [by destruct m|]. rewrite list_alter_id; [by destruct m|]. intros x. by rewrite filter_nil, app_nil_r. }
  cbn [deliver]. rewrite Hb, Nat2Z.id, bytes_at_in by lia. change (Z.to_nat 0) with 0%nat. rewrite drop_0, take_ge by lia. cbn [of_opt mbind result_bind].
  unfold kept. rewrite filter_cons. unfold divert. change (data <$> b :: bs) with ([data b] ++ (data <$> bs)). rewrite injected_app.
  destruct (diverted target (data b)) eqn:Ed.
  - rewrite decide_False by done. unfold diverted in Ed. apply andb_true_iff in Ed as [Et%negb_true_iff Ep]. rewrite Et, is_ptp_total, Ep. cbn [mbind result_bind negb].
    destruct Ht as [->|Ht]; [done|]. destruct (rd_in_range (inject_packets m) target Ht) as [q Eq]. rewrite Eq. cbn [of_opt mbind result_bind unbounded].
    rewrite wr_in_range by done. cbn [of_opt mbind result_bind]. rewrite IH by (right; cbn; by rewrite length_insert). cbn [inject_packets set_field].
    assert (injected target [data b] (inject_packets m) = <[Z.to_nat target := q ++ [data b]]> (inject_packets m)) as ->; [|done].
    unfold injected. rewrite Et. rewrite filter_cons_True by done. rewrite filter_nil. unfold rd in Eq. rewrite (proj2 (Z.leb_le _ _)) in Eq by lia.
    apply list_eq. intros i. destruct (decide (i = Z.to_nat target)) as [->|Hne].
    + rewrite list_lookup_alter_eq, Eq, list_lookup_insert_eq by (by eapply lookup_lt_Some). done.
    + by rewrite list_lookup_alter_ne, list_lookup_insert_ne.
  - rewrite decide_True by done. rewrite injected_cons_other by done. cbn [fmap list_fmap rx_all].
    assert ((if target =? -1 then Ok (false, m) else _) = Ok (false, m)) as ->.
    { unfold diverted in Ed. destruct (target =? -1); [done|]. cbn in Ed. rewrite is_ptp_total, Ed. done. }
    cbn [mbind result_bind]. destruct (EthRx (hint b) (data b) e) as [e1| |]; cbn [mbind result_bind]; [|done..]. by apply IH.
Qed.

(** The buffers that the device finds, queue by queue. *)
Fixpoint hand (b : bool) (q : Z) (bursts : list (list rx_mbuf)) : list RxBuf :=
  match bursts with [] => [] | ms :: rest => (rx_conv (if b then Some q else None) <$> ms) ++ hand b (q + 1) rest end.

(** Packets of one segment whose length is that of the data. *)
Definition whole (m : rx_mbuf) : Prop := plain m ∧ rx_len m = Z.of_nat (length (rx_bytes m)).

Lemma whole_bufs h ms : Forall whole ms → Forall buf_ok (rx_conv h <$> ms).
Proof. intros Hw. apply Forall_fmap. eapply Forall_impl; [|exact Hw]. by intros m [_ ?]. Qed.

Lemma handed_bufs n s q b ms : rx_ok n s → 0 <= vm < n → 0 <= q < 4 → rd (mediate s) vm = Some b → handed s vm q ms → (length ms <= 32)%nat →
  ∃ rxq, rd (rxQueues s) (queue_index vm q) = Some rxq ∧ used_bufs rxq = Some (rx_conv (if b then Some q else None) <$> ms).
Proof.
  intros Hs Hvm Hq Hmed (rxq & b' & Eq & Hn & Hmed' & Hb & _) Hl. assert (b' = b) as -> by congruence. exists rxq.
  destruct (queue_ids n s vm q Hs Hvm Hq) as (_ & -> & _ & _ & _). unfold rd. rewrite (proj2 (Z.leb_le _ _)), Nat2Z.id by lia. split; [done|].
  assert (length (rxBufs rxq) = 32%nat) as H32 by (pose proof (rx_lists n s Hs) as HF; by eapply Forall_lookup_1 in HF; [|exact Eq]).
  unfold used_bufs. rewrite Hn, (proj2 (Z.leb_le _ _)), Nat2Z.id by lia. f_equal. apply list_eq. intros i. rewrite list_lookup_fmap.
  destruct (ms !! i) as [m|] eqn:Em; cbn.
  - rewrite lookup_take_lt by (by eapply lookup_lt_Some). by apply Hb.
  - apply lookup_take_ge. by apply lookup_ge_None.
Qed.

Lemma deliver_queues n s b target q bursts m e : rx_ok n s → 0 <= vm < n → 0 <= q → q + Z.of_nat (length bursts) <= 4 → rd (mediate s) vm = Some b →
  (∀ j ms, bursts !! j = Some ms → handed s vm (q + Z.of_nat j) ms) → Forall (fun ms => length ms <= 32)%nat bursts → Forall (Forall whole) bursts →
  target_ok target m →
  for_res (length bursts) q (fun q_idx '(m, e) => deliver_queue EthRx unbounded vm target q_idx s m e) (m, e) =
  (e ← rx_all (kept target (hand b q bursts)) e; Ok (m <| inject_packets := injected target (data <$> hand b q bursts) (inject_packets m) |>, e)).
Proof.
  intros Hs Hvm Hq Hk Hmed Hall Hl Hw. revert q m e Hq Hk Hall. induction bursts as [|ms bursts IH]; intros q m e Hq Hk Hall Ht.
  { pose proof (deliver_ok target [] m e (Forall_nil_2 _) Ht) as Hd. cbn [deliver] in Hd. cbn [length for_res hand]. exact Hd. }
  apply Forall_cons_1 in Hl as [Hl1 Hl], Hw as [Hw1 Hw]. cbn [length for_res hand] in *.
  pose proof (Hall 0%nat ms eq_refl) as H0'. rewrite Z.add_0_r in H0'.
  destruct (handed_bufs n s q b ms Hs Hvm ltac:(lia) Hmed H0' Hl1) as (rxq & Er & Eu). 
  assert (deliver_queue EthRx unbounded vm target q s m e = deliver EthRx unbounded target (rx_conv (if b then Some q else None) <$> ms) m e) as ->.
  { unfold deliver_queue. rewrite Er. cbn [of_opt mbind result_bind]. by rewrite Eu. }
  rewrite deliver_ok by (by try apply whole_bufs). rewrite kept_app, rx_all_app, fmap_app, injected_app.
  destruct (rx_all _ e) as [e1| |]; cbn [mbind result_bind]; [|done..]. rewrite (IH Hl Hw); [done|lia|lia| |].
  - intros j ms' Hj. replace (q + 1 + Z.of_nat j) with (q + Z.of_nat (S j)) by lia. by apply (Hall (S j)).
  - destruct Ht as [->|Ht]; [by left|right]. cbn. unfold injected. destruct (target =? -1); [done|]. by rewrite length_alter.
Qed.

(** The packet that the device takes from its queue of injected packets. *)
Definition popped (qs : list (list (list Z))) : list (option Z * list Z) * list (list (list Z)) :=
  match qs !! Z.to_nat vm with
  | Some (p :: q) => ([(None, p)], <[Z.to_nat vm := q]> qs)
  | _ => ([], qs)
  end.

Lemma pop_injected_ok m e : 0 <= vm < Z.of_nat (length (inject_packets m)) →
  pop_injected EthRx vm m e = (e ← rx_all (popped (inject_packets m)).1 e; Ok (m <| inject_packets := (popped (inject_packets m)).2 |>, e)).
Proof.
  intros Hvm. unfold pop_injected, popped. destruct (rd_in_range (inject_packets m) vm Hvm) as [q Eq]. rewrite Eq. cbn [of_opt mbind result_bind].
  unfold rd in Eq. rewrite (proj2 (Z.leb_le _ _)) in Eq by lia. rewrite Eq. destruct q as [|p q]; cbn [fst snd rx_all]; [cbn; by destruct m|].
  destruct (EthRx None p e) as [e1| |]; cbn [mbind result_bind]; [|done..]. by rewrite wr_in_range by done.
Qed.

(** C26. Polling loses no packet and delivers none twice: the model gets the packets of the
    machine in the order in which the card delivered them, queue by queue; the PTP packets
    among them go to the queue of the machine that is their target instead, in the same
    order; then comes one packet that was injected for this machine.  All mbufs are
    given back and the driver is ready for the next call. *)
Theorem driver_cb_delivers n clock s (d : D) m e bursts d1 b ts :
  rx_ok n s → 0 <= vm < n → (∀ q, 0 <= q < 4 → drained s vm q) → rd (mediate s) vm = Some b →
  nic_bursts 4 vm 0 d = (bursts, d1) → Forall (Forall whole) bursts →
  Z.of_nat (length (inject_packets m)) = n → target_ok (ptp_target_vm_idx m) m →
  processAllPollTimers clock 0 (irqThrottle m) = Ok ts →
  let own := hand b 0 bursts in
  let qs := injected (ptp_target_vm_idx m) (data <$> own) (inject_packets m) in
  ∃ s2 d2, driver_cb EthRx unbounded clock vm s d m e =
      (e ← rx_all (kept (ptp_target_vm_idx m) own ++ (popped qs).1) e;
       Ok (Some (s2, d2, m <| irqThrottle := ts |> <| inject_packets := (popped qs).2 |>, e))) ∧
    rx_ok n s2 ∧ (∀ q, 0 <= q < 4 → drained s2 vm q) ∧ held d2 ≡ₚ held d ∧ wire d2 = wire d.
Proof using Type*.
  intros Hs Hvm Hdr Hmed Eb Hw Hlen Ht Hts own qs.
  assert (Forall (Forall plain) bursts) as Hpl by (eapply Forall_impl; [|exact Hw]; intros ms Hms; eapply Forall_impl; [|exact Hms]; by intros x [? _]).
  destruct (nic_bursts_held _ _ _ _ _ _ Eb) as (_ & _ & Hl & Hlb).
  destruct (recv_run n vm s d bursts d1 Hs Hvm Hdr Eb Hpl) as (s1 & s2 & d2 & E1 & Hh & F1 & _ & E2 & Hs2 & Hd2 & _ & Hheld & Hwire).
  exists s2, d2. split; [|done]. unfold driver_cb. rewrite Hts. cbn [mbind result_bind]. cbv zeta. rewrite E1. cbn [mbind result_bind].
  change (ptp_target_vm_idx (m <| irqThrottle := ts |>)) with (ptp_target_vm_idx m). change (Z.to_nat QUEUES_PER_VM) with 4%nat. rewrite <- Hlb.
  assert (mediate s1 = mediate s) as Em by (by rewrite <- (frame_rest _ _ _ _ _ F1)).
  assert (rx_ok n s1) as Hs1.
  { destruct (recv_from n 4 vm 0 s d bursts d1 Hs Hvm ltac:(lia) ltac:(lia) ltac:(intros; apply Hdr; lia) Eb Hpl) as (s1' & E1' & Hs1' & _).
    unfold recv in E1. change (Z.to_nat QUEUES_PER_VM) with 4%nat in E1. rewrite E1 in E1'. by injection E1' as <-. }
  rewrite (deliver_queues n s1 b) by (try done; rewrite ?Em; try done; lia). fold own. cbn [inject_packets set_field]. fold qs.
  rewrite rx_all_app. destruct (rx_all _ e) as [e1| |]; cbn [mbind result_bind]; [|done..].
  change (Z.to_nat BURST_SIZE) with 32%nat. rewrite E2. cbn [mbind result_bind].
  rewrite pop_injected_ok; cbn [inject_packets set_field]; [by destruct (rx_all _ e1)|].
  unfold qs, injected. destruct (_ =? -1); rewrite ?length_alter; lia.
Qed.
End rx.
End e810.

(** ** The PTP policy *)

(** Every machine gets the PTP packets in turn; without destinations the timer divides by
    zero. *)
Theorem ptp_rotates n m k : 0 < n < 2 ^ 31 → 0 <= ptp_target_vm_idx m < n →
  Nat.iter k (fun r => r ≫= ptp_timer_cb n) (Ok m) = Ok (m <| ptp_target_vm_idx := (ptp_target_vm_idx m + Z.of_nat k) mod n |>) ∧
  ptp_timer_cb 0 m = Undef.
Proof.
  intros Hn Ht. split; [|unfold ptp_timer_cb; by rewrite (proj2 (Z.eqb_neq _ _)) by lia]. induction k as [|k IH].
  { cbn. rewrite Z.add_0_r, Z.mod_small by lia. by destruct m. }
  cbn [Nat.iter nat_rect]. unfold Nat.iter in IH. rewrite IH. cbn [mbind result_bind]. unfold ptp_timer_cb. cbn [ptp_target_vm_idx set_field].
  pose proof (Z.mod_pos_bound (ptp_target_vm_idx m + Z.of_nat k) n ltac:(lia)).
  rewrite !(proj2 (Z.eqb_neq _ _)) by lia. rewrite wrap_small by (unfold in_width; lia). rewrite Zplus_mod_idemp_l.
  destruct m. cbn. do 3 f_equal. lia.
Qed.

(** ** Instances *)

Module DemoNic.
(** A card that keeps track of its mbufs and takes every packet; two packets have been
    received in queue 0. *)
Record nic := mkNic { next : Z; in_use : list Z; out : list (Z * Z * pkt); waiting : list rx_mbuf; flows : list eth_flow }.

#[global] Instance demo : Nic nic := {
  eth_ports := [0];
  mbuf_alloc _ d := (Some (next d, replicate 2048 0), mkNic (next d + 1) (next d :: in_use d) (out d) (waiting d) (flows d));
  mbuf_free l d := mkNic (next d) (remove_all l (in_use d)) (out d) (waiting d) (flows d);
  tx_burst port q p d := (true, mkNic (next d) (remove_all (m_id <$> segs p) (in_use d)) (out d ++ [(port, q, p)]) (waiting d) (flows d));
  rx_burst _ q n d :=
    if q =? 0 then (take n (waiting d), mkNic (next d) ((rx_id <$> take n (waiting d)) ++ in_use d) (out d) (drop n (waiting d)) (flows d)) else ([], d);
  flow_validate _ _ := true;
  flow_create f d := (true, mkNic (next d) (in_use d) (out d) (waiting d) (flows d ++ [f]));
  TX_IEEE1588_TMST := 1; TX_TCP_SEG := 2; TX_IPV4 := 4; TX_IP_CKSUM := 8;
  ipv4_phdr_cksum _ _ := 0x1234
}.

#[global] Instance demo_laws : NicLaws nic in_use out.
Proof.
  split.
  - intros pool d id b d' [= <- <- <-]. split; [done|]. split; [done|]. by vm_compute.
  - intros pool d d' [=].
  - intros l rest d Hh. split; [by apply remove_all_perm|done].
  - intros port q p rest d d' [= <-] Hh. split; [by apply remove_all_perm|done].
  - intros port q p d d' [=].
  - intros port q n d ms d'. cbn. case_match; intros [= <- <-]; cbn; [|split; [lia|done]]. rewrite length_take. split; [lia|done].
Qed.

Definition ptp_frame : list Z := [0x01; 0x1b; 0x19; 0; 0; 0] ++ replicate 8 7.
Definition frame : list Z := replicate 14 9.
Definition card : nic := mkNic 10 [] [] [mkRxMbuf 1 1 14 ptp_frame; mkRxMbuf 2 1 14 frame] [].
Definition state : dpdk := mkDpdk (alloc_rx_lists 8 32) (replicate 256 (mkRxMbuf 0 0 0 [])) [true; false] (replicate 8 0) true (replicate 8 None) 0.

(** PTP packets go to machine 1. *)
Definition mux0 : mux := mkMux [demo_throttler] [[]; []] 1.
Definition log (h : option Z) (p : list Z) (e : list (option Z * list Z)) : result (list (option Z * list Z)) := Ok (e ++ [(h, p)]).

(** A packet of 3000 bytes, and mbufs of 2048 bytes. *)
Definition long : tx_desc_ctx := mkTxDesc 1 (2 ^ 4 + 2 ^ 34 * 3000) (replicate (Z.to_nat 3000) 0).

Lemma long_len : Z.of_nat (length (seg_bytes [long])) = 3000.
Proof. by vm_compute. Qed.

Lemma long_unit : tx_unit [long] (mkLens 0 0 0 0).
Proof.
  split.
  - constructor; [|constructor]. by vm_compute.
  - exists [], long. split_and!; [done|by vm_compute|constructor|by vm_compute|by vm_compute].
  - unfold seg_bytes. cbn [fmap list_fmap concat]. rewrite app_nil_r. by apply Forall_replicate.
  - by rewrite long_len.
Qed.
End DemoNic.

Lemma driver_cb_delivers_witness : ∃ s2 d2,
  driver_cb DemoNic.log unbounded (fun _ => (mkTime 1 0, IrqOk)) 0 DemoNic.state DemoNic.card DemoNic.mux0 [] =
    Ok (Some (s2, d2, mkMux [demo_throttler] [[]; [DemoNic.ptp_frame]] 1, [(Some 0, DemoNic.frame)])) ∧
  DemoNic.in_use d2 ≡ₚ [].
Proof.
  assert (rx_ok 2 DemoNic.state) as Hs by (split; [done|reflexivity|repeat constructor|reflexivity|reflexivity]).
  assert (∀ q, 0 <= q < 4 → drained DemoNic.state 0 q) as Hd.
  { intros q Hq. unfold drained, qi. cbn [rxQueues DemoNic.state]. exists (mkDrvQueue (replicate 32 no_rx) 0). split; [|done].
    unfold alloc_rx_lists. rewrite lookup_replicate. split; [done|lia]. }
  destruct (@driver_cb_delivers DemoNic.nic DemoNic.demo DemoNic.in_use DemoNic.out DemoNic.demo_laws 0 0 eq_refl _ DemoNic.log 2 (fun _ => (mkTime 1 0, IrqOk)) DemoNic.state DemoNic.card DemoNic.mux0 []
    [[mkRxMbuf 1 1 14 DemoNic.ptp_frame; mkRxMbuf 2 1 14 DemoNic.frame]; []; []; []]
    (DemoNic.mkNic 10 [1; 2] [] [] []) true [demo_throttler]) as (s2 & d2 & E & _ & _ & Hh & _); try done.
  - repeat constructor.
  - right. done.
  - exists s2, d2. split; [exact E|exact Hh].
Defined.

Lemma tso_offload_witness : ∃ ok s' d',
  @hw_tso _ (dpdk_tx 0) demo_segs (mkTso 14 20 20 2) (Ok (DemoNic.state, DemoNic.card)) = Ok (ok, Ok (s', d')) ∧ ok = true ∧
  ∃ p, DemoNic.out d' = [(0, 0, p)] ∧ pkt_bytes p = tso_bytes demo_frame 14 20.
Proof.
  destruct (@tso_offload DemoNic.nic DemoNic.demo DemoNic.in_use DemoNic.out DemoNic.demo_laws 0 0 eq_refl
    (demo_cd 2) demo_segs demo_lens 2 (demo_txq (demo_cd 2 :: demo_segs)) [] DemoNic.state DemoNic.card) as (ok & s' & d' & E & _ & _ & Hr); try done.
  - by apply demo_tso.
  - apply demo_txq_idle.
  - assert (match @hw_tso _ (dpdk_tx 0) demo_segs (mkTso 14 20 20 2) (Ok (DemoNic.state, DemoNic.card)) with Ok (b, _) => b | _ => false end = true) as Hok by (by vm_compute).
    exists ok, s', d'. split; [exact E|]. change (mkTso (maclen demo_lens) (iplen demo_lens) (l4len demo_lens) 2) with (mkTso 14 20 20 2) in E.
    unfold e810_tx in E. rewrite E in Hok. rewrite Hok in Hr. split; [exact Hok|]. destruct Hr as [(p & Hw & _ & Hb & _) _]. exists p. split; [exact Hw|exact Hb].
Defined.

Lemma plain_sent_witness : ∃ q', @trigger_tx_packet _ (dpdk_tx 0) (demo_txq [DemoNic.long]) (Ok (DemoNic.state, DemoNic.card)) =
  Ok (true, [1], q', Undef).
Proof.
  destruct (@plain_sent DemoNic.nic DemoNic.demo DemoNic.in_use DemoNic.out DemoNic.demo_laws 0 0 eq_refl
    [DemoNic.long] (mkLens 0 0 0 0) (demo_txq [DemoNic.long]) [] DemoNic.state 0 DemoNic.card (seg_bytes [DemoNic.long])) as (q' & r & E & _ & _ & Hr).
  - apply DemoNic.long_unit.
  - apply demo_txq_idle.
  - reflexivity.
  - rewrite DemoNic.long_len. done.
  - reflexivity.
  - reflexivity.
  - unfold e810_tx in E. exists q'. rewrite E. rewrite DemoNic.long_len in Hr. cbn in Hr. by rewrite Hr.
Defined.
