(* ===== verification/VmuxPolicy.v ===== *)
(** * The switch policy

    [SwitchPolicy] of policies.hpp: which virtual machine may receive the frames of
    a MAC address, and [E810EmulatedDevice::add_switch_rule] of e810.hpp. *)
From stdpp Require Import gmap.
From S2P Require Import Prelude.
Local Open Scope Z_scope.

(** [Util::macToInt]: eight bytes are read at the address of the six. *)
Definition macToInt (mac : list Z) : option Z := (fun w => 0xFFFFFFFFFFFF .& w) <$> load 8 mac 0.

(** MAC address to virtual machine. *)
Abbreviation SwitchPolicy := (gmap Z Z).

(** Whether the rule may be added. *)
Definition policy_add_switch_rule (vm_id mac : Z) (p : SwitchPolicy) : bool * SwitchPolicy :=
  match p !! mac with
  | Some owner => (owner =? vm_id, p)
  | None => (true, <[mac := vm_id]> p)
  end.

(** The rule goes to the driver if the policy accepts it; [driver] is the driver's
    answer.  What is returned, the calls of the driver, and the policy. *)
Definition add_switch_rule (driver : bool) (vm_id mac dst_queue : Z) (p : SwitchPolicy)
    : bool * list (Z * Z * Z) * SwitchPolicy :=
  let rule_installed := false in
  let '(policy_accepts, p) := policy_add_switch_rule vm_id mac p in
  let calls := if policy_accepts then let rule_installed := driver in [(vm_id, mac, dst_queue)] else [] in
  (rule_installed, calls, p).

(** Requests for a rule, by machine, address and queue: the calls of the driver. *)
Fixpoint add_switch_rules (driver : bool) (reqs : list (Z * Z * Z)) (p : SwitchPolicy)
    : list (Z * Z * Z) * SwitchPolicy :=
  match reqs with
  | [] => ([], p)
  | (vm, mac, q) :: reqs' =>
      let '(_, calls, p) := add_switch_rule driver vm mac q p in
      let '(calls', p) := add_switch_rules driver reqs' p in
      (calls ++ calls', p)
  end.

(** The machine that owns an address: the present owner, or the first one to ask. *)
Definition owner (p : SwitchPolicy) (reqs : list (Z * Z * Z)) (mac : Z) : option Z :=
  match p !! mac with
  | Some vm => Some vm
  | None => (fun r => r.1.1) <$> List.find (fun r => r.1.2 =? mac) reqs
  end.

Lemma add_switch_rules_spec driver reqs p :
  (add_switch_rules driver reqs p).1 = filter (fun r => owner p reqs r.1.2 = Some r.1.1) reqs ∧
  ∀ mac, (add_switch_rules driver reqs p).2 !! mac = owner p reqs mac.
Proof.
  revert p. induction reqs as [|[[vm mac] q] reqs IH]; intros p.
  { split; [done|]. intros mac. unfold owner. cbn. by destruct (p !! mac). }
  cbn [add_switch_rules]. unfold add_switch_rule, policy_add_switch_rule.
  destruct (p !! mac) as [o|] eqn:Ep.
  - assert (∀ m, owner p ((vm, mac, q) :: reqs) m = owner p reqs m) as Eo.
    { intros m. unfold owner. cbn. destruct (p !! m) eqn:Em; [done|]. destruct (Z.eqb_spec mac m) as [->|]; [congruence|done]. }
    destruct (IH p) as [H1 H2]. destruct (add_switch_rules driver reqs p) as [calls' p']. cbn [fst snd] in *.
    split; [|intros m; by rewrite Eo].
    rewrite filter_cons. cbn [fst snd]. rewrite H1.
    assert (filter (fun r => owner p ((vm, mac, q) :: reqs) r.1.2 = Some r.1.1) reqs = filter (fun r => owner p reqs r.1.2 = Some r.1.1) reqs) as ->
      by (apply list_filter_iff; intros r; by rewrite Eo).
    rewrite Eo. assert (owner p reqs mac = Some o) as -> by (unfold owner; by rewrite Ep).
    destruct (Z.eqb_spec o vm) as [->|]; [by rewrite decide_True|]. rewrite decide_False by congruence. done.
  - set (p1 := <[mac := vm]> p).
    assert (∀ m, owner p ((vm, mac, q) :: reqs) m = owner p1 reqs m) as Eo.
    { intros m. unfold owner, p1. destruct (decide (mac = m)) as [<-|Hne].
      - rewrite lookup_insert_eq, Ep. cbn. by rewrite Z.eqb_refl.
      - rewrite lookup_insert_ne by done. destruct (p !! m); [done|]. cbn. by rewrite (proj2 (Z.eqb_neq mac m)). }
    destruct (IH p1) as [H1 H2]. destruct (add_switch_rules driver reqs p1) as [calls' p']. cbn [fst snd] in *.
    split; [|intros m; by rewrite Eo].
    rewrite filter_cons. cbn [fst snd]. rewrite H1.
    assert (filter (fun r => owner p ((vm, mac, q) :: reqs) r.1.2 = Some r.1.1) reqs = filter (fun r => owner p1 reqs r.1.2 = Some r.1.1) reqs) as ->
      by (apply list_filter_iff; intros r; by rewrite Eo).
    rewrite Eo. assert (owner p1 reqs mac = Some vm) as -> by (unfold owner, p1; by rewrite lookup_insert_eq).
    by rewrite decide_True.
Qed.

(** Exclusive addresses: of any sequence of requests by any machines, exactly
    those reach the driver that come from the machine that owns the address,
    which is the first one to ask for it; so no two machines ever get rules for
    one address. *)
Theorem switch_exclusive driver reqs :
  (add_switch_rules driver reqs ∅).1 = filter (fun r => owner ∅ reqs r.1.2 = Some r.1.1) reqs ∧
  ∀ vm1 vm2 mac q1 q2, (vm1, mac, q1) ∈ (add_switch_rules driver reqs ∅).1 →
    (vm2, mac, q2) ∈ (add_switch_rules driver reqs ∅).1 → vm1 = vm2.
Proof.
  destruct (add_switch_rules_spec driver reqs ∅) as [-> _]. split; [done|].
  intros vm1 vm2 mac q1 q2 [H1 _]%list_elem_of_filter [H2 _]%list_elem_of_filter. cbn in H1, H2. congruence.
Qed.
